(* ===== verification/_CoqProject ===== *)
-Q . S2P
Prelude.v
Strings.v
Strconv.v
Quantity.v
Errors.v
QuotaResources.v
Database.v
AZConfig.v
ResourceTheorems.v
Hierarchical.v
QuotaSpec.v
QuotaRules.v
QuotaWrites.v
QuotaOrganization.v
QuotaDeletes.v
QuotaInvariant.v
QuotaRevisions.v
QuotaDecisions.v
QuotaTheorems.v
SpxId.v
ControllerQuota.v
ControllerLaws.v
ControllerTheorems.v
QuotaService.v
ServiceTheorems.v
EndToEnd.v
Router.v
RouterTheorems.v
Labels.v
NetPol.v
NetPolTheorems.v
Operator.v
ClusterStatus.v
ClusterTheorems.v
ClusterSettles.v
ClusterSync.v
ClusterSyncTheorems.v
Connections.v
Talos.v
ClusterDeploy.v
DeployTheorems.v
ClusterSafety.v
ClusterWitnesses.v
IP.v
IPText.v
Addresses.v
AddressTheorems.v
NetworkChecks.v
NetworkCheckTheorems.v
KubeOvn.v
Vpcs.v
Subnets.v
Eips.v
LoadBalancers.v
NetworkCalls.v
EipTheorems.v
SubnetTheorems.v
Products.v
Proxy.v
ProductHandlers.v
ProductKinds.v
Instances.v
ProductTheorems.v
ProductCreation.v
MergeTheorems.v
CreationTheorems.v
ProductWitnesses.v
AuditLog.v
AuditSweep.v
AuditService.v
AuditRecord.v
Authentication.v
AuthTheorems.v
Tenants.v
TenantTheorems.v
Management.v
Timestamps.v
Collector.v
CollectorTheorems.v
Removal.v
