(* ===== verification/Prelude.v ===== *)
(** * Superphenix: a verification library (root file)

    Superphenix is a cloud platform in three programs: the API ([internal/superphenix-api]), which
    keeps organizations, projects and quotas in a database; one controller per availability zone
    ([internal/superphenix-controller]), which turns requests into Kubernetes objects; and an
    operator ([internal/superphenix-operator]), which deploys the platform on its clusters. The
    library models the parts of them that decide something, in the order in which a request crosses
    them, and proves what each part promises to the next.

    ** Conventions

    A Go function is a Rocq function of the same name. A pair of a value and an error is a [result];
    a sequence of calls that may fail is written in a monad ([Database.M] for the database) or by
    passing the state of the client ([K], [C]) from call to call. A Go map is a [gmap], and a loop
    over it a [map_fold] or a fold over its entries, whose results are shown not to depend on the
    order where the code relies on it; a nil pointer, and a nil slice or map that the code tells
    apart, is [None]. Integers are [Z], with the 64-bit wrap-around written out
    ([wrap64], [Strconv.ParseInt]) where it can matter. Code that is not in the repository is a class:
    the quantities of Kubernetes ([Quantity]), UUIDs, the HTTP client ([QuotaService]), the API server
    ([ControllerQuota.KubeClient], [NetPol.NetPolClient], [Operator.OperatorClient]), semantic
    versions, ArgoCD objects. The laws that theorems assume of it are classes of their own
    ([QuantityLaws], [KubeLaws], [NetPolLaws]); each has an executable instance, on which the
    witnesses are evaluated.

    ** Files

    - Shared: [Prelude]; [Strings] and [Strconv], the functions of Go's [strings] and [strconv];
      [Errors].
    - Quotas as data: [Quantity], [QuotaResources] ([pkg/quota/resources.go]), their theorems in
      [ResourceTheorems].
    - Quotas in the database: [Database] (tables, transactions, failing statements), [AZConfig],
      [Hierarchical] ([crud/quota/hierarchical.go], [crud/project], [crud/organization]).
      [QuotaSpec] states the capacity rules as sums over the tables. [QuotaRules]
      shows that the checks decide these rules; [QuotaWrites],
      [QuotaOrganization] and [QuotaDeletes] that the writes keep them;
      [QuotaInvariant] and [QuotaRevisions] lift this to operations and to every sequence of requests;
      [QuotaDecisions] says what each operation accepts and what each read answers, and holds a small
      deployment; [QuotaTheorems] has the theorems and their witnesses.
    - The controller: [SpxId] ([pkg/superphenix-id]), [ControllerQuota] ([internal/k8s/quota]),
      [ControllerLaws] (with a small cluster), [ControllerTheorems].
    - From the API to the controllers: [QuotaService] ([internal/quotasync] and the HTTP handlers),
      [ServiceTheorems], and [EndToEnd], which plugs the controllers into the HTTP client of the API.
    - [Router] ([pkg/router/registry.go]) and [RouterTheorems].
    - Requests of the controller: [Labels] ([internal/utils]), [NetPol] ([internal/k8s/netpol],
      [pkg/api/k8s/securitygroup.go]), with [NetPolTheorems].
    - The operator: [Operator] (the Cluster resource, what the operator calls,
      [version/compatibility.go] and [cluster/validation.go]), [ClusterStatus] ([cluster/status.go]),
      [ClusterSync] ([cluster/sub_applications.go], [cleanup.go], [configmap.go],
      [cluster_controller.go]), with [ClusterTheorems], [ClusterSettles] and
      [ClusterSyncTheorems]. [Connections] (the credentials and the health check), [Talos]
      ([talos_manager.go]) and [ClusterDeploy] ([application.go], [project.go] and
      [reconcileCluster]), with [DeployTheorems], [ClusterSafety] (the calls of a
      complete [Reconcile]) and [ClusterWitnesses].
    - The networks of the controller: [IP], the part of Go's [net] and [net/netip] that they use,
      with [IPText] (what is printed is read back); [Addresses] ([internal/utils/ip.go])
      with [AddressTheorems]; [NetworkChecks], the checks of the
      requests, with [NetworkCheckTheorems]; [KubeOvn], the objects and the clients; [Vpcs]
      ([kubeovn/vpc], [kubeovn/nat_gateway]), [Subnets], [Eips] and [LoadBalancers], the operations
      and their endpoints. [NetworkCalls] is the logic of their calls: a cluster is any function of
      the calls made before, and [wp] says what a run calls and answers. [SubnetTheorems] (with
      the routes) and [EipTheorems] (with the rules and the load balancers) use it.
    - The products of the API ([pkg/services/controller]): [Products] (the paths of the requests, the
      rows, the controllers as an HTTP client that answers anything), [Proxy]
      ([publicHttp/proxy]), [ProductHandlers] ([merge.go], the lists over all zones, and what the
      handlers of all kinds share: [common.go], [utils.go]), [ProductKinds] (the bodies and the handlers of each kind: VPCs, subnets, addresses, load balancers, security
      groups, disks, snapshots, buckets, keys), [Instances] ([instance.go], [vmsnapshot.go] and
      [defaultInit.go]). [ProductTheorems] relates every handler to the rows that it reads and the
      requests that it sends; [ProductCreation] and [CreationTheorems] follow creations and deletions,
      instances and default resources included; [MergeTheorems] is about the lists and the proxy;
      [ProductWitnesses] has the inputs.
    - The audit log: [AuditLog] (the tables and [crud/audit-event]), [AuditSweep] ([audit/gc], with the
      theorems on the sweep), [AuditService] ([iam/auditlog], the searches and the retentions),
      [AuditRecord] ([pkg/audit], the record of a request, with the witnesses of the audit log).
    - Who a request comes from: [Authentication] ([internal/authentication/jwt],
      [publicHttp/authentication], [auth/apitoken], [auth/session], [internal/authorization]), with
      [AuthTheorems].
    - Projects, organizations and the management of the operator: [Tenants] ([project], [organization],
      [db]) with [TenantTheorems]; [Management] ([management], [pkg/utils/maps.go]) with its theorems.
      Their servers answer anything; [TenantTheorems.safe] says which calls a run may make.
    - What is deleted, and when: [Timestamps] (the part of Go's [time] that writes and reads dates);
      [Collector] ([internal/gc], [pkg/gc] and [pkg/api/gc] of the controller), with [CollectorTheorems];
      [Removal] ([internal/argo], [publicHttp/gc] and the removal of a project in the API), with its
      theorems. Goroutines are trees of requests ([Collector.Thread]); [Collector.runs] lets those of a
      group make their requests in any order, and [CollectorTheorems.holds] is a rely-guarantee logic
      for them.

    ** Theorems

    - Capacity: in every reachable world no child is allocated more than its parent has, whichever
      statements and hooks fail; each write accepts exactly what fits and answers the documented
      error otherwise; a failed write changes nothing; a changed effective quota always has a newer
      revision; a limit is lowered only after the clusters have accepted it.
    - Resources: parsing decides the documented grammar, stored quotas are read back exactly, sums
      saturate at the largest 64-bit integer, in any order.
    - Controllers: applying a quota is one atomic step of an abstract specification, under
      concurrent clients and retries, and an older revision never overwrites a newer one; removing one
      is a read and a deletion, which other clients may separate.
    - Synchronisation and service: among the requests of a successful push, one has taken the cluster of every
      availability zone through the step that enforces the effective quota of the tables; what fails is reported; an error answer has changed no table.
    - Router: the registry builds a flat specification of itself, and no override or removal lets a
      route escape its module or the audit; an override brings its own middlewares, in place of the others.
    - Network policies: a policy selects and lets through exactly what the request says, one without
      any rule isolating its pods for ingress, as Kubernetes reads it; and policies of other projects are neither seen nor written.
    - Operator: the phase and the Ready condition as functions of what a reconciliation observed;
      a second reconciliation changes nothing; the finalizer of a cluster outlives its Applications;
      a synchronisation triggers nothing before its period and terminates only what is stuck. The
      last two hold for every API server: they are properties of the calls that are made. A Ready
      cluster has, in this order and from state to state of the same run, answered, had its AppProject written,
      been accepted, and had its Application and its entry written; a node is restarted for PXE once; the
      health check and ArgoCD accept the same credentials.
    - Networks: inclusion of blocks and available addresses are what arithmetic says, for both
      families; subnets, routes, targets of public addresses and load balancers are accepted exactly
      when they are inside what the project may use; nothing is written to an object of another
      project or to a protected one, whatever the cluster answers, the deletion of a VPC apart, which does not
      look for the protection; a failed creation is undone.
    - Products: of the eleven kinds that are modelled, and the clone of a snapshot apart, no handler
      changes or asks a controller for a product of another project; a creation during which the database
      does not fail is sent only within the quota, and one that is refused leaves no row; a list over the zones is
      what each zone answered, in order; what the proxy sends is the request that it received; the
      default resources of a project are complete when their creation succeeds.
    - Audit log: a request leaves at most one event, with its outcome; a search shows what its reader may
      see; a sweep always ends, and deletes exactly what is older than the retention that the
      organization is told, up to 106751 days, beyond which the code overflows.
    - Authentication: a request goes on only as an active user who holds a live token of their own and
      the permissions of the route; a token that was given is accepted until its end, and only for its
      use; tokens are only sent to allowed origins.
    - Projects, organizations, management: nothing is deployed for a project that is not bound, no
      finalizer outlives or precedes what it protects, ArgoCD is installed by Helm only after the read of its
      Application has failed, with whatever error, or without network plugin; and the values of its chart,
      and of its Application, are those that were read, layered path by path.
    - Deletions: a collection deletes only what was listed with a mark whose date has passed, level after
      level, and always ends; a marking that succeeds has marked everything that was listed, and the date
      that it writes is read back; the rows of a project go only after every zone has answered the marking with
      200, or with 404; a sweep of ArgoCD deletes applications, waits a minute, then deletes AppProjects, all
      under a lock, which keeps the replicas from deleting at the same time.

    ** Bounds and assumptions

    Loops over slices and maps are structural. Two recursions have fuel: [Strings.trimPrefixes], for
    which the length of the string is enough ([Strings.trimPrefixes_enough]), and the batches of the sweep
    of the audit log, for which more than the number of events is ([AuditSweep.Sweep_terminates]). The retries
    of a conflicting update are those of [retry.RetryOnConflict], a function of the client, of which
    only the documented behaviour is assumed: it returns the first attempt that has no conflict, or
    the last one.

    The transactions of one organization are serialised by the lock that the code takes on it, so
    that a request is atomic with respect to the other requests of the organization; the pushes to
    several availability zones, concurrent in the code, are run in the order of the zones.

    ** Not modelled

    Of the products, the JSON encoding of the bodies is a class, the managed clusters and backups, the
    summary, the redirects to the metadata service and to ArgoCD and the trace identifiers are left
    out. Of authentication, the enrolment of the users of Kratos and its sessions are left out;
    signatures, the hash and the relations of Permify are classes. Groups and memberships are not modelled. Of the deletions, the
    tickers, the timeouts and the start of the informers are left out: a collection is what one tick
    starts. Of ArgoCD, the connection and the views of the applications are left out. The rest of the
    controller builds KubeVirt, Rook and Kamaji objects, whose meaning is that of these projects. Of the networks, the lists and the
    views are left out, the caches of the informers hold typed objects, a network attachment
    definition is the provider that its JSON text names, and waiting has no effect. In the operator, the
    dynamic watch of the Applications, what Helm does and the environment it is given are left out. Migrations, metrics, tracing, start-up and generated code have no logic
    of their own. *)

From stdpp Require Export base gmap sets list strings sorting pretty numbers.
From stdpp Require Export fin_maps.

#[global] Set Default Goal Selector "!".

(** Hints of the library: [spx] closes the routine side conditions. *)
Create HintDb spx.

Declare Scope spx_scope.
Delimit Scope spx_scope with spx.
#[global] Open Scope Z_scope.
#[global] Open Scope spx_scope.

(** ** Results

    Go's [(value, error)] pairs: a value when the error is nil, an error otherwise. *)
Inductive result (E A : Type) : Type :=
  | Ok (a : A)
  | Err (e : E).
Arguments Ok {E A} a.
Arguments Err {E A} e.

#[global] Instance result_ret {E} : MRet (result E) := λ A a, Ok a.
#[global] Instance result_bind {E} : MBind (result E) := λ A B f m,
  match m with Ok a => f a | Err e => Err e end.
#[global] Instance result_fmap {E} : FMap (result E) := λ A B f m,
  match m with Ok a => Ok (f a) | Err e => Err e end.

#[global] Instance result_eq_dec {E A} `{EqDecision E, EqDecision A} : EqDecision (result E A).
Proof. solve_decision. Defined.

Definition is_Ok {E A} (m : result E A) : bool :=
  match m with Ok _ => true | Err _ => false end.

Section result_lemmas.
Context {E A B : Type}.
Implicit Types (m : result E A) (f : A → result E B).

Lemma result_bind_Ok m f b : m ≫= f = Ok b → ∃ a, m = Ok a ∧ f a = Ok b.
Proof. destruct m; simpl; [eauto | discriminate]. Qed.

Lemma result_bind_Err m f e : m ≫= f = Err e → m = Err e ∨ ∃ a, m = Ok a ∧ f a = Err e.
Proof. destruct m; simpl; [eauto | intros [= ->]; by left]. Qed.
End result_lemmas.

(** [foldM] is a Go loop over a slice that returns at the first error. *)
Fixpoint foldM {E A B} (f : B → A → result E B) (b : B) (l : list A) : result E B :=
  match l with
  | [] => Ok b
  | x :: l => b' ← f b x; foldM f b' l
  end.

(** ** 64-bit integers *)
Definition MinInt64 : Z := - 2 ^ 63.
Definition MaxInt64 : Z := 2 ^ 63 - 1.

(** The two's complement value of an integer on 64 bits. *)
Definition wrap64 (z : Z) : Z := (z + 2 ^ 63) `mod` 2 ^ 64 - 2 ^ 63.

Definition int64 (z : Z) : Prop := MinInt64 ≤ z ≤ MaxInt64.

#[global] Instance int64_decision z : Decision (int64 z).
Proof. unfold int64. apply _. Defined.

Lemma wrap64_id z : int64 z → wrap64 z = z.
Proof. unfold int64, wrap64, MinInt64, MaxInt64. intros. rewrite Z.mod_small; lia. Qed.

Lemma wrap64_int64 z : int64 (wrap64 z).
Proof.
  unfold int64, wrap64, MinInt64, MaxInt64.
  pose proof (Z.mod_pos_bound (z + 2 ^ 63) (2 ^ 64) ltac:(lia)). lia.
Qed.

(** ** Reading a Go map of numbers: an absent key reads as 0. *)
Definition get (q : gmap string Z) (name : string) : Z := default 0 (q !! name).

(** ** Sums *)
Definition zsum (l : list Z) : Z := foldr Z.add 0 l.

Lemma zsum_app l1 l2 : zsum (l1 ++ l2) = zsum l1 + zsum l2.
Proof. induction l1; simpl; lia. Qed.

#[global] Instance zsum_Permutation : Proper ((≡ₚ) ==> (=)) zsum.
Proof. induction 1; simpl in *; lia. Qed.

Lemma zsum_nonneg l : Forall (λ z, 0 ≤ z) l → 0 ≤ zsum l.
Proof. induction 1; simpl; lia. Qed.

Lemma zsum_map_const {A} (c : Z) (l : list A) : zsum ((λ _, c) <$> l) = Z.of_nat (length l) * c.
Proof. induction l; csimpl; lia. Qed.

Lemma zsum_fmap_add {A} (f g : A → Z) l :
  zsum ((λ a, f a + g a) <$> l) = zsum (f <$> l) + zsum (g <$> l).
Proof. induction l; csimpl; lia. Qed.

Lemma zsum_fmap_le {A} (f g : A → Z) l :
  (∀ a, a ∈ l → f a ≤ g a) → zsum (f <$> l) ≤ zsum (g <$> l).
Proof.
  induction l as [|a l IH]; intros Hle; csimpl; [lia|].
  pose proof (Hle a ltac:(set_solver)).
  pose proof (IH ltac:(set_solver)). lia.
Qed.

Lemma zsum_fmap_ext {A} (f g : A → Z) l :
  (∀ a, a ∈ l → f a = g a) → zsum (f <$> l) = zsum (g <$> l).
Proof.
  intros Heq. assert (f <$> l = g <$> l) as ->; [|done].
  apply list_fmap_ext. intros i a Hi. apply Heq, list_elem_of_lookup. eauto.
Qed.

(** [sum_map f m] is the sum of [f k v] over the entries of [m]. *)
Definition sum_map {K} `{Countable K} {V} (f : K → V → Z) (m : gmap K V) : Z :=
  zsum ((λ kv, f kv.1 kv.2) <$> map_to_list m).

Section sum_map.
Context {K : Type} `{Countable K} {V : Type}.
Implicit Types (m : gmap K V) (f g : K → V → Z).

Lemma sum_map_empty f : sum_map f ∅ = 0.
Proof. unfold sum_map. by rewrite map_to_list_empty. Qed.

Lemma sum_map_insert f m k v :
  m !! k = None → sum_map f (<[k:=v]> m) = f k v + sum_map f m.
Proof. intros Hk. unfold sum_map. by rewrite map_to_list_insert. Qed.

Lemma sum_map_delete f m k v :
  m !! k = Some v → sum_map f m = f k v + sum_map f (delete k m).
Proof.
  intros Hk. rewrite <-(insert_delete_id m k v) at 1 by done.
  by rewrite sum_map_insert by apply lookup_delete_eq.
Qed.

(** Replacing an entry changes the sum by the difference of the two values. *)
Lemma sum_map_insert_any f m k v :
  sum_map f (<[k:=v]> m) = f k v + (sum_map f m - default 0 (f k <$> m !! k)).
Proof.
  rewrite <-insert_delete_eq, sum_map_insert by apply lookup_delete_eq.
  destruct (m !! k) as [v'|] eqn:Hk; simpl.
  - rewrite (sum_map_delete f m k v') by done. lia.
  - rewrite delete_id by done. lia.
Qed.

Lemma sum_map_ext f g m :
  (∀ k v, m !! k = Some v → f k v = g k v) → sum_map f m = sum_map g m.
Proof.
  intros Heq. unfold sum_map. apply zsum_fmap_ext.
  intros [k v] Hin%elem_of_map_to_list. by apply Heq.
Qed.

Lemma sum_map_le f g m :
  (∀ k v, m !! k = Some v → f k v ≤ g k v) → sum_map f m ≤ sum_map g m.
Proof.
  intros Heq. unfold sum_map. apply zsum_fmap_le.
  intros [k v] Hin%elem_of_map_to_list. by apply Heq.
Qed.

Lemma sum_map_nonneg f m : (∀ k v, m !! k = Some v → 0 ≤ f k v) → 0 ≤ sum_map f m.
Proof.
  intros Hf. transitivity (sum_map (λ _ _, 0) m); [|by apply sum_map_le].
  unfold sum_map. rewrite zsum_map_const. lia.
Qed.

Lemma sum_map_add f g m :
  sum_map (λ k v, f k v + g k v) m = sum_map f m + sum_map g m.
Proof. apply zsum_fmap_add. Qed.

(** A nonnegative sum bounds each of its terms. *)
Lemma sum_map_elem f m k v :
  (∀ k v, m !! k = Some v → 0 ≤ f k v) → m !! k = Some v → f k v ≤ sum_map f m.
Proof.
  intros Hf Hk. rewrite (sum_map_delete f m k v) by done.
  enough (0 ≤ sum_map f (delete k m)) by lia.
  apply sum_map_nonneg. intros k' v' [? ?]%lookup_delete_Some. by apply Hf.
Qed.
End sum_map.

(** ** Strings *)
Lemma app_empty (s : string) : s +:+ EmptyString = s.
Proof. induction s as [|c s IH]; [done|]. exact (f_equal (String c) IH). Qed.

(** ** Sorting: Go's [slices.Sort] on strings orders them bytewise. *)
Definition sort_strings (l : list string) : list string := merge_sort String.le l.

Lemma sort_strings_Permutation l : sort_strings l ≡ₚ l.
Proof. apply merge_sort_Permutation. Qed.

Lemma sort_strings_Sorted l : Sorted String.le (sort_strings l).
Proof. apply Sorted_merge_sort. apply _. Qed.

Lemma elem_of_sort_strings x l : x ∈ sort_strings l ↔ x ∈ l.
Proof. by rewrite sort_strings_Permutation. Qed.

(** The keys of a Go map, as [slices.Sorted(maps.Keys(m))] lists them. *)
Definition sorted_keys {V} (m : gmap string V) : list string := sort_strings (map_to_list m).*1.

Lemma elem_of_sorted_keys {V} (m : gmap string V) k : k ∈ sorted_keys m ↔ is_Some (m !! k).
Proof.
  unfold sorted_keys. rewrite elem_of_sort_strings, list_elem_of_fmap. split.
  - intros ([k' v] & -> & Hin%elem_of_map_to_list). eauto.
  - intros [v Hv]. exists (k, v). by rewrite elem_of_map_to_list.
Qed.

Lemma sorted_keys_NoDup {V} (m : gmap string V) : NoDup (sorted_keys m).
Proof. unfold sorted_keys. rewrite sort_strings_Permutation. apply NoDup_fst_map_to_list. Qed.

(** ** Loops over a list of distinct keys

    A loop whose step only changes what is seen at its own key changes what is seen at every key
    of the list, once. *)
Lemma foldl_local {S K X} `{EqDecision K} (view : S → K → X) (step : S → K → S) (F : K → X → X) l st k :
  (∀ st k k', k ∈ l → view (step st k) k' = if decide (k' = k) then F k (view st k) else view st k') →
  NoDup l →
  view (foldl step st l) k = if decide (k ∈ l) then F k (view st k) else view st k.
Proof.
  revert st. induction l as [|k1 l IH]; intros st Hstep Hnd; cbn [foldl].
  { rewrite decide_False by set_solver. done. }
  apply NoDup_cons in Hnd as [Hk1 Hnd].
  rewrite IH by (done || (intros; apply Hstep; set_solver)).
  rewrite !Hstep by set_solver. destruct (decide (k = k1)) as [->|Hne].
  - rewrite decide_False by done. rewrite decide_True by set_solver. done.
  - destruct (decide (k ∈ l)); [rewrite decide_True by set_solver | rewrite decide_False by set_solver];
      done.
Qed.

(** What no step of a loop changes, the loop does not change. *)
Lemma foldl_unchanged {S A X} (view : S → X) (step : S → A → S) l st :
  (∀ st a, view (step st a) = view st) → view (foldl step st l) = view st.
Proof. intros Hstep. revert st. induction l; intros st; simpl; [done|]. by rewrite IHl. Qed.

(** ** Loops over a map

    A loop over a map whose body only touches the entry of the current key computes a pointwise
    result, in whatever order the map is visited. *)
Section range.
Context {V W : Type}.

Lemma lookup_range (f : string → V → gmap string W → gmap string W)
    (g : string → V → option W → option W) (b : gmap string W) (m : gmap string V) n :
  (∀ k v res i, f k v res !! i = if decide (i = k) then g k v (res !! k) else res !! i) →
  map_fold f b m !! n = match m !! n with Some v => g n v (b !! n) | None => b !! n end.
Proof.
  intros Hf. revert n.
  apply (map_fold_weak_ind (λ res m, ∀ n,
    res !! n = match m !! n with Some v => g n v (b !! n) | None => b !! n end)).
  - intros n. by rewrite lookup_empty.
  - intros k v m' res Hk IH n. rewrite Hf. case_decide as Hn.
    + subst. by rewrite lookup_insert_eq, IH, Hk.
    + by rewrite lookup_insert_ne by done.
Qed.
End range.

(** Proves the hypothesis of [lookup_range] for a body that assigns the current key. *)
Ltac solve_range :=
  intros; repeat case_match; simplify_eq/=;
  repeat match goal with
  | |- context [decide (?i = ?k)] => destruct (decide (i = k)) as [->|?]
  end;
  simplify_map_eq; try done.

(** ** Indexing a list by key *)
Section foldl_insert.
Context {K : Type} `{Countable K} {V W : Type} (f : V → W).

Lemma foldl_insert_notin (l : list (K * V)) (b : gmap K W) k :
  k ∉ l.*1 → foldl (λ m '(k, x), <[k:=f x]> m) b l !! k = b !! k.
Proof.
  revert b. induction l as [|[k' x] l IH]; intros b; [done|].
  cbn. intros [Hne Hin]%not_elem_of_cons. rewrite IH by done. by rewrite lookup_insert_ne.
Qed.

Lemma foldl_insert_in (l : list (K * V)) (b : gmap K W) k x :
  NoDup l.*1 → (k, x) ∈ l → foldl (λ m '(k, x), <[k:=f x]> m) b l !! k = Some (f x).
Proof.
  revert b. induction l as [|[k' x'] l IH]; intros b; [set_solver|].
  cbn. intros [Hk' Hnd]%NoDup_cons [[= -> ->]|Hin]%elem_of_cons; [|by apply IH].
  rewrite foldl_insert_notin by done. apply lookup_insert_eq.
Qed.
End foldl_insert.

(** Sums over the entries of an index. *)
Lemma sum_map_permutation {K} `{Countable K} {V} (f : K → V → Z) (m : gmap K V) l :
  l ≡ₚ map_to_list m → sum_map f m = zsum ((λ kv, f kv.1 kv.2) <$> l).
Proof. intros Hl. unfold sum_map. by rewrite Hl. Qed.

(** A sum over a map is a sum over any larger map, the missing entries counting 0. *)
Lemma sum_map_extend {K} `{Countable K} {V W} (f : K → V → Z) (m1 : gmap K V) (m2 : gmap K W) :
  (∀ k, is_Some (m1 !! k) → is_Some (m2 !! k)) →
  sum_map f m1 = sum_map (λ k _, default 0 (f k <$> m1 !! k)) m2.
Proof.
  revert m1. induction m2 as [|k w m2 Hk IH] using map_ind; intros m1 Hsub.
  - assert (m1 = ∅) as ->; [|done]. apply map_empty. intros k.
    apply eq_None_not_Some. intros [x Hx]%Hsub. by rewrite lookup_empty in Hx.
  - rewrite sum_map_insert by done.
    assert (∀ k', is_Some (delete k m1 !! k') → is_Some (m2 !! k')) as Hdel.
    { intros k' [x [Hne Hx]%lookup_delete_Some].
      destruct (Hsub k') as [y Hy]; [eauto|]. rewrite lookup_insert_ne in Hy by done. eauto. }
    assert (sum_map f (delete k m1) = sum_map (λ k _, default 0 (f k <$> m1 !! k)) m2) as <-.
    { rewrite IH by done. apply sum_map_ext. intros k' w' Hk'.
      rewrite lookup_delete_ne by congruence. done. }
    destruct (m1 !! k) as [x|] eqn:Hx; simpl.
    + by rewrite (sum_map_delete f m1 k x).
    + by rewrite delete_id.
Qed.

(** Capping the terms of a sum of nonnegative numbers does not change the capped sum. *)
Lemma zsum_capped {A} (c : Z) (f : A → Z) (l : list A) :
  0 ≤ c → (∀ a, a ∈ l → 0 ≤ f a) →
  Z.min c (zsum ((λ a, Z.min c (f a)) <$> l)) = Z.min c (zsum (f <$> l)).
Proof.
  intros Hc. induction l as [|a l IH]; intros Hl; csimpl; [done|].
  assert (0 ≤ f a) by (apply Hl; left).
  assert (0 ≤ zsum (f <$> l)).
  { apply zsum_nonneg, Forall_fmap, Forall_forall. intros x Hx. apply Hl. by right. }
  assert (0 ≤ zsum ((λ a, Z.min c (f a)) <$> l)).
  { apply zsum_nonneg, Forall_fmap, Forall_forall. intros x Hx. simpl.
    assert (0 ≤ f x) by (apply Hl; by right). lia. }
  assert (Z.min c (zsum ((λ a, Z.min c (f a)) <$> l)) = Z.min c (zsum (f <$> l))) by set_solver.
  lia.
Qed.

(** A sum is bounded by another one that bounds its positive terms, key by key. *)
Lemma sum_map_mono {K} `{Countable K} {V W} (f : K → V → Z) (g : K → W → Z)
    (m1 : gmap K V) (m2 : gmap K W) :
  (∀ k w, m2 !! k = Some w → 0 ≤ g k w) →
  (∀ k v, m1 !! k = Some v → f k v ≤ 0 ∨ ∃ w, m2 !! k = Some w ∧ f k v ≤ g k w) →
  sum_map f m1 ≤ sum_map g m2.
Proof.
  revert m2. induction m1 as [|k v m1 Hk IH] using map_ind; intros m2 Hg Hle.
  { rewrite sum_map_empty. by apply sum_map_nonneg. }
  rewrite sum_map_insert by done.
  assert (∀ k' v', m1 !! k' = Some v' →
    f k' v' ≤ 0 ∨ ∃ w, delete k m2 !! k' = Some w ∧ f k' v' ≤ g k' w) as Hdel.
  { intros k' v' Hk'. assert (k' ≠ k) by congruence.
    rewrite lookup_delete_ne by done. apply Hle. by rewrite lookup_insert_ne. }
  destruct (m2 !! k) as [w|] eqn:Hw.
  - rewrite (sum_map_delete g m2 k w) by done.
    assert (sum_map f m1 ≤ sum_map g (delete k m2)).
    { apply IH; [|done]. intros k' w' [_ ?]%lookup_delete_Some. by apply Hg. }
    pose proof (Hg k w Hw). destruct (Hle k v) as [?|(w' & ? & ?)]; [apply lookup_insert_eq|lia|].
    simplify_eq. lia.
  - rewrite delete_id in Hdel by done. pose proof (IH m2 Hg Hdel).
    destruct (Hle k v) as [?|(w' & ? & ?)]; [apply lookup_insert_eq|lia|congruence].
Qed.

(** A loop that fills a map with what [f] makes of each entry, or stops at the first error. *)
Lemma foldM_insert_spec {E K V W} `{Countable K} (f : K → V → result E W) (l : list (K * V))
    (b : gmap K W) :
  NoDup l.*1 →
  match foldM (λ (m : gmap K W) kv, x ← f kv.1 kv.2; Ok (<[kv.1:=x]> m)) b l with
  | Ok m => (∀ k v, (k, v) ∈ l → ∃ x, f k v = Ok x ∧ m !! k = Some x) ∧
      ∀ k, k ∉ l.*1 → m !! k = b !! k
  | Err e => ∃ k v, (k, v) ∈ l ∧ f k v = Err e
  end.
Proof.
  revert b. induction l as [|[k v] l IH]; intros b Hnd; cbn [foldM]; [split; [set_solver|done]|].
  apply NoDup_cons in Hnd as [Hk Hnd]. cbn [fst snd].
  destruct (f k v) as [x|e] eqn:Hx; cbn [mbind result_bind]; [|exists k, v; split; [left|done]].
  specialize (IH (<[k:=x]> b) Hnd). destruct (foldM _ _ l) as [m|e].
  - destruct IH as [Hin Hout]. split.
    + intros k' v' [[= -> ->]|Hl]%elem_of_cons; [|by apply Hin].
      exists x. split; [done|]. rewrite Hout by done. apply lookup_insert_eq.
    + intros k' [? ?]%not_elem_of_cons. rewrite Hout by done. by rewrite lookup_insert_ne.
  - destruct IH as (k' & v' & ? & ?). exists k', v'. split; [by right|done].
Qed.

(** Proves a closed decidable statement by evaluation. *)
Ltac evaluate :=
  match goal with
  | |- ?a = true => vm_compute; reflexivity
  | |- ?P => refine (bool_decide_unpack P _); vm_compute; exact I
  end.

(** ** The last element of each key *)

(** The last element with a key. *)
Definition lastOf {A} (key : A → string) (l : list A) (k : string) : option A := last (filter (λ x, key x = k) l).

Lemma lastOf_snoc {A} (key : A → string) l x k :
  lastOf key (l ++ [x]) k = if decide (key x = k) then Some x else lastOf key l k.
Proof.
  unfold lastOf. rewrite filter_app. case_decide as Hk.
  - rewrite filter_cons_True, filter_nil by done. by rewrite last_snoc.
  - rewrite filter_cons_False, filter_nil by done. by rewrite app_nil_r.
Qed.

Lemma lastOf_Some {A} (key : A → string) l k x : lastOf key l k = Some x → x ∈ l ∧ key x = k.
Proof. unfold lastOf. intros Hl. apply last_Some_elem_of, list_elem_of_filter in Hl. tauto. Qed.
