(* ===== verification/Strings.v ===== *)
(** * Texts (Go's [strings])

    The functions of the package [strings] that the modelled code calls, on lists of bytes. *)

From S2P Require Import Prelude.

(** [strings.HasPrefix] *)
Fixpoint HasPrefix (s prefix : string) : bool :=
  match prefix, s with
  | EmptyString, _ => true
  | String p prefix, String c s => bool_decide (c = p) && HasPrefix s prefix
  | _, EmptyString => false
  end.

(** [strings.Contains] *)
Fixpoint Contains (s substr : string) : bool :=
  HasPrefix s substr ||
  match s with EmptyString => false | String _ s => Contains s substr end.

Lemma HasPrefix_spec s prefix : HasPrefix s prefix = true ↔ ∃ rest, s = prefix +:+ rest.
Proof.
  revert s. induction prefix as [|p prefix IH]; intros s.
  - split; [by exists s|]. by destruct s.
  - destruct s as [|c s]; simpl.
    + split; [done|]. by intros [rest [=]].
    + rewrite andb_true_iff, bool_decide_eq_true, IH. split.
      * intros [-> [rest ->]]. by exists rest.
      * intros [rest [= -> ->]]. eauto.
Qed.

Lemma Contains_spec s substr :
  Contains s substr = true ↔ ∃ before after, s = before +:+ substr +:+ after.
Proof.
  induction s as [|c s IH]; cbn [Contains]; rewrite orb_true_iff, HasPrefix_spec.
  - split.
    + intros [[rest Hr]|[=]]. by exists EmptyString, rest.
    + intros ([|] & after & [=]). left. by exists after.
  - rewrite IH. split.
    + intros [[rest Hr]|(before & after & ->)]; [by exists EmptyString, rest|].
      by exists (String c before), after.
    + intros ([|c' before] & after & Hs); simpl in Hs.
      * left. by exists after.
      * injection Hs as <- ->. right. eauto.
Qed.

(** [strings.Join] *)
Fixpoint join (separator : string) (l : list string) : string :=
  match l with
  | [] => EmptyString
  | [s] => s
  | s :: l => s +:+ separator +:+ join separator l
  end.

(** [strings.Split], with a separator of one byte. *)
Fixpoint Split (s : string) (sep : Ascii.ascii) : list string :=
  match s with
  | EmptyString => [EmptyString]
  | String c s =>
    if decide (c = sep) then EmptyString :: Split s sep
    else match Split s sep with
         | [] => []
         | part :: parts => String c part :: parts
         end
  end.

(** [strings.Cut], with a separator of one byte: before, after, found. *)
Fixpoint Cut (s : string) (sep : Ascii.ascii) : string * string * bool :=
  match s with
  | EmptyString => (EmptyString, EmptyString, false)
  | String c s' =>
    if decide (c = sep) then (EmptyString, s', true)
    else let '(before, after, found) := Cut s' sep in (String c before, after, found)
  end.

(** The byte occurs in the text. *)
Fixpoint occurs (c : Ascii.ascii) (s : string) : bool :=
  match s with
  | EmptyString => false
  | String c' s => bool_decide (c' = c) || occurs c s
  end.

Definition all_bytes (p : Ascii.ascii → bool) : string → bool :=
  fix all s := match s with EmptyString => true | String c s => p c && all s end.

Definition byte (n : N) : Ascii.ascii := Ascii.ascii_of_N n.

Definition bytes (l : list N) : string := foldr (λ n s, String (byte n) s) EmptyString l.

(** The UTF-8 encodings of the runes that [unicode.IsSpace] accepts. *)
Definition spaces : list string := bytes <$>
  ([[9]; [10]; [11]; [12]; [13]; [32]; [0xC2; 0x85]; [0xC2; 0xA0]; [0xE1; 0x9A; 0x80];
    [0xE2; 0x80; 0x80]; [0xE2; 0x80; 0x81]; [0xE2; 0x80; 0x82]; [0xE2; 0x80; 0x83];
    [0xE2; 0x80; 0x84]; [0xE2; 0x80; 0x85]; [0xE2; 0x80; 0x86]; [0xE2; 0x80; 0x87];
    [0xE2; 0x80; 0x88]; [0xE2; 0x80; 0x89]; [0xE2; 0x80; 0x8A]; [0xE2; 0x80; 0xA8];
    [0xE2; 0x80; 0xA9]; [0xE2; 0x80; 0xAF]; [0xE2; 0x81; 0x9F]; [0xE3; 0x80; 0x80]] : list (list N))%N.

(** The text after the prefix, if it has it. *)
Fixpoint cutPrefix (prefix s : string) : option string :=
  match prefix, s with
  | EmptyString, _ => Some s
  | String p prefix, String c s => if decide (c = p) then cutPrefix prefix s else None
  | _, EmptyString => None
  end.

(** Removes the prefixes among [cutset] from the left; each removal shortens the text. *)
Fixpoint trimPrefixes (fuel : nat) (cutset : list string) (s : string) : string :=
  match fuel with
  | O => s
  | S fuel => match head (omap (λ prefix, cutPrefix prefix s) cutset) with
              | Some s' => trimPrefixes fuel cutset s'
              | None => s
              end
  end.

(** [strings.TrimSpace]: a rune at the end of a text is the suffix that encodes it. *)
Definition TrimSpace (s : string) : string :=
  let left := trimPrefixes (String.length s) spaces s in
  String.rev (trimPrefixes (String.length left) (String.rev <$> spaces) (String.rev left)).

(** ** Lemmas *)

Lemma cutPrefix_length prefix s s' :
  cutPrefix prefix s = Some s' → String.length s = (String.length prefix + String.length s')%nat.
Proof.
  revert s. induction prefix as [|p prefix IH]; intros s; cbn; [by intros [= ->]|].
  destruct s as [|c s]; [done|]. case_decide; [|done]. intros Hs. cbn. f_equal. by apply IH.
Qed.

(** With fuel the length of the text, no prefix is left. *)
Lemma trimPrefixes_enough fuel cutset s prefix :
  Forall (λ p, p ≠ EmptyString) cutset → (String.length s ≤ fuel)%nat → prefix ∈ cutset →
  cutPrefix prefix (trimPrefixes fuel cutset s) = None.
Proof.
  intros Hc Hs Hp. revert s Hs. induction fuel as [|fuel IH]; intros s Hs; cbn.
  - destruct s; [|cbn in Hs; lia]. rewrite Forall_forall in Hc. specialize (Hc prefix Hp).
    by destruct prefix.
  - destruct (omap _ cutset) as [|s' l] eqn:Ho; cbn.
    + destruct (cutPrefix prefix s) as [s'|] eqn:Hcut; [|done]. exfalso.
      assert (Hin : s' ∈ omap (λ prefix, cutPrefix prefix s) cutset)
        by (apply list_elem_of_omap; by exists prefix).
      rewrite Ho in Hin. by apply elem_of_nil in Hin.
    + assert (Hin : s' ∈ omap (λ prefix, cutPrefix prefix s) cutset) by (rewrite Ho; left).
      apply list_elem_of_omap in Hin as (p & Hpc & Hcut). apply IH.
      apply cutPrefix_length in Hcut. rewrite Forall_forall in Hc. specialize (Hc p Hpc).
      destruct p; cbn in *; [done|lia].
Qed.

Lemma Split_no_sep s sep : occurs sep s = false → Split s sep = [s].
Proof.
  induction s as [|c s IH]; simpl; [done|]. intros [Hc%bool_decide_eq_false Hs]%orb_false_iff.
  rewrite decide_False by done. by rewrite IH.
Qed.

Lemma Split_app s sep rest :
  occurs sep s = false → Split (s +:+ String sep rest) sep = s :: Split rest sep.
Proof.
  induction s as [|c s IH]; simpl; [by rewrite decide_True|].
  intros [Hc%bool_decide_eq_false Hs]%orb_false_iff. rewrite decide_False by done. by rewrite IH.
Qed.

(** The texts joined by a separator that none of them has are split back. *)
Lemma Split_join sep l :
  l ≠ [] → Forall (λ s, occurs sep s = false) l →
  Split (join (String sep EmptyString) l) sep = l.
Proof.
  intros Hne Hl. induction Hl as [|s l Hs Hl IH]; [done|].
  destruct l as [|s' l]; [by apply Split_no_sep|].
  change (join (String sep EmptyString) (s :: s' :: l))
    with (s +:+ String sep (join (String sep EmptyString) (s' :: l))).
  rewrite Split_app by done. f_equal. by apply IH.
Qed.

Lemma Split_not_nil s sep : Split s sep ≠ [].
Proof. induction s; simpl; [done|]. case_decide; [done|]. by case_match. Qed.

Lemma Cut_app s sep rest : occurs sep s = false → Cut (s +:+ String sep rest) sep = (s, rest, true).
Proof.
  induction s as [|c s IH]; simpl; [by rewrite decide_True|].
  intros [Hc%bool_decide_eq_false Hs]%orb_false_iff. rewrite decide_False by done. by rewrite IH.
Qed.

Lemma string_app_cons c s t : String c s +:+ t = String c (s +:+ t).
Proof. done. Qed.

Lemma string_length_app (s t : string) : String.length (s +:+ t) = (String.length s + String.length t)%nat.
Proof. induction s as [|c s IH]; [done|]. rewrite string_app_cons. cbn. by rewrite IH. Qed.

Lemma all_bytes_app p s t : all_bytes p (s +:+ t) = all_bytes p s && all_bytes p t.
Proof. induction s as [|c s IH]; [done|]. rewrite string_app_cons. cbn. by rewrite IH, andb_assoc. Qed.

Lemma occurs_app c s t : occurs c (s +:+ t) = occurs c s || occurs c t.
Proof.
  induction s as [|c' s IH]; [done|]. rewrite string_app_cons. cbn [occurs].
  by rewrite IH, orb_assoc.
Qed.

Lemma string_app_assoc (s t u : string) : (s +:+ t) +:+ u = s +:+ t +:+ u.
Proof. induction s as [|c s IH]; [done|]. by rewrite !string_app_cons, IH. Qed.

Lemma string_app_nil_r (s : string) : s +:+ EmptyString = s.
Proof. induction s as [|c s IH]; [done|]. by rewrite string_app_cons, IH. Qed.

Lemma rev_app_eq s t : String.rev_app s t = String.rev s +:+ t.
Proof.
  revert t. induction s as [|c s IH]; intros t; [done|]. unfold String.rev. cbn [String.rev_app].
  rewrite IH, (IH (String c EmptyString)), string_app_assoc. done.
Qed.

Lemma rev_cons c s : String.rev (String c s) = String.rev s +:+ String c EmptyString.
Proof. unfold String.rev. cbn [String.rev_app]. apply rev_app_eq. Qed.

Lemma rev_app s t : String.rev (s +:+ t) = String.rev t +:+ String.rev s.
Proof.
  induction s as [|c s IH]; [by rewrite string_app_nil_r|].
  by rewrite string_app_cons, !rev_cons, IH, string_app_assoc.
Qed.

Lemma rev_involutive s : String.rev (String.rev s) = s.
Proof. induction s as [|c s IH]; [done|]. by rewrite rev_cons, rev_app, IH. Qed.

(** The printable bytes of ASCII. *)
Definition graphic (c : Ascii.ascii) : bool :=
  bool_decide (33 ≤ Ascii.N_of_ascii c ≤ 126)%N.

(** The first byte of the text, and its last byte, are graphic. *)
Definition starts_graphic (s : string) : bool :=
  match s with EmptyString => true | String c _ => graphic c end.

Lemma trimPrefixes_graphic fuel cutset s :
  Forall (λ prefix, ∃ c p, prefix = String c p ∧ graphic c = false) cutset →
  starts_graphic s = true → trimPrefixes fuel cutset s = s.
Proof.
  intros Hcut Hs. destruct fuel as [|fuel]; [done|]. simpl.
  replace (omap (λ prefix, cutPrefix prefix s) cutset) with (@nil string); [done|].
  symmetry. apply elem_of_nil_inv. intros x (prefix & Hin & Hx)%list_elem_of_omap.
  rewrite Forall_forall in Hcut. destruct (Hcut _ Hin) as (c & p & -> & Hc).
  destruct s as [|c' s]; simpl in *; [done|]. case_decide; [congruence|done].
Qed.

(** A text that starts and ends with a graphic byte has no space to trim. *)
Lemma TrimSpace_graphic s :
  starts_graphic s = true → starts_graphic (String.rev s) = true → TrimSpace s = s.
Proof.
  intros Hs Hr. unfold TrimSpace.
  assert (∀ l, Forall (λ prefix, ∃ c p, prefix = String c p ∧ graphic c = false) l ↔
    forallb (λ prefix, match prefix with EmptyString => false | String c _ => negb (graphic c) end) l = true)
    as Hdec.
  { induction l as [|x l IH]; simpl; [by split|]. rewrite Forall_cons, andb_true_iff, IH.
    destruct x as [|c p]; [naive_solver|]. rewrite negb_true_iff. naive_solver. }
  rewrite (trimPrefixes_graphic _ spaces s) by (try done; apply Hdec; by vm_compute).
  rewrite trimPrefixes_graphic by (try done; apply Hdec; by vm_compute).
  apply rev_involutive.
Qed.
