(* ===== verification/Strconv.v ===== *)
(** * Numbers and texts (Go's [strconv])

    [FormatInt] and [ParseInt] in base 10 on 64 bits, with the reader of digits they share with
    the concrete quantities of [Quantity]. *)

From S2P Require Import Prelude.

Definition digit (c : Ascii.ascii) : option N :=
  let n := Ascii.N_of_ascii c in
  if decide (48 ≤ n ∧ n < 58)%N then Some (n - 48)%N else None.

(** Reads the longest prefix of digits; returns the number and the rest. *)
Fixpoint digits (acc : N) (s : string) : N * string :=
  match s with
  | String c s' => match digit c with Some d => digits (10 * acc + d) s' | None => (acc, s) end
  | EmptyString => (acc, s)
  end.

Definition starts_with_digit (s : string) : bool :=
  match s with
  | String c _ => match digit c with Some _ => true | None => false end
  | EmptyString => false
  end.

(** [strconv.FormatInt(z, 10)] *)
Definition FormatInt (z : Z) : string := pretty z.

(** The characters ["+"] and ["-"]. *)
Definition plus : Ascii.ascii := Ascii.ascii_of_N 43.
Definition minus : Ascii.ascii := Ascii.ascii_of_N 45.

(** A nonempty text of digits. *)
Definition parseDigits (s : string) : option Z :=
  if starts_with_digit s then
    match digits 0 s with (n, EmptyString) => Some (Z.of_N n) | _ => None end
  else None.

(** [strconv.ParseInt(s, 10, 64)]: an optional sign, digits, in the range of [int64]. *)
Definition ParseInt (s : string) : option Z :=
  z ← match s with
      | EmptyString => None
      | String c s' =>
        if decide (c = plus) then parseDigits s'
        else if decide (c = minus) then Z.opp <$> parseDigits s'
        else parseDigits s
      end;
  if decide (int64 z) then Some z else None.

(** ** Lemmas *)

Lemma digit_pretty x : (x < 10)%N → digit (pretty_N_char x) = Some x.
Proof.
  intros Hx.
  assert (x = 0 ∨ x = 1 ∨ x = 2 ∨ x = 3 ∨ x = 4 ∨ x = 5 ∨ x = 6 ∨ x = 7 ∨ x = 8 ∨ x = 9)%N
    as Hc by lia.
  destruct_or! Hc; subst; reflexivity.
Qed.

Lemma digits_pretty_go x s : digits 0 (pretty_N_go x s) = digits x s.
Proof.
  revert s. induction (N.lt_wf_0 x) as [x _ IH]. intros s.
  destruct (decide (x = 0)%N) as [->|Hx]; [by rewrite pretty_N_go_0|].
  rewrite pretty_N_go_step by lia.
  rewrite IH by (apply N.div_lt; lia).
  simpl. rewrite digit_pretty by (apply N.mod_lt; lia).
  rewrite <-N.div_mod by lia. done.
Qed.

Lemma starts_pretty_go x s :
  (0 < x)%N ∨ starts_with_digit s = true → starts_with_digit (pretty_N_go x s) = true.
Proof.
  revert s. induction (N.lt_wf_0 x) as [x _ IH]. intros s Hs.
  destruct (decide (x = 0)%N) as [->|Hx]; [rewrite pretty_N_go_0; destruct Hs; [lia|done]|].
  rewrite pretty_N_go_step by lia. apply IH; [apply N.div_lt; lia|]. right.
  simpl. by rewrite digit_pretty by (apply N.mod_lt; lia).
Qed.

Lemma pretty_go_app x s t : pretty_N_go x s +:+ t = pretty_N_go x (s +:+ t).
Proof.
  revert s. induction (N.lt_wf_0 x) as [x _ IH]. intros s.
  destruct (decide (x = 0)%N) as [->|Hx]; [by rewrite !pretty_N_go_0|].
  rewrite !(pretty_N_go_step x) by lia. by rewrite IH by (apply N.div_lt; lia).
Qed.


Lemma parseDigits_pretty (n : N) : parseDigits (pretty n) = Some (Z.of_N n).
Proof.
  unfold parseDigits, pretty, pretty_N. case_decide as Hn; [by subst|].
  rewrite starts_pretty_go by (left; lia). by rewrite digits_pretty_go.
Qed.

Lemma pretty_N_first (n : N) : ∃ c s, pretty n = String c s ∧ c ≠ plus ∧ c ≠ minus.
Proof.
  assert (starts_with_digit (pretty n) = true) as Hs.
  { unfold pretty, pretty_N. case_decide; [done|]. apply starts_pretty_go. left. lia. }
  destruct (pretty n) as [|c s] eqn:Hn; [done|]. exists c, s. split; [done|].
  split; intros ->; discriminate Hs.
Qed.

(** What [FormatInt] writes, [ParseInt] reads back. *)
Lemma ParseInt_FormatInt z : int64 z → ParseInt (FormatInt z) = Some z.
Proof.
  intros Hz. unfold ParseInt, FormatInt.
  assert (∀ n : N, (z ← match pretty n with
      | EmptyString => None
      | String c s' =>
        if decide (c = plus) then parseDigits s'
        else if decide (c = minus) then Z.opp <$> parseDigits s'
        else parseDigits (pretty n)
      end; if decide (int64 z) then Some z else None) =
    if decide (int64 (Z.of_N n)) then Some (Z.of_N n) else None) as Hpos.
  { intros n. destruct (pretty_N_first n) as (c & s & Hn & Hp & Hm). rewrite Hn.
    rewrite (decide_False (P:=c = plus)), (decide_False (P:=c = minus)) by done.
    rewrite <-Hn, parseDigits_pretty. done. }
  destruct z as [|p|p].
  - change (pretty 0) with (pretty 0%N). rewrite Hpos. by rewrite decide_True.
  - change (pretty (Z.pos p)) with (pretty (N.pos p)). rewrite Hpos. by rewrite decide_True.
  - assert (pretty (Z.neg p) = String minus (pretty (N.pos p))) as -> by done.
    rewrite (decide_False (P:=minus = plus)), (decide_True (P:=minus = minus)) by done.
    rewrite parseDigits_pretty. simpl. by rewrite decide_True.
Qed.
