(* ===== verification/Quantity.v ===== *)
(** * The Kubernetes quantity library, as the quota code uses it

    [k8s.io/apimachinery/pkg/api/resource] is not part of the repository: its operations are the
    fields of the class [QuantityLib], and what its documentation promises of them, the laws of
    [QuantityLaws]. [NanoQuantity] is a concrete instance, on which witnesses are evaluated. *)

From S2P Require Import Prelude Strconv.

Inductive Format := DecimalExponent | BinarySI | DecimalSI.

(** The functions and methods of [resource.Quantity] that the repository calls. *)
Class QuantityLib := {
  Quantity : Type;
  ParseQuantity : string → option Quantity; (* None: a parse error *)
  Sign : Quantity → Z;
  Cmp : Quantity → Quantity → Z;
  Value : Quantity → Z;
  MilliValue : Quantity → Z;
  NewQuantity : Z → Format → Quantity;
  NewMilliQuantity : Z → Format → Quantity;
  QString : Quantity → string;
}.

(** Division rounded up, the rounding of [Value] and [MilliValue] on nonnegative quantities. *)
Definition ceil_div (a b : Z) : Z := (a + b - 1) `div` b.

(** The documented behaviour: a quantity is a fixed-point number, exact to 10^-9 ([nano]);
    comparisons are exact, [Value] and [MilliValue] round up, the serialized form of an integer
    quantity parses back to the same number, and so do plain decimals and decimals in [m]. *)
Class QuantityLaws (L : QuantityLib) := {
  nano : Quantity → Z;
  Sign_spec q : Sign q = Z.sgn (nano q);
  Cmp_spec a b : Cmp a b = Z.sgn (nano a - nano b);
  Value_spec q : 0 ≤ nano q ≤ MaxInt64 * 10 ^ 9 → Value q = ceil_div (nano q) (10 ^ 9);
  MilliValue_spec q : 0 ≤ nano q ≤ MaxInt64 * 10 ^ 6 → MilliValue q = ceil_div (nano q) (10 ^ 6);
  NewQuantity_spec v f : int64 v → nano (NewQuantity v f) = v * 10 ^ 9;
  NewMilliQuantity_spec v f : int64 v → nano (NewMilliQuantity v f) = v * 10 ^ 6;
  ParseQuantity_QString v f : 0 ≤ v ≤ MaxInt64 →
    ∃ q, ParseQuantity (QString (NewQuantity v f)) = Some q ∧ nano q = v * 10 ^ 9;
  ParseQuantity_decimal v : 0 ≤ v ≤ MaxInt64 →
    ∃ q, ParseQuantity (pretty v) = Some q ∧ nano q = v * 10 ^ 9;
  ParseQuantity_milli v : 0 ≤ v ≤ MaxInt64 →
    ∃ q, ParseQuantity (pretty v +:+ "m") = Some q ∧ nano q = v * 10 ^ 6;
}.

Lemma ceil_div_exact a b : 0 < b → ceil_div (a * b) b = a.
Proof.
  intros. unfold ceil_div. replace (a * b + b - 1) with ((b - 1) + a * b) by lia.
  rewrite Z.div_add, Z.div_small; lia.
Qed.

Lemma ceil_div_nonneg a b : 0 ≤ a → 0 < b → 0 ≤ ceil_div a b.
Proof. intros. unfold ceil_div. apply Z.div_pos; lia. Qed.

Lemma ceil_div_le a b c : 0 < b → a ≤ c * b → ceil_div a b ≤ c.
Proof. intros. unfold ceil_div. apply Z.lt_succ_r, Z.div_lt_upper_bound; lia. Qed.

#[export] Hint Resolve ceil_div_nonneg ceil_div_le : spx.

(** ** A concrete instance *)
Module NanoQuantity.
(** The suffixes of a quantity, in 10^-9. *)
Definition suffixes : gmap string Z := list_to_map
  [(EmptyString, 10 ^ 9); ("n", 1); ("u", 10 ^ 3); ("m", 10 ^ 6); ("k", 10 ^ 12);
   ("M", 10 ^ 15); ("G", 10 ^ 18); ("T", 10 ^ 21); ("Ki", 2 ^ 10 * 10 ^ 9);
   ("Mi", 2 ^ 20 * 10 ^ 9); ("Gi", 2 ^ 30 * 10 ^ 9); ("Ti", 2 ^ 40 * 10 ^ 9)].

Definition parse (s : string) : option Z :=
  if starts_with_digit s then
    let '(n, suffix) := digits 0 s in
    (λ scale, Z.min (Z.of_N n * scale) (MaxInt64 * 10 ^ 9)) <$> suffixes !! suffix
  else None.

(** Prints integers in decimal, fractions in [n]. *)
Definition print (q : Z) : string :=
  if decide (q `mod` 10 ^ 9 = 0) then pretty (q `div` 10 ^ 9) else pretty q +:+ "n".

#[export] Instance lib : QuantityLib := {|
  Quantity := Z;
  ParseQuantity := parse;
  Sign := Z.sgn;
  Cmp := λ a b, Z.sgn (a - b);
  Value := λ q, ceil_div q (10 ^ 9);
  MilliValue := λ q, ceil_div q (10 ^ 6);
  NewQuantity := λ v _, v * 10 ^ 9;
  NewMilliQuantity := λ v _, v * 10 ^ 6;
  QString := print;
|}.

(** A number followed by a suffix parses to its scaled value. *)
Lemma parse_pretty v suffix scale :
  0 ≤ v → suffixes !! suffix = Some scale → starts_with_digit suffix = false →
  digits (Z.to_N v) suffix = (Z.to_N v, suffix) →
  parse (pretty v +:+ suffix) = Some (Z.min (v * scale) (MaxInt64 * 10 ^ 9)).
Proof.
  intros Hv Hscale Hsuf Hdig. unfold parse.
  assert (pretty v = pretty (Z.to_N v)) as -> by (by destruct v).
  unfold pretty, pretty_N. case_decide as H0.
  - assert (v = 0) as -> by lia. change (Z.to_N 0) with 0%N in Hdig.
    replace (digits 0 ("0" +:+ suffix)) with (digits 0 suffix) by reflexivity.
    rewrite Hdig, Hscale. done.
  - rewrite pretty_go_app, starts_pretty_go by (left; lia).
    rewrite digits_pretty_go. change (EmptyString +:+ suffix) with suffix.
    rewrite Hdig, Hscale. simpl. by rewrite Z2N.id.
Qed.

Lemma parse_decimal v : 0 ≤ v ≤ MaxInt64 → parse (pretty v) = Some (v * 10 ^ 9).
Proof.
  intros Hv. rewrite <-(app_empty (pretty v)).
  rewrite (parse_pretty v EmptyString (10 ^ 9)) by (reflexivity || lia).
  f_equal. unfold MaxInt64 in *. lia.
Qed.

Lemma parse_milli v : 0 ≤ v ≤ MaxInt64 → parse (pretty v +:+ "m") = Some (v * 10 ^ 6).
Proof.
  intros Hv. rewrite (parse_pretty v "m" (10 ^ 6)) by (reflexivity || lia).
  f_equal. unfold MaxInt64 in *. lia.
Qed.

#[export] Instance laws : QuantityLaws lib.
Proof.
  refine {| nano := (λ q, q) : @Quantity lib → Z |}; simpl; try done.
  - intros v _ Hv. unfold print. rewrite Z.mod_mul, Z.div_mul by lia.
    rewrite decide_True by done. rewrite parse_decimal by lia. eauto.
  - intros v Hv. rewrite parse_decimal by lia. eauto.
  - intros v Hv. change (String.app (pretty v) "m") with (pretty v +:+ "m").
    rewrite parse_milli by lia. eauto.
Defined.
End NanoQuantity.
