(* ===== verification/Errors.v ===== *)
(** * The errors of the Superphenix API

    A Go error is the sentinel it wraps, which is all that [errors.Is] observes, and its text.
    [Errorf] is [fmt.Errorf("%w...", err, ...)]: the sentinel is kept, the text is extended. *)

From S2P Require Import Prelude.

(** The sentinels: those of [crud/quota/hierarchical.go], [pkg/quota], [internal/az],
    [internal/quotasync] and gorm; [ErrDatabase] stands for any failure of a query. *)
Inductive sentinel :=
  | ErrRecordNotFound
  | ErrDatabase
  | ErrInvalidQuantity
  | ErrOrgQuotaExceeded
  | ErrProjectQuotaExceeded
  | ErrOrganizationNotFound
  | ErrProjectNotFound
  | ErrAZNotFound
  | ErrProjectQuotaEnforced
  | ErrBelowAllocated
  | ErrBelowUsage
  | ErrUsageUnavailable
  | ErrAZUnavailable
  | ErrNotApplied
  | ErrCanceled
  | ErrAnonymous.

#[export] Instance sentinel_eq_dec : EqDecision sentinel.
Proof. solve_decision. Defined.

Definition sentinel_text (s : sentinel) : string :=
  match s with
  | ErrRecordNotFound => "record not found"
  | ErrDatabase => "database error"
  | ErrInvalidQuantity => "invalid quota resources"
  | ErrOrgQuotaExceeded => "organization quota exceeded"
  | ErrProjectQuotaExceeded => "project quota exceeded"
  | ErrOrganizationNotFound => "organization not found"
  | ErrProjectNotFound => "project not found"
  | ErrAZNotFound => "availability zone not found"
  | ErrProjectQuotaEnforced =>
      "the project quota cannot be removed while the organization has a quota"
  | ErrBelowAllocated => "quota below what is already allocated"
  | ErrBelowUsage => "quota below what is currently used"
  | ErrUsageUnavailable => "quota usage unavailable, retry later"
  | ErrAZUnavailable => "availability zone unavailable, retry later"
  | ErrNotApplied =>
      "quota saved but not applied on every availability zone, retry the request"
  | ErrCanceled => "context canceled"
  | ErrAnonymous => EmptyString
  end.

Record error := mkError { err_is : sentinel; err_text : string }.

#[export] Instance error_eq_dec : EqDecision error.
Proof. solve_decision. Defined.

(** The sentinel itself, used as an error. *)
Definition sentinel_error (s : sentinel) : error := mkError s (sentinel_text s).
Coercion sentinel_error : sentinel >-> error.

(** [errors.New] on a text no one compares against. *)
Definition errors_New (text : string) : error := mkError ErrAnonymous text.

Definition Errorf (e : error) (suffix : string) : error := mkError (err_is e) (err_text e +:+ suffix).

Definition errors_Is (e : error) (s : sentinel) : bool := bool_decide (err_is e = s).

Lemma errors_Is_Errorf e suffix s : errors_Is (Errorf e suffix) s = errors_Is e s.
Proof. done. Qed.

Lemma errors_Is_spec e s : errors_Is e s = true ↔ err_is e = s.
Proof. unfold errors_Is. by rewrite bool_decide_eq_true. Qed.
