(* ===== verification/QuotaResources.v ===== *)
(** * Quota resources ([internal/superphenix-api/pkg/quota/resources.go])

    [Resources] are the quotas as the API stores them, [Quantities] their numeric form. Go maps
    are [gmap]s; a Go loop over a map is [map_fold], whose results are shown not to depend on the
    order of the iteration. *)

From S2P Require Import Prelude Quantity Errors.

(** ** Definitions *)

Definition CPU : string := "cpu".
Definition Memory : string := "memory".
Definition Disk : string := "disk".

(** The Kubernetes quota keys of each abstract resource. *)
Definition translations : gmap string (list string) := list_to_map
  [(CPU, ["requests.cpu"; "limits.cpu"]);
   (Memory, ["requests.memory"; "limits.memory"]);
   (Disk, ["requests.storage"])].

(** The types [Resources] and [Quantities]: Go maps keyed by resource name. *)
Abbreviation Resources := (gmap string string).
Abbreviation Quantities := (gmap string Z).

Definition validateName (name : string) : result error unit :=
  match translations !! name with
  | Some _ => Ok tt
  | None => Err (ErrInvalidQuantity : error)
  end.

Definition allowedNames : list string := sorted_keys translations.

Definition saturatingAdd (a b : Z) : Z :=
  if decide (0 < b ∧ wrap64 (MaxInt64 - b) < a) then MaxInt64 else wrap64 (a + b).

Section resources.
Context {QL : QuantityLib}.

Definition parseQuantity (name value : string) : result error Z :=
  match ParseQuantity value with
  | None => Err (ErrInvalidQuantity : error)
  | Some q =>
    if decide (Sign q < 0) then Err (ErrInvalidQuantity : error) else
    let limit := if decide (name = CPU) then NewMilliQuantity MaxInt64 DecimalSI
                 else NewQuantity MaxInt64 DecimalSI in
    if decide (0 ≤ Cmp q limit) then Err (ErrInvalidQuantity : error) else
    if decide (name = CPU) then Ok (MilliValue q) else Ok (Value q)
  end.

(** [Resources.Parse] *)
Definition Parse (r : Resources) : result error Quantities :=
  foldM (λ (q : Quantities) '(name, value),
    _ ← validateName name;
    v ← parseQuantity name value;
    Ok (<[name:=v]> q)) ∅ (map_to_list r).

(** [Resources.ToKubernetesQuota] *)
Definition ToKubernetesQuota (r : Resources) : gmap string string :=
  map_fold (λ name value hard,
    foldl (λ hard k, <[k:=value]> hard) hard (default [] (translations !! name))) ∅ r.

Definition FromKubernetesUsage (used : gmap string string) : Quantities :=
  map_fold (λ name keys res,
    foldl (λ (res : Quantities) k,
      match used !! k with
      | None => res
      | Some value =>
        match parseQuantity name value with
        | Err _ => res
        | Ok v =>
          match res !! name with
          | Some current => if decide (current < v) then <[name:=v]> res else res
          | None => <[name:=v]> res
          end
        end
      end) res keys) ∅ translations.

Definition formatEntry (name : string) (v : Z) : string :=
  if decide (name = CPU) then
    if decide (Z.rem v 1000 = 0) then pretty (Z.quot v 1000) else pretty v +:+ "m"
  else QString (NewQuantity v BinarySI).

(** [Quantities.Resources] *)
Definition toResources (q : Quantities) : Resources :=
  map_fold (λ name v (r : Resources), <[name:=formatEntry name v]> r) ∅ q.

Definition Add (q other : Quantities) : Quantities :=
  map_fold (λ name v res, <[name:=saturatingAdd (get res name) v]> res) q other.

Definition Max (q other : Quantities) : Quantities :=
  map_fold (λ name v (res : Quantities),
    match res !! name with
    | Some current => if decide (current < v) then <[name:=v]> res else res
    | None => <[name:=v]> res
    end) q other.

Definition WithZeros (q names : Quantities) : Quantities :=
  let res := map_fold (λ name _ (res : Quantities), <[name:=0]> res) ∅ names in
  map_fold (λ name v (res : Quantities), <[name:=v]> res) res q.

Definition Only (q keep : Quantities) : Quantities :=
  map_fold (λ name v (res : Quantities),
    match keep !! name with Some _ => <[name:=v]> res | None => res end) ∅ q.

Definition Sub (q other : Quantities) : Quantities :=
  map_fold (λ name v (res : Quantities),
    <[name:=Z.max (wrap64 (v - get other name)) 0]> res) ∅ q.

Definition SplitEqually (q : Quantities) (count : Z) : Quantities :=
  if decide (count ≤ 0) then ∅
  else map_fold (λ name v (res : Quantities), <[name:=Z.quot v count]> res) ∅ q.

Definition format (q : Quantities) (name : string) : string :=
  default EmptyString (toResources {[name := get q name]} !! name).

Definition sortedNames (q : Quantities) : list string := sorted_keys q.

Fixpoint exceedsFrom (q limit : Quantities) (names : list string) : option string :=
  match names with
  | [] => None
  | name :: names =>
    if decide (get limit name < get q name) then
      Some (name +:+ " quota exceeded: requested " +:+ format q name +:+
            " exceeds limit " +:+ format limit name)
    else exceedsFrom q limit names
  end.

Definition Exceeds (q limit : Quantities) : option string :=
  exceedsFrom q limit (sortedNames limit).

Definition Effective (own : Resources) (ancestors : list Resources) : Resources :=
  let res := foldl (λ res parent,
    map_fold (λ name _ (res : Resources), <[name:="0"]> res) res parent) ∅ ancestors in
  map_fold (λ name v (res : Resources), <[name:=v]> res) res own.

Definition EffectiveAZQuota (org project az : Resources) : Resources :=
  Effective az [org; project].
End resources.
(** ** The operations, entry by entry *)
Section lookups.
Implicit Types (q : Quantities) (r : Resources) (name : string).

Lemma lookup_Add q other name :
  Add q other !! name = match other !! name with
                        | Some v => Some (saturatingAdd (get q name) v)
                        | None => q !! name
                        end.
Proof.
  unfold Add.
  rewrite (lookup_range _ (λ _ v o, Some (saturatingAdd (default 0 o) v))); [done|].
  unfold get. solve_range.
Qed.

Lemma lookup_Max q other name :
  Max q other !! name = match q !! name, other !! name with
                        | Some a, Some b => Some (Z.max a b)
                        | Some a, None => Some a
                        | None, o => o
                        end.
Proof.
  unfold Max.
  rewrite (lookup_range _ (λ _ v o,
    match o with Some c => if decide (c < v) then Some v else Some c | None => Some v end)).
  - destruct (q !! name), (other !! name); simpl; try case_decide; try done; f_equal; lia.
  - solve_range.
Qed.

Lemma lookup_WithZeros q names name :
  WithZeros q names !! name = match q !! name with
                              | Some v => Some v
                              | None => (λ _, 0) <$> names !! name
                              end.
Proof.
  unfold WithZeros.
  rewrite (lookup_range _ (λ _ v _, Some v)) by solve_range.
  destruct (q !! name); [done|].
  rewrite (lookup_range _ (λ _ _ _, Some 0)) by solve_range.
  destruct (names !! name); simplify_map_eq; done.
Qed.

Lemma lookup_Only q keep name :
  Only q keep !! name = if decide (is_Some (keep !! name)) then q !! name else None.
Proof.
  unfold Only.
  rewrite (lookup_range _ (λ k v o, match keep !! k with Some _ => Some v | None => o end))
    by solve_range.
  rewrite lookup_empty. destruct (q !! name), (keep !! name);
    case_decide as Hd; try done; destruct Hd; eauto; discriminate.
Qed.

Lemma lookup_Sub q other name :
  Sub q other !! name = (λ v, Z.max (wrap64 (v - get other name)) 0) <$> q !! name.
Proof.
  unfold Sub.
  rewrite (lookup_range _ (λ k v _, Some (Z.max (wrap64 (v - get other k)) 0))) by solve_range.
  rewrite lookup_empty. by destruct (q !! name).
Qed.

Lemma lookup_SplitEqually q count name :
  0 < count → SplitEqually q count !! name = (λ v, Z.quot v count) <$> q !! name.
Proof.
  intros. unfold SplitEqually. rewrite decide_False by lia.
  rewrite (lookup_range _ (λ k v _, Some (Z.quot v count))) by solve_range.
  rewrite lookup_empty. by destruct (q !! name).
Qed.

Lemma lookup_toResources `{QuantityLib} q name :
  toResources q !! name = formatEntry name <$> q !! name.
Proof.
  unfold toResources.
  rewrite (lookup_range _ (λ k v _, Some (formatEntry k v))) by solve_range.
  rewrite lookup_empty. by destruct (q !! name).
Qed.

Lemma lookup_Effective own ancestors name :
  Effective own ancestors !! name =
    match own !! name with
    | Some v => Some v
    | None => if decide (Exists (λ parent : Resources, is_Some (parent !! name)) ancestors)
              then Some "0" else None
    end.
Proof.
  unfold Effective.
  rewrite (lookup_range _ (λ _ v _, Some v)) by solve_range.
  destruct (own !! name); [done|].
  assert (∀ res : Resources, foldl (λ res parent,
    map_fold (λ name _ (res : Resources), <[name:="0"]> res) res parent) res ancestors !! name =
    if decide (Exists (λ parent : Resources, is_Some (parent !! name)) ancestors)
    then Some "0" else res !! name) as Hfold; [|by rewrite Hfold, lookup_empty].
  induction ancestors as [|parent ancestors IH]; intros res; cbn [foldl].
  - case_decide as Hex; [by apply Exists_nil in Hex|done].
  - rewrite IH, (lookup_range _ (λ _ _ _, Some "0")) by solve_range.
    destruct (parent !! name) eqn:Hp;
      repeat case_decide; rewrite ?Exists_cons, ?Hp in *; naive_solver.
Qed.
End lookups.

Lemma lookup_EffectiveAZQuota org project az name :
  EffectiveAZQuota org project az !! name =
    match az !! name with
    | Some v => Some v
    | None => if decide (is_Some (org !! name) ∨ is_Some (project !! name))
              then Some "0" else None
    end.
Proof.
  unfold EffectiveAZQuota. rewrite lookup_Effective. destruct (az !! name); [done|].
  repeat case_decide; rewrite ?Exists_cons, ?Exists_nil in *; tauto.
Qed.

(** ** Quantities in range

    Every parsed quota is [in_range]; the operations keep it, and on such quotas they compute the
    exact result, capped at [MaxInt64]. *)
Definition in_range (q : Quantities) : Prop := map_Forall (λ _ v, 0 ≤ v ≤ MaxInt64) q.

#[export] Instance in_range_decision q : Decision (in_range q).
Proof. unfold in_range. apply _. Defined.

Lemma in_range_lookup q name v : in_range q → q !! name = Some v → 0 ≤ v ≤ MaxInt64.
Proof. intros Hq Hn. exact (Hq name v Hn). Qed.

Lemma in_range_get q name : in_range q → 0 ≤ get q name ≤ MaxInt64.
Proof.
  intros Hq. unfold get. destruct (q !! name) as [v|] eqn:Hn; simpl.
  - by eapply in_range_lookup.
  - unfold MaxInt64. lia.
Qed.

Lemma in_range_empty : in_range ∅.
Proof. apply map_Forall_empty. Qed.

#[export] Hint Resolve in_range_empty : spx.

Lemma saturatingAdd_exact a b :
  0 ≤ a ≤ MaxInt64 → 0 ≤ b ≤ MaxInt64 → saturatingAdd a b = Z.min MaxInt64 (a + b).
Proof.
  intros Ha Hb. unfold saturatingAdd.
  rewrite (wrap64_id (MaxInt64 - b)) by (unfold int64, MinInt64, MaxInt64 in *; lia).
  case_decide; [lia|]. rewrite wrap64_id; unfold int64, MinInt64, MaxInt64 in *; lia.
Qed.

Section ranges.
Implicit Types (q : Quantities) (name : string).

Lemma get_Add q other name :
  in_range q → in_range other →
  get (Add q other) name = Z.min MaxInt64 (get q name + get other name).
Proof.
  intros Hq Ho. pose proof (in_range_get q name Hq). pose proof (in_range_get other name Ho).
  unfold get at 1. rewrite lookup_Add. destruct (other !! name) as [v|] eqn:Hn; simpl.
  - assert (get other name = v) as Hv by (unfold get; by rewrite Hn).
    rewrite saturatingAdd_exact by lia. by rewrite Hv.
  - assert (get other name = 0) as -> by (unfold get; by rewrite Hn).
    fold (get q name). lia.
Qed.

Lemma in_range_Add q other : in_range q → in_range other → in_range (Add q other).
Proof.
  intros Hq Ho name v. rewrite lookup_Add.
  pose proof (in_range_get q name Hq).
  destruct (other !! name) as [w|] eqn:Hn; [|by apply Hq].
  pose proof (in_range_lookup _ _ _ Ho Hn).
  intros [= <-]. rewrite saturatingAdd_exact by lia. unfold MaxInt64 in *. lia.
Qed.

Lemma get_Max q other name :
  in_range q → in_range other → get (Max q other) name = Z.max (get q name) (get other name).
Proof.
  intros Hq Ho. pose proof (in_range_get q name Hq). pose proof (in_range_get other name Ho).
  unfold get in *. rewrite lookup_Max.
  destruct (q !! name), (other !! name); simpl in *; lia.
Qed.

Lemma in_range_Max q other : in_range q → in_range other → in_range (Max q other).
Proof.
  intros Hq Ho name v. rewrite lookup_Max.
  destruct (q !! name) as [a|] eqn:Ha, (other !! name) as [b|] eqn:Hb; intros [= <-];
    try (apply Hq in Ha); try (apply Ho in Hb); lia.
Qed.

Lemma get_Only q keep name :
  get (Only q keep) name = if decide (is_Some (keep !! name)) then get q name else 0.
Proof. unfold get. rewrite lookup_Only. by case_decide. Qed.

Lemma in_range_Only q keep : in_range q → in_range (Only q keep).
Proof. intros Hq name v. rewrite lookup_Only. case_decide; [apply Hq | done]. Qed.

Lemma lookup_Sub_exact q other name :
  in_range q → in_range other →
  Sub q other !! name = (λ v, Z.max (v - get other name) 0) <$> q !! name.
Proof.
  intros Hq Ho. rewrite lookup_Sub. pose proof (in_range_get other name Ho).
  destruct (q !! name) as [v|] eqn:Hn; [|done]. apply Hq in Hn. simpl.
  rewrite wrap64_id; [done|]. unfold int64, MinInt64, MaxInt64 in *. lia.
Qed.

Lemma get_Sub q other name :
  in_range q → in_range other →
  get (Sub q other) name = Z.max (get q name - get other name) 0.
Proof.
  intros Hq Ho. unfold get at 1. rewrite lookup_Sub_exact by done.
  pose proof (in_range_get other name Ho). unfold get.
  destruct (q !! name); simpl; [done|]. fold (get other name). lia.
Qed.

Lemma in_range_Sub q other : in_range q → in_range other → in_range (Sub q other).
Proof.
  intros Hq Ho name v. rewrite lookup_Sub_exact by done.
  pose proof (in_range_get other name Ho).
  destruct (q !! name) as [w|] eqn:Hn; [|done]. apply Hq in Hn. intros [= <-].
  unfold MaxInt64 in *. lia.
Qed.

Lemma get_SplitEqually q count name :
  in_range q → 0 < count → get (SplitEqually q count) name = get q name `div` count.
Proof.
  intros Hq Hc. unfold get at 1. rewrite lookup_SplitEqually by done. unfold get.
  destruct (q !! name) as [v|] eqn:Hn; simpl; [|by rewrite Z.div_0_l by lia].
  apply Hq in Hn. by rewrite Z.quot_div_nonneg by lia.
Qed.

Lemma in_range_SplitEqually q count : in_range q → in_range (SplitEqually q count).
Proof.
  intros Hq. destruct (decide (count ≤ 0)) as [Hc|Hc].
  { unfold SplitEqually. rewrite decide_True by done. apply in_range_empty. }
  intros name v. rewrite lookup_SplitEqually by lia.
  destruct (q !! name) as [w|] eqn:Hn; [|done]. apply Hq in Hn. intros [= <-].
  rewrite Z.quot_div_nonneg by lia.
  pose proof (Z.div_pos w count). pose proof (Z.div_le_upper_bound w count w).
  nia.
Qed.

Lemma get_WithZeros q names name : get (WithZeros q names) name = get q name.
Proof.
  unfold get. rewrite lookup_WithZeros. by destruct (q !! name), (names !! name).
Qed.
End ranges.

#[export] Hint Resolve in_range_Add in_range_Max in_range_Only in_range_Sub
  in_range_SplitEqually : spx.

(** [Exceeds] looks at the limited names only. *)
Section exceeds.
Context `{QuantityLib}.

Lemma exceedsFrom_None q limit names :
  exceedsFrom q limit names = None ↔ Forall (λ n, get q n ≤ get limit n) names.
Proof.
  induction names as [|n names IH]; simpl; [by rewrite Forall_nil|].
  rewrite Forall_cons. case_decide; rewrite ?IH; naive_solver lia.
Qed.

Lemma Exceeds_None q limit :
  Exceeds q limit = None ↔ ∀ n l, limit !! n = Some l → get q n ≤ l.
Proof.
  unfold Exceeds, sortedNames. rewrite exceedsFrom_None, Forall_forall. split.
  - intros Hall n l Hn. specialize (Hall n). unfold get at 2 in Hall. rewrite Hn in Hall.
    apply Hall, elem_of_sorted_keys. eauto.
  - intros Hall n [l Hn]%elem_of_sorted_keys. unfold get at 2. rewrite Hn. by apply Hall.
Qed.

Lemma Exceeds_Some q limit msg :
  Exceeds q limit = Some msg → ∃ n l, limit !! n = Some l ∧ l < get q n.
Proof.
  unfold Exceeds, sortedNames.
  assert (∀ names, exceedsFrom q limit names = Some msg →
    ∃ n, n ∈ names ∧ get limit n < get q n) as Hfrom.
  { induction names as [|n names IH]; simpl; [done|].
    case_decide; [intros _; exists n; split; [left|done]|].
    intros (n' & ? & ?)%IH. exists n'. split; [by right|done]. }
  intros (n & [l Hl]%elem_of_sorted_keys & Hlt)%Hfrom.
  exists n, l. unfold get at 1 in Hlt. by rewrite Hl in Hlt.
Qed.
End exceeds.

(** ** Parsing *)

(** The parsing of one entry: its name is allowed, its quantity is valid. *)
Definition parseEntry `{QuantityLib} (name value : string) : result error Z :=
  _ ← validateName name; parseQuantity name value.

(** The quantities of a stored quota; a quota that does not parse holds nothing. *)
Definition parsed `{QuantityLib} (r : Resources) : Quantities :=
  match Parse r with Ok q => q | Err _ => ∅ end.

(** A quota that the API can store: it parses. *)
Definition parses `{QuantityLib} (r : Resources) : Prop := is_Ok (Parse r) = true.

#[export] Instance parses_decision `{QuantityLib} r : Decision (parses r).
Proof. unfold parses. apply _. Defined.

Section parse.
Context `{QL : QuantityLib}.
Implicit Types (r : Resources) (q : Quantities).

Lemma Parse_alt r :
  Parse r = foldM (λ (q : Quantities) kv,
    v ← parseEntry kv.1 kv.2; Ok (<[kv.1:=v]> q)) ∅ (map_to_list r).
Proof.
  unfold Parse. generalize (∅ : Quantities).
  induction (map_to_list r) as [|[n s] l IH]; intros b; [done|].
  cbn [foldM fst snd]. unfold parseEntry; simpl.
  destruct (validateName n); [|done]. simpl. destruct (parseQuantity n s); [|done]. apply IH.
Qed.

Lemma Parse_Ok_list (l : list (string * string)) b q :
  NoDup l.*1 →
  foldM (λ (q : Quantities) kv, v ← parseEntry kv.1 kv.2; Ok (<[kv.1:=v]> q)) b l = Ok q →
  (∀ n s, (n, s) ∈ l → ∃ v, parseEntry n s = Ok v ∧ q !! n = Some v) ∧
  (∀ n, n ∉ l.*1 → q !! n = b !! n).
Proof.
  revert b. induction l as [|[n s] l IH]; intros b Hnd; simpl.
  { intros [= ->]. split; [set_solver | done]. }
  apply NoDup_cons in Hnd as [Hn Hnd].
  destruct (parseEntry n s) as [v|] eqn:Hv; simpl; [|done].
  intros [Hin Hout]%IH; [|done]. split.
  - intros n' s' [[= -> ->]|Hl]%elem_of_cons; [|eauto].
    exists v. split; [done|]. rewrite Hout by done. apply lookup_insert_eq.
  - intros n' [? ?]%not_elem_of_cons. rewrite Hout by done. by rewrite lookup_insert_ne.
Qed.

(** Every entry of a parsed quota is the parsed entry of the text, and there is no other. *)
Lemma Parse_Ok_lookup r q n :
  Parse r = Ok q →
  match r !! n with
  | Some s => ∃ v, parseEntry n s = Ok v ∧ q !! n = Some v
  | None => q !! n = None
  end.
Proof.
  rewrite Parse_alt. intros [Hin Hout]%Parse_Ok_list; [|apply NoDup_fst_map_to_list].
  destruct (r !! n) as [s|] eqn:Hn.
  - apply Hin. by apply elem_of_map_to_list.
  - rewrite Hout; [done|]. intros ([n' s] & -> & Hl%elem_of_map_to_list)%list_elem_of_fmap.
    simpl in *. congruence.
Qed.

Lemma Parse_Err r e : Parse r = Err e → err_is e = ErrInvalidQuantity.
Proof.
  rewrite Parse_alt. generalize (∅ : Quantities).
  induction (map_to_list r) as [|[n s] l IH]; intros b; [done|]. cbn [foldM fst snd].
  destruct (parseEntry n s) as [v|e'] eqn:Hv; simpl; [apply IH|].
  intros [= <-]. unfold parseEntry, validateName, parseQuantity in Hv.
  repeat (case_match; simplify_eq/=; try done).
Qed.

Lemma Parse_total_list (l : list (string * string)) b :
  (∀ n s, (n, s) ∈ l → is_Ok (parseEntry n s) = true) →
  is_Ok (foldM (λ (q : Quantities) kv, v ← parseEntry kv.1 kv.2; Ok (<[kv.1:=v]> q)) b l) = true.
Proof.
  revert b. induction l as [|[n s] l IH]; intros b Hall; [done|]. cbn [foldM fst snd].
  pose proof (Hall n s ltac:(left)) as Hok. simpl.
  destruct (parseEntry n s); [|done]. simpl. apply IH. intros n' s' ?. apply Hall. by right.
Qed.

(** A quota parses when each of its entries does. *)
Lemma parses_iff r : parses r ↔ map_Forall (λ n s, is_Ok (parseEntry n s) = true) r.
Proof.
  unfold parses. split.
  - destruct (Parse r) as [q|] eqn:Hq; [|done]. intros _ n s Hn.
    apply (Parse_Ok_lookup r q n) in Hq. rewrite Hn in Hq. by destruct Hq as (v & -> & _).
  - intros Hall. rewrite Parse_alt. apply Parse_total_list.
    intros n s Hn%elem_of_map_to_list. by apply Hall.
Qed.

Lemma parses_Ok r : parses r → Parse r = Ok (parsed r).
Proof. unfold parses, parsed. by destruct (Parse r). Qed.

Lemma parsed_Ok r q : Parse r = Ok q → parsed r = q ∧ parses r.
Proof. unfold parsed, parses. by intros ->. Qed.

(** The parse of a text is determined by the parse of its entries. *)
Lemma Parse_intro r q :
  (∀ n, match r !! n with
        | Some s => ∃ v, parseEntry n s = Ok v ∧ q !! n = Some v
        | None => q !! n = None
        end) → Parse r = Ok q.
Proof.
  intros Hq. assert (parses r) as Hr.
  { apply parses_iff. intros n s Hn. specialize (Hq n). rewrite Hn in Hq.
    by destruct Hq as (? & -> & _). }
  rewrite (parses_Ok r Hr). f_equal. apply map_eq. intros n.
  pose proof (Parse_Ok_lookup r _ n (parses_Ok r Hr)) as Hp. specialize (Hq n).
  destruct (r !! n); [|congruence].
  destruct Hq as (v & Hv & ->), Hp as (v' & Hv' & ->). congruence.
Qed.

Lemma parsed_lookup_None r n : r !! n = None → parsed r !! n = None.
Proof.
  intros Hn. unfold parsed. destruct (Parse r) as [q|] eqn:Hq; [|done].
  apply (Parse_Ok_lookup r q n) in Hq. by rewrite Hn in Hq.
Qed.

Lemma parsed_is_Some r n : parses r → is_Some (parsed r !! n) ↔ is_Some (r !! n).
Proof.
  intros Hr. pose proof (Parse_Ok_lookup r _ n (parses_Ok r Hr)) as Hn.
  destruct (r !! n) as [s|]; [destruct Hn as (v & _ & ->); split; eauto|].
  by rewrite Hn.
Qed.

Lemma parses_empty : parses ∅.
Proof. done. Qed.

Lemma parsed_empty : parsed ∅ = ∅.
Proof. done. Qed.

Context {QLaws : QuantityLaws QL}.

Lemma parseQuantity_in_range name value v :
  parseQuantity name value = Ok v → 0 ≤ v ≤ MaxInt64.
Proof.
  unfold parseQuantity. destruct (ParseQuantity value) as [p|]; [|done].
  rewrite Sign_spec, Cmp_spec.
  assert (int64 MaxInt64) as Hmax by (unfold int64, MinInt64, MaxInt64; lia).
  repeat case_decide; try done; intros [= <-].
  all: rewrite ?NewMilliQuantity_spec, ?NewQuantity_spec in * by done.
  all: rewrite ?MilliValue_spec, ?Value_spec by lia.
  all: split; [apply ceil_div_nonneg | apply ceil_div_le]; lia.
Qed.

Lemma Parse_in_range r q : Parse r = Ok q → in_range q.
Proof.
  intros Hq n v Hn. apply (Parse_Ok_lookup r q n) in Hq.
  destruct (r !! n) as [s|]; [|congruence]. destruct Hq as (v' & Hv & Hn').
  simplify_eq. unfold parseEntry, validateName in Hv.
  destruct (translations !! n); simpl in Hv; [|done]. by eapply parseQuantity_in_range.
Qed.

Lemma parsed_in_range r : in_range (parsed r).
Proof.
  unfold parsed. destruct (Parse r) eqn:Hr; [by eapply Parse_in_range | apply in_range_empty].
Qed.

Lemma get_parsed_nonneg r n : 0 ≤ get (parsed r) n.
Proof. by apply in_range_get, parsed_in_range. Qed.

Lemma parseQuantity_formatEntry name v :
  0 ≤ v < MaxInt64 → parseQuantity name (formatEntry name v) = Ok v.
Proof.
  intros Hv.
  assert (int64 MaxInt64 ∧ int64 v) as [Hmax Hv64] by (unfold int64, MinInt64, MaxInt64 in *; lia).
  assert (∃ p, ParseQuantity (formatEntry name v) = Some p ∧
    nano p = v * (if decide (name = CPU) then 10 ^ 6 else 10 ^ 9)) as (p & Hp & Hn).
  { unfold formatEntry. destruct (decide (name = CPU)) as [Hc|Hc].
    - case_decide as Hrem.
      + destruct (ParseQuantity_decimal (Z.quot v 1000)) as (p & Hp & Hn).
        { rewrite Z.quot_div_nonneg by lia. pose proof (Z.div_pos v 1000).
          pose proof (Z.div_le_upper_bound v 1000 v). lia. }
        exists p. split; [done|]. rewrite Hn. pose proof (Z.quot_rem' v 1000). lia.
      + destruct (ParseQuantity_milli v) as (p & Hp & Hn); [lia|]. eauto.
    - destruct (ParseQuantity_QString v BinarySI) as (p & Hp & Hn); [lia|]. eauto. }
  unfold parseQuantity. rewrite Hp, Sign_spec, Cmp_spec.
  destruct (decide (name = CPU)) as [Hc|Hc];
    rewrite ?NewMilliQuantity_spec, ?NewQuantity_spec, ?Hn by done.
  all: rewrite !decide_False by lia.
  all: rewrite ?MilliValue_spec, ?Value_spec by (rewrite Hn; unfold MaxInt64 in *; lia).
  all: rewrite Hn, ceil_div_exact by lia; done.
Qed.

(** A quota whose quantities stay below the limit of [int64] and whose names are allowed can be
    written and read back. *)
Definition storable (q : Quantities) : Prop :=
  map_Forall (λ n v, is_Some (translations !! n) ∧ 0 ≤ v < MaxInt64) q.

#[export] Instance storable_decision q : Decision (storable q).
Proof. unfold storable. apply _. Defined.

Lemma Parse_toResources q : storable q → Parse (toResources q) = Ok q.
Proof.
  intros Hq. apply Parse_intro. intros n. rewrite lookup_toResources.
  destruct (q !! n) as [v|] eqn:Hn; simpl; [|done]. exists v. split; [|done].
  destruct (Hq n v Hn) as [[ks Hks] Hv]. unfold parseEntry, validateName. rewrite Hks. simpl.
  by apply parseQuantity_formatEntry.
Qed.
End parse.

#[export] Hint Resolve parsed_in_range get_parsed_nonneg Parse_in_range : spx.
