(* ===== verification/Database.v ===== *)
(** * The API database and its transactions

    The tables of [internal/superphenix-api/internal/db/model] that the quota code reads and
    writes, and the state-and-error monad in which the code that talks to the database is
    written. A world holds the tables, the [quota_revisions_seq] sequence, the state [C] of what
    is outside the database (the clusters of the availability zones), and an oracle that decides
    which statements fail: the theorems hold whichever statements fail.

    The primary key of a row is the key of the table. The tracing timestamps are not modelled,
    except [DeletedAt], which soft-deletes a row when set. *)

From S2P Require Import Prelude Errors Quantity QuotaResources.

(** UUIDs in canonical text form: PostgreSQL orders them as [strings.Compare] orders the texts. *)
Abbreviation uuid := string.

Record Organization := mkOrganization { o_PredefinedCatalogVersion : Z; o_Deleted : bool }.

Record Project := mkProject { p_OrgaId : uuid; p_Deleted : bool }.

Record Group := mkGroup {
  g_Name : string; g_OrgaId : uuid; g_AllProjects : bool; g_ProjectIds : list string;
  g_PermissionSets : list string; g_PredefinedKey : option string; g_Deleted : bool }.

Record OrganizationQuota := mkOrganizationQuota {
  oq_Resources : Resources; oq_Revision : Z; oq_Deleted : bool }.

Record ProjectQuota := mkProjectQuota {
  pq_OrganizationId : uuid; pq_Resources : Resources; pq_Revision : Z; pq_Deleted : bool }.

Record ProjectAZQuota := mkProjectAZQuota {
  aq_Resources : Resources; aq_Revision : Z; aq_Deleted : bool }.

(** Products are the resources of a project in an AZ, by their identifier. *)
Record Product := mkProduct {
  pr_ProductName : string;
  pr_EffectiveID : string; pr_CodeAZ : string; pr_ProjectId : uuid; pr_ProductTypeId : string;
  pr_Deleted : bool }.

(** The tables; the key of a project AZ quota is its unique index, (project, AZ code), the key of
    a project deactivation is (project, reason), a user role is (user, organization, group), and
    the key of a quota override is (quota, entity, type of entity). *)
Record Tables := mkTables {
  organizations : gmap uuid Organization;
  projects : gmap uuid Project;
  user_organizations : gset (uuid * uuid * uuid);
  groups : gmap uuid Group;
  products : gmap uuid Product;
  quotas : gmap string string;
  quota_overrides : gmap (string * uuid * string) string;
  organization_quotas : gmap uuid OrganizationQuota;
  project_quotas : gmap uuid ProjectQuota;
  project_az_quotas : gmap (uuid * string) ProjectAZQuota;
  project_deactivations : gmap (uuid * string) string;
}.

Definition set_organizations f (T : Tables) : Tables :=
  mkTables (f (organizations T)) (projects T) (user_organizations T) (groups T) (products T)
    (quotas T) (quota_overrides T) (organization_quotas T) (project_quotas T) (project_az_quotas
    T) (project_deactivations T).
Definition set_projects f (T : Tables) : Tables :=
  mkTables (organizations T) (f (projects T)) (user_organizations T) (groups T) (products T)
    (quotas T) (quota_overrides T) (organization_quotas T) (project_quotas T) (project_az_quotas
    T) (project_deactivations T).
Definition set_user_organizations f (T : Tables) : Tables :=
  mkTables (organizations T) (projects T) (f (user_organizations T)) (groups T) (products T)
    (quotas T) (quota_overrides T) (organization_quotas T) (project_quotas T) (project_az_quotas
    T) (project_deactivations T).
Definition set_groups f (T : Tables) : Tables :=
  mkTables (organizations T) (projects T) (user_organizations T) (f (groups T)) (products T)
    (quotas T) (quota_overrides T) (organization_quotas T) (project_quotas T) (project_az_quotas
    T) (project_deactivations T).
Definition set_products f (T : Tables) : Tables :=
  mkTables (organizations T) (projects T) (user_organizations T) (groups T) (f (products T))
    (quotas T) (quota_overrides T) (organization_quotas T) (project_quotas T) (project_az_quotas
    T) (project_deactivations T).
Definition set_quotas f (T : Tables) : Tables :=
  mkTables (organizations T) (projects T) (user_organizations T) (groups T) (products T) (f
    (quotas T)) (quota_overrides T) (organization_quotas T) (project_quotas T)
    (project_az_quotas T) (project_deactivations T).
Definition set_quota_overrides f (T : Tables) : Tables :=
  mkTables (organizations T) (projects T) (user_organizations T) (groups T) (products T) (quotas
    T) (f (quota_overrides T)) (organization_quotas T) (project_quotas T) (project_az_quotas T)
    (project_deactivations T).
Definition set_organization_quotas f (T : Tables) : Tables :=
  mkTables (organizations T) (projects T) (user_organizations T) (groups T) (products T) (quotas
    T) (quota_overrides T) (f (organization_quotas T)) (project_quotas T) (project_az_quotas T)
    (project_deactivations T).
Definition set_project_quotas f (T : Tables) : Tables :=
  mkTables (organizations T) (projects T) (user_organizations T) (groups T) (products T) (quotas
    T) (quota_overrides T) (organization_quotas T) (f (project_quotas T)) (project_az_quotas T)
    (project_deactivations T).
Definition set_project_az_quotas f (T : Tables) : Tables :=
  mkTables (organizations T) (projects T) (user_organizations T) (groups T) (products T) (quotas
    T) (quota_overrides T) (organization_quotas T) (project_quotas T) (f (project_az_quotas T))
    (project_deactivations T).
Definition set_project_deactivations f (T : Tables) : Tables :=
  mkTables (organizations T) (projects T) (user_organizations T) (groups T) (products T) (quotas
    T) (quota_overrides T) (organization_quotas T) (project_quotas T) (project_az_quotas T) (f
    (project_deactivations T)).

Definition no_tables : Tables := mkTables ∅ ∅ ∅ ∅ ∅ ∅ ∅ ∅ ∅ ∅ ∅.

(** ** The world *)
Record World (C : Type) := mkWorld {
  tables : Tables;
  seq : Z;                (* the last value of quota_revisions_seq *)
  faults : list bool;     (* whether each of the next statements fails; none after the end *)
  outside : C;
}.
Arguments mkWorld {C}.
Arguments tables {C}.
Arguments seq {C}.
Arguments faults {C}.
Arguments outside {C}.

Definition with_tables {C} (w : World C) T := mkWorld T (seq w) (faults w) (outside w).
Definition with_seq {C} (w : World C) s := mkWorld (tables w) s (faults w) (outside w).
Definition with_faults {C} (w : World C) fs := mkWorld (tables w) (seq w) fs (outside w).
Definition with_outside {C} (w : World C) (c : C) := mkWorld (tables w) (seq w) (faults w) c.

(** Two worlds that differ at most by the failures to come. *)
Definition same_data {C} (w w' : World C) : Prop :=
  tables w = tables w' ∧ seq w = seq w' ∧ outside w = outside w'.

#[export] Instance same_data_equiv {C} : Equivalence (@same_data C).
Proof.
  unfold same_data. split.
  - by intros ?.
  - intros ?? (? & ? & ?). auto.
  - intros ??? (-> & -> & ->) (-> & -> & ->). auto.
Qed.

#[export] Instance tables_proper {C} : Proper (same_data ==> (=)) (@tables C).
Proof. by intros ?? (? & ? & ?). Qed.
#[export] Instance seq_proper {C} : Proper (same_data ==> (=)) (@seq C).
Proof. by intros ?? (? & ? & ?). Qed.
#[export] Instance outside_proper {C} : Proper (same_data ==> (=)) (@outside C).
Proof. by intros ?? (? & ? & ?). Qed.

(** ** The monad *)
Definition M (C A : Type) : Type := World C → result error A * World C.

#[export] Instance M_ret {C} : MRet (M C) := λ A a w, (Ok a, w).
#[export] Instance M_bind {C} : MBind (M C) := λ A B f m w,
  match m w with (Ok a, w') => f a w' | (Err e, w') => (Err e, w') end.

Section primitives.
Context {C : Type}.

Definition fail {A} (e : error) : M C A := λ w, (Err e, w).

Definition lift {A} (r : result error A) : M C A := λ w, (r, w).

(** One SQL statement, which may fail. *)
Definition statement : M C unit := λ w,
  match faults w with
  | [] => (Ok tt, w)
  | true :: fs => (Err (ErrDatabase : error), with_faults w fs)
  | false :: fs => (Ok tt, with_faults w fs)
  end.

Definition gets {A} (f : Tables → A) : M C A := λ w, (Ok (f (tables w)), w).

Definition modify {A} (f : Tables → Z → A * Tables * Z) : M C A := λ w,
  let '(a, T, s) := f (tables w) (seq w) in (Ok a, with_seq (with_tables w T) s).

(** [Find]/[Pluck]: a statement that reads. *)
Definition query {A} (f : Tables → A) : M C A := _ ← statement; gets f.

(** [Take]: a statement that reads a row. *)
Definition take {A} (f : Tables → option A) : M C A :=
  row ← query f;
  match row with Some row => mret row | None => fail ErrRecordNotFound end.

(** A statement that writes; its inserted or updated rows may take values of the sequence. *)
Definition exec {A} (f : Tables → Z → A * Tables * Z) : M C A := _ ← statement; modify f.

(** [errors.Is(err, s)] handled by [handler]. *)
Definition on_error {A} (m : M C A) (s : sentinel) (handler : M C A) : M C A := λ w,
  match m w with
  | (Err e, w') => if errors_Is e s then handler w' else (Err e, w')
  | ok => ok
  end.

(** [Client.Transaction]: the tables are restored when [fn] or the commit fails. Neither the
    sequence nor what is outside the database is. *)
Definition transaction {A} (fn : M C A) : M C A := λ w,
  match (_ ← statement; a ← fn; _ ← statement; mret a : M C A) w with
  | (Ok a, w') => (Ok a, w')
  | (Err e, w') => (Err e, with_tables w' (tables w))
  end.

Fixpoint for_each {A} (f : A → M C unit) (l : list A) : M C unit :=
  match l with
  | [] => mret tt
  | x :: l => _ ← f x; for_each f l
  end.
End primitives.

(** ** Reasoning about runs *)
Section runs.
Context {C : Type}.
Implicit Types w : World C.

Lemma bind_Ok {A B} (m : M C A) (f : A → M C B) w b w' :
  (m ≫= f) w = (Ok b, w') → ∃ a w1, m w = (Ok a, w1) ∧ f a w1 = (Ok b, w').
Proof. unfold mbind, M_bind. destruct (m w) as [[a|e] w1]; [eauto | discriminate]. Qed.

Lemma bind_eq {A B} (m : M C A) (f : A → M C B) w :
  (m ≫= f) w = match m w with (Ok a, w') => f a w' | (Err e, w') => (Err e, w') end.
Proof. done. Qed.

Lemma bind_run {A B} (m : M C A) (f : A → M C B) w a w1 :
  m w = (Ok a, w1) → (m ≫= f) w = f a w1.
Proof. intros Hm. by rewrite bind_eq, Hm. Qed.

Lemma bind_run_Err {A B} (m : M C A) (f : A → M C B) w e w1 :
  m w = (Err e, w1) → (m ≫= f) w = (Err e, w1).
Proof. intros Hm. by rewrite bind_eq, Hm. Qed.

Lemma statement_Ok w u w' : statement w = (Ok u, w') → same_data w w'.
Proof. unfold statement. intros. repeat case_match; by simplify_eq. Qed.

Lemma statement_same w : same_data w (statement w).2.
Proof. unfold statement. by repeat case_match. Qed.

Lemma statement_no_faults w : faults w = [] → statement w = (Ok tt, w).
Proof. unfold statement. by intros ->. Qed.

(** A read-only operation: whatever fails, it leaves the data as they are, and answers what
    [f] computes from the tables or a failure of the database; without failures, it answers
    exactly that. *)
Class Reads {A} (m : M C A) (f : Tables → result error A) : Prop := {
  reads_same w : same_data w (m w).2;
  reads_value w : (m w).1 = f (tables w) ∨ (m w).1 = Err (ErrDatabase : error);
  reads_exact w : faults w = [] → m w = (f (tables w), w);
}.

Lemma reads_Ok {A} (m : M C A) f `{!Reads m f} w a w' :
  m w = (Ok a, w') → same_data w w' ∧ f (tables w) = Ok a.
Proof.
  intros Hm. pose proof (reads_same w) as Hs. pose proof (reads_value w) as Hv.
  rewrite Hm in Hs, Hv. simpl in *. naive_solver.
Qed.

#[export] Instance reads_ret {A} (a : A) : Reads (mret a) (λ _, Ok a).
Proof. split; intros; [done | by left | done]. Qed.

#[export] Instance reads_fail {A} e : Reads (A:=A) (fail e) (λ _, Err e).
Proof. split; intros; [done | by left | done]. Qed.

#[export] Instance reads_lift {A} (r : result error A) : Reads (lift r) (λ _, r).
Proof. split; intros; [done | by left | done]. Qed.

#[export] Instance reads_bind {A B} (m : M C A) (k : A → M C B) f g :
  Reads m f → (∀ a, Reads (k a) (g a)) → Reads (m ≫= k) (λ T, a ← f T; g a T).
Proof.
  intros Hm Hk. split; intros w.
  - rewrite bind_eq. pose proof (reads_same (m:=m) w) as Hs.
    destruct (m w) as [[a|e] w1]; simpl in *; [|done].
    etrans; [done|]. apply Hk.
  - rewrite bind_eq. pose proof (reads_same (m:=m) w) as Hs.
    pose proof (reads_value (m:=m) w) as Hv.
    destruct (m w) as [[a|e] w1]; simpl in *.
    + destruct Hv as [<-|?]; [|done]. simpl. rewrite Hs. apply Hk.
    + destruct Hv as [<-|?]; [by left | by right; simplify_eq].
  - intros Hf. rewrite bind_eq, (reads_exact (m:=m)) by done.
    destruct (f (tables w)); [by apply Hk | done].
Qed.

#[export] Instance reads_decide {A} (P : Prop) {HP : Decision P} (m1 m2 : M C A) f1 f2 :
  Reads m1 f1 → Reads m2 f2 →
  Reads (if decide P then m1 else m2) (λ T, if decide P then f1 T else f2 T).
Proof. intros. by case_decide. Qed.

#[export] Instance reads_query {A} (f : Tables → A) : Reads (query f) (λ T, Ok (f T)).
Proof.
  split; intros w; unfold query; rewrite bind_eq.
  - pose proof (statement_same w) as Hs. by destruct (statement w) as [[] w1].
  - pose proof (statement_same w) as Hs. unfold statement in *. destruct (faults w) as [|[]];
      simpl; auto.
  - intros Hf. by rewrite statement_no_faults.
Qed.

#[export] Instance reads_take {A} (f : Tables → option A) :
  Reads (take f) (λ T, match f T with Some a => Ok a | None => Err (ErrRecordNotFound : error) end).
Proof.
  assert (Reads (take f) (λ T, row ← Ok (f T);
    (λ T, match row with Some a => Ok a | None => Err (ErrRecordNotFound : error) end) T)) as [].
  { apply reads_bind; [apply _|]. intros [a|]; apply _. }
  split; auto.
Qed.

#[export] Instance reads_on_error {A} (m : M C A) s h f g :
  s ≠ ErrDatabase → Reads m f → Reads h g →
  Reads (on_error m s h) (λ T, match f T with
    | Err e => if errors_Is e s then g T else Err e
    | ok => ok end).
Proof.
  intros Hne Hm Hh. split; intros w; unfold on_error.
  - pose proof (reads_same (m:=m) w) as Hs. destruct (m w) as [[a|e] w1]; simpl in *; [done|].
    case_match; [|done]. etrans; [done|]. apply Hh.
  - pose proof (reads_same (m:=m) w) as Hs. pose proof (reads_value (m:=m) w) as Hv.
    destruct (m w) as [[a|e] w1]; simpl in *.
    + destruct Hv as [<-|?]; [by left | done].
    + destruct Hv as [<-|?]; simplify_eq/=.
      * case_match; [|by left]. rewrite Hs. apply Hh.
      * unfold errors_Is. rewrite bool_decide_eq_false_2 by (simpl; congruence). by right.
  - intros Hf. rewrite (reads_exact (m:=m)) by done.
    destruct (f (tables w)); [done|]. case_match; [by apply Hh | done].
Qed.

Lemma reads_ext {A} (m : M C A) f g : Reads m f → (∀ T, f T = g T) → Reads m g.
Proof. intros [] Hfg. split; intros w; rewrite <-?Hfg; auto. Qed.

(** Transactions. *)
Lemma transaction_Err {A} (fn : M C A) w e w' :
  transaction fn w = (Err e, w') → tables w' = tables w.
Proof. unfold transaction. case_match; simpl. case_match; intros; by simplify_eq. Qed.

Lemma transaction_Ok {A} (fn : M C A) w a w' :
  transaction fn w = (Ok a, w') →
  ∃ w1 w2, same_data w w1 ∧ fn w1 = (Ok a, w2) ∧ same_data w2 w'.
Proof.
  unfold transaction. intros Htx. destruct ((_ ← statement; _) w) as [[a'|e] w''] eqn:Hrun;
    simplify_eq.
  apply bind_Ok in Hrun as (u & w1 & Hs%statement_Ok & Hrun).
  apply bind_Ok in Hrun as (a1 & w2 & Hfn & Hrun).
  apply bind_Ok in Hrun as (u' & w3 & Hs'%statement_Ok & [= -> ->]). eauto.
Qed.

Lemma transaction_no_faults {A} (fn : M C A) w r w1 :
  faults w = [] → fn w = (r, w1) → faults w1 = [] →
  transaction fn w =
    match r with Ok a => (Ok a, w1) | Err e => (Err e, with_tables w1 (tables w)) end.
Proof.
  intros Hf Hfn Hf1. unfold transaction.
  rewrite (bind_run _ _ w tt w) by by apply statement_no_faults.
  rewrite bind_eq, Hfn. destruct r as [a|e]; [|done].
  by rewrite (bind_run _ _ w1 tt w1) by by apply statement_no_faults.
Qed.

Lemma exec_Ok {A} (f : Tables → Z → A * Tables * Z) w a w' :
  exec f w = (Ok a, w') →
  f (tables w) (seq w) = (a, tables w', seq w') ∧ outside w' = outside w.
Proof.
  intros (u & w1 & (HT & Hs & Ho)%statement_Ok & Hx)%bind_Ok.
  rewrite HT, Hs, Ho. unfold modify in Hx. destruct (f (tables w1) (seq w1)) as [[a' T'] s'].
  by simplify_eq/=.
Qed.

Lemma exec_no_faults {A} (f : Tables → Z → A * Tables * Z) w a T s :
  faults w = [] → f (tables w) (seq w) = (a, T, s) →
  exec f w = (Ok a, mkWorld T s [] (outside w)).
Proof.
  intros Hf Hx. unfold exec. rewrite (bind_run _ _ w tt w) by by apply statement_no_faults.
  unfold modify. rewrite Hx. unfold with_seq, with_tables. simpl. by rewrite Hf.
Qed.

(** A write: it can only fail with a failure of the database, and when it succeeds it has
    done exactly [g]. *)
Class Writes {A} (m : M C A) (g : Tables * Z → A * (Tables * Z)) : Prop := {
  writes_Ok w a w' : m w = (Ok a, w') →
    g (tables w, seq w) = (a, (tables w', seq w')) ∧ outside w' = outside w;
  writes_Err w e w' : m w = (Err e, w') → e = ErrDatabase;
  writes_exact w : faults w = [] →
    m w = let '(a, (T, s)) := g (tables w, seq w) in (Ok a, mkWorld T s [] (outside w));
}.

#[export] Instance writes_ret {A} (a : A) : Writes (mret a) (λ st, (a, st)).
Proof. split; [by intros ??? [= -> ->] | by intros ??? [=] | by intros [???] [= <-]]. Qed.

#[export] Instance writes_exec {A} (f : Tables → Z → A * Tables * Z) :
  Writes (exec f) (λ '(T, s), let '(a, T', s') := f T s in (a, (T', s'))).
Proof.
  split.
  - intros w a w' [-> ?]%exec_Ok. done.
  - intros w e w'. unfold exec, statement. rewrite bind_eq. unfold modify.
    destruct (faults w) as [|[]]; simpl; repeat case_match; by intros [=].
  - intros w Hf. destruct (f (tables w) (seq w)) as [[a T] s] eqn:Hx.
    by apply exec_no_faults.
Qed.

#[export] Instance writes_query {A} (f : Tables → A) : Writes (query f) (λ st, (f st.1, st)).
Proof.
  split.
  - intros w a w' Hq.
    destruct (reads_Ok (query f) (λ T, Ok (f T)) w a w' Hq) as [(-> & -> & ->) [= <-]]. done.
  - intros w e w' Hq. destruct (reads_query f) as [_ Hv _]; destruct (Hv w) as [Hv'|Hv']; rewrite Hq in Hv';
      [done | by injection Hv'].
  - intros [???] [= ->]. by destruct (reads_query f) as [_ _ ->].
Qed.

#[export] Instance writes_bind {A B} (m : M C A) (k : A → M C B) g h :
  Writes m g → (∀ a, Writes (k a) (h a)) →
  Writes (m ≫= k) (λ st, let '(a, st') := g st in h a st').
Proof.
  intros Hm Hk. split.
  - intros w b w' (a & w1 & [-> Ho]%writes_Ok & [<- Ho']%writes_Ok)%bind_Ok. split; congruence.
  - intros w e w'. rewrite bind_eq. destruct (m w) as [[a|e'] w1] eqn:Hw.
    + apply writes_Err.
    + intros [= <- <-]. by apply writes_Err in Hw.
  - intros w Hf. rewrite bind_eq, (writes_exact (m:=m)) by done.
    destruct (g (tables w, seq w)) as [a [T s]].
    by rewrite (writes_exact (m:=k a)) by done.
Qed.

(** A write between worlds with the same data. *)
Lemma writes_run {A} (m : M C A) g `{!Writes m g} w w1 w2 w' a :
  same_data w w1 → m w1 = (Ok a, w2) → same_data w2 w' →
  g (tables w, seq w) = (a, (tables w', seq w')) ∧ outside w' = outside w.
Proof. intros (-> & -> & ->) Hm (<- & <- & <-). by apply writes_Ok. Qed.

(** A read between worlds with the same data. *)
Lemma reads_run {A} (m : M C A) f `{!Reads m f} w w1 w2 a :
  same_data w w1 → m w1 = (Ok a, w2) → same_data w w2 ∧ f (tables w) = Ok a.
Proof.
  intros Hs Hm. destruct (reads_Ok m f w1 a w2 Hm) as [Hs' Hf].
  split; [by etrans|]. destruct Hs as (-> & _). done.
Qed.

Lemma writes_ext {A} (m : M C A) g h : Writes m g → (∀ st, g st = h st) → Writes m h.
Proof. intros [] Hgh. split; intros; rewrite <-?Hgh; eauto. Qed.

(** A write whose answer is dropped, and a loop of such writes. *)
#[export] Instance writes_for_each {A} (f : A → M C unit) (g : A → Tables * Z → Tables * Z) l :
  (∀ x, x ∈ l → Writes (f x) (λ st, (tt, g x st))) →
  Writes (for_each f l) (λ st, (tt, foldl (λ st x, g x st) st l)).
Proof.
  induction l as [|x l IH]; intros Hf; simpl; [apply writes_ret|].
  eapply writes_ext.
  - apply writes_bind; [apply Hf; left|]. intros ?. apply IH. intros y Hy. apply Hf. by right.
  - done.
Qed.
End runs.

(** [run_inv H] splits a successful run [H] into the runs of its parts, and replaces the
    read-only parts by what they compute. *)
Ltac run_inv_step H :=
  let a := fresh "a" in let w := fresh "w" in let H1 := fresh "Hrun" in
  apply bind_Ok in H as (a & w & H1 & H).

(** ** Tables of their own

    A component whose tables no other one reads keeps them in a state [D] of its own, the outside of
    its world, with the same failures. *)
Section rows.
Context {D : Type}.

Definition look {A} (f : D → A) : M D A := λ w, (Ok (f (outside w)), w).

Definition change {A} (f : D → A * D) : M D A := λ w,
  let '(a, d) := f (outside w) in (Ok a, with_outside w d).

Definition read_rows {A} (f : D → A) : M D A := _ ← statement; look f.

Definition write_rows {A} (f : D → A * D) : M D A := _ ← statement; change f.

Lemma write_rows_eq {A} (f : D → A * D) w :
  write_rows f w = match statement w with
    | (Ok _, w1) => let '(a, d) := f (outside w1) in (Ok a, with_outside w1 d)
    | (Err e, w1) => (Err e, w1)
    end.
Proof. done. Qed.

Lemma read_rows_run {A} (f : D → A) w r w' :
  read_rows f w = (Ok r, w') → r = f (outside w) ∧ outside w' = outside w.
Proof.
  unfold read_rows. intros (u & w1 & (_ & _ & Hs)%statement_Ok & [= <- <-])%bind_Ok. by rewrite Hs.
Qed.

(** Whatever it answers, a read changes nothing. *)
Lemma read_rows_outside {A} (f : D → A) w : outside (read_rows f w).2 = outside w.
Proof.
  unfold read_rows. rewrite bind_eq. pose proof (statement_same w) as (_ & _ & Hs).
  by destruct (statement w) as [[]].
Qed.

Lemma read_rows_exact {A} (f : D → A) w : faults w = [] → read_rows f w = (Ok (f (outside w)), w).
Proof. intros Hf. unfold read_rows. by rewrite bind_eq, statement_no_faults. Qed.
End rows.
