(* ===== verification/AZConfig.v ===== *)
(** * The availability zones ([internal/superphenix-api/internal/az/az.go])

    [config.Global.AZs] is a parameter of the functions that read it; [populateAZCodes]
    ([pkg/config/config.go]) is what the configuration loader does to it. *)

From S2P Require Import Prelude Errors Database.

Record AZConfig := mkAZConfig {
  Code : string;
  AuthSecret : string;
  Name : string;
  LogoUrl : string;
  ControllerUrl : string;
  Destination : string;
  Whitelist : list string;
}.

#[export] Instance AZConfig_eq_dec : EqDecision AZConfig.
Proof. solve_decision. Defined.

Definition with_Code (az : AZConfig) (code : string) : AZConfig :=
  mkAZConfig code (AuthSecret az) (Name az) (LogoUrl az) (ControllerUrl az) (Destination az)
    (Whitelist az).

Definition populateAZCodes (AZs : gmap string AZConfig) : gmap string AZConfig :=
  map_fold (λ code az res, <[code := with_Code az code]> res) AZs AZs.

Definition GetByCode (AZs : gmap string AZConfig) (code orgaId : string) : result error AZConfig :=
  match AZs !! code with
  | None => Err (errors_New "az not found")
  | Some az =>
    if decide (Whitelist az ≠ [] ∧ orgaId ∉ Whitelist az) then Err (errors_New "az not found")
    else Ok az
  end.

Definition FindAll (AZs : gmap string AZConfig) (orgaId : string) : list AZConfig :=
  foldl (λ filtered az,
    if decide (Whitelist az = []) then filtered ++ [az]
    else if decide (orgaId ∈ Whitelist az) then filtered ++ [az]
    else filtered) [] (map_to_list AZs).*2.

(** [slices.SortFunc] by code, as the callers of [FindAll] do. *)
Definition code_le (a b : AZConfig) : Prop := String.le (Code a) (Code b).

#[export] Instance code_le_dec : RelDecision code_le.
Proof. unfold code_le. intros a b. apply _. Defined.

#[export] Instance code_le_total : Total code_le.
Proof. intros a b. unfold code_le. apply (total String.le). Qed.

Definition sort_by_code (azs : list AZConfig) : list AZConfig := merge_sort code_le azs.

(** A loaded configuration: every AZ carries its key as code, and no code is empty. *)
Definition loaded (AZs : gmap string AZConfig) : Prop :=
  map_Forall (λ code az, Code az = code ∧ code ≠ EmptyString) AZs.

#[export] Instance loaded_decision AZs : Decision (loaded AZs).
Proof. unfold loaded. apply _. Defined.

(** ** Lemmas *)
Lemma lookup_populateAZCodes AZs code :
  populateAZCodes AZs !! code = (λ az, with_Code az code) <$> AZs !! code.
Proof.
  unfold populateAZCodes.
  rewrite (lookup_range _ (λ k az _, Some (with_Code az k))) by solve_range.
  by destruct (AZs !! code).
Qed.

Lemma elem_of_FindAll AZs orgaId az :
  az ∈ FindAll AZs orgaId ↔
  (∃ code, AZs !! code = Some az) ∧ (Whitelist az = [] ∨ orgaId ∈ Whitelist az).
Proof.
  unfold FindAll.
  assert (∀ l acc, az ∈ foldl (λ filtered az,
    if decide (Whitelist az = []) then filtered ++ [az]
    else if decide (orgaId ∈ Whitelist az) then filtered ++ [az]
    else filtered) acc l ↔ az ∈ acc ∨ az ∈ l ∧ (Whitelist az = [] ∨ orgaId ∈ Whitelist az)) as Hfold.
  { induction l as [|a l IH]; intros acc; simpl; [set_solver|].
    rewrite IH. repeat case_decide; set_solver. }
  rewrite Hfold, elem_of_nil, list_elem_of_fmap. split.
  - intros [[]|[([code az'] & -> & Hin%elem_of_map_to_list) ?]]. eauto.
  - intros [[code Hc] ?]. right. split; [|done]. exists (code, az).
    by rewrite elem_of_map_to_list.
Qed.

Lemma GetByCode_Ok AZs code orgaId az :
  GetByCode AZs code orgaId = Ok az ↔
  AZs !! code = Some az ∧ (Whitelist az = [] ∨ orgaId ∈ Whitelist az).
Proof.
  unfold GetByCode. destruct (AZs !! code) as [az'|]; [|naive_solver].
  case_decide as Hd; split.
  - done.
  - intros [[= ->] Hw]. destruct Hd as [? ?]. destruct Hw; [congruence | done].
  - intros [= ->]. split; [done|]. destruct (decide (Whitelist az = [])); [by left|].
    right. destruct (decide (orgaId ∈ Whitelist az)); [done|]. exfalso. apply Hd. split; done.
  - by intros [[= ->] _].
Qed.

Lemma sort_by_code_Permutation azs : sort_by_code azs ≡ₚ azs.
Proof. apply merge_sort_Permutation. Qed.

Lemma loaded_Code AZs code az : loaded AZs → AZs !! code = Some az → Code az = code.
Proof. intros Hl Hc. by apply Hl in Hc as [? _]. Qed.

Lemma loaded_FindAll_Code AZs orgaId az :
  loaded AZs → az ∈ FindAll AZs orgaId → Code az ≠ EmptyString.
Proof. intros Hl [[code Hc] _]%elem_of_FindAll. by apply Hl in Hc as [-> ?]. Qed.
