(* ===== verification/ResourceTheorems.v ===== *)
(** * The theorems of the quota resources and of the availability zones

    What the callers of [pkg/quota/resources.go] and [internal/az/az.go] rely on: which texts are
    quotas, that quantities survive being written and read back, by the API and by Kubernetes,
    that sums saturate instead of wrapping around, that a split never allocates more than what it
    splits, and that both lookups of an availability zone agree. *)

From S2P Require Import Prelude Errors Quantity QuotaResources Database AZConfig.

Section theorems.
Context {QL : QuantityLib} {QLaws : QuantityLaws QL}.
Implicit Types (r : Resources) (q : Quantities) (n : string).

(** ** Helper lemmas *)

(** The abstract resource a Kubernetes key belongs to. *)
Definition resource_of (k : string) : option string :=
  if decide (k ∈ ["requests.cpu"; "limits.cpu"]) then Some CPU
  else if decide (k ∈ ["requests.memory"; "limits.memory"]) then Some Memory
  else if decide (k ∈ ["requests.storage"]) then Some Disk else None.

Lemma resource_of_spec k n :
  resource_of k = Some n ↔ k ∈ default [] (translations !! n).
Proof.
  unfold resource_of, translations. cbn [list_to_map foldr fst snd].
  destruct (decide (n = CPU)) as [->|Hc]; [|destruct (decide (n = Memory)) as [->|Hm];
    [|destruct (decide (n = Disk)) as [->|Hd]]].
  all: simplify_map_eq; simpl.
  all: repeat case_decide; split; set_solver.
Qed.

Lemma lookup_assign (keys : list string) (value : string) (hard : gmap string string) k :
  foldl (λ hard k, <[k:=value]> hard) hard keys !! k =
    if decide (k ∈ keys) then Some value else hard !! k.
Proof.
  revert hard. induction keys as [|k' keys IH]; intros hard; cbn [foldl].
  { by rewrite decide_False by set_solver. }
  rewrite IH. destruct (decide (k ∈ keys)), (decide (k = k')); subst;
    repeat case_decide; simplify_map_eq; set_solver.
Qed.

Lemma lookup_ToKubernetesQuota r k :
  ToKubernetesQuota r !! k = resource_of k ≫= λ n, r !! n.
Proof.
  unfold ToKubernetesQuota. revert k.
  apply (map_fold_weak_ind (λ hard r, ∀ k, hard !! k = resource_of k ≫= λ n, r !! n)).
  { intros k. rewrite lookup_empty. by destruct (resource_of k). }
  intros n v r' hard Hn IH k. rewrite lookup_assign, IH.
  destruct (decide (k ∈ default [] (translations !! n))) as [Hk|Hk].
  - apply resource_of_spec in Hk. rewrite Hk. simpl. by rewrite lookup_insert_eq.
  - destruct (resource_of k) as [n'|] eqn:Hk'; simpl; [|done].
    rewrite lookup_insert_ne; [done|]. intros <-. by apply Hk, resource_of_spec.
Qed.

(** The usage of one resource: the highest of its tracked keys. *)
Definition usageOf (used : gmap string string) (n : string) : option Z :=
  foldl (λ o k,
    match used !! k with
    | None => o
    | Some value =>
      match parseQuantity n value with
      | Err _ => o
      | Ok v => match o with
                | Some current => if decide (current < v) then Some v else o
                | None => Some v
                end
      end
    end) None (default [] (translations !! n)).

Lemma lookup_FromKubernetesUsage used n :
  FromKubernetesUsage used !! n = match translations !! n with
                                  | Some _ => usageOf used n
                                  | None => None
                                  end.
Proof.
  unfold FromKubernetesUsage, usageOf.
  rewrite (lookup_range _ (λ n keys o, foldl (λ o k,
    match used !! k with
    | None => o
    | Some value =>
      match parseQuantity n value with
      | Err _ => o
      | Ok v => match o with
                | Some current => if decide (current < v) then Some v else o
                | None => Some v
                end
      end
    end) o keys)).
  { rewrite lookup_empty. by destruct (translations !! n). }
  intros k keys res i. revert res.
  induction keys as [|k' keys IH]; intros res; cbn [foldl].
  { by case_decide as Hi; [subst|]. }
  rewrite IH. destruct (used !! k') as [value|]; [|done].
  destruct (parseQuantity k value) as [v|]; [|done].
  destruct (res !! k) as [c|] eqn:Hres; [destruct (decide (c < v))|];
    destruct (decide (i = k)) as [->|?]; simplify_map_eq; try done.
Qed.

Lemma usageOf_constant used n s v :
  (∀ k, k ∈ default [] (translations !! n) → used !! k = Some s) →
  parseQuantity n s = Ok v → default [] (translations !! n) ≠ [] → usageOf used n = Some v.
Proof.
  unfold usageOf. destruct (default [] (translations !! n)) as [|k keys]; [done|].
  intros Hall Hv _. cbn [foldl]. rewrite Hall, Hv by set_solver.
  assert (∀ k, k ∈ keys → used !! k = Some s) as Hkeys by set_solver. clear Hall.
  induction keys as [|k' keys IH]; [done|]. cbn [foldl]. rewrite Hkeys, Hv by set_solver.
  rewrite decide_False by lia. apply IH. set_solver.
Qed.

Lemma usageOf_nothing used n :
  (∀ k, k ∈ default [] (translations !! n) → used !! k = None) → usageOf used n = None.
Proof.
  unfold usageOf. induction (default [] (translations !! n)) as [|k keys IH]; [done|].
  intros Hall. cbn [foldl]. rewrite Hall by set_solver. apply IH. set_solver.
Qed.

Lemma exceedsFrom_first q limit names msg :
  StronglySorted String.le names → exceedsFrom q limit names = Some msg →
  ∃ n, n ∈ names ∧ get limit n < get q n ∧
    (∀ n', n' ∈ names → get limit n' < get q n' → String.le n n') ∧
    msg = n +:+ " quota exceeded: requested " +:+ format q n +:+ " exceeds limit " +:+ format limit n.
Proof.
  induction 1 as [|n names Hs IH Hn]; simpl; [done|]. case_decide as Hlt.
  - intros [= <-]. exists n. split_and!; [left | done | | done].
    intros n' [->|Hin]%elem_of_cons _; [done|]. by eapply Forall_forall in Hn.
  - intros (n' & Hin & Hlt' & Hfirst & ->)%IH. exists n'. split_and!; [by right | done | | done].
    intros n'' [->|Hin']%elem_of_cons Hlt''; [lia | by apply Hfirst].
Qed.

(** ** The theorems *)

(** Quantities that the API computed (allowed resources, below the largest [int64]) are read
    back exactly from the text they are stored as, so that a distributed quota loses nothing. *)
Theorem stored_quantities_roundtrip q : storable q → Parse (toResources q) = Ok q.
Proof. apply Parse_toResources. Qed.

(** The [spec.hard] entries of a valid quota, read back as Kubernetes reports its usage, are
    the parsed quota: nothing is lost between the API and the cluster, and no other resource is
    ever reported. *)
Theorem kubernetes_quota_roundtrip r :
  parses r → FromKubernetesUsage (ToKubernetesQuota r) = parsed r.
Proof.
  intros Hr. apply map_eq. intros n. rewrite lookup_FromKubernetesUsage.
  pose proof (Parse_Ok_lookup r _ n (parses_Ok r Hr)) as Hn.
  assert (∀ k, k ∈ default [] (translations !! n) → ToKubernetesQuota r !! k = r !! n) as Hk.
  { intros k Hk%resource_of_spec. by rewrite lookup_ToKubernetesQuota, Hk. }
  destruct (r !! n) as [s|] eqn:Hs.
  - destruct Hn as (v & Hv & ->). unfold parseEntry, validateName in Hv.
    destruct (translations !! n) as [keys|] eqn:Hkeys; [|done]. simpl in Hv.
    apply (usageOf_constant _ n s); [by rewrite Hkeys | done | rewrite Hkeys; simpl].
    intros ->. revert Hkeys. unfold translations. intros Hkeys%elem_of_list_to_map_2. set_solver.
  - rewrite Hn. destruct (translations !! n) eqn:Hkeys; [|done].
    apply usageOf_nothing. by rewrite Hkeys.
Qed.

(** A text quota is accepted exactly when every name is an allowed resource and every value a
    quantity that is neither negative nor at the limit of [int64] (in millicores for CPU); it is
    refused with [ErrInvalidResources] otherwise. *)
Theorem Parse_decides r :
  let valid n s :=
    is_Some (translations !! n) ∧
    ∃ p, ParseQuantity s = Some p ∧ 0 ≤ nano p < MaxInt64 * (if decide (n = CPU) then 10 ^ 6 else 10 ^ 9) in
  match Parse r with
  | Ok q => map_Forall valid r ∧ in_range q ∧ dom q = dom r
  | Err e => ¬ map_Forall valid r ∧ err_is e = ErrInvalidQuantity
  end.
Proof.
  intros valid. assert (∀ n s, is_Ok (parseEntry n s) = true ↔ valid n s) as Hentry.
  { intros n s. unfold valid, parseEntry, validateName.
    destruct (translations !! n) as [keys|]; simpl; [|split; [done | by intros [[? ?] _]]].
    unfold parseQuantity. destruct (ParseQuantity s) as [p|]; simpl;
      [|split; [done | by intros (_ & ? & ? & _)]].
    rewrite Sign_spec, Cmp_spec.
    assert (int64 MaxInt64) by done.
    destruct (decide (n = CPU)); rewrite ?NewMilliQuantity_spec, ?NewQuantity_spec by done.
    all: repeat case_decide; simpl; split; try done.
    all: try (intros _; split; [by eauto|]; exists p; split; [done|]; lia).
    all: intros (_ & p' & [= <-] & ?); lia. }
  assert (parses r ↔ map_Forall valid r) as Hiff.
  { rewrite parses_iff. split; intros Hall n s Hn; apply Hentry, (Hall n s Hn). }
  destruct (Parse r) as [q|e] eqn:Hq.
  - destruct (parsed_Ok r q Hq) as [<- Hr]. split; [by apply Hiff|]. split; [apply parsed_in_range|].
    apply set_eq. intros n. rewrite !elem_of_dom. by apply parsed_is_Some.
  - split; [|by eapply Parse_Err]. rewrite <-Hiff. unfold parses. by rewrite Hq.
Qed.

(** Splitting a quota into equal parts keeps every resource, even at 0; together the parts
    never exceed the quota, and leave less than one unit per part. *)
Theorem SplitEqually_fair q count n :
  in_range q → 0 < count →
  dom (SplitEqually q count) = dom q ∧
  count * get (SplitEqually q count) n ≤ get q n < count * (get (SplitEqually q count) n + 1).
Proof.
  intros Hq Hc. split.
  - apply set_eq. intros i. rewrite !elem_of_dom, lookup_SplitEqually by done.
    by rewrite fmap_is_Some.
  - rewrite get_SplitEqually by done. pose proof (Z.div_mod (get q n) count ltac:(lia)).
    pose proof (Z.mod_pos_bound (get q n) count Hc). lia.
Qed.

(** Sums of quotas never wrap around: whatever the number of quotas and their order, each
    resource of the sum is the exact total, capped at the largest [int64]. *)
Theorem Add_saturates (l : list Quantities) n :
  Forall in_range l →
  get (foldl Add ∅ l) n = Z.min MaxInt64 (zsum ((λ q, get q n) <$> l)) ∧
  ∀ l', l ≡ₚ l' → get (foldl Add ∅ l') n = get (foldl Add ∅ l) n.
Proof.
  assert (∀ l b, in_range b → Forall in_range l →
    get (foldl Add b l) n = Z.min MaxInt64 (get b n + zsum ((λ q, get q n) <$> l))) as Hsum.
  { clear l. intros l. induction l as [|q l IH]; intros b Hb Hl; csimpl.
    - pose proof (in_range_get b n Hb). lia.
    - apply Forall_cons in Hl as [Hq Hl]. rewrite IH, get_Add by eauto with spx.
      pose proof (in_range_get b n Hb). pose proof (in_range_get q n Hq).
      assert (0 ≤ zsum ((λ q, get q n) <$> l)); [|lia].
      apply zsum_nonneg, Forall_fmap. eapply Forall_impl; [exact Hl|].
      intros q' Hq'. by apply in_range_get. }
  intros Hl. rewrite Hsum by eauto with spx. split; [done|]. intros l' Hp.
  rewrite Hsum by (try apply in_range_empty; by rewrite <-Hp). by rewrite Hp.
Qed.

(** [Exceeds] reports nothing exactly when every limited resource is within its limit, a
    resource missing from the request counting 0; otherwise it names the first excess in
    alphabetical order, with the requested and the allowed quantities. *)
Theorem Exceeds_first q limit :
  let exceeded n := ∃ l, limit !! n = Some l ∧ l < get q n in
  match Exceeds q limit with
  | None => ∀ n, ¬ exceeded n
  | Some msg => ∃ n, exceeded n ∧ (∀ n', exceeded n' → String.le n n') ∧
      msg = n +:+ " quota exceeded: requested " +:+ format q n +:+ " exceeds limit " +:+ format limit n
  end.
Proof.
  intros exceeded. destruct (Exceeds q limit) as [msg|] eqn:Hex.
  - apply exceedsFrom_first in Hex as (n & Hin & Hlt & Hfirst & Hmsg);
      [|apply Sorted_StronglySorted, sort_strings_Sorted; apply _].
    apply elem_of_sorted_keys in Hin as [l Hl].
    exists n. split_and!; [|intros n' (l' & Hl' & Hlt')|done].
    + exists l. split; [done|]. unfold get at 1 in Hlt. by rewrite Hl in Hlt.
    + apply Hfirst; [apply elem_of_sorted_keys; eauto|]. unfold get at 1. by rewrite Hl'.
  - intros n (l & Hl & Hlt). pose proof (proj1 (Exceeds_None q limit) Hex n l Hl). lia.
Qed.

(** The two lookups of an availability zone agree: an organization sees in the list exactly
    the zones it may name, and an unknown zone is indistinguishable from one it is not
    whitelisted in. *)
Theorem GetByCode_FindAll (AZs : gmap string AZConfig) orga code :
  loaded AZs →
  match GetByCode AZs code orga with
  | Ok az => az ∈ FindAll AZs orga ∧ Code az = code
  | Err e => (∀ az, az ∈ FindAll AZs orga → Code az ≠ code) ∧ e = errors_New "az not found"
  end.
Proof.
  intros Hl. destruct (GetByCode AZs code orga) as [az|e] eqn:Hg.
  - apply GetByCode_Ok in Hg as [Hc Hw]. split; [apply elem_of_FindAll; eauto|].
    by eapply loaded_Code.
  - split; [|unfold GetByCode in Hg; by repeat (case_match; simplify_eq)].
    intros az [(code' & Hc) Hw]%elem_of_FindAll Hcode.
    assert (code' = code) as -> by (rewrite <-Hcode; symmetry; by eapply loaded_Code).
    assert (GetByCode AZs code orga = Ok az) by by apply GetByCode_Ok. congruence.
Qed.
End theorems.

(** ** Witnesses *)

Import NanoQuantity.

Lemma stored_quantities_roundtrip_witness :
  Parse (toResources {["cpu" := 2500; "memory" := 1024]}) = Ok {["cpu" := 2500; "memory" := 1024]}.
Proof.
  assert (storable {["cpu" := 2500; "memory" := 1024]}) as Hq by evaluate.
  exact (stored_quantities_roundtrip _ Hq).
Defined.

Lemma kubernetes_quota_roundtrip_witness :
  FromKubernetesUsage (ToKubernetesQuota {["cpu" := "2500m"; "disk" := "1Gi"]}) =
    {["cpu" := 2500; "disk" := 1073741824]}.
Proof.
  assert (parses {["cpu" := "2500m"; "disk" := "1Gi"]}) as Hr by evaluate.
  assert (parsed {["cpu" := "2500m"; "disk" := "1Gi"]} = {["cpu" := 2500; "disk" := 1073741824]})
    as Hq by evaluate.
  rewrite (kubernetes_quota_roundtrip {["cpu" := "2500m"; "disk" := "1Gi"]} Hr). exact Hq.
Defined.

Lemma SplitEqually_fair_witness :
  3 * get (SplitEqually {["cpu" := 1000]} 3) "cpu" ≤ 1000.
Proof.
  assert (in_range {["cpu" := 1000]}) as Hq by evaluate.
  assert (get {["cpu" := 1000]} "cpu" = 1000) as Hc by evaluate.
  destruct (SplitEqually_fair {["cpu" := 1000]} 3 "cpu" Hq ltac:(lia)) as (_ & Hle & _).
  rewrite Hc in Hle. exact Hle.
Defined.

Lemma Add_saturates_witness :
  get (foldl Add ∅ [{["cpu" := MaxInt64]}; {["cpu" := 1]}]) "cpu" = MaxInt64.
Proof.
  assert (Forall in_range [{["cpu" := MaxInt64]}; {["cpu" := 1]}]) as Hl by evaluate.
  destruct (Add_saturates [{["cpu" := MaxInt64]}; {["cpu" := 1]}] "cpu" Hl) as [-> _].
  vm_compute. reflexivity.
Defined.

Definition one_AZ : gmap string AZConfig := populateAZCodes {["az1" :=
  mkAZConfig EmptyString EmptyString "First" EmptyString EmptyString EmptyString ["o"]]}.

Lemma GetByCode_FindAll_witness :
  Forall (λ az, Code az ≠ "az1") (FindAll one_AZ "other").
Proof.
  assert (loaded one_AZ) as Hl by evaluate.
  pose proof (GetByCode_FindAll one_AZ "other" "az1" Hl) as H.
  assert (is_Ok (GetByCode one_AZ "az1" "other") = false) as Hno by (vm_compute; reflexivity).
  apply Forall_forall.
  destruct (GetByCode one_AZ "az1" "other"); [discriminate Hno | exact (proj1 H)].
Defined.
