(* ===== verification/Hierarchical.v ===== *)
(** * The hierarchical quotas ([internal/superphenix-api/internal/db/crud/quota/hierarchical.go])

    Every function of the file, in the state-and-error monad of [Database]; the queries come
    first, then the pure rules, then the writes. The two hooks [ReadUsage] and [PushAZ], which
    the quotasync package installs, are a class: the theorems hold for whatever is installed. At the end,
    the creation, deletion and deactivation of projects and organizations ([crud/project],
    [crud/organization]). *)

From S2P Require Import Prelude Quantity Errors QuotaResources Database AZConfig.

(** The quota of a project as enforced by the cluster of one AZ, and what is used of it. *)
Record AZUsage := mkAZUsage { Hard : Quantities; Used : Quantities }.

(** The hooks; [None] is a nil hook. They act on what is outside the database. *)
Class AZHooks (C : Type) := {
  ReadUsage : option (uuid → uuid → string → C → result error AZUsage * C);
  PushAZ : option (uuid → uuid → string → gmap string string → C → result error unit * C);
}.

(** ** Database access *)

Definition live_project (T : Tables) (organizationId projectId : uuid) : bool :=
  match projects T !! projectId with
  | Some p => bool_decide (p_OrgaId p = organizationId) && negb (p_Deleted p)
  | None => false
  end.

(** [ORDER BY] on the key of the rows. *)
Definition order_by {K V} (R : relation K) `{!RelDecision R} (l : list (K * V)) : list (K * V) :=
  @merge_sort _ (λ x y, R x.1 y.1) (λ x y, decide (R x.1 y.1)) l.

Definition pair_le (x y : uuid * string) : Prop :=
  if decide (x.1 = y.1) then String.le x.2 y.2 else String.le x.1 y.1.

#[export] Instance pair_le_dec : RelDecision pair_le.
Proof. intros x y. unfold pair_le. case_decide; apply _. Defined.

Section database_access.
Context {C : Type}.
Implicit Types (organizationId projectId : uuid).

Definition nilWhenNotFound {A} (m : M C A) : M C (option A) :=
  on_error (row ← m; mret (Some row)) ErrRecordNotFound (mret None).

Definition organizationQuotaRow (T : Tables) organizationId : option OrganizationQuota :=
  row ← organization_quotas T !! organizationId;
  if oq_Deleted row then None else Some row.

Definition findOrganizationQuota organizationId : M C (option OrganizationQuota) :=
  nilWhenNotFound (take (λ T, organizationQuotaRow T organizationId)).

Definition projectQuotaRow (T : Tables) projectId : option ProjectQuota :=
  row ← project_quotas T !! projectId;
  if pq_Deleted row then None else Some row.

Definition findProjectQuota projectId : M C (option ProjectQuota) :=
  nilWhenNotFound (take (λ T, projectQuotaRow T projectId)).

Definition azQuotaRows (T : Tables) projectId : gmap (uuid * string) ProjectAZQuota :=
  filter (λ '((p, _), row), p = projectId ∧ aq_Deleted row = false) (project_az_quotas T).

Definition listAZQuotas projectId : M C (list (string * ProjectAZQuota)) :=
  query (λ T, (λ '((_, codeAZ), row), (codeAZ, row)) <$>
    order_by pair_le (map_to_list (azQuotaRows T projectId))).

Definition organizationAZQuotaRows (T : Tables) organizationId :
    gmap (uuid * string) ProjectAZQuota :=
  filter (λ '((p, _), row), live_project T organizationId p = true ∧ aq_Deleted row = false)
    (project_az_quotas T).

Definition listOrganizationAZQuotas organizationId : M C (list ((uuid * string) * ProjectAZQuota)) :=
  query (λ T, order_by pair_le (map_to_list (organizationAZQuotaRows T organizationId))).

Definition projectQuotaRows (T : Tables) organizationId : gmap uuid ProjectQuota :=
  filter (λ '(p, row), pq_OrganizationId row = organizationId ∧
    live_project T organizationId p = true ∧ pq_Deleted row = false) (project_quotas T).

Definition listProjectQuotas organizationId : M C (list (uuid * ProjectQuota)) :=
  query (λ T, order_by String.le (map_to_list (projectQuotaRows T organizationId))).

Definition liveProjectIds (T : Tables) organizationId : list uuid :=
  sorted_keys (filter (λ '(p, _), live_project T organizationId p = true) (projects T)).

Definition listProjectIds organizationId : M C (list uuid) :=
  query (λ T, liveProjectIds T organizationId).

(** The upserts: the revision is left to its default, the next value of the sequence, and a
    soft-deleted row is revived. *)
Definition upsertOrganizationQuota organizationId (resources : Resources) : M C OrganizationQuota :=
  exec (λ T s, let row := mkOrganizationQuota resources (s + 1) false in
    (row, set_organization_quotas <[organizationId:=row]> T, s + 1)).

Definition upsertProjectQuota organizationId projectId (resources : Resources) : M C ProjectQuota :=
  exec (λ T s, let row := mkProjectQuota organizationId resources (s + 1) false in
    (row, set_project_quotas <[projectId:=row]> T, s + 1)).

Definition upsertAZQuota projectId (codeAZ : string) (resources : Resources) : M C ProjectAZQuota :=
  exec (λ T s, let row := mkProjectAZQuota resources (s + 1) false in
    (row, set_project_az_quotas <[(projectId, codeAZ):=row]> T, s + 1)).

(** ** Transactions and locks *)

Definition organizationRow (T : Tables) organizationId : option Organization :=
  row ← organizations T !! organizationId;
  if o_Deleted row then None else Some row.

(** The row lock serializes the writes of an organization: the functions below are atomic. *)
Definition lockOrganization organizationId : M C unit :=
  on_error (_ ← take (λ T, organizationRow T organizationId); mret tt)
    ErrRecordNotFound (fail ErrOrganizationNotFound).

Definition checkProject organizationId projectId : M C unit :=
  on_error
    (_ ← take (λ T, if live_project T organizationId projectId then Some tt else None); mret tt)
    ErrRecordNotFound (fail ErrProjectNotFound).

Definition inOrganizationTransaction {A} organizationId (fn : M C A) : M C A :=
  transaction (_ ← lockOrganization organizationId; fn).

Definition inProjectTransaction {A} organizationId projectId (fn : M C A) : M C A :=
  inOrganizationTransaction organizationId (_ ← checkProject organizationId projectId; fn).
End database_access.

(** ** The hierarchy of a project *)
Record Hierarchy := mkHierarchy {
  h_Organization : Resources;
  h_Project : Resources;
  h_AZs : gmap string Resources;
  h_OrganizationRevision : Z;
  h_ProjectRevision : Z;
  h_AZRevisions : gmap string Z;
}.

(** [Hierarchy.AZ] *)
Definition hierarchyAZ (h : Hierarchy) (codeAZ : string) : Resources :=
  EffectiveAZQuota (h_Organization h) (h_Project h) (default ∅ (h_AZs h !! codeAZ)).

(** [Hierarchy.Revision] *)
Definition hierarchyRevision (h : Hierarchy) (codeAZ : string) : Z :=
  let rev := h_OrganizationRevision h in
  let rev := if decide (rev < h_ProjectRevision h) then h_ProjectRevision h else rev in
  let azRev := get (h_AZRevisions h) codeAZ in
  if decide (rev < azRev) then azRev else rev.

Definition loadHierarchy {C} (organizationId projectId : uuid) : M C Hierarchy :=
  organizationQuota ← findOrganizationQuota organizationId;
  projectQuota ← findProjectQuota projectId;
  azQuotas ← listAZQuotas projectId;
  mret (mkHierarchy
    (default ∅ (oq_Resources <$> organizationQuota))
    (default ∅ (pq_Resources <$> projectQuota))
    (foldl (λ (AZs : gmap string Resources) '(codeAZ, row), <[codeAZ:=aq_Resources row]> AZs) ∅ azQuotas)
    (default 0 (oq_Revision <$> organizationQuota))
    (default 0 (pq_Revision <$> projectQuota))
    (foldl (λ (revs : gmap string Z) '(codeAZ, row), <[codeAZ:=aq_Revision row]> revs) ∅ azQuotas)).

Definition projectLimit (organizationResources projectResources : Resources) : Resources :=
  Effective projectResources [organizationResources].

(** ** Allocations and rules *)
Section rules.
Context {QL : QuantityLib} {C : Type}.
Implicit Types (organizationId projectId : uuid).

Definition sumAllocations (allocations : gmap uuid Quantities) : Quantities :=
  map_fold (λ _ allocation total, Add total allocation) ∅ allocations.

Definition sumAZQuotas (azQuotas : gmap string Resources) (excludedAZ : string) :
    result error Quantities :=
  foldM (λ total '(codeAZ, resources),
    if decide (codeAZ = excludedAZ) then Ok total else
    parsed ← Parse resources;
    Ok (Add total parsed)) ∅ (map_to_list azQuotas).

Definition quotasByProject (projectQuotas : list (uuid * ProjectQuota)) : gmap uuid Resources :=
  foldl (λ (byProject : gmap uuid Resources) '(projectId, row),
    <[projectId:=pq_Resources row]> byProject) ∅ projectQuotas.

(** The loops of [projectAllocations] over the rows read. *)
Definition allocationsOf (projectQuotas : list (uuid * ProjectQuota))
    (azQuotas : list ((uuid * string) * ProjectAZQuota)) : result error (gmap uuid Quantities) :=
  allocations ← foldM (λ (allocations : gmap uuid Quantities) '(projectId, row),
    parsed ← Parse (pq_Resources row);
    Ok (<[projectId:=parsed]> allocations)) ∅ projectQuotas;
  heldByAZs ← foldM (λ (heldByAZs : gmap uuid Quantities) '((projectId, _), row),
    parsed ← Parse (aq_Resources row);
    Ok (<[projectId:=Add (default ∅ (heldByAZs !! projectId)) parsed]> heldByAZs)) ∅ azQuotas;
  Ok (map_fold (λ projectId held (allocations : gmap uuid Quantities),
    <[projectId:=Max (default ∅ (allocations !! projectId)) held]> allocations)
    allocations heldByAZs).

Definition projectAllocations organizationId :
    M C (list (uuid * ProjectQuota) * gmap uuid Quantities) :=
  projectQuotas ← listProjectQuotas organizationId;
  azQuotas ← listOrganizationAZQuotas organizationId;
  allocations ← lift (allocationsOf projectQuotas azQuotas);
  mret (projectQuotas, allocations).

Definition checkCapacity (requested current allocatedToOthers limit : Quantities)
    (errExceeded : error) : result error unit :=
  let '(increased, limitOfIncreased) :=
    map_fold (λ name requestedValue '(increased, limitOfIncreased),
      match limit !! name with
      | Some limitValue =>
        if decide (get current name < requestedValue)
        then (<[name:=requestedValue]> increased, <[name:=limitValue]> limitOfIncreased)
        else (increased, limitOfIncreased)
      | None => (increased, limitOfIncreased)
      end) (∅ : Quantities, ∅ : Quantities) requested in
  match Exceeds (Add allocatedToOthers increased) limitOfIncreased with
  | Some message => Err (Errorf errExceeded (": " +:+ message))
  | None => Ok tt
  end.

Definition checkNotBelow (limit allocated : Quantities) (children : string) : result error unit :=
  match Exceeds allocated limit with
  | Some message => Err (Errorf ErrBelowAllocated (" by " +:+ children +:+ ": " +:+ message))
  | None => Ok tt
  end.

Definition checkProjectCoversAZs (hierarchy : Hierarchy) (requested : Resources) :
    result error unit :=
  effectiveLimit ← Parse (projectLimit (h_Organization hierarchy) requested);
  allocatedToAZs ← sumAZQuotas (h_AZs hierarchy) EmptyString;
  match checkNotBelow effectiveLimit allocatedToAZs "its availability zones" with
  | Err e =>
    if decide (h_Organization hierarchy ≠ ∅) then
      Err (Errorf e " (a resource the organization limits counts as 0 when the project quota omits it)")
    else Err e
  | ok => ok
  end.

Definition checkProjectFitsInOrganization organizationId projectId (requested : Quantities)
    (organizationResources : Resources) : M C unit :=
  if decide (organizationResources = ∅) then mret tt else
  organizationLimit ← lift (Parse organizationResources);
  '(_, allocations) ← projectAllocations organizationId;
  let current := default ∅ (allocations !! projectId) in
  let others := delete projectId allocations in
  lift (checkCapacity requested current (sumAllocations others) organizationLimit
    ErrOrgQuotaExceeded).

Definition checkAZFitsInProject (hierarchy : Hierarchy) (codeAZ : string) (requested : Quantities) :
    result error unit :=
  effectiveLimit ← Parse (projectLimit (h_Organization hierarchy) (h_Project hierarchy));
  current ← Parse (default ∅ (h_AZs hierarchy !! codeAZ));
  allocatedToOtherAZs ← sumAZQuotas (h_AZs hierarchy) codeAZ;
  checkCapacity requested current allocatedToOtherAZs effectiveLimit ErrProjectQuotaExceeded.

Definition loweredLimits (before after : Resources) : result error Quantities :=
  parsedBefore ← Parse before;
  parsedAfter ← Parse after;
  Ok (map_fold (λ name newValue (lowered : Quantities),
    match parsedBefore !! name with
    | Some oldValue => if decide (newValue < oldValue) then <[name:=newValue]> lowered else lowered
    | None => lowered
    end) ∅ parsedAfter).

Definition formatQuantity (name : string) (value : Z) : string :=
  default EmptyString (toResources {[name := value]} !! name).

(** Running a hook: it acts on what is outside the database. *)
Definition external {A} (f : C → result error A * C) : M C A := λ w,
  let '(r, c) := f (outside w) in (r, with_outside w c).

Context `{!AZHooks C}.

(** The verification of one lowered resource against the usage read. *)
Definition checkUsageOf (usage : AZUsage) (lowered : Quantities) (codeAZ name : string) :
    result error unit :=
  match Hard usage !! name, Used usage !! name with
  | Some _, Some used =>
    if decide (get lowered name < used) then
      Err (Errorf ErrBelowUsage (": " +:+ name +:+ " " +:+ formatQuantity name used +:+
        " used in " +:+ codeAZ +:+ ", above the requested " +:+
        formatQuantity name (get lowered name)))
    else Ok tt
  | _, _ =>
    Err (Errorf ErrUsageUnavailable (": " +:+ name +:+ " is not tracked in " +:+ codeAZ))
  end.

Definition checkUsage organizationId projectId (codeAZ : string) (lowered : Quantities) : M C unit :=
  if decide (lowered = ∅) then mret tt else
  match ReadUsage with
  | None => fail (errors_New "no quota usage reader configured")
  | Some readUsage => λ w,
    match external (readUsage organizationId projectId codeAZ) w with
    | (Err _, w') => (Err (Errorf ErrUsageUnavailable (": " +:+ codeAZ)), w')
    | (Ok usage, w') =>
      (foldM (λ _ name, checkUsageOf usage lowered codeAZ name) tt (sorted_keys lowered), w')
    end
  end.

Definition pushLowered organizationId projectId (codeAZ : string) (effective : Resources) : M C unit :=
  match PushAZ with
  | None => fail (errors_New "no quota pusher configured")
  | Some pushAZ => λ w,
    match external (pushAZ organizationId projectId codeAZ (ToKubernetesQuota effective)) w with
    | (Ok _, w') => (Ok tt, w')
    | (Err e, w') =>
      if errors_Is e ErrBelowUsage then (Err e, w')
      else (Err (Errorf ErrAZUnavailable (": " +:+ codeAZ)), w')
    end
  end.
End rules.

(** ** Distribution and writes *)
Section writes.
Context {QL : QuantityLib} {C : Type} `{!AZHooks C}.
Context (AZs : gmap string AZConfig).
Implicit Types (organizationId projectId : uuid).

Definition splitAmongAZs organizationId projectId (projectResources : Resources) : M C unit :=
  parsedProjectQuota ← lift (Parse projectResources);
  let azConfigs := sort_by_code (FindAll AZs organizationId) in
  let equalShare := toResources (SplitEqually parsedProjectQuota (Z.of_nat (length azConfigs))) in
  for_each (λ azConfig, _ ← upsertAZQuota projectId (Code azConfig) equalShare; mret tt) azConfigs.

Definition saveProjectQuota organizationId projectId (resources : Resources) (hasAZQuotas : bool) :
    M C ProjectQuota :=
  projectQuota ← upsertProjectQuota organizationId projectId resources;
  if hasAZQuotas then mret projectQuota else
  _ ← splitAmongAZs organizationId projectId resources;
  mret projectQuota.

Definition distributeAmongProjects organizationId (organizationLimit : Quantities)
    (allocations : gmap uuid Quantities) : M C unit :=
  projectIds ← listProjectIds organizationId;
  let equalShare := SplitEqually (Sub organizationLimit (sumAllocations allocations))
                      (Z.of_nat (length projectIds)) in
  for_each (λ projectId,
    let heldByAZs := default ∅ (allocations !! projectId) in
    let hasAZQuotas := bool_decide (is_Some (allocations !! projectId)) in
    let projectQuota := Add equalShare (Only heldByAZs organizationLimit) in
    _ ← saveProjectQuota organizationId projectId (toResources projectQuota) hasAZQuotas;
    mret tt) projectIds.

(** What [coverAZQuotas] adds to the quota of a project. *)
Definition missingOf (organizationLimit held : Quantities) (defined : Resources) : Quantities :=
  map_fold (λ name held (missing : Quantities),
    match defined !! name with
    | None => if decide (0 < held) then <[name:=held]> missing else missing
    | Some _ => missing
    end) ∅ (Only held organizationLimit).

(** [maps.Copy(dst, src)] *)
Definition maps_Copy {V} (dst src : gmap string V) : gmap string V :=
  map_fold (λ k v (dst : gmap string V), <[k:=v]> dst) dst src.

Definition coverAZQuotas organizationId (organizationLimit : Quantities)
    (projectQuotas : list (uuid * ProjectQuota)) (allocations : gmap uuid Quantities) : M C unit :=
  let definedQuotas := quotasByProject projectQuotas in
  for_each (λ projectId,
    let defined := default ∅ (definedQuotas !! projectId) in
    let missing := missingOf organizationLimit (default ∅ (allocations !! projectId)) defined in
    if decide (missing = ∅) then mret tt else
    let completed := maps_Copy (maps_Copy ∅ defined) (toResources missing) in
    _ ← upsertProjectQuota organizationId projectId completed;
    mret tt) (sorted_keys allocations).

Definition SetOrganizationQuota organizationId (resources : Resources) : M C OrganizationQuota :=
  organizationLimit ← lift (Parse resources);
  inOrganizationTransaction organizationId (
    '(projectQuotas, allocations) ← projectAllocations organizationId;
    _ ← lift (checkNotBelow organizationLimit (sumAllocations allocations) "its projects");
    _ ← (if decide (projectQuotas = [])
         then distributeAmongProjects organizationId organizationLimit allocations
         else coverAZQuotas organizationId organizationLimit projectQuotas allocations);
    upsertOrganizationQuota organizationId resources).

Definition SetProjectQuota organizationId projectId (resources : Resources) : M C ProjectQuota :=
  requested ← lift (Parse resources);
  inProjectTransaction organizationId projectId (
    hierarchy ← loadHierarchy organizationId projectId;
    _ ← lift (checkProjectCoversAZs hierarchy resources);
    _ ← checkProjectFitsInOrganization organizationId projectId requested
          (h_Organization hierarchy);
    let hasAZQuotas := bool_decide (h_AZs hierarchy ≠ ∅) in
    saveProjectQuota organizationId projectId resources hasAZQuotas).

Definition SetProjectAZQuota organizationId projectId (codeAZ : string) (resources : Resources) :
    M C ProjectAZQuota :=
  requested ← lift (Parse resources);
  match GetByCode AZs codeAZ organizationId with
  | Err _ => fail ErrAZNotFound
  | Ok _ =>
    inProjectTransaction organizationId projectId (
      hierarchy ← loadHierarchy organizationId projectId;
      _ ← lift (checkAZFitsInProject hierarchy codeAZ requested);
      let enforcedBefore := hierarchyAZ hierarchy codeAZ in
      let enforcedAfter :=
        EffectiveAZQuota (h_Organization hierarchy) (h_Project hierarchy) resources in
      lowered ← lift (loweredLimits enforcedBefore enforcedAfter);
      _ ← checkUsage organizationId projectId codeAZ lowered;
      saved ← upsertAZQuota projectId codeAZ resources;
      if decide (lowered = ∅) then mret saved else
      _ ← pushLowered organizationId projectId codeAZ enforcedAfter;
      mret saved)
  end.

(** An [UPDATE ... SET revision = nextval(...)]: every selected row takes a value. *)
Definition bumpRows {K V} `{Countable K} (selected : K → V → bool) (set_revision : Z → V → V)
    (rows : gmap K V) (s : Z) : gmap K V * Z :=
  map_fold (λ k row '(rows, s),
    if selected k row then (<[k:=set_revision (s + 1) row]> rows, s + 1) else (rows, s))
    (rows, s) rows.

Definition bumpOrganizationRevisions organizationId : M C unit :=
  _ ← exec (λ T s,
    let '(rows, s) := bumpRows
      (λ '(p, _) row, live_project T organizationId p && negb (aq_Deleted row))
      (λ rev row, mkProjectAZQuota (aq_Resources row) rev (aq_Deleted row))
      (project_az_quotas T) s in
    (tt, set_project_az_quotas (λ _, rows) T, s));
  exec (λ T s,
    let '(rows, s) := bumpRows
      (λ _ row, bool_decide (pq_OrganizationId row = organizationId) && negb (pq_Deleted row))
      (λ rev row, mkProjectQuota (pq_OrganizationId row) (pq_Resources row) rev (pq_Deleted row))
      (project_quotas T) s in
    (tt, set_project_quotas (λ _, rows) T, s)).

Definition DeleteOrganizationQuota organizationId : M C unit :=
  inOrganizationTransaction organizationId (
    _ ← exec (λ T s, (tt, set_organization_quotas (delete organizationId) T, s));
    bumpOrganizationRevisions organizationId).

Definition deleteProjectRows projectId : M C unit :=
  _ ← exec (λ T s, (tt, set_project_az_quotas (filter (λ '((p, _), _), p ≠ projectId)) T, s));
  exec (λ T s, (tt, set_project_quotas (delete projectId) T, s)).

Definition DeleteProjectQuota organizationId projectId : M C unit :=
  inProjectTransaction organizationId projectId (
    organizationQuota ← findOrganizationQuota organizationId;
    match organizationQuota with
    | Some _ => fail ErrProjectQuotaEnforced
    | None => deleteProjectRows projectId
    end).

Definition DeleteForProject organizationId projectId : M C unit :=
  _ ← lockOrganization organizationId;
  deleteProjectRows projectId.

(** The projects of an organization, soft-deleted ones included. *)
Definition project_of (T : Tables) organizationId projectId : bool :=
  match projects T !! projectId with
  | Some p => bool_decide (p_OrgaId p = organizationId)
  | None => false
  end.

Definition DeleteForOrganization organizationId : M C unit :=
  _ ← lockOrganization organizationId;
  _ ← exec (λ T s, (tt, set_project_az_quotas
    (filter (λ '((p, _), _), project_of T organizationId p = false)) T, s));
  _ ← exec (λ T s, (tt, set_project_quotas
    (filter (λ '(_, row), pq_OrganizationId row ≠ organizationId)) T, s));
  exec (λ T s, (tt, set_organization_quotas (delete organizationId) T, s)).
End writes.

(** * The lifecycle of projects and organizations

    [internal/db/crud/project/project.go] and [deactivation.go], and the deletion of an
    organization ([internal/db/crud/organization/organization.go]), which clean up after the
    quotas in the same transaction. *)

Section projects.
Context {QL : QuantityLib} {C : Type}.
Implicit Types (orgaId projectId : uuid).

(** Soft-deletes a row. *)
Definition soft_delete_project (p : Project) : Project := mkProject (p_OrgaId p) true.

(** [DeleteById] *)
Definition DeleteById projectId orgaId : M C unit :=
  transaction (
    _ ← on_error (DeleteForProject orgaId projectId) ErrOrganizationNotFound
          (fail ErrRecordNotFound);
    rowsAffected ← exec (λ T s,
      if live_project T orgaId projectId
      then (1, set_projects (alter soft_delete_project projectId) T, s) else (0, T, s));
    if decide (rowsAffected = 0) then fail ErrRecordNotFound else
    exec (λ T s, (tt, set_project_deactivations (filter (λ '((p, _), _), p ≠ projectId)) T, s))).

Definition FindByIdAndOrgaId projectId orgaId : M C Project :=
  take (λ T, p ← projects T !! projectId;
             if live_project T orgaId projectId then Some p else None).

(** The database generates the id of the row. *)
Definition CreateProject orgaId (newId : uuid) : M C uuid :=
  exec (λ T s, (newId, set_projects <[newId:=mkProject orgaId false]> T, s)).

Definition Deactivate projectId (reason message : string) : M C unit :=
  exec (λ T s, (tt, set_project_deactivations <[(projectId, reason):=message]> T, s)).

Definition Reactivate projectId (reason : string) : M C unit :=
  exec (λ T s, (tt, set_project_deactivations (delete (projectId, reason)) T, s)).

(** The deactivations of a live project, as (reason, message). *)
Definition deactivationsOf (T : Tables) orgaId projectId : list (string * string) :=
  if live_project T orgaId projectId then
    (λ '((_, reason), message), (reason, message)) <$>
      order_by pair_le (map_to_list (filter (λ '((p, _), _), p = projectId) (project_deactivations T)))
  else [].

Definition ListDeactivations orgaId projectId : M C (list (string * string)) :=
  query (λ T, deactivationsOf T orgaId projectId).

(** [group.DeleteAllByOrgaId] *)
Definition DeleteAllByOrgaId orgaId : M C unit :=
  exec (λ T s, (tt, set_groups (fmap (λ g : Group,
    if decide (g_OrgaId g = orgaId)
    then mkGroup (g_Name g) (g_OrgaId g) (g_AllProjects g) (g_ProjectIds g)
           (g_PermissionSets g) (g_PredefinedKey g) true
    else g)) T, s)).

(** The transaction of [organization.Delete]. *)
Definition deleteOrganizationRows orgaId : M C unit :=
  transaction (
    _ ← on_error (DeleteForOrganization orgaId) ErrOrganizationNotFound (mret tt);
    _ ← exec (λ T s, (tt, set_project_deactivations
      (filter (λ '((p, _), _), project_of T orgaId p = false)) T, s));
    _ ← exec (λ T s, (tt, set_projects (fmap (λ p : Project,
      if decide (p_OrgaId p = orgaId) then soft_delete_project p else p)) T, s));
    _ ← exec (λ T s, (tt, set_user_organizations
      (filter (λ '((_, o), _), o ≠ orgaId)) T, s));
    exec (λ T s, (tt, set_organizations
      (alter (λ o, mkOrganization (o_PredefinedCatalogVersion o) true) orgaId) T, s))).

(** [organization.Delete] *)
Definition DeleteOrganization orgaId : M C unit :=
  _ ← deleteOrganizationRows orgaId;
  DeleteAllByOrgaId orgaId.
End projects.
