(* ===== verification/QuotaSpec.v ===== *)
(** * What the hierarchical quotas promise, and what their reads compute

    The abstract specification of the capacity rules, as sums over the tables, and the theorems
    that the loops of [Hierarchical] compute these sums (capped at [MaxInt64]). *)

From S2P Require Import Prelude Errors Quantity QuotaResources Database AZConfig.
From S2P Require Import Hierarchical.

(** ** The levels, as the tables define them *)

(** The quota an organization or a project has; an empty quota limits nothing. *)
Definition organizationResources (T : Tables) (organizationId : uuid) : Resources :=
  default ∅ (oq_Resources <$> organizationQuotaRow T organizationId).

Definition projectResources (T : Tables) (projectId : uuid) : Resources :=
  default ∅ (pq_Resources <$> projectQuotaRow T projectId).

(** The live AZ quota rows of a project, by AZ. *)
Definition azRows (T : Tables) (projectId : uuid) : list (string * ProjectAZQuota) :=
  (λ '((_, codeAZ), row), (codeAZ, row)) <$> order_by pair_le (map_to_list (azQuotaRows T projectId)).

Definition projectAZs (T : Tables) (projectId : uuid) : gmap string Resources :=
  foldl (λ (AZs : gmap string Resources) '(codeAZ, row), <[codeAZ:=aq_Resources row]> AZs)
    ∅ (azRows T projectId).

Definition projectAZRevisions (T : Tables) (projectId : uuid) : gmap string Z :=
  foldl (λ (revs : gmap string Z) '(codeAZ, row), <[codeAZ:=aq_Revision row]> revs)
    ∅ (azRows T projectId).

Definition hierarchyOf (T : Tables) (organizationId projectId : uuid) : Hierarchy :=
  mkHierarchy (organizationResources T organizationId) (projectResources T projectId)
    (projectAZs T projectId)
    (default 0 (oq_Revision <$> organizationQuotaRow T organizationId))
    (default 0 (pq_Revision <$> projectQuotaRow T projectId))
    (projectAZRevisions T projectId).

(** The live projects of an organization. *)
Definition liveProjects (T : Tables) (organizationId : uuid) : gmap uuid Project :=
  filter (λ '(p, _), live_project T organizationId p = true) (projects T).

Section spec.
Context {QL : QuantityLib}.
Implicit Types (T : Tables) (organizationId projectId : uuid) (name : string).

(** What the AZ quotas of a project hold of a resource, exactly. *)
Definition azHeld T projectId name : Z :=
  sum_map (λ _ r, get (parsed r) name) (projectAZs T projectId).

(** What a project takes from its organization. *)
Definition projectAllocated T projectId name : Z :=
  Z.max (get (parsed (projectResources T projectId)) name) (azHeld T projectId name).

Definition organizationAllocated T organizationId name : Z :=
  sum_map (λ p _, projectAllocated T p name) (liveProjects T organizationId).

(** The AZ quotas of a project fit in its effective limit. *)
Definition project_fits T organizationId projectId : Prop :=
  ∀ name limit,
    parsed (projectLimit (organizationResources T organizationId)
              (projectResources T projectId)) !! name = Some limit →
    azHeld T projectId name ≤ limit.

(** The allocations of the live projects of an organization fit in its quota. *)
Definition organization_fits T organizationId : Prop :=
  ∀ name limit,
    parsed (organizationResources T organizationId) !! name = Some limit →
    organizationAllocated T organizationId name ≤ limit.

(** A stored quota parses, to quantities strictly below the limit of [int64]. *)
Definition valid_quota (r : Resources) : Prop := parses r ∧ storable (parsed r).

#[export] Instance valid_quota_decision r : Decision (valid_quota r).
Proof. unfold valid_quota. apply _. Defined.

(** The tables are well formed: the quotas are valid, the quota of a live project names its
    organization, and no AZ code is empty. *)
Record tables_wf T : Prop := {
  wf_organization o : valid_quota (organizationResources T o);
  wf_project p : valid_quota (projectResources T p);
  wf_az p c r : projectAZs T p !! c = Some r → valid_quota r ∧ c ≠ EmptyString;
  wf_project_org o p row : live_project T o p = true → projectQuotaRow T p = Some row →
    pq_OrganizationId row = o;
}.

(** The capacity invariant of the whole database. *)
Definition capacity T : Prop :=
  ∀ organizationId, organization_fits T organizationId ∧
    ∀ projectId, live_project T organizationId projectId = true →
      project_fits T organizationId projectId.
End spec.

(** ** The reads *)

Section reads.
Context {QL : QuantityLib} {C : Type}.
Implicit Types (organizationId projectId : uuid).

#[export] Instance reads_nilWhenNotFound {A} (f : Tables → option A) :
  Reads (C:=C) (nilWhenNotFound (take f)) (λ T, Ok (f T)).
Proof.
  unfold nilWhenNotFound. eapply reads_ext; [apply reads_on_error; [done | apply _ | apply _]|].
  intros T. simpl. by destruct (f T).
Qed.

#[export] Instance reads_findOrganizationQuota organizationId :
  Reads (C:=C) (findOrganizationQuota organizationId)
    (λ T, Ok (organizationQuotaRow T organizationId)).
Proof. apply reads_nilWhenNotFound. Qed.

#[export] Instance reads_findProjectQuota projectId :
  Reads (C:=C) (findProjectQuota projectId) (λ T, Ok (projectQuotaRow T projectId)).
Proof. apply reads_nilWhenNotFound. Qed.

#[export] Instance reads_listAZQuotas projectId :
  Reads (C:=C) (listAZQuotas projectId) (λ T, Ok (azRows T projectId)).
Proof. apply reads_query. Qed.

#[export] Instance reads_loadHierarchy organizationId projectId :
  Reads (C:=C) (loadHierarchy organizationId projectId)
    (λ T, Ok (hierarchyOf T organizationId projectId)).
Proof. unfold loadHierarchy. eapply reads_ext; [apply _|]. done. Qed.

#[export] Instance reads_lockOrganization organizationId :
  Reads (C:=C) (lockOrganization organizationId) (λ T,
    match organizationRow T organizationId with
    | Some _ => Ok tt | None => Err (ErrOrganizationNotFound : error) end).
Proof.
  unfold lockOrganization. eapply reads_ext; [apply reads_on_error; [done | apply _ | apply _]|].
  intros T. simpl. by destruct (organizationRow T organizationId).
Qed.

#[export] Instance reads_checkProject organizationId projectId :
  Reads (C:=C) (checkProject organizationId projectId) (λ T,
    if live_project T organizationId projectId then Ok tt
    else Err (ErrProjectNotFound : error)).
Proof.
  unfold checkProject. eapply reads_ext; [apply reads_on_error; [done | apply _ | apply _]|].
  intros T. simpl. by destruct (live_project T organizationId projectId).
Qed.

(** What [projectAllocations] computes from the tables. *)
Definition projectAllocationsOf T organizationId :
    result error (list (uuid * ProjectQuota) * gmap uuid Quantities) :=
  let projectQuotas := order_by String.le (map_to_list (projectQuotaRows T organizationId)) in
  allocations ← allocationsOf projectQuotas
    (order_by pair_le (map_to_list (organizationAZQuotaRows T organizationId)));
  Ok (projectQuotas, allocations).

#[export] Instance reads_projectAllocations organizationId :
  Reads (C:=C) (projectAllocations organizationId)
    (λ T, projectAllocationsOf T organizationId).
Proof. unfold projectAllocations. eapply reads_ext; [apply _|]. done. Qed.

#[export] Instance reads_listProjectIds organizationId :
  Reads (C:=C) (listProjectIds organizationId) (λ T, Ok (liveProjectIds T organizationId)).
Proof. apply reads_query. Qed.

(** What [checkProjectFitsInOrganization] answers. *)
Definition projectFitsOf T organizationId projectId (requested : Quantities)
    (organizationResources : Resources) : result error unit :=
  if decide (organizationResources = ∅) then Ok tt else
  organizationLimit ← Parse organizationResources;
  '(_, allocations) ← projectAllocationsOf T organizationId;
  checkCapacity requested (default ∅ (allocations !! projectId))
    (sumAllocations (delete projectId allocations)) organizationLimit ErrOrgQuotaExceeded.

#[export] Instance reads_checkProjectFitsInOrganization organizationId projectId requested r :
  Reads (C:=C) (checkProjectFitsInOrganization organizationId projectId requested r)
    (λ T, projectFitsOf T organizationId projectId requested r).
Proof.
  unfold checkProjectFitsInOrganization, projectFitsOf. case_decide; [apply _|].
  eapply reads_ext; [|done]. apply reads_bind; [apply _|]. intros a.
  apply reads_bind; [apply _|]. intros [rows allocations]. apply _.
Qed.
End reads.

(** ** The indexes *)
Section indexes.
Implicit Types (T : Tables) (p : uuid) (c : string).

Lemma order_by_Permutation {K V} (R : relation K) `{!RelDecision R} (l : list (K * V)) :
  order_by R l ≡ₚ l.
Proof. apply merge_sort_Permutation. Qed.

Lemma lookup_azQuotaRows T p k row :
  azQuotaRows T p !! k = Some row ↔
  project_az_quotas T !! k = Some row ∧ k.1 = p ∧ aq_Deleted row = false.
Proof. unfold azQuotaRows. destruct k as [p' c]. rewrite map_lookup_filter_Some. done. Qed.

Lemma elem_of_azRows T p c row :
  (c, row) ∈ azRows T p ↔
  project_az_quotas T !! (p, c) = Some row ∧ aq_Deleted row = false.
Proof.
  unfold azRows. rewrite list_elem_of_fmap. setoid_rewrite order_by_Permutation. split.
  - intros ([[p' c'] row'] & [= -> ->] & Hin%elem_of_map_to_list).
    apply lookup_azQuotaRows in Hin as (? & ? & ?). simpl in *. by subst.
  - intros [??]. exists ((p, c), row). split; [done|].
    by apply elem_of_map_to_list, lookup_azQuotaRows.
Qed.

Lemma azRows_NoDup T p : NoDup (azRows T p).*1.
Proof.
  unfold azRows. rewrite order_by_Permutation, <-list_fmap_compose.
  rewrite (list_fmap_ext _ (snd ∘ fst)) by (by intros ? [[??]?]).
  rewrite list_fmap_compose. apply NoDup_fmap_2_strong; [|apply NoDup_fst_map_to_list].
  intros [p1 c1] [p2 c2] (kv1 & -> & H1%elem_of_map_to_list')%list_elem_of_fmap
    (kv2 & -> & H2%elem_of_map_to_list')%list_elem_of_fmap Heq.
  apply lookup_azQuotaRows in H1 as (_ & ? & _), H2 as (_ & ? & _).
  destruct kv1 as [[??]?], kv2 as [[??]?]; simpl in *. by subst.
Qed.

Lemma lookup_azRows_fold {W} (f : ProjectAZQuota → W) T p c :
  foldl (λ (m : gmap string W) '(c, row), <[c:=f row]> m) ∅ (azRows T p) !! c =
  (row ← project_az_quotas T !! (p, c); if aq_Deleted row then None else Some (f row)).
Proof.
  destruct (project_az_quotas T !! (p, c)) as [row|] eqn:Hrow; simpl.
  - destruct (aq_Deleted row) eqn:Hdel.
    + rewrite foldl_insert_notin; [done|].
      intros ([c' row'] & -> & [??]%elem_of_azRows)%list_elem_of_fmap. simpl in *. congruence.
    + rewrite (foldl_insert_in _ _ _ _ row); [done | apply azRows_NoDup |].
      by apply elem_of_azRows.
  - rewrite foldl_insert_notin; [done|].
    intros ([c' row'] & -> & [??]%elem_of_azRows)%list_elem_of_fmap. simpl in *. congruence.
Qed.

Lemma lookup_projectAZs T p c :
  projectAZs T p !! c =
  (row ← project_az_quotas T !! (p, c);
   if aq_Deleted row then None else Some (aq_Resources row)).
Proof. apply lookup_azRows_fold. Qed.

Lemma lookup_projectAZRevisions T p c :
  projectAZRevisions T p !! c =
  (row ← project_az_quotas T !! (p, c);
   if aq_Deleted row then None else Some (aq_Revision row)).
Proof. apply lookup_azRows_fold. Qed.

Lemma lookup_liveProjects T o p :
  is_Some (liveProjects T o !! p) ↔ live_project T o p = true.
Proof.
  unfold liveProjects. split.
  - intros [x [_ ?]%map_lookup_filter_Some]. done.
  - intros Hlive. unfold live_project in Hlive.
    destruct (projects T !! p) as [x|] eqn:Hp; [|done]. exists x.
    apply map_lookup_filter_Some. split; [done|]. unfold live_project. by rewrite Hp.
Qed.

Lemma elem_of_liveProjectIds T o p :
  p ∈ liveProjectIds T o ↔ live_project T o p = true.
Proof. unfold liveProjectIds. rewrite elem_of_sorted_keys. apply lookup_liveProjects. Qed.

Lemma lookup_projectQuotaRows T o p row :
  projectQuotaRows T o !! p = Some row ↔
  projectQuotaRow T p = Some row ∧ pq_OrganizationId row = o ∧ live_project T o p = true.
Proof.
  unfold projectQuotaRows, projectQuotaRow. rewrite map_lookup_filter_Some.
  destruct (project_quotas T !! p) as [r|]; simpl; [|naive_solver].
  destruct (pq_Deleted r) eqn:?; naive_solver congruence.
Qed.
End indexes.
