(* ===== verification/QuotaRules.v ===== *)
(** * The rules of the hierarchical quotas, as arithmetic

    The loops of [Hierarchical] that sum, limit and compare quotas, shown to compute the sums of
    [QuotaSpec] capped at [MaxInt64], and the rules [checkCapacity] and [checkNotBelow], shown to
    decide the inequalities they are named after. *)

From S2P Require Import Prelude Quantity Errors QuotaResources Database AZConfig Hierarchical QuotaSpec.

(** A capped sum compares with a limit below the cap as the sum itself. *)
Lemma capped_le x l : l < MaxInt64 → Z.min MaxInt64 x ≤ l ↔ x ≤ l.
Proof. lia. Qed.

(** ** Effective limits *)
Section effective.
Context {QL : QuantityLib} {QLaws : QuantityLaws QL}.
Implicit Types (r own parent : Resources) (n : string).

Lemma parseEntry_zero n : is_Some (translations !! n) → parseEntry n "0" = Ok 0.
Proof.
  intros [ks Hks]. unfold parseEntry, validateName. rewrite Hks. simpl.
  assert (int64 MaxInt64 ∧ int64 0) as [? ?] by (unfold int64, MinInt64, MaxInt64; lia).
  unfold parseQuantity.
  destruct (ParseQuantity_decimal 0) as (q & Hq & Hn); [unfold MaxInt64; lia|].
  change (pretty 0) with "0" in Hq. rewrite Hq, Sign_spec, Cmp_spec, Hn.
  repeat case_decide; rewrite ?NewMilliQuantity_spec, ?NewQuantity_spec, ?MilliValue_spec,
    ?Value_spec, ?Hn in * by (rewrite ?Hn; done || (unfold MaxInt64; lia));
    try reflexivity; unfold MaxInt64 in *; lia.
Qed.

Lemma parses_name r n : parses r → is_Some (r !! n) → is_Some (translations !! n).
Proof.
  intros Hr [s Hs]. apply parses_iff in Hr. specialize (Hr n s Hs).
  unfold parseEntry, validateName in Hr. by destruct (translations !! n).
Qed.

Definition effective_lookup (own : Quantities) (ancestors : list Resources) n : option Z :=
  match own !! n with
  | Some v => Some v
  | None => if decide (Exists (λ parent : Resources, is_Some (parent !! n)) ancestors)
            then Some 0 else None
  end.

(** The effective quota of valid quotas is valid: the own quantities, 0 for what only an
    ancestor limits. *)
Lemma Parse_Effective own ancestors :
  parses own → Forall parses ancestors →
  ∃ q, Parse (Effective own ancestors) = Ok q ∧
    ∀ n, q !! n = effective_lookup (parsed own) ancestors n.
Proof.
  intros Hown Hanc.
  assert (parses (Effective own ancestors)) as Hp.
  { apply parses_iff. intros n s. rewrite lookup_Effective. destruct (own !! n) eqn:Hn.
    - intros [= ->]. apply parses_iff in Hown. by eapply Hown.
    - case_decide as Hex; [|done]. intros [= <-].
      apply Exists_exists in Hex as (parent & Hin & Hsome).
      rewrite parseEntry_zero; [done|]. rewrite Forall_forall in Hanc. by eapply parses_name, Hsome; auto. }
  exists (parsed (Effective own ancestors)). split; [by apply parses_Ok|]. intros n.
  pose proof (Parse_Ok_lookup _ _ n (parses_Ok _ Hp)) as Hl. rewrite lookup_Effective in Hl.
  pose proof (Parse_Ok_lookup _ _ n (parses_Ok _ Hown)) as Ho. unfold effective_lookup.
  destruct (own !! n) as [s|] eqn:Hn.
  - destruct Hl as (v & Hv & ->), Ho as (v' & Hv' & ->). congruence.
  - rewrite Ho. case_decide as Hex; [|done]. destruct Hl as (v & Hv & ->).
    apply Exists_exists in Hex as (parent & Hin & Hsome).
    rewrite parseEntry_zero in Hv; [congruence|].
    rewrite Forall_forall in Hanc. by eapply parses_name, Hsome; auto.
Qed.

(** The effective limit of a project. *)
Lemma Parse_projectLimit org project :
  parses org → parses project →
  Parse (projectLimit org project) = Ok (WithZeros (parsed project) (parsed org)).
Proof.
  intros Horg Hproj.
  destruct (Parse_Effective project [org]) as (q & Hq & Hl); [done|by constructor|].
  unfold projectLimit. rewrite Hq. f_equal. apply map_eq. intros n.
  rewrite Hl, lookup_WithZeros. unfold effective_lookup.
  destruct (parsed project !! n); [done|].
  pose proof (parsed_is_Some org n Horg) as Ho.
  assert (Exists (λ parent : Resources, is_Some (parent !! n)) [org] ↔
    is_Some (parsed org !! n)) as Hex by (rewrite Exists_cons, Exists_nil; tauto).
  destruct (parsed org !! n); simpl; case_decide as Hd; rewrite Hex in Hd; try done;
    by destruct Hd.
Qed.
End effective.

(** ** Sums *)
Section sums.
Context {QL : QuantityLib} {QLaws : QuantityLaws QL}.
Implicit Types (q total : Quantities) (n : string).

(** What a loop that adds quotas up computes. *)
Lemma foldr_Add {A} (f : A → Quantities) (l : list A) total n :
  in_range total → (∀ a, a ∈ l → in_range (f a)) →
  in_range (foldr (λ a total, Add total (f a)) total l) ∧
  get (foldr (λ a total, Add total (f a)) total l) n =
    Z.min MaxInt64 (get total n + zsum ((λ a, get (f a) n) <$> l)).
Proof.
  intros Ht. induction l as [|a l IH]; intros Hl; csimpl.
  { pose proof (in_range_get total n Ht). split; [done | lia]. }
  destruct IH as [IHr IHg]; [set_solver|].
  assert (in_range (f a)) as Ha by set_solver.
  split; [by apply in_range_Add|]. rewrite get_Add, IHg by done.
  pose proof (in_range_get (f a) n Ha).
  lia.
Qed.

Lemma sumAllocations_spec (m : gmap uuid Quantities) n :
  map_Forall (λ _ q, in_range q) m →
  in_range (sumAllocations m) ∧
  get (sumAllocations m) n = Z.min MaxInt64 (sum_map (λ _ q, get q n) m).
Proof.
  intros Hm. unfold sumAllocations. rewrite map_fold_foldr.
  assert (∀ l, foldr (uncurry (λ _ allocation total, Add total allocation)) ∅ l =
    foldr (λ (kv : uuid * Quantities) total, Add total kv.2) ∅ l) as ->.
  { induction l as [|[] l IH]; simpl; [done|]. by f_equal. }
  apply (foldr_Add (λ kv : uuid * Quantities, kv.2)); [apply in_range_empty|].
  intros [k q] Hin%elem_of_map_to_list. by eapply Hm.
Qed.

Lemma sumAZQuotas_spec (m : gmap string Resources) excluded n :
  map_Forall (λ _ r, parses r) m →
  ∃ total, sumAZQuotas m excluded = Ok total ∧ in_range total ∧
    get total n = Z.min MaxInt64
      (sum_map (λ c r, if decide (c = excluded) then 0 else get (parsed r) n) m).
Proof.
  intros Hm. set (f := λ kv : string * Resources,
    if decide (kv.1 = excluded) then ∅ else parsed kv.2).
  assert (∀ l total, (∀ c r, (c, r) ∈ l → parses r) →
    ∃ total', foldM (λ total '(codeAZ, resources),
      if decide (codeAZ = excluded) then Ok total else
      parsed ← Parse resources; Ok (Add total parsed)) total l = Ok total' ∧
    (in_range total → in_range total' ∧
     get total' n = Z.min MaxInt64 (get total n + zsum ((λ kv, get (f kv) n) <$> l))))
    as Hfold.
  { induction l as [|[c r] l IH]; intros total Hl; csimpl.
    - exists total. split; [done|]. intros Ht. pose proof (in_range_get total n Ht).
      split; [done | lia].
    - assert (0 ≤ zsum ((λ kv, get (f kv) n) <$> l)).
      { apply zsum_nonneg, Forall_fmap, Forall_forall. intros x Hx. simpl. unfold f.
        case_decide; [done|]. apply get_parsed_nonneg. }
      assert (∀ c' r', (c', r') ∈ l → parses r') as Hl'.
      { intros c' r' ?. apply (Hl c'). by right. }
      pose proof (get_parsed_nonneg r n).
      assert (get (f (c, r)) n = if decide (c = excluded) then 0 else get (parsed r) n) as ->
        by (unfold f; simpl; by case_decide).
      case_decide.
      + simpl. destruct (IH total Hl') as (total' & -> & Hr). exists total'. split; [done|].
        intros Ht. destruct (Hr Ht) as [? ->]. split; [done|]. lia.
      + rewrite (parses_Ok r) by (apply (Hl c); left). simpl.
        destruct (IH (Add total (parsed r)) Hl') as (total' & -> & Hr).
        exists total'. split; [done|]. intros Ht.
        destruct Hr as [? ->]; [apply in_range_Add; auto with spx|]. split; [done|].
        rewrite get_Add by auto with spx. lia. }
  destruct (Hfold (map_to_list m) ∅) as (total & Htot & Hspec).
  { intros c r Hin%elem_of_map_to_list. by eapply Hm. }
  exists total. split; [done|]. destruct Hspec as [? ->]; [apply in_range_empty|].
  split; [done|]. unfold sum_map. f_equal. change (get ∅ n) with 0.
  rewrite Z.add_0_l. apply zsum_fmap_ext. intros [c r] _. unfold f. simpl. by case_decide.
Qed.
End sums.

(** ** The rules *)
Section rules_spec.
Context {QL : QuantityLib}.
Implicit Types (requested current others limit allocated : Quantities) (n : string).

Lemma checkNotBelow_Ok limit allocated children :
  checkNotBelow limit allocated children = Ok tt ↔
  ∀ n l, limit !! n = Some l → get allocated n ≤ l.
Proof.
  unfold checkNotBelow. rewrite <-Exceeds_None. destruct (Exceeds allocated limit); naive_solver.
Qed.

Lemma checkNotBelow_Err limit allocated children e :
  checkNotBelow limit allocated children = Err e → err_is e = ErrBelowAllocated.
Proof. unfold checkNotBelow. case_match; [by intros [= <-] | done]. Qed.

(** The two maps [checkCapacity] builds: the increased names, with the requested values and
    with the limits. *)
Lemma increased_lookup requested current limit n :
  let '(increased, limitOfIncreased) :=
    map_fold (λ name requestedValue '(increased, limitOfIncreased),
      match limit !! name with
      | Some limitValue =>
        if decide (get current name < requestedValue)
        then (<[name:=requestedValue]> increased, <[name:=limitValue]> limitOfIncreased)
        else (increased, limitOfIncreased)
      | None => (increased, limitOfIncreased)
      end) (∅ : Quantities, ∅ : Quantities) requested in
  (increased !! n, limitOfIncreased !! n) =
    match requested !! n, limit !! n with
    | Some v, Some l => if decide (get current n < v) then (Some v, Some l) else (None, None)
    | _, _ => (None, None)
    end.
Proof.
  apply (map_fold_weak_ind (λ res requested, let '(increased, limitOfIncreased) := res in
    (increased !! n, limitOfIncreased !! n) =
    match requested !! n, limit !! n with
    | Some v, Some l => if decide (get current n < v) then (Some v, Some l) else (None, None)
    | _, _ => (None, None)
    end)); [by rewrite !lookup_empty|].
  intros k v m [inc lim] Hk IH.
  destruct (decide (k = n)) as [->|Hne].
  - rewrite lookup_insert_eq. rewrite Hk in IH. simplify_eq.
    destruct (limit !! n); [|congruence]. case_decide; simplify_map_eq; congruence.
  - rewrite lookup_insert_ne by done.
    destruct (limit !! k); [|done]. case_decide; [|done].
    rewrite !lookup_insert_ne by done. done.
Qed.

(** [checkCapacity] accepts exactly when every limited name it raises fits. *)
Lemma checkCapacity_Ok requested current others limit err :
  in_range requested → in_range others →
  checkCapacity requested current others limit err = Ok tt ↔
  ∀ n l v, limit !! n = Some l → requested !! n = Some v → get current n < v →
    Z.min MaxInt64 (get others n + v) ≤ l.
Proof.
  intros Hreq Hoth. unfold checkCapacity.
  pose proof (increased_lookup requested current limit) as Hinc.
  destruct (map_fold _ _ requested) as [inc lim].
  assert (in_range inc) as Hr.
  { intros n v Hn. specialize (Hinc n). rewrite Hn in Hinc.
    destruct (requested !! n) as [v'|] eqn:Hv; [|done].
    destruct (limit !! n); [|done]. case_decide; simplify_eq. by apply Hreq in Hv. }
  transitivity (Exceeds (Add others inc) lim = None); [by destruct (Exceeds _ _)|].
  rewrite Exceeds_None. split; intros Hall n.
  - intros l v Hl Hv Hlt. specialize (Hinc n). rewrite Hv, Hl, decide_True in Hinc by done.
    injection Hinc as Hi Hlim. specialize (Hall n l Hlim).
    rewrite get_Add in Hall by done. unfold get at 2 in Hall. by rewrite Hi in Hall.
  - intros l Hlim. specialize (Hinc n). rewrite Hlim in Hinc.
    destruct (requested !! n) as [v|] eqn:Hv; [|done].
    destruct (limit !! n) as [l'|] eqn:Hl; [|done]. case_decide; [|done].
    injection Hinc as Hi <-. rewrite get_Add by done. unfold get at 2. rewrite Hi. by apply Hall.
Qed.

Lemma checkCapacity_Err requested current others limit err e :
  checkCapacity requested current others limit err = Err e → err_is e = err_is err.
Proof. unfold checkCapacity. repeat case_match; by intros [= <-]. Qed.

Lemma checkCapacity_is_Ok requested current others limit err :
  is_Ok (checkCapacity requested current others limit err) = true ↔
  checkCapacity requested current others limit err = Ok tt.
Proof. by destruct (checkCapacity _ _ _ _ _) as [[]|]. Qed.
End rules_spec.

(** * What the children of an organization are allocated

    [projectAllocations] reads the project and AZ quotas of the live projects and computes, for
    each of them, the maximum of its quota and of the sum of its AZ quotas: exactly
    [QuotaSpec.projectAllocated], capped at [MaxInt64]. *)

(** A loop that parses each row and stores the result under a key of its own. *)
Lemma foldM_insert {E K V W} `{Countable K} (f : V → result E W) (g : V → W) (l : list (K * V)) b :
  (∀ k v, (k, v) ∈ l → f v = Ok (g v)) →
  foldM (λ (m : gmap K W) '(k, v), x ← f v; Ok (<[k:=x]> m)) b l =
  Ok (foldl (λ m '(k, v), <[k:=g v]> m) b l).
Proof.
  revert b. induction l as [|[k v] l IH]; intros b Hl; [done|]. cbn [foldM foldl].
  rewrite (Hl k v) by left. simpl. apply IH. intros k' v' ?. apply (Hl k'). by right.
Qed.

Section allocations.
Context {QL : QuantityLib} {QLaws : QuantityLaws QL}.
Implicit Types (T : Tables) (o p : uuid) (n : string).

(** ** The AZ quotas held by each project *)

(** The contribution of one AZ quota row to a project. *)
Definition heldBy p n (kv : (uuid * string) * ProjectAZQuota) : Z :=
  if decide (kv.1.1 = p) then get (parsed (aq_Resources kv.2)) n else 0.

Lemma heldBy_nonneg p n kv : 0 ≤ heldBy p n kv.
Proof. unfold heldBy. case_decide; [apply get_parsed_nonneg | done]. Qed.

Definition heldStep (held : gmap uuid Quantities) (kv : (uuid * string) * ProjectAZQuota) :
    result error (gmap uuid Quantities) :=
  let '((p, _), row) := kv in
  parsed ← Parse (aq_Resources row); Ok (<[p:=Add (default ∅ (held !! p)) parsed]> held).

(** The loop over the AZ quota rows. *)
Lemma held_fold (l : list ((uuid * string) * ProjectAZQuota)) acc :
  (∀ kv, kv ∈ l → parses (aq_Resources kv.2)) → map_Forall (λ _ q, in_range q) acc →
  ∃ held, foldM heldStep acc l = Ok held ∧ map_Forall (λ _ q, in_range q) held ∧
    (∀ p, is_Some (held !! p) ↔ is_Some (acc !! p) ∨ ∃ c row, ((p, c), row) ∈ l) ∧
    ∀ p n, get (default ∅ (held !! p)) n =
      Z.min MaxInt64 (get (default ∅ (acc !! p)) n + zsum (heldBy p n <$> l)).
Proof.
  revert acc. induction l as [|[[p1 c] row] l IH]; intros acc Hl Hacc; csimpl.
  { exists acc. split_and!; [done|done|set_solver|]. intros p n.
    assert (in_range (default ∅ (acc !! p))) as Hr.
    { destruct (acc !! p) eqn:Hp; simpl; [by eapply Hacc|apply in_range_empty]. }
    pose proof (in_range_get _ n Hr). lia. }
  rewrite (parses_Ok (aq_Resources row)) by (apply (Hl ((p1, c), row)); left). simpl.
  assert (∀ p, in_range (default ∅ (acc !! p))) as Hdef.
  { intros p. destruct (acc !! p) eqn:Hp; simpl; [by eapply Hacc|apply in_range_empty]. }
  destruct (IH (<[p1:=Add (default ∅ (acc !! p1)) (parsed (aq_Resources row))]> acc))
    as (held & Hh & Hr & Hs & Hg).
  { set_solver. }
  { apply map_Forall_insert_2; [|done]. auto with spx. }
  exists held. split_and!; [done|done| |].
  - intros p. rewrite Hs. destruct (decide (p1 = p)) as [->|Hne].
    + rewrite lookup_insert_eq. split; [|by eauto]. intros _. right. exists c, row. left.
    + rewrite lookup_insert_ne by done. set_solver.
  - intros p n. rewrite Hg.
    assert (0 ≤ zsum (heldBy p n <$> l)).
    { apply zsum_nonneg, Forall_fmap, Forall_true. intros ?. apply heldBy_nonneg. }
    unfold heldBy at 2. simpl. case_decide as Hp.
    + subst. rewrite lookup_insert_eq. simpl.
      rewrite get_Add by auto with spx. pose proof (get_parsed_nonneg (aq_Resources row) n). lia.
    + rewrite lookup_insert_ne by done. lia.
Qed.

(** ** The sums over the rows, and the sums of the specification *)

Lemma projectAZs_Permutation T p :
  map_to_list (projectAZs T p) ≡ₚ prod_map id aq_Resources <$> azRows T p.
Proof.
  apply NoDup_Permutation.
  - apply NoDup_map_to_list.
  - apply (NoDup_fmap_1 fst). rewrite <-list_fmap_compose.
    rewrite (list_fmap_ext _ fst) by (by intros ? []). apply azRows_NoDup.
  - intros [c r]. rewrite elem_of_map_to_list, lookup_projectAZs, list_elem_of_fmap. split.
    + destruct (project_az_quotas T !! (p, c)) as [row|] eqn:Hrow; simpl; [|done].
      destruct (aq_Deleted row) eqn:?; [done|]. intros [= <-].
      exists (c, row). split; [done|]. by apply elem_of_azRows.
    + intros ([c' row] & [= -> ->] & [-> Hd]%elem_of_azRows). simpl. by rewrite Hd.
Qed.

(** What the AZ quotas of a live project hold, as a sum over the rows of the organization. *)
Lemma azHeld_rows T o p n :
  live_project T o p = true →
  azHeld T p n =
    zsum (heldBy p n <$> order_by pair_le (map_to_list (organizationAZQuotaRows T o))).
Proof.
  intros Hlive. rewrite order_by_Permutation. unfold azHeld.
  rewrite (sum_map_permutation _ _ _ (symmetry (projectAZs_Permutation T p))).
  unfold azRows. rewrite order_by_Permutation, <-!list_fmap_compose.
  set (f := λ (k : uuid * string) (row : ProjectAZQuota), get (parsed (aq_Resources row)) n).
  transitivity (sum_map f (azQuotaRows T p)).
  { unfold sum_map. apply zsum_fmap_ext. by intros [[??]?] _. }
  rewrite (sum_map_extend f _ (organizationAZQuotaRows T o)).
  - unfold sum_map. apply zsum_fmap_ext. intros [[p' c] row] Hin%elem_of_map_to_list.
    apply map_lookup_filter_Some in Hin as (Hrow & Hl & Hd). unfold heldBy. simpl.
    case_decide as Hp.
    + subst. assert (azQuotaRows T p !! (p, c) = Some row) as -> by by apply lookup_azQuotaRows.
      done.
    + destruct (azQuotaRows T p !! (p', c)) eqn:Hr; [|done].
      by apply lookup_azQuotaRows in Hr as (? & ? & ?).
  - intros [p' c] [row (Hrow & Hp & Hd)%lookup_azQuotaRows]. simpl in Hp. subst.
    exists row. apply map_lookup_filter_Some. done.
Qed.

(** ** The allocations *)

(** A project is allocated something when it has a quota or AZ quotas. *)
Definition has_quotas T p : Prop :=
  is_Some (projectQuotaRow T p) ∨ ∃ c, is_Some (projectAZs T p !! c).

Definition heldByAZsOf T o : result error (gmap uuid Quantities) :=
  foldM heldStep ∅ (order_by pair_le (map_to_list (organizationAZQuotaRows T o))).

Lemma heldByAZsOf_spec T o :
  tables_wf T →
  ∃ held, heldByAZsOf T o = Ok held ∧ map_Forall (λ _ q, in_range q) held ∧
    (∀ p, is_Some (held !! p) ↔ live_project T o p = true ∧ ∃ c, is_Some (projectAZs T p !! c)) ∧
    ∀ p n, live_project T o p = true →
      get (default ∅ (held !! p)) n = Z.min MaxInt64 (azHeld T p n).
Proof.
  intros Hwf. unfold heldByAZsOf.
  assert (∀ p c row, ((p, c), row) ∈ order_by pair_le (map_to_list (organizationAZQuotaRows T o)) ↔
    project_az_quotas T !! (p, c) = Some row ∧ live_project T o p = true ∧
    aq_Deleted row = false) as Hin.
  { intros p c row. rewrite order_by_Permutation, elem_of_map_to_list.
    unfold organizationAZQuotaRows. by rewrite map_lookup_filter_Some. }
  destruct (held_fold (order_by pair_le (map_to_list (organizationAZQuotaRows T o))) ∅)
    as (held & Hh & Hr & Hs & Hg).
  { intros [[p c] row] (Hrow & _ & Hd)%Hin. eapply (wf_az T Hwf p c).
    rewrite lookup_projectAZs, Hrow. simpl. by rewrite Hd. }
  { apply map_Forall_empty. }
  exists held. split_and!; [done|done| |].
  - intros p. rewrite Hs, lookup_empty. setoid_rewrite lookup_projectAZs. split.
    + intros [[? [=]]|(c & row & (Hrow & Hl & Hd)%Hin)]. split; [done|]. exists c.
      rewrite Hrow. simpl. rewrite Hd. by eexists.
    + intros [Hl [c Hc]]. right. exists c.
      destruct (project_az_quotas T !! (p, c)) as [row|] eqn:Hrow; simpl in Hc; [|by destruct Hc].
      destruct (aq_Deleted row) eqn:Hd; [by destruct Hc|]. exists row. by apply Hin.
  - intros p n Hl. rewrite Hg, lookup_empty, (azHeld_rows T o) by done. done.
Qed.

Lemma quotas_fold_lookup T o p :
  foldl (λ (m : gmap uuid Quantities) '(p, row), <[p:=parsed (pq_Resources row)]> m) ∅
    (order_by String.le (map_to_list (projectQuotaRows T o))) !! p =
  (λ row, parsed (pq_Resources row)) <$> projectQuotaRows T o !! p.
Proof.
  pose proof (order_by_Permutation String.le (map_to_list (projectQuotaRows T o))) as Hperm.
  destruct (projectQuotaRows T o !! p) as [row|] eqn:Hrow; simpl.
  - apply (foldl_insert_in (λ row, parsed (pq_Resources row))).
    + rewrite Hperm. apply NoDup_fst_map_to_list.
    + rewrite Hperm. by apply elem_of_map_to_list.
  - apply (foldl_insert_notin (λ row, parsed (pq_Resources row))).
    rewrite Hperm. intros ([p' row] & -> & Hl%elem_of_map_to_list)%list_elem_of_fmap. naive_solver.
Qed.

(** On well-formed tables, [projectAllocations] succeeds, lists exactly the live projects that
    hold something, and computes their allocation, capped at [MaxInt64]. *)
Lemma projectAllocationsOf_spec T o :
  tables_wf T →
  ∃ allocations,
    projectAllocationsOf T o =
      Ok (order_by String.le (map_to_list (projectQuotaRows T o)), allocations) ∧
    map_Forall (λ _ q, in_range q) allocations ∧
    (∀ p, is_Some (allocations !! p) ↔ live_project T o p = true ∧ has_quotas T p) ∧
    ∀ p n, live_project T o p = true →
      get (default ∅ (allocations !! p)) n = Z.min MaxInt64 (projectAllocated T p n).
Proof.
  intros Hwf. unfold projectAllocationsOf, allocationsOf.
  assert (∀ p row, (p, row) ∈ order_by String.le (map_to_list (projectQuotaRows T o)) →
    Parse (pq_Resources row) = Ok (parsed (pq_Resources row))) as Hparse.
  { intros p row. rewrite order_by_Permutation, elem_of_map_to_list.
    intros (Hrow & _ & _)%lookup_projectQuotaRows. apply parses_Ok.
    pose proof (wf_project T Hwf p) as [Hp _]. unfold projectResources in Hp. by rewrite Hrow in Hp. }
  rewrite (foldM_insert (λ row, Parse (pq_Resources row)) (λ row, parsed (pq_Resources row)))
    by done. simpl.
  destruct (heldByAZsOf_spec T o Hwf) as (held & Hh & Hr & Hs & Hg).
  unfold heldByAZsOf, heldStep in Hh. rewrite Hh. simpl. eexists. split; [done|].
  assert (∀ p, live_project T o p = true →
    projectQuotaRows T o !! p = projectQuotaRow T p) as Hrows.
  { intros p Hl. apply option_eq. intros row. rewrite lookup_projectQuotaRows.
    split; [naive_solver|]. intros Hrow. split_and!; [done| by eapply wf_project_org |done]. }
  set (base := foldl _ ∅ _).
  assert (∀ p, map_fold (λ projectId held (allocations : gmap uuid Quantities),
    <[projectId:=Max (default ∅ (allocations !! projectId)) held]> allocations) base held !! p =
    match held !! p with Some h => Some (Max (default ∅ (base !! p)) h) | None => base !! p end)
    as Hlook.
  { intros p. rewrite (lookup_range _ (λ _ h b, Some (Max (default ∅ b) h))) by solve_range.
    done. }
  assert (∀ p, in_range (default ∅ (base !! p))) as Hbase.
  { intros p. unfold base. rewrite quotas_fold_lookup.
    destruct (projectQuotaRows T o !! p); simpl; auto with spx. }
  split_and!.
  - intros p q. rewrite Hlook. destruct (held !! p) as [h|] eqn:Hp.
    + intros [= <-]. apply in_range_Max; [done|]. by eapply Hr.
    + intros Hb. specialize (Hbase p). by rewrite Hb in Hbase.
  - intros p. rewrite Hlook. destruct (held !! p) as [h|] eqn:Hp.
    + destruct (proj1 (Hs p) (mk_is_Some _ _ Hp)) as [??]. unfold has_quotas. naive_solver.
    + unfold base. rewrite quotas_fold_lookup, fmap_is_Some. unfold has_quotas. split.
      * intros [row (Hrow & _ & Hl)%lookup_projectQuotaRows]. split; [done|]. left. eauto.
      * intros [Hl [Hq|Haz]]; [by rewrite Hrows|].
        assert (is_Some (held !! p)) as [? ?] by by apply Hs. congruence.
  - intros p n Hl. specialize (Hg p n Hl). specialize (Hbase p). rewrite Hlook.
    unfold projectAllocated, projectResources.
    assert (get (default ∅ (base !! p)) n =
      get (parsed (default ∅ (pq_Resources <$> projectQuotaRow T p))) n) as Hb.
    { unfold base. rewrite quotas_fold_lookup, Hrows by done.
      by destruct (projectQuotaRow T p). }
    pose proof (in_range_get _ n Hbase). rewrite Hb in *.
    destruct (held !! p) as [h|] eqn:Hp; simpl in *.
    + rewrite get_Max; [rewrite Hb; lia | done | by eapply Hr].
    + rewrite Hb. change (get ∅ n) with 0 in Hg. unfold MaxInt64 in *. lia.
Qed.

(** The sum of the allocations of a set of projects. *)
Lemma sumAllocations_over {V} (live : gmap uuid V) allocations (f : uuid → Z) n :
  map_Forall (λ _ q, in_range q) allocations →
  (∀ p, is_Some (allocations !! p) → is_Some (live !! p)) →
  (∀ p, is_Some (live !! p) → 0 ≤ f p ∧
    get (default ∅ (allocations !! p)) n = Z.min MaxInt64 (f p)) →
  in_range (sumAllocations allocations) ∧
  get (sumAllocations allocations) n = Z.min MaxInt64 (sum_map (λ p _, f p) live).
Proof.
  intros Hr Hs Hg. destruct (sumAllocations_spec allocations n Hr) as [Hin ->].
  split; [done|]. rewrite (sum_map_extend _ _ live) by done.
  unfold sum_map. rewrite <-(zsum_capped MaxInt64 (λ kv : uuid * V, f kv.1)).
  - f_equal. apply zsum_fmap_ext. intros [p v] Hp%elem_of_map_to_list. simpl.
    destruct (Hg p) as [_ Hgp]; [eauto|]. rewrite <-Hgp.
    by destruct (allocations !! p).
  - done.
  - intros [p v] Hp%elem_of_map_to_list. simpl. apply Hg. eauto.
Qed.
End allocations.

(** * The checks of the writes, as inequalities on the allocations

    On well-formed tables, each check a quota write runs decides an inequality between exact sums:
    the caps of [saturatingAdd] play no part, since every stored limit is below [MaxInt64]. *)

Section checks.
Context {QL : QuantityLib} {QLaws : QuantityLaws QL}.
Implicit Types (T : Tables) (o p : uuid) (n c : string) (r : Resources).

(** ** Valid quotas *)

Lemma valid_quota_empty : valid_quota ∅.
Proof. split; [apply parses_empty|]. rewrite parsed_empty. apply map_Forall_empty. Qed.

Lemma valid_lookup r n l : valid_quota r → parsed r !! n = Some l → 0 ≤ l < MaxInt64.
Proof. intros [_ Hs] Hl. by apply Hs in Hl as [_ ?]. Qed.

Lemma storable_in_range (q : Quantities) : storable q → in_range q.
Proof. intros Hq n v Hv. apply Hq in Hv as [_ ?]. lia. Qed.

Lemma valid_toResources (q : Quantities) :
  storable q → valid_quota (toResources q) ∧ parsed (toResources q) = q.
Proof.
  intros Hq. destruct (parsed_Ok _ _ (Parse_toResources q Hq)) as [Heq Hp].
  split; [|done]. split; [done|]. by rewrite Heq.
Qed.

Lemma valid_az T p c : tables_wf T → valid_quota (default ∅ (projectAZs T p !! c)).
Proof.
  intros Hwf. destruct (projectAZs T p !! c) eqn:Hc; simpl; [by eapply wf_az in Hc as [? _]|].
  apply valid_quota_empty.
Qed.

(** The effective limit of valid quotas stays below the cap. *)
Lemma limit_lookup org project n l :
  valid_quota org → valid_quota project →
  WithZeros (parsed project) (parsed org) !! n = Some l → 0 ≤ l < MaxInt64.
Proof.
  intros Ho Hp. rewrite lookup_WithZeros. destruct (parsed project !! n) as [v|] eqn:Hv.
  - intros [= <-]. by eapply valid_lookup.
  - destruct (parsed org !! n); simpl; [|done]. intros [= <-]. unfold MaxInt64. lia.
Qed.

Lemma azHeld_nonneg T p n : 0 ≤ azHeld T p n.
Proof. apply sum_map_nonneg. intros. apply get_parsed_nonneg. Qed.

Lemma projectAllocated_nonneg T p n : 0 ≤ projectAllocated T p n.
Proof. unfold projectAllocated. pose proof (azHeld_nonneg T p n). lia. Qed.

(** ** The checks *)

(** [checkProjectCoversAZs] *)
Lemma covers_iff T o p r :
  tables_wf T → valid_quota r →
  checkProjectCoversAZs (hierarchyOf T o p) r = Ok tt ↔
  ∀ n l, WithZeros (parsed r) (parsed (organizationResources T o)) !! n = Some l →
    azHeld T p n ≤ l.
Proof.
  intros Hwf Hr. unfold checkProjectCoversAZs. cbn [hierarchyOf h_Organization h_AZs].
  pose proof (wf_organization T Hwf o) as Ho.
  rewrite Parse_projectLimit by apply Ho || apply Hr. simpl.
  destruct (sumAZQuotas_spec (projectAZs T p) EmptyString EmptyString) as (total & Htot & _ & _).
  { intros c r' Hc. by eapply wf_az in Hc as [[] _]. }
  assert (∀ n, get total n = Z.min MaxInt64 (azHeld T p n)) as Hget.
  { intros n. destruct (sumAZQuotas_spec (projectAZs T p) EmptyString n) as (total' & Htot' & _ & Hn).
    { intros c r' Hc. by eapply wf_az in Hc as [[] _]. }
    rewrite Htot in Htot'. injection Htot' as <-. rewrite Hn. f_equal.
    apply sum_map_ext. intros c r' Hc. rewrite decide_False; [done|]. by eapply wf_az in Hc as [_ ?]. }
  rewrite Htot. simpl.
  transitivity (checkNotBelow (WithZeros (parsed r) (parsed (organizationResources T o))) total
    "its availability zones" = Ok tt).
  { destruct (checkNotBelow _ _ _) as [[]|]; [done|]. case_decide; done. }
  rewrite checkNotBelow_Ok. setoid_rewrite Hget.
  split; intros Hall n l Hl; specialize (Hall n l Hl); pose proof (limit_lookup _ _ n l Ho Hr Hl); lia.
Qed.

Lemma covers_Err T o p r e :
  tables_wf T → valid_quota r →
  checkProjectCoversAZs (hierarchyOf T o p) r = Err e → err_is e = ErrBelowAllocated.
Proof.
  intros Hwf Hr. unfold checkProjectCoversAZs. cbn [hierarchyOf h_Organization h_AZs].
  pose proof (wf_organization T Hwf o) as Ho.
  rewrite Parse_projectLimit by apply Ho || apply Hr. simpl.
  destruct (sumAZQuotas_spec (projectAZs T p) EmptyString EmptyString) as (total & -> & _ & _).
  { intros c r' Hc. by eapply wf_az in Hc as [[] _]. }
  simpl. destruct (checkNotBelow _ _ _) as [[]|e'] eqn:Hc; [done|].
  apply checkNotBelow_Err in Hc. case_decide; intros [= <-]; done.
Qed.

(** [checkAZFitsInProject] *)
Lemma azHeld_split T p c n :
  azHeld T p n =
    get (parsed (default ∅ (projectAZs T p !! c))) n +
    sum_map (λ c' r, if decide (c' = c) then 0 else get (parsed r) n) (projectAZs T p).
Proof.
  unfold azHeld. destruct (projectAZs T p !! c) as [r|] eqn:Hc; simpl.
  - rewrite !(sum_map_delete _ (projectAZs T p) c r) by done. rewrite decide_True by done.
    rewrite (sum_map_ext (λ c' r, if decide (c' = c) then 0 else get (parsed r) n)
      (λ _ r, get (parsed r) n) (delete c _)); [lia|].
    intros c' r' [? _]%lookup_delete_Some. by rewrite decide_False.
  - rewrite parsed_empty. change (get ∅ n) with 0. rewrite Z.add_0_l.
    apply sum_map_ext. intros c' r' Hc'. rewrite decide_False; [done|]. congruence.
Qed.

Lemma azFits_iff T o p c (requested : Quantities) :
  tables_wf T → in_range requested →
  checkAZFitsInProject (hierarchyOf T o p) c requested = Ok tt ↔
  ∀ n l v,
    WithZeros (parsed (projectResources T p)) (parsed (organizationResources T o)) !! n = Some l →
    requested !! n = Some v →
    get (parsed (default ∅ (projectAZs T p !! c))) n < v →
    azHeld T p n - get (parsed (default ∅ (projectAZs T p !! c))) n + v ≤ l.
Proof.
  intros Hwf Hreq. unfold checkAZFitsInProject.
  cbn [hierarchyOf h_Organization h_Project h_AZs].
  pose proof (wf_organization T Hwf o) as Ho. pose proof (wf_project T Hwf p) as Hp.
  rewrite Parse_projectLimit by apply Ho || apply Hp. simpl.
  rewrite (parses_Ok (default ∅ _)) by apply (valid_az T p c Hwf). simpl.
  assert (map_Forall (λ _ r, parses r) (projectAZs T p)) as Haz.
  { intros c' r' Hc. by eapply wf_az in Hc as [[] _]. }
  destruct (sumAZQuotas_spec (projectAZs T p) c EmptyString Haz) as (total & Htot & Hr & _).
  rewrite Htot. simpl. rewrite checkCapacity_Ok by done.
  assert (∀ n, get total n + get (parsed (default ∅ (projectAZs T p !! c))) n =
    Z.min MaxInt64 (azHeld T p n - get (parsed (default ∅ (projectAZs T p !! c))) n) +
    get (parsed (default ∅ (projectAZs T p !! c))) n) as Hget.
  { intros n. destruct (sumAZQuotas_spec (projectAZs T p) c n Haz) as (total' & Htot' & _ & Hn).
    rewrite Htot in Htot'. injection Htot' as <-. rewrite Hn, (azHeld_split T p c n). lia. }
  split; intros Hall n l v Hl Hv Hlt; specialize (Hall n l v Hl Hv Hlt); specialize (Hget n);
    pose proof (limit_lookup _ _ n l Ho Hp Hl); apply Hreq in Hv; lia.
Qed.

Lemma azFits_Err T o p c (requested : Quantities) e :
  tables_wf T → checkAZFitsInProject (hierarchyOf T o p) c requested = Err e →
  err_is e = ErrProjectQuotaExceeded.
Proof.
  intros Hwf. unfold checkAZFitsInProject. cbn [hierarchyOf h_Organization h_Project h_AZs].
  rewrite Parse_projectLimit
    by (apply (wf_organization T Hwf o) || apply (wf_project T Hwf p)). simpl.
  rewrite (parses_Ok (default ∅ _)) by apply (valid_az T p c Hwf). simpl.
  destruct (sumAZQuotas_spec (projectAZs T p) c EmptyString) as (total & -> & _).
  { intros c' r' Hc. by eapply wf_az in Hc as [[] _]. }
  simpl. apply checkCapacity_Err.
Qed.

(** What the other projects of an organization are allocated. *)
Definition othersAllocated T o p n : Z :=
  sum_map (λ p' _, projectAllocated T p' n) (delete p (liveProjects T o)).

Lemma organizationAllocated_split T o p n :
  live_project T o p = true →
  organizationAllocated T o n = projectAllocated T p n + othersAllocated T o p n.
Proof.
  intros [x Hx]%lookup_liveProjects. unfold organizationAllocated, othersAllocated.
  by rewrite (sum_map_delete _ _ p x).
Qed.

Lemma othersAllocated_nonneg T o p n : 0 ≤ othersAllocated T o p n.
Proof. apply sum_map_nonneg. intros. apply projectAllocated_nonneg. Qed.

(** The allocations summed, of all the projects of an organization and of all but one. *)
Lemma sum_allocations T o :
  tables_wf T →
  ∃ rows allocations, projectAllocationsOf T o = Ok (rows, allocations) ∧
    rows = order_by String.le (map_to_list (projectQuotaRows T o)) ∧
    map_Forall (λ _ q, in_range q) allocations ∧
    (∀ p, is_Some (allocations !! p) ↔ live_project T o p = true ∧ has_quotas T p) ∧
    (∀ p n, live_project T o p = true →
      get (default ∅ (allocations !! p)) n = Z.min MaxInt64 (projectAllocated T p n)) ∧
    in_range (sumAllocations allocations) ∧
    (∀ n, get (sumAllocations allocations) n = Z.min MaxInt64 (organizationAllocated T o n)) ∧
    ∀ p, in_range (sumAllocations (delete p allocations)) ∧
      ∀ n, get (sumAllocations (delete p allocations)) n =
        Z.min MaxInt64 (othersAllocated T o p n).
Proof.
  intros Hwf. destruct (projectAllocationsOf_spec T o Hwf) as (allocs & Heq & Hr & Hs & Hg).
  assert (∀ p, is_Some (liveProjects T o !! p) → live_project T o p = true) as Hl.
  { intros p. apply lookup_liveProjects. }
  assert (∀ n, in_range (sumAllocations allocs) ∧ get (sumAllocations allocs) n =
    Z.min MaxInt64 (organizationAllocated T o n)) as Hall.
  { intros n. apply (sumAllocations_over (liveProjects T o) allocs (λ p, projectAllocated T p n)).
    - done.
    - intros p [? _]%Hs. by apply lookup_liveProjects.
    - intros p Hp. split; [apply projectAllocated_nonneg | by apply Hg, Hl]. }
  eexists _, allocs. split; [done|]. split; [done|]. split_and!; [done..| | |].
  - apply (Hall EmptyString).
  - intros n. apply Hall.
  - intros p. assert (∀ n, in_range (sumAllocations (delete p allocs)) ∧
      get (sumAllocations (delete p allocs)) n = Z.min MaxInt64 (othersAllocated T o p n)) as Hoth.
    { intros n. apply (sumAllocations_over (delete p (liveProjects T o)) (delete p allocs)
        (λ p, projectAllocated T p n)).
      - by apply map_Forall_delete.
      - intros p' [q [? Hq]%lookup_delete_Some]. rewrite lookup_delete_ne by done.
        apply lookup_liveProjects. apply (Hs p'). eauto.
      - intros p' [x [? Hx]%lookup_delete_Some]. split; [apply projectAllocated_nonneg|].
        rewrite lookup_delete_ne by done. apply Hg, Hl. eauto. }
    split; [apply (Hoth EmptyString) | intros n; apply Hoth].
Qed.

(** [checkProjectFitsInOrganization] *)
Lemma projectFits_iff T o p (requested : Quantities) :
  tables_wf T → live_project T o p = true → in_range requested →
  projectFitsOf T o p requested (organizationResources T o) = Ok tt ↔
  ∀ n l v,
    parsed (organizationResources T o) !! n = Some l → requested !! n = Some v →
    projectAllocated T p n < v → othersAllocated T o p n + v ≤ l.
Proof.
  intros Hwf Hlive Hreq. pose proof (wf_organization T Hwf o) as Ho. unfold projectFitsOf.
  case_decide as Hempty.
  { split; [|done]. intros _ n l v. by rewrite Hempty, parsed_empty, lookup_empty. }
  rewrite (parses_Ok (organizationResources T o)) by apply Ho. simpl.
  destruct (sum_allocations T o Hwf) as (rows & allocs & Heq & _ & Hr & Hs & Hg & _ & _ & Hoth).
  rewrite Heq. simpl. destruct (Hoth p) as [Hin Hsum].
  rewrite checkCapacity_Ok by done. setoid_rewrite Hsum.
  split; intros Hall n l v Hl Hv Hlt; specialize (Hall n l v Hl Hv);
    pose proof (valid_lookup _ n l Ho Hl); apply Hreq in Hv; rewrite Hg in * by done;
    pose proof (othersAllocated_nonneg T o p n); unfold MaxInt64 in *; lia.
Qed.

Lemma projectFits_Err T o p (requested : Quantities) e :
  tables_wf T → projectFitsOf T o p requested (organizationResources T o) = Err e →
  err_is e = ErrOrgQuotaExceeded.
Proof.
  intros Hwf. pose proof (wf_organization T Hwf o) as Ho. unfold projectFitsOf.
  case_decide; [done|]. rewrite (parses_Ok (organizationResources T o)) by apply Ho. simpl.
  destruct (sum_allocations T o Hwf) as (rows & allocs & -> & _). simpl. apply checkCapacity_Err.
Qed.
End checks.
