(* ===== verification/QuotaWrites.v ===== *)
(** * What the quota writes do to the tables

    Every write of [Hierarchical] as a function of the tables and of the revision sequence
    ([put...], [saveTo], [distributeTo], [coverTo]), and what these functions change of the levels
    that [QuotaSpec] reads: only the quota and the AZ quotas of the project written. *)

From S2P Require Import Prelude Quantity Errors QuotaResources Database AZConfig Hierarchical QuotaSpec.
From S2P Require Import QuotaRules.

(** ** The writes as functions *)
Section put.
Context {QL : QuantityLib} {C : Type}.
Implicit Types (o p : uuid) (r : Resources) (st : Tables * Z).

Definition putOrganizationQuota o r st : Tables * Z :=
  (set_organization_quotas <[o:=mkOrganizationQuota r (st.2 + 1) false]> st.1, st.2 + 1).

Definition putProjectQuota o p r st : Tables * Z :=
  (set_project_quotas <[p:=mkProjectQuota o r (st.2 + 1) false]> st.1, st.2 + 1).

Definition putAZQuota p (c : string) r st : Tables * Z :=
  (set_project_az_quotas <[(p, c):=mkProjectAZQuota r (st.2 + 1) false]> st.1, st.2 + 1).

#[export] Instance writes_upsertOrganizationQuota o r :
  Writes (C:=C) (upsertOrganizationQuota o r)
    (λ st, (mkOrganizationQuota r (st.2 + 1) false, putOrganizationQuota o r st)).
Proof. eapply writes_ext; [apply writes_exec|]. by intros [T s]. Qed.

#[export] Instance writes_upsertProjectQuota o p r :
  Writes (C:=C) (upsertProjectQuota o p r)
    (λ st, (mkProjectQuota o r (st.2 + 1) false, putProjectQuota o p r st)).
Proof. eapply writes_ext; [apply writes_exec|]. by intros [T s]. Qed.

#[export] Instance writes_upsertAZQuota p c r :
  Writes (C:=C) (upsertAZQuota p c r)
    (λ st, (mkProjectAZQuota r (st.2 + 1) false, putAZQuota p c r st)).
Proof. eapply writes_ext; [apply writes_exec|]. by intros [T s]. Qed.

Context (AZs : gmap string AZConfig).

(** The AZs a project quota is split among, and the share of each. *)
Definition azsOf o : list AZConfig := sort_by_code (FindAll AZs o).

Definition azShare o r : Resources :=
  toResources (SplitEqually (parsed r) (Z.of_nat (length (azsOf o)))).

Definition splitTo p (share : Resources) (azs : list AZConfig) st : Tables * Z :=
  foldl (λ st az, putAZQuota p (Code az) share st) st azs.

Definition saveTo o p r (hasAZQuotas : bool) st : Tables * Z :=
  let st := putProjectQuota o p r st in
  if hasAZQuotas then st else splitTo p (azShare o r) (azsOf o) st.

Lemma writes_splitAmongAZs o p r :
  parses r →
  Writes (C:=C) (splitAmongAZs AZs o p r) (λ st, (tt, splitTo p (azShare o r) (azsOf o) st)).
Proof.
  intros Hr. unfold splitAmongAZs. rewrite (parses_Ok r Hr).
  apply (writes_for_each _ (λ az, putAZQuota p (Code az) (azShare o r))).
  intros az _. eapply writes_ext; [apply _|]. by intros [T s].
Qed.

Lemma writes_saveProjectQuota o p r hasAZQuotas :
  parses r →
  Writes (C:=C) (saveProjectQuota AZs o p r hasAZQuotas)
    (λ st, (mkProjectQuota o r (st.2 + 1) false, saveTo o p r hasAZQuotas st)).
Proof.
  intros Hr. unfold saveProjectQuota, saveTo. destruct hasAZQuotas.
  - eapply writes_ext; [apply _|]. done.
  - pose proof (writes_splitAmongAZs o p r Hr). eapply writes_ext; [apply _|]. done.
Qed.

(** The quota [distributeAmongProjects] gives to a project. *)
Definition distributedQuota (limit equalShare : Quantities) (allocations : gmap uuid Quantities) p :
    Resources := toResources (Add equalShare (Only (default ∅ (allocations !! p)) limit)).

Definition remainingShare (limit : Quantities) (allocations : gmap uuid Quantities) (count : nat) :
    Quantities := SplitEqually (Sub limit (sumAllocations allocations)) (Z.of_nat count).

Definition distributeTo o limit allocations (ids : list uuid) st : Tables * Z :=
  foldl (λ st p, saveTo o p
    (distributedQuota limit (remainingShare limit allocations (length ids)) allocations p)
    (bool_decide (is_Some (allocations !! p))) st) st ids.

Lemma writes_distributeAmongProjects o limit allocations :
  (∀ count p, parses (distributedQuota limit (remainingShare limit allocations count)
    allocations p)) →
  Writes (C:=C) (distributeAmongProjects AZs o limit allocations)
    (λ st, (tt, distributeTo o limit allocations (liveProjectIds st.1 o) st)).
Proof.
  intros Hparse. unfold distributeAmongProjects, listProjectIds. eapply writes_ext.
  - apply writes_bind; [apply _|]. intros ids. apply (writes_for_each _ (λ p,
      saveTo o p (distributedQuota limit (remainingShare limit allocations (length ids)) allocations p)
        (bool_decide (is_Some (allocations !! p))))).
    intros p _.
    pose proof (writes_saveProjectQuota o p
      (distributedQuota limit (remainingShare limit allocations (length ids)) allocations p)
      (bool_decide (is_Some (allocations !! p))) (Hparse _ p)).
    eapply writes_ext; [apply writes_bind; apply _|]. done.
  - done.
Qed.

(** The quota [coverAZQuotas] completes the quota of a project with; [None]: it is complete. *)
Definition completedQuota (limit held : Quantities) (defined : Resources) : option Resources :=
  let missing := missingOf limit held defined in
  if decide (missing = ∅) then None
  else Some (maps_Copy (maps_Copy ∅ defined) (toResources missing)).

Definition coverTo o limit (defined : gmap uuid Resources) allocations st : Tables * Z :=
  foldl (λ st p,
    match completedQuota limit (default ∅ (allocations !! p)) (default ∅ (defined !! p)) with
    | Some r => putProjectQuota o p r st
    | None => st
    end) st (sorted_keys (allocations : gmap uuid Quantities)).

#[export] Instance writes_coverAZQuotas o limit projectQuotas allocations :
  Writes (C:=C) (coverAZQuotas o limit projectQuotas allocations)
    (λ st, (tt, coverTo o limit (quotasByProject projectQuotas) allocations st)).
Proof.
  unfold coverAZQuotas, coverTo. apply (writes_for_each _ (λ p st,
    match completedQuota limit (default ∅ (allocations !! p))
            (default ∅ (quotasByProject projectQuotas !! p)) with
    | Some r => putProjectQuota o p r st
    | None => st
    end)).
  intros p _. unfold completedQuota. case_decide; [apply writes_ret|].
  eapply writes_ext; [apply _|]. done.
Qed.
End put.

(** ** What the writes change *)

(** What the tables say of a project: its quota row, without the revision, and its AZ quotas. *)
Definition projectView (T : Tables) (p : uuid) : option (uuid * Resources) * gmap string Resources :=
  ((λ row, (pq_OrganizationId row, pq_Resources row)) <$> projectQuotaRow T p, projectAZs T p).

Lemma projectResources_view T p :
  projectResources T p = default ∅ (snd <$> (projectView T p).1).
Proof. unfold projectResources, projectView. simpl. by destruct (projectQuotaRow T p). Qed.

Lemma projectAZs_view T p : projectAZs T p = (projectView T p).2.
Proof. done. Qed.

(** The part of the tables that the writes of project and AZ quotas do not touch. *)
Definition frame (T : Tables) :=
  (organizations T, projects T, organization_quotas T, project_deactivations T).

Section views.
Context {QL : QuantityLib}.
Implicit Types (o p : uuid) (r : Resources) (st : Tables * Z).

Lemma live_project_frame T T' o p : frame T' = frame T → live_project T' o p = live_project T o p.
Proof. unfold frame, live_project. by intros [= _ -> _ _]. Qed.

Lemma organizationQuotaRow_frame T T' o :
  frame T' = frame T → organizationQuotaRow T' o = organizationQuotaRow T o.
Proof. unfold frame, organizationQuotaRow. by intros [= _ _ -> _]. Qed.

Lemma view_putProjectQuota o p r st p' :
  projectView (putProjectQuota o p r st).1 p' =
  if decide (p' = p) then (Some (o, r), (projectView st.1 p).2) else projectView st.1 p'.
Proof.
  unfold projectView, projectQuotaRow. simpl. case_decide.
  - subst. by rewrite lookup_insert_eq.
  - by rewrite lookup_insert_ne.
Qed.

Lemma view_putAZQuota p c r st p' :
  projectView (putAZQuota p c r st).1 p' =
  if decide (p' = p) then ((projectView st.1 p).1, <[c:=r]> (projectView st.1 p).2)
  else projectView st.1 p'.
Proof.
  unfold projectView. simpl.
  assert (projectAZs (putAZQuota p c r st).1 p' =
    if decide (p' = p) then <[c:=r]> (projectAZs st.1 p) else projectAZs st.1 p') as Haz.
  { apply map_eq. intros c'. rewrite lookup_projectAZs. simpl. case_decide as Hp.
    - subst. destruct (decide (c' = c)) as [->|Hc].
      + by rewrite !lookup_insert_eq.
      + rewrite !lookup_insert_ne by congruence. by rewrite lookup_projectAZs.
    - rewrite lookup_insert_ne by congruence. by rewrite lookup_projectAZs. }
  simpl in Haz. rewrite Haz. by case_decide; subst.
Qed.

(** The AZ quotas of a project after its quota is split. *)
Definition sharedAZs (share : Resources) (azs : list AZConfig) (m : gmap string Resources) :
    gmap string Resources := foldl (λ m az, <[Code az:=share]> m) m azs.

Lemma view_splitTo p share azs st p' :
  projectView (splitTo p share azs st).1 p' =
  if decide (p' = p) then ((projectView st.1 p).1, sharedAZs share azs (projectView st.1 p).2)
  else projectView st.1 p'.
Proof.
  unfold splitTo, sharedAZs. revert st. induction azs as [|az azs IH]; intros st; cbn [foldl].
  { case_decide as Hp; [|done]. rewrite Hp. apply surjective_pairing. }
  rewrite IH, !view_putAZQuota, (decide_True (P:=p = p)) by done. by case_decide.
Qed.

Lemma lookup_sharedAZs share azs c :
  sharedAZs share azs ∅ !! c = if decide (c ∈ Code <$> azs) then Some share else None.
Proof.
  unfold sharedAZs. assert (∀ m, foldl (λ m az, <[Code az:=share]> m) m azs !! c =
    if decide (c ∈ Code <$> azs) then Some share else m !! c) as ->; [|by case_decide].
  induction azs as [|az azs IH]; intros m; csimpl; [done|]. rewrite IH.
  destruct (decide (c = Code az)) as [->|Hc].
  - rewrite lookup_insert_eq, (decide_True (P:=Code az ∈ Code az :: _)) by left. by case_decide.
  - rewrite lookup_insert_ne by done.
    destruct (decide (c ∈ Code <$> azs)).
    + rewrite decide_True; [done|by right].
    + rewrite decide_False; [done|]. by rewrite elem_of_cons; intros [?|?].
Qed.

Context (AZs : gmap string AZConfig).

Definition savedView o r (hasAZQuotas : bool) (v : option (uuid * Resources) * gmap string Resources) :=
  (Some (o, r), if hasAZQuotas then v.2 else sharedAZs (azShare AZs o r) (azsOf AZs o) v.2).

Lemma view_saveTo o p r hasAZQuotas st p' :
  projectView (saveTo AZs o p r hasAZQuotas st).1 p' =
  if decide (p' = p) then savedView o r hasAZQuotas (projectView st.1 p) else projectView st.1 p'.
Proof.
  unfold saveTo, savedView. destruct hasAZQuotas.
  - rewrite view_putProjectQuota. by case_decide.
  - rewrite view_splitTo, !view_putProjectQuota, (decide_True (P:=p = p)) by done. by case_decide.
Qed.

Lemma frame_splitTo p share azs st : frame (splitTo p share azs st).1 = frame st.1.
Proof. apply (foldl_unchanged (λ st, frame st.1)). done. Qed.

Lemma frame_saveTo o p r hasAZQuotas st :
  frame (saveTo AZs o p r hasAZQuotas st).1 = frame st.1.
Proof. unfold saveTo. destruct hasAZQuotas; [done|]. by rewrite frame_splitTo. Qed.

Lemma view_distributeTo o limit allocations ids st p :
  NoDup ids →
  projectView (distributeTo AZs o limit allocations ids st).1 p =
  if decide (p ∈ ids) then
    savedView o (distributedQuota limit (remainingShare limit allocations (length ids)) allocations p)
      (bool_decide (is_Some (allocations !! p))) (projectView st.1 p)
  else projectView st.1 p.
Proof.
  intros Hnd. unfold distributeTo. set (share := remainingShare _ _ _).
  rewrite (foldl_local (λ st, projectView st.1) _ (λ p, savedView o
    (distributedQuota limit share allocations p)
    (bool_decide (is_Some (allocations !! p))))); [done| |done].
  intros st' k k' _. apply view_saveTo.
Qed.

Lemma frame_distributeTo o limit allocations ids st :
  frame (distributeTo AZs o limit allocations ids st).1 = frame st.1.
Proof. apply (foldl_unchanged (λ st, frame st.1)). intros. apply frame_saveTo. Qed.

Definition coveredView o limit (allocations : gmap uuid Quantities) (defined : gmap uuid Resources) p
    (v : option (uuid * Resources) * gmap string Resources) :=
  match completedQuota limit (default ∅ (allocations !! p)) (default ∅ (defined !! p)) with
  | Some r => (Some (o, r), v.2)
  | None => v
  end.

Lemma view_coverTo o limit defined allocations st p :
  projectView (coverTo o limit defined allocations st).1 p =
  if decide (is_Some (allocations !! p)) then
    coveredView o limit allocations defined p (projectView st.1 p)
  else projectView st.1 p.
Proof.
  unfold coverTo.
  rewrite (foldl_local (λ st, projectView st.1) _ (coveredView o limit allocations defined)).
  - apply decide_ext, elem_of_sorted_keys.
  - intros st' k k' _. unfold coveredView. destruct (completedQuota _ _ _).
    + apply view_putProjectQuota.
    + case_decide as Hk; [by rewrite Hk | done].
  - apply sorted_keys_NoDup.
Qed.

Lemma frame_coverTo o limit defined allocations st :
  frame (coverTo o limit defined allocations st).1 = frame st.1.
Proof.
  apply (foldl_unchanged (λ st, frame st.1)). intros. by destruct (completedQuota _ _ _).
Qed.
End views.

(** * The capacity invariant, write by write

    Each of the write functions of [QuotaWrites], under the checks that guard it, keeps the tables
    well formed and every child within its parent. The arguments are about one organization:
    [quotas_ok_local] frames the others. *)

Section capacity.
Context {QL : QuantityLib} {QLaws : QuantityLaws QL}.
Implicit Types (T : Tables) (o p : uuid) (n c : string) (r : Resources).

(** The invariant of the quota tables. *)
Definition quotas_ok T : Prop := tables_wf T ∧ capacity T.

(** ** One organization at a time *)

(** A well-formed view of a project of organization [o]. *)
Definition view_wf o (v : option (uuid * Resources) * gmap string Resources) : Prop :=
  (∀ o' r, v.1 = Some (o', r) → o' = o ∧ valid_quota r) ∧
  (∀ c r, v.2 !! c = Some r → valid_quota r ∧ c ≠ EmptyString).

Lemma live_project_unique T o o' p :
  live_project T o p = true → live_project T o' p = true → o = o'.
Proof.
  unfold live_project. destruct (projects T !! p); [|done].
  rewrite !andb_true_iff, !bool_decide_eq_true. intros [-> _] [-> _]. done.
Qed.

Lemma azHeld_view T T' p n : projectView T' p = projectView T p → azHeld T' p n = azHeld T p n.
Proof. unfold azHeld. rewrite !projectAZs_view. by intros ->. Qed.

Lemma projectResources_view_eq T T' p :
  projectView T' p = projectView T p → projectResources T' p = projectResources T p.
Proof. rewrite !projectResources_view. by intros ->. Qed.

Lemma projectAllocated_view T T' p n :
  projectView T' p = projectView T p → projectAllocated T' p n = projectAllocated T p n.
Proof.
  intros Hv. unfold projectAllocated.
  by rewrite (azHeld_view T T') by done; rewrite (projectResources_view_eq T T') by done.
Qed.

Lemma organizationAllocated_le T T' o n :
  projects T' = projects T →
  (∀ p, live_project T o p = true → projectAllocated T' p n ≤ projectAllocated T p n) →
  organizationAllocated T' o n ≤ organizationAllocated T o n.
Proof.
  intros Hp Hle. unfold organizationAllocated, liveProjects, live_project. rewrite Hp.
  apply sum_map_le. intros p x [_ Hl]%map_lookup_filter_Some. by apply Hle.
Qed.

(** Tables that differ at one organization only keep the invariant if that organization does. *)
Lemma quotas_ok_local T T' o :
  quotas_ok T → projects T' = projects T →
  (∀ p, live_project T o p = false → projectView T' p = projectView T p) →
  (∀ o', o' ≠ o → organizationResources T' o' = organizationResources T o') →
  valid_quota (organizationResources T' o) →
  (∀ p, live_project T o p = true → view_wf o (projectView T' p)) →
  organization_fits T' o →
  (∀ p, live_project T o p = true → project_fits T' o p) →
  quotas_ok T'.
Proof.
  intros [Hwf Hcap] Hproj Hview Horg Hvalid Hvwf Hofits Hpfits.
  assert (∀ o' p, live_project T' o' p = live_project T o' p) as Hlive.
  { intros. unfold live_project. by rewrite Hproj. }
  assert (∀ o' p, live_project T o' p = true → o' ≠ o → projectView T' p = projectView T p) as Hoth.
  { intros o' p Hl Hne. apply Hview. destruct (live_project T o p) eqn:Hl'; [|done].
    by destruct Hne; eapply live_project_unique. }
  split; [split|].
  - intros o'. destruct (decide (o' = o)) as [->|Hne]; [done|].
    rewrite Horg by done. by apply wf_organization.
  - intros p. destruct (live_project T o p) eqn:Hl.
    + destruct (Hvwf p Hl) as [Hq _]. rewrite projectResources_view.
      destruct (projectView T' p).1 as [[o' r]|] eqn:Hv; simpl; [by eapply Hq|].
      apply valid_quota_empty.
    + rewrite (projectResources_view_eq T T') by auto. by apply wf_project.
  - intros p c r. rewrite projectAZs_view. destruct (live_project T o p) eqn:Hl.
    + by apply Hvwf.
    + rewrite Hview by done. by apply wf_az.
  - intros o' p row Hl Hrow. rewrite Hlive in Hl.
    destruct (decide (o' = o)) as [->|Hne].
    + destruct (Hvwf p Hl) as [Hq _].
      by destruct (Hq (pq_OrganizationId row) (pq_Resources row)); [simpl; rewrite Hrow|].
    + pose proof (Hoth o' p Hl Hne) as Hv. unfold projectView in Hv. injection Hv as Hv _.
      rewrite Hrow in Hv. simpl in Hv. destruct (projectQuotaRow T p) as [row'|] eqn:Hrow'; [|done].
      injection Hv as -> _. by eapply wf_project_org.
  - intros o'. destruct (decide (o' = o)) as [->|Hne].
    { split; [done|]. intros p. rewrite Hlive. apply Hpfits. }
    destruct (Hcap o') as [Ho Hp]. split.
    + intros n l. rewrite Horg by done. intros Hl. etrans; [|by apply Ho].
      apply organizationAllocated_le; [done|]. intros p Hlv.
      by rewrite (projectAllocated_view T T') by by eapply Hoth.
    + intros p Hlv n l. rewrite Hlive in Hlv. rewrite Horg by done.
      rewrite (projectResources_view_eq T T'), (azHeld_view T T') by by eapply Hoth.
      by apply Hp.
Qed.

(** ** An equal split never exceeds what it splits *)

Lemma storable_SplitEqually (q : Quantities) k : storable q → storable (SplitEqually q k).
Proof.
  intros Hq. destruct (decide (k ≤ 0)) as [Hk|Hk].
  { unfold SplitEqually. rewrite decide_True by done. apply map_Forall_empty. }
  intros n v. rewrite lookup_SplitEqually by lia.
  destruct (q !! n) as [x|] eqn:Hx; [|done]. apply Hq in Hx as [? Hx]. intros [= <-].
  split; [done|]. rewrite Z.quot_div_nonneg by lia.
  pose proof (Z.div_pos x k). pose proof (Z.div_le_upper_bound x k x). nia.
Qed.

Lemma azShare_valid AZs o r :
  valid_quota r → valid_quota (azShare AZs o r) ∧
    parsed (azShare AZs o r) = SplitEqually (parsed r) (Z.of_nat (length (azsOf AZs o))).
Proof. intros [_ Hs]. by apply valid_toResources, storable_SplitEqually. Qed.

(** A map whose keys come from a list has no more entries than the list. *)
Lemma size_of_keys {V} (m : gmap string V) (l : list string) :
  (∀ k, is_Some (m !! k) → k ∈ l) → (length (map_to_list m) ≤ length l)%nat.
Proof.
  intros Hk. rewrite <-(length_fmap fst). apply submseteq_length, NoDup_submseteq.
  - apply NoDup_fst_map_to_list.
  - intros k ([k' v] & -> & Hin%elem_of_map_to_list)%list_elem_of_fmap. eauto.
Qed.

Lemma held_sharedAZs AZs o r n :
  valid_quota r →
  sum_map (λ _ r', get (parsed r') n) (sharedAZs (azShare AZs o r) (azsOf AZs o) ∅)
    ≤ get (parsed r) n.
Proof.
  intros Hr. destruct (azShare_valid AZs o r Hr) as [_ Hshare].
  set (m := sharedAZs _ _ _). set (k := length (azsOf AZs o)).
  assert (length (map_to_list m) ≤ k)%nat as Hlen.
  { unfold k. rewrite <-(length_fmap Code). apply size_of_keys. intros c. unfold m.
    rewrite lookup_sharedAZs. case_decide; [done|]. by intros []. }
  rewrite (sum_map_ext _ (λ _ _, get (parsed (azShare AZs o r)) n)).
  2: { intros c r'. unfold m. rewrite lookup_sharedAZs. case_decide; [by intros [= <-]|done]. }
  unfold sum_map. rewrite zsum_map_const, Hshare.
  assert (in_range (parsed r)) as Hin by apply parsed_in_range.
  pose proof (in_range_get _ n Hin) as Hget. fold k.
  destruct (decide (0 < Z.of_nat k)) as [Hk|Hk].
  - rewrite get_SplitEqually by done.
    pose proof (Z.mul_div_le (get (parsed r) n) (Z.of_nat k) Hk).
    pose proof (Z.div_pos (get (parsed r) n) (Z.of_nat k)). nia.
  - assert (length (map_to_list m) = 0)%nat as -> by lia. lia.
Qed.

Lemma azsOf_Code AZs o c : loaded AZs → c ∈ Code <$> azsOf AZs o → c ≠ EmptyString.
Proof.
  intros Hl. unfold azsOf. rewrite sort_by_code_Permutation.
  intros (az & -> & Haz)%list_elem_of_fmap. by eapply loaded_FindAll_Code.
Qed.

(** ** A project whose quota is saved *)

(** The AZ quotas of a project keep being valid when its quota is saved, and hold at most what
    they held or, when there were none, at most the new quota. *)
Lemma savedView_wf AZs o r hasAZQuotas v :
  loaded AZs → valid_quota r → view_wf o v → (hasAZQuotas = false → v.2 = ∅) →
  view_wf o (savedView AZs o r hasAZQuotas v).
Proof.
  intros Hl Hr [_ Hv] Hempty. split; simpl; [by intros ?? [= <- <-]|].
  destruct hasAZQuotas; [done|]. intros c r'. rewrite Hempty, lookup_sharedAZs by done.
  case_decide; [|done]. intros [= <-]. split; [by apply azShare_valid | by eapply azsOf_Code].
Qed.

Definition heldOf (m : gmap string Resources) n : Z := sum_map (λ _ r, get (parsed r) n) m.

Lemma savedView_held AZs o r hasAZQuotas v n l :
  valid_quota r → (hasAZQuotas = false → v.2 = ∅) →
  (heldOf v.2 n ≤ l) → get (parsed r) n ≤ l →
  heldOf (savedView AZs o r hasAZQuotas v).2 n ≤ l.
Proof.
  intros Hr Hempty Hv Hl. destruct hasAZQuotas; simpl; [done|]. rewrite Hempty by done.
  etrans; [by apply held_sharedAZs | done].
Qed.

Lemma view_wf_live T o p :
  tables_wf T → live_project T o p = true → view_wf o (projectView T p).
Proof.
  intros Hwf Hl. split; simpl.
  - intros o' r. destruct (projectQuotaRow T p) as [row|] eqn:Hrow; simpl; [|done].
    intros [= <- <-]. split; [by eapply wf_project_org|].
    pose proof (wf_project T Hwf p) as Hv. unfold projectResources in Hv. by rewrite Hrow in Hv.
  - intros c r. by apply wf_az.
Qed.

(** The limit of a resource the organization limits is the quantity of the project quota. *)
Lemma effective_get org project n L :
  parsed org !! n = Some L →
  WithZeros (parsed project) (parsed org) !! n = Some (get (parsed project) n).
Proof.
  intros HL. rewrite lookup_WithZeros, HL. unfold get. by destruct (parsed project !! n).
Qed.

Lemma effective_le org project n l :
  WithZeros (parsed project) (parsed org) !! n = Some l → l = get (parsed project) n.
Proof.
  rewrite lookup_WithZeros. unfold get. destruct (parsed project !! n); [by intros [= <-]|].
  destruct (parsed org !! n); [by intros [= <-]|done].
Qed.

(** The limit of a project, in the specification. *)
Lemma parsed_projectLimit org project :
  valid_quota org → valid_quota project →
  parsed (projectLimit org project) = WithZeros (parsed project) (parsed org).
Proof. intros [? _] [? _]. by apply parsed_Ok, Parse_projectLimit. Qed.

(** Only the project written differs, and it takes no more than before of what is limited. *)
Lemma organization_fits_one T T' o p :
  projects T' = projects T → organizationResources T' o = organizationResources T o →
  live_project T o p = true → organization_fits T o →
  (∀ p', p' ≠ p → projectView T' p' = projectView T p') →
  (∀ n L, parsed (organizationResources T o) !! n = Some L →
    projectAllocated T' p n ≤ projectAllocated T p n ∨
    othersAllocated T o p n + projectAllocated T' p n ≤ L) →
  organization_fits T' o.
Proof.
  intros Hproj Horg Hlive Hfits Hother Hp n L. rewrite Horg. intros HL.
  assert (live_project T' o p = true) as Hlive' by (unfold live_project in *; by rewrite Hproj).
  assert (othersAllocated T' o p n = othersAllocated T o p n) as Hoth.
  { unfold othersAllocated, liveProjects, live_project. rewrite Hproj.
    apply sum_map_ext. intros p' x [Hne _]%lookup_delete_Some.
    apply projectAllocated_view. by apply Hother. }
  rewrite (organizationAllocated_split _ _ p), Hoth by done.
  specialize (Hfits n L HL). rewrite (organizationAllocated_split _ _ p) in Hfits by done.
  destruct (Hp n L HL); lia.
Qed.

(** [SetProjectQuota] *)
Lemma quotas_ok_saveTo AZs T s o p r hasAZQuotas :
  quotas_ok T → loaded AZs → live_project T o p = true → valid_quota r →
  (hasAZQuotas = false → projectAZs T p = ∅) →
  checkProjectCoversAZs (hierarchyOf T o p) r = Ok tt →
  projectFitsOf T o p (parsed r) (organizationResources T o) = Ok tt →
  quotas_ok (saveTo AZs o p r hasAZQuotas (T, s)).1.
Proof.
  intros [Hwf Hcap] Hl Hlive Hr Hempty Hcov Hfits.
  rewrite covers_iff in Hcov by done.
  rewrite projectFits_iff in Hfits by auto with spx.
  set (T' := (saveTo AZs o p r hasAZQuotas (T, s)).1).
  assert (frame T' = frame T) as Hframe by apply frame_saveTo.
  assert (∀ p', projectView T' p' = if decide (p' = p)
    then savedView AZs o r hasAZQuotas (projectView T p) else projectView T p') as Hview
    by (intros; apply view_saveTo).
  assert (∀ o', organizationResources T' o' = organizationResources T o') as Horg.
  { intros. unfold organizationResources. by rewrite (organizationQuotaRow_frame T T'). }
  assert (projects T' = projects T) as Hproj by (unfold frame in Hframe; congruence).
  assert (projectResources T' p = r) as Hres
    by (rewrite projectResources_view, Hview, decide_True by done; done).
  assert (∀ n l, WithZeros (parsed r) (parsed (organizationResources T o)) !! n = Some l →
    azHeld T' p n ≤ l) as Hheld.
  { intros n l Hn. unfold azHeld. rewrite projectAZs_view, Hview, decide_True by done.
    apply savedView_held; [done..|by apply Hcov|]. by rewrite (effective_le _ _ _ _ Hn). }
  apply (quotas_ok_local T T' o).
  - by split.
  - done.
  - intros p' Hl'. rewrite Hview, decide_False; congruence.
  - intros o' _. apply Horg.
  - rewrite Horg. by apply wf_organization.
  - intros p' Hl'. rewrite Hview. case_decide.
    + by apply savedView_wf; [done|done|apply view_wf_live|].
    + by apply view_wf_live.
  - apply (organization_fits_one T T' o p); [done|done|done|by apply Hcap| |].
    { intros p' Hne. by rewrite Hview, decide_False. }
    intros n L HL. specialize (Hheld n _ (effective_get _ r n L HL)).
    assert (projectAllocated T' p n = get (parsed r) n) as ->
      by (unfold projectAllocated; rewrite Hres; lia).
    pose proof (projectAllocated_nonneg T p n). unfold get.
    destruct (parsed r !! n) as [v|] eqn:Hv; simpl; [|by left].
    destruct (decide (projectAllocated T p n < v)); [right|left; lia]. by apply (Hfits n L v).
  - intros p' Hl'. destruct (decide (p' = p)) as [->|Hne].
    + intros n l. rewrite Horg, Hres, parsed_projectLimit by (done || by apply wf_organization).
      apply Hheld.
    + intros n l. rewrite Horg. assert (projectView T' p' = projectView T p') as Hv
        by by rewrite Hview, decide_False.
      rewrite (projectResources_view_eq T T'), (azHeld_view T T') by done. by apply Hcap.
Qed.

(** [SetProjectAZQuota] *)
Lemma quotas_ok_putAZQuota T s o p c r :
  quotas_ok T → live_project T o p = true → valid_quota r → c ≠ EmptyString →
  checkAZFitsInProject (hierarchyOf T o p) c (parsed r) = Ok tt →
  quotas_ok (putAZQuota p c r (T, s)).1.
Proof.
  intros [Hwf Hcap] Hlive Hr Hc Hfits. rewrite azFits_iff in Hfits by auto with spx.
  set (T' := (putAZQuota p c r (T, s)).1).
  assert (∀ p', projectView T' p' = if decide (p' = p)
    then ((projectView T p).1, <[c:=r]> (projectView T p).2) else projectView T p') as Hview
    by (intros; apply view_putAZQuota).
  assert (∀ o', organizationResources T' o' = organizationResources T o') as Horg by done.
  assert (projectResources T' p = projectResources T p) as Hres by done.
  assert (∀ n, azHeld T' p n = azHeld T p n -
    get (parsed (default ∅ (projectAZs T p !! c))) n + get (parsed r) n) as Hheld'.
  { intros n. unfold azHeld at 1. rewrite projectAZs_view, Hview, decide_True by done. simpl.
    rewrite sum_map_insert_any. fold (azHeld T p n).
    destruct (projectAZs T p !! c); simpl; [lia|]. rewrite parsed_empty. change (get ∅ n) with 0. lia. }
  assert (∀ n l, WithZeros (parsed (projectResources T p)) (parsed (organizationResources T o))
    !! n = Some l → azHeld T' p n ≤ azHeld T p n ∨ azHeld T' p n ≤ l) as Hheld.
  { intros n l Hn. rewrite Hheld'. specialize (Hfits n l).
    pose proof (get_parsed_nonneg (default ∅ (projectAZs T p !! c)) n).
    unfold get at 2. unfold get at 3. destruct (parsed r !! n) as [v|] eqn:Hv; simpl; [|left; lia].
    destruct (decide (get (parsed (default ∅ (projectAZs T p !! c))) n < v)); [right|left; lia].
    by apply Hfits. }
  apply (quotas_ok_local T T' o).
  - by split.
  - done.
  - intros p' Hl'. rewrite Hview, decide_False; congruence.
  - done.
  - apply (wf_organization T Hwf o).
  - intros p' Hl'. rewrite Hview. case_decide; [|by apply view_wf_live].
    destruct (view_wf_live T o p Hwf Hlive) as [Hq Haz]. split; simpl; [done|].
    intros c' r'. destruct (decide (c' = c)) as [->|Hne].
    + rewrite lookup_insert_eq. by intros [= <-].
    + rewrite lookup_insert_ne by done. apply Haz.
  - apply (organization_fits_one T T' o p); [done|done|done|by apply Hcap| |].
    { intros p' Hne. by rewrite Hview, decide_False. }
    intros n L HL. left. unfold projectAllocated. rewrite Hres.
    destruct (Hheld n _ (effective_get _ (projectResources T p) n L HL)); lia.
  - intros p' Hl'. destruct (decide (p' = p)) as [->|Hne].
    + intros n l. rewrite Horg, Hres. intros Hl. pose proof (proj2 (Hcap o) p Hlive n l Hl) as Hfit.
      rewrite parsed_projectLimit in Hl by (apply wf_organization || apply wf_project; done).
      destruct (Hheld n l Hl); lia.
    + intros n l. assert (projectView T' p' = projectView T p') as Hv
        by by rewrite Hview, decide_False.
      rewrite Horg, (projectResources_view_eq T T'), (azHeld_view T T') by done. by apply Hcap.
Qed.
End capacity.
