(* ===== verification/QuotaOrganization.v ===== *)
(** * Setting the quota of an organization

    The two ways an organization quota reaches its projects, [distributeAmongProjects] and
    [coverAZQuotas]: what quota each project ends up with, and that the organization still covers
    its projects and every project its AZ quotas. *)

From S2P Require Import Prelude Errors Quantity QuotaResources Database AZConfig.
From S2P Require Import Hierarchical QuotaSpec QuotaRules.
From S2P Require Import QuotaWrites.
Section organization.
Context {QL : QuantityLib} {QLaws : QuantityLaws QL}.
Implicit Types (T : Tables) (o p : uuid) (n : string) (r : Resources).
Implicit Types (limit held : Quantities).

(** ** Completing a project quota *)

Lemma lookup_missingOf limit held (defined : Resources) n :
  missingOf limit held defined !! n =
    if decide (is_Some (limit !! n) ∧ defined !! n = None ∧ 0 < get held n)
    then Some (get held n) else None.
Proof.
  unfold missingOf.
  rewrite (lookup_range _ (λ k h cur, match defined !! k with
    | None => if decide (0 < h) then Some h else cur | Some _ => cur end)) by solve_range.
  rewrite lookup_empty, lookup_Only. unfold get.
  destruct (decide (is_Some (limit !! n))); [|rewrite decide_False by tauto; done].
  destruct (held !! n) as [h|], (defined !! n); simpl; repeat case_decide; naive_solver lia.
Qed.

Lemma lookup_maps_Copy {V} (dst src : gmap string V) n :
  maps_Copy dst src !! n = match src !! n with Some v => Some v | None => dst !! n end.
Proof.
  unfold maps_Copy. rewrite (lookup_range _ (λ _ v _, Some v)) by solve_range.
  by destruct (src !! n).
Qed.

Lemma storable_missingOf limit held (defined : Resources) :
  storable limit → (∀ n, is_Some (limit !! n) → get held n < MaxInt64) →
  storable (missingOf limit held defined).
Proof.
  intros Hl Hh n v. rewrite lookup_missingOf. case_decide as Hd; [|done].
  intros [= <-]. destruct Hd as (Hs & _ & ?). specialize (Hh n Hs). destruct Hs as [l Hs].
  apply Hl in Hs as [? _]. split; [done | lia].
Qed.

(** The quota of a project once covered: what it defined, and what it holds of the other
    resources the organization limits. *)
Lemma completedQuota_spec limit held (defined : Resources) :
  storable limit → (∀ n, is_Some (limit !! n) → get held n < MaxInt64) → valid_quota defined →
  let r := default defined (completedQuota limit held defined) in
  valid_quota r ∧
  ∀ n, parsed r !! n =
    match parsed defined !! n with
    | Some v => Some v
    | None => if decide (is_Some (limit !! n) ∧ 0 < get held n) then Some (get held n) else None
    end.
Proof.
  intros Hl Hh Hd. pose proof (storable_missingOf limit held defined Hl Hh) as Hm.
  assert (∀ n, parsed defined !! n = None ↔ defined !! n = None) as Hnone.
  { intros n. rewrite !eq_None_not_Some. by rewrite parsed_is_Some by apply Hd. }
  assert (∀ n, match parsed defined !! n with Some v => Some v | None =>
      if decide (is_Some (limit !! n) ∧ 0 < get held n) then Some (get held n) else None end =
    match missingOf limit held defined !! n with Some h => Some h | None => parsed defined !! n end)
    as Heq.
  { intros n. rewrite lookup_missingOf. specialize (Hnone n).
    destruct (parsed defined !! n); repeat case_decide; naive_solver. }
  unfold completedQuota. case_decide as Hempty; cbn.
  { split; [done|]. intros n. rewrite Heq, Hempty, lookup_empty. done. }
  set (r := maps_Copy _ _).
  assert (Parse r = Ok (map_fold (λ k v dst, <[k:=v]> dst) (parsed defined)
    (missingOf limit held defined))) as Hparse.
  { apply Parse_intro. intros n. unfold r. rewrite !lookup_maps_Copy, lookup_empty, lookup_toResources.
    pose proof (lookup_maps_Copy (parsed defined) (missingOf limit held defined) n) as Hq.
    unfold maps_Copy in Hq. rewrite Hq.
    destruct (missingOf limit held defined !! n) as [h|] eqn:Hn; simpl.
    - exists h. split; [|done]. destruct (Hm n h Hn) as [[ks Hks] ?].
      unfold parseEntry, validateName. rewrite Hks. simpl. by apply parseQuantity_formatEntry.
    - pose proof (Parse_Ok_lookup _ _ n (parses_Ok defined (proj1 Hd))) as Hdef.
      by destruct (defined !! n). }
  destruct (parsed_Ok _ _ Hparse) as [Hp Hps].
  assert (∀ n, parsed r !! n =
    match missingOf limit held defined !! n with Some h => Some h | None => parsed defined !! n end)
    as Hlook.
  { intros n. rewrite Hp. apply (lookup_maps_Copy (parsed defined)). }
  split; [|intros n; by rewrite Heq].
  split; [done|]. intros n v. rewrite Hlook.
  destruct (missingOf limit held defined !! n) as [h|] eqn:Hn; [|apply Hd].
  intros [= <-]. by apply Hm.
Qed.

(** ** The effect of setting the quota on each project *)

(** The rows and allocations read, and the check against the new limit, on the sums. *)
Definition covers_projects T o limit : Prop :=
  ∀ n l, limit !! n = Some l → organizationAllocated T o n ≤ l.

#[export] Instance covers_projects_decision T o limit : Decision (covers_projects T o limit).
Proof.
  refine (map_Forall_dec (λ n l, organizationAllocated T o n ≤ l) limit). intros n l. apply _.
Defined.

Lemma checkNotBelow_iff T o r rows allocations :
  tables_wf T → valid_quota r → projectAllocationsOf T o = Ok (rows, allocations) →
  checkNotBelow (parsed r) (sumAllocations allocations) "its projects" = Ok tt ↔
  covers_projects T o (parsed r).
Proof.
  intros Hwf Hr Hal.
  destruct (sum_allocations T o Hwf) as (rows' & allocs' & Heq & _ & _ & _ & _ & _ & Hsum & _).
  rewrite Heq in Hal. injection Hal as -> ->. rewrite checkNotBelow_Ok. unfold covers_projects.
  setoid_rewrite Hsum.
  split; intros Hall n l Hl; specialize (Hall n l Hl); pose proof (valid_lookup r n l Hr Hl); lia.
Qed.

(** A project takes no more than its organization. *)
Lemma projectAllocated_le T o p n :
  live_project T o p = true → projectAllocated T p n ≤ organizationAllocated T o n.
Proof.
  intros Hl. rewrite (organizationAllocated_split T o p) by done.
  pose proof (othersAllocated_nonneg T o p n). lia.
Qed.

Lemma azHeld_none T p n : (∀ c, projectAZs T p !! c = None) → azHeld T p n = 0.
Proof. intros Hnone%map_empty. unfold azHeld. rewrite Hnone. apply sum_map_empty. Qed.

Lemma lookup_quotasByProject T o p :
  quotasByProject (order_by String.le (map_to_list (projectQuotaRows T o))) !! p =
  pq_Resources <$> projectQuotaRows T o !! p.
Proof.
  pose proof (order_by_Permutation String.le (map_to_list (projectQuotaRows T o))) as Hperm.
  unfold quotasByProject. destruct (projectQuotaRows T o !! p) as [row|] eqn:Hrow; simpl.
  - apply (foldl_insert_in pq_Resources).
    + rewrite Hperm. apply NoDup_fst_map_to_list.
    + rewrite Hperm. by apply elem_of_map_to_list.
  - apply (foldl_insert_notin pq_Resources).
    rewrite Hperm. intros ([p' row] & -> & Hl%elem_of_map_to_list)%list_elem_of_fmap. naive_solver.
Qed.

Lemma projectQuotaRows_live T o p :
  tables_wf T → live_project T o p = true →
  pq_Resources <$> projectQuotaRows T o !! p = pq_Resources <$> projectQuotaRow T p.
Proof.
  intros Hwf Hl. f_equal. apply option_eq. intros row. rewrite lookup_projectQuotaRows.
  split; [naive_solver|]. intros Hrow. split_and!; [done| by eapply wf_project_org |done].
Qed.

(** ** Covering the AZ quotas *)

Definition coveredTables T s o r allocations : Tables :=
  (putOrganizationQuota o r
    (coverTo o (parsed r) (quotasByProject (order_by String.le (map_to_list (projectQuotaRows T o))))
      allocations (T, s))).1.

Lemma coveredTables_view T s o r allocations p :
  tables_wf T → live_project T o p = true →
  (∀ p, is_Some (allocations !! p) ↔ live_project T o p = true ∧ has_quotas T p) →
  projectView (coveredTables T s o r allocations) p =
    match completedQuota (parsed r) (default ∅ (allocations !! p)) (projectResources T p) with
    | Some r' => (Some (o, r'), (projectView T p).2)
    | None => projectView T p
    end.
Proof.
  intros Hwf Hl Hs. unfold coveredTables.
  change (projectView (putOrganizationQuota o r ?st).1 p) with (projectView st.1 p).
  rewrite view_coverTo. unfold coveredView. rewrite lookup_quotasByProject, projectQuotaRows_live by done.
  fold (projectResources T p). case_decide as Hal; [done|].
  assert (allocations !! p = None) as -> by by apply eq_None_not_Some. simpl.
  unfold completedQuota. rewrite decide_True; [done|]. apply map_eq. intros n.
  rewrite lookup_missingOf, lookup_empty. change (get ∅ n) with 0. by rewrite decide_False by lia.
Qed.

Lemma coveredTables_frame T s o r allocations :
  projects (coveredTables T s o r allocations) = projects T ∧
  ∀ o', organizationResources (coveredTables T s o r allocations) o' =
    if decide (o' = o) then r else organizationResources T o'.
Proof.
  unfold coveredTables. set (st := coverTo _ _ _ _ _).
  assert (frame st.1 = frame T) as Hf by apply frame_coverTo.
  split; [by injection Hf|]. intros o'. unfold organizationResources.
  assert (organizationQuotaRow st.1 o' = organizationQuotaRow T o') as <-
    by by apply organizationQuotaRow_frame.
  unfold organizationQuotaRow. simpl. case_decide.
  - subst. by rewrite lookup_insert_eq.
  - by rewrite lookup_insert_ne.
Qed.

(** A covered project: what it defined and, of the resources the organization limits, what its
    AZ quotas hold. *)
Lemma coveredTables_project T s o r allocations rows p :
  let T' := coveredTables T s o r allocations in
  tables_wf T → valid_quota r → live_project T o p = true →
  projectAllocationsOf T o = Ok (rows, allocations) → covers_projects T o (parsed r) →
  view_wf o (projectView T' p) ∧ projectAZs T' p = projectAZs T p ∧
  ∀ n, parsed (projectResources T' p) !! n =
    match parsed (projectResources T p) !! n with
    | Some v => Some v
    | None => if decide (is_Some (parsed r !! n) ∧ 0 < azHeld T p n)
              then Some (azHeld T p n) else None
    end.
Proof.
  intros T' Hwf Hr Hl Hal Hcov.
  destruct (sum_allocations T o Hwf) as (rows' & allocs' & Heq & _ & _ & Hs & Hg & _).
  rewrite Heq in Hal. injection Hal as -> ->.
  pose proof (coveredTables_view T s o r allocations p Hwf Hl Hs) as Hv. fold T' in Hv.
  assert (∀ n l, parsed r !! n = Some l →
    get (default ∅ (allocations !! p)) n = projectAllocated T p n ∧
    projectAllocated T p n < MaxInt64) as Hheld.
  { intros n l Hn. rewrite Hg by done. pose proof (valid_lookup r n l Hr Hn).
    pose proof (projectAllocated_le T o p n Hl). specialize (Hcov n l Hn). lia. }
  destruct (completedQuota_spec (parsed r) (default ∅ (allocations !! p)) (projectResources T p))
    as [Hvalid Hget]; [apply Hr| |by apply wf_project|].
  { intros n [l Hn]. destruct (Hheld n l Hn). lia. }
  assert (projectResources T' p = default (projectResources T p)
    (completedQuota (parsed r) (default ∅ (allocations !! p)) (projectResources T p))) as Hres.
  { rewrite projectResources_view, Hv.
    destruct (completedQuota _ _ _); simpl; [done|]. by rewrite projectResources_view. }
  split_and!.
  - rewrite Hv. pose proof (view_wf_live T o p Hwf Hl) as [Hq Haz].
    destruct (completedQuota _ _ _); simpl in *; [|done].
    split; simpl; [by intros ?? [= <- <-] | done].
  - rewrite !projectAZs_view, Hv. by destruct (completedQuota _ _ _).
  - intros n. rewrite Hres, Hget. destruct (parsed (projectResources T p) !! n) eqn:Hn; [done|].
    destruct (parsed r !! n) as [l|] eqn:Hlim;
      [|by rewrite !decide_False by (intros [[? [=]] _])].
    destruct (Hheld n l Hlim) as [-> _]. unfold projectAllocated.
    assert (get (parsed (projectResources T p)) n = 0) as -> by (unfold get; by rewrite Hn).
    pose proof (azHeld_nonneg T p n). by rewrite Z.max_r.
Qed.

(** Covering changes what no project takes of a limited resource. *)
Lemma coveredTables_allocated T s o r allocations rows p n l :
  let T' := coveredTables T s o r allocations in
  tables_wf T → valid_quota r → live_project T o p = true →
  projectAllocationsOf T o = Ok (rows, allocations) → covers_projects T o (parsed r) →
  parsed r !! n = Some l →
  azHeld T' p n = azHeld T p n ∧ projectAllocated T' p n = projectAllocated T p n.
Proof.
  intros T' Hwf Hr Hl Hal Hcov Hn.
  destruct (coveredTables_project T s o r allocations rows p Hwf Hr Hl Hal Hcov) as (_ & Haz & Hget).
  fold T' in Haz, Hget. assert (azHeld T' p n = azHeld T p n) as Hheld by (unfold azHeld; by rewrite Haz).
  split; [done|]. unfold projectAllocated. rewrite Hheld. specialize (Hget n).
  pose proof (azHeld_nonneg T p n). unfold get. rewrite Hget.
  destruct (parsed (projectResources T p) !! n) as [v|]; simpl; [done|].
  case_decide; simpl; lia.
Qed.

Lemma quotas_ok_cover T s o r allocations rows :
  quotas_ok T → valid_quota r → projectAllocationsOf T o = Ok (rows, allocations) →
  covers_projects T o (parsed r) → quotas_ok (coveredTables T s o r allocations).
Proof.
  intros [Hwf Hcap] Hr Hal Hcov. set (T' := coveredTables T s o r allocations).
  destruct (coveredTables_frame T s o r allocations) as [Hproj Horg]. fold T' in Hproj, Horg.
  assert (organizationResources T' o = r) as Ho by (by rewrite Horg, decide_True).
  apply (quotas_ok_local T T' o).
  - by split.
  - done.
  - intros p Hl. unfold T', coveredTables.
    change (projectView (putOrganizationQuota o r ?st).1 p) with (projectView st.1 p).
    rewrite view_coverTo, decide_False; [done|].
    destruct (sum_allocations T o Hwf) as (rows' & allocs' & Heq & _ & _ & Hs & _).
    rewrite Heq in Hal. injection Hal as -> ->. rewrite Hs, Hl. by intros [? _].
  - intros o' Hne. by rewrite Horg, decide_False.
  - by rewrite Ho.
  - intros p Hl. by eapply coveredTables_project.
  - intros n l. rewrite Ho. intros Hn. etrans; [|by apply (Hcov n l)].
    apply organizationAllocated_le; [done|]. intros p Hl.
    destruct (coveredTables_allocated T s o r allocations rows p n l) as [_ Hall]; [done..|].
    by apply Z.eq_le_incl.
  - intros p Hl n l. rewrite Ho.
    destruct (coveredTables_project T s o r allocations rows p) as (Hvwf & Haz & Hget); [done..|].
    fold T' in Hvwf, Haz, Hget.
    assert (valid_quota (projectResources T' p)) as Hpv.
    { rewrite projectResources_view. destruct Hvwf as [Hq _].
      destruct (projectView T' p).1 as [[o' r']|]; simpl; [by eapply Hq | apply valid_quota_empty]. }
    rewrite parsed_projectLimit, lookup_WithZeros, Hget by done.
    assert (azHeld T' p n = azHeld T p n) as -> by (unfold azHeld; by rewrite Haz).
    destruct (parsed (projectResources T p) !! n) as [v|] eqn:Hv.
    + intros [= <-]. apply (proj2 (Hcap o) p Hl n).
      rewrite parsed_projectLimit by (apply wf_organization || apply wf_project; done).
      by rewrite lookup_WithZeros, Hv.
    + case_decide as Hd; [by intros [= <-]|].
      destruct (parsed r !! n) as [l'|]; simpl; [|done]. intros [= <-].
      pose proof (azHeld_nonneg T p n). destruct (decide (0 < azHeld T p n)); [|lia].
      destruct Hd. split; [by eexists | done].
Qed.

(** ** Distributing the quota *)

Definition distributedTables AZs T s o r allocations : Tables :=
  (putOrganizationQuota o r
    (distributeTo AZs o (parsed r) allocations (liveProjectIds T o) (T, s))).1.

Lemma lookup_remainingShare limit allocations count n :
  (0 < count)%nat → in_range limit → in_range (sumAllocations allocations) →
  remainingShare limit allocations count !! n =
    (λ l, Z.max (l - get (sumAllocations allocations) n) 0 `div` Z.of_nat count) <$> limit !! n.
Proof.
  intros Hc Hl Hs. unfold remainingShare. rewrite lookup_SplitEqually by lia.
  rewrite lookup_Sub_exact by done. destruct (limit !! n) as [l|]; simpl; [|done].
  by rewrite Z.quot_div_nonneg by lia.
Qed.

(** The quota given to a project: its allocation plus an equal share of what remains. *)
Lemma distributedQuota_spec limit allocations count p :
  storable limit → map_Forall (λ _ q, in_range q) allocations → in_range (sumAllocations allocations) →
  (∀ n l, limit !! n = Some l →
    get (default ∅ (allocations !! p)) n ≤ get (sumAllocations allocations) n ≤ l) →
  (0 < count)%nat →
  let r := distributedQuota limit (remainingShare limit allocations count) allocations p in
  valid_quota r ∧
  ∀ n, parsed r !! n =
    (λ l, (l - get (sumAllocations allocations) n) `div` Z.of_nat count +
          get (default ∅ (allocations !! p)) n) <$> limit !! n.
Proof.
  intros Hl Hal Hs Hle Hc. set (held := default ∅ (allocations !! p)).
  assert (in_range held) as Hheld.
  { unfold held. destruct (allocations !! p) eqn:Hp; simpl; [by eapply Hal | apply in_range_empty]. }
  pose proof (storable_in_range _ Hl) as Hlr.
  set (q := Add (remainingShare limit allocations count) (Only held limit)).
  assert (∀ n, q !! n = (λ l, (l - get (sumAllocations allocations) n) `div` Z.of_nat count +
    get held n) <$> limit !! n) as Hq.
  { intros n. unfold q. rewrite lookup_Add, lookup_Only.
    pose proof (lookup_remainingShare limit allocations count n Hc Hlr Hs) as Hrem.
    destruct (limit !! n) as [l|] eqn:Hn; simpl in Hrem |- *; [|done].
    specialize (Hle n l Hn). fold held in Hle.
    rewrite Z.max_l in Hrem by lia. pose proof (in_range_get held n Hheld) as Hh.
    pose proof (Hl n l Hn) as [_ Hlb].
    assert (0 ≤ (l - get (sumAllocations allocations) n) `div` Z.of_nat count
      ≤ l - get (sumAllocations allocations) n) as Hd.
    { split; [apply Z.div_pos; lia|]. apply Z.div_le_upper_bound; [lia|]. nia. }
    destruct (held !! n) as [h|] eqn:Hhn; simpl.
    - assert (get held n = h) as Heq by (unfold get; by rewrite Hhn). rewrite Heq in *.
      unfold get at 1. rewrite Hrem. simpl. rewrite saturatingAdd_exact by lia.
      f_equal. apply Z.min_r. lia.
    - rewrite Hrem. f_equal. assert (get held n = 0) as -> by (unfold get; by rewrite Hhn). lia. }
  assert (storable q) as Hst.
  { intros n v. rewrite Hq. destruct (limit !! n) as [l|] eqn:Hn; simpl; [|done]. intros [= <-].
    pose proof (Hl n l Hn) as [? Hlb]. split; [done|]. specialize (Hle n l Hn). fold held in Hle.
    pose proof (in_range_get held n Hheld).
    assert (0 ≤ (l - get (sumAllocations allocations) n) `div` Z.of_nat count
      ≤ l - get (sumAllocations allocations) n).
    { split; [apply Z.div_pos; lia|]. apply Z.div_le_upper_bound; [lia|]. nia. }
    lia. }
  destruct (valid_toResources q Hst) as [Hv Hp]. cbn zeta. unfold distributedQuota. fold held. fold q.
  split; [done|]. by rewrite Hp.
Qed.

(** Whatever the project and the number of shares, the quota to distribute parses. *)
Lemma distributedQuota_parses T o r rows allocations count p :
  tables_wf T → valid_quota r → projectAllocationsOf T o = Ok (rows, allocations) →
  covers_projects T o (parsed r) →
  parses (distributedQuota (parsed r) (remainingShare (parsed r) allocations count) allocations p).
Proof.
  intros Hwf Hr Hal Hcov.
  destruct (sum_allocations T o Hwf) as (rows' & allocs' & Heq & _ & Hin & Hs & Hg & Hsin & Hsum & _).
  rewrite Heq in Hal. injection Hal as -> ->.
  assert (∀ n l, parsed r !! n = Some l →
    get (default ∅ (allocations !! p)) n ≤ get (sumAllocations allocations) n ≤ l) as Hle.
  { intros n l Hn. rewrite Hsum. specialize (Hcov n l Hn). split; [|lia].
    destruct (allocations !! p) as [q|] eqn:Hp; simpl.
    - destruct (proj1 (Hs p) (mk_is_Some _ _ Hp)) as [Hl _].
      pose proof (Hg p n Hl) as Hget. rewrite Hp in Hget. simpl in Hget. rewrite Hget.
      pose proof (projectAllocated_le T o p n Hl). lia.
    - change (get ∅ n) with 0. apply Z.min_glb; [done|].
      apply sum_map_nonneg. intros. apply projectAllocated_nonneg. }
  destruct (decide (count = 0%nat)) as [->|Hc].
  - unfold distributedQuota, remainingShare. change (SplitEqually _ (Z.of_nat 0)) with (∅ : Quantities).
    apply valid_toResources. intros n v. rewrite lookup_Add, lookup_Only.
    change (get ∅ n) with 0. rewrite lookup_empty.
    destruct (parsed r !! n) as [l|] eqn:Hn; [|done].
    specialize (Hle n l Hn). destruct Hr as [_ Hst]. apply Hst in Hn as [? Hl].
    set (held := default ∅ (allocations !! p)) in *.
    assert (in_range held) as Hheld.
    { unfold held. destruct (allocations !! p) eqn:Hp; simpl; [by eapply Hin | apply in_range_empty]. }
    pose proof (in_range_get held n Hheld) as Hget. unfold get in Hle, Hget.
    simpl. destruct (held !! n) as [h|]; simpl in Hget, Hle |- *; [|done]. intros [= <-].
    split; [done|]. rewrite saturatingAdd_exact by (unfold MaxInt64 in *; lia). unfold get in Hle. lia.
  - apply distributedQuota_spec; [apply Hr | done | done | done | lia].
Qed.

Lemma liveProjectIds_length T o :
  length (liveProjectIds T o) = length (map_to_list (liveProjects T o)).
Proof.
  unfold liveProjectIds, sorted_keys. fold (liveProjects T o).
  by rewrite sort_strings_Permutation, length_fmap.
Qed.

Lemma distributedTables_view AZs T s o r allocations p :
  live_project T o p = true →
  projectView (distributedTables AZs T s o r allocations) p =
    savedView AZs o (distributedQuota (parsed r)
      (remainingShare (parsed r) allocations (length (liveProjectIds T o))) allocations p)
      (bool_decide (is_Some (allocations !! p))) (projectView T p).
Proof.
  intros Hl. unfold distributedTables.
  change (projectView (putOrganizationQuota o r ?st).1 p) with (projectView st.1 p).
  rewrite view_distributeTo by apply sorted_keys_NoDup.
  by rewrite decide_True by by apply elem_of_liveProjectIds.
Qed.

Lemma distributedTables_frame AZs T s o r allocations :
  projects (distributedTables AZs T s o r allocations) = projects T ∧
  ∀ o', organizationResources (distributedTables AZs T s o r allocations) o' =
    if decide (o' = o) then r else organizationResources T o'.
Proof.
  unfold distributedTables. set (st := distributeTo _ _ _ _ _ _).
  assert (frame st.1 = frame T) as Hf by apply frame_distributeTo.
  split; [by injection Hf|]. intros o'. unfold organizationResources.
  assert (organizationQuotaRow st.1 o' = organizationQuotaRow T o') as <-
    by by apply organizationQuotaRow_frame.
  unfold organizationQuotaRow. simpl. case_decide.
  - subst. by rewrite lookup_insert_eq.
  - by rewrite lookup_insert_ne.
Qed.

(** What each project is given, when none had a quota. *)
Lemma distributedTables_project AZs T s o r allocations p :
  let T' := distributedTables AZs T s o r allocations in
  quotas_ok T → loaded AZs → valid_quota r → live_project T o p = true →
  projectAllocationsOf T o = Ok ([], allocations) → covers_projects T o (parsed r) →
  view_wf o (projectView T' p) ∧
  (∀ n, parsed (projectResources T' p) !! n =
    (λ l, (l - organizationAllocated T o n) `div` Z.of_nat (length (liveProjectIds T o)) +
          projectAllocated T p n) <$> parsed r !! n) ∧
  ∀ n l, parsed r !! n = Some l → azHeld T' p n ≤ get (parsed (projectResources T' p)) n.
Proof.
  intros T' [Hwf Hcap] Hloaded Hr Hl Hal Hcov.
  destruct (sum_allocations T o Hwf) as (rows' & allocs' & Heq & _ & Hin & Hs & Hg & Hsin & Hsum & _).
  rewrite Heq in Hal. injection Hal as -> ->.
  assert (0 < length (liveProjectIds T o))%nat as Hcount.
  { apply elem_of_liveProjectIds in Hl. destruct (liveProjectIds T o); [set_solver | simpl; lia]. }
  assert (∀ n l, parsed r !! n = Some l →
    get (default ∅ (allocations !! p)) n = projectAllocated T p n ∧
    get (sumAllocations allocations) n = organizationAllocated T o n ∧
    projectAllocated T p n ≤ organizationAllocated T o n ≤ l) as Hbounds.
  { intros n l Hn. rewrite Hg, Hsum by done. pose proof (valid_lookup r n l Hr Hn).
    pose proof (projectAllocated_le T o p n Hl). specialize (Hcov n l Hn). lia. }
  destruct (distributedQuota_spec (parsed r) allocations (length (liveProjectIds T o)) p)
    as [Hvalid Hget]; [apply Hr | done | done | | done |].
  { intros n l Hn. destruct (Hbounds n l Hn) as (-> & -> & ?). done. }
  pose proof (distributedTables_view AZs T s o r allocations p Hl) as Hv. fold T' in Hv.
  assert (bool_decide (is_Some (allocations !! p)) = false → (projectView T p).2 = ∅) as Hempty.
  { rewrite bool_decide_eq_false, Hs. intros Hno. apply map_eq. intros c. rewrite lookup_empty.
    apply eq_None_not_Some. intros Hc. apply Hno. split; [done|]. right. by exists c. }
  assert (∀ n, parsed (projectResources T' p) !! n =
    (λ l, (l - organizationAllocated T o n) `div` Z.of_nat (length (liveProjectIds T o)) +
          projectAllocated T p n) <$> parsed r !! n) as Hres.
  { intros n. rewrite projectResources_view, Hv. simpl. rewrite Hget.
    destruct (parsed r !! n) as [l|] eqn:Hn; simpl; [|done]. by destruct (Hbounds n l Hn) as (-> & -> & _). }
  split_and!; [| done |].
  - rewrite Hv. by apply savedView_wf; [done|done|apply view_wf_live|].
  - intros n l Hn. unfold get. rewrite Hres, Hn. simpl. unfold azHeld. rewrite projectAZs_view, Hv.
    apply savedView_held; [done|done| |].
    + fold (azHeld T p n). unfold heldOf. rewrite <-projectAZs_view. fold (azHeld T p n).
      destruct (Hbounds n l Hn) as (_ & _ & Hb).
      assert (0 ≤ (l - organizationAllocated T o n) `div` Z.of_nat (length (liveProjectIds T o)))
        by (apply Z.div_pos; lia).
      unfold projectAllocated. lia.
    + unfold get. rewrite Hget, Hn. simpl. by destruct (Hbounds n l Hn) as (-> & -> & _).
Qed.

Lemma sum_map_const {V} (c : Z) (m : gmap string V) :
  sum_map (λ _ _, c) m = Z.of_nat (length (map_to_list m)) * c.
Proof. unfold sum_map. apply zsum_map_const. Qed.

(** What the organization has allocated once its quota is distributed. *)
Lemma distributedTables_allocated AZs T s o r allocations n l :
  let T' := distributedTables AZs T s o r allocations in
  let count := Z.of_nat (length (liveProjectIds T o)) in
  quotas_ok T → loaded AZs → valid_quota r →
  projectAllocationsOf T o = Ok ([], allocations) → covers_projects T o (parsed r) →
  parsed r !! n = Some l →
  organizationAllocated T' o n =
    count * ((l - organizationAllocated T o n) `div` count) + organizationAllocated T o n.
Proof.
  intros T' count Hok Hloaded Hr Hal Hcov Hn.
  destruct (distributedTables_frame AZs T s o r allocations) as [Hproj _]. fold T' in Hproj.
  set (c := (l - organizationAllocated T o n) `div` count).
  transitivity (sum_map (λ p _, c + projectAllocated T p n) (liveProjects T o)).
  { unfold organizationAllocated at 1, liveProjects, live_project. rewrite Hproj.
    apply sum_map_ext. intros p x [_ Hl]%map_lookup_filter_Some.
    destruct (distributedTables_project AZs T s o r allocations p) as (_ & Hget & Hheld); [done..|].
    fold T' in Hget, Hheld. specialize (Hheld n l Hn). unfold projectAllocated at 1.
    rewrite Z.max_l by done. unfold get. by rewrite Hget, Hn. }
  by rewrite sum_map_add, sum_map_const, <-liveProjectIds_length.
Qed.

Lemma quotas_ok_distribute AZs T s o r allocations :
  quotas_ok T → loaded AZs → valid_quota r →
  projectAllocationsOf T o = Ok ([], allocations) →
  covers_projects T o (parsed r) → quotas_ok (distributedTables AZs T s o r allocations).
Proof.
  intros Hok Hloaded Hr Hal Hcov. set (T' := distributedTables AZs T s o r allocations).
  destruct (distributedTables_frame AZs T s o r allocations) as [Hproj Horg]. fold T' in Hproj, Horg.
  assert (organizationResources T' o = r) as Ho by (by rewrite Horg, decide_True).
  apply (quotas_ok_local T T' o).
  - done.
  - done.
  - intros p Hl. unfold T', distributedTables.
    change (projectView (putOrganizationQuota o r ?st).1 p) with (projectView st.1 p).
    rewrite view_distributeTo by apply sorted_keys_NoDup.
    rewrite decide_False; [done|]. rewrite elem_of_liveProjectIds. congruence.
  - intros o' Hne. by rewrite Horg, decide_False.
  - by rewrite Ho.
  - intros p Hl. by apply (distributedTables_project AZs T s o r allocations p).
  - intros n l. rewrite Ho. intros Hn.
    pose proof (distributedTables_allocated AZs T s o r allocations n l Hok Hloaded Hr Hal Hcov Hn)
      as Hsum. fold T' in Hsum. rewrite Hsum.
    specialize (Hcov n l Hn).
    destruct (decide (length (liveProjectIds T o) = 0)%nat) as [->|]; [lia|].
    pose proof (Z.mul_div_le (l - organizationAllocated T o n)
      (Z.of_nat (length (liveProjectIds T o)))). lia.
  - intros p Hl n l. rewrite Ho.
    destruct (distributedTables_project AZs T s o r allocations p) as (Hvwf & Hget & Hheld); [done..|].
    fold T' in Hvwf, Hget, Hheld.
    assert (valid_quota (projectResources T' p)) as Hpv.
    { rewrite projectResources_view. destruct Hvwf as [Hq _].
      destruct (projectView T' p).1 as [[o' r']|]; simpl; [by eapply Hq | apply valid_quota_empty]. }
    rewrite parsed_projectLimit by done. intros Hn. rewrite (effective_le _ _ _ _ Hn).
    rewrite lookup_WithZeros, Hget in Hn. destruct (parsed r !! n) as [l'|] eqn:Hn'; [|done].
    by apply (Hheld n l').
Qed.
End organization.
