(* ===== verification/QuotaDeletes.v ===== *)
(** * Deletions and creations

    What deleting a quota, a project or an organization, or creating a project, does to the
    levels, and that it keeps the invariant: a level that disappears frees capacity. *)

From S2P Require Import Prelude Errors Quantity QuotaResources Database AZConfig.
From S2P Require Import Hierarchical QuotaSpec QuotaRules.
From S2P Require Import QuotaRules QuotaWrites.
(** ** Giving new revisions *)
Section bump.
Context {K V : Type} `{Countable K}.
Implicit Types (selected : K → V → bool) (set_revision : Z → V → V) (rows : gmap K V).

Lemma bumpRows_spec selected set_revision rows s :
  let '(rows', s') := bumpRows selected set_revision rows s in
  s ≤ s' ∧ ∀ k, match rows !! k with
    | None => rows' !! k = None
    | Some row =>
      if selected k row then ∃ rev, s < rev ≤ s' ∧ rows' !! k = Some (set_revision rev row)
      else rows' !! k = Some row
    end.
Proof.
  unfold bumpRows. set (step := λ k row '(rows, s), if selected k row
      then (<[k:=set_revision (s + 1) row]> rows, s + 1) else (rows, s)).
  assert (∀ m, s ≤ (map_fold step (rows, s) m).2 ∧ ∀ k, match m !! k with
    | None => (map_fold step (rows, s) m).1 !! k = rows !! k
    | Some row =>
      if selected k row
      then ∃ rev, s < rev ≤ (map_fold step (rows, s) m).2 ∧
        (map_fold step (rows, s) m).1 !! k = Some (set_revision rev row)
      else (map_fold step (rows, s) m).1 !! k = rows !! k
    end) as Hall.
  { apply (map_fold_weak_ind (λ r m, s ≤ r.2 ∧ ∀ k, match m !! k with
      | None => r.1 !! k = rows !! k
      | Some row => if selected k row
          then ∃ rev, s < rev ≤ r.2 ∧ r.1 !! k = Some (set_revision rev row)
          else r.1 !! k = rows !! k
      end)); simpl.
    { split; [done|]. intros k. by rewrite lookup_empty. }
    intros k row m [rows' s'] Hk [Hs Hl]. simpl in *.
    destruct (selected k row) eqn:Hsel; simpl; (split; [lia|]); intros k'; specialize (Hl k');
      (destruct (decide (k' = k)) as [->|Hne];
        [rewrite lookup_insert_eq, Hsel | rewrite lookup_insert_ne by done]).
    - exists (s' + 1). split; [lia|]. apply lookup_insert_eq.
    - rewrite lookup_insert_ne by done. destruct (m !! k') as [v|]; [|done].
      destruct (selected k' v); [|done]. destruct Hl as (rev & ? & ?). exists rev. split; [lia|done].
    - by rewrite Hk in Hl.
    - done. }
  destruct (Hall rows) as [Hs Hl]. destruct (map_fold step (rows, s) rows) as [rows' s'].
  split; [done|]. intros k. specialize (Hl k). simpl in Hl. destruct (rows !! k) as [v|] eqn:Hk; [|done].
  destruct (selected k v); [done|]. by rewrite Hl.
Qed.
End bump.

(** ** The deletions as functions *)
Section deletes.
Context {QL : QuantityLib} {C : Type}.
Implicit Types (o p : uuid) (st : Tables * Z).

Definition bumpAZQuotas o st : Tables * Z :=
  let '(T, s) := st in
  let '(rows, s) := bumpRows
    (λ '(p, _) row, live_project T o p && negb (aq_Deleted row))
    (λ rev row, mkProjectAZQuota (aq_Resources row) rev (aq_Deleted row))
    (project_az_quotas T) s in
  (set_project_az_quotas (λ _, rows) T, s).

Definition bumpProjectQuotas o st : Tables * Z :=
  let '(T, s) := st in
  let '(rows, s) := bumpRows
    (λ _ row, bool_decide (pq_OrganizationId row = o) && negb (pq_Deleted row))
    (λ rev row, mkProjectQuota (pq_OrganizationId row) (pq_Resources row) rev (pq_Deleted row))
    (project_quotas T) s in
  (set_project_quotas (λ _, rows) T, s).

Definition dropOrganizationQuota o st : Tables * Z :=
  (set_organization_quotas (delete o) st.1, st.2).

Definition dropProjectRows p st : Tables * Z :=
  (set_project_quotas (delete p)
    (set_project_az_quotas (filter (λ '((p', _), _), p' ≠ p)) st.1), st.2).

Definition dropOrganizationRows o st : Tables * Z :=
  (set_organization_quotas (delete o)
    (set_project_quotas (filter (λ '(_, row), pq_OrganizationId row ≠ o))
      (set_project_az_quotas (filter (λ '((p, _), _), project_of st.1 o p = false)) st.1)), st.2).

#[export] Instance writes_bumpOrganizationRevisions o :
  Writes (C:=C) (bumpOrganizationRevisions o)
    (λ st, (tt, bumpProjectQuotas o (bumpAZQuotas o st))).
Proof.
  unfold bumpOrganizationRevisions. eapply writes_ext; [apply _|]. intros [T s]. simpl.
  destruct (bumpRows _ _ (project_az_quotas T) s) as [rows s']. simpl.
  by destruct (bumpRows _ _ (project_quotas T) s') as [rows' s''].
Qed.

#[export] Instance writes_deleteProjectRows p :
  Writes (C:=C) (deleteProjectRows p) (λ st, (tt, dropProjectRows p st)).
Proof. eapply writes_ext; [apply _|]. by intros [T s]. Qed.

(** ** What the deletions change *)

(** Rows that differ by their revisions only show the same levels. *)
Lemma view_revisions T T' p :
  (λ row, (pq_OrganizationId row, pq_Resources row, pq_Deleted row)) <$> project_quotas T' !! p =
  (λ row, (pq_OrganizationId row, pq_Resources row, pq_Deleted row)) <$> project_quotas T !! p →
  (∀ c, (λ row, (aq_Resources row, aq_Deleted row)) <$> project_az_quotas T' !! (p, c) =
    (λ row, (aq_Resources row, aq_Deleted row)) <$> project_az_quotas T !! (p, c)) →
  projectView T' p = projectView T p.
Proof.
  intros Hpq Haz. unfold projectView, projectQuotaRow. f_equal.
  - destruct (project_quotas T' !! p) as [row'|], (project_quotas T !! p) as [row|];
      try done; injection Hpq as Ho Hr Hd. simpl. rewrite Hd. destruct (pq_Deleted row); [done|].
    simpl. by rewrite Ho, Hr.
  - apply map_eq. intros c. rewrite !lookup_projectAZs. specialize (Haz c).
    destruct (project_az_quotas T' !! (p, c)) as [row'|], (project_az_quotas T !! (p, c)) as [row|];
      try done; injection Haz as Hr Hd. simpl. by rewrite Hd, Hr.
Qed.

Lemma view_bumpProjectQuotas o st p :
  projectView (bumpProjectQuotas o st).1 p = projectView st.1 p.
Proof.
  destruct st as [T s]. unfold bumpProjectQuotas.
  pose proof (bumpRows_spec
    (λ _ row, bool_decide (pq_OrganizationId row = o) && negb (pq_Deleted row))
    (λ rev row, mkProjectQuota (pq_OrganizationId row) (pq_Resources row) rev (pq_Deleted row))
    (project_quotas T) s) as Hb.
  destruct (bumpRows _ _ _ _) as [rows s']. destruct Hb as [_ Hb].
  apply view_revisions; simpl; [|done]. specialize (Hb p).
  destruct (project_quotas T !! p) as [row|]; [|by rewrite Hb].
  destruct (_ && _); [destruct Hb as (rev & _ & ->) | rewrite Hb]; done.
Qed.

Lemma view_bumpAZQuotas o st p : projectView (bumpAZQuotas o st).1 p = projectView st.1 p.
Proof.
  destruct st as [T s]. unfold bumpAZQuotas.
  pose proof (bumpRows_spec
    (λ '(p, _) row, live_project T o p && negb (aq_Deleted row))
    (λ rev row, mkProjectAZQuota (aq_Resources row) rev (aq_Deleted row))
    (project_az_quotas T) s) as Hb.
  destruct (bumpRows _ _ _ _) as [rows s']. destruct Hb as [_ Hb].
  apply view_revisions; simpl; [done|]. intros c. specialize (Hb (p, c)).
  destruct (project_az_quotas T !! (p, c)) as [row|]; [|by rewrite Hb].
  destruct (_ && _); [destruct Hb as (rev & _ & ->) | rewrite Hb]; done.
Qed.

(** Bumping keeps every other table, and only moves the sequence forward. *)
Lemma frame_bump o st :
  frame (bumpProjectQuotas o (bumpAZQuotas o st)).1 = frame st.1.
Proof.
  destruct st as [T s]. unfold bumpProjectQuotas, bumpAZQuotas.
  destruct (bumpRows _ _ (project_az_quotas T) s) as [rows s'].
  by destruct (bumpRows _ _ (project_quotas _) s') as [rows' s''].
Qed.

Lemma view_dropProjectRows p st p' :
  projectView (dropProjectRows p st).1 p' =
  if decide (p' = p) then (None, ∅) else projectView st.1 p'.
Proof.
  unfold projectView, projectQuotaRow. simpl. case_decide as Hp.
  - subst. rewrite lookup_delete_eq. f_equal. apply map_eq. intros c.
    rewrite lookup_projectAZs, lookup_empty. simpl.
    rewrite map_lookup_filter_None_2; [done|]. right. by intros ? _ [].
  - rewrite lookup_delete_ne by done. f_equal. apply map_eq. intros c.
    rewrite !lookup_projectAZs. simpl. f_equal. apply option_eq. intros row.
    rewrite map_lookup_filter_Some. naive_solver.
Qed.

Lemma view_dropOrganizationRows o st p :
  projectView (dropOrganizationRows o st).1 p =
  (if decide (fst <$> (projectView st.1 p).1 = Some o) then None else (projectView st.1 p).1,
   if project_of st.1 o p then ∅ else (projectView st.1 p).2).
Proof.
  unfold projectView, projectQuotaRow. simpl. f_equal.
  - destruct (project_quotas st.1 !! p) as [row|] eqn:Hrow; simpl.
    + destruct (decide (pq_OrganizationId row = o)) as [Ho|Ho].
      * rewrite map_lookup_filter_None_2 by (right; intros ??; simplify_eq; naive_solver).
        simpl. destruct (pq_Deleted row); simpl; [done | by rewrite decide_True by congruence].
      * assert (filter (λ '(_, row), pq_OrganizationId row ≠ o) (project_quotas st.1) !! p = Some row)
          as -> by by apply map_lookup_filter_Some.
        simpl. destruct (pq_Deleted row); simpl; [done | by rewrite decide_False by congruence].
    + by rewrite map_lookup_filter_None_2 by by left.
  - apply map_eq. intros c. rewrite lookup_projectAZs. simpl.
    destruct (project_of st.1 o p) eqn:Hp.
    + rewrite lookup_empty, map_lookup_filter_None_2; [done|]. right. intros ? _. congruence.
    + rewrite lookup_projectAZs. f_equal. apply option_eq. intros row.
      rewrite map_lookup_filter_Some. naive_solver.
Qed.
End deletes.

(** ** Levels that disappear *)
Section shrink.
Context {QL : QuantityLib} {QLaws : QuantityLaws QL}.
Implicit Types (T : Tables) (o p : uuid) (n : string).

(** Every level of [T'] is the one of [T], or is gone; a project only loses its quota with its
    AZ quotas. *)
Record shrinks T T' : Prop := {
  shrinks_live o p : live_project T' o p = true →
    live_project T o p = true ∨ projectView T' p = (None, ∅);
  shrinks_organization o :
    organizationResources T' o = organizationResources T o ∨ organizationResources T' o = ∅;
  shrinks_azs p : projectAZs T' p = projectAZs T p ∨ projectAZs T' p = ∅;
  shrinks_project o p :
    (projectView T' p).1 = (projectView T p).1 ∨
    (projectView T' p).1 = None ∧ (live_project T' o p = true → projectAZs T' p = ∅);
}.

Lemma azHeld_empty T p n : projectAZs T p = ∅ → azHeld T p n = 0.
Proof. intros He. unfold azHeld. rewrite He. apply sum_map_empty. Qed.

Lemma shrinks_held T T' p n : shrinks T T' → azHeld T' p n ≤ azHeld T p n.
Proof.
  intros Hs. pose proof (azHeld_nonneg T p n). destruct (shrinks_azs T T' Hs p) as [He|He].
  - unfold azHeld. by rewrite He.
  - by rewrite (azHeld_empty T').
Qed.

Lemma shrinks_resources T T' p :
  shrinks T T' → projectResources T' p = projectResources T p ∨ projectResources T' p = ∅.
Proof.
  intros Hs. rewrite !projectResources_view. destruct (shrinks_project T T' Hs EmptyString p)
    as [->|[-> _]]; auto.
Qed.

Lemma shrinks_allocated T T' p n : shrinks T T' → projectAllocated T' p n ≤ projectAllocated T p n.
Proof.
  intros Hs. unfold projectAllocated. pose proof (shrinks_held T T' p n Hs).
  pose proof (get_parsed_nonneg (projectResources T p) n).
  destruct (shrinks_resources T T' p Hs) as [->| ->]; [lia|].
  rewrite parsed_empty. change (get ∅ n) with 0. lia.
Qed.

Lemma shrinks_ok T T' : shrinks T T' → quotas_ok T → quotas_ok T'.
Proof.
  intros Hs [Hwf Hcap]. split; [split|].
  - intros o. destruct (shrinks_organization T T' Hs o) as [->| ->];
      [by apply wf_organization | apply valid_quota_empty].
  - intros p. destruct (shrinks_resources T T' p Hs) as [->| ->];
      [by apply wf_project | apply valid_quota_empty].
  - intros p c r. destruct (shrinks_azs T T' Hs p) as [->| ->]; [by apply wf_az | done].
  - intros o p row Hl Hrow. assert ((projectView T' p).1 = Some (pq_OrganizationId row, pq_Resources row))
      as Hv by (simpl; by rewrite Hrow).
    destruct (shrinks_live T T' Hs o p Hl) as [Hl'|Hno]; [|by rewrite Hno in Hv].
    destruct (shrinks_project T T' Hs o p) as [Heq|[Hno _]]; [|congruence].
    rewrite Heq in Hv. simpl in Hv. destruct (projectQuotaRow T p) as [row'|] eqn:Hrow'; [|done].
    injection Hv as <- _. by eapply wf_project_org.
  - intros o. split.
    + intros n l Hl. destruct (shrinks_organization T T' Hs o) as [Heq|Heq]; rewrite Heq in Hl;
        [|by rewrite parsed_empty, lookup_empty in Hl].
      etrans; [|by apply (proj1 (Hcap o) n l)]. apply sum_map_mono.
      { intros. apply projectAllocated_nonneg. }
      intros p x Hx. assert (live_project T' o p = true) as Hlv by (apply lookup_liveProjects; eauto).
      destruct (shrinks_live T T' Hs o p Hlv) as [[y Hy]%lookup_liveProjects|Hno].
      * right. exists y. split; [done|]. by apply shrinks_allocated.
      * left. unfold projectAllocated. rewrite azHeld_empty by (by rewrite projectAZs_view, Hno).
        rewrite projectResources_view, Hno. done.
    + intros p Hl n l Hn.
      assert (projectAZs T' p = ∅ → azHeld T' p n ≤ l) as Hempty.
      { intros He. rewrite azHeld_empty by done.
        apply (in_range_lookup _ n l (parsed_in_range _) Hn). }
      destruct (shrinks_azs T T' Hs p) as [Haz|Haz]; [|auto].
      destruct (shrinks_live T T' Hs o p Hl) as [Hl'|Hno];
        [|apply Hempty; by rewrite projectAZs_view, Hno].
      destruct (shrinks_project T T' Hs o p) as [Hq|[_ He]]; [|auto].
      assert (azHeld T' p n = azHeld T p n) as -> by (unfold azHeld; by rewrite Haz).
      assert (projectResources T' p = projectResources T p) as Hres
        by by rewrite !projectResources_view, Hq.
      apply (proj2 (Hcap o) p Hl'). rewrite Hres in Hn.
      pose proof (wf_organization T Hwf o). pose proof (wf_project T Hwf p).
      destruct (shrinks_organization T T' Hs o) as [Ho|Ho]; rewrite Ho in Hn; [done|].
      rewrite parsed_projectLimit in Hn |- * by (done || apply valid_quota_empty).
      rewrite lookup_WithZeros in Hn |- *. rewrite parsed_empty, lookup_empty in Hn.
      by destruct (parsed (projectResources T p) !! n).
Qed.

(** ** The deletions shrink *)

Lemma shrinks_views T T' :
  (∀ o p, live_project T' o p = true → live_project T o p = true) →
  (∀ o, organizationResources T' o = organizationResources T o ∨ organizationResources T' o = ∅) →
  (∀ p, projectView T' p = projectView T p ∨ projectView T' p = (None, ∅)) →
  shrinks T T'.
Proof.
  intros Hl Ho Hv. split; auto.
  - intros p. rewrite !projectAZs_view. destruct (Hv p) as [->| ->]; auto.
  - intros o p. destruct (Hv p) as [->|Hno]; [by left|]. right. by rewrite projectAZs_view, Hno.
Qed.

Lemma organizationResources_delete T o o' :
  organizationResources (set_organization_quotas (delete o) T) o' =
  if decide (o' = o) then ∅ else organizationResources T o'.
Proof.
  unfold organizationResources, organizationQuotaRow. simpl. case_decide as Ho.
  - subst. by rewrite lookup_delete_eq.
  - by rewrite lookup_delete_ne.
Qed.

Lemma shrinks_DeleteOrganizationQuota o T s :
  shrinks T (bumpProjectQuotas o (bumpAZQuotas o (dropOrganizationQuota o (T, s)))).1.
Proof.
  set (T' := (bumpProjectQuotas _ _).1).
  assert (frame T' = frame (dropOrganizationQuota o (T, s)).1) as Hf by apply frame_bump.
  apply shrinks_views.
  - intros o' p. rewrite (live_project_frame (dropOrganizationQuota o (T, s)).1 T') by done. done.
  - intros o'. assert (organizationResources T' o' =
      organizationResources (dropOrganizationQuota o (T, s)).1 o') as ->
      by (unfold organizationResources; by rewrite (organizationQuotaRow_frame _ T' o' Hf)).
    unfold dropOrganizationQuota. simpl. rewrite organizationResources_delete. case_decide; auto.
  - intros p. left. unfold T'. by rewrite view_bumpProjectQuotas, view_bumpAZQuotas.
Qed.

Lemma shrinks_dropProjectRows p T s : shrinks T (dropProjectRows p (T, s)).1.
Proof.
  apply shrinks_views; [done|by left|]. intros p'. rewrite view_dropProjectRows. case_decide; auto.
Qed.

Lemma live_soft_deleted T p o p' :
  live_project (set_projects (alter soft_delete_project p) T) o p' = true →
  live_project T o p' = true ∧ p' ≠ p.
Proof.
  unfold live_project. simpl. destruct (decide (p' = p)) as [->|Hne].
  - rewrite lookup_alter_eq. destruct (projects T !! p); simpl; [|done].
    by rewrite andb_false_r.
  - by rewrite lookup_alter_ne.
Qed.

Lemma shrinks_softDelete p T : shrinks T (set_projects (alter soft_delete_project p) T).
Proof.
  apply shrinks_views; [|by left|by left]. intros o p' Hl. by apply live_soft_deleted in Hl as [? _].
Qed.

Lemma shrinks_dropOrganizationRows o T s :
  tables_wf T → shrinks T (dropOrganizationRows o (T, s)).1.
Proof.
  intros Hwf. set (T' := (dropOrganizationRows o (T, s)).1).
  assert (∀ p, projectView T' p =
    (if decide (fst <$> (projectView T p).1 = Some o) then None else (projectView T p).1,
     if project_of T o p then ∅ else (projectView T p).2)) as Hv
    by (intros; apply (view_dropOrganizationRows o (T, s))).
  split.
  - by left.
  - intros o'. unfold T', dropOrganizationRows. simpl. rewrite organizationResources_delete.
    case_decide; auto.
  - intros p. rewrite !projectAZs_view, Hv. simpl. destruct (project_of T o p); auto.
  - intros o' p. rewrite projectAZs_view, Hv. simpl. case_decide as Hq; [right|by left].
    split; [done|]. intros Hl. destruct (projectQuotaRow T p) as [row|] eqn:Hrow; [|done].
    simpl in Hq. assert (o' = o) as ->.
    { rewrite <-(wf_project_org T Hwf o' p row Hl Hrow). congruence. }
    unfold live_project in Hl. simpl in Hl. unfold project_of.
    destruct (projects T !! p); [|done]. by apply andb_true_iff in Hl as [-> _].
Qed.

Lemma shrinks_softDeleteAll o T :
  shrinks T (set_projects (fmap (λ p : Project,
    if decide (p_OrgaId p = o) then soft_delete_project p else p)) T).
Proof.
  apply shrinks_views; [|by left|by left]. intros o' p. unfold live_project. simpl.
  rewrite lookup_fmap. destruct (projects T !! p) as [row|]; simpl; [|done].
  case_decide; simpl; [by rewrite andb_false_r | done].
Qed.

(** The tables the quotas do not depend on. *)
Lemma quotas_ok_same T T' :
  projects T' = projects T → organization_quotas T' = organization_quotas T →
  project_quotas T' = project_quotas T → project_az_quotas T' = project_az_quotas T →
  quotas_ok T → quotas_ok T'.
Proof.
  intros Hp Ho Hpq Haz. apply shrinks_ok, shrinks_views.
  - intros o p. unfold live_project. by rewrite Hp.
  - left. unfold organizationResources, organizationQuotaRow. by rewrite Ho.
  - left. apply view_revisions; [by rewrite Hpq | by rewrite Haz].
Qed.

(** Without any quota, there is nothing to fit. *)
Lemma quotas_ok_no_quotas T :
  organization_quotas T = ∅ → project_quotas T = ∅ → project_az_quotas T = ∅ → quotas_ok T.
Proof.
  intros Ho Hpq Haz.
  assert (∀ p, projectView T p = (None, ∅)) as Hv.
  { intros p. unfold projectView, projectQuotaRow. rewrite Hpq, lookup_empty. simpl. f_equal.
    apply map_eq. intros c. by rewrite lookup_projectAZs, Haz, !lookup_empty. }
  assert (∀ o, organizationResources T o = ∅) as Horg.
  { intros o. unfold organizationResources, organizationQuotaRow. by rewrite Ho, lookup_empty. }
  assert (∀ p, projectResources T p = ∅) as Hres by (intros p; by rewrite projectResources_view, Hv).
  split; [split|].
  - intros o. rewrite Horg. apply valid_quota_empty.
  - intros p. rewrite Hres. apply valid_quota_empty.
  - intros p c r. by rewrite projectAZs_view, Hv.
  - intros o p row _ Hrow. specialize (Hv p). unfold projectView in Hv. by rewrite Hrow in Hv.
  - intros o. split; intros n.
    + intros l. by rewrite Horg, parsed_empty, lookup_empty.
    + intros _ name l. rewrite Horg, Hres, parsed_projectLimit by apply valid_quota_empty.
      by rewrite lookup_WithZeros, parsed_empty, lookup_empty.
Qed.
End shrink.
