(* ===== verification/QuotaInvariant.v ===== *)
(** * The quota writes as operations

    From a successful run of each write of [Hierarchical], the checks that passed and the tables
    it leaves; from a failed one, that nothing changed in the database. *)

From S2P Require Import Prelude Quantity Errors QuotaResources Database AZConfig Hierarchical.
From S2P Require Import QuotaSpec QuotaRules QuotaWrites QuotaOrganization.
From S2P Require Import QuotaDeletes.

Section transactions.
Context {QL : QuantityLib} {C : Type}.
Implicit Types (o p : uuid) (w : World C).

Lemma lift_Ok {A} (r : result error A) w a w' : lift r w = (Ok a, w') → r = Ok a ∧ w' = w.
Proof. unfold lift. by intros [= -> ->]. Qed.

Lemma reads_Ok_tables {A} (m : M C A) f `{!Reads m f} w a w' :
  m w = (Ok a, w') →
  f (tables w) = Ok a ∧ tables w' = tables w ∧ seq w' = seq w ∧ outside w' = outside w.
Proof. intros Hm. destruct (reads_Ok m f w a w' Hm) as [(-> & -> & ->) ?]. done. Qed.

Lemma inOrganizationTransaction_Ok {A} o (fn : M C A) w a w' :
  inOrganizationTransaction o fn w = (Ok a, w') →
  is_Some (organizationRow (tables w) o) ∧
  ∃ w1 w2, same_data w w1 ∧ fn w1 = (Ok a, w2) ∧ same_data w2 w'.
Proof.
  intros (w1 & w2 & Hs1 & Hrun & Hs2)%transaction_Ok.
  apply bind_Ok in Hrun as (u & w3 & Hlock & Hrun).
  destruct (reads_Ok _ _ _ _ _ Hlock) as [Hs3 Hl].
  destruct (organizationRow (tables w1) o) as [row|] eqn:Hrow; [|done].
  split; [rewrite Hs1, Hrow; eauto|]. exists w3, w2. split; [by etrans|done].
Qed.

Lemma inProjectTransaction_Ok {A} o p (fn : M C A) w a w' :
  inProjectTransaction o p fn w = (Ok a, w') →
  is_Some (organizationRow (tables w) o) ∧ live_project (tables w) o p = true ∧
  ∃ w1 w2, same_data w w1 ∧ fn w1 = (Ok a, w2) ∧ same_data w2 w'.
Proof.
  intros (Ho & w1 & w2 & Hs1 & Hrun & Hs2)%inOrganizationTransaction_Ok.
  apply bind_Ok in Hrun as (u & w3 & Hcheck & Hrun).
  destruct (reads_Ok _ _ _ _ _ Hcheck) as [Hs3 Hl].
  destruct (live_project (tables w1) o p) eqn:Hlive; [|done].
  split; [done|]. split; [by rewrite Hs1|]. exists w3, w2. split; [by etrans|done].
Qed.

(** A failed transaction leaves the tables as they were. *)
Lemma inOrganizationTransaction_Err {A} o (fn : M C A) w e w' :
  inOrganizationTransaction o fn w = (Err e, w') → tables w' = tables w.
Proof. apply transaction_Err. Qed.
End transactions.

(** Advances through a run whose next part [m] only reads: its result is what [m] computes. *)
Ltac read_step Hrun Hs :=
  let a := fresh "a" in let w := fresh "w" in let H := fresh "Hread" in
  apply bind_Ok in Hrun as (a & w & H & Hrun);
  let Hs' := fresh "Hs'" in let Hr := fresh "Hread" in
  destruct (reads_run _ _ _ _ _ _ Hs H) as [Hs' Hr]; clear Hs H; rename Hs' into Hs.

Section operations.
Context {QL : QuantityLib} {C : Type} `{!AZHooks C}.
Context (AZs : gmap string AZConfig).
Implicit Types (o p : uuid) (r : Resources) (w : World C).

Lemma SetProjectQuota_Ok o p r w row w' :
  SetProjectQuota AZs o p r w = (Ok row, w') →
  parses r ∧ live_project (tables w) o p = true ∧
  checkProjectCoversAZs (hierarchyOf (tables w) o p) r = Ok tt ∧
  projectFitsOf (tables w) o p (parsed r) (organizationResources (tables w) o) = Ok tt ∧
  outside w' = outside w ∧
  (tables w', seq w') = saveTo AZs o p r (bool_decide (projectAZs (tables w) p ≠ ∅))
    (tables w, seq w).
Proof.
  unfold SetProjectQuota. intros (q & w0 & [Hq ->]%lift_Ok & Hrun)%bind_Ok.
  destruct (parsed_Ok _ _ Hq) as [Hp Hparses].
  apply inProjectTransaction_Ok in Hrun as (_ & Hlive & w1 & w2 & Hs1 & Hrun & Hs2).
  read_step Hrun Hs1. injection Hread0 as <-. read_step Hrun Hs1. read_step Hrun Hs1.
  destruct a, a0. rewrite Hp.
  pose proof (writes_saveProjectQuota (C:=C) AZs o p r
    (bool_decide (projectAZs (tables w) p ≠ ∅)) Hparses) as Hw.
  destruct (writes_run (Writes0:=Hw) _ _ _ _ _ _ _ Hs1 Hrun Hs2) as [Hst Ho].
  by injection Hst as _ ->.
Qed.

(** ** The hooks *)

(** What a passed usage check read, and what it verified. *)
Definition usage_covers (usage : AZUsage) (lowered : Quantities) : Prop :=
  ∀ n v, lowered !! n = Some v →
    is_Some (Hard usage !! n) ∧ ∃ used, Used usage !! n = Some used ∧ used ≤ v.

Lemma checkUsageOf_Ok usage lowered c n u :
  checkUsageOf usage lowered c n = Ok u →
  is_Some (Hard usage !! n) ∧ ∃ used, Used usage !! n = Some used ∧ used ≤ get lowered n.
Proof.
  unfold checkUsageOf. destruct (Hard usage !! n) eqn:?; [|done].
  destruct (Used usage !! n) as [used|]; [|done]. case_decide; [done|]. intros _.
  split; [eauto|]. exists used. split; [done|lia].
Qed.

Lemma checkUsage_Ok o p c (lowered : Quantities) w u w' :
  checkUsage o p c lowered w = (Ok u, w') →
  lowered = ∅ ∧ w' = w ∨
  lowered ≠ ∅ ∧ ∃ readUsage usage, ReadUsage = Some readUsage ∧
    readUsage o p c (outside w) = (Ok usage, outside w') ∧ w' = with_outside w (outside w') ∧
    usage_covers usage lowered.
Proof.
  unfold checkUsage. case_decide as Hl; [by intros [= _ <-]; left|].
  destruct ReadUsage as [readUsage|]; [|done]. unfold external.
  destruct (readUsage o p c (outside w)) as [[usage|e] out] eqn:Hr; [|done].
  intros [= Hfold <-]. right. split; [done|]. exists readUsage, usage. split_and!; [done..|].
  assert (∀ names, foldM (λ _ name, checkUsageOf usage lowered c name) tt names = Ok u →
    ∀ n, n ∈ names → is_Some (Hard usage !! n) ∧
      ∃ used, Used usage !! n = Some used ∧ used ≤ get lowered n) as Hall.
  { induction names as [|n names IH]; [set_solver|]. simpl.
    destruct (checkUsageOf usage lowered c n) as [[]|] eqn:Hc; [|done]. simpl.
    intros Hrest n' [->|Hin]%elem_of_cons; [by eapply checkUsageOf_Ok | by apply IH]. }
  intros n v Hn. specialize (Hall _ Hfold n). unfold get in Hall. rewrite Hn in Hall.
  apply Hall, elem_of_sorted_keys. eauto.
Qed.

Lemma pushLowered_Ok o p c (effective : Resources) w u w' :
  pushLowered o p c effective w = (Ok u, w') →
  ∃ pushAZ, PushAZ = Some pushAZ ∧
    pushAZ o p c (ToKubernetesQuota effective) (outside w) = (Ok tt, outside w') ∧
    w' = with_outside w (outside w').
Proof.
  unfold pushLowered. destruct PushAZ as [pushAZ|]; [|done]. unfold external.
  destruct (pushAZ _ _ _ _ (outside w)) as [[[]|e] out] eqn:Hp.
  - intros [= _ <-]. eauto.
  - destruct (errors_Is e ErrBelowUsage); done.
Qed.

(** What is outside the database between the check and the commit of a lowering. *)
Definition lowering o p c (effective : Resources) (lowered : Quantities) (out out' : C) : Prop :=
  lowered = ∅ ∧ out' = out ∨
  lowered ≠ ∅ ∧ ∃ readUsage usage pushAZ out1,
    ReadUsage = Some readUsage ∧ readUsage o p c out = (Ok usage, out1) ∧
    usage_covers usage lowered ∧
    PushAZ = Some pushAZ ∧ pushAZ o p c (ToKubernetesQuota effective) out1 = (Ok tt, out').

Lemma SetProjectAZQuota_Ok o p c r w row w' :
  SetProjectAZQuota AZs o p c r w = (Ok row, w') →
  let T := tables w in
  let enforcedAfter := EffectiveAZQuota (organizationResources T o) (projectResources T p) r in
  parses r ∧ is_Some (AZs !! c) ∧ live_project T o p = true ∧
  checkAZFitsInProject (hierarchyOf T o p) c (parsed r) = Ok tt ∧
  (tables w', seq w') = putAZQuota p c r (T, seq w) ∧
  ∃ lowered, loweredLimits (hierarchyAZ (hierarchyOf T o p) c) enforcedAfter = Ok lowered ∧
    lowering o p c enforcedAfter lowered (outside w) (outside w').
Proof.
  unfold SetProjectAZQuota. intros (q & w0 & [Hq ->]%lift_Ok & Hrun)%bind_Ok.
  destruct (parsed_Ok _ _ Hq) as [Hp Hparses]. rewrite Hp.
  destruct (GetByCode AZs c o) as [az|] eqn:Haz; [|done].
  apply GetByCode_Ok in Haz as [Haz _].
  apply inProjectTransaction_Ok in Hrun as (_ & Hlive & w1 & w2 & Hs1 & Hrun & Hs2).
  read_step Hrun Hs1. injection Hread0 as <-.
  apply bind_Ok in Hrun as ([] & w4 & [Hfit ->]%lift_Ok & Hrun).
  apply bind_Ok in Hrun as (lowered & w4 & [Hlow ->]%lift_Ok & Hrun).
  apply bind_Ok in Hrun as (u & w4 & Husage & Hrun).
  apply bind_Ok in Hrun as (saved & w5 & Hput & Hrun).
  cbn zeta. split_and!; [done|eauto|done|done| |].
  - assert (tables w4 = tables w ∧ seq w4 = seq w) as [HT Hsq].
    { destruct Hs1 as (-> & -> & _).
      apply checkUsage_Ok in Husage as [[_ ->]|(_ & ? & ? & _ & _ & -> & _)]; done. }
    apply (writes_Ok (m:=upsertAZQuota p c r)) in Hput as [Hst _].
    apply (f_equal snd) in Hst. simpl in Hst. rewrite HT, Hsq in Hst.
    assert (tables w' = tables w5 ∧ seq w' = seq w5) as [-> ->]; [|done].
    destruct Hs2 as (<- & <- & _). case_decide; [by injection Hrun as _ ->|].
    apply bind_Ok in Hrun as (u' & w6 & (pushAZ & _ & _ & ->)%pushLowered_Ok & [= _ <-]). done.
  - exists lowered. split; [done|].
    apply (writes_Ok (m:=upsertAZQuota p c r)) in Hput as [_ Hout].
    destruct Hs1 as (_ & _ & ->), Hs2 as (_ & _ & <-).
    apply checkUsage_Ok in Husage as [[He ->]|(He & readUsage & usage & Hread & Hr & _ & Hcov)].
    + left. split; [done|]. rewrite decide_True in Hrun by done. by injection Hrun as _ <-.
    + right. split; [done|]. rewrite decide_False in Hrun by done.
      apply bind_Ok in Hrun as (u' & w6 & (pushAZ & Hpush & Hpr & _)%pushLowered_Ok & [= _ <-]).
      exists readUsage, usage, pushAZ, (outside w4). rewrite Hout in Hpr. done.
Qed.

Lemma SetOrganizationQuota_Ok o r w row w' :
  SetOrganizationQuota AZs o r w = (Ok row, w') →
  let T := tables w in
  parses r ∧ is_Some (organizationRow T o) ∧
  ∃ rows allocations, projectAllocationsOf T o = Ok (rows, allocations) ∧
    checkNotBelow (parsed r) (sumAllocations allocations) "its projects" = Ok tt ∧
    ((∀ count p, parses (distributedQuota (parsed r)
        (remainingShare (parsed r) allocations count) allocations p)) →
     outside w' = outside w ∧
     (tables w', seq w') = putOrganizationQuota o r
      (if decide (rows = [])
       then distributeTo AZs o (parsed r) allocations (liveProjectIds T o) (T, seq w)
       else coverTo o (parsed r) (quotasByProject rows) allocations (T, seq w))).
Proof.
  unfold SetOrganizationQuota. intros (q & w0 & [Hq ->]%lift_Ok & Hrun)%bind_Ok.
  destruct (parsed_Ok _ _ Hq) as [Hp Hparses]. rewrite Hp.
  apply inOrganizationTransaction_Ok in Hrun as (Ho & w1 & w2 & Hs1 & Hrun & Hs2).
  read_step Hrun Hs1. destruct a as [rows allocations].
  apply bind_Ok in Hrun as ([] & w4 & [Hbelow ->]%lift_Ok & Hrun).
  cbn zeta. split; [done|]. split; [done|].
  exists rows, allocations. split; [done|]. split; [done|]. intros Hdist.
  pose proof (writes_distributeAmongProjects (C:=C) AZs o q allocations Hdist) as Hw.
  case_decide.
  - eassert (Writes _ _) as Hwr; [|destruct (writes_run (Writes0:=Hwr) _ _ _ _ _ _ _ Hs1 Hrun Hs2)
      as [Hst Hout]]; [apply _|]. apply (f_equal snd) in Hst. by simpl in Hst.
  - eassert (Writes _ _) as Hwr; [|destruct (writes_run (Writes0:=Hwr) _ _ _ _ _ _ _ Hs1 Hrun Hs2)
      as [Hst Hout]]; [apply _|]. apply (f_equal snd) in Hst. by simpl in Hst.
Qed.

(** ** The deletions *)

Lemma DeleteOrganizationQuota_Ok o w u w' :
  DeleteOrganizationQuota o w = (Ok u, w') →
  outside w' = outside w ∧
  (tables w', seq w') =
    bumpProjectQuotas o (bumpAZQuotas o (dropOrganizationQuota o (tables w, seq w))).
Proof.
  intros (_ & w1 & w2 & Hs1 & Hrun & Hs2)%inOrganizationTransaction_Ok.
  eassert (Writes _ _) as Hwr; [|destruct (writes_run (Writes0:=Hwr) _ _ _ _ _ _ _ Hs1 Hrun Hs2)
    as [Hst Hout]]; [apply _|]. apply (f_equal snd) in Hst. by simpl in Hst.
Qed.

Lemma DeleteProjectQuota_Ok o p w u w' :
  DeleteProjectQuota o p w = (Ok u, w') →
  live_project (tables w) o p = true ∧ organizationQuotaRow (tables w) o = None ∧
  outside w' = outside w ∧ (tables w', seq w') = dropProjectRows p (tables w, seq w).
Proof.
  intros (_ & Hl & w1 & w2 & Hs1 & Hrun & Hs2)%inProjectTransaction_Ok.
  read_step Hrun Hs1. injection Hread0 as ->. destruct a; [done|].
  destruct (writes_run (deleteProjectRows p) _ _ _ _ _ _ Hs1 Hrun Hs2) as [Hst Hout].
  apply (f_equal snd) in Hst. by simpl in Hst.
Qed.

(** [DeleteById] drops the rows of the project, then the project itself, of the organization
    given only. *)
Definition dropProject p (st : Tables * Z) : Tables * Z :=
  let st := dropProjectRows p st in
  (set_project_deactivations (filter (λ '((p', _), _), p' ≠ p))
     (set_projects (alter soft_delete_project p) st.1), st.2).

Lemma DeleteById_Ok o p w u w' :
  DeleteById p o w = (Ok u, w') →
  live_project (tables w) o p = true ∧ outside w' = outside w ∧
  (tables w', seq w') = dropProject p (tables w, seq w).
Proof.
  intros (w1 & w2 & Hs1 & Hrun & Hs2)%transaction_Ok.
  apply bind_Ok in Hrun as ([] & w3 & Hdel & Hrun). unfold on_error in Hdel.
  destruct (DeleteForProject o p w1) as [[[]|e] w3'] eqn:Hd;
    [injection Hdel as -> | by destruct (errors_Is e _)].
  unfold DeleteForProject in Hd. read_step Hd Hs1. destruct a.
  destruct (writes_run (deleteProjectRows p) _ _ _ _ _ _ Hs1 Hd (reflexivity w3)) as [Hst Hout].
  injection Hst as HT3 Hq3.
  apply bind_Ok in Hrun as (n & w4 & Hx & Hrun). apply exec_Ok in Hx as [Hx Hout4].
  destruct (live_project (tables w3) o p) eqn:Hl; [|injection Hx as <- _ _; done].
  injection Hx as <- HT4 Hq4. rewrite decide_False in Hrun by done.
  apply exec_Ok in Hrun as [[= _ HT5 Hq5] Hout5]. destruct Hs2 as (<- & <- & <-).
  split; [by rewrite <-HT3 in Hl|]. split; [congruence|].
  by rewrite <-HT5, <-Hq5, <-HT4, <-Hq4, <-HT3, <-Hq3.
Qed.

Lemma DeleteById_Err o p w e w' : DeleteById p o w = (Err e, w') → tables w' = tables w.
Proof. apply transaction_Err. Qed.

(** The transaction of [organization.Delete]; without the organization, its quotas stay. *)
Definition dropOrganization o (st : Tables * Z) : Tables * Z :=
  let st := if organizationRow st.1 o is Some _ then dropOrganizationRows o st else st in
  let T := set_project_deactivations (filter (λ '((p, _), _), project_of st.1 o p = false)) st.1 in
  let T := set_projects (fmap (λ p : Project,
    if decide (p_OrgaId p = o) then soft_delete_project p else p)) T in
  let T := set_user_organizations (filter (λ '((_, o'), _), o' ≠ o)) T in
  (set_organizations (alter (λ row : Organization,
    mkOrganization (o_PredefinedCatalogVersion row) true) o) T, st.2).

Lemma DeleteForOrganization_Ok o w u w' :
  DeleteForOrganization o w = (Ok u, w') →
  is_Some (organizationRow (tables w) o) ∧ outside w' = outside w ∧
  (tables w', seq w') = dropOrganizationRows o (tables w, seq w).
Proof.
  unfold DeleteForOrganization. intros (u' & w1 & Hlock & Hrun)%bind_Ok.
  destruct (reads_run _ _ w _ _ _ (reflexivity w) Hlock) as [Hs Hl].
  split; [destruct (organizationRow (tables w) o); [eauto | done]|].
  eassert (Writes _ _) as Hwr; [|destruct (writes_run (Writes0:=Hwr) _ _ _ _ _ _ _ Hs Hrun
    (reflexivity w')) as [Hst Hout]]; [apply _|]. apply (f_equal snd) in Hst. by simpl in Hst.
Qed.

Lemma deleteOrganizationRows_Ok o w u w' :
  deleteOrganizationRows o w = (Ok u, w') →
  outside w' = outside w ∧ (tables w', seq w') = dropOrganization o (tables w, seq w).
Proof.
  intros (w1 & w2 & Hs1 & Hrun & Hs2)%transaction_Ok.
  apply bind_Ok in Hrun as ([] & w3 & Hdel & Hrun).
  assert (outside w3 = outside w ∧ (tables w3, seq w3) =
    (if organizationRow (tables w) o is Some _ then dropOrganizationRows o (tables w, seq w)
     else (tables w, seq w))) as [Hout3 Hst3].
  { unfold on_error in Hdel. destruct (DeleteForOrganization o w1) as [[[]|e] w3'] eqn:Hd.
    - injection Hdel as ->. apply DeleteForOrganization_Ok in Hd as ([row Hrow] & Ho & Hst).
      destruct Hs1 as (HT & Hq & Hout). rewrite HT, Hq, Hrow. split; [congruence|done].
    - destruct (errors_Is e ErrOrganizationNotFound) eqn:He; [|done]. injection Hdel as ->.
      assert (same_data w1 w3 ∧ organizationRow (tables w1) o = None) as [Hsd Hrow].
      { unfold DeleteForOrganization in Hd. rewrite bind_eq in Hd.
        pose proof (reads_same (m:=lockOrganization o) w1) as Hsame.
        pose proof (reads_value (m:=lockOrganization o) w1) as Hval.
        destruct (lockOrganization o w1) as [[u'|e'] w4]; simpl in Hsame, Hval.
        - eassert (Writes _ _) as Hwr; [|apply (writes_Err (Writes:=Hwr)) in Hd as ->]; [apply _|].
          done.
        - injection Hd as -> ->. split; [done|].
          destruct Hval as [Hval|[= ->]]; [|done].
          by destruct (organizationRow (tables w1) o). }
      destruct Hs1 as (-> & -> & ->), Hsd as (<- & <- & <-). by rewrite Hrow. }
  apply bind_Ok in Hrun as (u2 & w4 & [[= _ HT4 Hq4] Hout4]%exec_Ok & Hrun).
  apply bind_Ok in Hrun as (u3 & w5 & [[= _ HT5 Hq5] Hout5]%exec_Ok & Hrun).
  apply bind_Ok in Hrun as (u4 & w6 & [[= _ HT6 Hq6] Hout6]%exec_Ok & Hrun).
  apply exec_Ok in Hrun as [[= _ HT7 Hq7] Hout7]. destruct Hs2 as (HT8 & Hq8 & Hout8).
  split; [congruence|]. unfold dropOrganization. simpl. rewrite <-Hst3. simpl.
  rewrite <-HT8, <-Hq8, <-HT7, <-Hq7, <-HT6, <-Hq6, <-HT5, <-Hq5, <-HT4, <-Hq4.
  done.
Qed.

(** ** Failed writes *)

Lemma lift_bind_Err {A B} (r : result error A) (k : A → M C B) w e w' :
  (∀ a w e w', k a w = (Err e, w') → tables w' = tables w) →
  (a ← lift r; k a) w = (Err e, w') → tables w' = tables w.
Proof.
  intros Hk. rewrite bind_eq. unfold lift. destruct r as [a|e']; [apply Hk | by intros [= _ <-]].
Qed.

(** A quota write that fails leaves the database as it was. *)
Lemma SetOrganizationQuota_Err o r w e w' :
  SetOrganizationQuota AZs o r w = (Err e, w') → tables w' = tables w.
Proof. apply lift_bind_Err. intros q w0 e0 w0'. apply transaction_Err. Qed.

Lemma SetProjectQuota_Err o p r w e w' :
  SetProjectQuota AZs o p r w = (Err e, w') → tables w' = tables w.
Proof. apply lift_bind_Err. intros q w0 e0 w0'. apply transaction_Err. Qed.

Lemma SetProjectAZQuota_Err o p c r w e w' :
  SetProjectAZQuota AZs o p c r w = (Err e, w') → tables w' = tables w.
Proof.
  apply lift_bind_Err. intros q w0 e0 w0'. destruct (GetByCode AZs c o).
  - apply transaction_Err.
  - by intros [= _ <-].
Qed.

Lemma exec_Err {A} (f : Tables → Z → A * Tables * Z) w e w' :
  exec f w = (Err e, w') → tables w' = tables w.
Proof.
  unfold exec, statement. rewrite bind_eq. unfold modify.
  destruct (faults w) as [|[]]; repeat case_match; intros; by simplify_eq/=.
Qed.
End operations.

(** * The capacity invariant, over every sequence of requests

    The requests that write quotas, projects and organizations, as a step relation on worlds; no
    reachable world lets a child exceed its parent, whichever statements and hooks fail. *)

(** ** The requests *)

Inductive request :=
  | SetOrganizationQuotaRequest (organizationId : uuid) (resources : Resources)
  | SetProjectQuotaRequest (organizationId projectId : uuid) (resources : Resources)
  | SetProjectAZQuotaRequest (organizationId projectId : uuid) (codeAZ : string) (resources : Resources)
  | DeleteOrganizationQuotaRequest (organizationId : uuid)
  | DeleteProjectQuotaRequest (organizationId projectId : uuid)
  | CreateProjectRequest (organizationId newId : uuid)
  | DeleteProjectRequest (organizationId projectId : uuid)
  | DeleteOrganizationRequest (organizationId : uuid)
  | DeactivateRequest (projectId : uuid) (reason message : string)
  | ReactivateRequest (projectId : uuid) (reason : string).

Section requests.
Context {QL : QuantityLib} {C : Type} `{!AZHooks C}.
Context (AZs : gmap string AZConfig).

Definition drop_result {A} (m : M C A) : M C unit := _ ← m; mret tt.

Definition run_request (req : request) : M C unit :=
  match req with
  | SetOrganizationQuotaRequest o r => drop_result (SetOrganizationQuota AZs o r)
  | SetProjectQuotaRequest o p r => drop_result (SetProjectQuota AZs o p r)
  | SetProjectAZQuotaRequest o p c r => drop_result (SetProjectAZQuota AZs o p c r)
  | DeleteOrganizationQuotaRequest o => DeleteOrganizationQuota o
  | DeleteProjectQuotaRequest o p => DeleteProjectQuota o p
  | CreateProjectRequest o newId => drop_result (CreateProject o newId)
  | DeleteProjectRequest o p => DeleteById p o
  | DeleteOrganizationRequest o => DeleteOrganization o
  | DeactivateRequest p reason message => Deactivate p reason message
  | ReactivateRequest p reason => Reactivate p reason
  end.

(** What a request must satisfy: the resources, when they parse, stay below the largest [int64];
    a generated id is new. *)
Definition request_ok (T : Tables) (req : request) : Prop :=
  match req with
  | SetOrganizationQuotaRequest _ r | SetProjectQuotaRequest _ _ r
  | SetProjectAZQuotaRequest _ _ _ r => parses r → storable (parsed r)
  | CreateProjectRequest _ newId => projects T !! newId = None ∧ projectView T newId = (None, ∅)
  | _ => True
  end.

(** One request, in any world: other statements may fail and what is outside the database may
    have changed since the previous one. *)
Inductive step : Tables * Z → Tables * Z → Prop :=
  | step_request req w result w' :
      request_ok (tables w) req → run_request req w = (result, w') →
      step (tables w, seq w) (tables w', seq w').

Inductive reachable : Tables * Z → Prop :=
  | reachable_start orgs s : 0 ≤ s → reachable (set_organizations (λ _, orgs) no_tables, s)
  | reachable_step st st' : reachable st → step st st' → reachable st'.
End requests.

(** ** Preservation *)
Section preservation.
Context {QL : QuantityLib} {QLaws : QuantityLaws QL} {C : Type} `{!AZHooks C}.
Context (AZs : gmap string AZConfig) (Hloaded : loaded AZs).
Implicit Types (o p : uuid) (r : Resources) (w : World C).

Lemma set_organization_preserves o r w row w' :
  quotas_ok (tables w) → (parses r → storable (parsed r)) →
  SetOrganizationQuota AZs o r w = (Ok row, w') → quotas_ok (tables w').
Proof.
  intros Hok Hst (Hparses & _ & rows & allocs & Hal & Hbelow & Heq)%SetOrganizationQuota_Ok.
  assert (valid_quota r) as Hr by (split; auto).
  pose proof Hok as [Hwf _]. rewrite (checkNotBelow_iff (tables w) o r rows) in Hbelow by done.
  destruct (sum_allocations (tables w) o Hwf)
    as (rows' & allocs' & Hal' & Hrows & Hin & Hs & Hg & Hsin & Hsum & _).
  rewrite Hal in Hal'. injection Hal' as <- <-.
  assert (∀ count p, parses (distributedQuota (parsed r)
    (remainingShare (parsed r) allocs count) allocs p)) as Hdist.
  { intros count p. by apply (distributedQuota_parses (tables w) o r rows). }
  destruct (Heq Hdist) as [_ Hst']. apply (f_equal fst) in Hst'. simpl in Hst'. rewrite Hst'.
  case_decide as Hempty.
  - rewrite Hempty in Hal. by apply quotas_ok_distribute.
  - rewrite Hrows. by eapply quotas_ok_cover.
Qed.

Lemma set_project_preserves o p r w row w' :
  quotas_ok (tables w) → (parses r → storable (parsed r)) →
  SetProjectQuota AZs o p r w = (Ok row, w') → quotas_ok (tables w').
Proof.
  intros Hok Hst (Hparses & Hl & Hcov & Hfit & _ & Heq)%SetProjectQuota_Ok.
  apply (f_equal fst) in Heq. simpl in Heq. rewrite Heq. apply quotas_ok_saveTo; try done.
  - split; auto.
  - rewrite bool_decide_eq_false. intros He. by destruct (decide (projectAZs (tables w) p = ∅)).
Qed.

Lemma set_project_az_preserves o p c r w row w' :
  quotas_ok (tables w) → (parses r → storable (parsed r)) →
  SetProjectAZQuota AZs o p c r w = (Ok row, w') → quotas_ok (tables w').
Proof.
  intros Hok Hst (Hparses & [az Haz] & Hl & Hfit & Heq & _)%SetProjectAZQuota_Ok.
  apply (f_equal fst) in Heq. simpl in Heq. rewrite Heq.
  apply (quotas_ok_putAZQuota (tables w) (seq w) o); try done.
  - split; auto.
  - by apply Hloaded in Haz as [_ ?].
Qed.

Lemma delete_project_preserves o p w u w' :
  quotas_ok (tables w) → DeleteById p o w = (Ok u, w') → quotas_ok (tables w').
Proof.
  intros Hok (_ & _ & Heq)%DeleteById_Ok. apply (f_equal fst) in Heq. simpl in Heq. rewrite Heq.
  apply (quotas_ok_same (set_projects (alter soft_delete_project p)
    (dropProjectRows p (tables w, seq w)).1)); try done.
  eapply shrinks_ok; [apply shrinks_softDelete|].
  by eapply shrinks_ok; [apply shrinks_dropProjectRows|].
Qed.

Lemma delete_organization_preserves o w u w' :
  quotas_ok (tables w) → deleteOrganizationRows o w = (Ok u, w') → quotas_ok (tables w').
Proof.
  intros Hok (_ & Heq)%deleteOrganizationRows_Ok. apply (f_equal fst) in Heq. simpl in Heq. rewrite Heq.
  set (st := if organizationRow (tables w) o is Some _ then _ else _).
  assert (quotas_ok st.1) as Hst.
  { unfold st. destruct (organizationRow (tables w) o); [|done].
    eapply shrinks_ok; [by apply shrinks_dropOrganizationRows, Hok | done]. }
  apply (quotas_ok_same (set_projects (fmap (λ p : Project,
    if decide (p_OrgaId p = o) then soft_delete_project p else p)) st.1)); try done.
  by eapply shrinks_ok; [apply shrinks_softDeleteAll|].
Qed.

Lemma create_project_preserves o p T :
  quotas_ok T → projects T !! p = None → projectView T p = (None, ∅) →
  quotas_ok (set_projects <[p:=mkProject o false]> T).
Proof.
  intros Hok Hp Hv. eapply shrinks_ok; [|done]. split; [|by left|by left|by left].
  intros o' p'. unfold live_project. simpl. destruct (decide (p' = p)) as [->|Hne].
  - intros _. right. done.
  - rewrite lookup_insert_ne by done. by left.
Qed.

(** Dropping the result of an operation. *)
Lemma drop_result_run {A} (m : M C A) w result w' :
  drop_result m w = (result, w') →
  (∃ a, m w = (Ok a, w')) ∨ ∃ e, m w = (Err e, w').
Proof.
  unfold drop_result. rewrite bind_eq. destruct (m w) as [[a|e] w1]; intros [= _ <-]; eauto.
Qed.

(** Every request keeps the invariant, whether it succeeds or not. *)
Lemma request_preserves req w result w' :
  quotas_ok (tables w) → request_ok (tables w) req → run_request AZs req w = (result, w') →
  quotas_ok (tables w').
Proof.
  intros Hok Hreq Hrun.
  destruct req as [o r|o p r|o p c r|o|o p|o p|o p|o|p reason message|p reason]; simpl in Hreq, Hrun.
  - destruct (drop_result_run _ _ _ _ Hrun) as [[row Hr]|[e Hr]].
    + by eapply set_organization_preserves.
    + by rewrite (SetOrganizationQuota_Err AZs o r w e w').
  - destruct (drop_result_run _ _ _ _ Hrun) as [[row Hr]|[e Hr]].
    + by eapply set_project_preserves.
    + by rewrite (SetProjectQuota_Err AZs o p r w e w').
  - destruct (drop_result_run _ _ _ _ Hrun) as [[row Hr]|[e Hr]].
    + by eapply set_project_az_preserves.
    + by rewrite (SetProjectAZQuota_Err AZs o p c r w e w').
  - destruct result as [u|e]; [|by rewrite (transaction_Err _ _ _ _ Hrun)].
    apply DeleteOrganizationQuota_Ok in Hrun as [_ Heq]. apply (f_equal fst) in Heq. simpl in Heq.
    rewrite Heq. by eapply shrinks_ok; [apply shrinks_DeleteOrganizationQuota|].
  - destruct result as [u|e]; [|by rewrite (transaction_Err _ _ _ _ Hrun)].
    apply DeleteProjectQuota_Ok in Hrun as (_ & _ & _ & Heq). apply (f_equal fst) in Heq.
    simpl in Heq. rewrite Heq. by apply (shrinks_ok _ _ (shrinks_dropProjectRows p _ (seq w))).
  - destruct (drop_result_run _ _ _ _ Hrun) as [[row Hr]|[e Hr]].
    + apply exec_Ok in Hr as [[= _ <- _] _]. by apply create_project_preserves; [|apply Hreq..].
    + by rewrite (exec_Err _ _ _ _ Hr).
  - destruct result as [u|e]; [by eapply delete_project_preserves|].
    by rewrite (transaction_Err _ _ _ _ Hrun).
  - unfold DeleteOrganization in Hrun. rewrite bind_eq in Hrun.
    destruct (deleteOrganizationRows o w) as [[u|e] w1] eqn:Hdel.
    + assert (quotas_ok (tables w1)) as Hok1 by by eapply delete_organization_preserves.
      destruct result as [u'|e]; [|by rewrite (exec_Err _ _ _ _ Hrun)].
      apply exec_Ok in Hrun as [[= _ <- _] _]. by eapply quotas_ok_same; last done.
    + injection Hrun as _ <-. by rewrite (transaction_Err _ _ _ _ Hdel).
  - destruct result as [u'|e]; [|by rewrite (exec_Err _ _ _ _ Hrun)].
    apply exec_Ok in Hrun as [[= _ <- _] _]. by eapply quotas_ok_same; last done.
  - destruct result as [u'|e]; [|by rewrite (exec_Err _ _ _ _ Hrun)].
    apply exec_Ok in Hrun as [[= _ <- _] _]. by eapply quotas_ok_same; last done.
Qed.

Lemma reachable_ok st : reachable (C:=C) AZs st → quotas_ok st.1.
Proof.
  induction 1 as [orgs s Hs|st st' Hr IH Hstep]; [by apply quotas_ok_no_quotas|].
  inversion Hstep as [req w result w' Hreq Hrun]; subst. by eapply (request_preserves req w).
Qed.
End preservation.
