(* ===== verification/QuotaRevisions.v ===== *)
(** * Revisions

    The revision sent to the AZ controllers with an effective quota ([Hierarchy.Revision]) must be
    newer than every revision sent before whenever the effective quota changes, since controllers
    ignore older pushes. The sequence never goes back, stored revisions never exceed it, and every
    request gives a new revision to whatever it changes. *)

From S2P Require Import Prelude Errors Quantity QuotaResources Database AZConfig Hierarchical.
From S2P Require Import Hierarchical QuotaSpec QuotaRules QuotaWrites.
From S2P Require Import QuotaWrites QuotaOrganization QuotaDeletes QuotaInvariant.
(** ** The sequence only moves forward, even in runs that fail *)
Section sequence.
Context {C : Type}.

Class Forward {A} (m : M C A) : Prop := forward w : seq w ≤ seq (m w).2.

#[export] Instance forward_ret {A} (a : A) : Forward (mret a).
Proof. intros w. simpl. lia. Qed.

#[export] Instance forward_fail {A} e : Forward (A:=A) (fail e).
Proof. intros w. simpl. lia. Qed.

#[export] Instance forward_lift {A} (r : result error A) : Forward (lift r).
Proof. intros w. simpl. lia. Qed.

#[export] Instance forward_bind {A B} (m : M C A) (k : A → M C B) :
  Forward m → (∀ a, Forward (k a)) → Forward (m ≫= k).
Proof.
  intros Hm Hk w. rewrite bind_eq. specialize (Hm w).
  destruct (m w) as [[a|e] w1]; simpl in *; [|done]. specialize (Hk a w1). lia.
Qed.

#[export] Instance forward_reads {A} (m : M C A) f : Reads m f → Forward m.
Proof. intros Hm w. destruct (reads_same (m:=m) w) as (_ & -> & _). lia. Qed.

Lemma forward_exec {A} (f : Tables → Z → A * Tables * Z) :
  (∀ T s, s ≤ (f T s).2) → Forward (exec f).
Proof.
  intros Hf w. unfold exec. rewrite bind_eq.
  pose proof (statement_same w) as (_ & Hs & _). destruct (statement w) as [[u|e] w1]; simpl in *.
  - unfold modify. specialize (Hf (tables w1) (seq w1)).
    destruct (f (tables w1) (seq w1)) as [[a T] s]. simpl in *. lia.
  - lia.
Qed.

#[export] Instance forward_on_error {A} (m : M C A) s handler :
  Forward m → Forward handler → Forward (on_error m s handler).
Proof.
  intros Hm Hh w. unfold on_error. specialize (Hm w).
  destruct (m w) as [[a|e] w1]; simpl in *; [done|].
  destruct (errors_Is e s); [specialize (Hh w1); lia | done].
Qed.

#[export] Instance forward_transaction {A} (fn : M C A) : Forward fn → Forward (transaction fn).
Proof.
  intros Hfn w. unfold transaction.
  assert (Forward (_ ← statement; a ← fn; _ ← statement; mret a : M C A)) as Hall.
  { apply forward_bind; [|intros _; apply forward_bind; [done|intros a; apply forward_bind]].
    - intros w'. destruct (statement_same w') as (_ & -> & _). lia.
    - intros w'. destruct (statement_same w') as (_ & -> & _). lia.
    - intros _. apply _. }
  specialize (Hall w). by destruct ((_ ← statement; _) w) as [[a|e] w1].
Qed.

#[export] Instance forward_for_each {A} (f : A → M C unit) l :
  (∀ x, Forward (f x)) → Forward (for_each f l).
Proof.
  intros Hf. induction l as [|x l IH]; simpl; [apply _|]. by apply forward_bind.
Qed.
End sequence.

(** ** The requests only move it forward *)
Section requests.
Context {QL : QuantityLib} {C : Type} `{!AZHooks C}.
Context (AZs : gmap string AZConfig).

#[local] Instance forward_upsertOrganizationQuota o r : Forward (C:=C) (upsertOrganizationQuota o r).
Proof. apply forward_exec. intros T s. simpl. lia. Qed.
#[local] Instance forward_upsertProjectQuota o p r : Forward (C:=C) (upsertProjectQuota o p r).
Proof. apply forward_exec. intros T s. simpl. lia. Qed.
#[local] Instance forward_upsertAZQuota p c r : Forward (C:=C) (upsertAZQuota p c r).
Proof. apply forward_exec. intros T s. simpl. lia. Qed.

#[local] Instance forward_saveProjectQuota o p r has : Forward (C:=C) (saveProjectQuota AZs o p r has).
Proof. unfold saveProjectQuota, splitAmongAZs. destruct has; apply _. Qed.

#[local] Instance forward_external {A} (f : C → result error A * C) : Forward (external f).
Proof. intros w. unfold external. destruct (f (outside w)). simpl. lia. Qed.

#[local] Instance forward_checkUsage o p c lowered : Forward (C:=C) (checkUsage o p c lowered).
Proof.
  unfold checkUsage. case_decide; [apply _|]. destruct ReadUsage as [readUsage|]; [|apply _].
  intros w. pose proof (forward_external (readUsage o p c) w) as Hf.
  by destruct (external (readUsage o p c) w) as [[usage|e] w'].
Qed.

#[local] Instance forward_pushLowered o p c effective : Forward (C:=C) (pushLowered o p c effective).
Proof.
  unfold pushLowered. destruct PushAZ as [pushAZ|]; [|apply _]. intros w.
  pose proof (forward_external (pushAZ o p c (ToKubernetesQuota effective)) w) as Hf.
  destruct (external _ w) as [[u|e] w']; [done|]. by destruct (errors_Is e ErrBelowUsage).
Qed.

#[local] Instance forward_SetOrganizationQuota o r : Forward (C:=C) (SetOrganizationQuota AZs o r).
Proof.
  unfold SetOrganizationQuota, inOrganizationTransaction, distributeAmongProjects, coverAZQuotas.
  apply forward_bind; [apply _|]. intros limit. apply forward_transaction.
  apply forward_bind; [apply _|]. intros _. apply forward_bind; [apply _|]. intros [rows allocs].
  apply forward_bind; [apply _|]. intros _. apply forward_bind; [|apply _].
  case_decide; [apply _|]. apply forward_for_each. intros p. case_decide; apply _.
Qed.

#[local] Instance forward_SetProjectQuota o p r : Forward (C:=C) (SetProjectQuota AZs o p r).
Proof. unfold SetProjectQuota, inProjectTransaction, inOrganizationTransaction. apply _. Qed.

#[local] Instance forward_SetProjectAZQuota o p c r : Forward (C:=C) (SetProjectAZQuota AZs o p c r).
Proof.
  unfold SetProjectAZQuota, inProjectTransaction, inOrganizationTransaction.
  apply forward_bind; [apply _|]. intros q. destruct (GetByCode AZs c o); [|apply _].
  apply forward_transaction. repeat (apply forward_bind; [apply _|]; intros ?). case_decide; apply _.
Qed.

Lemma bumpRows_forward {K V} `{Countable K} (selected : K → V → bool) set_revision (rows : gmap K V) s :
  s ≤ (bumpRows selected set_revision rows s).2.
Proof.
  pose proof (bumpRows_spec selected set_revision rows s) as Hb.
  destruct (bumpRows selected set_revision rows s). by destruct Hb.
Qed.

#[local] Instance forward_bumpOrganizationRevisions o : Forward (C:=C) (bumpOrganizationRevisions o).
Proof.
  unfold bumpOrganizationRevisions.
  apply forward_bind; [|intros _]; apply forward_exec; intros T s.
  - pose proof (bumpRows_forward
      (λ '(p, _) row, live_project T o p && negb (aq_Deleted row))
      (λ rev row, mkProjectAZQuota (aq_Resources row) rev (aq_Deleted row))
      (project_az_quotas T) s) as Hb.
    by destruct (bumpRows _ _ _ _).
  - pose proof (bumpRows_forward
      (λ _ row, bool_decide (pq_OrganizationId row = o) && negb (pq_Deleted row))
      (λ rev row, mkProjectQuota (pq_OrganizationId row) (pq_Resources row) rev (pq_Deleted row))
      (project_quotas T) s) as Hb.
    by destruct (bumpRows _ _ _ _).
Qed.

(** Solves the statements that leave the sequence alone. *)
Local Ltac forward_plain := apply forward_exec; intros ? ?; repeat case_match; simpl; lia.

#[local] Instance forward_deleteProjectRows p : Forward (C:=C) (deleteProjectRows p).
Proof. unfold deleteProjectRows. apply forward_bind; [|intros _]; forward_plain. Qed.

#[local] Instance forward_DeleteForOrganization o : Forward (C:=C) (DeleteForOrganization o).
Proof.
  unfold DeleteForOrganization. apply forward_bind; [apply _|intros _].
  apply forward_bind; [forward_plain|intros _]. apply forward_bind; [|intros _]; forward_plain.
Qed.

Lemma run_request_forward req w : seq w ≤ seq (run_request AZs req w).2.
Proof.
  assert (Forward (run_request AZs req)) as Hf; [|apply Hf].
  destruct req; simpl; unfold drop_result.
  - apply _.
  - apply _.
  - apply _.
  - unfold DeleteOrganizationQuota, inOrganizationTransaction. apply forward_transaction.
    apply forward_bind; [apply _|intros _]. apply forward_bind; [forward_plain | apply _].
  - unfold DeleteProjectQuota, inProjectTransaction, inOrganizationTransaction.
    apply forward_transaction. repeat (apply forward_bind; [apply _|]; intros ?).
    case_match; apply _.
  - unfold CreateProject. apply forward_bind; [forward_plain | apply _].
  - unfold DeleteById, DeleteForProject. apply forward_transaction.
    apply forward_bind; [apply _|intros _]. apply forward_bind; [forward_plain|].
    intros n. case_decide; [apply _ | forward_plain].
  - unfold DeleteOrganization, deleteOrganizationRows, DeleteAllByOrgaId.
    apply forward_bind; [|intros _; forward_plain]. apply forward_transaction.
    apply forward_bind; [apply _|intros _].
    repeat (apply forward_bind; [forward_plain|intros _]). forward_plain.
  - unfold Deactivate. forward_plain.
  - unfold Reactivate. forward_plain.
Qed.
End requests.

(** ** Rows and their revisions *)

Definition azQuotaRow (T : Tables) p c : option ProjectAZQuota :=
  row ← project_az_quotas T !! (p, c); if aq_Deleted row then None else Some row.

(** A row after a write: the one that was there, or one with a new revision. *)
Definition newer_row {A} (revision : A → Z) (s s' : Z) (before after : option A) : Prop :=
  ∀ row, after = Some row → before = Some row ∨ s < revision row ≤ s'.

(** Every row of the second state is one of the first, or has a revision taken in between. *)
Record newer (st st' : Tables * Z) : Prop := {
  newer_seq : st.2 ≤ st'.2;
  newer_organization o : newer_row oq_Revision st.2 st'.2
    (organizationQuotaRow st.1 o) (organizationQuotaRow st'.1 o);
  newer_project p : newer_row pq_Revision st.2 st'.2 (projectQuotaRow st.1 p) (projectQuotaRow st'.1 p);
  newer_az p c : newer_row aq_Revision st.2 st'.2 (azQuotaRow st.1 p c) (azQuotaRow st'.1 p c);
}.

(** No row of the levels of a project is gone. *)
Definition kept T T' o p : Prop :=
  (is_Some (organizationQuotaRow T o) → is_Some (organizationQuotaRow T' o)) ∧
  (is_Some (projectQuotaRow T p) → is_Some (projectQuotaRow T' p)) ∧
  ∀ c, is_Some (azQuotaRow T p c) → is_Some (azQuotaRow T' p c).

Definition grows (st st' : Tables * Z) : Prop := newer st st' ∧ ∀ o p, kept st.1 st'.1 o p.

Lemma newer_row_refl {A} (revision : A → Z) s s' before : newer_row revision s s' before before.
Proof. intros row. by left. Qed.

Lemma newer_row_trans {A} (revision : A → Z) s1 s2 s3 r1 r2 r3 :
  s1 ≤ s2 → s2 ≤ s3 → newer_row revision s1 s2 r1 r2 → newer_row revision s2 s3 r2 r3 →
  newer_row revision s1 s3 r1 r3.
Proof.
  intros ?? H1 H2 row Hrow. destruct (H2 row Hrow) as [Hr2|?]; [|right; lia].
  destruct (H1 row Hr2) as [?|?]; [by left | right; lia].
Qed.

#[export] Instance newer_preorder : PreOrder newer.
Proof.
  split.
  - intros st. split; [done|..]; intros; apply newer_row_refl.
  - intros st1 st2 st3 [? Ho Hp Ha] [? Ho' Hp' Ha']. split; [lia|..].
    + intros o. by eapply newer_row_trans.
    + intros p. by eapply newer_row_trans.
    + intros p c. by eapply newer_row_trans.
Qed.

#[export] Instance grows_preorder : PreOrder grows.
Proof.
  split.
  - intros st. split; [done|]. intros o p. by split_and!.
  - intros st1 st2 st3 [Hn Hk] [Hn' Hk']. split; [by etrans|]. intros o p.
    destruct (Hk o p) as (? & ? & ?), (Hk' o p) as (? & ? & ?). split_and!; auto.
Qed.

Lemma foldl_grows {A} (step : Tables * Z → A → Tables * Z) l st :
  (∀ st a, grows st (step st a)) → grows st (foldl step st l).
Proof.
  intros Hstep. revert st. induction l as [|a l IH]; intros st; simpl; [done|].
  etrans; [apply Hstep | apply IH].
Qed.

Section writes_grow.
Context {QL : QuantityLib}.

Lemma projectQuotaRow_insert T p row p' :
  projectQuotaRow (set_project_quotas <[p:=row]> T) p' =
  if decide (p' = p) then (if pq_Deleted row then None else Some row) else projectQuotaRow T p'.
Proof.
  unfold projectQuotaRow. simpl. case_decide as Hp.
  - subst. by rewrite lookup_insert_eq.
  - by rewrite lookup_insert_ne.
Qed.

Lemma organizationQuotaRow_insert T o row o' :
  organizationQuotaRow (set_organization_quotas <[o:=row]> T) o' =
  if decide (o' = o) then (if oq_Deleted row then None else Some row) else organizationQuotaRow T o'.
Proof.
  unfold organizationQuotaRow. simpl. case_decide as Hp.
  - subst. by rewrite lookup_insert_eq.
  - by rewrite lookup_insert_ne.
Qed.

Lemma azQuotaRow_insert T p c row p' c' :
  azQuotaRow (set_project_az_quotas <[(p, c):=row]> T) p' c' =
  if decide (p' = p ∧ c' = c) then (if aq_Deleted row then None else Some row) else azQuotaRow T p' c'.
Proof.
  unfold azQuotaRow. simpl. case_decide as Hp.
  - destruct Hp as [-> ->]. by rewrite lookup_insert_eq.
  - rewrite lookup_insert_ne; [done|]. naive_solver.
Qed.

Lemma grows_putOrganizationQuota o r st : grows st (putOrganizationQuota o r st).
Proof.
  destruct st as [T s]. split.
  - split; simpl; [lia | | intros; apply newer_row_refl | intros; apply newer_row_refl].
    intros o' row. rewrite organizationQuotaRow_insert. case_decide; [|by left].
    intros [= <-]. right. simpl. lia.
  - intros o' p. split_and!; simpl; try done. rewrite organizationQuotaRow_insert. case_decide; eauto.
Qed.

Lemma grows_putProjectQuota o p r st : grows st (putProjectQuota o p r st).
Proof.
  destruct st as [T s]. split.
  - split; simpl; [lia | intros; apply newer_row_refl | | intros; apply newer_row_refl].
    intros p' row. rewrite projectQuotaRow_insert. case_decide; [|by left].
    intros [= <-]. right. simpl. lia.
  - intros o' p'. split_and!; simpl; try done. rewrite projectQuotaRow_insert. case_decide; eauto.
Qed.

Lemma grows_putAZQuota p c r st : grows st (putAZQuota p c r st).
Proof.
  destruct st as [T s]. split.
  - split; simpl; [lia | intros; apply newer_row_refl | intros; apply newer_row_refl |].
    intros p' c' row. rewrite azQuotaRow_insert. case_decide; [|by left].
    intros [= <-]. right. simpl. lia.
  - intros o' p'. split_and!; simpl; try done. intros c'. rewrite azQuotaRow_insert. case_decide; eauto.
Qed.

Lemma grows_saveTo AZs o p r has st : grows st (saveTo AZs o p r has st).
Proof.
  unfold saveTo. etrans; [apply grows_putProjectQuota|]. destruct has; [done|].
  apply foldl_grows. intros. apply grows_putAZQuota.
Qed.

Lemma grows_distributeTo AZs o limit allocations ids st :
  grows st (distributeTo AZs o limit allocations ids st).
Proof. apply foldl_grows. intros. apply grows_saveTo. Qed.

Lemma grows_coverTo o limit defined allocations st : grows st (coverTo o limit defined allocations st).
Proof.
  apply foldl_grows. intros st' p. destruct (completedQuota _ _ _); [apply grows_putProjectQuota | done].
Qed.

(** ** A newer effective quota has a newer revision *)

Definition hierarchyRows T o p c :=
  (organizationQuotaRow T o, projectQuotaRow T p, azQuotaRow T p c).

Lemma lookup_projectAZs_row T p c : projectAZs T p !! c = aq_Resources <$> azQuotaRow T p c.
Proof.
  rewrite lookup_projectAZs. unfold azQuotaRow.
  destruct (project_az_quotas T !! (p, c)) as [row|]; [|done]. simpl. by destruct (aq_Deleted row).
Qed.

Lemma lookup_projectAZRevisions_row T p c :
  projectAZRevisions T p !! c = aq_Revision <$> azQuotaRow T p c.
Proof.
  rewrite lookup_projectAZRevisions. unfold azQuotaRow.
  destruct (project_az_quotas T !! (p, c)) as [row|]; [|done]. simpl. by destruct (aq_Deleted row).
Qed.

(** [Hierarchy.Revision] is the maximum of the revisions of the three levels. *)
Lemma hierarchyRevision_max T o p c :
  hierarchyRevision (hierarchyOf T o p) c =
  Z.max (default 0 (oq_Revision <$> organizationQuotaRow T o))
    (Z.max (default 0 (pq_Revision <$> projectQuotaRow T p))
       (default 0 (aq_Revision <$> azQuotaRow T p c))).
Proof.
  unfold hierarchyRevision. cbn [hierarchyOf h_OrganizationRevision h_ProjectRevision h_AZRevisions].
  unfold get. rewrite lookup_projectAZRevisions_row. repeat case_decide; lia.
Qed.

Lemma hierarchyAZ_rows T o p c :
  hierarchyAZ (hierarchyOf T o p) c =
  EffectiveAZQuota (default ∅ (oq_Resources <$> organizationQuotaRow T o))
    (default ∅ (pq_Resources <$> projectQuotaRow T p))
    (default ∅ (aq_Resources <$> azQuotaRow T p c)).
Proof.
  unfold hierarchyAZ. cbn [hierarchyOf h_Organization h_Project h_AZs].
  by rewrite lookup_projectAZs_row.
Qed.

(** The effective quota of a project in an AZ, after a write: newer than everything before it, or
    unchanged, or empty and without any level left. *)
Definition revision_sound (st st' : Tables * Z) o p c : Prop :=
  let h := hierarchyOf st.1 o p in
  let h' := hierarchyOf st'.1 o p in
  st.2 < hierarchyRevision h' c ∨
  hierarchyAZ h' c = hierarchyAZ h c ∧ hierarchyRevision h' c = hierarchyRevision h c ∨
  hierarchyAZ h' c = ∅ ∧ hierarchyRevision h' c = 0.

Lemma same_rows_sound st st' o p c :
  hierarchyRows st'.1 o p c = hierarchyRows st.1 o p c → revision_sound st st' o p c.
Proof.
  intros [= Ho Hp Ha]. right. left. by rewrite !hierarchyAZ_rows, !hierarchyRevision_max, Ho, Hp, Ha.
Qed.

Lemma no_rows_sound st st' o p c :
  hierarchyRows st'.1 o p c = (None, None, None) → revision_sound st st' o p c.
Proof.
  intros [= Ho Hp Ha]. right. right. rewrite hierarchyAZ_rows, hierarchyRevision_max, Ho, Hp, Ha.
  split; [|done]. apply map_eq. intros n. by rewrite lookup_EffectiveAZQuota, !lookup_empty.
Qed.

(** A row that is not gone is the same, or has made the revision newer. *)
Lemma newer_row_case {A} (revision : A → Z) s s' before after :
  newer_row revision s s' before after → (is_Some before → is_Some after) →
  before = after ∨ ∃ row, after = Some row ∧ s < revision row.
Proof.
  intros Hn Hk. destruct after as [row|].
  - destruct (Hn row eq_refl) as [->|?]; [by left | right; exists row; split; [done|lia]].
  - left. destruct before; [|done]. by destruct Hk; [eauto|].
Qed.

Lemma newer_sound st st' o p c :
  newer st st' → kept st.1 st'.1 o p → revision_sound st st' o p c.
Proof.
  intros [_ Ho Hp Ha] (Ko & Kp & Ka).
  destruct (newer_row_case _ _ _ _ _ (Ho o) Ko) as [Eo|(row & Hrow & Hr)].
  2: { left. rewrite hierarchyRevision_max, Hrow. simpl. lia. }
  destruct (newer_row_case _ _ _ _ _ (Hp p) Kp) as [Ep|(row & Hrow & Hr)].
  2: { left. rewrite hierarchyRevision_max, Hrow. simpl. lia. }
  destruct (newer_row_case _ _ _ _ _ (Ha p c) (Ka c)) as [Ea|(row & Hrow & Hr)].
  2: { left. rewrite hierarchyRevision_max, Hrow. simpl. lia. }
  apply same_rows_sound. unfold hierarchyRows. congruence.
Qed.
End writes_grow.

(** ** The requests *)
Section requests_sound.
Context {QL : QuantityLib} {QLaws : QuantityLaws QL} {C : Type} `{!AZHooks C}.
Context (AZs : gmap string AZConfig).
Implicit Types (o p : uuid) (c : string) (r : Resources) (w : World C).

Lemma grows_sound st st' o p c : grows st st' → revision_sound st st' o p c.
Proof. intros [Hn Hk]. by apply newer_sound. Qed.

Lemma set_organization_grows o r w row w' :
  quotas_ok (tables w) → (parses r → storable (parsed r)) →
  SetOrganizationQuota AZs o r w = (Ok row, w') → grows (tables w, seq w) (tables w', seq w').
Proof.
  intros [Hwf _] Hst (Hparses & _ & rows & allocs & Hal & Hbelow & Heq)%SetOrganizationQuota_Ok.
  assert (valid_quota r) as Hr by (split; auto).
  rewrite (checkNotBelow_iff (tables w) o r rows) in Hbelow by done.
  destruct Heq as [_ ->].
  { intros count p. by apply (distributedQuota_parses (tables w) o r rows). }
  etrans; [|apply grows_putOrganizationQuota].
  case_decide; [apply grows_distributeTo | apply grows_coverTo].
Qed.

(** Deletions: the rows left are the ones that were there, or have taken a new revision. *)
Lemma newer_dropProjectRows p st : newer st (dropProjectRows p st).
Proof.
  destruct st as [T s]. split; simpl; [done| by intros; apply newer_row_refl | |].
  - intros p' row. unfold projectQuotaRow. simpl. intros Hrow. left.
    destruct (decide (p' = p)) as [->|Hne]; [by rewrite lookup_delete_eq in Hrow|].
    by rewrite lookup_delete_ne in Hrow.
  - intros p' c row Hrow. left. unfold azQuotaRow in *. simpl in Hrow.
    destruct (project_az_quotas T !! (p', c)) as [row'|] eqn:Hl.
    + destruct (decide (p' = p)) as [->|Hne].
      * rewrite map_lookup_filter_None_2 in Hrow; [done|]. right. by intros ? _ [].
      * by rewrite (map_lookup_filter_Some_2 _ _ _ row') in Hrow.
    + by rewrite map_lookup_filter_None_2 in Hrow by by left.
Qed.

Lemma dropProjectRows_other p st p' c :
  p' ≠ p → projectQuotaRow (dropProjectRows p st).1 p' = projectQuotaRow st.1 p' ∧
    azQuotaRow (dropProjectRows p st).1 p' c = azQuotaRow st.1 p' c.
Proof.
  intros Hne. unfold projectQuotaRow, azQuotaRow. simpl. rewrite lookup_delete_ne by done.
  split; [done|]. f_equal. apply option_eq. intros row. rewrite map_lookup_filter_Some. naive_solver.
Qed.

Lemma dropProjectRows_self p st c :
  projectQuotaRow (dropProjectRows p st).1 p = None ∧ azQuotaRow (dropProjectRows p st).1 p c = None.
Proof.
  unfold projectQuotaRow, azQuotaRow. simpl. rewrite lookup_delete_eq. split; [done|].
  rewrite map_lookup_filter_None_2; [done|]. right. by intros ? _ [].
Qed.

(** The rows bumped by [bumpOrganizationRevisions]. *)
Lemma bumpAZQuotas_row o st p c :
  projectQuotaRow (bumpAZQuotas o st).1 p = projectQuotaRow st.1 p ∧ st.2 ≤ (bumpAZQuotas o st).2 ∧
  match azQuotaRow st.1 p c with
  | None => azQuotaRow (bumpAZQuotas o st).1 p c = None
  | Some row =>
    if live_project st.1 o p then
      ∃ rev, st.2 < rev ≤ (bumpAZQuotas o st).2 ∧
        azQuotaRow (bumpAZQuotas o st).1 p c = Some (mkProjectAZQuota (aq_Resources row) rev false)
    else azQuotaRow (bumpAZQuotas o st).1 p c = Some row
  end.
Proof.
  destruct st as [T s]. unfold bumpAZQuotas.
  pose proof (bumpRows_spec
    (λ '(p, _) row, live_project T o p && negb (aq_Deleted row))
    (λ rev row, mkProjectAZQuota (aq_Resources row) rev (aq_Deleted row))
    (project_az_quotas T) s) as Hb.
  destruct (bumpRows _ _ _ _) as [rows s']. destruct Hb as [Hs Hb]. split; [done|]. split; [done|].
  specialize (Hb (p, c)). unfold azQuotaRow. simpl.
  destruct (project_az_quotas T !! (p, c)) as [row|]; simpl; [|by rewrite Hb].
  destruct (aq_Deleted row) eqn:Hd; simpl in Hb.
  - rewrite andb_false_r in Hb. rewrite Hb. simpl. by rewrite Hd.
  - rewrite andb_true_r in Hb. destruct (live_project T o p).
    + destruct Hb as (rev & ? & ->). simpl. exists rev. done.
    + rewrite Hb. simpl. by rewrite Hd.
Qed.

Lemma bumpProjectQuotas_row o st p c :
  azQuotaRow (bumpProjectQuotas o st).1 p c = azQuotaRow st.1 p c ∧ st.2 ≤ (bumpProjectQuotas o st).2 ∧
  match projectQuotaRow st.1 p with
  | None => projectQuotaRow (bumpProjectQuotas o st).1 p = None
  | Some row =>
    if decide (pq_OrganizationId row = o) then
      ∃ rev, st.2 < rev ≤ (bumpProjectQuotas o st).2 ∧
        projectQuotaRow (bumpProjectQuotas o st).1 p = Some (mkProjectQuota o (pq_Resources row) rev false)
    else projectQuotaRow (bumpProjectQuotas o st).1 p = Some row
  end.
Proof.
  destruct st as [T s]. unfold bumpProjectQuotas.
  pose proof (bumpRows_spec
    (λ _ row, bool_decide (pq_OrganizationId row = o) && negb (pq_Deleted row))
    (λ rev row, mkProjectQuota (pq_OrganizationId row) (pq_Resources row) rev (pq_Deleted row))
    (project_quotas T) s) as Hb.
  destruct (bumpRows _ _ _ _) as [rows s']. destruct Hb as [Hs Hb]. split; [done|]. split; [done|].
  specialize (Hb p). unfold projectQuotaRow. simpl.
  destruct (project_quotas T !! p) as [row|]; simpl; [|by rewrite Hb].
  destruct (pq_Deleted row) eqn:Hd; simpl in Hb.
  - rewrite andb_false_r in Hb. rewrite Hb. simpl. by rewrite Hd.
  - rewrite andb_true_r in Hb. case_decide as Ho.
    + rewrite bool_decide_eq_true_2 in Hb by done. destruct Hb as (rev & ? & ->).
      simpl. exists rev. by rewrite Ho.
    + rewrite bool_decide_eq_false_2 in Hb by done. rewrite Hb. simpl. by rewrite Hd.
Qed.

Lemma newer_bumpAZQuotas o st : newer st (bumpAZQuotas o st).
Proof.
  split.
  - apply (bumpAZQuotas_row o st EmptyString EmptyString).
  - intros o' row Hrow. left. destruct st as [T s]. unfold bumpAZQuotas in Hrow.
    by destruct (bumpRows _ _ _ _).
  - intros p row. destruct (bumpAZQuotas_row o st p EmptyString) as (-> & _ & _). by left.
  - intros p c row. destruct (bumpAZQuotas_row o st p c) as (_ & _ & Hb).
    destruct (azQuotaRow st.1 p c) as [old|]; [|congruence].
    destruct (live_project st.1 o p); [|intros; left; congruence].
    destruct Hb as (rev & ? & ->). intros [= <-]. by right.
Qed.

Lemma newer_bumpProjectQuotas o st : newer st (bumpProjectQuotas o st).
Proof.
  split.
  - apply (bumpProjectQuotas_row o st EmptyString EmptyString).
  - intros o' row Hrow. left. destruct st as [T s]. unfold bumpProjectQuotas in Hrow.
    by destruct (bumpRows _ _ _ _).
  - intros p row. destruct (bumpProjectQuotas_row o st p EmptyString) as (_ & _ & Hb).
    destruct (projectQuotaRow st.1 p) as [old|]; [|congruence].
    case_decide; [|intros; left; congruence].
    destruct Hb as (rev & ? & ->). intros [= <-]. by right.
  - intros p c row. destruct (bumpProjectQuotas_row o st p c) as (-> & _ & _). by left.
Qed.

Lemma organizationQuotaRow_delete T o o' :
  organizationQuotaRow (set_organization_quotas (delete o) T) o' =
  if decide (o' = o) then None else organizationQuotaRow T o'.
Proof.
  unfold organizationQuotaRow. simpl. case_decide as Ho.
  - subst. by rewrite lookup_delete_eq.
  - by rewrite lookup_delete_ne.
Qed.

Lemma newer_dropOrganizationQuota o st : newer st (dropOrganizationQuota o st).
Proof.
  destruct st as [T s]. split; simpl; [done| | by intros; apply newer_row_refl..].
  intros o' row. rewrite organizationQuotaRow_delete. case_decide; [done|by left].
Qed.

(** What [DeleteForOrganization] leaves: the rows of the other organizations. *)
Lemma dropOrganizationRows_row o st o' p c :
  (∀ row, organizationQuotaRow (dropOrganizationRows o st).1 o' = Some row ↔
     o' ≠ o ∧ organizationQuotaRow st.1 o' = Some row) ∧
  (∀ row, projectQuotaRow (dropOrganizationRows o st).1 p = Some row ↔
     pq_OrganizationId row ≠ o ∧ projectQuotaRow st.1 p = Some row) ∧
  azQuotaRow (dropOrganizationRows o st).1 p c =
    if project_of st.1 o p then None else azQuotaRow st.1 p c.
Proof.
  split_and!.
  - intros row. unfold dropOrganizationRows. simpl. rewrite organizationQuotaRow_delete.
    case_decide; naive_solver.
  - intros row. unfold projectQuotaRow. simpl.
    destruct (project_quotas st.1 !! p) as [old|] eqn:Hold.
    + destruct (decide (pq_OrganizationId old = o)) as [Heq|Hne].
      * rewrite map_lookup_filter_None_2 by (right; intros ? ?; simplify_eq; naive_solver).
        simpl. split; [done|]. intros [Hne Hrow]. destruct (pq_Deleted old); by simplify_eq.
      * rewrite (map_lookup_filter_Some_2 _ _ _ old) by done. simpl.
        destruct (pq_Deleted old); [naive_solver|]. split; [by intros [= <-] | by intros [_ ?]].
    + rewrite map_lookup_filter_None_2 by by left. naive_solver.
  - unfold azQuotaRow. simpl. destruct (project_of st.1 o p) eqn:Hp.
    + rewrite map_lookup_filter_None_2; [done|]. right. intros ? _. congruence.
    + f_equal. apply option_eq. intros row. rewrite map_lookup_filter_Some. naive_solver.
Qed.

Lemma newer_dropOrganizationRows o st : newer st (dropOrganizationRows o st).
Proof.
  split; [done|..].
  - intros o' row Hrow. left.
    by apply (proj1 (dropOrganizationRows_row o st o' EmptyString EmptyString)) in Hrow as [_ ?].
  - intros p row Hrow. left.
    by apply (proj1 (proj2 (dropOrganizationRows_row o st EmptyString p EmptyString))) in Hrow as [_ ?].
  - intros p c row. destruct (dropOrganizationRows_row o st EmptyString p c) as (_ & _ & ->).
    destruct (project_of st.1 o p); [done | by left].
Qed.

(** The tables on which revisions depend. *)
Lemma newer_same st T' :
  organization_quotas T' = organization_quotas st.1 → project_quotas T' = project_quotas st.1 →
  project_az_quotas T' = project_az_quotas st.1 → newer st (T', st.2).
Proof.
  intros Ho Hp Ha. split; simpl; [done|..].
  - intros o. unfold organizationQuotaRow. rewrite Ho. apply newer_row_refl.
  - intros p. unfold projectQuotaRow. rewrite Hp. apply newer_row_refl.
  - intros p c. unfold azQuotaRow. rewrite Ha. apply newer_row_refl.
Qed.

Lemma newer_dropOrganization o st : newer st (dropOrganization o st).
Proof.
  unfold dropOrganization. destruct (organizationRow st.1 o).
  - etrans; [apply (newer_dropOrganizationRows o)|]. by apply newer_same.
  - by apply newer_same.
Qed.

Lemma newer_forward T s s' : s ≤ s' → newer (T, s) (T, s').
Proof. intros Hs. split; [done|..]; intros; apply newer_row_refl. Qed.

(** A request that only inserts, or fails, or only touches other tables. *)
Lemma request_newer req w result w' :
  quotas_ok (tables w) → request_ok (tables w) req → run_request AZs req w = (result, w') →
  newer (tables w, seq w) (tables w', seq w').
Proof.
  intros Hok Hreq Hrun. pose proof (run_request_forward AZs req w) as Hfw. rewrite Hrun in Hfw.
  simpl in Hfw.
  destruct req as [o r|o p r|o p c r|o|o p|o p|o p|o|p reason message|p reason]; simpl in Hreq, Hrun.
  - destruct (drop_result_run _ _ _ _ Hrun) as [[row Hr]|[e Hr]].
    + by eapply set_organization_grows.
    + rewrite (SetOrganizationQuota_Err AZs o r w e w' Hr). by apply newer_forward.
  - destruct (drop_result_run _ _ _ _ Hrun) as [[row Hr]|[e Hr]].
    + apply SetProjectQuota_Ok in Hr as (_ & _ & _ & _ & _ & ->). apply grows_saveTo.
    + rewrite (SetProjectQuota_Err AZs o p r w e w' Hr). by apply newer_forward.
  - destruct (drop_result_run _ _ _ _ Hrun) as [[row Hr]|[e Hr]].
    + apply SetProjectAZQuota_Ok in Hr as (_ & _ & _ & _ & -> & _). apply grows_putAZQuota.
    + rewrite (SetProjectAZQuota_Err AZs o p c r w e w' Hr). by apply newer_forward.
  - destruct result as [u|e]; [|rewrite (transaction_Err _ _ _ _ Hrun); by apply newer_forward].
    apply DeleteOrganizationQuota_Ok in Hrun as [_ ->].
    etrans; [apply newer_dropOrganizationQuota|].
    etrans; [apply newer_bumpAZQuotas | apply newer_bumpProjectQuotas].
  - destruct result as [u|e]; [|rewrite (transaction_Err _ _ _ _ Hrun); by apply newer_forward].
    apply DeleteProjectQuota_Ok in Hrun as (_ & _ & _ & ->). apply newer_dropProjectRows.
  - destruct (drop_result_run _ _ _ _ Hrun) as [[row Hr]|[e Hr]].
    + apply exec_Ok in Hr as [[= _ <- <-] _]. by apply (newer_same (tables w, seq w)).
    + rewrite (exec_Err _ _ _ _ Hr). by apply newer_forward.
  - destruct result as [u|e]; [|rewrite (transaction_Err _ _ _ _ Hrun); by apply newer_forward].
    apply DeleteById_Ok in Hrun as (_ & _ & ->).
    etrans; [apply (newer_dropProjectRows p)|]. by apply (newer_same (dropProjectRows p _)).
  - unfold DeleteOrganization in Hrun. rewrite bind_eq in Hrun.
    destruct (deleteOrganizationRows o w) as [[u|e] w1] eqn:Hdel.
    + assert (newer (tables w, seq w) (tables w1, seq w1)) as Hn.
      { apply deleteOrganizationRows_Ok in Hdel as [_ ->]. apply newer_dropOrganization. }
      destruct result as [u'|e].
      * apply exec_Ok in Hrun as [[= _ <- <-] _]. etrans; [exact Hn|].
        by apply (newer_same (tables w1, seq w1)).
      * rewrite (exec_Err _ _ _ _ Hrun). etrans; [exact Hn|]. apply newer_forward.
        assert (Forward (DeleteAllByOrgaId (C:=C) o)) as Hd
          by (apply forward_exec; intros; simpl; lia).
        specialize (Hd w1). by rewrite Hrun in Hd.
    + injection Hrun as _ <-. rewrite (transaction_Err _ _ _ _ Hdel). by apply newer_forward.
  - destruct result as [u'|e]; [|rewrite (exec_Err _ _ _ _ Hrun); by apply newer_forward].
    apply exec_Ok in Hrun as [[= _ <- <-] _]. by apply (newer_same (tables w, seq w)).
  - destruct result as [u'|e]; [|rewrite (exec_Err _ _ _ _ Hrun); by apply newer_forward].
    apply exec_Ok in Hrun as [[= _ <- <-] _]. by apply (newer_same (tables w, seq w)).
Qed.

(** Stored revisions never exceed the sequence. *)
Definition revisions_bounded (st : Tables * Z) : Prop :=
  0 ≤ st.2 ∧ (∀ o row, organizationQuotaRow st.1 o = Some row → oq_Revision row ≤ st.2) ∧
  (∀ p row, projectQuotaRow st.1 p = Some row → pq_Revision row ≤ st.2) ∧
  ∀ p c row, azQuotaRow st.1 p c = Some row → aq_Revision row ≤ st.2.

Lemma newer_bounded st st' : newer st st' → revisions_bounded st → revisions_bounded st'.
Proof.
  intros [Hs Ho Hp Ha] (H0 & Bo & Bp & Ba). split_and!; [lia|..].
  - intros o row Hrow. destruct (Ho o row Hrow) as [Hb|?]; [apply Bo in Hb; lia | lia].
  - intros p row Hrow. destruct (Hp p row Hrow) as [Hb|?]; [apply Bp in Hb; lia | lia].
  - intros p c row Hrow. destruct (Ha p c row Hrow) as [Hb|?]; [apply Ba in Hb; lia | lia].
Qed.

Lemma bounded_hierarchyRevision st o p c :
  revisions_bounded st → hierarchyRevision (hierarchyOf st.1 o p) c ≤ st.2.
Proof.
  intros (H0 & Bo & Bp & Ba). rewrite hierarchyRevision_max.
  specialize (Bo o). specialize (Bp p). specialize (Ba p c).
  destruct (organizationQuotaRow st.1 o), (projectQuotaRow st.1 p), (azQuotaRow st.1 p c); simpl;
    repeat match goal with H : ∀ row, Some _ = Some row → _ |- _ => specialize (H _ eq_refl) end; lia.
Qed.

Lemma reachable_bounded st : loaded AZs → reachable (C:=C) AZs st → revisions_bounded st.
Proof.
  intros Hl. induction 1 as [orgs s Hs|st st' Hr IH Hstep]; [by split_and!|].
  inversion Hstep as [req w result w' Hreq Hrun]; subst.
  eapply newer_bounded; [|exact IH]. eapply request_newer; [|done..].
  by apply (reachable_ok AZs Hl (tables w, seq w)).
Qed.

Lemma live_project_bump o st o' p :
  live_project (bumpProjectQuotas o (bumpAZQuotas o st)).1 o' p = live_project st.1 o' p.
Proof. apply live_project_frame, frame_bump. Qed.

(** Removing the quota of an organization: what is left of its projects has a new revision. *)
Lemma DeleteOrganizationQuota_sound o T s o' p c :
  tables_wf T → live_project T o' p = true →
  revision_sound (T, s) (bumpProjectQuotas o (bumpAZQuotas o (dropOrganizationQuota o (T, s)))) o' p c.
Proof.
  intros Hwf Hl. set (st1 := dropOrganizationQuota o (T, s)).
  set (st2 := bumpAZQuotas o st1). set (st3 := bumpProjectQuotas o st2).
  assert (organizationQuotaRow st3.1 o' = if decide (o' = o) then None else organizationQuotaRow T o')
    as Ho.
  { rewrite <-organizationQuotaRow_delete. change (set_organization_quotas (delete o) T) with st1.1.
    apply organizationQuotaRow_frame. apply (frame_bump o st1). }
  destruct (bumpAZQuotas_row o st1 p c) as (Hp2 & Hs2 & Ha2). fold st2 in Hp2, Hs2, Ha2.
  destruct (bumpProjectQuotas_row o st2 p c) as (Ha3 & Hs3 & Hp3). fold st3 in Ha3, Hs3, Hp3.
  change (projectQuotaRow st1.1 p) with (projectQuotaRow T p) in Hp2.
  change (azQuotaRow st1.1 p c) with (azQuotaRow T p c) in Ha2.
  change (live_project st1.1 o p) with (live_project T o p) in Ha2.
  change (st1.2) with s in Hs2, Ha2. rewrite Hp2 in Hp3.
  destruct (decide (o' = o)) as [->|Hne].
  - destruct (projectQuotaRow T p) as [row|] eqn:Hrow.
    { rewrite decide_True in Hp3 by by eapply wf_project_org.
      destruct Hp3 as (rev & ? & Hp3). left. rewrite hierarchyRevision_max, Hp3. simpl. lia. }
    destruct (azQuotaRow T p c) as [row|] eqn:Haz.
    { rewrite Hl in Ha2. destruct Ha2 as (rev & ? & Ha2). left.
      rewrite hierarchyRevision_max, Ha3, Ha2. simpl. lia. }
    apply no_rows_sound. unfold hierarchyRows. by rewrite Ho, Hp3, Ha3, Ha2.
  - apply same_rows_sound. unfold hierarchyRows. rewrite Ho, Ha3. simpl.
    assert (live_project T o p = false) as Hl'.
    { destruct (live_project T o p) eqn:Hl'; [|done]. by destruct Hne; eapply live_project_unique. }
    rewrite Hl' in Ha2. f_equal; [f_equal|].
    + destruct (projectQuotaRow T p) as [row|] eqn:Hrow; [|done].
      rewrite decide_False in Hp3; [done|].
      intros Heq. apply Hne. rewrite <-Heq. symmetry. by apply (wf_project_org T Hwf o' p row).
    + by destruct (azQuotaRow T p c).
Qed.

Lemma DeleteById_sound p T s o' p' c :
  p' ≠ p → revision_sound (T, s) (dropProject p (T, s)) o' p' c.
Proof.
  intros Hne. apply same_rows_sound. destruct (dropProjectRows_other p (T, s) p' c Hne) as [Hp Ha].
  unfold hierarchyRows. f_equal; [f_equal|]; [exact Hp | exact Ha].
Qed.

Lemma DeleteOrganization_sound o T s o' p c :
  tables_wf T → live_project T o' p = true → o' ≠ o →
  revision_sound (T, s) (dropOrganization o (T, s)) o' p c.
Proof.
  intros Hwf Hl Hne. apply same_rows_sound. unfold dropOrganization. cbn [fst].
  destruct (organizationRow T o); [|reflexivity]. set (st1 := dropOrganizationRows o (T, s)).
  change (hierarchyRows st1.1 o' p c = hierarchyRows T o' p c).
  destruct (dropOrganizationRows_row o (T, s) o' p c) as (Ho & Hp & Ha). fold st1 in Ho, Hp, Ha.
  clearbody st1. cbn [fst] in Ho, Hp, Ha. unfold hierarchyRows. f_equal; [f_equal|].
  - apply option_eq. intros row. rewrite Ho. naive_solver.
  - apply option_eq. intros row. rewrite Hp. split; [naive_solver|]. intros Hrow. split; [|done].
    by rewrite (wf_project_org T Hwf o' p row).
  - rewrite Ha. assert (project_of T o p = false) as ->; [|done].
    unfold project_of. unfold live_project in Hl. destruct (projects T !! p); [|done].
    apply andb_true_iff in Hl as [Hl%bool_decide_eq_true_1 _].
    apply bool_decide_eq_false_2. congruence.
Qed.

(** Every successful request is sound for the projects it leaves. *)
Lemma request_sound req w w' o p c :
  quotas_ok (tables w) → request_ok (tables w) req → run_request AZs req w = (Ok tt, w') →
  live_project (tables w') o p = true →
  revision_sound (tables w, seq w) (tables w', seq w') o p c.
Proof.
  intros Hok Hreq Hrun Hl. pose proof Hok as [Hwf _].
  destruct req as [o1 r|o1 p1 r|o1 p1 c1 r|o1|o1 p1|o1 p1|o1 p1|o1|p1 reason message|p1 reason];
    simpl in Hreq, Hrun.
  - destruct (drop_result_run _ _ _ _ Hrun) as [[row Hr]|[e Hr]];
      [|unfold drop_result in Hrun; by rewrite bind_eq, Hr in Hrun].
    apply grows_sound. by eapply set_organization_grows.
  - destruct (drop_result_run _ _ _ _ Hrun) as [[row Hr]|[e Hr]];
      [|unfold drop_result in Hrun; by rewrite bind_eq, Hr in Hrun].
    apply SetProjectQuota_Ok in Hr as (_ & _ & _ & _ & _ & ->). apply grows_sound, grows_saveTo.
  - destruct (drop_result_run _ _ _ _ Hrun) as [[row Hr]|[e Hr]];
      [|unfold drop_result in Hrun; by rewrite bind_eq, Hr in Hrun].
    apply SetProjectAZQuota_Ok in Hr as (_ & _ & _ & _ & -> & _). apply grows_sound, grows_putAZQuota.
  - apply DeleteOrganizationQuota_Ok in Hrun as [_ Heq]. rewrite Heq.
    apply DeleteOrganizationQuota_sound; [done|].
    apply (f_equal fst) in Heq. cbn [fst] in Heq. rewrite Heq in Hl.
    by rewrite (live_project_bump o1 (dropOrganizationQuota o1 (tables w, seq w))) in Hl.
  - apply DeleteProjectQuota_Ok in Hrun as (Hl1 & Hnone & _ & Heq). rewrite Heq.
    apply (f_equal fst) in Heq. simpl in Heq. rewrite Heq in Hl.
    destruct (decide (p = p1)) as [->|Hne].
    + assert (o = o1) as -> by by eapply live_project_unique.
      apply no_rows_sound. destruct (dropProjectRows_self p1 (tables w, seq w) c) as [Hp Ha].
      unfold hierarchyRows. rewrite Hp, Ha. f_equal; f_equal. exact Hnone.
    + apply same_rows_sound. destruct (dropProjectRows_other p1 (tables w, seq w) p c Hne) as [Hp Ha].
      unfold hierarchyRows. f_equal; [f_equal|]; [exact Hp | exact Ha].
  - destruct (drop_result_run _ _ _ _ Hrun) as [[row Hr]|[e Hr]];
      [|unfold drop_result in Hrun; by rewrite bind_eq, Hr in Hrun].
    apply exec_Ok in Hr as [[= _ <- <-] _]. by apply same_rows_sound.
  - apply DeleteById_Ok in Hrun as (_ & _ & Heq). rewrite Heq. apply DeleteById_sound.
    apply (f_equal fst) in Heq. cbn [fst] in Heq. rewrite Heq in Hl.
    by apply live_soft_deleted in Hl as [_ ?].
  - unfold DeleteOrganization in Hrun. rewrite bind_eq in Hrun.
    destruct (deleteOrganizationRows o1 w) as [[u|e] w1] eqn:Hdel; [|done].
    apply deleteOrganizationRows_Ok in Hdel as [_ Heq].
    apply exec_Ok in Hrun as [[= HT Hs] _].
    assert (live_project (tables w1) o p = true) as Hl1 by by rewrite <-HT in Hl.
    rewrite <-HT, <-Hs.
    change (revision_sound (tables w, seq w) (tables w1, seq w1) o p c). rewrite Heq.
    apply (f_equal fst) in Heq. cbn [fst] in Heq. rewrite Heq in Hl1.
    assert (live_project (tables w) o p = true ∧ o ≠ o1) as [? ?]; [|by apply DeleteOrganization_sound].
    revert Hl1. unfold dropOrganization, live_project. cbn.
    assert (projects (if organizationRow (tables w) o1 is Some _
      then dropOrganizationRows o1 (tables w, seq w) else (tables w, seq w)).1 = projects (tables w))
      as Hproj by by destruct (organizationRow (tables w) o1).
    rewrite Hproj, lookup_fmap. destruct (projects (tables w) !! p) as [row|]; simpl; [|done].
    case_decide; simpl; [by rewrite andb_false_r|]. intros Hl1. split; [done|].
    apply andb_true_iff in Hl1 as [Hl1%bool_decide_eq_true_1 _]. congruence.
  - apply exec_Ok in Hrun as [[= <- <-] _]. by apply same_rows_sound.
  - apply exec_Ok in Hrun as [[= <- <-] _]. by apply same_rows_sound.
Qed.
End requests_sound.
