(* ===== verification/QuotaDecisions.v ===== *)
(** * What the quota writes decide

    Without failures of the database, each write accepts exactly the requests that fit, answers
    the documented error for the others, and leaves the documented quotas. *)

From S2P Require Import Prelude Quantity Errors QuotaResources Database AZConfig Hierarchical.
From S2P Require Import QuotaSpec QuotaRules QuotaWrites QuotaOrganization.
From S2P Require Import QuotaDeletes QuotaInvariant.

(** ** Runs without failures *)
Section runs.
Context {QL : QuantityLib} {C : Type}.
Implicit Types (o p : uuid) (w : World C).

Lemma with_tables_id w : with_tables w (tables w) = w.
Proof. by destruct w. Qed.

Lemma reads_bind_run {A B} (m : M C A) (k : A → M C B) f w a `{!Reads m f} :
  faults w = [] → f (tables w) = Ok a → (m ≫= k) w = k a w.
Proof. intros Hf Ha. rewrite bind_eq, (reads_exact (m:=m)) by done. by rewrite Ha. Qed.

Lemma reads_bind_run_Err {A B} (m : M C A) (k : A → M C B) f w e `{!Reads m f} :
  faults w = [] → f (tables w) = Err e → (m ≫= k) w = (Err e, w).
Proof. intros Hf Ha. rewrite bind_eq, (reads_exact (m:=m)) by done. by rewrite Ha. Qed.

(** A transaction of an organization, from the run of its body. *)
Lemma inOrganizationTransaction_run {A} o (fn : M C A) w result w' :
  faults w = [] → is_Some (organizationRow (tables w) o) → fn w = (result, w') → faults w' = [] →
  inOrganizationTransaction o fn w =
    match result with Ok a => (Ok a, w') | Err e => (Err e, with_tables w' (tables w)) end.
Proof.
  intros Hf [row Hrow] Hfn Hf'. unfold inOrganizationTransaction.
  apply transaction_no_faults; [done| |done].
  rewrite <-Hfn. eapply (reads_bind_run (lockOrganization o) (λ _, fn)); [apply _|done|]. simpl. by rewrite Hrow.
Qed.

Lemma inProjectTransaction_run {A} o p (fn : M C A) w result w' :
  faults w = [] → is_Some (organizationRow (tables w) o) → live_project (tables w) o p = true →
  fn w = (result, w') → faults w' = [] →
  inProjectTransaction o p fn w =
    match result with Ok a => (Ok a, w') | Err e => (Err e, with_tables w' (tables w)) end.
Proof.
  intros Hf Ho Hl Hfn Hf'. apply inOrganizationTransaction_run; [done|done| |done].
  rewrite <-Hfn. eapply (reads_bind_run (checkProject o p) (λ _, fn)); [apply _|done|]. simpl. by rewrite Hl.
Qed.

Lemma inProjectTransaction_missing {A} o p (fn : M C A) w :
  faults w = [] →
  (organizationRow (tables w) o = None →
    inProjectTransaction o p fn w = (Err (ErrOrganizationNotFound : error), w)) ∧
  (is_Some (organizationRow (tables w) o) → live_project (tables w) o p = false →
    inProjectTransaction o p fn w = (Err (ErrProjectNotFound : error), w)).
Proof.
  intros Hf. split.
  - intros Ho. unfold inProjectTransaction, inOrganizationTransaction.
    rewrite (transaction_no_faults _ w (Err (ErrOrganizationNotFound : error)) w); [|done| |done].
    { by rewrite with_tables_id. }
    eapply (reads_bind_run_Err (lockOrganization o)); [apply _|done|]. simpl. by rewrite Ho.
  - intros Ho Hl. unfold inProjectTransaction.
    rewrite (inOrganizationTransaction_run _ _ w (Err (ErrProjectNotFound : error)) w); [|done|done| |done].
    { by rewrite with_tables_id. }
    eapply (reads_bind_run_Err (checkProject o p)); [apply _|done|]. simpl. by rewrite Hl.
Qed.
End runs.

Section decisions.
Context {QL : QuantityLib} {QLaws : QuantityLaws QL} {C : Type} `{!AZHooks C}.
Context (AZs : gmap string AZConfig).
Implicit Types (o p : uuid) (c : string) (r : Resources) (w : World C).

(** A world in which nothing fails, with well-formed tables and a live organization. *)
Record working w o : Prop := {
  working_faults : faults w = [];
  working_wf : tables_wf (tables w);
  working_organization : is_Some (organizationRow (tables w) o);
}.

(** ** Project quotas *)

(** The rules of a project quota: it covers the AZ quotas of the project, and fits in what the
    organization has left on every resource it raises. *)
Definition project_quota_fits (T : Tables) o p r : Prop :=
  (∀ n l, WithZeros (parsed r) (parsed (organizationResources T o)) !! n = Some l →
    azHeld T p n ≤ l) ∧
  (∀ n l v, parsed (organizationResources T o) !! n = Some l → parsed r !! n = Some v →
    projectAllocated T p n < v → othersAllocated T o p n + v ≤ l).

Definition project_body o p r (T : Tables) : result error unit :=
  _ ← checkProjectCoversAZs (hierarchyOf T o p) r;
  projectFitsOf T o p (parsed r) (organizationResources T o).

Lemma SetProjectQuota_run o p r w :
  working w o → parses r → live_project (tables w) o p = true →
  let T := tables w in
  SetProjectQuota AZs o p r w =
    match project_body o p r T with
    | Err e => (Err e, w)
    | Ok _ =>
      let '(T', s') := saveTo AZs o p r (bool_decide (projectAZs T p ≠ ∅)) (T, seq w) in
      (Ok (mkProjectQuota o r (seq w + 1) false), mkWorld T' s' [] (outside w))
    end.
Proof.
  intros [Hf Hwf Ho] Hp Hl. cbn zeta. unfold SetProjectQuota.
  rewrite (parses_Ok r Hp). change (lift (Ok (parsed r)) ≫= ?k) with (λ w, k (parsed r) w). cbn beta.
  set (body := _ ≫= _).
  assert (body w = match project_body o p r (tables w) with
    | Err e => (Err e, w)
    | Ok _ =>
      let '(T', s') := saveTo AZs o p r (bool_decide (projectAZs (tables w) p ≠ ∅)) (tables w, seq w) in
      (Ok (mkProjectQuota o r (seq w + 1) false), mkWorld T' s' [] (outside w))
    end) as Hbody.
  { unfold body, project_body. erewrite reads_bind_run; [|apply _|done|done].
    unfold lift. rewrite bind_eq.
    destruct (checkProjectCoversAZs _ _) as [[]|e]; [|done]. simpl. rewrite bind_eq.
    erewrite (reads_exact (Reads:=reads_checkProjectFitsInOrganization _ _ _ _)) by done. simpl.
    destruct (projectFitsOf _ _ _ _ _) as [[]|e]; [|done]. simpl.
    pose proof (writes_saveProjectQuota (C:=C) AZs o p r
      (bool_decide (projectAZs (tables w) p ≠ ∅)) Hp) as Hw.
    by rewrite (writes_exact (Writes:=Hw)). }
  destruct (project_body o p r (tables w)) as [u|e].
  - destruct (saveTo _ _ _ _ _ _) as [T' s'] eqn:Hsave.
    by rewrite (inProjectTransaction_run _ _ _ _ _ _ Hf Ho Hl Hbody).
  - rewrite (inProjectTransaction_run _ _ _ _ _ _ Hf Ho Hl Hbody) by done.
    by rewrite with_tables_id.
Qed.

Lemma project_body_spec o p r T :
  tables_wf T → live_project T o p = true → valid_quota r →
  match project_body o p r T with
  | Ok _ => project_quota_fits T o p r
  | Err e =>
    err_is e = ErrBelowAllocated ∧ ¬ (∀ n l,
      WithZeros (parsed r) (parsed (organizationResources T o)) !! n = Some l → azHeld T p n ≤ l) ∨
    err_is e = ErrOrgQuotaExceeded ∧ ¬ (∀ n l v,
      parsed (organizationResources T o) !! n = Some l → parsed r !! n = Some v →
      projectAllocated T p n < v → othersAllocated T o p n + v ≤ l)
  end.
Proof.
  intros Hwf Hl Hr. unfold project_body, project_quota_fits.
  pose proof (covers_iff T o p r Hwf Hr) as Hcov.
  pose proof (projectFits_iff T o p (parsed r) Hwf Hl (parsed_in_range r)) as Hfit.
  destruct (checkProjectCoversAZs (hierarchyOf T o p) r) as [[]|e] eqn:Hc; simpl.
  - destruct (projectFitsOf _ _ _ _ _) as [[]|e] eqn:Hf.
    + split; [by apply Hcov | by apply Hfit].
    + right. split; [by eapply projectFits_Err|]. rewrite <-Hfit. done.
  - left. split; [by eapply covers_Err|]. rewrite <-Hcov. done.
Qed.

(** ** AZ quotas *)

Definition effectiveAfter (T : Tables) o p r : Resources :=
  EffectiveAZQuota (organizationResources T o) (projectResources T p) r.

(** The limits a new AZ quota lowers: what was enforced, and is enforced lower. *)
Definition loweredOf (T : Tables) o p c r : result error Quantities :=
  loweredLimits (hierarchyAZ (hierarchyOf T o p) c) (effectiveAfter T o p r).

Lemma lookup_loweredLimits before after lowered n :
  loweredLimits before after = Ok lowered →
  lowered !! n =
    match parsed before !! n, parsed after !! n with
    | Some old, Some new => if decide (new < old) then Some new else None
    | _, _ => None
    end.
Proof.
  unfold loweredLimits. intros (qb & [<- Hb]%parsed_Ok & Hrun)%result_bind_Ok.
  apply result_bind_Ok in Hrun as (qa & [<- Ha]%parsed_Ok & [= <-]).
  rewrite (lookup_range _ (λ k new cur, match parsed before !! k with
    | Some old => if decide (new < old) then Some new else cur
    | None => cur end)) by solve_range.
  rewrite lookup_empty. destruct (parsed after !! n), (parsed before !! n); try done.
Qed.

Lemma loweredOf_Ok (T : Tables) o p c r :
  tables_wf T → valid_quota r → ∃ lowered, loweredOf T o p c r = Ok lowered.
Proof.
  intros Hwf [Hr _]. unfold loweredOf, effectiveAfter, hierarchyAZ, EffectiveAZQuota.
  cbn [hierarchyOf h_Organization h_Project h_AZs].
  pose proof (wf_organization T Hwf o) as [Ho _]. pose proof (wf_project T Hwf p) as [Hp _].
  pose proof (valid_az T p c Hwf) as [Haz _].
  assert (Forall parses [organizationResources T o; projectResources T p]) as Hanc
    by (by repeat constructor).
  destruct (Parse_Effective _ _ Haz Hanc) as (qb & Hb & _).
  destruct (Parse_Effective _ _ Hr Hanc) as (qa & Ha & _).
  unfold loweredLimits. rewrite Hb, Ha. simpl. eauto.
Qed.

(** Without lowered limit, the write of an AZ quota depends on the capacity only. *)
Lemma SetProjectAZQuota_run o p c r w :
  working w o → valid_quota r → live_project (tables w) o p = true →
  is_Ok (GetByCode AZs c o) = true → loweredOf (tables w) o p c r = Ok ∅ →
  SetProjectAZQuota AZs o p c r w =
    match checkAZFitsInProject (hierarchyOf (tables w) o p) c (parsed r) with
    | Err e => (Err e, w)
    | Ok _ =>
      (Ok (mkProjectAZQuota r (seq w + 1) false),
       mkWorld (putAZQuota p c r (tables w, seq w)).1 (seq w + 1) [] (outside w))
    end.
Proof.
  intros [Hf Hwf Ho] [Hp _] Hl Haz Hlow. unfold SetProjectAZQuota.
  rewrite (parses_Ok r Hp). change (lift (Ok (parsed r)) ≫= ?k) with (λ w, k (parsed r) w). cbn beta.
  destruct (GetByCode AZs c o); [|done]. set (body := _ ≫= _).
  assert (body w = match checkAZFitsInProject (hierarchyOf (tables w) o p) c (parsed r) with
    | Err e => (Err e, w)
    | Ok _ => (Ok (mkProjectAZQuota r (seq w + 1) false),
       mkWorld (putAZQuota p c r (tables w, seq w)).1 (seq w + 1) [] (outside w))
    end) as Hbody.
  { unfold body. erewrite reads_bind_run; [|apply _|done|done].
    unfold lift. rewrite bind_eq. destruct (checkAZFitsInProject _ _ _) as [[]|e]; [|done].
    rewrite bind_eq. unfold loweredOf, effectiveAfter in Hlow.
    cbn [hierarchyOf h_Organization h_Project h_AZs] in Hlow |- *. rewrite Hlow.
    unfold checkUsage. rewrite decide_True by done.
    change (mret tt ≫= ?k) with (k tt). cbn beta.
    rewrite bind_eq, (writes_exact (m:=upsertAZQuota p c r)) by done. done. }
  destruct (checkAZFitsInProject _ _ _) as [u|e].
  - by rewrite (inProjectTransaction_run _ _ _ _ _ _ Hf Ho Hl Hbody).
  - rewrite (inProjectTransaction_run _ _ _ _ _ _ Hf Ho Hl Hbody) by done.
    by rewrite with_tables_id.
Qed.

(** ** Organization quotas *)

Lemma SetOrganizationQuota_run o r w :
  working w o → valid_quota r →
  match projectAllocationsOf (tables w) o with
  | Err _ => False
  | Ok (rows, allocations) =>
    SetOrganizationQuota AZs o r w =
      match checkNotBelow (parsed r) (sumAllocations allocations) "its projects" with
      | Err e => (Err e, w)
      | Ok _ =>
        let '(T', s') := putOrganizationQuota o r
          (if decide (rows = [])
           then distributeTo AZs o (parsed r) allocations (liveProjectIds (tables w) o) (tables w, seq w)
           else coverTo o (parsed r) (quotasByProject rows) allocations (tables w, seq w)) in
        (Ok (mkOrganizationQuota r s' false), mkWorld T' s' [] (outside w))
      end
  end.
Proof.
  intros [Hf Hwf Ho] Hr.
  destruct (sum_allocations (tables w) o Hwf) as (rows & allocs & Heq & _).
  rewrite Heq. unfold SetOrganizationQuota.
  rewrite (parses_Ok r (proj1 Hr)).
  change (lift (Ok (parsed r)) ≫= ?k) with (λ w, k (parsed r) w). cbn beta.
  set (body := _ ≫= _). set (st' := putOrganizationQuota _ _ _).
  assert (body w = match checkNotBelow (parsed r) (sumAllocations allocs) "its projects" with
    | Err e => (Err e, w)
    | Ok _ => (Ok (mkOrganizationQuota r st'.2 false), mkWorld st'.1 st'.2 [] (outside w))
    end) as Hbody.
  { unfold body. erewrite reads_bind_run; [|apply _|done|done]. cbn beta iota.
    unfold lift. rewrite bind_eq.
    destruct (checkNotBelow _ _ _) as [[]|e] eqn:Hb; [|done].
    rewrite (checkNotBelow_iff (tables w) o r rows) in Hb by done.
    pose proof (writes_distributeAmongProjects (C:=C) AZs o (parsed r) allocs (λ count p,
      distributedQuota_parses (tables w) o r rows allocs count p Hwf Hr Heq Hb)) as Hw.
    unfold st'. case_decide.
    - eassert (Writes _ _) as Hwr; [|rewrite (writes_exact (Writes:=Hwr)) by done]; [apply _|].
      simpl. done.
    - eassert (Writes _ _) as Hwr; [|rewrite (writes_exact (Writes:=Hwr)) by done]; [apply _|].
      simpl. done. }
  destruct (checkNotBelow _ _ _) as [u|e].
  - rewrite (inOrganizationTransaction_run _ _ _ _ _ Hf Ho Hbody) by done.
    unfold st'. by destruct (putOrganizationQuota _ _ _).
  - rewrite (inOrganizationTransaction_run _ _ _ _ _ Hf Ho Hbody) by done.
    by rewrite with_tables_id.
Qed.
End decisions.

(** * The quota overviews and the other reads
      ([internal/superphenix-api/internal/db/crud/quota/hierarchical.go])

    The read-only operations of the hierarchical quotas: what the API answers to [GET] requests.
    A nil [Limit] or [Remaining] is [None]. An overview is read by several statements without a
    lock; its definitions read them from one state of the tables. *)

(** ** Definitions *)

Record OrganizationQuotaOverview := mkOrganizationQuotaOverview {
  oo_OrganizationId : uuid;
  oo_Unlimited : bool;
  oo_Limit : option Resources;
  oo_Allocated : Resources;
  oo_Remaining : option Resources;
  oo_ProjectQuotas : list (uuid * ProjectQuota);
}.

Record AZQuotaOverview := mkAZQuotaOverview {
  ao_CodeAZ : string;
  ao_Limit : option Resources;
  ao_Available : bool;
  ao_Used : Resources;
}.

Record ProjectQuotaOverview := mkProjectQuotaOverview {
  po_ProjectId : uuid;
  po_OrganizationId : uuid;
  po_Unlimited : bool;
  po_Limit : option Resources;
  po_Allocated : Resources;
  po_Remaining : option Resources;
  po_AZQuotas : list AZQuotaOverview;
}.

Section views.
Context {QL : QuantityLib} {C : Type}.
Implicit Types (organizationId projectId : uuid).

Definition effectiveProjectQuotas organizationId (organizationResources : Resources)
    (projectQuotas : list (uuid * ProjectQuota)) : M C (list (uuid * ProjectQuota)) :=
  projectIds ← listProjectIds organizationId;
  let definedQuotas := quotasByProject projectQuotas in
  mret ((λ projectId, (projectId, mkProjectQuota organizationId
    (projectLimit organizationResources (default ∅ (definedQuotas !! projectId))) 0 false))
    <$> projectIds).

Definition GetOrganizationQuotaOverview organizationId : M C OrganizationQuotaOverview :=
  organizationQuota ← findOrganizationQuota organizationId;
  '(projectQuotas, allocations) ← projectAllocations organizationId;
  let allocated := sumAllocations allocations in
  let resources := default ∅ (oq_Resources <$> organizationQuota) in
  if decide (organizationQuota = None ∨ size resources = 0%nat) then
    mret (mkOrganizationQuotaOverview organizationId true None (toResources allocated) None
      projectQuotas)
  else
    organizationLimit ← lift (Parse resources);
    effective ← effectiveProjectQuotas organizationId resources projectQuotas;
    mret (mkOrganizationQuotaOverview organizationId false (Some resources)
      (toResources (WithZeros allocated organizationLimit))
      (Some (toResources (Sub organizationLimit allocated))) effective).

(** The codes listed: those with an AZ quota, then those of the configuration without one. *)
Definition overviewCodes (AZs : gmap string AZConfig) organizationId (hierarchy : Hierarchy) :
    list string :=
  sort_strings (foldl (λ codes azConfig,
    match h_AZs hierarchy !! Code azConfig with
    | None => codes ++ [Code azConfig]
    | Some _ => codes
    end) (map_to_list (h_AZs hierarchy)).*1 (FindAll AZs organizationId)).

Definition azQuotaOverviews (AZs : gmap string AZConfig) organizationId (hierarchy : Hierarchy) :
    list AZQuotaOverview :=
  (λ code, let effectiveLimit := hierarchyAZ hierarchy code in
    mkAZQuotaOverview code
      (if decide (size effectiveLimit = 0%nat) then None else Some effectiveLimit) false ∅)
    <$> overviewCodes AZs organizationId hierarchy.

Definition GetProjectQuotaOverview (AZs : gmap string AZConfig) organizationId projectId :
    M C ProjectQuotaOverview :=
  _ ← checkProject organizationId projectId;
  hierarchy ← loadHierarchy organizationId projectId;
  allocatedToAZs ← lift (sumAZQuotas (h_AZs hierarchy) EmptyString);
  let azQuotas := azQuotaOverviews AZs organizationId hierarchy in
  let effectiveLimit := projectLimit (h_Organization hierarchy) (h_Project hierarchy) in
  if decide (size effectiveLimit = 0%nat) then
    mret (mkProjectQuotaOverview projectId organizationId true None
      (toResources allocatedToAZs) None azQuotas)
  else
    parsedLimit ← lift (Parse effectiveLimit);
    mret (mkProjectQuotaOverview projectId organizationId false (Some effectiveLimit)
      (toResources (WithZeros allocatedToAZs parsedLimit))
      (Some (toResources (Sub parsedLimit allocatedToAZs))) azQuotas).

(** [ORDER BY orga_id, id] *)
Definition ListAllProjects : M C (list (uuid * uuid)) :=
  query (λ T, merge_sort pair_le
    ((λ '(id, p), (p_OrgaId p, id)) <$> filter (λ '(_, p), p_Deleted p = false)
      (map_to_list (projects T)))).

Definition GetHierarchy organizationId projectId : M C Hierarchy :=
  loadHierarchy organizationId projectId.

Definition GetProjectQuota projectId : M C (option ProjectQuota) := findProjectQuota projectId.

Definition ListProjectIds organizationId : M C (list uuid) := listProjectIds organizationId.

Definition WithOrganizationLock {A} organizationId (fn : M C A) : M C A :=
  inOrganizationTransaction organizationId fn.
End views.

(** ** What the overviews compute *)
Section computed.
Context {QL : QuantityLib} {C : Type}.
Implicit Types (o p : uuid) (T : Tables) (r : Resources).

Definition organizationOverviewFrom T o (row : option OrganizationQuota)
    (x : list (uuid * ProjectQuota) * gmap uuid Quantities) : result error OrganizationQuotaOverview :=
  let '(projectQuotas, allocations) := x in
  let allocated := sumAllocations allocations in
  let resources := default ∅ (oq_Resources <$> row) in
  if decide (row = None ∨ size resources = 0%nat) then
    Ok (mkOrganizationQuotaOverview o true None (toResources allocated) None projectQuotas)
  else
    organizationLimit ← Parse resources;
    Ok (mkOrganizationQuotaOverview o false (Some resources)
      (toResources (WithZeros allocated organizationLimit))
      (Some (toResources (Sub organizationLimit allocated)))
      ((λ p, (p, mkProjectQuota o
        (projectLimit resources (default ∅ (quotasByProject projectQuotas !! p))) 0 false))
        <$> liveProjectIds T o)).

Definition organizationOverviewOf T o : result error OrganizationQuotaOverview :=
  x ← projectAllocationsOf T o; organizationOverviewFrom T o (organizationQuotaRow T o) x.

#[export] Instance reads_organizationOverview o :
  Reads (C:=C) (GetOrganizationQuotaOverview o) (λ T, organizationOverviewOf T o).
Proof.
  unfold GetOrganizationQuotaOverview. eapply reads_ext.
  - apply reads_bind; [apply _|]. intros row.
    eapply (reads_bind _ _ _ (λ x T, organizationOverviewFrom T o row x)); [apply _|].
    intros [rows allocations]. unfold effectiveProjectQuotas, organizationOverviewFrom. cbn zeta.
    eapply reads_ext; [apply _|]. done.
  - done.
Qed.

Definition projectOverviewOf (AZs : gmap string AZConfig) T o p :
    result error ProjectQuotaOverview :=
  if live_project T o p then
    let h := hierarchyOf T o p in
    allocated ← sumAZQuotas (h_AZs h) EmptyString;
    let limit := projectLimit (h_Organization h) (h_Project h) in
    let azQuotas := azQuotaOverviews AZs o h in
    if decide (size limit = 0%nat) then
      Ok (mkProjectQuotaOverview p o true None (toResources allocated) None azQuotas)
    else
      parsedLimit ← Parse limit;
      Ok (mkProjectQuotaOverview p o false (Some limit) (toResources (WithZeros allocated parsedLimit))
        (Some (toResources (Sub parsedLimit allocated))) azQuotas)
  else Err (ErrProjectNotFound : error).

#[export] Instance reads_projectOverview AZs o p :
  Reads (C:=C) (GetProjectQuotaOverview AZs o p) (λ T, projectOverviewOf AZs T o p).
Proof.
  unfold GetProjectQuotaOverview. eapply reads_ext; [apply _|].
  intros T. unfold projectOverviewOf. destruct (live_project T o p); [|done]. simpl.
  destruct (sumAZQuotas _ _); [|done]. simpl. by case_decide.
Qed.

(** The text of an allocation that fits in its limit, and of what remains. *)
Lemma allocated_texts (limit allocated : Quantities) n l total :
  limit !! n = Some l → 0 ≤ l < MaxInt64 → 0 ≤ total ≤ l → in_range limit → in_range allocated →
  get allocated n = Z.min MaxInt64 total →
  toResources (WithZeros allocated limit) !! n = Some (formatEntry n total) ∧
  toResources (Sub limit allocated) !! n = Some (formatEntry n (l - total)).
Proof.
  intros Hl Hr Ht Hlimit Hal Hget.
  rewrite !lookup_toResources, lookup_WithZeros, lookup_Sub_exact, Hget, Hl by done.
  unfold get in Hget. split.
  - destruct (allocated !! n); simpl in *; do 2 f_equal; lia.
  - simpl. do 2 f_equal. lia.
Qed.

Lemma quotasByProject_live T o p :
  tables_wf T → live_project T o p = true →
  default ∅ (quotasByProject (order_by String.le (map_to_list (projectQuotaRows T o))) !! p) =
  projectResources T p.
Proof.
  intros Hwf Hl. unfold quotasByProject, projectResources.
  assert (NoDup (order_by String.le (map_to_list (projectQuotaRows T o))).*1) as Hnd
    by (rewrite order_by_Permutation; apply NoDup_fst_map_to_list).
  destruct (projectQuotaRow T p) as [row|] eqn:Hrow.
  - rewrite (foldl_insert_in pq_Resources _ _ _ row Hnd); [done|].
    rewrite order_by_Permutation. apply elem_of_map_to_list, lookup_projectQuotaRows.
    split_and!; [done | by eapply wf_project_org | done].
  - rewrite (foldl_insert_notin pq_Resources); [done|].
    intros ([p' row] & -> & Hin)%list_elem_of_fmap. rewrite order_by_Permutation in Hin.
    apply elem_of_map_to_list, lookup_projectQuotaRows in Hin as [Hin _]. simpl in *. congruence.
Qed.

Lemma elem_of_overviewCodes (AZs : gmap string AZConfig) o h c :
  c ∈ overviewCodes AZs o h ↔
  is_Some (h_AZs h !! c) ∨ ∃ az, az ∈ FindAll AZs o ∧ Code az = c.
Proof.
  unfold overviewCodes. rewrite elem_of_sort_strings.
  assert (∀ l acc, c ∈ foldl (λ codes azConfig,
    match h_AZs h !! Code azConfig with
    | None => codes ++ [Code azConfig] | Some _ => codes end) acc l ↔
    c ∈ acc ∨ h_AZs h !! c = None ∧ ∃ az, az ∈ l ∧ Code az = c) as ->.
  { induction l as [|az l IH]; intros acc; cbn [foldl]; [set_solver|]. rewrite IH.
    destruct (h_AZs h !! Code az) as [r|] eqn:Haz; split; set_solver by congruence. }
  rewrite list_elem_of_fmap. split.
  - intros [([c' r] & -> & Hin%elem_of_map_to_list)|[_ ?]]; [left; eauto | by right].
  - intros [[r Hr]|Haz]; [left; exists (c, r); by rewrite elem_of_map_to_list|].
    destruct (h_AZs h !! c) as [r|] eqn:Hr; [|by right].
    left. exists (c, r). by rewrite elem_of_map_to_list.
Qed.

Lemma azQuotaOverviews_spec (AZs : gmap string AZConfig) T o p ov :
  po_AZQuotas ov = azQuotaOverviews AZs o (hierarchyOf T o p) →
  Sorted String.le (ao_CodeAZ <$> po_AZQuotas ov) ∧
  (∀ c, c ∈ ao_CodeAZ <$> po_AZQuotas ov ↔
    is_Some (projectAZs T p !! c) ∨ ∃ az, az ∈ FindAll AZs o ∧ Code az = c) ∧
  ∀ az, az ∈ po_AZQuotas ov →
    default ∅ (ao_Limit az) = hierarchyAZ (hierarchyOf T o p) (ao_CodeAZ az).
Proof.
  intros ->. assert (ao_CodeAZ <$> azQuotaOverviews AZs o (hierarchyOf T o p) =
    overviewCodes AZs o (hierarchyOf T o p)) as ->.
  { unfold azQuotaOverviews. rewrite <-list_fmap_compose. apply list_fmap_id. }
  split; [apply sort_strings_Sorted|]. split; [intros c; apply elem_of_overviewCodes|].
  intros az (c & -> & _)%list_elem_of_fmap. simpl. case_decide as Hd; [|done]. simpl.
  by apply map_size_empty_iff in Hd as ->.
Qed.

(** The sum of the AZ quotas of a project, resource by resource. *)
Lemma sumAZQuotas_held {QLaws : QuantityLaws QL} T p :
  tables_wf T →
  ∃ total, sumAZQuotas (projectAZs T p) EmptyString = Ok total ∧ in_range total ∧
    ∀ n, get total n = Z.min MaxInt64 (azHeld T p n).
Proof.
  intros Hwf. assert (map_Forall (λ _ r, parses r) (projectAZs T p)) as Haz
    by (intros c r Hc; by apply (wf_az T Hwf p c r)).
  destruct (sumAZQuotas_spec (projectAZs T p) EmptyString "cpu" Haz) as (total & Htotal & Hr & _).
  exists total. split; [done|]. split; [done|]. intros n.
  destruct (sumAZQuotas_spec (projectAZs T p) EmptyString n Haz) as (total' & Htotal' & _ & Hget).
  assert (total' = total) as -> by congruence. rewrite Hget.
  f_equal. apply sum_map_ext. intros c r Hc. rewrite decide_False; [done|].
  by apply (wf_az T Hwf p c r).
Qed.
End computed.

(** * A small concrete deployment

    Two availability zones, an organization with two projects, and the worlds reached by a few
    requests, on the concrete quantities of [NanoQuantity]: the inputs on which the witnesses of
    the quota theorems evaluate the definitions. *)

Module QuotaSamples.
Import NanoQuantity.

Definition AZs : gmap string AZConfig := populateAZCodes (list_to_map
  [("az1", mkAZConfig EmptyString "secret1" "First" EmptyString "https://az1" "eu" []);
   ("az2", mkAZConfig EmptyString "secret2" "Second" EmptyString "https://az2" "eu" ["o"])]).

Lemma AZs_loaded : loaded AZs.
Proof. evaluate. Qed.

(** One cluster for all AZs: it enforces what it is sent, and reports what it uses. *)
#[export] Instance hooks : AZHooks AZUsage := {|
  ReadUsage := Some (λ _ _ _ cluster, (Ok cluster, cluster));
  PushAZ := Some (λ _ _ _ hard cluster,
    (Ok tt, mkAZUsage (FromKubernetesUsage hard) (Used cluster)));
|}.

Definition tables0 : Tables :=
  set_projects (λ _, list_to_map [("p1", mkProject "o" false); ("p2", mkProject "o" false)])
    (set_organizations (λ _, list_to_map [("o", mkOrganization 1 false)]) no_tables).

Definition w0 : World AZUsage :=
  mkWorld tables0 0 [] (mkAZUsage {["cpu" := 5000]} {["cpu" := 1500]}).

Lemma w0_ok : quotas_ok (tables w0).
Proof. by apply (quotas_ok_no_quotas tables0). Qed.

(** The organization gets 10 CPUs and 4 GiB, distributed among its projects and the AZs. *)
Definition orgQuota : Resources := {["cpu" := "10"; "memory" := "4Gi"]}.

Definition w1 : World AZUsage := (run_request AZs (SetOrganizationQuotaRequest "o" orgQuota) w0).2.

Lemma w1_ok : quotas_ok (tables w1).
Proof.
  eapply (request_preserves AZs AZs_loaded (SetOrganizationQuotaRequest "o" orgQuota) w0);
    [apply w0_ok | | apply surjective_pairing].
  intros _. evaluate.
Qed.

Example w1_distribution :
  projectResources (tables w1) "p1" = {["cpu" := "5"; "memory" := "2147483648"]} ∧
  projectAZs (tables w1) "p1" !! "az2" = Some {["cpu" := "2500m"; "memory" := "1073741824"]}.
Proof. evaluate. Qed.

(** The same organization, reached from an empty database. *)
Definition r0 : World AZUsage :=
  mkWorld (set_organizations (λ _, list_to_map [("o", mkOrganization 1 false)]) no_tables) 0 []
    (mkAZUsage ∅ ∅).
Definition r1 : World AZUsage := (run_request AZs (CreateProjectRequest "o" "p1") r0).2.
Definition r2 : World AZUsage := (run_request AZs (SetOrganizationQuotaRequest "o" orgQuota) r1).2.

Lemma r1_reachable : reachable (C:=AZUsage) AZs (tables r1, seq r1).
Proof.
  apply (reachable_step AZs (tables r0, seq r0)); [by apply reachable_start|].
  eapply (step_request AZs (CreateProjectRequest "o" "p1") r0); [|apply surjective_pairing].
  split; [done|]. vm_compute. done.
Qed.

Lemma r2_reachable : reachable (C:=AZUsage) AZs (tables r2, seq r2).
Proof.
  apply (reachable_step AZs (tables r1, seq r1)).
  - apply r1_reachable.
  - eapply (step_request AZs (SetOrganizationQuotaRequest "o" orgQuota) r1); [|apply surjective_pairing].
    intros _. evaluate.
Qed.

Lemma working_w0 : working w0 "o".
Proof. split; [done | apply w0_ok | by eexists]. Qed.

Lemma working_w1 : working w1 "o".
Proof.
  split; [vm_compute; reflexivity | apply w1_ok |].
  apply (bool_decide_unpack (is_Some (organizationRow (tables w1) "o"))). vm_compute. exact I.
Qed.

(** The runs of the witnesses: whether a result is the expected error. *)
Definition fails_with {A} (result : result error A) (s : sentinel) : bool :=
  match result with Err e => errors_Is e s | Ok _ => false end.
End QuotaSamples.
