(* ===== verification/QuotaTheorems.v ===== *)
(** * The theorems of the hierarchical quotas

    What a caller of [internal/db/crud/quota] relies on: no child ever exceeds its parent, each
    write accepts exactly what fits and answers the documented error otherwise, an organization
    quota reaches its projects as documented, and capacity is only freed once the cluster of the
    availability zone has confirmed it. *)

From S2P Require Import Prelude Errors Quantity QuotaResources Database AZConfig.
From S2P Require Import Hierarchical QuotaSpec QuotaRules.
From S2P Require Import QuotaRules QuotaWrites QuotaOrganization QuotaDeletes.
From S2P Require Import QuotaInvariant QuotaRevisions QuotaDecisions.
Section theorems.
Context {QL : QuantityLib} {QLaws : QuantityLaws QL} {C : Type} `{!AZHooks C}.
Implicit Types (o p : uuid) (c : string) (r : Resources) (w : World C).

(** C1: whatever the sequence of requests (quota writes, deletions, creations and deletions of
    projects and organizations), and whichever statements, usage reads and pushes fail, the
    live projects of every organization are never allocated more than its quota, and the AZ
    quotas of every live project never exceed its effective limit. *)
Theorem reachable_capacity (AZs : gmap string AZConfig) st :
  loaded AZs → reachable (C:=C) AZs st →
  (∀ o n limit, parsed (organizationResources st.1 o) !! n = Some limit →
    organizationAllocated st.1 o n ≤ limit) ∧
  (∀ o p n limit, live_project st.1 o p = true →
    parsed (projectLimit (organizationResources st.1 o) (projectResources st.1 p)) !! n = Some limit →
    azHeld st.1 p n ≤ limit).
Proof.
  intros Hl Hreach.
  destruct (reachable_ok AZs Hl st Hreach) as [_ Hcap].
  split.
  - intros o. apply Hcap.
  - intros o p n limit Hlive. by apply Hcap.
Qed.

(** C2: without failures, an organization quota is accepted exactly when, on every resource it
    limits, it is not below what its live projects are allocated; it is refused with
    [ErrBelowAllocated] otherwise, and then nothing changes. *)
Theorem SetOrganizationQuota_decides (AZs : gmap string AZConfig) o r w :
  working w o → valid_quota r →
  match SetOrganizationQuota AZs o r w with
  | (Ok row, w') =>
    covers_projects (tables w) o (parsed r) ∧ oq_Resources row = r ∧
    organizationResources (tables w') o = r
  | (Err e, w') =>
    ¬ covers_projects (tables w) o (parsed r) ∧ err_is e = ErrBelowAllocated ∧ w' = w
  end.
Proof.
  intros Hw Hr. pose proof (SetOrganizationQuota_run AZs o r w Hw Hr) as Hrun.
  destruct (projectAllocationsOf (tables w) o) as [[rows allocs]|] eqn:Hal; [|done].
  rewrite Hrun. clear Hrun.
  pose proof (checkNotBelow_iff (tables w) o r rows allocs (working_wf w o Hw) Hr Hal) as Hiff.
  destruct (checkNotBelow _ _ _) as [[]|e] eqn:Hc.
  - destruct (putOrganizationQuota _ _ _) as [T' s'] eqn:Hput. split; [by apply Hiff|].
    split; [done|]. injection Hput as <- _. unfold organizationResources, organizationQuotaRow.
    simpl. by rewrite lookup_insert_eq.
  - split; [by rewrite <-Hiff|]. split; [by eapply checkNotBelow_Err | done].
Qed.

(** C3: without failures, a project quota is accepted exactly when it covers the AZ quotas of
    the project, counting as 0 what it omits and the organization limits, and every resource
    it raises fits in what the organization has left. It is refused with [ErrBelowAllocated] or
    [ErrOrgQuotaExceeded] accordingly, and then nothing changes. *)
Theorem SetProjectQuota_decides (AZs : gmap string AZConfig) o p r w :
  working w o → live_project (tables w) o p = true → valid_quota r →
  let T := tables w in
  let covers := ∀ n l, WithZeros (parsed r) (parsed (organizationResources T o)) !! n = Some l →
    azHeld T p n ≤ l in
  let fits := ∀ n l v, parsed (organizationResources T o) !! n = Some l → parsed r !! n = Some v →
    projectAllocated T p n < v → othersAllocated T o p n + v ≤ l in
  match SetProjectQuota AZs o p r w with
  | (Ok row, w') => covers ∧ fits ∧ pq_Resources row = r ∧ projectResources (tables w') p = r
  | (Err e, w') => w' = w ∧
    (err_is e = ErrBelowAllocated ∧ ¬ covers ∨ err_is e = ErrOrgQuotaExceeded ∧ ¬ fits)
  end.
Proof.
  intros Hw Hl Hr T covers fits. pose proof (working_wf w o Hw) as Hwf.
  rewrite SetProjectQuota_run by (done || apply Hr). cbn zeta. fold T.
  pose proof (project_body_spec o p r T Hwf Hl Hr) as Hbody.
  destruct (project_body o p r T) as [u|e]; [|done].
  destruct Hbody as [Hcov Hfit].
  destruct (saveTo AZs o p r _ (T, seq w)) as [T' s'] eqn:Hsave. split_and!; [done..|].
  simpl. pose proof (view_saveTo AZs o p r (bool_decide (projectAZs T p ≠ ∅)) (T, seq w) p) as Hv.
  rewrite Hsave, decide_True in Hv by done. simpl in Hv.
  rewrite projectResources_view, Hv. done.
Qed.

(** C4: without failures, an AZ quota that lowers no limit is accepted exactly when every
    resource it raises fits, with the other AZ quotas of the project, in the effective limit of
    the project. It is refused with [ErrProjectQuotaExceeded] otherwise, and then nothing
    changes. *)
Theorem SetProjectAZQuota_decides (AZs : gmap string AZConfig) o p c r w :
  working w o → live_project (tables w) o p = true → valid_quota r →
  is_Ok (GetByCode AZs c o) = true → loweredOf (tables w) o p c r = Ok ∅ →
  let T := tables w in
  let current n := get (parsed (default ∅ (projectAZs T p !! c))) n in
  let fits := ∀ n l v,
    WithZeros (parsed (projectResources T p)) (parsed (organizationResources T o)) !! n = Some l →
    parsed r !! n = Some v → current n < v → azHeld T p n - current n + v ≤ l in
  match SetProjectAZQuota AZs o p c r w with
  | (Ok row, w') => fits ∧ aq_Resources row = r ∧ projectAZs (tables w') p !! c = Some r
  | (Err e, w') => ¬ fits ∧ err_is e = ErrProjectQuotaExceeded ∧ w' = w
  end.
Proof.
  intros Hw Hl Hr Haz Hlow T current fits. pose proof (working_wf w o Hw) as Hwf.
  rewrite SetProjectAZQuota_run by done. fold T.
  pose proof (azFits_iff T o p c (parsed r) Hwf (parsed_in_range r)) as Hiff.
  destruct (checkAZFitsInProject _ _ _) as [[]|e] eqn:Hc.
  - split; [by unfold fits, current; rewrite <-Hiff|]. split; [done|].
    cbn [tables]. rewrite projectAZs_view, (view_putAZQuota p c r (T, seq w)), decide_True by done.
    apply lookup_insert_eq.
  - unfold fits, current. rewrite <-Hiff. split; [done|]. split; [by eapply azFits_Err | done].
Qed.

(** C5: a quota write that fails, whatever the cause (a refused request, a failing statement, a
    commit that fails, a usage that cannot be read, a push that is refused), leaves the tables
    as they were. *)
Theorem failed_write_unchanged (AZs : gmap string AZConfig) req w e w' :
  match req with
  | SetOrganizationQuotaRequest _ _ | SetProjectQuotaRequest _ _ _
  | SetProjectAZQuotaRequest _ _ _ _ | DeleteOrganizationQuotaRequest _
  | DeleteProjectQuotaRequest _ _ | DeleteProjectRequest _ _ => True
  | _ => False
  end →
  run_request AZs req w = (Err e, w') → tables w' = tables w.
Proof.
  intros Hreq Hrun. destruct req; simpl in Hreq, Hrun; try done.
  - destruct (drop_result_run _ _ _ _ Hrun) as [[row Hr]|[e' Hr]].
    + unfold drop_result in Hrun. by rewrite bind_eq, Hr in Hrun.
    + by eapply SetOrganizationQuota_Err.
  - destruct (drop_result_run _ _ _ _ Hrun) as [[row Hr]|[e' Hr]].
    + unfold drop_result in Hrun. by rewrite bind_eq, Hr in Hrun.
    + by eapply SetProjectQuota_Err.
  - destruct (drop_result_run _ _ _ _ Hrun) as [[row Hr]|[e' Hr]].
    + unfold drop_result in Hrun. by rewrite bind_eq, Hr in Hrun.
    + by eapply SetProjectAZQuota_Err.
  - by apply transaction_Err in Hrun.
  - by apply transaction_Err in Hrun.
  - by apply transaction_Err in Hrun.
Qed.

(** An organization quota accepted while no project has a quota is distributed: each live
    project is given, of every resource the quota limits and of no other, what its AZ quotas
    already hold plus an equal share of what remains; the shares never exceed the quota, and
    leave less than one unit per project. *)
Theorem SetOrganizationQuota_distributes (AZs : gmap string AZConfig) o r w :
  loaded AZs → working w o → quotas_ok (tables w) → valid_quota r →
  projectQuotaRows (tables w) o = ∅ → covers_projects (tables w) o (parsed r) →
  let T := tables w in
  let count := Z.of_nat (length (liveProjectIds T o)) in
  let '(result, w') := SetOrganizationQuota AZs o r w in
  is_Ok result = true ∧
  (∀ p, live_project T o p = true → ∀ n,
    parsed (projectResources (tables w') p) !! n =
      (λ l, (l - organizationAllocated T o n) `div` count + azHeld T p n) <$> parsed r !! n) ∧
  ∀ n l, parsed r !! n = Some l → 0 < count →
    organizationAllocated (tables w') o n ≤ l < organizationAllocated (tables w') o n + count.
Proof.
  intros Hl Hw Hok Hr Hnone Hcov T count.
  pose proof (SetOrganizationQuota_run AZs o r w Hw Hr) as Hrun.
  destruct (sum_allocations T o (working_wf w o Hw)) as (rows & allocs & Hal & Hrows & _).
  fold T in Hrun. rewrite Hal in Hrun. rewrite Hrun. clear Hrun.
  fold T in Hnone. rewrite Hnone, map_to_list_empty in Hrows. change (rows = []) in Hrows. subst rows.
  assert (checkNotBelow (parsed r) (sumAllocations allocs) "its projects" = Ok tt) as ->
    by by apply (checkNotBelow_iff T o r [] allocs (working_wf w o Hw) Hr Hal).
  rewrite decide_True by done. fold T.
  destruct (putOrganizationQuota o r (distributeTo _ _ _ _ _ _)) as [T' s'] eqn:Hput.
  assert (T' = distributedTables AZs T (seq w) o r allocs) as -> by (unfold distributedTables; by rewrite Hput).
  split; [done|]. cbn [tables]. split.
  - intros p Hlp n.
    destruct (distributedTables_project AZs T (seq w) o r allocs p Hok Hl Hr Hlp Hal Hcov) as (_ & Hget & _).
    rewrite Hget. destruct (parsed r !! n); [|done]. simpl. do 2 f_equal.
    unfold projectAllocated. assert (projectResources T p = ∅) as ->.
    { unfold projectResources. destruct (projectQuotaRow T p) as [row|] eqn:Hrow; [|done].
      assert (projectQuotaRows T o !! p = Some row) as Hin
        by (apply lookup_projectQuotaRows; split_and!; [done | by eapply wf_project_org; [apply Hok|..] | done]).
      by rewrite Hnone, lookup_empty in Hin. }
    rewrite parsed_empty. change (get ∅ n) with 0. pose proof (azHeld_nonneg T p n). lia.
  - intros n l Hn Hc.
    pose proof (distributedTables_allocated AZs T (seq w) o r allocs n l Hok Hl Hr Hal Hcov Hn) as Heq.
    cbn zeta in Heq. rewrite Heq. fold count.
    pose proof (Z.div_mod (l - organizationAllocated T o n) count ltac:(lia)).
    pose proof (Z.mod_pos_bound (l - organizationAllocated T o n) count Hc). lia.
Qed.

(** An organization quota accepted while projects have quotas never touches their AZ quotas
    nor a resource they define, and leaves unchanged what each takes of the resources it limits:
    a resource it limits and a project quota omits is added with what the AZ quotas hold. *)
Theorem SetOrganizationQuota_completes (AZs : gmap string AZConfig) o r w :
  working w o → quotas_ok (tables w) → valid_quota r →
  projectQuotaRows (tables w) o ≠ ∅ → covers_projects (tables w) o (parsed r) →
  let T := tables w in
  let '(result, w') := SetOrganizationQuota AZs o r w in
  is_Ok result = true ∧
  ∀ p, live_project T o p = true →
    projectAZs (tables w') p = projectAZs T p ∧
    (∀ n, parsed (projectResources (tables w') p) !! n =
      match parsed (projectResources T p) !! n with
      | Some v => Some v
      | None => if decide (is_Some (parsed r !! n) ∧ 0 < azHeld T p n)
                then Some (azHeld T p n) else None
      end) ∧
    ∀ n l, parsed r !! n = Some l → projectAllocated (tables w') p n = projectAllocated T p n.
Proof.
  intros Hw Hok Hr Hsome Hcov T.
  pose proof (SetOrganizationQuota_run AZs o r w Hw Hr) as Hrun.
  destruct (sum_allocations T o (working_wf w o Hw)) as (rows & allocs & Hal & Hrows & _).
  fold T in Hrun. rewrite Hal in Hrun. rewrite Hrun. clear Hrun.
  assert (checkNotBelow (parsed r) (sumAllocations allocs) "its projects" = Ok tt) as ->
    by by apply (checkNotBelow_iff T o r rows allocs (working_wf w o Hw) Hr Hal).
  assert (rows ≠ []) as Hne.
  { rewrite Hrows. intros Hnil. apply Hsome. apply map_to_list_empty_iff.
    pose proof (order_by_Permutation String.le (map_to_list (projectQuotaRows T o))) as Hperm.
    rewrite Hnil in Hperm. by apply Permutation_nil in Hperm. }
  rewrite decide_False by done. fold T.
  destruct (putOrganizationQuota o r (coverTo _ _ _ _ _)) as [T' s'] eqn:Hput.
  assert (T' = coveredTables T (seq w) o r allocs) as ->
    by (unfold coveredTables; by rewrite <-Hrows, Hput).
  split; [done|]. cbn [tables]. intros p Hlp.
  destruct (coveredTables_project T (seq w) o r allocs rows p (proj1 Hok) Hr Hlp Hal Hcov)
    as (_ & Haz & Hget).
  split; [done|]. split; [done|]. intros n l Hn.
  by apply (coveredTables_allocated T (seq w) o r allocs rows p n l (proj1 Hok) Hr Hlp Hal Hcov Hn).
Qed.

(** C7: capacity is only freed once the cluster confirmed it. When a successful write of an AZ
    quota lowers a limit that was enforced, the usage read from the AZ tracks that resource and
    is at most the new limit, and the AZ has accepted exactly the new effective quota. *)
Theorem SetProjectAZQuota_lowers_safely (AZs : gmap string AZConfig) o p c r w row w' n old new :
  SetProjectAZQuota AZs o p c r w = (Ok row, w') →
  let T := tables w in
  let after := EffectiveAZQuota (organizationResources T o) (projectResources T p) r in
  parsed (hierarchyAZ (hierarchyOf T o p) c) !! n = Some old →
  parsed after !! n = Some new → new < old →
  ∃ readUsage pushAZ usage used out,
    ReadUsage = Some readUsage ∧ readUsage o p c (outside w) = (Ok usage, out) ∧
    is_Some (Hard usage !! n) ∧ Used usage !! n = Some used ∧ used ≤ new ∧
    PushAZ = Some pushAZ ∧ pushAZ o p c (ToKubernetesQuota after) out = (Ok tt, outside w').
Proof.
  intros Hrun T after Hold Hnew Hlt.
  apply SetProjectAZQuota_Ok in Hrun as (_ & _ & _ & _ & _ & lowered & Hlow & Hcase).
  pose proof (lookup_loweredLimits _ _ lowered n Hlow) as Hn.
  unfold after, T in Hold, Hnew. rewrite Hold, Hnew, decide_True in Hn by done.
  destruct Hcase as [[-> _]|(_ & readUsage & usage & pushAZ & out & Hr & Hread & Hcov & Hp & Hpush)].
  { by rewrite lookup_empty in Hn. }
  destruct (Hcov n new Hn) as (Hhard & used & Hused & Hle).
  exists readUsage, pushAZ, usage, used, out. split_and!; done.
Qed.

(** The quota of a project cannot be removed while its organization has a quota: the request
    fails with [ErrProjectQuotaEnforced] and changes nothing; otherwise, without failures, the
    project keeps neither a quota nor an AZ quota. *)
Theorem DeleteProjectQuota_decides o p w :
  working w o → live_project (tables w) o p = true →
  match organizationQuotaRow (tables w) o with
  | Some _ => DeleteProjectQuota o p w = (Err (ErrProjectQuotaEnforced : error), w)
  | None => ∃ w', DeleteProjectQuota o p w = (Ok tt, w') ∧
      ∀ p', projectView (tables w') p' = if decide (p' = p) then (None, ∅) else projectView (tables w) p'
  end.
Proof.
  intros [Hf Hwf Ho] Hl. unfold DeleteProjectQuota. set (body := findOrganizationQuota o ≫= _).
  destruct (organizationQuotaRow (tables w) o) as [row|] eqn:Hrow.
  - assert (body w = (Err (ErrProjectQuotaEnforced : error), w)) as Hbody.
    { unfold body. erewrite reads_bind_run; [|apply _|done|done]. by rewrite Hrow. }
    rewrite (inProjectTransaction_run _ _ _ _ _ _ Hf Ho Hl Hbody) by done. by rewrite with_tables_id.
  - assert (body w = (Ok tt, mkWorld (dropProjectRows p (tables w, seq w)).1 (seq w) [] (outside w)))
      as Hbody.
    { unfold body. erewrite reads_bind_run; [|apply _|done|done]. rewrite Hrow.
      by rewrite (writes_exact (m:=deleteProjectRows p)). }
    rewrite (inProjectTransaction_run _ _ _ _ _ _ Hf Ho Hl Hbody) by done.
    eexists. split; [done|]. intros p'. apply view_dropProjectRows.
Qed.

(** Deleting a project through another organization fails with [ErrRecordNotFound] and
    changes nothing, although the quota rows of the project are deleted before the check. *)
Theorem DeleteById_other_organization o p w :
  faults w = [] → live_project (tables w) o p = false →
  (DeleteById p o w).1 = Err (ErrRecordNotFound : error) ∧ tables (DeleteById p o w).2 = tables w.
Proof.
  intros Hf Hl. unfold DeleteById. set (body := on_error _ _ _ ≫= _).
  assert (∃ w', body w = (Err (ErrRecordNotFound : error), w') ∧ faults w' = []) as (w' & Hbody & Hf').
  { unfold body. rewrite bind_eq. unfold on_error, DeleteForProject.
    rewrite bind_eq, (reads_exact (m:=lockOrganization o)) by done.
    destruct (organizationRow (tables w) o); [|eauto].
    rewrite (writes_exact (m:=deleteProjectRows p)) by done. cbn [dropProjectRows].
    set (T1 := set_project_quotas _ _). assert (live_project T1 o p = false) as Hl1 by done.
    eexists (mkWorld T1 (seq w) [] (outside w)). split; [|done].
    rewrite bind_eq. unfold exec, statement. rewrite bind_eq. cbn [faults].
    unfold modify. cbn [tables seq]. by rewrite Hl1. }
  by rewrite (transaction_no_faults _ _ _ _ Hf Hbody Hf').
Qed.

(** What Kubernetes enforces in an AZ is closed: every resource the organization or the
    project limits is limited there, to 0 when the AZ quota omits it; the rest is the AZ quota. *)
Theorem hierarchyAZ_closed h c n :
  parses (h_Organization h) → parses (h_Project h) → parses (default ∅ (h_AZs h !! c)) →
  ∃ q, Parse (hierarchyAZ h c) = Ok q ∧
    q !! n = match parsed (default ∅ (h_AZs h !! c)) !! n with
             | Some v => Some v
             | None => if decide (is_Some (h_Organization h !! n) ∨ is_Some (h_Project h !! n))
                       then Some 0 else None
             end.
Proof.
  intros Ho Hp Haz.
  destruct (Parse_Effective (default ∅ (h_AZs h !! c)) [h_Organization h; h_Project h])
    as (q & Hq & Hl); [done | by repeat constructor |].
  exists q. split; [exact Hq|]. rewrite Hl. unfold effective_lookup.
  destruct (parsed _ !! n); [done|]. apply decide_ext. rewrite !Exists_cons, Exists_nil. tauto.
Qed.

(** C6: revisions order the effective quotas an AZ may receive. After any successful request in
    a reachable state, the effective quota of a live project in an AZ is unchanged with the same
    revision, or has a revision greater than before, or there is no quota left at any level
    (nothing to enforce, revision 0). *)
Theorem effective_quota_revisions (AZs : gmap string AZConfig) req w w' o p c :
  loaded AZs → reachable (C:=C) AZs (tables w, seq w) → request_ok (tables w) req →
  run_request AZs req w = (Ok tt, w') → live_project (tables w') o p = true →
  let before := hierarchyOf (tables w) o p in
  let after := hierarchyOf (tables w') o p in
  hierarchyAZ after c = hierarchyAZ before c ∧ hierarchyRevision after c = hierarchyRevision before c ∨
  hierarchyRevision before c < hierarchyRevision after c ∨
  hierarchyAZ after c = ∅ ∧ hierarchyRevision after c = 0.
Proof.
  intros Hl Hreach Hreq Hrun Hlive before after.
  pose proof (bounded_hierarchyRevision _ o p c (reachable_bounded AZs _ Hl Hreach)) as Hb.
  destruct (request_sound AZs req w w' o p c (reachable_ok AZs Hl _ Hreach) Hreq Hrun Hlive)
    as [Hlt|[Hsame|Hnone]]; cbn [fst snd] in *; [|tauto..].
  right. left. unfold before, after. lia.
Qed.

(** The overview of an organization is exact: of each resource it limits, what is allocated
    and what remains add up to the limit, and each live project is listed once with its effective
    limit; it is unlimited exactly when no resource is limited. *)
Theorem organization_overview_exact o w :
  faults w = [] → quotas_ok (tables w) →
  let T := tables w in
  let r := organizationResources T o in
  ∃ ov, GetOrganizationQuotaOverview o w = (Ok ov, w) ∧
    oo_Unlimited ov = bool_decide (r = ∅) ∧
    (oo_Unlimited ov = false → oo_Limit ov = Some r ∧ ∃ remaining, oo_Remaining ov = Some remaining ∧
      (∀ n l, parsed r !! n = Some l →
        ∃ a, 0 ≤ a ≤ l ∧ a = organizationAllocated T o n ∧
          oo_Allocated ov !! n = Some (formatEntry n a) ∧
          remaining !! n = Some (formatEntry n (l - a))) ∧
      oo_ProjectQuotas ov = (λ p, (p, mkProjectQuota o (projectLimit r (projectResources T p)) 0 false))
        <$> liveProjectIds T o).
Proof.
  intros Hf [Hwf Hcap] T r. fold T in Hwf, Hcap.
  destruct (sum_allocations T o Hwf) as (rows & allocs & Hal & Hrows & _ & _ & _ & Hr & Hget & _).
  rewrite (reads_exact (m:=GetOrganizationQuotaOverview o)) by done. fold T.
  unfold organizationOverviewOf. rewrite Hal. unfold organizationOverviewFrom.
  change (default ∅ (oq_Resources <$> organizationQuotaRow T o)) with r. cbn [mbind result_bind].
  assert (organizationQuotaRow T o = None ∨ size r = 0%nat ↔ r = ∅) as Hempty.
  { unfold r, organizationResources. rewrite map_size_empty_iff.
    destruct (organizationQuotaRow T o); naive_solver. }
  case_decide as Hd.
  { eexists. split; [done|]. split; [|done]. simpl. symmetry. by apply bool_decide_eq_true, Hempty. }
  destruct (wf_organization T Hwf o) as [Hparses Hstore]. fold r in Hparses, Hstore.
  rewrite (parses_Ok r Hparses). simpl. eexists. split; [done|]. simpl.
  split; [symmetry; apply bool_decide_eq_false; tauto|]. intros _. split; [done|].
  eexists. split; [done|]. split.
  - intros n l Hn. destruct (Hcap o) as [Hfits _]. specialize (Hfits n l Hn).
    exists (organizationAllocated T o n).
    assert (0 ≤ organizationAllocated T o n) by (apply sum_map_nonneg; intros; apply projectAllocated_nonneg).
    destruct (Hstore n l Hn) as [_ Hl]. split; [lia|]. split; [done|].
    by apply allocated_texts; [..|apply parsed_in_range| |].
  - apply list_fmap_ext. intros i p Hp%list_elem_of_lookup_2. subst rows.
    apply elem_of_liveProjectIds in Hp. by rewrite quotasByProject_live.
Qed.

(** The overview of a live project is exact: of each resource its effective limit bounds,
    what its AZ quotas hold and what remains add up to that limit; the AZs listed, in order, are
    the visible ones and those still holding a quota, each once, with what is enforced there. *)
Theorem project_overview_exact (AZs : gmap string AZConfig) o p w :
  faults w = [] → quotas_ok (tables w) → live_project (tables w) o p = true →
  let T := tables w in
  let limit := projectLimit (organizationResources T o) (projectResources T p) in
  ∃ ov, GetProjectQuotaOverview AZs o p w = (Ok ov, w) ∧
    po_Unlimited ov = bool_decide (limit = ∅) ∧
    (po_Unlimited ov = false → po_Limit ov = Some limit ∧ ∃ remaining, po_Remaining ov = Some remaining ∧
      ∀ n l, parsed limit !! n = Some l → ∃ a, 0 ≤ a ≤ l ∧ a = azHeld T p n ∧
        po_Allocated ov !! n = Some (formatEntry n a) ∧ remaining !! n = Some (formatEntry n (l - a))) ∧
    Sorted String.le (ao_CodeAZ <$> po_AZQuotas ov) ∧
    (∀ c, c ∈ ao_CodeAZ <$> po_AZQuotas ov ↔
      is_Some (projectAZs T p !! c) ∨ ∃ az, az ∈ FindAll AZs o ∧ Code az = c) ∧
    ∀ az, az ∈ po_AZQuotas ov →
      default ∅ (ao_Limit az) = hierarchyAZ (hierarchyOf T o p) (ao_CodeAZ az).
Proof.
  intros Hf [Hwf Hcap] Hlive T limit. fold T in Hwf, Hcap, Hlive.
  rewrite (reads_exact (m:=GetProjectQuotaOverview AZs o p)) by done. fold T.
  unfold projectOverviewOf. rewrite Hlive.
  destruct (sumAZQuotas_held T p Hwf) as (total & Htotal & Hr & Hget).
  change (projectLimit _ _) with limit. change (h_AZs (hierarchyOf T o p)) with (projectAZs T p).
  rewrite Htotal. cbn [mbind result_bind]. cbn zeta.
  pose proof (azQuotaOverviews_spec AZs T o p) as Hazs.
  pose proof (map_size_empty_iff limit) as Hempty. case_decide as Hd.
  { eexists. split; [done|]. split; [|split; [done | by apply Hazs]].
    simpl. symmetry. by apply bool_decide_eq_true, Hempty. }
  destruct (wf_organization T Hwf o) as [Ho _], (wf_project T Hwf p) as [Hp _].
  pose proof (Parse_projectLimit _ _ Ho Hp) as Hl. fold limit in Hl. rewrite Hl. simpl.
  destruct (parsed_Ok _ _ Hl) as [Hlimit _].
  eexists. split; [done|]. split; [|split; [|by apply Hazs]].
  { simpl. symmetry. apply bool_decide_eq_false. tauto. }
  intros _. split; [done|]. eexists. split; [done|]. intros n l Hn. simpl.
  exists (azHeld T p n). pose proof (azHeld_nonneg T p n).
  destruct (Hcap o) as [_ Hfits]. specialize (Hfits p Hlive n l Hn).
  split; [lia|]. split; [done|]. rewrite Hlimit in Hn.
  apply allocated_texts; [done| |lia| |done|apply Hget].
  - by eapply limit_lookup; [apply (wf_organization T Hwf)|apply (wf_project T Hwf)|].
  - rewrite <-Hlimit. apply parsed_in_range.
Qed.
End theorems.

(** ** Witnesses *)

Import NanoQuantity QuotaSamples.

Lemma reachable_capacity_witness :
  organizationAllocated (tables r2) "o" "cpu" ≤ 10000.
Proof.
  pose proof (reachable_capacity AZs (tables r2, seq r2) AZs_loaded r2_reachable) as [Ho _].
  apply (Ho "o" "cpu" 10000). vm_compute. reflexivity.
Defined.

Lemma SetOrganizationQuota_decides_witness :
  match SetOrganizationQuota AZs "o" {["cpu" := "9"]} w1 with
  | (Ok row, _) => False
  | (Err e, w') => ¬ covers_projects (tables w1) "o" (parsed {["cpu" := "9"]}) ∧
      err_is e = ErrBelowAllocated ∧ w' = w1
  end.
Proof.
  assert (valid_quota {["cpu" := "9"]}) as Hr by evaluate.
  pose proof (SetOrganizationQuota_decides AZs "o" {["cpu" := "9"]} w1 working_w1 Hr) as H.
  assert (fails_with (SetOrganizationQuota AZs "o" {["cpu" := "9"]} w1).1 ErrBelowAllocated = true)
    as Hrun by (vm_compute; reflexivity).
  destruct (SetOrganizationQuota AZs "o" {["cpu" := "9"]} w1) as [[row|e] w'];
    [discriminate Hrun | exact H].
Defined.

Lemma SetProjectQuota_decides_witness :
  match SetProjectQuota AZs "o" "p1" {["cpu" := "6"; "memory" := "2Gi"]} w1 with
  | (Ok row, _) => False
  | (Err e, w') => w' = w1 ∧ err_is e = ErrOrgQuotaExceeded
  end.
Proof.
  assert (live_project (tables w1) "o" "p1" = true) as Hl by evaluate.
  assert (valid_quota {["cpu" := "6"; "memory" := "2Gi"]}) as Hr by evaluate.
  pose proof (SetProjectQuota_decides AZs "o" "p1" {["cpu" := "6"; "memory" := "2Gi"]} w1
    working_w1 Hl Hr) as H. cbn zeta in H.
  assert (fails_with (SetProjectQuota AZs "o" "p1" {["cpu" := "6"; "memory" := "2Gi"]} w1).1
    ErrOrgQuotaExceeded = true) as Hrun by (vm_compute; reflexivity).
  destruct (SetProjectQuota AZs "o" "p1" {["cpu" := "6"; "memory" := "2Gi"]} w1) as [[row|e] w'];
    [discriminate Hrun|].
  split; [exact (proj1 H) | by apply errors_Is_spec].
Defined.

Lemma SetProjectAZQuota_decides_witness :
  match SetProjectAZQuota AZs "o" "p1" "az1" {["cpu" := "3"; "memory" := "1Gi"]} w1 with
  | (Ok row, _) => False
  | (Err e, w') => err_is e = ErrProjectQuotaExceeded ∧ w' = w1
  end.
Proof.
  assert (live_project (tables w1) "o" "p1" = true) as Hl by evaluate.
  assert (valid_quota {["cpu" := "3"; "memory" := "1Gi"]}) as Hr by evaluate.
  assert (is_Ok (GetByCode AZs "az1" "o") = true) as Haz by evaluate.
  assert (loweredOf (tables w1) "o" "p1" "az1" {["cpu" := "3"; "memory" := "1Gi"]} = Ok ∅) as Hlow
    by evaluate.
  pose proof (SetProjectAZQuota_decides AZs "o" "p1" "az1" {["cpu" := "3"; "memory" := "1Gi"]} w1
    working_w1 Hl Hr Haz Hlow) as H.
  cbn zeta in H.
  assert (fails_with (SetProjectAZQuota AZs "o" "p1" "az1" {["cpu" := "3"; "memory" := "1Gi"]} w1).1
    ErrProjectQuotaExceeded = true) as Hrun by (vm_compute; reflexivity).
  destruct (SetProjectAZQuota AZs "o" "p1" "az1" {["cpu" := "3"; "memory" := "1Gi"]} w1)
    as [[row|e] w']; [discriminate Hrun | exact (proj2 H)].
Defined.

Lemma failed_write_unchanged_witness :
  ∃ e w', run_request AZs (DeleteProjectQuotaRequest "o" "p1") (with_faults w1 [false; true]) =
    (Err e, w') ∧ tables w' = tables (with_faults w1 [false; true]).
Proof.
  assert (fails_with (run_request AZs (DeleteProjectQuotaRequest "o" "p1")
    (with_faults w1 [false; true])).1 ErrDatabase = true) as Hno by (vm_compute; reflexivity).
  destruct (run_request AZs (DeleteProjectQuotaRequest "o" "p1") (with_faults w1 [false; true]))
    as [[u|e] w'] eqn:Hrun; [discriminate Hno|].
  exists e, w'. split; [reflexivity|].
  exact (failed_write_unchanged AZs (DeleteProjectQuotaRequest "o" "p1") (with_faults w1 [false; true])
    e w' I Hrun).
Defined.

Lemma SetOrganizationQuota_distributes_witness :
  let '(result, w') := SetOrganizationQuota AZs "o" orgQuota w0 in
  is_Ok result = true ∧ parsed (projectResources (tables w') "p1") !! "cpu" = Some 5000.
Proof.
  assert (valid_quota orgQuota) as Hr by evaluate.
  assert (projectQuotaRows (tables w0) "o" = ∅) as Hnone by evaluate.
  assert (covers_projects (tables w0) "o" (parsed orgQuota)) as Hcov by evaluate.
  assert (live_project (tables w0) "o" "p1" = true) as Hlive by evaluate.
  assert ((λ l, (l - organizationAllocated (tables w0) "o" "cpu") `div`
    Z.of_nat (length (liveProjectIds (tables w0) "o")) + azHeld (tables w0) "p1" "cpu") <$>
    parsed orgQuota !! "cpu" = Some 5000) as Hcpu by evaluate.
  pose proof (SetOrganizationQuota_distributes AZs "o" orgQuota w0 AZs_loaded working_w0 w0_ok Hr
    Hnone Hcov) as H.
  cbn zeta in H. destruct (SetOrganizationQuota AZs "o" orgQuota w0) as [result w'].
  destruct H as (Hok & Hp & _). split; [exact Hok|]. rewrite (Hp "p1" Hlive "cpu"). exact Hcpu.
Defined.

(** [w1] limits no disk; an organization quota that does leaves the CPU of the projects alone. *)
Lemma SetOrganizationQuota_completes_witness :
  let '(result, w') := SetOrganizationQuota AZs "o" {["cpu" := "12"; "disk" := "10Gi"]} w1 in
  is_Ok result = true ∧ parsed (projectResources (tables w') "p2") !! "cpu" = Some 5000.
Proof.
  assert (valid_quota {["cpu" := "12"; "disk" := "10Gi"]}) as Hr by evaluate.
  assert (is_Some (projectQuotaRows (tables w1) "o" !! "p1")) as Hp1 by evaluate.
  assert (projectQuotaRows (tables w1) "o" ≠ ∅) as Hsome.
  { intros Hnone. rewrite Hnone in Hp1. destruct Hp1 as [row Hrow]. discriminate Hrow. }
  assert (covers_projects (tables w1) "o" (parsed {["cpu" := "12"; "disk" := "10Gi"]})) as Hcov
    by evaluate.
  assert (live_project (tables w1) "o" "p2" = true) as Hlive by evaluate.
  assert (parsed (projectResources (tables w1) "p2") !! "cpu" = Some 5000) as Hcpu by evaluate.
  pose proof (SetOrganizationQuota_completes AZs "o" {["cpu" := "12"; "disk" := "10Gi"]} w1
    working_w1 w1_ok Hr Hsome Hcov) as H.
  cbn zeta in H.
  destruct (SetOrganizationQuota AZs "o" {["cpu" := "12"; "disk" := "10Gi"]} w1) as [result w'].
  destruct H as (Hok & Hp). split; [exact Hok|]. destruct (Hp "p2" Hlive) as (_ & Hq & _).
  rewrite (Hq "cpu"), Hcpu. reflexivity.
Defined.

Lemma SetProjectAZQuota_lowers_safely_witness :
  ∃ row w' usage used, SetProjectAZQuota AZs "o" "p1" "az1"
      {["cpu" := "2"; "memory" := "1Gi"]} w1 = (Ok row, w') ∧
    Used usage !! "cpu" = Some used ∧ used ≤ 2000.
Proof.
  assert (is_Ok (SetProjectAZQuota AZs "o" "p1" "az1" {["cpu" := "2"; "memory" := "1Gi"]} w1).1 = true)
    as Hok by (vm_compute; reflexivity).
  assert (parsed (hierarchyAZ (hierarchyOf (tables w1) "o" "p1") "az1") !! "cpu" = Some 2500) as Hold
    by evaluate.
  assert (parsed (EffectiveAZQuota (organizationResources (tables w1) "o")
    (projectResources (tables w1) "p1") {["cpu" := "2"; "memory" := "1Gi"]}) !! "cpu" = Some 2000)
    as Hnew by evaluate.
  destruct (SetProjectAZQuota AZs "o" "p1" "az1" {["cpu" := "2"; "memory" := "1Gi"]} w1)
    as [[row|e] w'] eqn:Hrun; [|discriminate Hok].
  pose proof (SetProjectAZQuota_lowers_safely AZs "o" "p1" "az1" {["cpu" := "2"; "memory" := "1Gi"]}
    w1 row w' "cpu" 2500 2000 Hrun Hold Hnew ltac:(lia))
    as (readUsage & pushAZ & usage & used & out & _ & _ & _ & Hused & Hle & _).
  exists row, w', usage, used. split_and!; [reflexivity | exact Hused | exact Hle].
Defined.

Lemma DeleteProjectQuota_decides_witness :
  DeleteProjectQuota "o" "p1" w1 = (Err (ErrProjectQuotaEnforced : error), w1).
Proof.
  assert (live_project (tables w1) "o" "p1" = true) as Hlive by evaluate.
  assert (is_Some (organizationQuotaRow (tables w1) "o")) as [row Hrow] by evaluate.
  pose proof (DeleteProjectQuota_decides "o" "p1" w1 working_w1 Hlive) as H.
  rewrite Hrow in H. exact H.
Defined.

Lemma DeleteById_other_organization_witness :
  tables (DeleteById "p1" "other" w1).2 = tables w1.
Proof.
  assert (faults w1 = []) as Hf by (vm_compute; reflexivity).
  assert (live_project (tables w1) "other" "p1" = false) as Hlive by (vm_compute; reflexivity).
  exact (proj2 (DeleteById_other_organization "other" "p1" w1 Hf Hlive)).
Defined.

Lemma hierarchyAZ_closed_witness :
  ∃ q, Parse (hierarchyAZ (hierarchyOf (tables w1) "o" "p1") "az3") = Ok q ∧ q !! "cpu" = Some 0.
Proof.
  assert (parses (h_Organization (hierarchyOf (tables w1) "o" "p1"))) as Ho by evaluate.
  assert (parses (h_Project (hierarchyOf (tables w1) "o" "p1"))) as Hp by evaluate.
  assert (parses (default ∅ (h_AZs (hierarchyOf (tables w1) "o" "p1") !! "az3"))) as Haz by evaluate.
  assert (match parsed (default ∅ (h_AZs (hierarchyOf (tables w1) "o" "p1") !! "az3")) !! "cpu" with
          | Some v => Some v
          | None => if decide (is_Some (h_Organization (hierarchyOf (tables w1) "o" "p1") !! "cpu") ∨
                               is_Some (h_Project (hierarchyOf (tables w1) "o" "p1") !! "cpu"))
                    then Some 0 else None
          end = Some 0) as Hzero by (vm_compute; reflexivity).
  destruct (hierarchyAZ_closed (hierarchyOf (tables w1) "o" "p1") "az3" "cpu" Ho Hp Haz)
    as (q & Hq & Hn).
  exists q. split; [exact Hq|]. rewrite Hn. exact Hzero.
Defined.

(** From [r1], setting the quota of the organization makes every AZ quota newer. *)
Lemma effective_quota_revisions_witness :
  ∃ w', run_request AZs (SetOrganizationQuotaRequest "o" orgQuota) r1 = (Ok tt, w') ∧
    (hierarchyRevision (hierarchyOf (tables r1) "o" "p1") "az1" <
       hierarchyRevision (hierarchyOf (tables w') "o" "p1") "az1" ∨
     hierarchyRevision (hierarchyOf (tables r1) "o" "p1") "az1" =
       hierarchyRevision (hierarchyOf (tables w') "o" "p1") "az1" ∨
     hierarchyRevision (hierarchyOf (tables w') "o" "p1") "az1" = 0).
Proof.
  assert (is_Ok (run_request AZs (SetOrganizationQuotaRequest "o" orgQuota) r1).1 = true)
    as Hok by (vm_compute; reflexivity).
  assert (live_project (tables (run_request AZs (SetOrganizationQuotaRequest "o" orgQuota) r1).2)
    "o" "p1" = true) as Hlive by evaluate.
  destruct (run_request AZs (SetOrganizationQuotaRequest "o" orgQuota) r1) as [[[]|e] w'] eqn:Hrun;
    [|discriminate Hok].
  assert (request_ok (tables r1) (SetOrganizationQuotaRequest "o" orgQuota)) as Hreq
    by (intros _; evaluate).
  exists w'. split; [reflexivity|].
  destruct (effective_quota_revisions AZs _ r1 w' "o" "p1" "az1" AZs_loaded r1_reachable Hreq Hrun
    Hlive) as [[_ H]|[H|[_ H]]]; [right; left; symmetry; exact H | left; exact H | right; right; exact H].
Defined.

Lemma organization_overview_exact_witness :
  ∃ ov, GetOrganizationQuotaOverview "o" w1 = (Ok ov, w1) ∧ oo_Unlimited ov = false.
Proof.
  assert (faults w1 = []) as Hf by (vm_compute; reflexivity).
  assert (bool_decide (organizationResources (tables w1) "o" = ∅) = false) as Hne
    by (vm_compute; reflexivity).
  destruct (organization_overview_exact "o" w1 Hf w1_ok) as (ov & Hov & Hunl & _).
  exists ov. split; [exact Hov|]. rewrite Hunl. exact Hne.
Defined.

Lemma project_overview_exact_witness :
  ∃ ov, GetProjectQuotaOverview AZs "o" "p1" w1 = (Ok ov, w1) ∧ "az2" ∈ ao_CodeAZ <$> po_AZQuotas ov.
Proof.
  assert (faults w1 = []) as Hf by (vm_compute; reflexivity).
  assert (live_project (tables w1) "o" "p1" = true) as Hlive by evaluate.
  assert (is_Some (projectAZs (tables w1) "p1" !! "az2")) as Haz by evaluate.
  destruct (project_overview_exact AZs "o" "p1" w1 Hf w1_ok Hlive)
    as (ov & Hov & _ & _ & _ & Hcodes & _).
  exists ov. split; [exact Hov|]. apply (Hcodes "az2"). left. exact Haz.
Defined.
