(* ===== verification/SpxId.v ===== *)
(** * The SPX ID framework ([pkg/superphenix-id/spxId.go])

    How a resource is identified: its metadata, the checks of SPX-RFC0001 and the labels of
    SPX-RFC0002. The UUID library is a class; the name regexp is run by the automaton it denotes,
    which is proved to recognise it. The package variable [frameworkPrefix] is an argument. *)

From S2P Require Import Prelude.

(** [github.com/google/uuid] *)
Class UUIDLib := {
  UUID : Type;
  uuid_Parse : string → option UUID;
  NewSHA1 : UUID → string → UUID;
  uuid_String : UUID → string;
}.

(** ** Definitions *)

Inductive MetadataError :=
  | OrgIDEmpty
  | InvalidOrgID
  | ProjectIDEmpty
  | InvalidProjectID
  | InvalidResourceLocalID
  | InvalidProjectOrResourceLocalID.

#[export] Instance MetadataError_eq_dec : EqDecision MetadataError.
Proof. solve_decision. Defined.

Definition SpxLabelOrganizationID := "superphenix.net/organizationID".
Definition SpxLabelProjectID := "superphenix.net/projectID".
Definition SpxLabelResourceLocalID := "superphenix.net/resourceLocalID".
Definition SpxLabelResourceEffectiveID := "superphenix.net/resourceEffectiveID".
Definition SpxLabelGitops := "superphenix.net/gitops".
Definition SpxAnnotationQuotaRevision := "superphenix.net/quotaRevision".

Record Metadata := mkMetadata {
  OrgId : string;
  ProjectId : string;
  ResourceEffectiveId : string;
  ResourceLocalId : string;
}.

#[export] Instance Metadata_eq_dec : EqDecision Metadata.
Proof. solve_decision. Defined.

Definition ToSPXID (frameworkPrefix id : string) : string :=
  if decide (id = EmptyString) then EmptyString else frameworkPrefix +:+ "-" +:+ id.

(** [Metadata.GetLabels] *)
Definition GetLabels (frameworkPrefix : string) (m : Metadata) : gmap string string :=
  let labels := {[SpxLabelOrganizationID := ToSPXID frameworkPrefix (OrgId m)]} in
  let labels :=
    if decide (ToSPXID frameworkPrefix (ProjectId m) ≠ EmptyString)
    then <[SpxLabelProjectID := ToSPXID frameworkPrefix (ProjectId m)]> labels else labels in
  if decide (ResourceLocalId m ≠ EmptyString) then
    <[SpxLabelResourceEffectiveID := ToSPXID frameworkPrefix (ResourceEffectiveId m)]>
      (<[SpxLabelResourceLocalID := ResourceLocalId m]> labels)
  else labels.

Definition nameMaxLength : nat := 63.

(** [[a-z0-9]] *)
Definition lower_alnum (c : Ascii.ascii) : bool :=
  let n := Ascii.N_of_ascii c in
  bool_decide ((97 ≤ n ∧ n ≤ 122) ∨ (48 ≤ n ∧ n ≤ 57))%N.

(** The character ["-"]. *)
Definition dash : Ascii.ascii := Ascii.ascii_of_N 45.

(** The automaton of [^[a-z0-9]+(-[a-z0-9]+)*$]; [inside] when a character of the current word has
    been read, which is where it accepts. *)
Fixpoint nameEnforcer (inside : bool) (s : string) : bool :=
  match s with
  | EmptyString => inside
  | String c s =>
    if lower_alnum c then nameEnforcer true s
    else if decide (c = dash) then inside && nameEnforcer false s else false
  end.

Definition isValidName (name : string) : bool :=
  if decide (name = EmptyString ∨ (nameMaxLength < String.length name)%nat) then false
  else nameEnforcer false name.

Section metadata.
Context {UL : UUIDLib}.

Definition isValidUUID (uuidString : string) : bool :=
  match uuid_Parse uuidString with None => false | Some _ => true end.

(** [Metadata.checkUUIDs]; [None] is a nil error. *)
Definition checkUUIDs (m : Metadata) : option MetadataError :=
  if negb (isValidUUID (OrgId m)) then Some InvalidOrgID
  else if decide (ProjectId m ≠ EmptyString ∧ isValidUUID (ProjectId m) = false) then
    Some InvalidProjectID
  else if decide (ResourceLocalId m ≠ EmptyString ∧ isValidName (ResourceLocalId m) = false) then
    Some InvalidResourceLocalID
  else None.

(** [Metadata.check] *)
Definition check (m : Metadata) : option MetadataError :=
  if decide (OrgId m = EmptyString) then Some OrgIDEmpty
  else if decide (ResourceLocalId m ≠ EmptyString ∧ ProjectId m = EmptyString) then
    Some ProjectIDEmpty
  else match checkUUIDs m with Some err => Some err | None => None end.

(** [Metadata.computeEffectiveID]: the receiver after the call, and the error. *)
Definition computeEffectiveID (m : Metadata) : Metadata * option MetadataError :=
  if decide (ProjectId m = EmptyString ∨ ResourceLocalId m = EmptyString) then
    (m, Some InvalidProjectOrResourceLocalID)
  else match uuid_Parse (ProjectId m) with
       | None => (m, Some InvalidProjectID)
       | Some ns =>
         (mkMetadata (OrgId m) (ProjectId m) (uuid_String (NewSHA1 ns (ResourceLocalId m)))
            (ResourceLocalId m), None)
       end.

Definition GenerateMetadata (m : Metadata) (projectId orgId localID : string) :
    Metadata * option MetadataError :=
  let m := mkMetadata orgId projectId (ResourceEffectiveId m) localID in
  match check m with
  | Some err => (m, Some err)
  | None => computeEffectiveID m
  end.

Definition GenerateFromProject (m project : Metadata) (localID : string) :
    Metadata * option MetadataError :=
  let m := mkMetadata (OrgId project) (ProjectId project) (ResourceEffectiveId m) localID in
  match check m with
  | Some err => (m, Some err)
  | None => computeEffectiveID m
  end.

Definition ConvertToSpxMetadata (m info : Metadata) : Metadata * option MetadataError :=
  let m := mkMetadata (OrgId info) (ProjectId info) (ResourceEffectiveId m) (ResourceLocalId info) in
  match check m with
  | Some err => (m, Some err)
  | None => computeEffectiveID m
  end.
End metadata.

(** ** The name regexp *)

(** A word [[a-z0-9]+], and the words joined by dashes. *)
Definition word (s : string) : Prop :=
  s ≠ EmptyString ∧ Forall (λ c, lower_alnum c = true) (String.list_ascii_of_string s).

Fixpoint join_dashes (words : list string) : string :=
  match words with
  | [] => EmptyString
  | [w] => w
  | w :: words => w +:+ String dash (join_dashes words)
  end.

Definition matches_nameRegex (s : string) : Prop :=
  ∃ words, words ≠ [] ∧ Forall word words ∧ s = join_dashes words.

Definition all_alnum (s : string) : Prop :=
  Forall (λ c, lower_alnum c = true) (String.list_ascii_of_string s).

(** What may follow the first characters of a word. *)
Definition completes (s : string) : Prop :=
  ∃ w s', s = w +:+ s' ∧ all_alnum w ∧
    (s' = EmptyString ∨ ∃ t, s' = String dash t ∧ matches_nameRegex t).

Lemma matches_cons c s : matches_nameRegex (String c s) ↔ lower_alnum c = true ∧ completes s.
Proof.
  split.
  - intros (words & Hne & Hall & Heq). destruct words as [|w words]; [done|].
    apply Forall_cons in Hall as [[Hw Halnum] Hall]. destruct w as [|c' w]; [done|].
    simpl in Halnum. apply Forall_cons in Halnum as [Hc Halnum].
    destruct words as [|w' words]; simpl in Heq; injection Heq as -> ->.
    + split; [done|]. exists w, EmptyString. split; [by rewrite app_empty|]. eauto.
    + split; [done|]. exists w, (String dash (join_dashes (w' :: words))). split; [done|].
      split; [done|]. right. eexists. split; [done|]. by exists (w' :: words).
  - intros [Hc (w & s' & -> & Hw & Hs')]. assert (word (String c w)) as Hword
      by (split; [done | by apply Forall_cons]).
    destruct Hs' as [->|(t & -> & words & Hne & Hall & ->)].
    + exists [String c w]. split_and!; [done | by repeat constructor |].
      simpl. by rewrite app_empty.
    + exists (String c w :: words). split_and!; [done | by constructor |].
      destruct words; [done|]. done.
Qed.

Lemma matches_empty : ¬ matches_nameRegex EmptyString.
Proof.
  intros (words & Hne & Hall & Heq). destruct words as [|w words]; [done|].
  apply Forall_cons in Hall as [[Hw _] _]. destruct w; [done|]. by destruct words.
Qed.

Lemma completes_cons c s :
  completes (String c s) ↔
  if lower_alnum c then completes s else c = dash ∧ matches_nameRegex s.
Proof.
  destruct (lower_alnum c) eqn:Hc; split.
  - intros (w & s' & Heq & Hw & Hs'). destruct w as [|c' w].
    + change (String c s = s') in Heq. subst s'. by destruct Hs' as [?|(t & [= -> ->] & _)].
    + change (String c s = String c' (w +:+ s')) in Heq. injection Heq as -> ->.
      apply Forall_cons in Hw as [_ Hw]. by exists w, s'.
  - intros (w & s' & -> & Hw & Hs'). exists (String c w), s'. split; [done|].
    split; [by apply Forall_cons | done].
  - intros (w & s' & Heq & Hw & Hs'). destruct w as [|c' w].
    + change (String c s = s') in Heq. subst s'. destruct Hs' as [?|(t & [= -> ->] & ?)]; [done | by split].
    + change (String c s = String c' (w +:+ s')) in Heq. injection Heq as -> ->.
      apply Forall_cons in Hw as [Hc' _]. congruence.
  - intros [-> Ht]. exists EmptyString, (String dash s). split; [done|]. split; [constructor|].
    right. eauto.
Qed.

Lemma nameEnforcer_run s :
  (nameEnforcer false s = true ↔ matches_nameRegex s) ∧
  (nameEnforcer true s = true ↔ completes s).
Proof.
  induction s as [|c s [IHf IHt]]; simpl.
  - split; [split; [done | by intros ?%matches_empty]|]. split; [intros _|done].
    exists EmptyString, EmptyString. split; [done|]. split; [constructor | by left].
  - rewrite matches_cons, completes_cons. destruct (lower_alnum c) eqn:Hc; [by rewrite IHt; naive_solver|].
    case_decide; simpl; [rewrite IHf|]; naive_solver.
Qed.

(** ** Theorems *)

Section theorems.
Context {UL : UUIDLib}.

(** A resource name is accepted exactly when it has at most 63 bytes and is a sequence of
    nonempty words of lower-case letters and digits joined by single dashes: a valid Kubernetes
    label value. *)
Theorem isValidName_spec name :
  isValidName name = true ↔ matches_nameRegex name ∧ (String.length name ≤ nameMaxLength)%nat.
Proof.
  unfold isValidName. case_decide as Hd.
  - split; [done|]. intros [Hm Hlen]. destruct Hd as [->|?]; [by apply matches_empty in Hm | lia].
  - rewrite (proj1 (nameEnforcer_run name)). split; [|tauto]. intros Hm. split; [done|]. lia.
Qed.

(** The metadata of a resource are generated exactly from a valid organization, a valid
    project and a valid local name, the error naming the first of them that is wrong; on success
    the effective ID only depends on the project and the local name, and the labels carry the
    four identifiers in their SPX form. *)
Theorem GenerateMetadata_decides prefix m projectId orgId localID :
  match GenerateMetadata m projectId orgId localID with
  | (m', None) =>
    isValidUUID orgId = true ∧ isValidName localID = true ∧
    ∃ ns, uuid_Parse projectId = Some ns ∧
    let effectiveId := uuid_String (NewSHA1 ns localID) in
    m' = mkMetadata orgId projectId effectiveId localID ∧
    GetLabels prefix m' !! SpxLabelOrganizationID = Some (ToSPXID prefix orgId) ∧
    GetLabels prefix m' !! SpxLabelProjectID = Some (ToSPXID prefix projectId) ∧
    GetLabels prefix m' !! SpxLabelResourceLocalID = Some localID ∧
    GetLabels prefix m' !! SpxLabelResourceEffectiveID = Some (ToSPXID prefix effectiveId)
  | (m', Some err) =>
    ResourceEffectiveId m' = ResourceEffectiveId m ∧
    match err with
    | OrgIDEmpty => orgId = EmptyString
    | ProjectIDEmpty => projectId = EmptyString ∧ localID ≠ EmptyString
    | InvalidOrgID => isValidUUID orgId = false
    | InvalidProjectID => projectId ≠ EmptyString ∧ isValidUUID projectId = false
    | InvalidResourceLocalID => localID ≠ EmptyString ∧ isValidName localID = false
    | InvalidProjectOrResourceLocalID => localID = EmptyString
    end
  end.
Proof.
  unfold GenerateMetadata, check. cbn [OrgId ProjectId ResourceLocalId].
  case_decide as Ho; [done|]. case_decide as Hp; [by destruct Hp|].
  unfold checkUUIDs. cbn [OrgId ProjectId ResourceLocalId].
  destruct (isValidUUID orgId) eqn:Hou; cbn [negb]; [|done].
  case_decide as Hpu; [done|]. case_decide as Hl; [done|].
  unfold computeEffectiveID. cbn [OrgId ProjectId ResourceLocalId].
  destruct (decide (localID = EmptyString)) as [He|He].
  { rewrite decide_True by tauto. done. }
  rewrite decide_False by tauto.
  assert (projectId ≠ EmptyString) as Hpe by tauto.
  destruct (isValidName localID) eqn:Hname; [|tauto].
  destruct (uuid_Parse projectId) as [ns|] eqn:Hns.
  - split; [done|]. split; [done|]. exists ns. split; [done|]. split; [done|].
    unfold GetLabels. cbn [OrgId ProjectId ResourceLocalId ResourceEffectiveId].
    rewrite (decide_True (P:=localID ≠ _)) by done. rewrite decide_True; [by simplify_map_eq|].
    unfold ToSPXID. rewrite decide_False by done. destruct prefix; intros Heq; discriminate Heq.
  - destruct Hpu. split; [done|]. unfold isValidUUID. by rewrite Hns.
Qed.
End theorems.
