(* ===== verification/ControllerQuota.v ===== *)
(** * The quota of a project in one availability zone
      ([internal/superphenix-controller/internal/k8s/quota/quota.go],
      [internal/superphenix-controller/pkg/api/k8s/quota.go])

    The controller of an AZ enforces the quota the API sends it through one ResourceQuota object
    per project. The Kubernetes API server and client-go are a class, [KubeClient]; [KubeLaws]
    states what their documentation promises: optimistic concurrency on [resourceVersion], other
    clients acting at any time, and [RetryOnConflict]. *)

From S2P Require Import Prelude Strconv Quantity SpxId.

(** ** What the controller calls *)

(** The reasons [apierrors] tells apart. *)
Inductive StatusReason := NotFound | AlreadyExists | Conflict | OtherReason.

#[export] Instance StatusReason_eq_dec : EqDecision StatusReason.
Proof. solve_decision. Defined.

(** The errors of the quota code: those of the API server, [ErrBelowUsage] and its text. *)
Inductive QuotaError :=
  | KubeError (reason : StatusReason)
  | ErrBelowUsage (resource used limit : string).

Definition IsConflict (e : QuotaError) : bool :=
  match e with KubeError Conflict => true | _ => false end.

Section objects.
Context {QL : QuantityLib}.

(** [v1.ResourceList]; a nil map is empty. *)
Definition ResourceList : Type := gmap string Quantity.

Record ResourceQuota := mkResourceQuota {
  rq_Namespace : string;
  rq_Name : string;
  rq_ResourceVersion : Z;
  rq_Labels : gmap string string;
  rq_Annotations : gmap string string;
  rq_Hard : ResourceList;
  rq_Used : ResourceList;
}.

Definition rq_key (rq : ResourceQuota) : string * string := (rq_Namespace rq, rq_Name rq).

(** The clients of the API server, acting on the state [K] of the cluster. *)
Class KubeClient (K : Type) := {
  GetResourceQuota : string → string → K → result StatusReason ResourceQuota * K;
  CreateResourceQuota : ResourceQuota → K → result StatusReason unit * K;
  UpdateResourceQuota : ResourceQuota → K → result StatusReason unit * K;
  DeleteResourceQuota : string → string → K → result StatusReason unit * K;
  CreateNamespace : string → gmap string string → K → result StatusReason unit * K;
  RetryOnConflict : (K → result QuotaError unit * K) → K → result QuotaError unit * K;
  IsQualifiedName : string → list string;
}.
End objects.

(** ** Definitions *)
Section controller.
Context {QL : QuantityLib} {K : Type} {KC : KubeClient K}.
Context (SpxPrefix : string).

(** The monad of the calls to the cluster. *)
Definition KM (A : Type) : Type := K → result QuotaError A * K.

Definition kret {A} (a : A) : KM A := λ k, (Ok a, k).
Definition kfail {A} (e : QuotaError) : KM A := λ k, (Err e, k).
Definition kcall {A} (m : K → result StatusReason A * K) : KM A := λ k,
  match m k with (Ok a, k') => (Ok a, k') | (Err e, k') => (Err (KubeError e), k') end.

Definition GetName (projectId : string) : string := "quota-" +:+ projectId.

Definition GetNamespace (projectId : string) : string := SpxPrefix +:+ "-" +:+ projectId.

Definition CreateNamespaceIfNotExists (orgaId projectId : string) : KM unit := λ k,
  let labels := GetLabels SpxPrefix (mkMetadata orgaId projectId EmptyString EmptyString) in
  match CreateNamespace (GetNamespace projectId) labels k with
  | (Ok _, k') => (Ok tt, k')
  | (Err AlreadyExists, k') => (Ok tt, k')
  | (Err e, k') => (Err (KubeError e), k')
  end.

Definition MaxResources : nat := 128.

Inductive ValidateError :=
  | TooManyResources
  | InvalidResourceName (name : string) (errs : list string)
  | InvalidQuantityOf (name value : string)
  | NegativeQuantity (name : string).

Definition validateEntry (name value : string) : result ValidateError Quantity :=
  match IsQualifiedName (K:=K) name with
  | [] =>
    match ParseQuantity value with
    | None => Err (InvalidQuantityOf name value)
    | Some q => if decide (Sign q < 0) then Err (NegativeQuantity name) else Ok q
    end
  | errs => Err (InvalidResourceName name errs)
  end.

Definition Validate (hard : gmap string string) : result ValidateError ResourceList :=
  if decide (MaxResources < size hard)%nat then Err TooManyResources else
  foldM (λ (list : ResourceList) kv,
    q ← validateEntry kv.1 kv.2; Ok (<[kv.1:=q]> list)) ∅ (map_to_list hard).

Definition IsGitops (rq : ResourceQuota) : bool :=
  bool_decide (rq_Labels rq !! SpxLabelGitops = Some "true").

(** The names of [hard] in order, with the values found in each map. *)
Fixpoint checkNotBelowUsageFrom (current : ResourceQuota) (hard : ResourceList)
    (names : list string) : result QuotaError unit :=
  match names with
  | [] => Ok tt
  | name :: names =>
    match hard !! name with
    | None => checkNotBelowUsageFrom current hard names
    | Some limit =>
      match rq_Hard current !! name with
      | None => checkNotBelowUsageFrom current hard names
      | Some old =>
        if decide (0 ≤ Cmp limit old) then checkNotBelowUsageFrom current hard names
        else match rq_Used current !! name with
             | Some used =>
               if decide (0 < Cmp used limit) then Err (ErrBelowUsage name (QString used) (QString limit))
               else checkNotBelowUsageFrom current hard names
             | None => checkNotBelowUsageFrom current hard names
             end
      end
    end
  end.

Definition CheckNotBelowUsage (current : ResourceQuota) (hard : ResourceList) :
    result QuotaError unit :=
  checkNotBelowUsageFrom current hard (sorted_keys hard).

(** Whether the object carries a newer revision than the request. *)
Definition staleRevision (current : ResourceQuota) (revision : Z) : bool :=
  if decide (0 < revision) then
    match rq_Annotations current !! SpxAnnotationQuotaRevision with
    | None => false
    | Some storedRevStr =>
      match ParseInt storedRevStr with
      | None => false
      | Some storedRev => bool_decide (revision < storedRev)
      end
    end
  else false.

Definition withRevision (annotations : gmap string string) (revision : Z) : gmap string string :=
  if decide (0 < revision)
  then <[SpxAnnotationQuotaRevision := FormatInt revision]> annotations else annotations.

Definition newResourceQuota (orgId projectId : string) (hard : ResourceList) (revision : Z) :
    ResourceQuota :=
  mkResourceQuota (GetNamespace projectId) (GetName projectId) 0
    (GetLabels SpxPrefix (mkMetadata orgId projectId EmptyString EmptyString))
    (withRevision ∅ revision) hard ∅.

(** The labels of the object are kept, those of the framework are set again. *)
Definition updatedResourceQuota (current : ResourceQuota) (orgId projectId : string)
    (hard : ResourceList) (revision : Z) : ResourceQuota :=
  mkResourceQuota (rq_Namespace current) (rq_Name current) (rq_ResourceVersion current)
    (map_fold (λ key value (labels : gmap string string), <[key:=value]> labels) (rq_Labels current)
      (GetLabels SpxPrefix (mkMetadata orgId projectId EmptyString EmptyString)))
    (withRevision (rq_Annotations current) revision) hard (rq_Used current).

Definition apply (orgId projectId : string) (hard : ResourceList) (revision : Z) : KM unit := λ k,
  match GetResourceQuota (GetNamespace projectId) (GetName projectId) k with
  | (Err NotFound, k) =>
    kcall (CreateResourceQuota (newResourceQuota orgId projectId hard revision)) k
  | (Err e, k) => (Err (KubeError e), k)
  | (Ok current, k) =>
    if IsGitops current then (Ok tt, k)
    else if staleRevision current revision then (Ok tt, k)
    else match CheckNotBelowUsage current hard with
         | Err e => (Err e, k)
         | Ok _ =>
           kcall (UpdateResourceQuota
             (updatedResourceQuota current orgId projectId hard revision)) k
         end
  end.

Definition Apply (orgId projectId : string) (hard : ResourceList) (revision : Z) : KM unit := λ k,
  match CreateNamespaceIfNotExists orgId projectId k with
  | (Err e, k) => (Err e, k)
  | (Ok _, k) => RetryOnConflict (apply orgId projectId hard revision) k
  end.

Definition Get (projectId : string) : KM (ResourceList * ResourceList) := λ k,
  match GetResourceQuota (GetNamespace projectId) (GetName projectId) k with
  | (Err NotFound, k) => (Ok (∅, ∅), k)
  | (Err e, k) => (Err (KubeError e), k)
  | (Ok current, k) => (Ok (rq_Hard current, rq_Used current), k)
  end.

Definition Delete (projectId : string) (revision : Z) : KM unit := λ k,
  match GetResourceQuota (GetNamespace projectId) (GetName projectId) k with
  | (Err NotFound, k) => (Ok tt, k)
  | (Err e, k) => (Err (KubeError e), k)
  | (Ok current, k) =>
    if IsGitops current then (Ok tt, k)
    else if staleRevision current revision then (Ok tt, k)
    else match DeleteResourceQuota (GetNamespace projectId) (GetName projectId) k with
         | (Err NotFound, k) => (Ok tt, k)
         | (Err e, k) => (Err (KubeError e), k)
         | (Ok _, k) => (Ok tt, k)
         end
  end.

(** ** The HTTP endpoint *)
Context {UL : UUIDLib}.

Record QuotaBody := mkQuotaBody { body_Hard : gmap string string; body_Revision : Z }.
Record QuotaStatus := mkQuotaStatus { status_Hard : gmap string string; status_Used : gmap string string }.

Definition StatusOK : Z := 200.
Definition StatusNoContent : Z := 204.
Definition StatusBadRequest : Z := 400.
Definition StatusConflict : Z := 409.
Definition StatusInternalServerError : Z := 500.

Definition toStrings (list : ResourceList) : gmap string string :=
  map_fold (λ name q (res : gmap string string), <[name:=QString q]> res) ∅ list.

(** The identifiers of the path, when both are UUIDs. *)
Definition parseQuotaParams (orgId projectId : string) : option (string * string) :=
  match uuid_Parse orgId with
  | None => None
  | Some _ =>
    match uuid_Parse projectId with
    | None => None
    | Some _ => Some (orgId, projectId)
    end
  end.

Definition getQuota (orgId projectId : string) (k : K) : (Z * option QuotaStatus) * K :=
  match parseQuotaParams orgId projectId with
  | None => ((StatusBadRequest, None), k)
  | Some (_, projectId) =>
    match Get projectId k with
    | (Err _, k) => ((StatusInternalServerError, None), k)
    | (Ok (hard, used), k) =>
      ((StatusOK, Some (mkQuotaStatus (toStrings hard) (toStrings used))), k)
    end
  end.

(** [body] is the decoded request, or the status the decoder answered. *)
Definition setQuota (orgId projectId : string) (body : result Z QuotaBody) (k : K) : Z * K :=
  match parseQuotaParams orgId projectId with
  | None => (StatusBadRequest, k)
  | Some (orgId, projectId) =>
    match body with
    | Err status => (status, k)
    | Ok body =>
      match Validate (body_Hard body) with
      | Err _ => (StatusBadRequest, k)
      | Ok hard =>
        let '(err, k) :=
          if decide (size hard = 0%nat) then Delete projectId (body_Revision body) k
          else Apply orgId projectId hard (body_Revision body) k in
        match err with
        | Err (ErrBelowUsage _ _ _) => (StatusConflict, k)
        | Err _ => (StatusInternalServerError, k)
        | Ok _ => (StatusNoContent, k)
        end
      end
    end
  end.
End controller.
