(* ===== verification/ControllerLaws.v ===== *)
(** * What the controller of an availability zone guarantees

    The documented behaviour of the API server, and the abstract specification that the quota
    operations of [ControllerQuota] refine: each request is a single atomic step on the object of
    the project, whatever other clients do meanwhile and however many conflicts are retried. At the end, a small
    cluster on which the witnesses are evaluated. *)

From S2P Require Import Prelude Strconv Quantity SpxId ControllerQuota.

(** ** The API server, as documented *)
Section laws.
Context {QL : QuantityLib}.

(** The runs of a retried call: conflicting attempts, then the attempt that is returned. *)
Inductive retried {K} (fn : K → result QuotaError unit * K) : K → result QuotaError unit * K → Prop :=
  | retried_last k : retried fn k (fn k)
  | retried_again k e k1 r :
      fn k = (Err e, k1) → IsConflict e = true → retried fn k1 r → retried fn k r.

(** [stored]: the objects of the cluster. [evolves]: what happens between two calls, by other
    clients, the quota admission included. *)
Class KubeStore (K : Type) := {
  stored : K → gmap (string * string) ResourceQuota;
  evolves : relation K;
}.

(** The object a successful write leaves: the fields sent and a version, the status kept. *)
Definition written (rq : ResourceQuota) (used : ResourceList) (version : Z) : ResourceQuota :=
  mkResourceQuota (rq_Namespace rq) (rq_Name rq) version (rq_Labels rq) (rq_Annotations rq)
    (rq_Hard rq) used.

Section writes.
Context {K : Type} {KS : KubeStore K}.

Definition created (rq : ResourceQuota) (k k' : K) : Prop :=
  ∃ k1 v, evolves k k1 ∧ stored k1 !! rq_key rq = None ∧
    stored k' = <[rq_key rq := written rq ∅ v]> (stored k1).

Definition updated (rq : ResourceQuota) (k k' : K) : Prop :=
  ∃ k1 old v, evolves k k1 ∧ stored k1 !! rq_key rq = Some old ∧
    rq_ResourceVersion old = rq_ResourceVersion rq ∧
    stored k' = <[rq_key rq := written rq (rq_Used old) v]> (stored k1).

Definition deleted (key : string * string) (k k' : K) : Prop :=
  ∃ k1, evolves k k1 ∧ is_Some (stored k1 !! key) ∧ stored k' = delete key (stored k1).
End writes.

(** An object that changes gets another version, and is only updated from the version it has. A
    call that fails without a reason may have been applied. *)
Class KubeLaws (K : Type) {KC : KubeClient K} {KS : KubeStore K} := {
  evolves_preorder :: PreOrder (evolves (K:=K));
  evolves_version k k' key a b :
    evolves k k' → stored k !! key = Some a → stored k' !! key = Some b →
    rq_ResourceVersion a = rq_ResourceVersion b → a = b;
  Get_spec namespace name k r k' :
    GetResourceQuota namespace name k = (r, k') → evolves k k' ∧
    match r with
    | Ok rq => stored k' !! (namespace, name) = Some rq ∧ rq_key rq = (namespace, name)
    | Err NotFound => stored k' !! (namespace, name) = None
    | Err _ => True
    end;
  Create_spec rq k r k' :
    CreateResourceQuota rq k = (r, k') →
    match r with
    | Ok _ => created rq k k'
    | Err OtherReason => evolves k k' ∨ created rq k k'
    | Err _ => evolves k k'
    end;
  Update_spec rq k r k' :
    UpdateResourceQuota rq k = (r, k') →
    match r with
    | Ok _ => updated rq k k'
    | Err OtherReason => evolves k k' ∨ updated rq k k'
    | Err _ => evolves k k'
    end;
  Delete_spec namespace name k r k' :
    DeleteResourceQuota namespace name k = (r, k') →
    match r with
    | Ok _ => deleted (namespace, name) k k'
    | Err OtherReason => evolves k k' ∨ deleted (namespace, name) k k'
    | Err NotFound => evolves k k' ∧ stored k' !! (namespace, name) = None
    | Err _ => evolves k k'
    end;
  CreateNamespace_spec name labels k r k' :
    CreateNamespace name labels k = (r, k') → evolves k k';
  RetryOnConflict_spec fn k : retried fn k (RetryOnConflict fn k);
}.
End laws.

(** ** The specification *)
Section specification.
Context {QL : QuantityLib} {QLaws : QuantityLaws QL}.
Context {K : Type} {KC : KubeClient K} {KS : KubeStore K} {KL : KubeLaws K}.
Context (SpxPrefix : string).
Implicit Types (k : K) (hard : ResourceList).

(** [hard] lowers the limit of [n] below what is used of it. *)
Definition lowers_below_usage (current : ResourceQuota) hard n : Prop :=
  ∃ limit old used, hard !! n = Some limit ∧ rq_Hard current !! n = Some old ∧
    rq_Used current !! n = Some used ∧ nano limit < nano old ∧ nano limit < nano used.

Definition allowed (current : ResourceQuota) hard revision : Prop :=
  IsGitops current = false ∧ staleRevision current revision = false ∧
  ∀ n, ¬ lowers_below_usage current hard n.

(** One push, as an atomic step: what the object was at the moment of the step decides. *)
Inductive applied (orgId projectId : string) hard (revision : Z) (k k' : K) :
    result QuotaError unit → Prop :=
  | applied_created k1 v r :
      evolves k k1 → stored k1 !! (GetNamespace SpxPrefix projectId, GetName projectId) = None →
      stored k' = <[(GetNamespace SpxPrefix projectId, GetName projectId) :=
        written (newResourceQuota SpxPrefix orgId projectId hard revision) ∅ v]> (stored k1) →
      (r = Ok tt ∨ r = Err (KubeError OtherReason)) → applied orgId projectId hard revision k k' r
  | applied_updated k1 current v r :
      evolves k k1 →
      stored k1 !! (GetNamespace SpxPrefix projectId, GetName projectId) = Some current →
      allowed current hard revision →
      stored k' = <[(GetNamespace SpxPrefix projectId, GetName projectId) :=
        written (updatedResourceQuota SpxPrefix current orgId projectId hard revision)
          (rq_Used current) v]> (stored k1) →
      (r = Ok tt ∨ r = Err (KubeError OtherReason)) → applied orgId projectId hard revision k k' r
  | applied_skipped current :
      evolves k k' →
      stored k' !! (GetNamespace SpxPrefix projectId, GetName projectId) = Some current →
      IsGitops current = true ∨ staleRevision current revision = true →
      applied orgId projectId hard revision k k' (Ok tt)
  | applied_refused current n used limit :
      evolves k k' →
      stored k' !! (GetNamespace SpxPrefix projectId, GetName projectId) = Some current →
      lowers_below_usage current hard n →
      applied orgId projectId hard revision k k' (Err (ErrBelowUsage n used limit))
  | applied_failed reason :
      evolves k k' → applied orgId projectId hard revision k k' (Err (KubeError reason)).

Lemma Cmp_lt (a b : Quantity) : Cmp a b < 0 ↔ nano a < nano b.
Proof. rewrite Cmp_spec. lia. Qed.

Lemma Cmp_gt (a b : Quantity) : 0 < Cmp a b ↔ nano b < nano a.
Proof. rewrite Cmp_spec. lia. Qed.

(** One deletion, in two steps: the object seen decides, and whichever object has the name later is
    deleted. *)
Inductive removed (projectId : string) (revision : Z) (k k' : K) : result QuotaError unit → Prop :=
  | removed_absent :
      evolves k k' → stored k' !! (GetNamespace SpxPrefix projectId, GetName projectId) = None →
      removed projectId revision k k' (Ok tt)
  | removed_meanwhile k1 seen :
      evolves k k1 →
      stored k1 !! (GetNamespace SpxPrefix projectId, GetName projectId) = Some seen →
      IsGitops seen = false → staleRevision seen revision = false →
      evolves k1 k' → stored k' !! (GetNamespace SpxPrefix projectId, GetName projectId) = None →
      removed projectId revision k k' (Ok tt)
  | removed_deleted k1 seen r :
      evolves k k1 →
      stored k1 !! (GetNamespace SpxPrefix projectId, GetName projectId) = Some seen →
      IsGitops seen = false → staleRevision seen revision = false →
      deleted (GetNamespace SpxPrefix projectId, GetName projectId) k1 k' →
      (r = Ok tt ∨ r = Err (KubeError OtherReason)) → removed projectId revision k k' r
  | removed_skipped seen :
      evolves k k' → stored k' !! (GetNamespace SpxPrefix projectId, GetName projectId) = Some seen →
      IsGitops seen = true ∨ staleRevision seen revision = true →
      removed projectId revision k k' (Ok tt)
  | removed_failed reason :
      evolves k k' → removed projectId revision k k' (Err (KubeError reason)).

(** The check of the usage, resource by resource. *)
Lemma checkNotBelowUsageFrom_spec current hard names :
  match checkNotBelowUsageFrom current hard names with
  | Ok _ => ∀ n, n ∈ names → ¬ lowers_below_usage current hard n
  | Err e => ∃ n used limit, e = ErrBelowUsage n used limit ∧ n ∈ names ∧
      lowers_below_usage current hard n
  end.
Proof.
  induction names as [|n names IH]; simpl; [set_solver|].
  assert (¬ lowers_below_usage current hard n →
    match checkNotBelowUsageFrom current hard names with
    | Ok _ => ∀ n', n' ∈ n :: names → ¬ lowers_below_usage current hard n'
    | Err e => ∃ n' used limit, e = ErrBelowUsage n' used limit ∧ n' ∈ n :: names ∧
        lowers_below_usage current hard n'
    end) as Hskip.
  { intros Hn. destruct (checkNotBelowUsageFrom current hard names) as [u|e].
    - intros n' [->|?]%elem_of_cons; [done | by apply IH].
    - destruct IH as (n' & used & limit & ? & ? & ?). exists n', used, limit. set_solver. }
  destruct (hard !! n) as [limit|] eqn:Hl; [|apply Hskip; intros (? & ? & ? & ? & _); congruence].
  destruct (rq_Hard current !! n) as [old|] eqn:Ho;
    [|apply Hskip; intros (? & ? & ? & _ & ? & _); congruence].
  case_decide as Hc.
  { apply Hskip. intros (limit' & old' & used & Hl' & Ho' & _ & Hlt & _). simplify_eq.
    apply Cmp_lt in Hlt. lia. }
  destruct (rq_Used current !! n) as [used|] eqn:Hu;
    [|apply Hskip; intros (? & ? & ? & _ & _ & ? & _); congruence].
  case_decide as Hc'.
  - exists n, (QString used), (QString limit). split; [done|]. split; [left|].
    exists limit, old, used. split_and!; try done; [apply Cmp_lt; lia | by apply Cmp_gt].
  - apply Hskip. intros (limit' & old' & used' & Hl' & Ho' & Hu' & _ & Hlt). simplify_eq.
    apply Cmp_gt in Hlt. lia.
Qed.

Lemma CheckNotBelowUsage_spec current hard :
  match CheckNotBelowUsage current hard with
  | Ok _ => ∀ n, ¬ lowers_below_usage current hard n
  | Err e => ∃ n used limit, e = ErrBelowUsage n used limit ∧ lowers_below_usage current hard n
  end.
Proof.
  unfold CheckNotBelowUsage.
  pose proof (checkNotBelowUsageFrom_spec current hard (sorted_keys hard)) as Hspec.
  destruct (checkNotBelowUsageFrom _ _ _) as [u|e].
  - intros n Hn. apply (Hspec n); [|done]. destruct Hn as (limit & _ & _ & Hl & _).
    apply elem_of_sorted_keys. eauto.
  - destruct Hspec as (n & used & limit & ? & _ & ?). eauto.
Qed.

(** ** The operations refine the specification *)

Lemma applied_later o p hard rev k0 k k' r :
  evolves k0 k → applied o p hard rev k k' r → applied o p hard rev k0 k' r.
Proof.
  intros Hk Happ. destruct Happ as [k1 v r H1|k1 c v r H1|c H1|c n u l H1|e H1].
  - eapply applied_created; [by etrans|done..].
  - eapply applied_updated; [by etrans|done..].
  - eapply applied_skipped; [by etrans|done..].
  - eapply applied_refused; [by etrans|done..].
  - apply applied_failed. by etrans.
Qed.

(** A conflicting attempt has changed nothing. *)
Lemma applied_conflict o p hard rev k k' e :
  applied o p hard rev k k' (Err e) → IsConflict e = true → evolves k k'.
Proof.
  intros Happ Hc. inversion Happ as [k1 v r ? ? ? Hr|k1 c v r ? ? ? ? Hr| |c n u l ? ? ? Hr|]; subst.
  - by destruct Hr as [?|[= ->]].
  - by destruct Hr as [?|[= ->]].
  - done.
  - done.
Qed.

Lemma apply_refines o p hard rev k r k' :
  apply SpxPrefix o p hard rev k = (r, k') → applied o p hard rev k k' r.
Proof.
  unfold apply. destruct (GetResourceQuota _ _ k) as [[current|e] k1] eqn:Hget;
    apply Get_spec in Hget as [He Hstored].
  - destruct Hstored as [Hcur Hkey].
    destruct (IsGitops current) eqn:Hg; [intros [= <- <-]; eapply applied_skipped; eauto|].
    destruct (staleRevision current rev) eqn:Hs; [intros [= <- <-]; eapply applied_skipped; eauto|].
    pose proof (CheckNotBelowUsage_spec current hard) as Hcheck.
    destruct (CheckNotBelowUsage current hard) as [u|e].
    2: { destruct Hcheck as (n & used & limit & -> & Hlow). intros [= <- <-].
         by eapply applied_refused. }
    assert (∀ k', updated (updatedResourceQuota SpxPrefix current o p hard rev) k1 k' → ∀ r,
      r = Ok tt ∨ r = Err (KubeError OtherReason) → applied o p hard rev k k' r) as Hup.
    { intros k2 (k3 & old & v & He' & Hold & Hv & Hk2) r' Hr'.
      change (rq_key (updatedResourceQuota SpxPrefix current o p hard rev)) with (rq_key current)
        in Hold, Hk2. rewrite Hkey in Hold, Hk2. change (rq_ResourceVersion old = rq_ResourceVersion current) in Hv.
      assert (current = old) as -> by by eapply evolves_version.
      eapply applied_updated; [by etrans|exact Hold| by split |exact Hk2|exact Hr']. }
    unfold kcall. destruct (UpdateResourceQuota _ k1) as [[[]|[]] k2] eqn:Hupd;
      apply Update_spec in Hupd; intros [= <- <-].
    + apply Hup; auto.
    + apply applied_failed. by etrans.
    + apply applied_failed. by etrans.
    + apply applied_failed. by etrans.
    + destruct Hupd as [?|Hupd]; [apply applied_failed; by etrans | apply Hup; auto].
  - destruct e; [|intros [= <- <-]; by apply applied_failed..].
    assert (∀ k', created (newResourceQuota SpxPrefix o p hard rev) k1 k' → ∀ r,
      r = Ok tt ∨ r = Err (KubeError OtherReason) → applied o p hard rev k k' r) as Hnew.
    { intros k2 (k3 & v & He' & Hold & Hk2) r' Hr'.
      eapply applied_created; [by etrans|exact Hold|exact Hk2|exact Hr']. }
    unfold kcall. destruct (CreateResourceQuota _ k1) as [[[]|[]] k2] eqn:Hcr;
      apply Create_spec in Hcr; intros [= <- <-].
    + apply Hnew; auto.
    + apply applied_failed. by etrans.
    + apply applied_failed. by etrans.
    + apply applied_failed. by etrans.
    + destruct Hcr as [?|Hcr]; [apply applied_failed; by etrans | apply Hnew; auto].
Qed.

Lemma retried_refines o p hard rev k x :
  retried (apply SpxPrefix o p hard rev) k x → applied o p hard rev k x.2 x.1.
Proof.
  induction 1 as [k|k e k1 x Hfn Hc Hr IH].
  - apply apply_refines. apply surjective_pairing.
  - apply apply_refines in Hfn. eapply applied_later; [|exact IH]. by eapply applied_conflict.
Qed.

Lemma CreateNamespaceIfNotExists_evolves o p k r k' :
  CreateNamespaceIfNotExists SpxPrefix o p k = (r, k') →
  evolves k k' ∧ ∀ e, r = Err e → ∃ reason, e = KubeError reason.
Proof.
  unfold CreateNamespaceIfNotExists.
  destruct (CreateNamespace _ _ k) as [[u|e] k1] eqn:Hns; apply CreateNamespace_spec in Hns.
  - intros [= <- <-]. by split.
  - destruct e; intros [= <- <-]; (split; [done|]); intros ? [=]; eauto.
Qed.

Lemma Apply_refines o p hard rev k r k' :
  Apply SpxPrefix o p hard rev k = (r, k') → applied o p hard rev k k' r.
Proof.
  unfold Apply. destruct (CreateNamespaceIfNotExists SpxPrefix o p k) as [[u|e] k1] eqn:Hns;
    apply CreateNamespaceIfNotExists_evolves in Hns as [He Herr].
  - intros Hr. eapply applied_later; [exact He|].
    pose proof (RetryOnConflict_spec (apply SpxPrefix o p hard rev) k1) as Hretry.
    apply retried_refines in Hretry. by rewrite Hr in Hretry.
  - intros [= <- <-]. destruct (Herr e eq_refl) as [reason ->]. by apply applied_failed.
Qed.

Lemma Delete_refines p rev k r k' :
  Delete SpxPrefix p rev k = (r, k') → removed p rev k k' r.
Proof.
  unfold Delete. destruct (GetResourceQuota _ _ k) as [[seen|e] k1] eqn:Hget;
    apply Get_spec in Hget as [He Hstored].
  - destruct Hstored as [Hseen _].
    destruct (IsGitops seen) eqn:Hg; [intros [= <- <-]; eapply removed_skipped; eauto|].
    destruct (staleRevision seen rev) eqn:Hs; [intros [= <- <-]; eapply removed_skipped; eauto|].
    destruct (DeleteResourceQuota _ _ k1) as [[[]|[]] k2] eqn:Hdel;
      apply Delete_spec in Hdel; intros [= <- <-].
    + eapply removed_deleted; eauto.
    + destruct Hdel. by eapply removed_meanwhile.
    + apply removed_failed. by etrans.
    + apply removed_failed. by etrans.
    + destruct Hdel as [?|?]; [apply removed_failed; by etrans | eapply removed_deleted; eauto].
  - destruct e; intros [= <- <-]; [by apply removed_absent | by apply removed_failed..].
Qed.
End specification.

(** * A concrete cluster

    An API server as [KubeLaws] describes it, executable: the objects, the last version given,
    and what other clients will write before each of the next calls. *)

Module Cluster.
Section cluster.
Context {QL : QuantityLib}.

Record t := mk {
  objects : gmap (string * string) ResourceQuota;
  counter : Z;
  pending : list (list ResourceQuota);
}.

(** A write gives the object the next version. *)
Definition put (rq : ResourceQuota) (used : ResourceList) (k : t) : t :=
  mk (<[rq_key rq := written rq used (counter k + 1)]> (objects k)) (counter k + 1) (pending k).

Definition tick (k : t) : t :=
  match pending k with
  | [] => k
  | rqs :: rest => foldl (λ k rq, put rq (rq_Used rq) k) (mk (objects k) (counter k) rest) rqs
  end.

#[global] Instance store : KubeStore t := {|
  stored k := filter (λ '(_, rq), rq_ResourceVersion rq ≤ counter k) (objects k);
  evolves k k' := counter k ≤ counter k' ∧ ∀ key b,
    filter (λ '(_, rq), rq_ResourceVersion rq ≤ counter k') (objects k') !! key = Some b →
    filter (λ '(_, rq), rq_ResourceVersion rq ≤ counter k) (objects k) !! key = Some b ∨
    counter k < rq_ResourceVersion b;
|}.

Definition get (namespace name : string) (k : t) : result StatusReason ResourceQuota * t :=
  let k := tick k in
  match stored k !! (namespace, name) with
  | Some rq => if decide (rq_key rq = (namespace, name)) then (Ok rq, k) else (Err OtherReason, k)
  | None => (Err NotFound, k)
  end.

Definition create (rq : ResourceQuota) (k : t) : result StatusReason unit * t :=
  let k := tick k in
  match stored k !! rq_key rq with
  | Some _ => (Err AlreadyExists, k)
  | None => (Ok tt, put rq ∅ (mk (stored k) (counter k) (pending k)))
  end.

Definition update (rq : ResourceQuota) (k : t) : result StatusReason unit * t :=
  let k := tick k in
  match stored k !! rq_key rq with
  | None => (Err NotFound, k)
  | Some old =>
    if decide (rq_ResourceVersion old = rq_ResourceVersion rq)
    then (Ok tt, put rq (rq_Used old) (mk (stored k) (counter k) (pending k)))
    else (Err Conflict, k)
  end.

Definition remove (namespace name : string) (k : t) : result StatusReason unit * t :=
  let k := tick k in
  match stored k !! (namespace, name) with
  | None => (Err NotFound, k)
  | Some _ => (Ok tt, mk (delete (namespace, name) (stored k)) (counter k) (pending k))
  end.

Fixpoint attempts (n : nat) (fn : t → result QuotaError unit * t) (k : t) :
    result QuotaError unit * t :=
  match n with
  | O => fn k
  | S n =>
    match fn k with
    | (Err e, k') => if IsConflict e then attempts n fn k' else (Err e, k')
    | ok => ok
    end
  end.

#[global] Instance client : KubeClient t := {|
  GetResourceQuota := get;
  CreateResourceQuota := create;
  UpdateResourceQuota := update;
  DeleteResourceQuota := remove;
  CreateNamespace := λ _ _ k, (Ok tt, tick k);
  RetryOnConflict := attempts 4;
  IsQualifiedName := λ name, if decide (name = EmptyString) then ["empty"] else [];
|}.

Lemma stored_Some k key rq :
  stored k !! key = Some rq ↔ objects k !! key = Some rq ∧ rq_ResourceVersion rq ≤ counter k.
Proof. cbn. by rewrite map_lookup_filter_Some. Qed.

#[global] Instance evolves_preorder : PreOrder (evolves (K:=t)).
Proof.
  split.
  - intros k. split; [lia|]. auto.
  - intros k1 k2 k3 [Hc1 H1] [Hc2 H2]. split; [lia|]. intros key b Hb.
    destruct (H2 key b Hb) as [Hb'|?]; [apply H1 in Hb' as [?|?]; auto | right; lia].
Qed.

Lemma put_evolves rq used k : evolves k (put rq used k).
Proof.
  split; [simpl; lia|]. intros key b [Hb Hv]%(stored_Some (put rq used k)). cbn in Hb.
  destruct (decide (key = rq_key rq)) as [->|?]; simplify_map_eq.
  - right. simpl. lia.
  - destruct (decide (rq_ResourceVersion b ≤ counter k)) as [?|?]; [left | right; lia].
    by apply (stored_Some k).
Qed.

Lemma tick_evolves k : evolves k (tick k).
Proof.
  unfold tick. destruct (pending k) as [|rqs rest]; [done|].
  transitivity (mk (objects k) (counter k) rest); [by split; [simpl; lia|auto]|].
  generalize (mk (objects k) (counter k) rest). induction rqs as [|rq rqs IH]; intros k'; [done|].
  cbn [foldl]. etrans; [apply put_evolves | apply IH].
Qed.

(** A write to the visible objects. *)
Lemma stored_put rq used k :
  stored (put rq used (mk (stored k) (counter k) (pending k))) =
  <[rq_key rq := written rq used (counter k + 1)]> (stored k).
Proof.
  apply map_eq. intros key. apply option_eq. intros b.
  rewrite (stored_Some (put rq used (mk (stored k) (counter k) (pending k)))). cbn [put objects counter].
  destruct (decide (key = rq_key rq)) as [->|?].
  - rewrite !lookup_insert_eq. split; [by intros [[= <-] _]|]. intros [= <-]. split; [done|].
    simpl. lia.
  - rewrite !lookup_insert_ne by done. rewrite stored_Some. split; [tauto|]. intros [? ?].
    split; [done|lia].
Qed.

#[global] Instance laws : KubeLaws t.
Proof.
  split.
  - apply _.
  - intros k k' key a b [_ He] [Ha Hva]%stored_Some Hb Hv.
    destruct (He key b Hb) as [[Hb' _]%(stored_Some k)|?]; [congruence|lia].
  - cbn. unfold get. intros namespace name k r k'. pose proof (tick_evolves k).
    destruct (stored (tick k) !! _) as [rq|] eqn:Hs; [|by intros [= <- <-]].
    case_decide; intros [= <- <-]; (split; [done|]); done.
  - cbn. unfold create. intros rq k r k'. pose proof (tick_evolves k).
    destruct (stored (tick k) !! _) as [old|] eqn:Hs; intros [= <- <-]; [done|].
    eexists (tick k), _. split; [done|]. split; [done|]. apply stored_put.
  - cbn. unfold update. intros rq k r k'. pose proof (tick_evolves k).
    destruct (stored (tick k) !! _) as [old|] eqn:Hs; [|by intros [= <- <-]].
    case_decide; intros [= <- <-]; [|done].
    eexists (tick k), old, _. split; [done|]. split; [done|]. split; [done|]. apply stored_put.
  - cbn. unfold remove. intros namespace name k r k'. pose proof (tick_evolves k).
    destruct (stored (tick k) !! _) as [old|] eqn:Hs; intros [= <- <-]; [|split; [done|exact Hs]].
    exists (tick k). split; [done|]. split; [eauto|].
    apply map_eq. intros key. apply option_eq. intros b.
    rewrite (stored_Some (mk _ _ _)). cbn [objects counter]. rewrite !lookup_delete_Some.
    rewrite (stored_Some (tick k)). rewrite map_lookup_filter_Some. tauto.
  - cbn. intros name labels k r k' [= _ <-]. apply tick_evolves.
  - intros fn k. change (RetryOnConflict fn k) with (attempts 4 fn k). generalize 4%nat. intros n.
    revert k. induction n as [|n IH]; intros k; [apply retried_last|]. cbn [attempts].
    pose proof (retried_last fn k) as Hlast. destruct (fn k) as [[u|e] k'] eqn:Hfn; [done|].
    destruct (IsConflict e) eqn:Hc; [|done].
    eapply retried_again; [exact Hfn | exact Hc | apply IH].
Qed.
End cluster.
End Cluster.

(** ** A cluster with one project *)
Module ClusterSamples.
Import NanoQuantity.

#[export] Instance uuids : UUIDLib := {|
  UUID := string;
  uuid_Parse s := if decide (String.length s = 36%nat) then Some s else None;
  NewSHA1 u s := u +:+ s;
  uuid_String u := u;
|}.

Definition organization := "0f1e5be5-4c92-4147-b46c-1b018c80f722".
Definition project := "e98222a9-187a-4b1b-8f37-89eb1d3bc23c".

(** 4 CPUs limited, 1 used, at the given revision and version. *)
Definition object (cpus revision version : Z) : ResourceQuota :=
  mkResourceQuota (GetNamespace "spx" project) (GetName project) version ∅
    {[SpxAnnotationQuotaRevision := FormatInt revision]}
    {["requests.cpu" := cpus * 10 ^ 9]} {["requests.cpu" := 10 ^ 9]}.

Definition cluster (pending : list (list ResourceQuota)) : Cluster.t :=
  Cluster.mk {[rq_key (object 4 5 1) := object 4 5 1]} 1 pending.

Definition key : string * string := (GetNamespace "spx" project, GetName project).

Definition limits : ResourceList := {["requests.cpu" := 2 * 10 ^ 9]}.

Definition hard_of (k : Cluster.t) : option Z :=
  rq ← stored k !! key; rq_Hard rq !! "requests.cpu".
End ClusterSamples.
