(* ===== verification/ControllerTheorems.v ===== *)
(** * The theorems of the controller's quotas

    What the API relies on when it pushes a quota to an availability zone: each push is one
    atomic step that never lowers a limit below its usage, pushes are ordered by their revision,
    and what these two protections leave open. *)

From S2P Require Import Prelude Strconv Quantity SpxId ControllerQuota ControllerLaws.
From S2P Require Import ControllerLaws.
(** ** Lemmas *)
Section lemmas.
Context {QL : QuantityLib}.

Lemma lookup_relabel (labels news : gmap string string) key :
  map_fold (λ key value (labels : gmap string string), <[key:=value]> labels) labels news !! key =
  match news !! key with Some v => Some v | None => labels !! key end.
Proof. rewrite (lookup_range _ (λ _ v _, Some v)) by solve_range. done. Qed.

Lemma GetLabels_keys prefix m key :
  is_Some (GetLabels prefix m !! key) →
  key ∈ [SpxLabelOrganizationID; SpxLabelProjectID; SpxLabelResourceLocalID; SpxLabelResourceEffectiveID].
Proof.
  unfold GetLabels. intros [v Hv].
  repeat case_decide; rewrite ?lookup_insert_Some, ?lookup_singleton_Some in Hv; set_solver.
Qed.

Lemma GetLabels_gitops prefix m : GetLabels prefix m !! SpxLabelGitops = None.
Proof.
  apply eq_None_not_Some. intros Hin%GetLabels_keys.
  repeat (apply elem_of_cons in Hin as [Hin|Hin]; [discriminate|]). by apply elem_of_nil in Hin.
Qed.

Lemma IsGitops_updated prefix current o p hard rev used v :
  IsGitops (written (updatedResourceQuota prefix current o p hard rev) used v) = IsGitops current.
Proof.
  unfold IsGitops. cbn [written updatedResourceQuota rq_Labels].
  by rewrite lookup_relabel, GetLabels_gitops.
Qed.

Lemma staleRevision_false current revision stored :
  staleRevision current revision = false → 0 < revision →
  rq_Annotations current !! SpxAnnotationQuotaRevision = Some (FormatInt stored) → int64 stored →
  stored ≤ revision.
Proof.
  unfold staleRevision. intros Hs Hr Ha Hi. rewrite decide_True, Ha, ParseInt_FormatInt in Hs by done.
  apply bool_decide_eq_false in Hs. lia.
Qed.

Lemma lookup_withRevision annotations revision :
  0 < revision →
  withRevision annotations revision !! SpxAnnotationQuotaRevision = Some (FormatInt revision).
Proof. intros. unfold withRevision. rewrite decide_True by done. apply lookup_insert_eq. Qed.
End lemmas.

(** ** Theorems *)
Section theorems.
Context {QL : QuantityLib} {QLaws : QuantityLaws QL} {UL : UUIDLib}.
Context {K : Type} {KC : KubeClient K} {KS : KubeStore K} {KL : KubeLaws K}.
Context (SpxPrefix : string).
Implicit Types (k : K) (hard : ResourceList) (orgId projectId : string).

(** C8: a PUT on the quota of a project refines the specification: a malformed request changes
    nothing. A quota with limits is applied in one atomic step, whatever other clients write meanwhile
    and however many conflicts are retried: it creates the object, replaces the limits of the version
    that it has compared without lowering any below its usage, or leaves a GitOps or newer object as it is.
    An empty quota is removed in two steps, which other clients may separate: an object is read that is
    neither of GitOps nor newer, then the object that has its name is deleted, or is already gone; it is
    not read again. 204 answers a step that succeeded, 409 a limit below its usage, 500 anything else. *)
Theorem setQuota_refines orgId projectId body k status k' :
  setQuota SpxPrefix orgId projectId body k = (status, k') →
  ((parseQuotaParams orgId projectId = None ∨ is_Ok body = false ∨
     ∃ b e, body = Ok b ∧ Validate (K:=K) (body_Hard b) = Err e) ∧ k' = k) ∨
  ∃ b hard r, body = Ok b ∧ Validate (K:=K) (body_Hard b) = Ok hard ∧
    (if decide (size hard = 0%nat) then removed SpxPrefix projectId (body_Revision b) k k' r
     else applied SpxPrefix orgId projectId hard (body_Revision b) k k' r) ∧
    status = match r with
             | Ok _ => StatusNoContent
             | Err (ErrBelowUsage _ _ _) => StatusConflict
             | Err (KubeError _) => StatusInternalServerError
             end.
Proof.
  unfold setQuota. unfold parseQuotaParams.
  destruct (uuid_Parse orgId) as [org|]; [|intros [= <- <-]; auto].
  destruct (uuid_Parse projectId) as [project|]; [|intros [= <- <-]; auto].
  destruct body as [b|e]; [|intros [= <- <-]; auto].
  destruct (Validate (body_Hard b)) as [hard|e] eqn:Hv; [|intros [= <- <-]; left; eauto 8].
  intros Hrun. right. exists b, hard.
  destruct (decide (size hard = 0%nat)) as [Hs|Hs].
  - destruct (Delete _ _ _ k) as [r k1] eqn:Hd.
    apply Delete_refines in Hd. exists r. destruct r as [u|[reason|? ? ?]]; simplify_eq; eauto.
  - destruct (Apply _ _ _ _ _ k) as [r k1] eqn:Ha.
    apply Apply_refines in Ha. exists r. destruct r as [u|[reason|? ? ?]]; simplify_eq; eauto.
Qed.

(** Pushes are ordered by revision. When a push with a revision changes the object of the
    project, at the moment of the change the object carried no newer revision; it then carries
    the revision and the limits of the push, and keeps the labels that are not those of the
    framework. *)
Theorem Apply_respects_revisions orgId projectId hard revision k r k' :
  0 < revision → Apply SpxPrefix orgId projectId hard revision k = (r, k') →
  let key := (GetNamespace SpxPrefix projectId, GetName projectId) in
  evolves k k' ∨ ∃ k1 after, evolves k k1 ∧ stored k' = <[key:=after]> (stored k1) ∧
    rq_Hard after = hard ∧
    rq_Annotations after !! SpxAnnotationQuotaRevision = Some (FormatInt revision) ∧
    ∀ current, stored k1 !! key = Some current →
      (∀ newer, rq_Annotations current !! SpxAnnotationQuotaRevision = Some (FormatInt newer) →
        int64 newer → newer ≤ revision) ∧
      ∀ label value, rq_Labels current !! label = Some value →
        label ∉ [SpxLabelOrganizationID; SpxLabelProjectID; SpxLabelResourceLocalID; SpxLabelResourceEffectiveID] →
        rq_Labels after !! label = Some value.
Proof.
  intros Hrev Hrun key. apply Apply_refines in Hrun.
  destruct Hrun as [k1 v r He Hnone Hk' _|k1 current v r He Hcur (Hg & Hs & Hlow) Hk' _|
    current He|current n u l He|reason He]; [right|right|by left..].
  - eexists k1, _. split; [done|]. split; [exact Hk'|]. split; [done|].
    split; [by apply lookup_withRevision|]. intros current Hcur. unfold key in Hcur. congruence.
  - eexists k1, _. split; [done|]. split; [exact Hk'|]. split; [done|].
    split; [by apply lookup_withRevision|]. intros current' Hcur'.
    assert (current' = current) as -> by (unfold key in Hcur'; congruence). split.
    + intros newer Ha Hi. by eapply staleRevision_false.
    + intros label value Hlabel Hother. cbn [written updatedResourceQuota rq_Labels].
      rewrite lookup_relabel. destruct (GetLabels _ _ !! label) eqn:Hl; [|done].
      destruct Hother. eapply GetLabels_keys. eauto.
Qed.

(** A push without revision, by which the API lowers a limit before it frees the capacity,
    does not protect the lowered limit: a push of higher limits that was computed before, and was
    not stale then, is still allowed. *)
Theorem lowered_limit_unprotected current orgId projectId low high revision used v :
  allowed current low 0 → staleRevision current revision = false →
  (∀ n l h, low !! n = Some l → high !! n = Some h → nano l ≤ nano h) →
  allowed (written (updatedResourceQuota SpxPrefix current orgId projectId low 0) used v) high revision.
Proof.
  intros (Hg & _ & _) Hs Hle. split; [by rewrite IsGitops_updated|]. split; [exact Hs|].
  intros n (limit & old & u & Hlimit & Hold & _ & Hlt & _). specialize (Hle n old limit Hold Hlimit).
  lia.
Qed.

(** A body is accepted exactly when it has at most 128 entries, each with a qualified name
    and a quantity that is not negative; the limits are then those quantities, name by name. *)
Theorem Validate_decides (hard : gmap string string) :
  let valid n s := IsQualifiedName (K:=K) n = [] ∧ ∃ q, ParseQuantity s = Some q ∧ 0 ≤ nano q in
  match Validate (K:=K) hard with
  | Ok list => (size hard ≤ MaxResources)%nat ∧ ∀ n,
      match hard !! n with
      | Some s => IsQualifiedName (K:=K) n = [] ∧
          ∃ q, ParseQuantity s = Some q ∧ 0 ≤ nano q ∧ list !! n = Some q
      | None => list !! n = None
      end
  | Err _ => (MaxResources < size hard)%nat ∨ ∃ n s, hard !! n = Some s ∧ ¬ valid n s
  end.
Proof.
  intros valid. unfold Validate. case_decide as Hsize; [by left|].
  assert (∀ n s, match validateEntry (K:=K) n s with
    | Ok q => IsQualifiedName (K:=K) n = [] ∧ ParseQuantity s = Some q ∧ 0 ≤ nano q
    | Err _ => ¬ valid n s end) as Hentry.
  { intros n s. unfold validateEntry, valid. destruct (IsQualifiedName n); [|naive_solver].
    destruct (ParseQuantity s) as [q|]; [|naive_solver].
    rewrite Sign_spec. case_decide; [naive_solver lia|]. split_and!; [done..|lia]. }
  pose proof (foldM_insert_spec (validateEntry (K:=K)) (map_to_list hard) ∅
    (NoDup_fst_map_to_list hard)) as Hfold.
  destruct (foldM _ ∅ (map_to_list hard)) as [list|e].
  - destruct Hfold as [Hin Hout]. split; [lia|]. intros n. destruct (hard !! n) as [s|] eqn:Hn.
    + apply elem_of_map_to_list in Hn. destruct (Hin n s Hn) as (q & Hq & Hlist).
      specialize (Hentry n s). rewrite Hq in Hentry. naive_solver.
    + rewrite Hout; [done|]. intros ([n' s] & -> & Hl%elem_of_map_to_list)%list_elem_of_fmap.
      simpl in Hn. congruence.
  - right. destruct Hfold as (n & s & Hl%elem_of_map_to_list & He). exists n, s. split; [done|].
    specialize (Hentry n s). by rewrite He in Hentry.
Qed.

(** A GET answers the limits and the usage of the object of the project at one moment of the
    call, both empty when there is none. *)
Theorem getQuota_reads orgId projectId k status body k' :
  getQuota SpxPrefix orgId projectId k = ((status, body), k') →
  let key := (GetNamespace SpxPrefix projectId, GetName projectId) in
  evolves k k' ∧
  match body with
  | Some b => status = StatusOK ∧
      b = match stored k' !! key with
          | Some rq => mkQuotaStatus (toStrings (rq_Hard rq)) (toStrings (rq_Used rq))
          | None => mkQuotaStatus ∅ ∅
          end
  | None => status = StatusBadRequest ∨ status = StatusInternalServerError
  end.
Proof.
  unfold getQuota, parseQuotaParams.
  destruct (uuid_Parse orgId); [|intros [= <- <- <-]; split; [done|by left]].
  destruct (uuid_Parse projectId); [|intros [= <- <- <-]; split; [done|by left]].
  unfold Get. destruct (GetResourceQuota _ _ k) as [[current|e] k1] eqn:Hget;
    apply Get_spec in Hget as [He Hs].
  - intros [= <- <- <-]. split; [done|]. destruct Hs as [-> _]. done.
  - destruct e; intros [= <- <- <-]; (split; [done|]); [by rewrite Hs | auto..].
Qed.
End theorems.

(** ** Witnesses *)

Import NanoQuantity ClusterSamples.

(** A workload is admitted between the read and the update of a push: the push is retried on the
    new usage, and refused when it would now lower the limit below it. *)
Lemma setQuota_refines_witness :
  ∃ k' n used limit, setQuota "spx" organization project
      (Ok (mkQuotaBody {["requests.cpu" := "2"]} 6))
      (cluster [[]; []; [mkResourceQuota (GetNamespace "spx" project) (GetName project) 0 ∅ ∅
        {["requests.cpu" := 4 * 10 ^ 9]} {["requests.cpu" := 3 * 10 ^ 9]}]]) = (StatusConflict, k') ∧
    applied "spx" organization project {["requests.cpu" := 2 * 10 ^ 9]} 6
      (cluster [[]; []; [mkResourceQuota (GetNamespace "spx" project) (GetName project) 0 ∅ ∅
        {["requests.cpu" := 4 * 10 ^ 9]} {["requests.cpu" := 3 * 10 ^ 9]}]]) k'
      (Err (ErrBelowUsage n used limit)).
Proof.
  set (k := cluster _).
  set (b := mkQuotaBody {["requests.cpu" := "2"]} 6).
  assert ((setQuota "spx" organization project (Ok b) k).1 = StatusConflict) as Hstatus
    by (vm_compute; reflexivity).
  assert (Validate (K:=Cluster.t) (body_Hard b) = Ok {["requests.cpu" := 2 * 10 ^ 9]}) as Hvalid
    by (vm_compute; reflexivity).
  assert (parseQuotaParams organization project = Some (organization, project)) as Hids
    by (vm_compute; reflexivity).
  destruct (setQuota "spx" organization project (Ok b) k) as [status k'] eqn:Hrun.
  simpl in Hstatus. subst status.
  destruct (setQuota_refines "spx" organization project (Ok b) k StatusConflict k' Hrun)
    as [[[H|[H|(b' & e & [= <-] & H)]] _]|(b' & hard & r & [= <-] & Hv & Happ & Hst)].
  - rewrite Hids in H. discriminate H.
  - discriminate H.
  - rewrite Hvalid in H. discriminate H.
  - rewrite Hvalid in Hv. injection Hv as <-.
    destruct r as [u|[reason|n used limit]]; [discriminate Hst | discriminate Hst|].
    exists k', n, used, limit. split; [reflexivity | exact Happ].
Defined.

Lemma Apply_respects_revisions_witness :
  ∃ r k', Apply "spx" organization project limits 4 (cluster []) = (r, k') ∧
    (evolves (cluster []) k' ∨ ∃ k1 after, evolves (cluster []) k1 ∧
      stored k' = <[key:=after]> (stored k1) ∧ rq_Hard after = limits ∧
      ∀ current, stored k1 !! key = Some current → ∀ newer,
        rq_Annotations current !! SpxAnnotationQuotaRevision = Some (FormatInt newer) →
        int64 newer → newer ≤ 4).
Proof.
  destruct (Apply "spx" organization project limits 4 (cluster [])) as [r k'] eqn:Hrun.
  exists r, k'. split; [reflexivity|].
  destruct (Apply_respects_revisions "spx" organization project limits 4 (cluster []) r k'
    ltac:(lia) Hrun) as [H|(k1 & after & He & Hk' & Hh & _ & Hcur)]; [left; exact H|right].
  exists k1, after. split; [exact He|]. split; [exact Hk'|]. split; [exact Hh|].
  intros current Hc. exact (proj1 (Hcur current Hc)).
Defined.

Lemma singleton_entry (k n : string) (x y : Z) :
  ({[k := x]} : gmap string Z) !! n = Some y → k = n ∧ x = y.
Proof. apply lookup_singleton_Some. Qed.

(** The limit is lowered to 2 CPUs without revision; a push of 4 CPUs at the revision the object
    still carries is allowed. *)
Lemma lowered_limit_unprotected_witness :
  allowed (object 4 5 1) limits 0 ∧
  allowed (written (updatedResourceQuota "spx" (object 4 5 1) organization project limits 0)
    {["requests.cpu" := 10 ^ 9]} 2) {["requests.cpu" := 4 * 10 ^ 9]} 5.
Proof.
  assert (allowed (object 4 5 1) limits 0) as Hlow.
  { split; [vm_compute; reflexivity|]. split; [vm_compute; reflexivity|].
    intros n (limit & old & used & Hl & _ & Hu & _ & Hlt).
    unfold limits in Hl. cbn [object rq_Used] in Hu.
    apply (singleton_entry "requests.cpu" n _ limit) in Hl as [<- <-].
    apply (singleton_entry "requests.cpu" _ _ used) in Hu as [_ <-]. vm_compute in Hlt. discriminate Hlt. }
  split; [exact Hlow|].
  assert (staleRevision (object 4 5 1) 5 = false) as Hs by (vm_compute; reflexivity).
  apply (lowered_limit_unprotected "spx" (object 4 5 1) organization project limits
    {["requests.cpu" := 4 * 10 ^ 9]} 5 {["requests.cpu" := 10 ^ 9]} 2 Hlow Hs).
  intros n l h Hl Hh. apply (singleton_entry "requests.cpu" n _ l) in Hl as [_ <-].
  apply (singleton_entry "requests.cpu" n _ h) in Hh as [_ <-]. simpl. lia.
Defined.

Lemma getQuota_reads_witness :
  ∃ body k', getQuota "spx" organization project (cluster []) = ((StatusOK, Some body), k') ∧
    body = match stored k' !! (GetNamespace "spx" project, GetName project) with
           | Some rq => mkQuotaStatus (toStrings (rq_Hard rq)) (toStrings (rq_Used rq))
           | None => mkQuotaStatus ∅ ∅
           end.
Proof.
  set (body := mkQuotaStatus {["requests.cpu" := "4"]} {["requests.cpu" := "1"]}).
  assert ((getQuota "spx" organization project (cluster [])).1 = (StatusOK, Some body)) as Hanswer
    by (vm_compute; reflexivity).
  destruct (getQuota "spx" organization project (cluster [])) as [answer k'] eqn:Hrun.
  simpl in Hanswer. subst answer.
  pose proof (getQuota_reads "spx" organization project (cluster []) StatusOK (Some body) k' Hrun)
    as (_ & _ & Hbody).
  exists body, k'. split; [reflexivity | exact Hbody].
Defined.

(** The check of the revision and the deletion are not one step: the object is at revision 5 when
    a deletion at revision 6 reads it, another client replaces it at revision 7, for which the
    deletion is stale, and the object is deleted. *)
Example Delete_not_atomic :
  let k := cluster [[]; [object 4 7 1]] in
  (Delete "spx" project 6 k).1 = Ok tt ∧ hard_of (Delete "spx" project 6 k).2 = None ∧
  staleRevision (object 4 7 1) 6 = true.
Proof. split_and!; vm_compute; reflexivity. Qed.
