(* ===== verification/QuotaService.v ===== *)
(** * Pushing the quotas to the availability zones ([internal/superphenix-api/internal/quotasync])

    The quota of a project is pushed to the controller of each AZ over HTTP, after the database is
    written ([Project], [Organization], [Initialize]) and periodically ([Resync]). The HTTP client
    and the JSON codec are a class; the calls to several AZs, which the code runs concurrently
    under a limit, are run here in the order of the AZs. [hooks] are the functions that the
    package installs in [crud/quota]. *)

From S2P Require Import Prelude Strings Strconv Quantity Errors QuotaResources Database AZConfig.
From S2P Require Import Hierarchical QuotaDecisions SpxId.
(** ** What the package calls *)

Record controllerBody := mkControllerBody { cb_Hard : gmap string string; cb_Revision : Z }.
Record controllerStatus := mkControllerStatus {
  cs_Hard : gmap string string; cs_Used : gmap string string }.

Record Response := mkResponse { StatusCode : Z; Body : string }.

(** [proxy.SendRequest] over [net/http], and [encoding/json] on the two bodies. *)
Class ControllerHTTP (C : Type) := {
  SendRequest : string → string → option string → string → C → result error Response * C;
  json_Marshal : controllerBody → string;
  json_Decode : string → option controllerStatus;
}.

(** ** Definitions *)

Definition quotaEndpoint : string := "quota".
Definition DeactivationQuotaFailedToApply : string := "quotaFailedToApply".

(** [errors.Join]; [errors.Is] is only asked about the first error. *)
Definition errors_Join (e1 e2 : error) : error :=
  mkError (err_is e1) (err_text e1 +:+ String (Ascii.ascii_of_N 10) (err_text e2)).

(** The error of a call, as a value. *)
Definition attempt {C A} (m : M C A) : M C (result error A) := λ w,
  let '(r, w') := m w in (Ok r, w').

(** Calls to the controllers, which report their own failures. *)
Definition outsideCall {C A} (f : C → A * C) : M C A := λ w,
  let '(a, c) := f (outside w) in (Ok a, with_outside w c).

Definition quotaURL (azCfg : AZConfig) (orgId projectId : uuid) : string :=
  ControllerUrl azCfg +:+ "/" +:+ orgId +:+ "/" +:+ projectId +:+ "/" +:+ quotaEndpoint.

Section http.
Context {QL : QuantityLib} {C : Type} {HTTP : ControllerHTTP C}.
Context (AZs : gmap string AZConfig).
Implicit Types (orgId projectId : uuid).

(** The text of a refusal, which is only logged, is reduced to its status. *)
Definition push (azCfg : AZConfig) orgId projectId (hard : gmap string string) (revision : Z) :
    C → result error unit * C := λ c,
  let body := json_Marshal (mkControllerBody hard revision) in
  match SendRequest (quotaURL azCfg orgId projectId) "PUT" (Some body) (AuthSecret azCfg) c with
  | (Err e, c) => (Err e, c)
  | (Ok resp, c) =>
    if decide (StatusCode resp ≠ 204 ∧ StatusCode resp ≠ 200) then
      if decide (StatusCode resp = 409) then
        (Err (Errorf ErrBelowUsage (" in " +:+ Code azCfg)), c)
      else (Err (errors_New ("controller answered " +:+ FormatInt (StatusCode resp))), c)
    else (Ok tt, c)
  end.

Definition pushAZ orgId projectId (codeAZ : string) (hard : gmap string string) :
    C → result error unit * C := λ c,
  match GetByCode AZs codeAZ orgId with
  | Err e => (Err e, c)
  | Ok azCfg => push azCfg orgId projectId hard 0 c
  end.

Definition fetch (azCfg : AZConfig) orgId projectId : C → result error controllerStatus * C := λ c,
  match SendRequest (quotaURL azCfg orgId projectId) "GET" None (AuthSecret azCfg) c with
  | (Err e, c) => (Err e, c)
  | (Ok resp, c) =>
    if decide (StatusCode resp ≠ 200) then
      (Err (errors_New ("controller answered " +:+ FormatInt (StatusCode resp))), c)
    else match json_Decode (Body resp) with
         | None => (Err (errors_New "invalid controller status"), c)
         | Some status => (Ok status, c)
         end
  end.

Definition readAZUsage orgId projectId (codeAZ : string) : C → result error AZUsage * C := λ c,
  match GetByCode AZs codeAZ orgId with
  | Err e => (Err e, c)
  | Ok azCfg =>
    match fetch azCfg orgId projectId c with
    | (Err e, c) => (Err e, c)
    | (Ok status, c) =>
      (Ok (mkAZUsage (FromKubernetesUsage (cs_Hard status)) (FromKubernetesUsage (cs_Used status))), c)
    end
  end.

(** The hooks the package installs. *)
Definition quotasyncHooks : AZHooks C := {|
  ReadUsage := Some readAZUsage;
  PushAZ := Some pushAZ;
|}.

Definition targets orgId (azCodes : list string) : list AZConfig :=
  let azs := FindAll AZs orgId in
  let azs := if decide (azCodes ≠ []) then filter (λ a, Code a ∈ azCodes) azs else azs in
  sort_by_code azs.

Record azResult := mkAzResult { r_code : string; r_failed : bool; r_unenforced : bool }.

(** The pushes to the targets, one result per target. *)
Fixpoint pushTargets orgId projectId (h : Hierarchy) (targetAZs : list AZConfig) (c : C) :
    list azResult * C :=
  match targetAZs with
  | [] => ([], c)
  | azCfg :: targetAZs =>
    let hard := ToKubernetesQuota (hierarchyAZ h (Code azCfg)) in
    let rev := hierarchyRevision h (Code azCfg) in
    let '(r, c) := push azCfg orgId projectId hard rev c in
    let res := match r with
               | Ok _ => mkAzResult EmptyString false false
               | Err _ => mkAzResult (Code azCfg) true (bool_decide (hard ≠ ∅))
               end in
    let '(results, c) := pushTargets orgId projectId h targetAZs c in
    (res :: results, c)
  end.

(** The codes of the failed pushes, and of those that had something to enforce. *)
Definition apply orgId projectId (azCodes : list string) : M C (list string * list string) :=
  h ← GetHierarchy orgId projectId;
  let targetAZs := targets orgId azCodes in
  if decide (targetAZs = []) then mret ([], []) else
  results ← outsideCall (pushTargets orgId projectId h targetAZs);
  mret (r_code <$> filter (λ r, r_failed r = true) results,
        r_code <$> filter (λ r, r_failed r = true ∧ r_unenforced r = true) results).

Definition Project orgId projectId (azCodes : list string) : M C unit :=
  '(failed, _) ← apply orgId projectId azCodes;
  if decide (failed ≠ []) then fail (Errorf ErrNotApplied (": " +:+ join ", " failed))
  else if decide (azCodes = []) then Reactivate projectId DeactivationQuotaFailedToApply
  else mret tt.

Definition Initialize orgId projectId : M C unit :=
  applied ← attempt (apply orgId projectId []);
  let '(failed, unenforced) := match applied with Ok x => x | Err _ => ([], []) end in
  let err : option error := match applied with
    | Err e => Some e
    | Ok _ => if decide (failed ≠ []) then Some (Errorf ErrNotApplied (": " +:+ join ", " failed))
              else None
    end in
  match err with
  | None => mret tt
  | Some err =>
    if decide (failed = [] ∨ unenforced ≠ []) then
      let msg := "quota not applied" +:+
        (if decide (unenforced ≠ []) then " on: " +:+ join ", " unenforced else EmptyString) in
      deactivated ← attempt (Deactivate projectId DeactivationQuotaFailedToApply msg);
      match deactivated with
      | Err errDeactivate => fail (errors_Join err errDeactivate)
      | Ok _ => fail err
      end
    else fail err
  end.

(** The number of projects whose push failed. *)
Fixpoint pushProjects orgId (ids : list uuid) : M C Z :=
  match ids with
  | [] => mret 0
  | projectId :: ids =>
    r ← attempt (Project orgId projectId []);
    failed ← pushProjects orgId ids;
    mret (match r with Ok _ => failed | Err _ => failed + 1 end)
  end.

Definition Organization orgId : M C unit :=
  ids ← ListProjectIds orgId;
  errs ← pushProjects orgId ids;
  if decide (0 < errs) then fail (Errorf ErrNotApplied (" (" +:+ FormatInt errs +:+ " project(s))"))
  else mret tt.

(** ** The overview with the usage *)

(** The usage of each AZ still available to the organization. *)
Fixpoint fillUsage orgId projectId (azs : list AZConfig) (overviews : list AZQuotaOverview) (c : C) :
    list AZQuotaOverview * C :=
  match overviews with
  | [] => ([], c)
  | azq :: overviews =>
    let '(azq, c) :=
      match list_find (λ a, Code a = ao_CodeAZ azq) azs with
      | None => (azq, c)
      | Some (_, azCfg) =>
        match fetch azCfg orgId projectId c with
        | (Err _, c) => (azq, c)
        | (Ok status, c) =>
          (mkAZQuotaOverview (ao_CodeAZ azq) (ao_Limit azq) true
             (toResources (FromKubernetesUsage (cs_Used status))), c)
        end
      end in
    let '(overviews, c) := fillUsage orgId projectId azs overviews c in
    (azq :: overviews, c)
  end.

(** [quotasync.GetProjectQuotaOverview] *)
Definition GetProjectQuotaOverviewWithUsage orgId projectId : M C ProjectQuotaOverview :=
  overview ← GetProjectQuotaOverview AZs orgId projectId;
  azQuotas ← outsideCall (fillUsage orgId projectId (targets orgId []) (po_AZQuotas overview));
  mret (mkProjectQuotaOverview (po_ProjectId overview) (po_OrganizationId overview)
    (po_Unlimited overview) (po_Limit overview) (po_Allocated overview) (po_Remaining overview)
    azQuotas).
End http.

(** ** The periodic re-sync ([resync.go]) *)

Record ResyncReport := mkResyncReport { Projects : Z; Failed : Z }.

Section resync.
Context {S : Type}.
(** The fields of a [Resyncer], and the time left, as what [ctx.Err] answers. *)
Context (Lock : S → result error bool * S) (release : S → S).
Context (List : S → result error (list (uuid * uuid)) * S).
Context (Push : uuid → uuid → S → result error unit * S).
Context (ctx_Err : S → option error).

(** The loop over the projects, as (organization, project). *)
Fixpoint resyncProjects (report : ResyncReport) (projects : list (uuid * uuid)) (s : S) :
    (ResyncReport * option error) * S :=
  match projects with
  | [] => ((report, None), s)
  | (orgaId, id) :: projects =>
    match ctx_Err s with
    | Some err => ((report, Some err), s)
    | None =>
      let '(r, s) := Push orgaId id s in
      let failed := match r with Ok _ => Failed report | Err _ => Failed report + 1 end in
      resyncProjects (mkResyncReport (Projects report + 1) failed) projects s
    end
  end.

Definition Resync (s : S) : (ResyncReport * option error) * S :=
  let report := mkResyncReport 0 0 in
  match Lock s with
  | (Err err, s) => ((report, Some (mkError (err_is err) ("acquire re-sync lock: " +:+ err_text err))), s)
  | (Ok false, s) => ((report, None), s)
  | (Ok true, s) =>
    match List s with
    | (Err err, s) =>
      ((report, Some (mkError (err_is err) ("list projects: " +:+ err_text err))), release s)
    | (Ok projects, s) =>
      let '(answer, s) := resyncProjects report projects s in (answer, release s)
    end
  end.
End resync.

(** * The HTTP service of the quotas
      ([internal/superphenix-api/pkg/services/quota/quota.go], [pkg/services/admin/quota/quota.go])

    The handlers of the quota endpoints: they parse the request, write the database, push the
    result to the availability zones, and map errors to statuses. The hooks of [crud/quota] are
    those that [quotasync] installs. An answer is its status and its body. *)

Inductive answer_body :=
  | NoBody
  | Message (text : string)
  | OrganizationOverviewBody (o : OrganizationQuotaOverview)
  | ProjectOverviewBody (p : ProjectQuotaOverview)
  | OrganizationQuotaBody (q : OrganizationQuota)
  | ProjectQuotaBody (q : ProjectQuota)
  | ProjectAZQuotaBody (q : ProjectAZQuota).

Record answer := mkAnswer { status : Z; answered : answer_body }.

(** Why a body cannot be decoded: an [HTTPJSONDecodeError] has a status and a message. *)
Inductive decode_error :=
  | HTTPJSONDecodeError (status : Z) (message : string)
  | OtherDecodeError.

Section service.
Context {QL : QuantityLib} {UL : UUIDLib} {C : Type} {HTTP : ControllerHTTP C}.
Context (AZs : gmap string AZConfig).

#[local] Instance serviceHooks : AZHooks C := quotasyncHooks AZs.

(** A handler, run on the world. *)
Definition H : Type := World C → answer * World C.

Definition answers (a : answer) : H := λ w, (a, w).

(** [WriteError] *)
Definition errorStatus (err : error) : Z :=
  if decide (err_is err ∈ [ErrInvalidQuantity; ErrOrgQuotaExceeded; ErrProjectQuotaExceeded;
                           ErrBelowAllocated; ErrBelowUsage]) then 400
  else if decide (err_is err ∈ [ErrUsageUnavailable; ErrAZUnavailable]) then 503
  else if decide (err_is err ∈ [ErrOrganizationNotFound; ErrProjectNotFound; ErrAZNotFound]) then 404
  else if decide (err_is err = ErrProjectQuotaEnforced) then 409
  else if decide (err_is err = ErrNotApplied) then 502
  else 500.

Definition WriteError (err : error) (msg : string) : answer :=
  if decide (errorStatus err = 500) then mkAnswer 500 (Message msg)
  else mkAnswer (errorStatus err) (Message (err_text err)).

Definition WriteJSON (status : Z) (body : answer_body) : answer := mkAnswer status body.

Definition ParseID (param value : string) : answer + uuid :=
  match uuid_Parse value with
  | None => inl (mkAnswer 400 (Message ("invalid " +:+ param)))
  | Some id => inr (uuid_String id)
  end.

Definition parseOrgAndProject (orgaId projectId : string) : answer + (uuid * uuid) :=
  match ParseID "orgaId" orgaId with
  | inl a => inl a
  | inr orgID =>
    match ParseID "projectId" projectId with
    | inl a => inl a
    | inr projID => inr (orgID, projID)
    end
  end.

(** A JSON [null] is the empty quota. *)
Definition DecodeResources (decoded : result decode_error (option Resources)) : answer + Resources :=
  match decoded with
  | Err (HTTPJSONDecodeError status message) =>
    if decide (status ≠ 500) then inl (mkAnswer status (Message message))
    else inl (mkAnswer 400 (Message "invalid request body"))
  | Err OtherDecodeError => inl (mkAnswer 400 (Message "invalid request body"))
  | Ok None => inr ∅
  | Ok (Some req) => inr req
  end.

(** Runs [m], answering its error with [msg]. *)
Definition orWriteError {A} (m : M C A) (msg : string) (k : A → H) : H := λ w,
  match m w with
  | (Err err, w) => (WriteError err msg, w)
  | (Ok a, w) => k a w
  end.

Definition handleGetOrganizationQuota (orgaId : string) : H :=
  match ParseID "orgaId" orgaId with
  | inl a => answers a
  | inr orgID =>
    orWriteError (GetOrganizationQuotaOverview orgID) "failed to get organization quota" (λ overview,
    answers (WriteJSON 200 (OrganizationOverviewBody overview)))
  end.

Definition handleGetProjectQuota (orgaId projectId : string) : H :=
  match parseOrgAndProject orgaId projectId with
  | inl a => answers a
  | inr (orgID, projID) =>
    orWriteError (GetProjectQuotaOverviewWithUsage AZs orgID projID) "failed to get project quota"
      (λ overview, answers (WriteJSON 200 (ProjectOverviewBody overview)))
  end.

Definition handleSetProjectQuota (orgaId projectId : string)
    (body : result decode_error (option Resources)) : H :=
  match parseOrgAndProject orgaId projectId with
  | inl a => answers a
  | inr (orgID, projID) =>
    match DecodeResources body with
    | inl a => answers a
    | inr req =>
      orWriteError (SetProjectQuota AZs orgID projID req) "failed to set project quota" (λ pq,
      orWriteError (Project AZs orgID projID []) "failed to apply project quota" (λ _,
      answers (WriteJSON 200 (ProjectQuotaBody pq))))
    end
  end.

Definition handleSetProjectAZQuota (orgaId projectId codeAZ : string)
    (body : result decode_error (option Resources)) : H :=
  match parseOrgAndProject orgaId projectId with
  | inl a => answers a
  | inr (orgID, projID) =>
    match DecodeResources body with
    | inl a => answers a
    | inr req =>
      orWriteError (SetProjectAZQuota AZs orgID projID codeAZ req) "failed to set project az quota"
      (λ azq,
      orWriteError (Project AZs orgID projID [codeAZ]) "failed to apply project az quota" (λ _,
      answers (WriteJSON 200 (ProjectAZQuotaBody azq))))
    end
  end.

Definition handleDeleteProjectQuota (orgaId projectId : string) : H :=
  match parseOrgAndProject orgaId projectId with
  | inl a => answers a
  | inr (orgID, projID) =>
    orWriteError (DeleteProjectQuota orgID projID) "failed to delete project quota" (λ _,
    orWriteError (Project AZs orgID projID []) "failed to apply project quota" (λ _,
    answers (mkAnswer 204 NoBody)))
  end.

(** ** The administration of the organization quotas *)

Definition handleSetOrganizationQuota (orgaId : string)
    (body : result decode_error (option Resources)) : H :=
  match ParseID "orgaId" orgaId with
  | inl a => answers a
  | inr orgID =>
    match DecodeResources body with
    | inl a => answers a
    | inr req =>
      orWriteError (SetOrganizationQuota AZs orgID req) "failed to set organization quota" (λ oq,
      orWriteError (Organization AZs orgID) "failed to apply organization quota" (λ _,
      answers (WriteJSON 200 (OrganizationQuotaBody oq))))
    end
  end.

Definition handleDeleteOrganizationQuota (orgaId : string) : H :=
  match ParseID "orgaId" orgaId with
  | inl a => answers a
  | inr orgID =>
    orWriteError (DeleteOrganizationQuota orgID) "failed to delete organization quota" (λ _,
    orWriteError (Organization AZs orgID) "failed to apply organization quota" (λ _,
    answers (mkAnswer 204 NoBody)))
  end.
End service.
