(* ===== verification/ServiceTheorems.v ===== *)
(** * The theorems of the quota synchronisation

    What the API relies on once a quota is written: a synchronisation that succeeds has had every
    targeted availability zone accept the effective quota, a new project without its quota is
    deactivated, no failing project hides another one, and no answer reports a failed write as
    done or a done write as refused. *)

From S2P Require Import Prelude Strconv Quantity Errors QuotaResources Database AZConfig Hierarchical.
From S2P Require Import Hierarchical QuotaSpec QuotaWrites QuotaDeletes QuotaInvariant QuotaDecisions SpxId.
From S2P Require Import QuotaService.

(** ** The pushes of a project *)
Section pushes.
Context {QL : QuantityLib} {C : Type} {HTTP : ControllerHTTP C}.
Context (AZs : gmap string AZConfig).
Implicit Types (o p : uuid) (h : Hierarchy) (az : AZConfig) (w : World C) (c : C).

(** One push of the effective quota of the project to an AZ. *)
Definition pushed o p h az c (r : result error unit) c' : Prop :=
  push az o p (ToKubernetesQuota (hierarchyAZ h (Code az))) (hierarchyRevision h (Code az)) c = (r, c').

(** The AZ has answered that it enforces the effective quota, at some moment. *)
Definition accepted o p h az : Prop := ∃ c c', pushed o p h az c (Ok tt) c'.

Definition outcome o p h az (res : azResult) : Prop :=
  ∃ c r c', pushed o p h az c r c' ∧
    res = match r with
          | Ok _ => mkAzResult EmptyString false false
          | Err _ => mkAzResult (Code az) true
              (bool_decide (ToKubernetesQuota (hierarchyAZ h (Code az)) ≠ ∅))
          end.

Lemma pushTargets_outcomes o p h azs c results c' :
  pushTargets o p h azs c = (results, c') → Forall2 (outcome o p h) azs results.
Proof.
  revert c results c'. induction azs as [|az azs IH]; intros c results c'; cbn [pushTargets].
  { intros [= <- <-]. constructor. }
  destruct (push az o p _ _ c) as [r c1] eqn:Hpush.
  destruct (pushTargets o p h azs c1) as [rest c2] eqn:Hrest. intros [= <- <-].
  constructor; [|by eapply IH]. exists c, r, c1. by split; [|destruct r].
Qed.

(** What a successful [apply] has done: one push per target, and nothing to the tables. *)
Lemma apply_Ok o p codes w failed unenforced w' :
  apply AZs o p codes w = (Ok (failed, unenforced), w') →
  tables w' = tables w ∧ (faults w = [] → faults w' = []) ∧ ∃ results,
    Forall2 (outcome o p (hierarchyOf (tables w) o p)) (targets AZs o codes) results ∧
    failed = r_code <$> filter (λ r, r_failed r = true) results ∧
    unenforced = r_code <$> filter (λ r, r_failed r = true ∧ r_unenforced r = true) results.
Proof.
  unfold apply. intros Hrun. pose proof (reads_exact (m:=loadHierarchy (C:=C) o p)
    (f:=λ T, Ok (hierarchyOf T o p)) w) as Hexact.
  apply bind_Ok in Hrun as (h & w1 & Hh & Hrun).
  assert (faults w = [] → faults w1 = []) as Hfaults.
  { intros Hf. unfold GetHierarchy in Hh. rewrite Hexact in Hh by done. by injection Hh as _ <-. }
  destruct (reads_Ok (GetHierarchy o p) (λ T, Ok (hierarchyOf T o p)) w h w1 Hh)
    as [(HT & _ & _) [= <-]]. rewrite HT.
  case_decide as Hnone.
  - injection Hrun as <- <- <-. split; [done|]. split; [exact Hfaults|].
    exists []. rewrite Hnone. by split.
  - unfold outsideCall in Hrun. rewrite bind_eq in Hrun.
    destruct (pushTargets o p _ _ (outside w1)) as [results c] eqn:Hpush.
    injection Hrun as <- <- <-. split; [done|]. split; [exact Hfaults|].
    exists results. rewrite <-HT. split; [by eapply pushTargets_outcomes|done].
Qed.

Lemma apply_Err o p codes w e w' :
  apply AZs o p codes w = (Err e, w') → tables w' = tables w ∧ err_is e = ErrDatabase.
Proof.
  unfold apply. rewrite bind_eq.
  pose proof (reads_same (m:=GetHierarchy (C:=C) o p) (f:=λ T, Ok (hierarchyOf T o p)) w) as (HT & _ & _).
  pose proof (reads_value (m:=GetHierarchy (C:=C) o p) (f:=λ T, Ok (hierarchyOf T o p)) w) as Hv.
  destruct (GetHierarchy o p w) as [[h|e'] w1]; simpl in *.
  - case_decide; [done|]. unfold outsideCall. rewrite bind_eq. by destruct (pushTargets _ _ _ _ _).
  - intros [= <- <-]. destruct Hv as [?|[= ->]]; done.
Qed.

Lemma apply_answers o p codes w : faults w = [] → is_Ok (apply AZs o p codes w).1 = true.
Proof.
  intros Hf. unfold apply.
  rewrite bind_eq, (reads_exact (m:=GetHierarchy (C:=C) o p) (f:=λ T, Ok (hierarchyOf T o p))) by done.
  cbn. case_decide; [done|]. unfold outsideCall. rewrite bind_eq. by destruct (pushTargets _ _ _ _ _).
Qed.

(** No failed push, and no failed push with something to enforce. *)
Lemma no_failed o p h azs results :
  Forall2 (outcome o p h) azs results →
  r_code <$> filter (λ r, r_failed r = true) results = [] →
  ∀ az, az ∈ azs → accepted o p h az.
Proof.
  induction 1 as [|az res azs results (c & r & c' & Hp & ->) Hall IH]; [set_solver|].
  destruct r as [[]|e]; cbn; [|done]. intros Hnil az' [->|Hin]%elem_of_cons.
  - by exists c, c'.
  - by apply IH.
Qed.

Lemma no_unenforced o p h azs results :
  Forall2 (outcome o p h) azs results →
  r_code <$> filter (λ r, r_failed r = true ∧ r_unenforced r = true) results = [] →
  ∀ az, az ∈ azs → accepted o p h az ∨ ToKubernetesQuota (hierarchyAZ h (Code az)) = ∅.
Proof.
  induction 1 as [|az res azs results (c & r & c' & Hp & ->) Hall IH]; [set_solver|].
  destruct r as [[]|e]; cbn.
  - intros Hnil az' [->|Hin]%elem_of_cons; [left; by exists c, c' | by apply IH].
  - case_decide as Hd; [done|].
    intros Hnil az' [->|Hin]%elem_of_cons; [right | by apply IH].
    simpl in Hd. destruct (decide (ToKubernetesQuota (hierarchyAZ h (Code az)) = ∅)) as [?|Hne]; [done|].
    destruct Hd. split; [done|]. by apply bool_decide_eq_true.
Qed.


(** A synchronisation that succeeds, whatever the database does. *)
Lemma Project_accepts o p codes w w' :
  Project AZs o p codes w = (Ok tt, w') →
  (∀ az, az ∈ targets AZs o codes → accepted o p (hierarchyOf (tables w) o p) az) ∧
  ∃ w1, tables w1 = tables w ∧ (if decide (codes = [])
    then Reactivate p DeactivationQuotaFailedToApply else mret tt) w1 = (Ok tt, w').
Proof.
  intros Hrun. unfold Project in Hrun.
  apply bind_Ok in Hrun as ([failed unenforced] & w1 & Happ & Hrun).
  apply apply_Ok in Happ as (HT & _ & results & Hall & -> & _).
  case_decide as Hf; [done|]. split; [by eapply no_failed|]. eauto.
Qed.

(** A push that failed. *)
Definition refused o p h az : Prop := ∃ c e c', pushed o p h az c (Err e) c'.

Lemma some_failed o p h azs results :
  Forall2 (outcome o p h) azs results →
  r_code <$> filter (λ r, r_failed r = true) results ≠ [] → ∃ az, az ∈ azs ∧ refused o p h az.
Proof.
  induction 1 as [|az res azs results (c & r & c' & Hp & ->) Hall IH]; [done|].
  destruct r as [[]|e]; cbn.
  - intros (az' & Hin & ?)%IH. exists az'. split; [by right|done].
  - intros _. exists az. split; [left|]. by exists c, e, c'.
Qed.

(** A run of [Project] when the database answers. *)
Lemma Project_run o p codes w r w' :
  faults w = [] → Project AZs o p codes w = (r, w') →
  faults w' = [] ∧ (∀ o' p', hierarchyOf (tables w') o' p' = hierarchyOf (tables w) o' p') ∧
  match r with
  | Ok _ => ∀ az, az ∈ targets AZs o codes → accepted o p (hierarchyOf (tables w) o p) az
  | Err e => err_is e = ErrNotApplied ∧
      ∃ az, az ∈ targets AZs o codes ∧ refused o p (hierarchyOf (tables w) o p) az
  end.
Proof.
  intros Hf Hrun. unfold Project in Hrun. rewrite bind_eq in Hrun.
  destruct (apply AZs o p codes w) as [[[failed unenforced]|e] w1] eqn:Happ.
  2: { pose proof (apply_answers o p codes w Hf) as Hok. by rewrite Happ in Hok. }
  apply apply_Ok in Happ as (HT & Hf1 & results & Hall & -> & _). specialize (Hf1 Hf).
  destruct (decide (r_code <$> filter (λ r, r_failed r = true) results ≠ [])) as [Hne|Hnil].
  { injection Hrun as <- <-. split; [done|]. split; [by rewrite HT|]. split; [done|].
    by eapply some_failed. }
  apply dec_stable in Hnil.
  assert (∀ az, az ∈ targets AZs o codes → accepted o p (hierarchyOf (tables w) o p) az) as Hacc
    by by eapply no_failed.
  destruct (decide (codes = [])).
  - unfold Reactivate in Hrun. erewrite exec_no_faults in Hrun; [|done|done].
    injection Hrun as <- <-. split; [done|]. split; [|done].
    intros o' p'. unfold hierarchyOf, projectResources, organizationResources. by rewrite <-HT.
  - injection Hrun as <- <-. split; [done|]. split; [by rewrite HT|done].
Qed.

Lemma pushProjects_run o ids w r w' :
  faults w = [] → pushProjects AZs o ids w = (r, w') →
  ∃ failed, r = Ok failed ∧ 0 ≤ failed ∧
    (failed = 0 → ∀ p, p ∈ ids → ∀ az, az ∈ targets AZs o [] →
      accepted o p (hierarchyOf (tables w) o p) az) ∧
    (0 < failed → ∃ p az, p ∈ ids ∧ az ∈ targets AZs o [] ∧ refused o p (hierarchyOf (tables w) o p) az).
Proof.
  revert w r w'. induction ids as [|p ids IH]; intros w r w' Hf Hrun; cbn [pushProjects] in Hrun.
  { injection Hrun as <- <-. exists 0. split; [done|]. split; [lia|]. split; [set_solver|lia]. }
  unfold attempt in Hrun. rewrite bind_eq in Hrun.
  destruct (Project AZs o p [] w) as [r1 w1] eqn:Hp.
  apply Project_run in Hp as (Hf1 & Hh & Hr1); [|done]. rewrite bind_eq in Hrun.
  destruct (pushProjects AZs o ids w1) as [r2 w2] eqn:Hrest.
  apply IH in Hrest as (failed & -> & H0 & Hnone & Hsome); [|done]. injection Hrun as <- <-.
  eexists. split; [done|]. destruct r1 as [[]|e]; (split; [lia|]; split).
  - intros Hz p' [->|Hin]%elem_of_cons az Haz; [by apply Hr1|].
    rewrite <-Hh. by apply (Hnone Hz).
  - intros Hz. destruct (Hsome Hz) as (p' & az & Hin & Haz & Href). rewrite Hh in Href.
    exists p', az. set_solver.
  - lia.
  - intros _. destruct Hr1 as (_ & az & Haz & Href). exists p, az. set_solver.
Qed.

(** The deactivation that a failed quota causes. *)
Definition quota_deactivated (T : Tables) p : Prop :=
  is_Some (project_deactivations T !! (p, DeactivationQuotaFailedToApply)).

(** ** Theorems *)

(** A synchronisation of a project that succeeds has had every targeted AZ accept the
    effective quota of the project, computed from the tables, with its revision; when every AZ
    was targeted, the project is no longer deactivated for its quota. No quota is written. *)
Theorem Project_enforced o p codes w w' :
  Project AZs o p codes w = (Ok tt, w') →
  (∀ az, az ∈ targets AZs o codes → accepted o p (hierarchyOf (tables w) o p) az) ∧
  (codes = [] → ¬ quota_deactivated (tables w') p) ∧
  (∀ o' p', hierarchyOf (tables w') o' p' = hierarchyOf (tables w) o' p').
Proof.
  intros (Hacc & w1 & HT & Hrun)%Project_accepts. split; [done|].
  case_decide as Hc.
  - apply exec_Ok in Hrun as [[= HT' _] _]. rewrite <-HT'. split.
    + intros _ [m Hm]. cbn in Hm. by rewrite lookup_delete_eq in Hm.
    + intros o' p'. unfold hierarchyOf, projectResources, organizationResources. by rewrite HT.
  - injection Hrun as <-. split; [done|]. intros o' p'. by rewrite HT.
Qed.

(** A project is never left active without its quota. When the database answers, after the
    quota of a new project has been initialised, either every visible AZ has accepted its
    effective quota, or the project is deactivated and the error reported, or every AZ that has
    not accepted it has nothing to enforce. *)
Theorem Initialize_safe o p w result w' :
  faults w = [] → Initialize AZs o p w = (result, w') →
  match result with
  | Ok _ => ∀ az, az ∈ targets AZs o [] → accepted o p (hierarchyOf (tables w) o p) az
  | Err _ => quota_deactivated (tables w') p ∨
      ∀ az, az ∈ targets AZs o [] → accepted o p (hierarchyOf (tables w) o p) az ∨
        ToKubernetesQuota (hierarchyAZ (hierarchyOf (tables w) o p) (Code az)) = ∅
  end.
Proof.
  intros Hfaults Hrun. unfold Initialize, attempt in Hrun. rewrite bind_eq in Hrun.
  destruct (apply AZs o p [] w) as [[[failed unenforced]|e] w1] eqn:Happ; cbn iota beta in Hrun.
  - apply apply_Ok in Happ as (HT & Hf & results & Hall & -> & ->). specialize (Hf Hfaults).
    destruct (decide (r_code <$> filter (λ r, r_failed r = true) results ≠ [])) as [Hne|Hnil].
    + destruct (decide (r_code <$> filter (λ r, r_failed r = true) results = [] ∨ _)) as [Hd|Hd].
      * rewrite bind_eq in Hrun. unfold Deactivate in Hrun.
        erewrite exec_no_faults in Hrun; [|done|done]. injection Hrun as <- <-.
        left. unfold quota_deactivated. cbn. rewrite lookup_insert_eq. eauto.
      * injection Hrun as <- <-. right. eapply no_unenforced; [exact Hall|].
        apply dec_stable. tauto.
    + injection Hrun as <- <-. apply dec_stable in Hnil. by eapply no_failed.
  - pose proof (apply_answers o p [] w Hfaults) as Hok. by rewrite Happ in Hok.
Qed.

(** The synchronisation of an organization tries every live project, whatever happens to the
    others: it succeeds exactly when every AZ has accepted the quota of every project, and
    reports [ErrNotApplied] when some push was refused. *)
Theorem Organization_reports o w result w' :
  faults w = [] → Organization AZs o w = (result, w') →
  match result with
  | Ok _ => ∀ p, live_project (tables w) o p = true → ∀ az, az ∈ targets AZs o [] →
      accepted o p (hierarchyOf (tables w) o p) az
  | Err e => err_is e = ErrNotApplied ∧ ∃ p az, live_project (tables w) o p = true ∧
      az ∈ targets AZs o [] ∧ refused o p (hierarchyOf (tables w) o p) az
  end.
Proof.
  intros Hf Hrun. unfold Organization, ListProjectIds in Hrun.
  rewrite bind_eq, (reads_exact (m:=listProjectIds (C:=C) o) (f:=λ T, Ok (liveProjectIds T o)))
    in Hrun by done.
  rewrite bind_eq in Hrun. destruct (pushProjects AZs o (liveProjectIds (tables w) o) w) as [r1 w1] eqn:Hp.
  apply pushProjects_run in Hp as (failed & -> & H0 & Hnone & Hsome); [|done].
  destruct (decide (0 < failed)) as [Hpos|Hz]; injection Hrun as <- <-.
  - split; [done|]. destruct (Hsome Hpos) as (p & az & Hin & ? & ?). exists p, az.
    split; [by apply elem_of_liveProjectIds|done].
  - intros p Hlive. apply Hnone; [lia|]. by apply elem_of_liveProjectIds.
Qed.
End pushes.

(** ** The re-sync *)
Section resync.
Context {S : Type}.
Context (Lock : S → result error bool * S) (release : S → S).
Context (List : S → result error (list (uuid * uuid)) * S).
Context (Push : uuid → uuid → S → result error unit * S).
Context (ctx_Err : S → option error).

(** The state after pushing the projects of [l], in order, and how many failed. *)
Fixpoint pushed_all (l : list (uuid * uuid)) (s : S) : Z * S :=
  match l with
  | [] => (0, s)
  | (orga, id) :: l =>
    let '(r, s) := Push orga id s in
    let '(failed, s) := pushed_all l s in
    (match r with Ok _ => failed | Err _ => failed + 1 end, s)
  end.

Lemma resyncProjects_spec l report s report' err s' :
  resyncProjects Push ctx_Err report l s = ((report', err), s') →
  ∃ done_ rest failed, l = done_ ++ rest ∧ pushed_all done_ s = (failed, s') ∧
    report' = mkResyncReport (Projects report + Z.of_nat (length done_)) (Failed report + failed) ∧
    0 ≤ failed ≤ Z.of_nat (length done_) ∧
    (rest = [] ∧ err = None ∨ rest ≠ [] ∧ is_Some err ∧ ctx_Err s' = err).
Proof.
  revert report s. induction l as [|[orga id] l IH]; intros report s; cbn [resyncProjects].
  { intros [= <- <- <-]. exists [], [], 0. rewrite !Z.add_0_r. destruct report. split_and!; auto; simpl; lia. }
  destruct (ctx_Err s) as [e|] eqn:Hctx.
  { intros [= <- <- <-]. exists [], ((orga, id) :: l), 0. rewrite !Z.add_0_r.
    destruct report. split_and!; auto; simpl; lia. }
  destruct (Push orga id s) as [r s1] eqn:Hpush.
  intros (done_ & rest & failed & -> & Hall & -> & Hb & Hend)%IH.
  exists ((orga, id) :: done_), rest, (match r with Ok _ => failed | Err _ => failed + 1 end).
  split; [done|]. cbn [pushed_all]. rewrite Hpush, Hall. split; [done|].
  cbn [Projects Failed length]. split; [f_equal; [lia|destruct r; lia]|].
  split; [destruct r; lia|done].
Qed.

(** A re-sync pushes the projects it lists in order, each once, and no failure stops it: it
    only ends early when its time is over, before a project. Its report counts what it has done,
    it holds the lock while it does, and does nothing without the lock. *)
Theorem Resync_complete s report err s' :
  Resync Lock release List Push ctx_Err s = ((report, err), s') →
  match Lock s with
  | (Ok true, s1) =>
    match List s1 with
    | (Ok l, s2) => ∃ done_ rest s3, l = done_ ++ rest ∧
        pushed_all done_ s2 = (Failed report, s3) ∧ s' = release s3 ∧
        Projects report = Z.of_nat (length done_) ∧ 0 ≤ Failed report ≤ Projects report ∧
        (err = None ↔ rest = []) ∧ (err ≠ None → ctx_Err s3 = err)
    | (Err _, s2) => s' = release s2 ∧ report = mkResyncReport 0 0 ∧ err ≠ None
    end
  | (Ok false, s1) => s' = s1 ∧ report = mkResyncReport 0 0 ∧ err = None
  | (Err _, s1) => s' = s1 ∧ report = mkResyncReport 0 0 ∧ err ≠ None
  end.
Proof.
  unfold Resync. destruct (Lock s) as [[[]|e] s1]; [|by intros [= <- <- <-]..].
  destruct (List s1) as [[l|e] s2]; [|by intros [= <- <- <-]].
  destruct (resyncProjects _ _ _ l s2) as [[report1 err1] s3] eqn:Hrun. intros [= <- <- <-].
  apply resyncProjects_spec in Hrun as (done_ & rest & failed & -> & Hall & -> & Hb & Hend).
  exists done_, rest, s3. cbn [Projects Failed]. rewrite !Z.add_0_l. split_and!; try done; try lia.
  - destruct Hend as [[-> ->]|(? & [e ->] & _)]; split; done.
  - by destruct Hend as [[-> ->]|(? & ? & ?)].
Qed.
End resync.

(** * The theorems of the quota endpoints

    What an API client may conclude from an answer: a refusal has changed no table, a success is
    enforced in every availability zone, and an internal error shows nothing of its cause. *)

Section service.
Context {QL : QuantityLib} {QLaws : QuantityLaws QL} {UL : UUIDLib}.
Context {C : Type} {HTTP : ControllerHTTP C}.
Context (AZs : gmap string AZConfig).
Implicit Types (o p : uuid) (w : World C).

#[local] Existing Instance serviceHooks.

(** The requests that write quotas. *)
Inductive write_request :=
  | PutProjectQuota (orgaId projectId : string) (body : result decode_error (option Resources))
  | PutProjectAZQuota (orgaId projectId codeAZ : string)
      (body : result decode_error (option Resources))
  | DeleteProjectQuotaOf (orgaId projectId : string)
  | PutOrganizationQuota (orgaId : string) (body : result decode_error (option Resources))
  | DeleteOrganizationQuotaOf (orgaId : string).

Definition serve (req : write_request) : H (C:=C) :=
  match req with
  | PutProjectQuota o p body => handleSetProjectQuota AZs o p body
  | PutProjectAZQuota o p c body => handleSetProjectAZQuota AZs o p c body
  | DeleteProjectQuotaOf o p => handleDeleteProjectQuota AZs o p
  | PutOrganizationQuota o body => handleSetOrganizationQuota AZs o body
  | DeleteOrganizationQuotaOf o => handleDeleteOrganizationQuota AZs o
  end.

Definition internal_messages : list string :=
  ["failed to set project quota"; "failed to apply project quota"; "failed to set project az quota";
   "failed to apply project az quota"; "failed to delete project quota";
   "failed to set organization quota"; "failed to apply organization quota";
   "failed to delete organization quota"].

(** What every answer satisfies, from the tables before and after. *)
Definition safe_answer (T : Tables) (a : answer) (T' : Tables) : Prop :=
  (status a ∉ [200; 204; 500; 502] → T' = T) ∧
  (status a = 500 → ∃ msg, msg ∈ internal_messages ∧ answered a = Message msg).

Lemma WriteError_internal err msg :
  status (WriteError err msg) = 500 → answered (WriteError err msg) = Message msg.
Proof. unfold WriteError. case_decide; done. Qed.

(** An answer without a write. *)
Lemma safe_unchanged T a : status a ≠ 500 → safe_answer T a T.
Proof. by split. Qed.

Lemma safe_error T err msg T' :
  msg ∈ internal_messages → (errorStatus err ∉ [500; 502] → T' = T) →
  safe_answer T (WriteError err msg) T'.
Proof.
  intros Hmsg HT. split.
  - intros Hs. apply HT. unfold WriteError in Hs. case_decide as Hd; simpl in Hs; set_solver.
  - intros Hs%WriteError_internal. eauto.
Qed.

(** The errors of a synchronisation are 500 or 502. *)
Lemma sync_status err :
  err_is err = ErrNotApplied ∨ err_is err = ErrDatabase → errorStatus err ∈ [500; 502].
Proof. unfold errorStatus. intros [-> | ->]; vm_compute; set_solver. Qed.

Lemma exec_error {A} (f : Tables → Z → A * Tables * Z) w e w' :
  exec (C:=C) f w = (Err e, w') → err_is e = ErrDatabase.
Proof.
  unfold exec, statement. rewrite bind_eq. unfold modify.
  destruct (faults w) as [|[]]; repeat case_match; intros; by simplify_eq/=.
Qed.

Lemma Project_error o p codes w e w' :
  Project AZs o p codes w = (Err e, w') → err_is e = ErrNotApplied ∨ err_is e = ErrDatabase.
Proof.
  unfold Project. rewrite bind_eq.
  destruct (apply AZs o p codes w) as [[[failed unenforced]|e'] w1] eqn:Happ.
  - case_decide; [intros [= <- _]; by left|]. case_decide; [|done]. intros ?%exec_error. by right.
  - apply apply_Err in Happ as [_ ?]. intros [= <- _]. by right.
Qed.

Lemma pushProjects_answers o ids w e w' : pushProjects AZs o ids w ≠ (Err e, w').
Proof.
  revert w. induction ids as [|p ids IH]; intros w; cbn [pushProjects]; [done|].
  unfold attempt. rewrite bind_eq. destruct (Project AZs o p [] w) as [r w1]. rewrite bind_eq.
  destruct (pushProjects AZs o ids w1) as [[n|e'] w2] eqn:Hrest; [done|].
  intros [= -> ->]. by apply IH in Hrest.
Qed.

Lemma Organization_error o w e w' :
  Organization AZs o w = (Err e, w') → err_is e = ErrNotApplied ∨ err_is e = ErrDatabase.
Proof.
  unfold Organization, ListProjectIds. rewrite bind_eq.
  pose proof (reads_value (m:=listProjectIds (C:=C) o) (f:=λ T, Ok (liveProjectIds T o)) w) as Hv.
  destruct (listProjectIds o w) as [[ids|e'] w1]; simpl in Hv.
  - rewrite bind_eq. destruct (pushProjects AZs o ids w1) as [[n|e'] w2] eqn:Hp.
    + case_decide; [intros [= <- _]; by left|done].
    + by apply pushProjects_answers in Hp.
  - intros [= <- _]. destruct Hv as [?|[= ->]]; [done|by right].
Qed.

(** A handler that writes with [m], then synchronises with [sync]. *)
Lemma safe_write {A} (m : M C A) (sync : M C unit) (k : A → answer) msg msg' w a w' :
  (∀ e w1, m w = (Err e, w1) → tables w1 = tables w) →
  (∀ w1 e w2, sync w1 = (Err e, w2) → err_is e = ErrNotApplied ∨ err_is e = ErrDatabase) →
  (∀ x, status (k x) ∈ [200; 204]) → msg ∈ internal_messages → msg' ∈ internal_messages →
  orWriteError m msg (λ x, orWriteError sync msg' (λ _, answers (k x))) w = (a, w') →
  safe_answer (tables w) a (tables w').
Proof.
  intros Hm Hsync Hk Hmsg Hmsg'. unfold orWriteError, answers.
  destruct (m w) as [[x|e] w1] eqn:Hrun.
  - destruct (sync w1) as [[u|e] w2] eqn:Hs; intros [= <- <-].
    + specialize (Hk x). split; [set_solver|]. intros Hst. rewrite Hst in Hk. set_solver by lia.
    + apply safe_error; [done|]. intros Hno. by destruct Hno; apply sync_status, (Hsync w1 e w2).
  - intros [= <- <-]. apply safe_error; [done|]. intros _. by eapply Hm.
Qed.

Lemma ParseID_refused param value a : ParseID param value = inl a → status a = 400.
Proof. unfold ParseID. destruct (uuid_Parse value); [done|]. by intros [= <-]. Qed.

Lemma parseOrgAndProject_refused o p a : parseOrgAndProject o p = inl a → status a = 400.
Proof.
  unfold parseOrgAndProject. destruct (ParseID "orgaId" o) as [a'|o'] eqn:Ho.
  - intros [= <-]. by eapply ParseID_refused.
  - destruct (ParseID "projectId" p) as [a'|p'] eqn:Hp; [|done]. intros [= <-].
    by eapply ParseID_refused.
Qed.

Lemma DecodeResources_refused body a : DecodeResources body = inl a → status a ≠ 500.
Proof.
  unfold DecodeResources. destruct body as [[r|]|[s m|]]; try done.
  - case_decide; by intros [= <-].
  - by intros [= <-].
Qed.

(** C24: an answer other than a success, an internal error or [ErrNotApplied] has changed no
    table, and an internal error only shows a fixed message, whatever fails. *)
Theorem serve_safe req w a w' :
  serve req w = (a, w') →
  (status a ∉ [200; 204; 500; 502] → tables w' = tables w) ∧
  (status a = 500 → ∃ msg, msg ∈ internal_messages ∧ answered a = Message msg).
Proof.
  change (serve req w = (a, w') → safe_answer (tables w) a (tables w')).
  destruct req as [o p body|o p c body|o p|o body|o]; cbn [serve].
  - unfold handleSetProjectQuota. destruct (parseOrgAndProject o p) as [e|[o' p']] eqn:Hid.
    { intros [= <- <-]. apply safe_unchanged. apply parseOrgAndProject_refused in Hid. lia. }
    destruct (DecodeResources body) as [e|r] eqn:Hb.
    { intros [= <- <-]. apply safe_unchanged. by eapply DecodeResources_refused. }
    apply safe_write; [apply SetProjectQuota_Err|apply Project_error|set_solver..].
  - unfold handleSetProjectAZQuota. destruct (parseOrgAndProject o p) as [e|[o' p']] eqn:Hid.
    { intros [= <- <-]. apply safe_unchanged. apply parseOrgAndProject_refused in Hid. lia. }
    destruct (DecodeResources body) as [e|r] eqn:Hb.
    { intros [= <- <-]. apply safe_unchanged. by eapply DecodeResources_refused. }
    apply safe_write; [apply SetProjectAZQuota_Err|apply Project_error|set_solver..].
  - unfold handleDeleteProjectQuota. destruct (parseOrgAndProject o p) as [e|[o' p']] eqn:Hid.
    { intros [= <- <-]. apply safe_unchanged. apply parseOrgAndProject_refused in Hid. lia. }
    apply (safe_write _ _ (λ _, mkAnswer 204 NoBody));
      [intros e w1; apply transaction_Err|apply Project_error|set_solver..].
  - unfold handleSetOrganizationQuota. destruct (ParseID "orgaId" o) as [e|o'] eqn:Hid.
    { intros [= <- <-]. apply safe_unchanged. apply ParseID_refused in Hid. lia. }
    destruct (DecodeResources body) as [e|r] eqn:Hb.
    { intros [= <- <-]. apply safe_unchanged. by eapply DecodeResources_refused. }
    apply safe_write; [apply SetOrganizationQuota_Err|apply Organization_error|set_solver..].
  - unfold handleDeleteOrganizationQuota. destruct (ParseID "orgaId" o) as [e|o'] eqn:Hid.
    { intros [= <- <-]. apply safe_unchanged. apply ParseID_refused in Hid. lia. }
    apply (safe_write _ _ (λ _, mkAnswer 204 NoBody));
      [intros e w1; apply transaction_Err|apply Organization_error|set_solver..].
Qed.

(** A PUT of a project quota answered 200 has stored exactly the quota of the request, and
    every availability zone of the organization has accepted the effective quota that follows
    from it. *)
Theorem PutProjectQuota_enforced orgaId projectId body w a w' :
  serve (PutProjectQuota orgaId projectId (Ok body)) w = (a, w') → status a = 200 →
  ∃ o p, parseOrgAndProject orgaId projectId = inr (o, p) ∧
    projectResources (tables w') p = default ∅ body ∧
    ∀ az, az ∈ targets AZs o [] → accepted o p (hierarchyOf (tables w') o p) az.
Proof.
  cbn [serve]. unfold handleSetProjectQuota.
  destruct (parseOrgAndProject orgaId projectId) as [e|[o p]] eqn:Hid.
  { intros [= <- <-]. apply parseOrgAndProject_refused in Hid. lia. }
  assert (DecodeResources (Ok body) = inr (default ∅ body)) as -> by by destruct body.
  set (r := default ∅ body).
  unfold orWriteError, answers. destruct (SetProjectQuota AZs o p r w) as [[row|e] w1] eqn:Hset.
  2: { intros [= <- <-]. unfold WriteError, errorStatus. repeat case_decide; done. }
  destruct (Project AZs o p [] w1) as [[[]|e] w2] eqn:Hp.
  2: { intros [= <- <-]. unfold WriteError, errorStatus. repeat case_decide; done. }
  intros [= <- <-] _. exists o, p. split; [done|].
  apply SetProjectQuota_Ok in Hset as (_ & _ & _ & _ & _ & Hst).
  apply Project_enforced in Hp as (Hacc & _ & Hh). rewrite Hh. split; [|exact Hacc].
  specialize (Hh o p). assert (projectResources (tables w1) p = r) as Hr.
  { rewrite projectResources_view. apply (f_equal fst) in Hst. cbn [fst] in Hst. rewrite Hst.
    rewrite view_saveTo, decide_True by done. unfold savedView. by case_match. }
  rewrite <-Hr. by injection Hh.
Qed.
End service.
