(* ===== verification/EndToEnd.v ===== *)
(** * From the API to the clusters

    The HTTP calls of [QuotaService] answered by the controllers of [ControllerQuota]: what a
    successful synchronisation of the API means for the ResourceQuota of each cluster. *)

From S2P Require Import Prelude Strconv Quantity Errors QuotaResources Database AZConfig Hierarchical.
From S2P Require Import Hierarchical QuotaSpec QuotaDecisions SpxId ControllerQuota ControllerLaws.
From S2P Require Import ControllerLaws QuotaService ServiceTheorems.

(** The deployment: [cluster_of] is the cluster of an AZ. A [routed] request reaches the controller of its
    AZ, which decodes the body that was encoded and answers once, the cluster evolving before and after;
    whatever a request does, each cluster has evolved. *)
Class Deployment {QL : QuantityLib} {UL : UUIDLib} (C K : Type) {HTTP : ControllerHTTP C}
    {KC : KubeClient K} {KS : KubeStore K} (SpxPrefix : string) := {
  cluster_of : C → string → K;
  routed : AZConfig → uuid → uuid → Prop;
  SendRequest_evolves url method body bearer c r c' code :
    SendRequest url method body bearer c = (r, c') → evolves (cluster_of c code) (cluster_of c' code);
  SendRequest_PUT az o p body c r c' :
    routed az o p →
    SendRequest (quotaURL az o p) "PUT" (Some (json_Marshal body)) (AuthSecret az) c = (r, c') →
    match r with
    | Ok resp => ∃ k k', evolves (cluster_of c (Code az)) k ∧
        setQuota SpxPrefix o p (Ok (mkQuotaBody (cb_Hard body) (cb_Revision body))) k =
          (StatusCode resp, k') ∧ evolves k' (cluster_of c' (Code az))
    | Err _ => True
    end;
}.

(** ** Where a push happened *)
Section between.
Context {QL : QuantityLib} {C : Type} {HTTP : ControllerHTTP C}.
Context (later : C → C → Prop) `{!PreOrder later}.
Context (SendRequest_later : ∀ url method body bearer c r c',
  SendRequest url method body bearer c = (r, c') → later c c').
Context (AZs : gmap string AZConfig).
Implicit Types (o p : uuid) (h : Hierarchy) (az : AZConfig) (c : C).

(** The AZ has accepted the effective quota between the two states. *)
Definition accepted_between o p h az c c' : Prop :=
  ∃ c1 c2, later c c1 ∧ pushed o p h az c1 (Ok tt) c2 ∧ later c2 c'.

Lemma push_later az o p hard revision c r c' : push az o p hard revision c = (r, c') → later c c'.
Proof.
  unfold push. destruct (SendRequest _ _ _ _ c) as [[resp|e] c1] eqn:Hs; apply SendRequest_later in Hs.
  - repeat case_decide; by intros [= <- <-].
  - by intros [= <- <-].
Qed.

Lemma pushTargets_between o p h azs c results c' :
  pushTargets o p h azs c = (results, c') →
  later c c' ∧ (r_code <$> filter (λ r, r_failed r = true) results = [] →
    ∀ az, az ∈ azs → accepted_between o p h az c c').
Proof.
  revert c results c'. induction azs as [|az azs IH]; intros c results c'; cbn [pushTargets].
  { intros [= <- <-]. split; [done|]. intros _ az []%not_elem_of_nil. }
  destruct (push az o p _ _ c) as [r c1] eqn:Hpush. pose proof (push_later _ _ _ _ _ _ _ _ Hpush) as Hl.
  destruct (pushTargets o p h azs c1) as [rest c2] eqn:Hrest. apply IH in Hrest as [Hl2 Hacc]. intros [= <- <-].
  split; [by etrans|]. destruct r as [[]|e]; cbn; [|done]. intros Hnil az' [->|Hin]%elem_of_cons.
  - by exists c, c1.
  - destruct (Hacc Hnil az' Hin) as (c3 & c4 & ? & ? & ?). exists c3, c4. split_and!; [by etrans|done..].
Qed.

(** A synchronisation that succeeds: the database is only read before the pushes, and the reason of a
    deactivation removed after. *)
Lemma Project_between o p codes (w w' : World C) az :
  Project AZs o p codes w = (Ok tt, w') → az ∈ targets AZs o codes →
  accepted_between o p (hierarchyOf (tables w) o p) az (outside w) (outside w').
Proof.
  intros Hrun Haz. unfold Project in Hrun. apply bind_Ok in Hrun as ([failed unenforced] & w1 & Happ & Hrun).
  unfold apply in Happ. apply bind_Ok in Happ as (h & w2 & Hh & Happ).
  destruct (reads_Ok (GetHierarchy o p) (λ T, Ok (hierarchyOf T o p)) w h w2 Hh) as [(_ & _ & ->) [= <-]].
  rewrite decide_False in Happ by (intros He; rewrite He in Haz; by apply not_elem_of_nil in Haz).
  unfold outsideCall in Happ. rewrite bind_eq in Happ.
  destruct (pushTargets o p _ _ (outside w2)) as [results c] eqn:Hpush. injection Happ as <- <- <-.
  apply pushTargets_between in Hpush as [_ Hacc]. case_decide as Hf; [done|].
  specialize (Hacc Hf az Haz). case_decide.
  - apply exec_Ok in Hrun as [_ ->]. exact Hacc.
  - by injection Hrun as <-.
Qed.
End between.

Section end_to_end.
Context {QL : QuantityLib} {QLaws : QuantityLaws QL} {UL : UUIDLib} {C K : Type}.
Context {HTTP : ControllerHTTP C} {KC : KubeClient K} {KS : KubeStore K} {KL : KubeLaws K}.
Context {SpxPrefix : string} {D : Deployment C K SpxPrefix}.
Implicit Types (o p : uuid) (h : Hierarchy) (az : AZConfig).

(** From [k0] to [k3], the cluster has gone through the step that enforces [resources] for the project. *)
Definition enforced o p (resources : Resources) (revision : Z) (k0 k3 : K) : Prop :=
  ∃ (hard : ResourceList) (k k' : K), evolves k0 k ∧
    Validate (K:=K) (ToKubernetesQuota resources) = Ok hard ∧
    (if decide (size hard = 0%nat) then removed SpxPrefix p revision k k' (Ok tt)
     else applied SpxPrefix o p hard revision k k' (Ok tt)) ∧ evolves k' k3.

(** Every cluster has evolved. *)
Definition clusters_evolve (c c' : C) : Prop := ∀ code, evolves (cluster_of c code) (cluster_of c' code).

#[export] Instance clusters_evolve_preorder : PreOrder clusters_evolve.
Proof. split; [by intros c code|]. intros c1 c2 c3 H1 H2 code. etrans; [apply H1|apply H2]. Qed.

Lemma pushed_enforced o p h az c c' :
  routed az o p → pushed o p h az c (Ok tt) c' →
  enforced o p (hierarchyAZ h (Code az)) (hierarchyRevision h (Code az)) (cluster_of c (Code az)) (cluster_of c' (Code az)).
Proof.
  intros Hr Hp. unfold pushed, push in Hp.
  destruct (SendRequest _ _ _ _ c) as [[resp|e] c1] eqn:Hsend; [|done].
  apply SendRequest_PUT in Hsend as (k & k' & Hk & Hset & Hk'); [|done]. cbn in Hset.
  assert ((StatusCode resp = 204 ∨ StatusCode resp = 200) ∧ c1 = c') as [Hst ->].
  { destruct (decide (StatusCode resp = 204)) as [He|]; [rewrite decide_False in Hp by tauto; injection Hp as <-; auto|].
    destruct (decide (StatusCode resp = 200)) as [He|]; [rewrite decide_False in Hp by tauto; injection Hp as <-; auto|].
    rewrite decide_True in Hp by done. by case_decide. }
  clear Hp. unfold setQuota, parseQuotaParams in Hset.
  destruct (uuid_Parse o); [|injection Hset as Hs <-; unfold StatusBadRequest in *; lia].
  destruct (uuid_Parse p); [|injection Hset as Hs <-; unfold StatusBadRequest in *; lia].
  cbn [body_Hard body_Revision] in Hset.
  destruct (Validate (ToKubernetesQuota (hierarchyAZ h (Code az)))) as [hard|e] eqn:Hv;
    [|injection Hset as Hs <-; unfold StatusBadRequest in *; lia].
  exists hard, k. destruct (decide (size hard = 0%nat)) as [Hsize|Hsize].
  - destruct (Delete _ _ _ k) as [[[]|e] k1] eqn:Hd.
    + injection Hset as _ <-. exists k1. split_and!; [done..|by apply Delete_refines|done].
    + destruct e; injection Hset as Hs <-; unfold StatusConflict, StatusInternalServerError in *; lia.
  - destruct (Apply _ _ _ _ _ k) as [[[]|e] k1] eqn:Ha.
    + injection Hset as _ <-. exists k1. split_and!; [done..|by apply Apply_refines|done].
    + destruct e; injection Hset as Hs <-; unfold StatusConflict, StatusInternalServerError in *; lia.
Qed.

(** A request was sent, from one state of the client to the next. *)
Definition sends (c c' : C) : Prop := ∃ url method body bearer r, SendRequest url method body bearer c = (r, c').

Lemma sends_evolve c c' : rtc sends c c' → clusters_evolve c c'.
Proof.
  induction 1 as [c|c1 c2 c3 (url & method & body & bearer & r & Hs) _ IH]; [done|]. etrans; [|exact IH].
  intros code. by eapply SendRequest_evolves.
Qed.

(** C23: end to end, when a synchronisation of a project succeeds, each targeted availability zone has, among
    the requests of this synchronisation, had one that carries the effective quota that the tables define with
    its revision, and was answered with success; and from the state that the cluster of the zone had before
    this request to the one that it had after, it has gone through the step of the controller that enforces
    this quota at this revision: an object with these limits is created or replaced, one of GitOps or of a
    newer revision is left as it is, and when the quota has no limit the object is removed or absent. *)
Theorem Project_end_to_end (AZs : gmap string AZConfig) o p codes (w w' : World C) az :
  Project AZs o p codes w = (Ok tt, w') → az ∈ targets AZs o codes → routed az o p →
  let h := hierarchyOf (tables w) o p in
  ∃ c c', rtc sends (outside w) c ∧ rtc sends c' (outside w') ∧
    pushed o p h az c (Ok tt) c' ∧
    enforced o p (hierarchyAZ h (Code az)) (hierarchyRevision h (Code az)) (cluster_of c (Code az)) (cluster_of c' (Code az)) ∧
    evolves (cluster_of (outside w) (Code az)) (cluster_of c (Code az)) ∧
    evolves (cluster_of c' (Code az)) (cluster_of (outside w') (Code az)).
Proof.
  intros Hrun Haz Hr h.
  assert (∀ url method body bearer c r c', SendRequest url method body bearer c = (r, c') → rtc sends c c') as Hsend.
  { intros url method body bearer c r c' Hs. apply rtc_once. by exists url, method, body, bearer, r. }
  destruct (Project_between (rtc sends) Hsend AZs o p codes w w' az Hrun Haz) as (c & c' & H1 & Hp & H2).
  exists c, c'. split_and!; [done|done|done|by apply pushed_enforced|by apply sends_evolve|by apply sends_evolve].
Qed.
End end_to_end.

(** ** One availability zone *)
Module OneZone.
Import NanoQuantity ClusterSamples.

(** A text that stands for the JSON of a body. *)
Fixpoint pos_text (p : positive) : string :=
  match p with
  | xH => EmptyString
  | xO p => String (Ascii.ascii_of_N 48) (pos_text p)
  | xI p => String (Ascii.ascii_of_N 49) (pos_text p)
  end.

Fixpoint text_pos (s : string) : positive :=
  match s with
  | EmptyString => xH
  | String c s => if decide (c = Ascii.ascii_of_N 48) then xO (text_pos s) else xI (text_pos s)
  end.

Lemma text_pos_text p : text_pos (pos_text p) = p.
Proof. induction p as [p IH|p IH|]; simpl; by rewrite ?IH. Qed.

Definition marshal (b : controllerBody) : string := pos_text (encode (cb_Hard b, cb_Revision b)).

Definition unmarshal (s : string) : option QuotaBody :=
  (λ '(hard, revision), mkQuotaBody hard revision) <$>
    (decode (text_pos s) : option (gmap string string * Z)).

Lemma unmarshal_marshal b : unmarshal (marshal b) = Some (mkQuotaBody (cb_Hard b) (cb_Revision b)).
Proof. unfold unmarshal, marshal. by rewrite text_pos_text, decode_encode. Qed.

Definition az1 : AZConfig :=
  mkAZConfig "az1" "secret" "First" EmptyString "https://az1" "eu" [].

Definition zones : gmap string AZConfig := {["az1" := az1]}.

Definition send (dest method : string) (body : option string) (bearer : string) (k : Cluster.t) :
    result error Response * Cluster.t :=
  if decide (dest = quotaURL az1 organization project ∧ bearer = AuthSecret az1) then
    let decoded := match body ≫= unmarshal with Some b => Ok b | None => Err 400 end in
    let '(st, k) := setQuota "spx" organization project decoded k in
    (Ok (mkResponse st EmptyString), k)
  else (Err (errors_New "no route"), k).

#[global] Instance http : ControllerHTTP Cluster.t := {|
  SendRequest := send;
  json_Marshal := marshal;
  json_Decode := λ _, None;
|}.

(** The operations of the cluster only make it evolve. *)
Lemma hidden_evolves k : evolves k (Cluster.mk (stored k) (Cluster.counter k) (Cluster.pending k)).
Proof.
  split; [simpl; lia|]. intros key b Hb. left. apply map_lookup_filter_Some in Hb as [Hb _]. exact Hb.
Qed.

Lemma get_evolves namespace name k : evolves k (Cluster.get namespace name k).2.
Proof. unfold Cluster.get. pose proof (Cluster.tick_evolves k). repeat case_match; done. Qed.

Lemma create_evolves rq k : evolves k (Cluster.create rq k).2.
Proof.
  unfold Cluster.create. pose proof (Cluster.tick_evolves k). destruct (stored _ !! _); [done|].
  etrans; [done|]. etrans; [apply hidden_evolves|apply Cluster.put_evolves].
Qed.

Lemma update_evolves rq k : evolves k (Cluster.update rq k).2.
Proof.
  unfold Cluster.update. pose proof (Cluster.tick_evolves k). destruct (stored _ !! _); [|done]. case_decide; [|done].
  etrans; [done|]. etrans; [apply hidden_evolves|apply Cluster.put_evolves].
Qed.

Lemma remove_evolves namespace name k : evolves k (Cluster.remove namespace name k).2.
Proof.
  unfold Cluster.remove. pose proof (Cluster.tick_evolves k) as Ht. destruct (stored _ !! _); [|done].
  etrans; [exact Ht|]. split; [simpl; lia|]. intros key b Hb. left. apply map_lookup_filter_Some in Hb as [Hb _].
  cbn in Hb. by apply lookup_delete_Some in Hb as [_ Hb].
Qed.

Lemma attempts_evolves n fn k : (∀ k, evolves k (fn k).2) → evolves k (Cluster.attempts n fn k).2.
Proof.
  intros Hfn. revert k. induction n as [|n IH]; intros k; [apply Hfn|]. cbn [Cluster.attempts].
  specialize (Hfn k). destruct (fn k) as [[u|e] k1]; [done|]. destruct (IsConflict e); [|done]. by etrans.
Qed.

Lemma apply_evolves o p hard revision k : evolves k (ControllerQuota.apply "spx" o p hard revision k).2.
Proof.
  unfold ControllerQuota.apply, kcall. cbn [GetResourceQuota CreateResourceQuota UpdateResourceQuota Cluster.client].
  pose proof (get_evolves (GetNamespace "spx" p) (GetName p) k) as Hget.
  destruct (Cluster.get _ _ k) as [[current|e] k1]; cbn [snd] in Hget.
  - repeat (case_match; try done). all: etrans; [exact Hget|].
    all: pose proof (update_evolves (updatedResourceQuota "spx" current o p hard revision) k1) as Hu.
    all: destruct (Cluster.update _ k1); simplify_eq/=; done.
  - destruct e; try done. etrans; [exact Hget|].
    pose proof (create_evolves (newResourceQuota "spx" o p hard revision) k1) as Hc.
    destruct (Cluster.create _ k1) as [[]]; done.
Qed.

Lemma setQuota_evolves o p body k : evolves k (setQuota "spx" o p body k).2.
Proof.
  unfold setQuota. destruct (parseQuotaParams o p) as [[org proj]|]; [|done]. destruct body as [b|]; [|done].
  destruct (Validate _) as [hard|]; [|done].
  assert (∀ (x : result QuotaError unit * Cluster.t), evolves k x.2 → evolves k (let '(err, k) := x in
    match err with
    | Err (ErrBelowUsage _ _ _) => (StatusConflict, k)
    | Err _ => (StatusInternalServerError, k)
    | Ok _ => (StatusNoContent, k)
    end).2) as Hend by (intros [[u|[]] k1]; done).
  apply Hend. clear Hend. case_decide.
  - unfold Delete. cbn [GetResourceQuota DeleteResourceQuota Cluster.client].
    pose proof (get_evolves (GetNamespace "spx" proj) (GetName proj) k) as Hget.
    destruct (Cluster.get _ _ k) as [[current|e] k1]; cbn [snd] in Hget; [|by destruct e].
    destruct (IsGitops current); [done|]. destruct (staleRevision _ _); [done|]. etrans; [exact Hget|].
    pose proof (remove_evolves (GetNamespace "spx" proj) (GetName proj) k1) as Hr.
    destruct (Cluster.remove _ _ k1) as [[u|[]] k2]; done.
  - unfold Apply, CreateNamespaceIfNotExists. cbn [CreateNamespace RetryOnConflict Cluster.client].
    transitivity (Cluster.tick k); [apply Cluster.tick_evolves|].
    apply (attempts_evolves 4). intros k1. apply apply_evolves.
Qed.

#[global] Program Instance deployment : Deployment Cluster.t Cluster.t "spx" := {|
  cluster_of k _ := k;
  routed az o p := az = az1 ∧ o = organization ∧ p = project;
|}.
Next Obligation.
  intros url method body bearer c r c' code. simpl. unfold send. case_decide; [|intros [= _ <-]; split; [lia|auto]].
  pose proof (setQuota_evolves organization project (match body ≫= unmarshal with Some b => Ok b | None => Err 400 end) c) as He.
  destruct (setQuota _ _ _ _ c) as [st k]. by intros [= <- <-].
Qed.
Next Obligation.
  intros az o p body c r c' (-> & -> & ->). simpl. unfold send. rewrite decide_True by done.
  cbn [mbind option_bind]. rewrite unmarshal_marshal.
  destruct (setQuota _ _ _ _ c) as [st k'] eqn:Hset. intros [= <- <-].
  exists c, k'. split; [apply Cluster.evolves_preorder|].
  split; [exact Hset|apply Cluster.evolves_preorder].
Qed.
End OneZone.

(** * The synchronisation theorems, on one availability zone

    An organization with one project, deployed as in [EndToEnd.OneZone]; each lemma applies a
    theorem of the synchronisation or of the quota endpoints to a run. *)

Import NanoQuantity ClusterSamples OneZone.

(** 10 CPUs for the organization, 5 for the project, 4 in the AZ, nothing pushed yet. *)
Definition deployed : Tables :=
  set_project_az_quotas (λ _, {[(project, "az1") := mkProjectAZQuota {["cpu" := "4"]} 7 false]})
  (set_project_quotas (λ _, {[project := mkProjectQuota organization {["cpu" := "5"]} 6 false]})
  (set_organization_quotas (λ _, {[organization := mkOrganizationQuota {["cpu" := "10"]} 5 false]})
  (set_projects (λ _, {[project := mkProject organization false]})
  (set_organizations (λ _, {[organization := mkOrganization 1 false]}) no_tables)))).

Definition world (faults : list bool) : World Cluster.t :=
  mkWorld deployed 7 faults (Cluster.mk ∅ 0 []).

(** The controller of another zone does not answer. *)
Definition far : gmap string AZConfig :=
  {["az2" := mkAZConfig "az2" "secret" "Second" EmptyString "https://az2" "eu" []]}.

Lemma Project_enforced_witness :
  ∃ w', Project zones organization project [] (world []) = (Ok tt, w') ∧
    ¬ quota_deactivated (tables w') project.
Proof.
  assert (is_Ok (Project zones organization project [] (world [])).1 = true) as Hok
    by (vm_compute; reflexivity).
  destruct (Project zones organization project [] (world [])) as [[[]|e] w'] eqn:Hrun;
    [|discriminate Hok].
  destruct (Project_enforced zones organization project [] (world []) w' Hrun) as (_ & Hd & _).
  exists w'. split; [reflexivity | exact (Hd eq_refl)].
Defined.

Lemma Project_end_to_end_witness :
  let w' := (Project zones organization project [] (world [])).2 in
  ∃ c c' : Cluster.t, rtc sends (Cluster.mk ∅ 0 []) c ∧ rtc sends c' (outside w') ∧
  enforced (K:=Cluster.t) (SpxPrefix:="spx") organization project
    (hierarchyAZ (hierarchyOf deployed organization project) (Code az1))
    (hierarchyRevision (hierarchyOf deployed organization project) (Code az1)) c c'.
Proof.
  assert (is_Ok (Project zones organization project [] (world [])).1 = true) as Hok
    by (vm_compute; reflexivity).
  destruct (Project zones organization project [] (world [])) as [[[]|e] w'] eqn:Hrun;
    [|discriminate Hok].
  assert (az1 ∈ targets zones organization []) as Haz by evaluate.
  assert (routed az1 organization project) as Hr by (split; [reflexivity|split; reflexivity]).
  destruct (Project_end_to_end zones organization project [] (world []) w' az1 Hrun Haz Hr) as (c & c' & H1 & H2 & _ & H & _).
  exists c, c'. split; [exact H1|split; [exact H2|exact H]].
Defined.

(** The far zone accepts nothing, and has a quota to enforce: the project is deactivated. *)
Lemma Initialize_safe_witness :
  ∃ e w', Initialize far organization project (world []) = (Err e, w') ∧
    (quota_deactivated (tables w') project ∨ ∀ az, az ∈ targets far organization [] →
      accepted organization project (hierarchyOf deployed organization project) az ∨
      ToKubernetesQuota (hierarchyAZ (hierarchyOf deployed organization project) (Code az)) = ∅).
Proof.
  assert (is_Ok (Initialize far organization project (world [])).1 = false) as Hok
    by (vm_compute; reflexivity).
  destruct (Initialize far organization project (world [])) as [[[]|e] w'] eqn:Hrun;
    [discriminate Hok|].
  exists e, w'. split; [reflexivity|].
  exact (Initialize_safe far organization project (world []) (Err e) w' eq_refl Hrun).
Defined.

Lemma Organization_reports_witness :
  ∃ e w', Organization far organization (world []) = (Err e, w') ∧ err_is e = ErrNotApplied.
Proof.
  assert (is_Ok (Organization far organization (world [])).1 = false) as Hok
    by (vm_compute; reflexivity).
  destruct (Organization far organization (world [])) as [[[]|e] w'] eqn:Hrun; [discriminate Hok|].
  pose proof (Organization_reports far organization (world []) (Err e) w' eq_refl Hrun) as H.
  exists e, w'. split; [reflexivity | exact (proj1 H)].
Defined.

(** Two projects, the second one fails; the state counts the pushes. *)
Definition push_to (orga id : uuid) (n : Z) : result error unit * Z :=
  (if decide (id = "p2") then Err (errors_New "down") else Ok tt, n + 1).

Lemma Resync_complete_witness :
  Resync (λ n, (Ok true, n)) (λ n, n) (λ n, (Ok [("o", "p1"); ("o", "p2"); ("o", "p3")], n)) push_to
    (λ _, None) 0 = ((mkResyncReport 3 1, None), 3) ∧
  ∃ done_ rest s3, [("o", "p1"); ("o", "p2"); ("o", "p3")] = done_ ++ rest ∧
    pushed_all push_to done_ 0 = (1, s3) ∧ (None = (None : option error) ↔ rest = []).
Proof.
  assert (Resync (λ n, (Ok true, n)) (λ n, n) (λ n, (Ok [("o", "p1"); ("o", "p2"); ("o", "p3")], n))
    push_to (λ _, None) 0 = ((mkResyncReport 3 1, None), 3)) as Hrun by (vm_compute; reflexivity).
  split; [exact Hrun|].
  destruct (Resync_complete _ _ _ _ _ 0 _ None 3 Hrun)
    as (done_ & rest & s3 & Hl & Hp & _ & _ & _ & Hr & _).
  exists done_, rest, s3. split; [exact Hl|]. split; [exact Hp | exact Hr].
Defined.

(** A quota of 3 CPUs is below the 4 CPUs of the AZ. *)
Definition put_cpu (n : string) : write_request :=
  PutProjectQuota organization project (Ok (Some {["cpu" := n]})).

Lemma serve_safe_witness :
  ∃ a w', serve zones (put_cpu "3") (world []) = (a, w') ∧ status a = 400 ∧
    tables w' = tables (world []).
Proof.
  assert (status (serve zones (put_cpu "3") (world [])).1 = 400) as Hst by (vm_compute; reflexivity).
  assert (400 ∉ [200; 204; 500; 502]) as Hin by evaluate.
  destruct (serve zones (put_cpu "3") (world [])) as [a w'] eqn:Hrun. cbn [fst] in Hst.
  pose proof (proj1 (serve_safe zones (put_cpu "3") (world []) a w' Hrun)) as Hsafe.
  rewrite Hst in Hsafe. exists a, w'. split; [reflexivity|]. split; [exact Hst|exact (Hsafe Hin)].
Defined.

Lemma PutProjectQuota_enforced_witness :
  ∃ a w', serve zones (put_cpu "6") (world []) = (a, w') ∧ status a = 200 ∧
    ∃ o p, parseOrgAndProject organization project = inr (o, p) ∧
    projectResources (tables w') p = {["cpu" := "6"]}.
Proof.
  assert (status (serve zones (put_cpu "6") (world [])).1 = 200) as Hst by (vm_compute; reflexivity).
  destruct (serve zones (put_cpu "6") (world [])) as [a w'] eqn:Hrun. cbn [fst] in Hst.
  destruct (PutProjectQuota_enforced zones organization project (Some {["cpu" := "6"]}) (world []) a w'
    Hrun Hst) as (o & p & Hid & Hr & _).
  exists a, w'. split; [reflexivity|]. split; [exact Hst|]. exists o, p. split; [exact Hid|exact Hr].
Defined.
