(* ===== verification/Router.v ===== *)
(** * The route registry of the API ([internal/superphenix-api/pkg/router/registry.go])

    Routes, groups, modules and the edits made to them by key, and what [Build] wires onto the
    chi router: the sequence of calls it makes on it. Handlers are of any type; the logs are left
    out. *)

From S2P Require Import Prelude Strings.

(** ** Routes *)

Definition ActionCreate : string := "create".
Definition ActionUpdate : string := "update".
Definition ActionDelete : string := "delete".

Record Resource := mkResource { res_Name : string; res_Label : string }.

Record Audit := mkAudit {
  a_Resource : Resource; a_Action : string; a_ReportsOrganization : bool;
  a_ResourceParam : string; a_ResourceQuery : string; a_Skip : bool; a_SkipReason : string }.

Definition EventType (a : Audit) : string := res_Name (a_Resource a) +:+ "." +:+ a_Action a.

Definition noResource : Resource := mkResource EmptyString EmptyString.

Record RouteInfo := mkRouteInfo { ri_Method : string; ri_Pattern : string; ri_Audit : option Audit }.

Definition OrganizationScoped (info : RouteInfo) : bool :=
  Contains (ri_Pattern info) "{orgaId}" ||
  match ri_Audit info with Some a => a_ReportsOrganization a | None => false end.

Definition methodAny : string := "ANY".
Definition extensionsModule : string := "extensions".

Definition routeKey (method fullPattern : string) : string := method +:+ " " +:+ fullPattern.

Section router.
Context {Handler : Type}.

Definition Middleware : Type := Handler → Handler.

Record Route := mkRoute {
  rt_Method : string; rt_Pattern : string; rt_Handler : Handler;
  rt_Middlewares : list Middleware; rt_Audit : option Audit }.

Definition with_Audit (rt : Route) (audit : option Audit) : Route :=
  mkRoute (rt_Method rt) (rt_Pattern rt) (rt_Handler rt) (rt_Middlewares rt) audit.

Definition Audited (rt : Route) (resource : Resource) (action resourceParam : string) : Route :=
  with_Audit rt (Some (mkAudit resource action false resourceParam EmptyString false EmptyString)).

Definition AuditedByQuery (rt : Route) (resource : Resource) (action resourceQuery : string) : Route :=
  with_Audit rt (Some (mkAudit resource action false EmptyString resourceQuery false EmptyString)).

(** The audit of a route is its own: [Audited] and the others allocate it. *)
Definition ReportingOrganization (rt : Route) : Route :=
  match rt_Audit rt with
  | None => rt
  | Some a => with_Audit rt (Some (mkAudit (a_Resource a) (a_Action a) true (a_ResourceParam a)
      (a_ResourceQuery a) (a_Skip a) (a_SkipReason a)))
  end.

Definition NotAudited (rt : Route) (reason : string) : Route :=
  with_Audit rt (Some (mkAudit noResource EmptyString false EmptyString EmptyString true reason)).

Definition Handle (method pattern : string) (h : Handler) (mw : list Middleware) : Route :=
  mkRoute method pattern h mw None.
Definition Get := Handle "GET".
Definition Post := Handle "POST".
Definition Put := Handle "PUT".
Definition Patch := Handle "PATCH".
Definition Delete := Handle "DELETE".
Definition Head := Handle "HEAD".
Definition Options := Handle "OPTIONS".
Definition Any := Handle methodAny.

(** ** Groups and modules *)

Inductive Group :=
  mkGroup (Prefix : string) (Middlewares : list Middleware) (Routes : list Route)
    (Groups : list Group).

Record Module_ := mkModule {
  m_Name : string; m_Mount : string; m_Middlewares : list Middleware; m_Routes : list Route;
  m_Groups : list Group; m_Enabled : option (unit → bool) }.

Record namedMW := mkNamedMW { nm_name : string; nm_fn : Middleware }.

Record Registry := mkRegistry {
  globals : list namedMW;
  modules : list Module_;
  routeOverrides : gmap string Route;
  routeRemovals : gset string;
  auditor : option (Audit → Middleware) }.

Definition New : Registry := mkRegistry [] [] ∅ ∅ None.

Definition Reset (r : Registry) : Registry := mkRegistry [] [] ∅ ∅ None.

Definition SetAuditor (r : Registry) (auditor : Audit → Middleware) : Registry :=
  mkRegistry (globals r) (modules r) (routeOverrides r) (routeRemovals r) (Some auditor).

Definition with_globals (r : Registry) (gs : list namedMW) : Registry :=
  mkRegistry gs (modules r) (routeOverrides r) (routeRemovals r) (auditor r).
Definition with_modules (r : Registry) (ms : list Module_) : Registry :=
  mkRegistry (globals r) ms (routeOverrides r) (routeRemovals r) (auditor r).

(** ** Declared routes *)

Definition declaredRoutes (prefix : string) (routes : list Route) (out : list RouteInfo) :
    list RouteInfo :=
  fold_left (λ out rt, out ++ [mkRouteInfo (rt_Method rt) (prefix +:+ rt_Pattern rt) (rt_Audit rt)])
    routes out.

Fixpoint collectDeclaredGroup (prefix : string) (out : list RouteInfo) (g : Group) : list RouteInfo :=
  match g with
  | mkGroup p _ routes groups =>
    fold_left (collectDeclaredGroup (prefix +:+ p)) groups (declaredRoutes (prefix +:+ p) routes out)
  end.

Definition collectDeclared (prefix : string) (routes : list Route) (groups : list Group)
    (out : list RouteInfo) : list RouteInfo :=
  fold_left (collectDeclaredGroup prefix) groups (declaredRoutes prefix routes out).

Definition Declared (r : Registry) : list RouteInfo :=
  fold_left (λ out m, collectDeclared (m_Mount m) (m_Routes m) (m_Groups m) out) (modules r) [].

Definition withAudit (r : Registry) (audit : option Audit) (chain : list Middleware) :
    list Middleware :=
  match auditor r, audit with
  | Some auditor, Some a => if a_Skip a then chain else auditor a :: chain
  | _, _ => chain
  end.

(** ** Global middlewares *)

Definition Use (r : Registry) (name : string) (mw : Middleware) : Registry :=
  with_globals r (globals r ++ [mkNamedMW name mw]).

(** The globals with the first one of that name replaced, if any. *)
Fixpoint replaceMW (name : string) (mw : Middleware) (gs : list namedMW) : option (list namedMW) :=
  match gs with
  | [] => None
  | g :: gs =>
    if decide (nm_name g = name) then Some (mkNamedMW (nm_name g) mw :: gs)
    else (g ::.) <$> replaceMW name mw gs
  end.

Definition ReplaceGlobalMW (r : Registry) (name : string) (mw : Middleware) : Registry :=
  match replaceMW name mw (globals r) with
  | Some gs => with_globals r gs
  | None => Use r name mw
  end.

Definition RemoveGlobalMW (r : Registry) (name : string) : Registry :=
  with_globals r (filter (λ g, nm_name g ≠ name) (globals r)).

(** ** Modules *)

Definition Register (r : Registry) (m : Module_) : Registry := with_modules r (modules r ++ [m]).

(** The modules with the first one of that name changed, if any. *)
Fixpoint updateModule (name : string) (f : Module_ → Module_) (ms : list Module_) :
    option (list Module_) :=
  match ms with
  | [] => None
  | m :: ms =>
    if decide (m_Name m = name) then Some (f m :: ms) else (m ::.) <$> updateModule name f ms
  end.

Definition Override (r : Registry) (name : string) (m : Module_) : Registry :=
  match updateModule name (λ _, m) (modules r) with
  | Some ms => with_modules r ms
  | None => Register r m
  end.

Definition RemoveModule (r : Registry) (name : string) : Registry :=
  with_modules r (filter (λ m, m_Name m ≠ name) (modules r)).

(** ** Edits of routes *)

Definition AddRoute (r : Registry) (rt : Route) : Registry :=
  match updateModule extensionsModule (λ m,
      mkModule (m_Name m) (m_Mount m) (m_Middlewares m) (m_Routes m ++ [rt]) (m_Groups m)
        (m_Enabled m)) (modules r) with
  | Some ms => with_modules r ms
  | None => Register r (mkModule extensionsModule EmptyString [] [rt] [] None)
  end.

Definition OverrideRoute (r : Registry) (method pattern : string) (rt : Route) : Registry :=
  let rt := mkRoute method pattern (rt_Handler rt) (rt_Middlewares rt) (rt_Audit rt) in
  mkRegistry (globals r) (modules r)
    (<[routeKey method pattern := rt]> (routeOverrides r))
    (routeRemovals r ∖ {[routeKey method pattern]}) (auditor r).

Definition RemoveRoute (r : Registry) (method pattern : string) : Registry :=
  let key := routeKey method pattern in
  mkRegistry (globals r) (modules r) (delete key (routeOverrides r)) ({[key]} ∪ routeRemovals r)
    (auditor r).

(** ** Build *)

Record resolvedRoute := mkResolvedRoute {
  rr_method : string; rr_pattern : string; rr_handler : Handler; rr_chain : list Middleware }.

(** One route of [flatten]: the consumed override keys and the resolved routes so far. *)
Definition flattenRoute (r : Registry) (prefix : string) (shared : list Middleware)
    (st : gset string * list resolvedRoute) (rt : Route) : gset string * list resolvedRoute :=
  let '(consumed, out) := st in
  let full := prefix +:+ rt_Pattern rt in
  let key := routeKey (rt_Method rt) full in
  if decide (key ∈ routeRemovals r) then (consumed, out) else
  match routeOverrides r !! key with
  | Some ov =>
    let audit := match rt_Audit ov with None => rt_Audit rt | Some a => Some a end in
    ({[key]} ∪ consumed,
     out ++ [mkResolvedRoute (rt_Method rt) full (rt_Handler ov) (withAudit r audit (rt_Middlewares ov))])
  | None =>
    let chain := shared ++ rt_Middlewares rt in
    (consumed, out ++ [mkResolvedRoute (rt_Method rt) full (rt_Handler rt) (withAudit r (rt_Audit rt) chain)])
  end.

Fixpoint flattenGroup (r : Registry) (prefix : string) (shared : list Middleware)
    (st : gset string * list resolvedRoute) (g : Group) : gset string * list resolvedRoute :=
  match g with
  | mkGroup p mws routes groups =>
    let childShared := shared ++ mws in
    fold_left (flattenGroup r (prefix +:+ p) childShared) groups
      (fold_left (flattenRoute r (prefix +:+ p) childShared) routes st)
  end.

Definition flatten (r : Registry) (prefix : string) (shared : list Middleware) (routes : list Route)
    (groups : list Group) (st : gset string * list resolvedRoute) :
    gset string * list resolvedRoute :=
  fold_left (flattenGroup r prefix shared) groups
    (fold_left (flattenRoute r prefix shared) routes st).

Definition declaredKeys (prefix : string) (routes : list Route) (declared : gset string) :
    gset string :=
  fold_left (λ declared rt, {[routeKey (rt_Method rt) (prefix +:+ rt_Pattern rt)]} ∪ declared)
    routes declared.

Fixpoint collectDeclaredKeysGroup (prefix : string) (declared : gset string) (g : Group) :
    gset string :=
  match g with
  | mkGroup p _ routes groups =>
    fold_left (collectDeclaredKeysGroup (prefix +:+ p)) groups
      (declaredKeys (prefix +:+ p) routes declared)
  end.

Definition collectDeclaredKeys (prefix : string) (routes : list Route) (groups : list Group)
    (declared : gset string) : gset string :=
  fold_left (collectDeclaredKeysGroup prefix) groups (declaredKeys prefix routes declared).

(** A module that is not skipped. *)
Definition enabled (m : Module_) : bool :=
  match m_Enabled m with Some f => f tt | None => true end.

(** The calls on the chi router. *)
Inductive chi_call :=
  | chi_Use (mw : Middleware)
  | chi_Handle (chain : list Middleware) (pattern : string) (h : Handler)
  | chi_Method (chain : list Middleware) (method pattern : string) (h : Handler).

Definition materialise (rt : resolvedRoute) : chi_call :=
  if decide (rr_method rt = methodAny) then chi_Handle (rr_chain rt) (rr_pattern rt) (rr_handler rt)
  else chi_Method (rr_chain rt) (rr_method rt) (rr_pattern rt) (rr_handler rt).

(** The overrides that [Build] skips, with whether they target a declared route. *)
Definition skippedOverrides (r : Registry) (consumed declared : gset string) : gmap string bool :=
  map_imap (λ key _, if decide (key ∈ consumed ∨ key ∈ routeRemovals r) then None
                     else Some (bool_decide (key ∈ declared))) (routeOverrides r).

Definition Build (r : Registry) : list chi_call * gmap string bool :=
  let declared := fold_left (λ declared m,
    collectDeclaredKeys (m_Mount m) (m_Routes m) (m_Groups m) declared) (modules r) ∅ in
  let '(consumed, resolved) := fold_left (λ st m,
    if enabled m then flatten r (m_Mount m) (m_Middlewares m) (m_Routes m) (m_Groups m) st else st)
    (modules r) (∅, []) in
  (((λ g, chi_Use (nm_fn g)) <$> globals r) ++ (materialise <$> resolved),
   skippedOverrides r consumed declared).
End router.
Arguments Registry : clear implicits.
Arguments Route : clear implicits.
Arguments Module_ : clear implicits.
Arguments Group : clear implicits.
Arguments resolvedRoute : clear implicits.
Arguments chi_call : clear implicits.
Arguments Middleware : clear implicits.
