(* ===== verification/RouterTheorems.v ===== *)
(** * The theorems of the route registry

    The recursions over nested groups are one pass over the list of the declared routes, each with
    its prefix and the middlewares it shares; the properties of [Build] follow by induction on
    that list. *)

From S2P Require Import Prelude Strings Router.

Section router.
Context {Handler : Type}.
Implicit Types (r : Registry Handler) (rt : Route Handler) (g : Group Handler).
Implicit Types (m : Module_ Handler) (shared : list (Middleware Handler)).

(** ** Induction on groups *)
Lemma Group_induction (P : Group Handler → Prop) :
  (∀ p mws routes groups, Forall P groups → P (mkGroup p mws routes groups)) → ∀ g, P g.
Proof.
  intros Hg. fix IH 1. intros [p mws routes groups]. apply Hg.
  induction groups; constructor; [apply IH|done].
Qed.

(** ** The declared routes *)

(** A declared route, with the prefix and the shared middlewares of its level. *)
Record placed := mkPlaced {
  pl_prefix : string; pl_shared : list (Middleware Handler); pl_route : Route Handler }.

Definition pl_pattern (d : placed) : string := pl_prefix d +:+ rt_Pattern (pl_route d).
Definition pl_key (d : placed) : string := routeKey (rt_Method (pl_route d)) (pl_pattern d).

Fixpoint groupRoutes (prefix : string) shared g : list placed :=
  match g with
  | mkGroup p mws routes groups =>
    (mkPlaced (prefix +:+ p) (shared ++ mws) <$> routes) ++
      flat_map (groupRoutes (prefix +:+ p) (shared ++ mws)) groups
  end.

Definition levelRoutes (prefix : string) shared (routes : list (Route Handler))
    (groups : list (Group Handler)) : list placed :=
  (mkPlaced prefix shared <$> routes) ++ flat_map (groupRoutes prefix shared) groups.

Definition moduleRoutes m : list placed :=
  levelRoutes (m_Mount m) (m_Middlewares m) (m_Routes m) (m_Groups m).

Lemma groupRoutes_level prefix shared p mws routes groups :
  groupRoutes prefix shared (mkGroup p mws routes groups) =
    levelRoutes (prefix +:+ p) (shared ++ mws) routes groups.
Proof. done. Qed.

(** A pass over the groups is a pass over their routes. *)
Lemma fold_left_flat_map {A B S} (F : S → A → S) (step : S → B → S) (G : A → list B) l s :
  Forall (λ a, ∀ s, F s a = fold_left step (G a) s) l →
  fold_left F l s = fold_left step (flat_map G l) s.
Proof.
  intros Hl. revert s. induction Hl as [|a l Ha Hl IH]; intros s; [done|].
  simpl. rewrite fold_left_app, Ha. apply IH.
Qed.

Lemma fold_left_placed {S} (f : string → list (Middleware Handler) → S → Route Handler → S)
    prefix shared routes s :
  fold_left (λ s d, f (pl_prefix d) (pl_shared d) s (pl_route d)) (mkPlaced prefix shared <$> routes) s =
  fold_left (f prefix shared) routes s.
Proof. revert s. induction routes as [|rt routes IH]; intros s; [done|]. apply IH. Qed.

Ltac walk := intros prefix shared g; revert prefix shared;
  induction g as [p mws routes groups IH] using Group_induction; intros prefix shared st;
  cbn; rewrite fold_left_app.

Lemma flattenGroup_walk r : ∀ prefix shared g st,
  flattenGroup r prefix shared st g =
  fold_left (λ st d, flattenRoute r (pl_prefix d) (pl_shared d) st (pl_route d))
    (groupRoutes prefix shared g) st.
Proof.
  walk. rewrite (fold_left_placed (flattenRoute r)). apply fold_left_flat_map.
  eapply Forall_impl; [exact IH|]. intros g Hg s. apply Hg.
Qed.

Lemma flatten_walk r m st :
  flatten r (m_Mount m) (m_Middlewares m) (m_Routes m) (m_Groups m) st =
  fold_left (λ st d, flattenRoute r (pl_prefix d) (pl_shared d) st (pl_route d)) (moduleRoutes m) st.
Proof.
  unfold flatten, moduleRoutes, levelRoutes. rewrite fold_left_app, (fold_left_placed (flattenRoute r)).
  apply fold_left_flat_map. apply Forall_true. intros g s. apply flattenGroup_walk.
Qed.

Definition declareKey (declared : gset string) (d : placed) : gset string := {[pl_key d]} ∪ declared.

Lemma declareKey_placed prefix shared routes s :
  fold_left declareKey (mkPlaced prefix shared <$> routes) s = declaredKeys prefix routes s.
Proof.
  exact (fold_left_placed (λ prefix _ s rt,
    {[routeKey (rt_Method rt) (prefix +:+ rt_Pattern rt)]} ∪ s) prefix shared routes s).
Qed.

Lemma collectDeclaredKeysGroup_walk : ∀ prefix shared g declared,
  collectDeclaredKeysGroup prefix declared g =
  fold_left declareKey (groupRoutes prefix shared g) declared.
Proof.
  walk. rewrite declareKey_placed.
  apply fold_left_flat_map. eapply Forall_impl; [exact IH|]. intros g Hg s. apply Hg.
Qed.

Lemma collectDeclaredKeys_walk m declared :
  collectDeclaredKeys (m_Mount m) (m_Routes m) (m_Groups m) declared =
  fold_left declareKey (moduleRoutes m) declared.
Proof.
  unfold collectDeclaredKeys, moduleRoutes, levelRoutes.
  rewrite fold_left_app, declareKey_placed.
  apply fold_left_flat_map. apply Forall_true. intros g s. apply collectDeclaredKeysGroup_walk.
Qed.

Definition declareInfo (out : list RouteInfo) (d : placed) : list RouteInfo :=
  out ++ [mkRouteInfo (rt_Method (pl_route d)) (pl_pattern d) (rt_Audit (pl_route d))].

Lemma declareInfo_placed prefix shared routes out :
  fold_left declareInfo (mkPlaced prefix shared <$> routes) out = declaredRoutes prefix routes out.
Proof.
  exact (fold_left_placed (λ prefix _ out rt,
    out ++ [mkRouteInfo (rt_Method rt) (prefix +:+ rt_Pattern rt) (rt_Audit rt)]) prefix shared routes out).
Qed.

Lemma collectDeclaredGroup_walk : ∀ prefix shared g out,
  collectDeclaredGroup prefix out g = fold_left declareInfo (groupRoutes prefix shared g) out.
Proof.
  walk. rewrite declareInfo_placed.
  apply fold_left_flat_map. eapply Forall_impl; [exact IH|]. intros g Hg s. apply Hg.
Qed.

Lemma collectDeclared_walk m out :
  collectDeclared (m_Mount m) (m_Routes m) (m_Groups m) out =
  fold_left declareInfo (moduleRoutes m) out.
Proof.
  unfold collectDeclared, moduleRoutes, levelRoutes.
  rewrite fold_left_app, declareInfo_placed.
  apply fold_left_flat_map. apply Forall_true. intros g s. apply collectDeclaredGroup_walk.
Qed.

(** ** What a route becomes *)

Definition declared r : list placed := flat_map moduleRoutes (modules r).

(** The routes of the modules that are not gated off. *)
Definition live r : list placed := flat_map moduleRoutes (filter (λ m, (enabled m = true)) (modules r)).

(** [None] when it is removed. *)
Definition resolve r (d : placed) : option (resolvedRoute Handler) :=
  let rt := pl_route d in
  if decide (pl_key d ∈ routeRemovals r) then None else
  Some match routeOverrides r !! pl_key d with
  | Some ov => mkResolvedRoute (rt_Method rt) (pl_pattern d) (rt_Handler ov)
      (withAudit r (match rt_Audit ov with None => rt_Audit rt | a => a end) (rt_Middlewares ov))
  | None => mkResolvedRoute (rt_Method rt) (pl_pattern d) (rt_Handler rt)
      (withAudit r (rt_Audit rt) (pl_shared d ++ rt_Middlewares rt))
  end.

Lemma flattenRoutes_spec r ds consumed out :
  let '(consumed', out') := fold_left
    (λ st d, flattenRoute r (pl_prefix d) (pl_shared d) st (pl_route d)) ds (consumed, out) in
  out' = out ++ omap (resolve r) ds ∧
  ∀ key, key ∈ consumed' ↔ key ∈ consumed ∨
    (is_Some (routeOverrides r !! key) ∧ (key ∉ routeRemovals r) ∧ key ∈ (pl_key <$> ds)).
Proof.
  revert consumed out. induction ds as [|d ds IH]; intros consumed out; cbn [fold_left].
  { split; [by rewrite app_nil_r|]. set_solver. }
  unfold flattenRoute at 2. fold (pl_pattern d). fold (pl_key d).
  cbn [omap list_omap]. unfold resolve at 1.
  assert (∀ key, key ∈ (pl_key <$> (d :: ds)) ↔ key = pl_key d ∨ key ∈ (pl_key <$> ds)) as Hcons
    by (intros key; apply elem_of_cons).
  destruct (decide (pl_key d ∈ routeRemovals r)).
  { specialize (IH consumed out). case_match. destruct IH as [-> IH]. split; [done|].
    intros key. rewrite IH, Hcons. naive_solver. }
  destruct (routeOverrides r !! pl_key d) as [ov|] eqn:Hov;
    match goal with |- context [fold_left _ ds (?c, ?o)] => specialize (IH c o) end;
    case_match; destruct IH as [-> IH]; rewrite <-app_assoc; (split; [done|]);
    intros key; rewrite IH, Hcons.
  - rewrite elem_of_union, elem_of_singleton. naive_solver.
  - split; [naive_solver|]. intros [?|([? ?] & ? & [->|?])]; naive_solver.
Qed.

Lemma declareKeys_spec ds s key :
  key ∈ fold_left declareKey ds s ↔ key ∈ s ∨ key ∈ (pl_key <$> ds).
Proof.
  revert s. induction ds as [|d ds IH]; intros s; simpl; [set_solver|].
  rewrite IH. unfold declareKey. set_solver.
Qed.

Lemma declareInfo_spec ds out :
  fold_left declareInfo ds out =
  out ++ ((λ d, mkRouteInfo (rt_Method (pl_route d)) (pl_pattern d) (rt_Audit (pl_route d))) <$> ds).
Proof.
  revert out. induction ds as [|d ds IH]; intros out; simpl; [by rewrite app_nil_r|].
  rewrite IH. unfold declareInfo. by rewrite <-app_assoc.
Qed.

Lemma Build_walk r :
  fold_left (λ st m, if enabled m then
      flatten r (m_Mount m) (m_Middlewares m) (m_Routes m) (m_Groups m) st else st) (modules r) (∅, []) =
  fold_left (λ st d, flattenRoute r (pl_prefix d) (pl_shared d) st (pl_route d)) (live r) (∅, []).
Proof.
  unfold live. generalize (∅ : gset string, [] : list (resolvedRoute Handler)).
  induction (modules r) as [|m ms IH]; intros st; [done|]. rewrite filter_cons. cbn [fold_left].
  destruct (enabled m).
  - rewrite decide_True by done. cbn [flat_map]. rewrite fold_left_app, IH, flatten_walk. done.
  - rewrite decide_False by done. apply IH.
Qed.

Lemma declared_walk r :
  fold_left (λ declared m, collectDeclaredKeys (m_Mount m) (m_Routes m) (m_Groups m) declared)
    (modules r) ∅ = fold_left declareKey (declared r) ∅.
Proof.
  apply fold_left_flat_map. apply Forall_true. intros m s. apply collectDeclaredKeys_walk.
Qed.

(** ** Build *)

(** C25: building the router makes exactly these calls on chi, in this order: the global
    middlewares, then, in the order of the modules and of their declarations, each route of a
    module that is not gated off, unless it is removed, in its overridden form if it is overridden.
    The overrides that are skipped are exactly those that target no such route. *)
Theorem Build_resolves r :
  (Build r).1 = ((λ x, chi_Use (nm_fn x)) <$> globals r) ++
    (materialise <$> omap (resolve r) (live r)) ∧
  ∀ key b, (Build r).2 !! key = Some b ↔
    is_Some (routeOverrides r !! key) ∧ (key ∉ routeRemovals r) ∧ (key ∉ (pl_key <$> live r)) ∧
    b = bool_decide (key ∈ (pl_key <$> declared r)).
Proof.
  unfold Build. rewrite declared_walk, Build_walk.
  pose proof (flattenRoutes_spec r (live r) ∅ []) as Hspec.
  destruct (fold_left _ (live r) _) as [consumed out]. destruct Hspec as [-> Hc].
  split; [done|]. intros key b. cbn [snd]. unfold skippedOverrides. rewrite map_lookup_imap.
  assert (bool_decide (key ∈ fold_left declareKey (declared r) ∅) =
    bool_decide (key ∈ (pl_key <$> declared r))) as ->.
  { apply bool_decide_ext. rewrite declareKeys_spec. set_solver. }
  destruct (routeOverrides r !! key) as [ov|] eqn:Hov; simpl; [|naive_solver].
  case_decide as Hd; rewrite Hc, Hov in Hd.
  - split; [done|]. intros (_ & ? & ? & _). naive_solver set_solver.
  - split; [|naive_solver]. intros [= <-]. naive_solver.
Qed.

Lemma groupRoutes_shared : ∀ prefix shared g d,
  d ∈ groupRoutes prefix shared g → ∃ rest, pl_shared d = shared ++ rest.
Proof.
  intros prefix shared g. revert prefix shared.
  induction g as [p mws routes groups IH] using Group_induction. intros prefix shared d.
  cbn. rewrite elem_of_app, list_elem_of_fmap. intros [(rt & -> & _)|Hd]; [by exists mws|].
  apply list_elem_of_In, in_flat_map in Hd as (g & Hg%list_elem_of_In & Hd%list_elem_of_In).
  rewrite Forall_forall in IH. destruct (IH g Hg _ _ _ Hd) as [rest ->].
  exists (mws ++ rest). by rewrite <-app_assoc.
Qed.

Lemma moduleRoutes_shared m d :
  d ∈ moduleRoutes m → ∃ rest, pl_shared d = m_Middlewares m ++ rest.
Proof.
  unfold moduleRoutes, levelRoutes. rewrite elem_of_app, list_elem_of_fmap.
  intros [(rt & -> & _)|Hd]; [exists []; by rewrite app_nil_r|].
  apply list_elem_of_In, in_flat_map in Hd as (g & _ & Hd%list_elem_of_In).
  by eapply groupRoutes_shared.
Qed.

(** The method, the pattern, the handler and the middlewares of an endpoint. *)
Definition endpoint (c : chi_call Handler) :
    option (string * string * Handler * list (Middleware Handler)) :=
  match c with
  | chi_Use _ => None
  | chi_Handle chain pattern h => Some (methodAny, pattern, h, chain)
  | chi_Method chain method pattern h => Some (method, pattern, h, chain)
  end.

Lemma endpoint_materialise (x : resolvedRoute Handler) :
  endpoint (materialise x) = Some (rr_method x, rr_pattern x, rr_handler x, rr_chain x).
Proof. unfold materialise. case_decide as Hm; simpl; [by rewrite Hm|done]. Qed.

Lemma Build_endpoint r method pattern h chain :
  Some (method, pattern, h, chain) ∈ (endpoint <$> (Build r).1) ↔
  ∃ d, d ∈ live r ∧ resolve r d = Some (mkResolvedRoute method pattern h chain).
Proof.
  rewrite (proj1 (Build_resolves r)), fmap_app, elem_of_app, <-!list_fmap_compose.
  rewrite !list_elem_of_fmap. split.
  - intros [(g & [=] & _)|(x & Hx & Hd)]. cbn in Hx. rewrite endpoint_materialise in Hx.
    apply list_elem_of_omap in Hd as (d & Hd & Hr). exists d. split; [done|].
    rewrite Hr. destruct x. by injection Hx as <- <- <- <-.
  - intros (d & Hd & Hr). right. exists (mkResolvedRoute method pattern h chain). cbn.
    rewrite endpoint_materialise. split; [done|]. apply list_elem_of_omap. eauto.
Qed.

(** C26: Each endpoint of the router is a route declared by a module that is not gated off. Unless it is
    overridden, it runs the middlewares of the module first, then those of its groups, then its own. One that
    is overridden runs the handler and the middlewares of the override, and none of the others: the override
    must bring its own guards. An override never brings back a removed or gated-off route; and the audit
    middleware, when the route is audited, comes before all of them, an override without a declaration of
    its own keeping the one of the route. *)
Theorem Build_guarded r method pattern h chain :
  Some (method, pattern, h, chain) ∈ (endpoint <$> (Build r).1) →
  ∃ m d groups, m ∈ modules r ∧ enabled m = true ∧ d ∈ moduleRoutes m ∧
    pl_shared d = m_Middlewares m ++ groups ∧
    method = rt_Method (pl_route d) ∧ pattern = pl_pattern d ∧
    (routeKey method pattern ∉ routeRemovals r) ∧
    let own := rt_Middlewares (pl_route d) in
    match routeOverrides r !! routeKey method pattern with
    | None => h = rt_Handler (pl_route d) ∧
        chain = withAudit r (rt_Audit (pl_route d)) (m_Middlewares m ++ groups ++ own)
    | Some ov => h = rt_Handler ov ∧
        chain = withAudit r (match rt_Audit ov with None => rt_Audit (pl_route d) | a => a end)
                  (rt_Middlewares ov)
    end.
Proof.
  rewrite Build_endpoint. intros (d & Hd & Hr).
  unfold live in Hd. apply list_elem_of_In, in_flat_map in Hd as (m & Hm%list_elem_of_In & Hd%list_elem_of_In).
  apply list_elem_of_filter in Hm as [He Hm].
  destruct (moduleRoutes_shared _ _ Hd) as [groups Hs].
  unfold resolve in Hr. case_decide as Hk; [done|].
  exists m, d, groups. unfold pl_key in Hk, Hr.
  destruct (routeOverrides r !! _) as [ov|] eqn:Hov; injection Hr as <- <- <- <-; rewrite Hov.
  - split_and!; done.
  - rewrite Hs, <-app_assoc. split_and!; done.
Qed.

(** ** Edits *)

(** For each method and path the last edit wins, it affects no other route, and no endpoint is
    left at a removed one. *)
Theorem edits_last_win r method pattern rt rt' :
  RemoveRoute (OverrideRoute r method pattern rt) method pattern = RemoveRoute r method pattern ∧
  OverrideRoute (RemoveRoute r method pattern) method pattern rt = OverrideRoute r method pattern rt ∧
  OverrideRoute (OverrideRoute r method pattern rt') method pattern rt =
    OverrideRoute r method pattern rt ∧
  (∀ h chain, Some (method, pattern, h, chain) ∉
     (endpoint <$> (Build (RemoveRoute r method pattern)).1)) ∧
  ∀ d, pl_key d ≠ routeKey method pattern →
    resolve (RemoveRoute r method pattern) d = resolve r d ∧
    resolve (OverrideRoute r method pattern rt) d = resolve r d.
Proof.
  split_and!.
  - unfold RemoveRoute, OverrideRoute; simpl. rewrite delete_insert_eq. f_equal. apply set_eq. intros k.
    destruct (decide (k = routeKey method pattern)); set_solver.
  - unfold RemoveRoute, OverrideRoute; simpl. rewrite insert_delete_eq. f_equal. set_solver.
  - unfold OverrideRoute; simpl. rewrite insert_insert_eq. f_equal. set_solver.
  - intros h chain (d & _ & Hr)%Build_endpoint. unfold resolve in Hr. case_decide as Hk; [done|].
    unfold pl_key in Hk. case_match; injection Hr; intros; subst; set_solver.
  - intros d Hne. unfold resolve; simpl. rewrite lookup_delete_ne, lookup_insert_ne by done.
    assert (pl_key d ∈ {[routeKey method pattern]} ∪ routeRemovals r ↔ pl_key d ∈ routeRemovals r)
      as H1 by set_solver.
    assert (pl_key d ∈ routeRemovals r ∖ {[routeKey method pattern]} ↔ pl_key d ∈ routeRemovals r)
      as H2 by set_solver.
    split; [rewrite (decide_ext _ _ _ _ H1)|rewrite (decide_ext _ _ _ _ H2)]; done.
Qed.

(** The registries that the operations build. *)
Inductive configured : Registry Handler → Prop :=
  | configured_New : configured New
  | configured_Reset r : configured r → configured (Reset r)
  | configured_SetAuditor r f : configured r → configured (SetAuditor r f)
  | configured_Use r name mw : configured r → configured (Use r name mw)
  | configured_ReplaceGlobalMW r name mw : configured r → configured (ReplaceGlobalMW r name mw)
  | configured_RemoveGlobalMW r name : configured r → configured (RemoveGlobalMW r name)
  | configured_Register r m : configured r → configured (Register r m)
  | configured_Override r name m : configured r → configured (Override r name m)
  | configured_RemoveModule r name : configured r → configured (RemoveModule r name)
  | configured_AddRoute r rt : configured r → configured (AddRoute r rt)
  | configured_OverrideRoute r method pattern rt :
      configured r → configured (OverrideRoute r method pattern rt)
  | configured_RemoveRoute r method pattern :
      configured r → configured (RemoveRoute r method pattern).

(** In a registry built by the operations no route is both overridden and removed, and an
    override is stored under the key of its own method and pattern. *)
Theorem edits_consistent r :
  configured r → ∀ key ov, routeOverrides r !! key = Some ov →
  (key ∉ routeRemovals r) ∧ key = routeKey (rt_Method ov) (rt_Pattern ov).
Proof.
  induction 1; try done; intros key ov.
  - unfold ReplaceGlobalMW. case_match; apply IHconfigured.
  - unfold Override. case_match; apply IHconfigured.
  - unfold AddRoute. case_match; apply IHconfigured.
  - cbn. intros [[<- <-]|[Hne Hk%IHconfigured]]%lookup_insert_Some; [set_solver|].
    split; [set_solver|by destruct Hk].
  - cbn. intros [Hne Hk%IHconfigured]%lookup_delete_Some. split; [set_solver|by destruct Hk].
Qed.
End router.

(** ** A registry

    A handler is the list of the names it runs through. *)
Module RegistrySample.

Definition mw (name : string) : Middleware (list string) := λ h, name :: h.

Definition sample : Registry (list string) :=
  let quota := mkModule "quota" "/v1" [mw "authenticate"]
    [Get "/status" ["status"] []]
    [mkGroup "/{orgaId}" [mw "authorize"]
       [Audited (Put "/quota" ["set"] [mw "limit"]) (mkResource "quota" "Quota") ActionUpdate EmptyString] []]
    None in
  let admin := mkModule "admin" "/admin" [mw "authenticate"] [Get "/quota" ["admin"] []] []
    (Some (λ _, false)) in
  OverrideRoute (SetAuditor (Register (Register (Use New "log" (mw "log")) quota) admin)
    (λ a, mw (EventType a))) "GET" "/admin/quota" (Get "/admin/quota" ["evil"] []).

Lemma Build_guarded_witness :
  ∃ m d groups, m ∈ modules sample ∧ enabled m = true ∧ d ∈ moduleRoutes m ∧
    pl_shared d = m_Middlewares m ++ groups ∧ pl_pattern d = "/v1/{orgaId}/quota".
Proof.
  assert (Some ("PUT", "/v1/{orgaId}/quota", ["set"],
    [mw "quota.update"; mw "authenticate"; mw "authorize"; mw "limit"]) ∈ (endpoint <$> (Build sample).1)) as Hin.
  { vm_compute. right. right. left. }
  destruct (Build_guarded sample _ _ _ _ Hin) as (m & d & groups & Hm & He & Hd & Hs & _ & Hp & _).
  exists m, d, groups. split; [exact Hm|]. split; [exact He|]. split; [exact Hd|].
  split; [exact Hs|symmetry; exact Hp].
Defined.

Lemma edits_consistent_witness :
  routeKey "GET" "/admin/quota" ∉ routeRemovals sample.
Proof.
  assert (configured sample) as Hc by (repeat constructor).
  exact (proj1 (edits_consistent sample Hc (routeKey "GET" "/admin/quota")
    (Get "/admin/quota" ["evil"] []) eq_refl)).
Defined.

(** The override of a gated-off route is skipped. *)
Example gated_override : (Build sample).2 !! "GET /admin/quota" = Some true.
Proof. vm_compute. reflexivity. Qed.
End RegistrySample.
