(* ===== verification/Labels.v ===== *)
(** * Labels and selectors ([internal/superphenix-controller/internal/utils])

    The checks of the labels, selectors and annotations that requests carry: [checkSelector.go],
    [labels.go], [filter.go] and [netpol.go]. The anchored regexps are run by the predicates they
    denote; [disabled] is the list [config.Global.DisableEditionForResourcesByLabels]. *)

From S2P Require Import Prelude Strings SpxId.

Inductive LabelError :=
  | SelectorKeyTooLong
  | SelectorValueTooLong
  | SelectorKeyEmpty
  | InvalidSelectorKey
  | InvalidSelectorValue
  | InvalidOperator
  | LabelTooLong
  | InvalidLabelFormat
  | InvalidLabelPrefix (label : string)
  | GitopsResource
  | GeneratedResource
  | DisabledResource
  | ResourceNotFound (name : string).

#[export] Instance LabelError_eq_dec : EqDecision LabelError.
Proof. solve_decision. Defined.

Definition SpxLabelPrefix : string := "superphenix.net/".
Definition SpxAnnotationAllowedProjects : string := "superphenix.net/allowedProjects".

(** ** Selectors *)

Definition selectorValueMaxLength : nat := 63.
Definition selectorKeyMaxLength : nat := 253 - selectorValueMaxLength.

(** [[a-z0-9A-Z]] *)
Definition alnum (c : Ascii.ascii) : bool :=
  let n := Ascii.N_of_ascii c in
  bool_decide ((97 ≤ n ∧ n ≤ 122) ∨ (48 ≤ n ∧ n ≤ 57) ∨ (65 ≤ n ∧ n ≤ 90))%N.

(** [[a-z0-9A-Z-._]] *)
Definition name_byte (c : Ascii.ascii) : bool :=
  alnum c || bool_decide (c ∈ [byte 45; byte 46; byte 95]).

(** [[a-z0-9A-Z-\/._]] *)
Definition key_byte (c : Ascii.ascii) : bool := name_byte c || bool_decide (c = byte 47).

(** [selectorValuePattern]: its last class is optional and included in the one before. *)
Definition selectorValueRegex (s : string) : bool :=
  match s with EmptyString => false | String c s => alnum c && all_bytes name_byte s end.

(** [selectorKeyPattern] *)
Definition selectorKeyRegex (s : string) : bool :=
  match s with EmptyString => false | String c s => alnum c && all_bytes key_byte s end.

Definition CheckSelector (key value : string) : result LabelError unit :=
  if decide (selectorKeyMaxLength < String.length key)%nat then Err SelectorKeyTooLong
  else if decide (selectorValueMaxLength < String.length value)%nat then Err SelectorValueTooLong
  else if decide (String.length key ≤ 0)%nat then Err SelectorKeyEmpty
  else if negb (selectorKeyRegex key) then Err InvalidSelectorKey
  else if decide (value ≠ EmptyString ∧ selectorValueRegex value = false) then Err InvalidSelectorValue
  else Ok tt.

Definition LabelSelectorOpIn : string := "In".
Definition LabelSelectorOpNotIn : string := "NotIn".
Definition LabelSelectorOpExists : string := "Exists".
Definition LabelSelectorOpDoesNotExist : string := "DoesNotExist".

(** The loop over the values. *)
Fixpoint checkSelectorValues (values : list string) : result LabelError unit :=
  match values with
  | [] => Ok tt
  | value :: values =>
    if decide (selectorValueMaxLength < String.length value)%nat then Err SelectorValueTooLong
    else if decide (value ≠ EmptyString ∧ selectorValueRegex value = false) then Err InvalidSelectorValue
    else checkSelectorValues values
  end.

Definition CheckExpressions (key operator : string) (values : list string) :
    result LabelError unit :=
  if decide (selectorKeyMaxLength < String.length key)%nat then Err SelectorKeyTooLong
  else if decide (String.length key ≤ 0)%nat then Err SelectorKeyEmpty
  else if negb (selectorKeyRegex key) then Err InvalidSelectorKey
  else if decide (operator ≠ LabelSelectorOpIn ∧ operator ≠ LabelSelectorOpNotIn ∧
      operator ≠ LabelSelectorOpExists ∧ operator ≠ LabelSelectorOpDoesNotExist)
    then Err InvalidOperator
  else checkSelectorValues values.

(** ** Tenancy *)

Definition CheckProjectLabel (labels : gmap string string) (name namespace : string) :
    result LabelError unit :=
  if decide (default EmptyString (labels !! SpxLabelProjectID) ≠ namespace)
  then Err (ResourceNotFound name) else Ok tt.

Definition IsSharedWithProject (annotations : gmap string string) (projectID : string) : bool :=
  match annotations !! SpxAnnotationAllowedProjects with
  | None => false
  | Some allowedProjects =>
    existsb (λ id, bool_decide (TrimSpace id = projectID)) (Split allowedProjects (byte 44))
  end.

Definition isEditAllowed (disabled : list (string * string)) (labels : gmap string string)
    (forceGitops : bool) : result LabelError unit :=
  if decide (forceGitops = false ∧ default EmptyString (labels !! SpxLabelGitops) = "true")
  then Err GitopsResource
  else if decide (default EmptyString (labels !! "superphenix.net/generated") = "true")
  then Err GeneratedResource
  else if existsb (λ '(key, value), bool_decide (default EmptyString (labels !! key) = value)) disabled
  then Err DisabledResource
  else Ok tt.

Definition IsEditAllowed disabled labels := isEditAllowed disabled labels false.
Definition IsEditAllowedForceGitops disabled labels := isEditAllowed disabled labels true.

(** ** Labels of the form [key:value] *)

Definition labelMaxLength : nat := 253.

(** [[a-z0-9A-Z](?:[a-z0-9A-Z-._]*[a-z0-9A-Z]{1})?] *)
Definition edged (s : string) : bool :=
  match s with
  | EmptyString => false
  | String c _ => alnum c && all_bytes name_byte s &&
      match String.rev s with EmptyString => false | String c _ => alnum c end
  end.

(** The same with at most 63 bytes. *)
Definition labelName (s : string) : bool := edged s && bool_decide (String.length s ≤ 63)%nat.

(** [labelPattern]: a name with an optional prefix, a colon, and an optional name. *)
Definition labelPatternRegex (label : string) : bool :=
  let '(key, value, found) := Cut label (byte 58) in
  let '(prefix, name, prefixed) := Cut key (byte 47) in
  found && (if (prefixed : bool) then edged prefix && labelName name else labelName key) &&
  (bool_decide (value = EmptyString) || labelName value).

Definition ParseLabel (label : string) : result LabelError (string * string) :=
  if decide (labelMaxLength < String.length label)%nat then Err LabelTooLong
  else if negb (labelPatternRegex label) then Err InvalidLabelFormat
  else match Split label (byte 58) with
       | [key; value] => Ok (key, value)
       | _ => Err InvalidLabelFormat
       end.

Definition ParseLabels (labels : list string) (prefix : string) :
    result LabelError (gmap string string) :=
  foldM (λ labelMap label,
    '(key, val) ← ParseLabel label;
    if decide (prefix ≠ EmptyString ∧ HasPrefix key prefix = false)
    then Err (InvalidLabelPrefix label) else Ok (<[key:=val]> labelMap)) ∅ labels.

(** ** What the views show *)

Definition CustomLabelPrefix : string := "user.superphenix.net/".

Definition allowedLabelKeyList : list string :=
  ["velero.io/backup-name"; "velero.io/restore-name"; "app.kubernetes.io/name"].
Definition excludedLabels : list string := ["superphenix.net/ignoreNetworkPolicies"].
Definition allowedAnnotationKeyList : list string :=
  ["replication.storage.openshift.io/volume-replication-name"].
Definition excludedAnnotationKeyList : list string := ["superphenix.net/allowedProjects"].

Definition FilterLabels (labels : gmap string string) : gmap string string :=
  filter (λ kv : string * string,
    (HasPrefix kv.1 SpxLabelPrefix = true ∨ HasPrefix kv.1 CustomLabelPrefix = true ∨
      kv.1 ∈ allowedLabelKeyList) ∧ (kv.1 ∉ excludedLabels)) labels.

Definition FilterAnnotations (annotations : gmap string string) : gmap string string :=
  filter (λ kv : string * string,
    (HasPrefix kv.1 SpxLabelPrefix = true ∨ kv.1 ∈ allowedAnnotationKeyList) ∧
    (kv.1 ∉ excludedAnnotationKeyList)) annotations.

(** ** The subnet scope of a network policy *)

Definition NetPolForAnnotation : string := "ovn.kubernetes.io/network_policy_for".

(** The references, without duplicates, and the IDs seen. *)
Definition scopeRefs (namespace : string) (subnetEIds : list string) : list string * gset string :=
  fold_left (λ '(refs, seen) eid,
    if decide (eid = EmptyString ∨ eid ∈ seen) then (refs, seen)
    else (refs ++ [namespace +:+ "/" +:+ eid], {[eid]} ∪ seen)) subnetEIds ([], ∅).

Definition BuildSubnetScope (namespace : string) (subnetEIds : list string) : string :=
  join "," (scopeRefs namespace subnetEIds).1.

(** The ID of a reference, if it has one. *)
Definition scopeEId (ref : string) : option string :=
  let ref := TrimSpace ref in
  if decide (ref = EmptyString) then None else
  let '(_, eid, found) := Cut ref (byte 47) in
  let ref := if (found : bool) then eid else ref in
  if decide (ref ≠ EmptyString) then Some ref else None.

(** A nil slice is the empty list. *)
Definition ParseSubnetScope (annotations : gmap string string) : list string :=
  match annotations !! NetPolForAnnotation with
  | None => []
  | Some value =>
    if decide (value = EmptyString) then [] else omap scopeEId (Split value (byte 44))
  end.

(** * The theorems of the labels

    Labels are accepted and read as their grammar says, the subnet scope of a network policy is read
    back as it was written, and no selector is accepted that is not a bounded key. *)

(** ** Labels *)

(** A key is a name with an optional prefix. *)
Definition label_key (key : string) : Prop :=
  labelName key = true ∨
  ∃ prefix name, key = prefix +:+ "/" +:+ name ∧ edged prefix = true ∧ labelName name = true.

Lemma all_bytes_occurs p c s : p c = false → all_bytes p s = true → occurs c s = false.
Proof.
  intros Hc. induction s as [|c' s IH]; [done|]. cbn. intros [Hp Hs]%andb_true_iff.
  rewrite bool_decide_eq_false_2 by congruence. by apply IH.
Qed.

Lemma edged_occurs c s : name_byte c = false → edged s = true → occurs c s = false.
Proof.
  intros Hc Hs. apply (all_bytes_occurs name_byte); [done|].
  unfold edged in Hs. destruct s; [done|]. by apply andb_true_iff in Hs as [[? ?]%andb_true_iff _].
Qed.

Lemma labelName_occurs c s : name_byte c = false → labelName s = true → occurs c s = false.
Proof. intros Hc [Hs _]%andb_true_iff. by apply edged_occurs. Qed.

Lemma label_key_colon key : label_key key → occurs (byte 58) key = false.
Proof.
  intros [Hk|(prefix & name & -> & Hp & Hn)]; [by apply labelName_occurs|].
  rewrite !occurs_app, (edged_occurs _ prefix), (labelName_occurs _ name) by done. done.
Qed.

Lemma Cut_spec s sep before after found :
  Cut s sep = (before, after, found) →
  occurs sep before = false ∧
  if found then s = before +:+ String sep after else s = before ∧ after = EmptyString.
Proof.
  revert before after found. induction s as [|c s IH]; intros before after found; cbn [Cut].
  { by intros [= <- <- <-]. }
  case_decide as Hc; [intros [= <- <- <-]; by subst|].
  destruct (Cut s sep) as [[b a] f] eqn:Hcut. intros [= <- <- <-].
  destruct (IH _ _ _ eq_refl) as [Hb Hs]. cbn [occurs].
  rewrite bool_decide_eq_false_2 by done. split; [done|].
  destruct f; [by rewrite Hs|]. by destruct Hs as [-> ->].
Qed.

Lemma Cut_no_sep s sep : occurs sep s = false → Cut s sep = (s, EmptyString, false).
Proof.
  induction s as [|c s IH]; cbn [Cut occurs]; [done|].
  intros [Hc%bool_decide_eq_false Hs]%orb_false_iff. rewrite decide_False by done. by rewrite IH.
Qed.

(** The regexp of the labels. *)
Lemma labelPatternRegex_spec label :
  labelPatternRegex label = true ↔ ∃ key value, label = key +:+ ":" +:+ value ∧ label_key key ∧
    (value = EmptyString ∨ labelName value = true).
Proof.
  split.
  - unfold labelPatternRegex. destruct (Cut label _) as [[key value] found] eqn:Hcut.
    destruct (Cut key _) as [[prefix name] prefixed] eqn:Hkey.
    rewrite !andb_true_iff, orb_true_iff, bool_decide_eq_true. intros [[-> Hk] Hv].
    apply Cut_spec in Hcut as [_ ->]. apply Cut_spec in Hkey as [_ Hp].
    exists key, value. split_and!; [done| |done]. destruct prefixed; [|by left].
    apply andb_true_iff in Hk as [? ?]. right. by exists prefix, name.
  - intros (key & value & -> & Hk & Hv). unfold labelPatternRegex.
    change (":" +:+ value) with (String (byte 58) value).
    rewrite Cut_app by by apply label_key_colon.
    destruct Hk as [Hk|(prefix & name & -> & Hp & Hn)].
    + rewrite Cut_no_sep by by apply labelName_occurs. rewrite Hk.
      destruct Hv as [->| ->]; [done|]. by rewrite orb_true_r.
    + change ("/" +:+ name) with (String (byte 47) name).
      rewrite Cut_app by by apply edged_occurs. rewrite Hp, Hn.
      destruct Hv as [->| ->]; [done|]. by rewrite orb_true_r.
Qed.

(** A text is accepted as a label exactly when it is a key, a colon and a value of the allowed
    forms, of at most 253 bytes; it is then read as that key and value. *)
Theorem ParseLabel_spec label key value :
  ParseLabel label = Ok (key, value) ↔
  label = key +:+ ":" +:+ value ∧ (String.length label ≤ 253)%nat ∧ label_key key ∧
  (value = EmptyString ∨ labelName value = true).
Proof.
  assert (∀ key value, label_key key → value = EmptyString ∨ labelName value = true →
    Split (key +:+ ":" +:+ value) (byte 58) = [key; value]) as Hsplit.
  { intros k v Hk Hv. change (":" +:+ v) with (String (byte 58) v).
    rewrite Split_app by by apply label_key_colon. f_equal. apply Split_no_sep.
    destruct Hv as [->|Hv]; [done|]. by apply labelName_occurs. }
  unfold ParseLabel, labelMaxLength. case_decide as Hlen; [split; [done|]; intros (_ & ? & _); lia|].
  destruct (labelPatternRegex label) eqn:Hre; cbn [negb].
  - apply labelPatternRegex_spec in Hre as (k & v & -> & Hk & Hv). rewrite Hsplit by done.
    split; [intros [= <- <-]; split_and!; [done|lia|done..]|].
    intros (Heq & _ & Hk' & Hv'). apply (f_equal (λ s, Split s (byte 58))) in Heq.
    rewrite !Hsplit in Heq by done. by injection Heq as -> ->.
  - split; [done|]. intros (-> & _ & Hk & Hv).
    assert (labelPatternRegex (key +:+ ":" +:+ value) = true) as Hyes
      by (apply labelPatternRegex_spec; eauto). congruence.
Qed.

(** ** The subnet scope *)

(** The texts that are not empty, each at its first occurrence. *)
Fixpoint distinct (seen : gset string) (l : list string) : list string :=
  match l with
  | [] => []
  | eid :: l =>
    if decide (eid = EmptyString ∨ eid ∈ seen) then distinct seen l
    else eid :: distinct ({[eid]} ∪ seen) l
  end.

Lemma scopeRefs_distinct namespace l refs seen :
  (fold_left (λ '(refs, seen) eid,
    if decide (eid = EmptyString ∨ eid ∈ seen) then (refs, seen)
    else (refs ++ [namespace +:+ "/" +:+ eid], {[eid]} ∪ seen)) l (refs, seen)).1 =
  refs ++ ((λ eid, namespace +:+ "/" +:+ eid) <$> distinct seen l).
Proof.
  revert refs seen. induction l as [|eid l IH]; intros refs seen; cbn; [by rewrite app_nil_r|].
  case_decide; rewrite IH; [done|]. by rewrite <-app_assoc.
Qed.

Lemma distinct_spec seen l :
  NoDup (distinct seen l) ∧ distinct seen l `sublist_of` l ∧
  ∀ eid, eid ∈ distinct seen l ↔ eid ∈ l ∧ eid ≠ EmptyString ∧ eid ∉ seen.
Proof.
  revert seen. induction l as [|e l IH]; intros seen; cbn [distinct].
  { split_and!; [constructor|constructor|set_solver]. }
  case_decide as Hd.
  - destruct (IH seen) as (? & ? & Hin). split_and!; [done|by constructor|].
    intros eid. rewrite Hin, elem_of_cons. naive_solver.
  - destruct (IH ({[e]} ∪ seen)) as (? & ? & Hin). split_and!.
    + constructor; [rewrite Hin; set_solver|done].
    + by constructor.
    + intros eid. rewrite !elem_of_cons, Hin. destruct (decide (eid = e)); set_solver.
Qed.

(** A name that can be part of a reference: printable, without a comma. *)
Definition plain (s : string) : Prop := all_bytes graphic s = true ∧ occurs (byte 44) s = false.

Lemma all_bytes_rev p s : all_bytes p (String.rev s) = all_bytes p s.
Proof.
  induction s as [|c s IH]; [done|]. rewrite rev_cons, all_bytes_app, IH. cbn.
  destruct (p c), (all_bytes p s); done.
Qed.

Lemma TrimSpace_plain s : all_bytes graphic s = true → TrimSpace s = s.
Proof.
  assert (∀ s, all_bytes graphic s = true → starts_graphic s = true) as Hs.
  { intros [|c s']; [done|]. by intros [? _]%andb_true_iff. }
  intros Ha. apply TrimSpace_graphic; apply Hs; [done|]. by rewrite all_bytes_rev.
Qed.

Lemma scopeEId_ref namespace eid :
  plain namespace → occurs (byte 47) namespace = false → plain eid → eid ≠ EmptyString →
  scopeEId (namespace +:+ "/" +:+ eid) = Some eid.
Proof.
  intros [Hn _] Hslash [He _] Hne. unfold scopeEId.
  rewrite TrimSpace_plain by (rewrite !all_bytes_app, Hn, He; done).
  rewrite decide_False.
  2: { destruct namespace; [done|]. by rewrite string_app_cons. }
  change ("/" +:+ eid) with (String (byte 47) eid). rewrite Cut_app by done.
  by rewrite decide_True.
Qed.

(** The subnets a policy is scoped to are read back from its annotation: those of the request
    that are not empty, once each and in their order. *)
Theorem subnet_scope_roundtrip namespace subnetEIds annotations :
  plain namespace → occurs (byte 47) namespace = false → Forall plain subnetEIds →
  annotations !! NetPolForAnnotation = Some (BuildSubnetScope namespace subnetEIds) →
  let read := ParseSubnetScope annotations in
  NoDup read ∧ read `sublist_of` subnetEIds ∧
  ∀ eid, eid ∈ read ↔ eid ∈ subnetEIds ∧ eid ≠ EmptyString.
Proof.
  intros Hn Hslash Hl Ha. cbn zeta.
  assert (ParseSubnetScope annotations = distinct ∅ subnetEIds) as ->.
  2: { destruct (distinct_spec ∅ subnetEIds) as (? & ? & Hin). split_and!; [done..|].
       intros eid. rewrite Hin. set_solver. }
  unfold ParseSubnetScope. rewrite Ha. unfold BuildSubnetScope, scopeRefs.
  rewrite scopeRefs_distinct. rewrite app_nil_l.
  pose proof (distinct_spec ∅ subnetEIds) as (_ & _ & Hin). rewrite Forall_forall in Hl.
  destruct (distinct ∅ subnetEIds) as [|e l] eqn:Hd; [done|]. rewrite <-Hd in *.
  assert (Forall (λ ref, occurs (byte 44) ref = false)
    ((λ eid, namespace +:+ "/" +:+ eid) <$> distinct ∅ subnetEIds)) as Hc.
  { apply Forall_fmap, Forall_forall. intros x (Hx & _ & _)%Hin. unfold compose.
    rewrite !occurs_app. destruct Hn as [_ ->], (Hl x Hx) as [_ ->]. done. }
  rewrite decide_False.
  2: { rewrite Hd. intros Hj. cbn in Hj. destruct namespace, l; try done. }
  change "," with (String (byte 44) EmptyString).
  rewrite Split_join by (done || by rewrite Hd).
  clear Hd Hc. assert (∀ x, x ∈ distinct ∅ subnetEIds → plain x ∧ x ≠ EmptyString) as Hp.
  { intros x (Hx & ? & _)%Hin. split; [by apply Hl|done]. }
  clear Hin. induction (distinct ∅ subnetEIds) as [|x xs IH]; [done|]. cbn.
  destruct (Hp x) as [? ?]; [left|]. rewrite scopeEId_ref by done. f_equal.
  apply IH. intros y Hy. apply Hp. by right.
Qed.

Lemma subnet_scope_roundtrip_witness :
  let read := ParseSubnetScope {[NetPolForAnnotation := BuildSubnetScope "spx-p" ["b"; "a"; "b"]]} in
  NoDup read ∧ ∀ eid, eid ∈ read ↔ eid ∈ ["b"; "a"; "b"] ∧ eid ≠ EmptyString.
Proof.
  assert (plain "spx-p" ∧ plain "a" ∧ plain "b") as (Hp & Ha & Hb)
    by (split; [|split]; split; vm_compute; reflexivity).
  destruct (subnet_scope_roundtrip "spx-p" ["b"; "a"; "b"]
    {[NetPolForAnnotation := BuildSubnetScope "spx-p" ["b"; "a"; "b"]]} Hp) as (H1 & _ & H3).
  - vm_compute. reflexivity.
  - repeat constructor; first [apply Ha|apply Hb].
  - vm_compute. reflexivity.
  - exact (conj H1 H3).
Defined.

(** The last class of the patterns is optional, so that keys and values may end with a dash. *)
Example trailing_dash_accepted : CheckSelector "app-" "web-" = Ok tt.
Proof. vm_compute. reflexivity. Qed.
