(* ===== verification/NetPol.v ===== *)
(** * The security groups of a project, as network policies
      ([internal/superphenix-controller/internal/k8s/netpol],
      [internal/superphenix-controller/pkg/api/k8s/securitygroup.go])

    How a request becomes a NetworkPolicy, and the calls that create, update, read and delete it.
    The API server, the informer of the subnets, [go-cmp] and the Unicode case mapping are classes.
    A nil slice or map that the code tells apart is [None]. *)

From S2P Require Import Prelude Strings Strconv Quantity SpxId Labels ControllerQuota.

(** ** Requests ([types.go]) *)

Definition MaxSubnets : nat := 10.

Record SgPort := mkSgPort { sp_Port : Z; sp_EndPort : Z; sp_Protocol : string }.

Record MatchLabel := mkMatchLabel { ml_Key : string; ml_Value : string }.

Record MatchExpression := mkMatchExpression {
  me_Key : string; me_Operator : string; me_Values : option (list string) }.

Record LabelSelector := mkLabelSelector {
  ls_MatchLabels : list MatchLabel; ls_MatchExpressions : list MatchExpression }.

Record IPBlock := mkIPBlock { ib_CIDR : string; ib_Except : list string }.

Record Peer := mkPeer { p_PodSelector : LabelSelector; p_IPBlock : IPBlock }.

(** The rules of both directions: [from] or [to] is [r_Peers]. *)
Record SgRule := mkSgRule {
  r_Ports : list SgPort; r_Peers : list Peer; r_AllowAll : bool; r_DenyAll : bool }.

(** ** Objects ([k8s.io/api/networking/v1]) *)

Record KubeSelector := mkKubeSelector {
  MatchLabels : gmap string string; MatchExpressions : list MatchExpression }.

Record NetworkPolicyPort := mkNetworkPolicyPort { Protocol : string; Port : Z; EndPort : Z }.

Inductive NetworkPolicyPeer :=
  | PeerIPBlock (block : IPBlock)
  | PeerPodSelector (selector : KubeSelector).

Record NetworkPolicyRule := mkNetworkPolicyRule {
  Ports : list NetworkPolicyPort; Peers : list NetworkPolicyPeer }.

Inductive PolicyType := PolicyTypeIngress | PolicyTypeEgress.

#[export] Instance PolicyType_eq_dec : EqDecision PolicyType.
Proof. solve_decision. Defined.

Record NetworkPolicy := mkNetworkPolicy {
  np_Namespace : string; np_Name : string;
  np_Labels : gmap string string; np_Annotations : option (gmap string string);
  np_PodSelector : KubeSelector; np_PolicyTypes : list PolicyType;
  np_Ingress : list NetworkPolicyRule; np_Egress : list NetworkPolicyRule }.

Inductive NetPolError :=
  | InvalidLabel (e : LabelError)
  | InvalidMetadata (e : MetadataError)
  | ErrUnknownSubnet (eid : string)
  | ErrTooManySubnets
  | NetPolGetFailed
  | NetPolKubeError (reason : StatusReason)
  | NilMapPanic.

(** [apierrors.IsNotFound] *)
Definition IsNotFound (e : NetPolError) : bool :=
  match e with
  | InvalidLabel (ResourceNotFound _) | NetPolKubeError NotFound => true
  | _ => false
  end.

(** [cmp.Diff(a, b, cmpopts.SortSlices(<)) == ""] and [strings.ToUpper]. *)
Class NetPolLib := {
  equalIgnoreOrder : option (list string) → option (list string) → bool;
  ToUpper : string → string;
}.

Class NetPolClient (K : Type) := {
  GetNetworkPolicy : string → string → K → result StatusReason NetworkPolicy * K;
  CreateNetworkPolicy : string → NetworkPolicy → K → result StatusReason unit * K;
  UpdateNetworkPolicy : string → NetworkPolicy → K → result StatusReason unit * K;
  DeleteNetworkPolicy : string → string → K → result StatusReason unit * K;
  ListSubnet : string → K → list string;
}.

(** ** The builder ([builder.go]) *)
Section builder.
Context {NL : NetPolLib}.

(** A loop that checks selectors and adds them to the labels. *)
Definition addMatchLabels (labels : list MatchLabel) (matchLabels : gmap string string) :
    result NetPolError (gmap string string) :=
  foldM (λ matchLabels label,
    match CheckSelector (ml_Key label) (ml_Value label) with
    | Err e => Err (InvalidLabel e)
    | Ok _ => Ok (<[ml_Key label := ml_Value label]> matchLabels)
    end) matchLabels labels.

(** A loop that checks expressions, added with [add]. *)
Definition addMatchExpressions (add : list MatchExpression → MatchExpression → list MatchExpression)
    (exps matchExpressions : list MatchExpression) : result NetPolError (list MatchExpression) :=
  foldM (λ matchExpressions exp,
    match CheckExpressions (me_Key exp) (me_Operator exp) (default [] (me_Values exp)) with
    | Err e => Err (InvalidLabel e)
    | Ok _ => Ok (add matchExpressions exp)
    end) matchExpressions exps.

Definition ExpressionExistsInList (expList : list MatchExpression) (newExp : MatchExpression) : bool :=
  existsb (λ exp, bool_decide (me_Key exp = me_Key newExp ∧ me_Operator exp = me_Operator newExp) &&
    equalIgnoreOrder (me_Values exp) (me_Values newExp)) expList.

Definition ignoreNetworkPolicies : string := SpxLabelPrefix +:+ "ignoreNetworkPolicies".

Definition withPodSelection (np : NetworkPolicy) (podSelector : LabelSelector)
    (projectSpxId : string) : result NetPolError NetworkPolicy :=
  matchLabels ← addMatchLabels (ls_MatchLabels podSelector) {[SpxLabelProjectID := projectSpxId]};
  matchExpressions ← addMatchExpressions
    (λ exps exp, if ExpressionExistsInList exps exp then exps else exps ++ [exp])
    (ls_MatchExpressions podSelector)
    [mkMatchExpression ignoreNetworkPolicies LabelSelectorOpNotIn (Some ["true"])];
  Ok (mkNetworkPolicy (np_Namespace np) (np_Name np) (np_Labels np) (np_Annotations np)
    (mkKubeSelector matchLabels matchExpressions) (np_PolicyTypes np) (np_Ingress np) (np_Egress np)).

(** One peer of a rule. *)
Definition netPolPeer (projectSpxId : string) (rule : Peer) : result NetPolError NetworkPolicyPeer :=
  if decide (ib_CIDR (p_IPBlock rule) ≠ EmptyString) then Ok (PeerIPBlock (p_IPBlock rule)) else
  matchLabels ← addMatchLabels (ls_MatchLabels (p_PodSelector rule)) {[SpxLabelProjectID := projectSpxId]};
  matchExpressions ← addMatchExpressions (λ exps exp, exps ++ [exp])
    (ls_MatchExpressions (p_PodSelector rule)) [];
  Ok (PeerPodSelector (mkKubeSelector matchLabels matchExpressions)).

Definition netPolPort (port : SgPort) : NetworkPolicyPort :=
  mkNetworkPolicyPort (ToUpper (sp_Protocol port)) (sp_Port port) (sp_EndPort port).

(** The rules of one direction, and whether one of them denies all. *)
Definition netPolRules (projectSpxId : string) (rules : list SgRule) :
    result NetPolError (list NetworkPolicyRule * bool) :=
  foldM (λ '(netPolRules, denyAll) rule,
    if r_AllowAll rule then Ok (netPolRules ++ [mkNetworkPolicyRule [] []], denyAll)
    else if r_DenyAll rule then Ok (netPolRules, true)
    else
      peers ← foldM (λ peers peer, p ← netPolPeer projectSpxId peer; Ok (peers ++ [p])) [] (r_Peers rule);
      Ok (netPolRules ++ [mkNetworkPolicyRule (netPolPort <$> r_Ports rule) peers], denyAll))
    ([], false) rules.

Definition withIngress (np : NetworkPolicy) (rules : list SgRule) (projectSpxId : string) :
    result NetPolError NetworkPolicy :=
  '(ingressRules, denyAll) ← netPolRules projectSpxId rules;
  let types := if decide ((0 < length ingressRules)%nat ∨ denyAll = true)
               then np_PolicyTypes np ++ [PolicyTypeIngress] else np_PolicyTypes np in
  Ok (mkNetworkPolicy (np_Namespace np) (np_Name np) (np_Labels np) (np_Annotations np)
    (np_PodSelector np) types ingressRules (np_Egress np)).

Definition withEgress (np : NetworkPolicy) (rules : list SgRule) (projectSpxId : string) :
    result NetPolError NetworkPolicy :=
  '(egressRules, denyAll) ← netPolRules projectSpxId rules;
  let types := if decide ((0 < length egressRules)%nat ∨ denyAll = true)
               then np_PolicyTypes np ++ [PolicyTypeEgress] else np_PolicyTypes np in
  Ok (mkNetworkPolicy (np_Namespace np) (np_Name np) (np_Labels np) (np_Annotations np)
    (np_PodSelector np) types (np_Ingress np) egressRules).

Definition with_Annotations (np : NetworkPolicy) (annotations : option (gmap string string)) :
    NetworkPolicy :=
  mkNetworkPolicy (np_Namespace np) (np_Name np) (np_Labels np) annotations
    (np_PodSelector np) (np_PolicyTypes np) (np_Ingress np) (np_Egress np).

(** [available] lists the names of the subnets of the project. *)
Definition withSubnetScope (np : NetworkPolicy) (namespace : string) (subnetEIds : list string)
    (available : list string) : result NetPolError NetworkPolicy :=
  if decide (subnetEIds = []) then
    Ok (with_Annotations np (delete NetPolForAnnotation <$> np_Annotations np))
  else if decide (MaxSubnets < length subnetEIds)%nat then Err ErrTooManySubnets
  else match find (λ eid, bool_decide (eid ∉ available)) subnetEIds with
       | Some eid => Err (ErrUnknownSubnet eid)
       | None => Ok (with_Annotations np (Some (<[NetPolForAnnotation := BuildSubnetScope namespace subnetEIds]>
                   (default ∅ (np_Annotations np)))))
       end.
End builder.

(** ** The operations ([create.go], [update.go], [delete.go], [get.go]) *)

Record CreateNetPolInfo := mkCreateNetPolInfo {
  c_Metadata : Metadata; c_Description : string; c_Target : LabelSelector;
  c_Ingress : list SgRule; c_Egress : list SgRule; c_SubnetEIds : list string }.

Record UpdateNetPolInfo := mkUpdateNetPolInfo {
  u_Description : string; u_Target : LabelSelector;
  u_Ingress : list SgRule; u_Egress : list SgRule; u_SubnetEIds : list string }.

Section operations.
Context {NL : NetPolLib} {UL : UUIDLib} {K : Type} {NC : NetPolClient K}.
Context (SpxPrefix : string) (disabled : list (string * string)).

Definition descriptionAnnotation : string := SpxLabelPrefix +:+ "description".
Definition enforcementAnnotation : string := "ovn.kubernetes.io/network_policy_enforcement".

(** The selection, the rules and the scope of a policy. *)
Definition buildNetPol (np : NetworkPolicy) (target : LabelSelector) (ingress egress : list SgRule)
    (subnetEIds available : list string) (projectSpxId namespace : string) :
    result NetPolError NetworkPolicy :=
  np ← withPodSelection np target projectSpxId;
  np ← withIngress np ingress projectSpxId;
  np ← withEgress np egress projectSpxId;
  withSubnetScope np namespace subnetEIds available.

Definition NM (A : Type) : Type := K → result NetPolError A * K.

Definition CreateNetPol (info : CreateNetPolInfo) (namespace : string) : NM unit := λ k,
  match ConvertToSpxMetadata (c_Metadata info) (c_Metadata info) with
  | (_, Some e) => (Err (InvalidMetadata e), k)
  | (m, None) =>
    let projectID := ToSPXID SpxPrefix (ProjectId m) in
    let netPol := mkNetworkPolicy EmptyString (ToSPXID SpxPrefix (ResourceEffectiveId m))
      (GetLabels SpxPrefix m)
      (Some {[enforcementAnnotation := "lax"; descriptionAnnotation := c_Description info]})
      (mkKubeSelector ∅ []) [] [] [] in
    match buildNetPol netPol (c_Target info) (c_Ingress info) (c_Egress info) (c_SubnetEIds info)
            (ListSubnet projectID k) projectID namespace with
    | Err e => (Err e, k)
    | Ok netPol =>
      match CreateNetworkPolicy namespace netPol k with
      | (Err e, k) => (Err (NetPolKubeError e), k)
      | (Ok _, k) => (Ok tt, k)
      end
    end
  end.

(** The guards on an object that is about to change. *)
Definition checkEditable (np : NetworkPolicy) (namespace : string) : result NetPolError unit :=
  match CheckProjectLabel (np_Labels np) (np_Name np) namespace with
  | Err e => Err (InvalidLabel e)
  | Ok _ => match IsEditAllowed disabled (np_Labels np) with
            | Err e => Err (InvalidLabel e)
            | Ok _ => Ok tt
            end
  end.

(** The object as the request wants it; writing to a nil map panics. *)
Definition updatedNetPol (info : UpdateNetPolInfo) (np : NetworkPolicy) (available : list string)
    (namespace : string) : result NetPolError NetworkPolicy :=
  match np_Annotations np with
  | None => Err NilMapPanic
  | Some annotations =>
    let np := with_Annotations np (Some (<[descriptionAnnotation := u_Description info]> annotations)) in
    np ← withPodSelection np (u_Target info) namespace;
    let np := mkNetworkPolicy (np_Namespace np) (np_Name np) (np_Labels np) (np_Annotations np)
      (np_PodSelector np) [] (np_Ingress np) (np_Egress np) in
    np ← withIngress np (u_Ingress info) namespace;
    np ← withEgress np (u_Egress info) namespace;
    withSubnetScope np namespace (u_SubnetEIds info) available
  end.

Definition UpdateNetPol (info : UpdateNetPolInfo) (namespace name : string) : NM unit := λ k,
  match GetNetworkPolicy namespace name k with
  | (Err _, k) => (Err NetPolGetFailed, k)
  | (Ok netPol, k) =>
    match checkEditable netPol namespace with
    | Err e => (Err e, k)
    | Ok _ =>
      match updatedNetPol info netPol (ListSubnet namespace k) namespace with
      | Err e => (Err e, k)
      | Ok netPol =>
        match UpdateNetworkPolicy namespace netPol k with
        | (Err e, k) => (Err (NetPolKubeError e), k)
        | (Ok _, k) => (Ok tt, k)
        end
      end
    end
  end.

Definition DeleteNetPol (namespace name : string) : NM unit := λ k,
  match GetNetworkPolicy namespace name k with
  | (Err e, k) => (Err (NetPolKubeError e), k)
  | (Ok netPol, k) =>
    match checkEditable netPol namespace with
    | Err e => (Err e, k)
    | Ok _ =>
      match DeleteNetworkPolicy namespace name k with
      | (Err e, k) => (Err (NetPolKubeError e), k)
      | (Ok _, k) => (Ok tt, k)
      end
    end
  end.

(** The object that [view.NetPolToView] shows. *)
Definition GetNetPol (namespace name : string) : NM NetworkPolicy := λ k,
  match GetNetworkPolicy namespace name k with
  | (Err e, k) => (Err (NetPolKubeError e), k)
  | (Ok fw, k) =>
    match CheckProjectLabel (np_Labels fw) (np_Name fw) namespace with
    | Err e => (Err (InvalidLabel e), k)
    | Ok _ => (Ok fw, k)
    end
  end.

(** ** The endpoints: the status of the answer *)

Definition subnetScopeError (e : NetPolError) : bool :=
  match e with ErrUnknownSubnet _ | ErrTooManySubnets => true | _ => false end.

(** A panic counts as a 500. *)
Definition createNetPol {QL : QuantityLib} {KC : KubeClient K} (orgId projectId : string)
    (body : option CreateNetPolInfo) (k : K) : Z * K :=
  match CreateNamespaceIfNotExists SpxPrefix orgId projectId k with
  | (Err _, k) => (500, k)
  | (Ok _, k) =>
    match body with
    | None => (400, k)
    | Some info =>
      match CreateNetPol info (GetNamespace SpxPrefix projectId) k with
      | (Ok _, k) => (200, k)
      | (Err e, k) => (if subnetScopeError e then 400 else 500, k)
      end
    end
  end.

Definition updateNetPol (projectId effectiveId : string) (body : option UpdateNetPolInfo) (k : K) :
    Z * K :=
  if decide (effectiveId = EmptyString) then (400, k) else
  match body with
  | None => (400, k)
  | Some info =>
    match UpdateNetPol info (GetNamespace SpxPrefix projectId) effectiveId k with
    | (Ok _, k) => (200, k)
    | (Err e, k) => (if IsNotFound e then 404 else if subnetScopeError e then 400 else 500, k)
    end
  end.

Definition deleteNetPol (projectId effectiveId : string) (k : K) : Z * K :=
  if decide (effectiveId = EmptyString) then (400, k) else
  match DeleteNetPol (GetNamespace SpxPrefix projectId) effectiveId k with
  | (Ok _, k) => (200, k)
  | (Err e, k) => (if IsNotFound e then 404 else 500, k)
  end.

Definition getNetPol (projectId effectiveId : string) (k : K) : (Z * option NetworkPolicy) * K :=
  let namespace := GetNamespace SpxPrefix projectId in
  if decide (namespace = EmptyString) then ((400, None), k)
  else if decide (effectiveId = EmptyString) then ((400, None), k) else
  match GetNetPol namespace effectiveId k with
  | (Ok np, k) => ((200, Some np), k)
  | (Err e, k) => ((if IsNotFound e then 404 else 500, None), k)
  end.
End operations.
