(* ===== verification/NetPolTheorems.v ===== *)
(** * The theorems of the security groups

    What the network policy built from a request selects and allows, in terms of the request; the
    labels and the subnet scope read back as written; and the guards of the operations. *)

From S2P Require Import Prelude Strings Strconv Quantity SpxId Labels ControllerQuota NetPol.

(** [go-cmp] on sorted slices: both nil, or the same elements. *)
Class NetPolLaws {NL : NetPolLib} := {
  equalIgnoreOrder_spec a b : equalIgnoreOrder a b = true ↔
    match a, b with
    | None, None => True
    | Some a, Some b => a ≡ₚ b
    | _, _ => False
    end;
}.

(** ** What Kubernetes makes of the objects *)

Definition expression_holds (pod : gmap string string) (exp : MatchExpression) : Prop :=
  let values := default [] (me_Values exp) in
  if decide (me_Operator exp = LabelSelectorOpIn) then ∃ v, pod !! me_Key exp = Some v ∧ v ∈ values
  else if decide (me_Operator exp = LabelSelectorOpNotIn) then
    ∀ v, pod !! me_Key exp = Some v → v ∉ values
  else if decide (me_Operator exp = LabelSelectorOpExists) then is_Some (pod !! me_Key exp)
  else pod !! me_Key exp = None.

Definition selects (selector : KubeSelector) (pod : gmap string string) : Prop :=
  MatchLabels selector ⊆ pod ∧ Forall (expression_holds pod) (MatchExpressions selector).

(** A source or destination: the labels of a pod of the namespace, if it is one, and the IP blocks
    it is in. *)
Record endpoint := mkEndpoint { e_pod : option (gmap string string); e_in : IPBlock → Prop }.

Definition peer_matches (p : NetworkPolicyPeer) (e : endpoint) : Prop :=
  match p with
  | PeerIPBlock block => e_in e block
  | PeerPodSelector selector => ∃ pod, e_pod e = Some pod ∧ selects selector pod
  end.

Definition port_matches (p : NetworkPolicyPort) (protocol : string) (port : Z) : Prop :=
  Protocol p = protocol ∧ Port p ≤ port ≤ EndPort p.

(** A rule without ports, or without peers, does not restrict them. *)
Definition rule_allows (r : NetworkPolicyRule) (e : endpoint) (protocol : string) (port : Z) : Prop :=
  (Ports r = [] ∨ Exists (λ p, port_matches p protocol port) (Ports r)) ∧
  (Peers r = [] ∨ Exists (λ p, peer_matches p e) (Peers r)).

(** ** What a request asks for *)
Section requests.
Context {NL : NetPolLib} {NLaws : NetPolLaws}.

(** The labels of a selector, the last one of each key, over the project label. *)
Definition requestedLabels (projectSpxId : string) (selector : LabelSelector) : gmap string string :=
  list_to_map (reverse ((λ l, (ml_Key l, ml_Value l)) <$> ls_MatchLabels selector)) ∪
    {[SpxLabelProjectID := projectSpxId]}.

Definition requested (projectSpxId : string) (selector : LabelSelector) (pod : gmap string string) :
    Prop :=
  requestedLabels projectSpxId selector ⊆ pod ∧
  Forall (expression_holds pod) (ls_MatchExpressions selector).

Definition requested_peer (projectSpxId : string) (p : Peer) (e : endpoint) : Prop :=
  if decide (ib_CIDR (p_IPBlock p) = EmptyString)
  then ∃ pod, e_pod e = Some pod ∧ requested projectSpxId (p_PodSelector p) pod
  else e_in e (p_IPBlock p).

Definition requested_port (p : SgPort) (protocol : string) (port : Z) : Prop :=
  ToUpper (sp_Protocol p) = protocol ∧ sp_Port p ≤ port ≤ sp_EndPort p.

Definition requested_rule (projectSpxId : string) (r : SgRule) (e : endpoint) (protocol : string)
    (port : Z) : Prop :=
  r_AllowAll r = true ∨
  (r_DenyAll r = false ∧
   (r_Ports r = [] ∨ Exists (λ p, requested_port p protocol port) (r_Ports r)) ∧
   (r_Peers r = [] ∨ Exists (λ p, requested_peer projectSpxId p e) (r_Peers r))).

(** ** Selectors *)

Lemma addMatchLabels_Ok labels m0 m :
  addMatchLabels labels m0 = Ok m →
  m = list_to_map (reverse ((λ l, (ml_Key l, ml_Value l)) <$> labels)) ∪ m0.
Proof.
  unfold addMatchLabels. revert m0. induction labels as [|l labels IH]; intros m0; cbn [foldM].
  { intros [= <-]. symmetry. apply (left_id_L ∅ (∪)). }
  destruct (CheckSelector _ _); [|done]. cbn [mbind result_bind]. intros ->%IH.
  rewrite fmap_cons, reverse_cons, list_to_map_app, <-map_union_assoc.
  f_equal. rewrite list_to_map_cons, list_to_map_nil, insert_empty. apply insert_union_singleton_l.
Qed.

Lemma addMatchExpressions_Ok add exps l l' :
  addMatchExpressions add exps l = Ok l' → l' = fold_left add exps l.
Proof.
  unfold addMatchExpressions. revert l. induction exps as [|e exps IH]; intros l; cbn [foldM].
  { by intros [= <-]. }
  destruct (CheckExpressions _ _ _); [|done]. cbn [mbind result_bind]. apply IH.
Qed.

Lemma expression_holds_perm pod e e' :
  me_Key e = me_Key e' → me_Operator e = me_Operator e' →
  equalIgnoreOrder (me_Values e) (me_Values e') = true →
  expression_holds pod e ↔ expression_holds pod e'.
Proof.
  intros Hk Ho Hv%equalIgnoreOrder_spec. unfold expression_holds. rewrite Hk, Ho.
  assert (default [] (me_Values e) ≡ₚ default [] (me_Values e')) as Hp.
  { destruct (me_Values e), (me_Values e'); done. }
  repeat case_decide; try done.
  - split; intros (v & ? & Hin); exists v; (split; [done|]); [by rewrite <-Hp|by rewrite Hp].
  - split; intros Hall v Hv'; [rewrite <-Hp|rewrite Hp]; by apply Hall.
Qed.

(** Leaving out the expressions that are already there changes nothing. *)
Lemma add_distinct_expressions pod exps l :
  Forall (expression_holds pod)
    (fold_left (λ exps exp, if ExpressionExistsInList exps exp then exps else exps ++ [exp]) exps l) ↔
  Forall (expression_holds pod) l ∧ Forall (expression_holds pod) exps.
Proof.
  revert l. induction exps as [|e exps IH]; intros l; cbn [fold_left].
  { rewrite Forall_nil. naive_solver. }
  rewrite IH, Forall_cons. destruct (ExpressionExistsInList l e) eqn:Hex.
  - unfold ExpressionExistsInList in Hex. apply existsb_exists in Hex as (e' & Hin & Heq).
    apply andb_true_iff in Heq as [[Hk Ho]%bool_decide_eq_true Hv].
    pose proof (expression_holds_perm pod e' e Hk Ho Hv). rewrite (Forall_forall _ l).
    apply list_elem_of_In in Hin. naive_solver.
  - rewrite Forall_app, Forall_singleton. naive_solver.
Qed.

Lemma add_expressions pod exps l :
  Forall (expression_holds pod) (fold_left (λ exps exp, exps ++ [exp]) exps l) ↔
  Forall (expression_holds pod) l ∧ Forall (expression_holds pod) exps.
Proof.
  revert l. induction exps as [|e exps IH]; intros l; cbn [fold_left].
  { rewrite Forall_nil. naive_solver. }
  rewrite IH, Forall_cons, Forall_app, Forall_singleton. naive_solver.
Qed.

Lemma ignored_expression pod :
  expression_holds pod (mkMatchExpression ignoreNetworkPolicies LabelSelectorOpNotIn (Some ["true"])) ↔
  pod !! ignoreNetworkPolicies ≠ Some "true".
Proof.
  unfold expression_holds. rewrite decide_False, decide_True by done. cbn.
  setoid_rewrite list_elem_of_singleton. destruct (pod !! ignoreNetworkPolicies) as [v|]; naive_solver.
Qed.

(** The policy applies to exactly the pods of the namespace that the target asks for and that
    are not marked as ignored, whatever duplicate expressions are left out. *)
Theorem withPodSelection_selects np target projectSpxId np' pod :
  withPodSelection np target projectSpxId = Ok np' →
  selects (np_PodSelector np') pod ↔
  pod !! ignoreNetworkPolicies ≠ Some "true" ∧ requested projectSpxId target pod.
Proof.
  unfold withPodSelection.
  intros (labels & Hl%addMatchLabels_Ok & (exps & He%addMatchExpressions_Ok & [= <-])%result_bind_Ok)%result_bind_Ok.
  unfold selects, requested. cbn. rewrite Hl, He, add_distinct_expressions, Forall_singleton,
    ignored_expression. unfold requestedLabels. tauto.
Qed.

(** ** Rules *)

Lemma netPolPeer_matches projectSpxId p q e :
  netPolPeer projectSpxId p = Ok q → peer_matches q e ↔ requested_peer projectSpxId p e.
Proof.
  unfold netPolPeer, requested_peer. destruct (decide (ib_CIDR (p_IPBlock p) = EmptyString)) as [Hc|Hc].
  2: { rewrite decide_True by done. by intros [= <-]. }
  rewrite decide_False by (intros Hn; by apply Hn).
  intros (labels & Hl%addMatchLabels_Ok & (exps & He%addMatchExpressions_Ok & [= <-])%result_bind_Ok)%result_bind_Ok.
  cbn. unfold selects, requested. cbn.
  setoid_rewrite Hl. setoid_rewrite He. setoid_rewrite add_expressions. setoid_rewrite Forall_nil.
  unfold requestedLabels. naive_solver.
Qed.

Lemma netPolPeers_match projectSpxId peers l l' e :
  foldM (λ peers peer, p ← netPolPeer projectSpxId peer; Ok (peers ++ [p])) l peers = Ok l' →
  length l' = (length l + length peers)%nat ∧
  (Exists (λ p, peer_matches p e) l' ↔
   Exists (λ p, peer_matches p e) l ∨ Exists (λ p, requested_peer projectSpxId p e) peers).
Proof.
  revert l. induction peers as [|p peers IH]; intros l; cbn [foldM].
  { intros [= <-]. rewrite Exists_nil. split; [simpl; lia|naive_solver]. }
  intros (l1 & (q & Hq & [= <-])%result_bind_Ok & [Hlen Hex]%IH)%result_bind_Ok.
  rewrite length_app in Hlen. simpl in *. split; [lia|].
  rewrite Hex, Exists_app, !Exists_cons, Exists_nil, (netPolPeer_matches _ _ _ e Hq). naive_solver.
Qed.

Lemma netPolRules_allow projectSpxId rules l b l' b' e protocol port :
  foldM (λ '(netPolRules, denyAll) rule,
    if r_AllowAll rule then Ok (netPolRules ++ [mkNetworkPolicyRule [] []], denyAll)
    else if r_DenyAll rule then Ok (netPolRules, true)
    else
      peers ← foldM (λ peers peer, p ← netPolPeer projectSpxId peer; Ok (peers ++ [p])) [] (r_Peers rule);
      Ok (netPolRules ++ [mkNetworkPolicyRule (netPolPort <$> r_Ports rule) peers], denyAll))
    (l, b) rules = Ok (l', b') →
  ((0 < length l')%nat ∨ b' = true ↔ ((0 < length l)%nat ∨ b = true) ∨ rules ≠ []) ∧
  (Exists (λ r, rule_allows r e protocol port) l' ↔
   Exists (λ r, rule_allows r e protocol port) l ∨
   Exists (λ r, requested_rule projectSpxId r e protocol port) rules).
Proof.
  revert l b. induction rules as [|r rules IH]; intros l b; cbn [foldM].
  { intros [= <- <-]. rewrite Exists_nil. naive_solver. }
  intros ([l1 b1] & Hstep & [Hty Hex]%IH)%result_bind_Ok. rewrite Hty, Hex, Exists_cons.
  unfold requested_rule at 2. destruct (r_AllowAll r).
  { injection Hstep as <- <-. rewrite length_app, Exists_app, Exists_cons, Exists_nil. cbn.
    split; [intuition (try lia; done)|]. unfold rule_allows at 2; cbn. clear. intuition congruence. }
  destruct (r_DenyAll r).
  { injection Hstep as <- <-. split; [intuition (try lia; done)|]. clear. intuition congruence. }
  apply result_bind_Ok in Hstep as (peers & Hp & [= <- <-]).
  apply (netPolPeers_match _ _ _ _ e) in Hp as [Hlen Hp]. rewrite Exists_nil in Hp.
  rewrite length_app, Exists_app, Exists_cons, Exists_nil. cbn.
  split; [intuition (try lia; done)|]. unfold rule_allows at 2; cbn.
  assert (peers = [] ↔ r_Peers r = []) as -> by (rewrite <-!length_zero_iff_nil; simpl in Hlen; lia).
  assert (netPolPort <$> r_Ports r = [] ↔ r_Ports r = []) as -> by (by destruct (r_Ports r)).
  rewrite Exists_fmap, Hp. unfold port_matches, requested_port, compose. cbn. clear. intuition congruence.
Qed.

Lemma direction_allows (direction : PolicyType) types rules projectSpxId l b e protocol port :
  netPolRules projectSpxId rules = Ok (l, b) → direction ∉ types →
  (direction ∈ (if decide ((0 < length l)%nat ∨ b = true) then types ++ [direction] else types) ↔
   rules ≠ []) ∧
  (Exists (λ r, rule_allows r e protocol port) l ↔
   Exists (λ r, requested_rule projectSpxId r e protocol port) rules).
Proof.
  intros Hr Hno. apply (netPolRules_allow _ _ _ _ _ _ e protocol port) in Hr as [Hty Hex].
  rewrite Hex, Exists_nil. split; [|naive_solver].
  case_decide as Hd; rewrite Hty in Hd; simpl in Hd.
  - rewrite elem_of_app, list_elem_of_singleton. split; [|naive_solver]. intros _.
    destruct Hd as [[?|?]|?]; [lia|done|done].
  - split; [done|]. intros ?. destruct Hd. by right.
Qed.

(** ** The whole policy *)

(** What Kubernetes takes the types of a policy for: when there are none, the policy is about ingress, and
    about egress if it has an egress rule. *)
Definition isolates (np : NetworkPolicy) (direction : PolicyType) : Prop :=
  direction ∈ np_PolicyTypes np ∨ (np_PolicyTypes np = [] ∧ (direction = PolicyTypeIngress ∨ np_Egress np ≠ [])).

Definition rulesOf (np : NetworkPolicy) (direction : PolicyType) : list NetworkPolicyRule :=
  match direction with PolicyTypeIngress => np_Ingress np | PolicyTypeEgress => np_Egress np end.

(** The traffic of a selected pod, with [e] at the other end: a direction that is not isolated is open. *)
Definition lets_through (np : NetworkPolicy) (direction : PolicyType) (e : endpoint) (protocol : string) (port : Z) : Prop :=
  ¬ isolates np direction ∨ Exists (λ r, rule_allows r e protocol port) (rulesOf np direction).

(** The policy does what the rules of a request ask for. *)
Definition carries_out (ingress egress : list SgRule) (projectSpxId : string) (np : NetworkPolicy) : Prop :=
  (isolates np PolicyTypeIngress ↔ ingress ≠ [] ∨ egress = []) ∧
  (isolates np PolicyTypeEgress ↔ egress ≠ []) ∧
  ∀ e protocol port,
    (lets_through np PolicyTypeIngress e protocol port ↔
      (ingress = [] ∧ egress ≠ []) ∨ Exists (λ r, requested_rule projectSpxId r e protocol port) ingress) ∧
    (lets_through np PolicyTypeEgress e protocol port ↔
      egress = [] ∨ Exists (λ r, requested_rule projectSpxId r e protocol port) egress).

Lemma withSubnetScope_rules np namespace eids available np' :
  withSubnetScope np namespace eids available = Ok np' →
  np_PolicyTypes np' = np_PolicyTypes np ∧ np_Ingress np' = np_Ingress np ∧ np_Egress np' = np_Egress np.
Proof. unfold withSubnetScope. repeat case_match; try done; by intros [= <-]. Qed.

Lemma directions_carry_out np1 np2 np3 np4 ingress egress projectSpxId namespace eids available :
  np_PolicyTypes np1 = [] → withIngress np1 ingress projectSpxId = Ok np2 → withEgress np2 egress projectSpxId = Ok np3 →
  withSubnetScope np3 namespace eids available = Ok np4 → carries_out ingress egress projectSpxId np4.
Proof.
  intros Hno Hin Heg (Ht & Hi & He)%withSubnetScope_rules.
  unfold withIngress in Hin. apply result_bind_Ok in Hin as ([li bi] & Hri & [= <-]).
  unfold withEgress in Heg. apply result_bind_Ok in Heg as ([le be] & Hre & [= <-]). cbn in Ht, Hi, He.
  rewrite Hno in Ht. cbn [app] in Ht.
  set (types := if decide ((0 < length li)%nat ∨ bi = true) then [PolicyTypeIngress] else []) in Ht.
  assert (PolicyTypeIngress ∈ types ↔ ingress ≠ []) as Hti.
  { apply (direction_allows PolicyTypeIngress [] ingress projectSpxId li bi (mkEndpoint None (λ _, False)) EmptyString 0 Hri).
    apply not_elem_of_nil. }
  assert (PolicyTypeEgress ∉ types) as Hne 
    by (unfold types; destruct (decide _); [by intros ?%list_elem_of_singleton|by intros ?%elem_of_nil]).
  assert (PolicyTypeEgress ∈ np_PolicyTypes np4 ↔ egress ≠ []) as Hte.
  { rewrite Ht. by apply (direction_allows PolicyTypeEgress types egress projectSpxId le be (mkEndpoint None (λ _, False)) EmptyString 0 Hre). }
  assert (PolicyTypeIngress ∈ np_PolicyTypes np4 ↔ ingress ≠ []) as Hti4.
  { rewrite Ht, <-Hti. case_decide; [|done]. rewrite elem_of_app, list_elem_of_singleton. naive_solver. }
  assert (np_PolicyTypes np4 = [] ↔ ingress = [] ∧ egress = []) as Hnil.
  { split.
    - intros Heq. rewrite Heq in Hti4, Hte. rewrite elem_of_nil in Hti4, Hte.
      split; (apply dec_stable; first [exact (λ H, proj2 Hti4 H)|exact (λ H, proj2 Hte H)]).
    - intros [-> ->]. injection Hri as <- <-. injection Hre as <- <-. exact Ht. }
  assert (egress = [] → np_Egress np4 = []) as Hempty by (intros ->; injection Hre as <- <-; exact He).
  assert (isolates np4 PolicyTypeIngress ↔ ingress ≠ [] ∨ egress = []) as Hii.
  { unfold isolates. rewrite Hti4, Hnil. destruct ingress, egress; naive_solver. }
  assert (isolates np4 PolicyTypeEgress ↔ egress ≠ []) as Hie.
  { unfold isolates. rewrite Hte, Hnil. destruct egress; naive_solver. }
  split; [exact Hii|]. split; [exact Hie|]. intros e protocol port. unfold lets_through. rewrite Hii, Hie. cbn [rulesOf].
  rewrite Hi, He.
  destruct (direction_allows PolicyTypeIngress [] ingress projectSpxId li bi e protocol port Hri (not_elem_of_nil _)) as [_ ->].
  destruct (direction_allows PolicyTypeEgress [] egress projectSpxId le be e protocol port Hre (not_elem_of_nil _)) as [_ ->].
  split; [destruct ingress, egress; naive_solver|destruct egress; naive_solver].
Qed.

(** C27: a policy that is created or updated isolates the pods that it selects, as Kubernetes reads its
    types, for egress exactly when the request has an egress rule, and for ingress exactly when it has an
    ingress rule, or no rule at all. In a direction that is isolated, it lets through exactly the traffic
    that one of the rules of the request asks for: a rule that denies all adds nothing, and takes nothing
    from the others; a direction that is not isolated is open. *)
Theorem rules_allow np info target ingress egress eids available projectSpxId namespace np' :
  (np_PolicyTypes np = [] → buildNetPol np target ingress egress eids available projectSpxId namespace = Ok np' →
   carries_out ingress egress projectSpxId np') ∧
  (updatedNetPol info np available namespace = Ok np' → carries_out (u_Ingress info) (u_Egress info) namespace np').
Proof.
  split.
  - intros Hno (np1 & Hs & (np2 & Hi & (np3 & He & Hsc)%result_bind_Ok)%result_bind_Ok)%result_bind_Ok.
    eapply directions_carry_out; [|done..]. unfold withPodSelection in Hs.
    apply result_bind_Ok in Hs as (labels & _ & (exps & _ & [= <-])%result_bind_Ok). exact Hno.
  - unfold updatedNetPol. destruct (np_Annotations np) as [annotations|]; [|done].
    intros (np1 & _ & (np2 & Hi & (np3 & He & Hsc)%result_bind_Ok)%result_bind_Ok)%result_bind_Ok.
    by eapply directions_carry_out; [|exact Hi|exact He|exact Hsc].
Qed.
End requests.

(** ** The operations *)
Section operations.
Context {NL : NetPolLib} {K : Type} {NC : NetPolClient K}.
Context (SpxPrefix : string) (disabled : list (string * string)).

(** The objects that a request on the namespace may change. *)
Definition editable (np : NetworkPolicy) (namespace : string) : Prop :=
  default EmptyString (np_Labels np !! SpxLabelProjectID) = namespace ∧
  np_Labels np !! SpxLabelGitops ≠ Some "true" ∧
  np_Labels np !! "superphenix.net/generated" ≠ Some "true" ∧
  ∀ key value, (key, value) ∈ disabled → default EmptyString (np_Labels np !! key) ≠ value.

Lemma label_true (labels : gmap string string) key :
  default EmptyString (labels !! key) = "true" ↔ labels !! key = Some "true".
Proof. destruct (labels !! key); naive_solver. Qed.

Lemma checkEditable_spec np namespace :
  match checkEditable disabled np namespace with
  | Ok _ => editable np namespace
  | Err e => ¬ editable np namespace ∧
      (default EmptyString (np_Labels np !! SpxLabelProjectID) ≠ namespace → IsNotFound e = true)
  end.
Proof.
  unfold checkEditable, CheckProjectLabel, editable. case_decide as Hp; [naive_solver|].
  unfold IsEditAllowed, isEditAllowed.
  case_decide as Hg; [rewrite label_true in Hg; naive_solver|].
  case_decide as Hgen; [rewrite label_true in Hgen; naive_solver|].
  rewrite label_true in Hg, Hgen. destruct (existsb _ disabled) eqn:Hd.
  - apply existsb_exists in Hd as ([key value] & Hin%list_elem_of_In & Hv%bool_decide_eq_true).
    naive_solver.
  - split_and!; [done|naive_solver|done|]. intros key value Hin Hv.
    assert (existsb (λ '(key, value), bool_decide (default EmptyString (np_Labels np !! key) = value))
      disabled = true) as Hyes; [|congruence].
    apply existsb_exists. exists (key, value). split; [by apply list_elem_of_In|].
    by apply bool_decide_eq_true.
Qed.

(** The answer of a write. *)
Definition written (answer : result StatusReason unit * K) : result NetPolError unit * K :=
  (match answer.1 with Ok _ => Ok tt | Err e => Err (NetPolKubeError e) end, answer.2).

(** Only the network policies of the project, which are neither managed by GitOps nor generated
    nor excluded by the configuration, are changed: an update or a deletion either writes to such
    an object that it has just read, and answers as the write does, or fails without any write. *)
Theorem netpol_writes_guarded info namespace name k np k1 :
  GetNetworkPolicy namespace name k = (Ok np, k1) →
  ((∃ e, UpdateNetPol disabled info namespace name k = (Err e, k1)) ∨
   (editable np namespace ∧ ∃ np', updatedNetPol info np (ListSubnet namespace k1) namespace = Ok np' ∧
      UpdateNetPol disabled info namespace name k = written (UpdateNetworkPolicy namespace np' k1))) ∧
  ((¬ editable np namespace ∧ ∃ e, DeleteNetPol disabled namespace name k = (Err e, k1)) ∨
   (editable np namespace ∧
      DeleteNetPol disabled namespace name k = written (DeleteNetworkPolicy namespace name k1))).
Proof.
  unfold UpdateNetPol, DeleteNetPol. intros ->.
  pose proof (checkEditable_spec np namespace) as Hc.
  destruct (checkEditable disabled np namespace) as [u|e]; [|naive_solver]. split.
  - destruct (updatedNetPol info np _ namespace) as [np'|e]; [right|left; eauto].
    split; [done|]. exists np'. split; [done|]. unfold written.
    by destruct (UpdateNetworkPolicy namespace np' k1) as [[[]|e] k2].
  - right. split; [done|]. unfold written.
    by destruct (DeleteNetworkPolicy namespace name k1) as [[[]|e] k2].
Qed.

(** The policies of another project are answered as if they did not exist, by a read, an update
    and a deletion alike, and are left as they are. *)
Theorem other_project_hidden projectId effectiveId info np k k1 :
  let namespace := GetNamespace SpxPrefix projectId in
  GetNetworkPolicy namespace effectiveId k = (Ok np, k1) → effectiveId ≠ EmptyString →
  default EmptyString (np_Labels np !! SpxLabelProjectID) ≠ namespace →
  getNetPol SpxPrefix projectId effectiveId k = ((404, None), k1) ∧
  updateNetPol SpxPrefix disabled projectId effectiveId (Some info) k = (404, k1) ∧
  deleteNetPol SpxPrefix disabled projectId effectiveId k = (404, k1).
Proof.
  intros namespace Hget Hne Hl. unfold getNetPol, updateNetPol, deleteNetPol. fold namespace.
  rewrite !(decide_False (P := effectiveId = EmptyString)) by done.
  unfold GetNetPol, UpdateNetPol, DeleteNetPol. rewrite Hget.
  pose proof (checkEditable_spec np namespace) as Hc. split_and!.
  - rewrite decide_False.
    + unfold CheckProjectLabel. by rewrite decide_True.
    + unfold namespace, GetNamespace. intros Heq. destruct SpxPrefix; done.
  - destruct (checkEditable disabled np namespace) as [u|e]; [by destruct Hc|].
    destruct Hc as [_ Hnf]. by rewrite Hnf.
  - destruct (checkEditable disabled np namespace) as [u|e]; [by destruct Hc|].
    destruct Hc as [_ Hnf]. by rewrite Hnf.
Qed.

(** An update of a policy that does not exist is answered 500, a deletion 404. *)
Theorem missing_policy_statuses projectId effectiveId info k k1 :
  GetNetworkPolicy (GetNamespace SpxPrefix projectId) effectiveId k = (Err NotFound, k1) →
  effectiveId ≠ EmptyString →
  updateNetPol SpxPrefix disabled projectId effectiveId (Some info) k = (500, k1) ∧
  deleteNetPol SpxPrefix disabled projectId effectiveId k = (404, k1).
Proof.
  intros Hget Hne. unfold updateNetPol, deleteNetPol, UpdateNetPol, DeleteNetPol.
  rewrite !(decide_False (P := effectiveId = EmptyString)) by done. by rewrite Hget.
Qed.
End operations.

(** ** A namespace with two policies *)
Module NetPolSample.

#[export] Instance lib : NetPolLib := {|
  equalIgnoreOrder a b := match a, b with
    | None, None => true
    | Some a, Some b => bool_decide (merge_sort String.le a = merge_sort String.le b)
    | _, _ => false
    end;
  ToUpper := λ s, s;
|}.

#[export] Instance laws : NetPolLaws.
Proof.
  split. intros [a|] [b|]; cbn; try done. rewrite bool_decide_eq_true. split.
  - intros Heq. by rewrite <-(merge_sort_Permutation String.le a), Heq, merge_sort_Permutation.
  - intros Hp. apply (Sorted_unique String.le).
    + apply Sorted_merge_sort, _.
    + apply Sorted_merge_sort, _.
    + by rewrite !merge_sort_Permutation.
Qed.

#[export] Instance client : NetPolClient (gmap string NetworkPolicy) := {|
  GetNetworkPolicy _ name k := (match k !! name with Some np => Ok np | None => Err NotFound end, k);
  CreateNetworkPolicy _ np k := (Ok tt, <[np_Name np := np]> k);
  UpdateNetworkPolicy _ np k := (Ok tt, <[np_Name np := np]> k);
  DeleteNetworkPolicy _ name k := (Ok tt, delete name k);
  ListSubnet _ _ := ["spx-net"];
|}.

Definition policy (project name : string) : NetworkPolicy :=
  mkNetworkPolicy ("spx-" +:+ project) name {[SpxLabelProjectID := "spx-" +:+ project]}
    (Some ∅) (mkKubeSelector ∅ []) [] [] [].

Definition cluster : gmap string NetworkPolicy :=
  {["mine" := policy "p" "mine"; "other" := policy "q" "other"]}.

Definition web : LabelSelector :=
  mkLabelSelector [mkMatchLabel "app" "web"] [mkMatchExpression "tier" "In" (Some ["a"; "b"]);
    mkMatchExpression "tier" "In" (Some ["b"; "a"])].

Definition allow_web : SgRule :=
  mkSgRule [mkSgPort 80 443 "TCP"] [mkPeer web (mkIPBlock EmptyString [])] false false.

Definition deny : SgRule := mkSgRule [] [] false true.

Definition update : UpdateNetPolInfo := mkUpdateNetPolInfo "d" web [deny; allow_web] [deny] ["spx-net"].

Definition pod : gmap string string :=
  {[SpxLabelProjectID := "spx-p"; "app" := "web"; "tier" := "a"]}.

Lemma web_pod : requested "spx-p" web pod.
Proof.
  split.
  - assert (requestedLabels "spx-p" web = {["app" := "web"; SpxLabelProjectID := "spx-p"]}) as ->
      by (vm_compute; reflexivity).
    apply insert_subseteq_l; [vm_compute; reflexivity|].
    apply insert_subseteq_l; [vm_compute; reflexivity|apply map_empty_subseteq].
  - repeat constructor; exists "a"; (split; [vm_compute; reflexivity|evaluate]).
Qed.

Lemma withPodSelection_selects_witness :
  ∃ np', withPodSelection (policy "p" "mine") web "spx-p" = Ok np' ∧ selects (np_PodSelector np') pod.
Proof.
  destruct (withPodSelection (policy "p" "mine") web "spx-p") as [np'|e] eqn:Hrun;
    [|vm_compute in Hrun; discriminate Hrun].
  exists np'. split; [reflexivity|].
  apply (proj2 (withPodSelection_selects (policy "p" "mine") web "spx-p" np' pod Hrun)).
  assert (pod !! ignoreNetworkPolicies = None) as Hno by (vm_compute; reflexivity).
  split; [rewrite Hno; discriminate|exact web_pod].
Defined.

Lemma rules_allow_witness :
  ∃ np', buildNetPol (mkNetworkPolicy "p" "mine" ∅ (Some ∅) (mkKubeSelector ∅ []) [] [] []) web [deny; allow_web] [] [] [] "spx-p" "p" = Ok np' ∧
    isolates np' PolicyTypeIngress ∧ ¬ isolates np' PolicyTypeEgress ∧
    lets_through np' PolicyTypeIngress (mkEndpoint (Some pod) (λ _, False)) "TCP" 80.
Proof.
  destruct (buildNetPol (mkNetworkPolicy "p" "mine" ∅ (Some ∅) (mkKubeSelector ∅ []) [] [] []) web [deny; allow_web] [] [] [] "spx-p" "p") as [np'|e] eqn:Hrun;
    [|vm_compute in Hrun; discriminate Hrun].
  destruct (proj1 (rules_allow (mkNetworkPolicy "p" "mine" ∅ (Some ∅) (mkKubeSelector ∅ []) [] [] []) update web [deny; allow_web] [] [] [] "spx-p" "p" np')
    eq_refl Hrun) as (Hi & He & Hl).
  exists np'. split; [reflexivity|]. split; [apply Hi; left; discriminate|]. split; [intros H; by apply He in H|].
  apply Hl. right. right. left. right. split; [reflexivity|]. split.
  - right. left. split; [reflexivity|]. split; intros Heq; discriminate Heq.
  - right. left. exists pod. split; [reflexivity|exact web_pod].
Defined.

Lemma netpol_writes_guarded_witness :
  editable [] (policy "p" "mine") "spx-p" ∧
  DeleteNetPol [] "spx-p" "mine" cluster = (Ok tt, delete "mine" cluster).
Proof.
  assert (GetNetworkPolicy "spx-p" "mine" cluster = (Ok (policy "p" "mine"), cluster)) as Hget
    by (vm_compute; reflexivity).
  destruct (proj2 (netpol_writes_guarded [] update "spx-p" "mine" cluster _ _ Hget)) as [[Hno _]|H].
  - destruct Hno. split; [vm_compute; reflexivity|]. split; [vm_compute; discriminate|].
    split; [vm_compute; discriminate|]. intros key value Hin. inversion Hin.
  - exact H.
Defined.

Lemma other_project_hidden_witness :
  updateNetPol "spx" [] "p" "other" (Some update) cluster = (404, cluster).
Proof.
  assert (GetNetworkPolicy (GetNamespace "spx" "p") "other" cluster = (Ok (policy "q" "other"), cluster))
    as Hget by (vm_compute; reflexivity).
  apply (other_project_hidden "spx" [] "p" "other" update _ cluster cluster Hget);
    vm_compute; discriminate.
Defined.

(** The update of a policy that has no annotation at all panics, and writes nothing. *)
Definition bare_policy : NetworkPolicy :=
  mkNetworkPolicy "spx-p" "bare" {[SpxLabelProjectID := "spx-p"]} None (mkKubeSelector ∅ []) [] [] [].

Example nil_annotations_panic :
  let k := <["bare" := bare_policy]> cluster in
  match UpdateNetPol [] update "spx-p" "bare" k with
  | (Err NilMapPanic, k') => k' = k
  | _ => False
  end.
Proof. vm_compute. reflexivity. Qed.
End NetPolSample.
