(* ===== verification/Operator.v ===== *)
(** * The objects of the operator ([api/operator/v1alpha1/cluster_types.go])

    The Cluster resource, its conditions, and what the reconcilers of
    [internal/superphenix-operator] call: the API server, the unstructured ArgoCD Applications,
    the clock and the semantic versions, as classes. A time is a number of nanoseconds, 0 being the
    zero time; a nil pointer or map is [None]. *)

From S2P Require Import Prelude Strings.

(** ** Errors *)

(** [apierrors.IsNotFound] and [meta.IsNoMatchError], which see through [%w]. *)
Inductive ErrorKind := KindNotFound | KindNoMatch | KindOther.

#[export] Instance ErrorKind_eq_dec : EqDecision ErrorKind.
Proof. solve_decision. Defined.

Record OpError := mkOpError { oe_kind : ErrorKind; oe_text : string }.

(** [fmt.Errorf("<prefix>%w", err)] *)
Definition wrap (prefix : string) (err : OpError) : OpError :=
  mkOpError (oe_kind err) (prefix +:+ oe_text err).

Definition Errorf (text : string) : OpError := mkOpError KindOther text.

Definition op_IsNotFound (err : OpError) : bool := bool_decide (oe_kind err = KindNotFound).

(** ** Conditions *)

Inductive ConditionStatus := ConditionTrue | ConditionFalse | ConditionUnknown.

#[export] Instance ConditionStatus_eq_dec : EqDecision ConditionStatus.
Proof. solve_decision. Defined.

Record Condition := mkCondition {
  c_Type : string; c_Status : ConditionStatus; c_Reason : string; c_Message : string;
  c_ObservedGeneration : Z; c_LastTransitionTime : Z }.

#[export] Instance Condition_eq_dec : EqDecision Condition.
Proof. solve_decision. Defined.

(** A condition as the code writes it, the other fields being zero. *)
Definition condition (type : string) (status : ConditionStatus) (reason message : string) : Condition :=
  mkCondition type status reason message 0 0.

Definition ConditionTypeReachable : string := "Reachable".
Definition ReasonConnectionFailed : string := "ConnectionFailed".
Definition ReasonSecretNotFound : string := "SecretNotFound".
Definition ReasonInvalidSecret : string := "InvalidSecret".
Definition ReasonConnectionConfigError : string := "ConnectionConfigError".
Definition ReasonInvalidVersion : string := "InvalidVersion".
Definition ConditionTypeCompatibleVersion : string := "CompatibleVersion".
Definition ReasonCompatibleVersion : string := "CompatibleVersion".
Definition ReasonIncompatibleVersion : string := "IncompatibleVersion".
Definition ConditionTypeArgoCDSynced : string := "ArgoCDSynced".
Definition ReasonArgoCDSynced : string := "ArgoCDSynced".
Definition ReasonArgoCDOutOfSync : string := "ArgoCDOutOfSync".
Definition ReasonArgoCDSyncFailed : string := "ArgoCDSyncFailed".
Definition ReasonArgoCDUnknown : string := "ArgoCDUnknown".
Definition ReasonArgoCDSyncing : string := "ArgoCDSyncing".
Definition ConditionTypeReady : string := "Ready".
Definition ReasonReconcileSuccess : string := "ReconcileSuccess".
Definition ReasonHealthCheckFailed : string := "HealthCheckFailed".
Definition ReasonConfigMapReconcileFailed : string := "ConfigMapReconcileFailed".
Definition ReasonConfigMapCleanupFailed : string := "ConfigMapCleanupFailed".
Definition ConditionTypePaused : string := "Paused".
Definition ReasonPaused : string := "Paused".

(** ** The Cluster *)

Definition DeploymentTopologyHyperconverged : string := "Hyperconverged".
Definition DeploymentTopologyDecoupled : string := "Decoupled".
Definition ClusterTypeStorage : string := "Storage".
Definition ClusterTypeWorkload : string := "Workload".
Definition ClusterTypeManagement : string := "Management".

Record ClusterLifecycleSpec := mkClusterLifecycleSpec {
  Pause : bool; Manual : bool; CleanupOnDeletion : bool }.

Record SystemLocationSpec := mkSystemLocationSpec { RepoURL : string; ChartName : string }.

Record SecretReference := mkSecretReference { sr_Name : string; sr_Namespace : string }.

Record ClusterConnectionSpec := mkClusterConnectionSpec {
  Mode : string; URL : string; SecretRef : option SecretReference }.

(** The two configurations are JSON texts. *)
Record ClusterSpec := mkClusterSpec {
  DeploymentTopology : string; ClusterType : option string; TalosManagementMode : string;
  TalosManagerConfiguration : option string; Region : string; AvailabilityZone : string;
  SystemConfiguration : option string; SystemLocation : option SystemLocationSpec;
  Spec_Version : string; Connection : option ClusterConnectionSpec;
  Lifecycle : option ClusterLifecycleSpec }.

Record ClusterApp := mkClusterApp {
  app_Name : string; app_Status : string; app_LastRefresh : option Z; app_LastSync : option Z;
  app_Version : string }.

Record ClusterStatus := mkClusterStatus {
  Phase : string; SuperphenixVersion : string; KubernetesVersion : string; NodeCount : Z;
  Apps : option (gmap string ClusterApp); CephClusters : option (gmap string string);
  Conditions : list Condition; ObservedGeneration : Z; LastSync : option Z; PXESetupDone : list string }.

Record Cluster := mkCluster {
  cl_Name : string; cl_Namespace : string; cl_Generation : Z; cl_Deleting : bool;
  cl_Finalizers : list string; Spec : ClusterSpec; Status : ClusterStatus }.

(** [Spec.Lifecycle != nil && Spec.Lifecycle.Pause], and the same for the other fields. *)
Definition paused (c : Cluster) : bool :=
  match Lifecycle (Spec c) with Some l => Pause l | None => false end.
Definition manual (c : Cluster) : bool :=
  match Lifecycle (Spec c) with Some l => Manual l | None => false end.

Definition with_Status (c : Cluster) (s : ClusterStatus) : Cluster :=
  mkCluster (cl_Name c) (cl_Namespace c) (cl_Generation c) (cl_Deleting c) (cl_Finalizers c) (Spec c) s.

Definition with_Finalizers (c : Cluster) (fs : list string) : Cluster :=
  mkCluster (cl_Name c) (cl_Namespace c) (cl_Generation c) (cl_Deleting c) fs (Spec c) (Status c).

Definition set_Phase (phase : string) (s : ClusterStatus) : ClusterStatus :=
  mkClusterStatus phase (SuperphenixVersion s) (KubernetesVersion s) (NodeCount s) (Apps s)
    (CephClusters s) (Conditions s) (ObservedGeneration s) (LastSync s) (PXESetupDone s).
Definition set_SuperphenixVersion (v : string) (s : ClusterStatus) : ClusterStatus :=
  mkClusterStatus (Phase s) v (KubernetesVersion s) (NodeCount s) (Apps s)
    (CephClusters s) (Conditions s) (ObservedGeneration s) (LastSync s) (PXESetupDone s).
Definition set_KubernetesVersion (v : string) (s : ClusterStatus) : ClusterStatus :=
  mkClusterStatus (Phase s) (SuperphenixVersion s) v (NodeCount s) (Apps s)
    (CephClusters s) (Conditions s) (ObservedGeneration s) (LastSync s) (PXESetupDone s).
Definition set_NodeCount (n : Z) (s : ClusterStatus) : ClusterStatus :=
  mkClusterStatus (Phase s) (SuperphenixVersion s) (KubernetesVersion s) n (Apps s)
    (CephClusters s) (Conditions s) (ObservedGeneration s) (LastSync s) (PXESetupDone s).
Definition set_Apps (apps : option (gmap string ClusterApp)) (s : ClusterStatus) : ClusterStatus :=
  mkClusterStatus (Phase s) (SuperphenixVersion s) (KubernetesVersion s) (NodeCount s) apps
    (CephClusters s) (Conditions s) (ObservedGeneration s) (LastSync s) (PXESetupDone s).
Definition set_CephClusters (ceph : option (gmap string string)) (s : ClusterStatus) : ClusterStatus :=
  mkClusterStatus (Phase s) (SuperphenixVersion s) (KubernetesVersion s) (NodeCount s) (Apps s)
    ceph (Conditions s) (ObservedGeneration s) (LastSync s) (PXESetupDone s).
Definition set_Conditions (cs : list Condition) (s : ClusterStatus) : ClusterStatus :=
  mkClusterStatus (Phase s) (SuperphenixVersion s) (KubernetesVersion s) (NodeCount s) (Apps s)
    (CephClusters s) cs (ObservedGeneration s) (LastSync s) (PXESetupDone s).
Definition set_Observed (generation : Z) (lastSync : option Z) (s : ClusterStatus) : ClusterStatus :=
  mkClusterStatus (Phase s) (SuperphenixVersion s) (KubernetesVersion s) (NodeCount s) (Apps s)
    (CephClusters s) (Conditions s) generation lastSync (PXESetupDone s).

(** ** What the operator calls *)

(** [unstructured.Unstructured]: [None] when the field is absent or of another type; in a slice,
    an element that is not a map is [None]. *)
Class Unstructured (U : Type) := {
  GetName : U → string;
  NestedString : U → list string → option string;
  NestedSlice : U → list string → option (list (option U));
  SetNestedString : U → string → list string → option U;
  SetSyncOperation : U → option U;  (* [SetNestedMap] of an empty [sync] under [operation] *)
}.

(** [time.Parse(time.RFC3339, _)] and [strconv.Quote]. *)
Class GoText := { ParseRFC3339 : string → option Z; Quote : string → string }.

(** [github.com/Masterminds/semver]: versions, constraints, their errors. *)
Class Semver := {
  SemVersion : Type;
  SemConstraints : Type;
  NewVersion : string → result OpError SemVersion;
  NewConstraint : string → result OpError SemConstraints;
  Check : SemConstraints → SemVersion → bool;
}.

(** The API server: Applications by name in a namespace, or by a label; the patches, a base and the
    object to become, which answer with the object they leave; the ConfigMaps, by their data; the
    mapping of the ArgoCD kinds; and the clock. *)
Class OperatorClient (K U : Type) := {
  GetApplication : string → string → K → result OpError U * K;
  ListApplications : string → string → string → K → result OpError (list U) * K;
  PatchApplication : U → U → K → result OpError U * K;
  PatchApplicationStatus : U → U → K → result OpError U * K;
  ClearOperation : U → K → result OpError U * K;
  PatchClusterStatus : Cluster → Cluster → K → result OpError unit * K;
  UpdateCluster : Cluster → K → result OpError unit * K;
  GetCluster : string → string → K → result OpError Cluster * K;
  GetConfigMap : string → string → K → result OpError (option (gmap string string)) * K;
  CreateConfigMap : string → string → gmap string string → K → result OpError unit * K;
  UpdateConfigMap : string → string → gmap string string → K → result OpError unit * K;
  RESTMapping : string → K → result OpError unit * K;
  Now : K → Z;
}.

(** * Versions of clusters and of the management
      ([internal/superphenix-operator/version/compatibility.go],
      [internal/superphenix-operator/cluster/validation.go])

    Which versions and topologies a cluster may have. The bounds, which are variables set at build
    time, are arguments. *)

Definition ManagementAppName : string := "management".
Definition ClusterLabel : string := "operator.superphenix.net/clusterName".

Section versions.
Context {GT : GoText} {SV : Semver}.
Context (MinOperatorVersion MinClusterVersion MaxClusterVersion : string).

(** Whether the version satisfies the constraint. *)
Definition checkConstraint (versionString constraintString : string) : result OpError bool :=
  match NewVersion versionString with
  | Err err => Err (wrap ("invalid version " +:+ Quote versionString +:+ ": ") err)
  | Ok v =>
    match NewConstraint constraintString with
    | Err err => Err (wrap ("invalid constraint " +:+ Quote constraintString +:+ ": ") err)
    | Ok constraint => Ok (Check constraint v)
    end
  end.

Definition IsOperatorUpgradeSupported (current target : string) : result OpError unit :=
  if decide (current = EmptyString ∨ current = "0.0.0" ∨ target = "0.0.0") then Ok tt else
  let constraint := ">= " +:+ MinOperatorVersion in
  let unsupported := "management upgrade from " +:+ current +:+ " to " +:+ target +:+ " is not supported" in
  match checkConstraint current constraint with
  | Err err => Err (wrap (unsupported +:+ ": ") err)
  | Ok false => Err (Errorf (unsupported +:+ " (must satisfy: " +:+ constraint +:+ ")"))
  | Ok true => Ok tt
  end.

Definition clusterConstraint : string := ">= " +:+ MinClusterVersion +:+ ", < " +:+ MaxClusterVersion.

Definition IsClusterUpgradeSupported (current target : string) : result OpError unit :=
  if decide (current = EmptyString ∨ target = EmptyString ∨ current = target) then Ok tt
  else if decide (current = "0.0.0" ∨ target = "0.0.0") then Ok tt else
  let unsupported := "cluster upgrade from " +:+ current +:+ " to " +:+ target +:+ " is not supported: " in
  let outside (which v : string) := unsupported +:+ which +:+ " version " +:+ v +:+
    " is outside supported range (" +:+ clusterConstraint +:+ ")" in
  match checkConstraint current clusterConstraint with
  | Err err => Err (wrap unsupported err)
  | Ok false => Err (Errorf (outside "current" current))
  | Ok true =>
    match checkConstraint target clusterConstraint with
    | Err err => Err (wrap unsupported err)
    | Ok false => Err (Errorf (outside "target" target))
    | Ok true => Ok tt
    end
  end.

Definition IsClusterCompatibleWithOperator (clusterVersion managementVersion : string) :
    result OpError unit :=
  if decide (managementVersion = EmptyString ∨ managementVersion = "0.0.0" ∨
      clusterVersion = EmptyString ∨ clusterVersion = "0.0.0") then Ok tt else
  match checkConstraint clusterVersion clusterConstraint with
  | Err err => Err (wrap "cluster compatibility check failed: " err)
  | Ok false => Err (Errorf ("cluster version " +:+ clusterVersion +:+
      " is not supported by management version " +:+ managementVersion +:+
      " (required: " +:+ clusterConstraint +:+ ")"))
  | Ok true => Ok tt
  end.

Context {K U : Type} {UN : Unstructured U} {OC : OperatorClient K U}.

(** Empty when the Application does not exist or has no version. *)
Definition GetApplicationVersion (name namespace : string) (k : K) : result OpError string * K :=
  match GetApplication name namespace k with
  | (Err err, k) =>
    if decide (oe_kind err = KindNotFound ∨ oe_kind err = KindNoMatch) then (Ok EmptyString, k)
    else (Err err, k)
  | (Ok app, k) => (Ok (default EmptyString (NestedString app ["spec"; "source"; "targetRevision"])), k)
  end.

Definition GetCurrentManagementVersion (operatorNamespace : string) :=
  GetApplicationVersion ManagementAppName operatorNamespace.

Definition GetCurrentClusterVersion (clusterName operatorNamespace : string) :=
  GetApplicationVersion clusterName operatorNamespace.

(** ** Validation of a cluster *)

Context (OperatorNamespace : string) (DisableVersionValidation : bool).

Definition validateTopology (cluster : Cluster) : result OpError unit :=
  let topology := DeploymentTopology (Spec cluster) in
  let clusterType := ClusterType (Spec cluster) in
  if decide (topology = EmptyString) then
    if decide (clusterType = Some ClusterTypeManagement) then Ok tt
    else Err (Errorf "cluster type must be Management when topology is empty")
  else if decide (topology = DeploymentTopologyDecoupled) then
    if decide (clusterType = Some ClusterTypeStorage ∨ clusterType = Some ClusterTypeWorkload) then Ok tt
    else Err (Errorf "cluster type must be Storage or Workload when topology is Decoupled")
  else Ok tt.

Definition validateManagementCompatibility (cluster : Cluster) (k : K) : result OpError unit * K :=
  if decide (ClusterType (Spec cluster) = Some ClusterTypeManagement) then (Ok tt, k) else
  match GetCurrentManagementVersion OperatorNamespace k with
  | (Err err, k) => (Err (wrap "failed to get management version: " err), k)
  | (Ok mgmtVersion, k) =>
    if decide (mgmtVersion = EmptyString) then (Ok tt, k)
    else (IsClusterCompatibleWithOperator (Spec_Version (Spec cluster)) mgmtVersion, k)
  end.

Definition validateUpgradePath (cluster : Cluster) (k : K) : result OpError unit * K :=
  let specVersion := Spec_Version (Spec cluster) in
  match GetCurrentClusterVersion (cl_Name cluster) OperatorNamespace k with
  | (Err err, k) => (Err (wrap "failed to get current cluster version: " err), k)
  | (Ok currentVersion, k) =>
    if decide (ClusterType (Spec cluster) = Some ClusterTypeManagement)
    then (IsOperatorUpgradeSupported currentVersion specVersion, k)
    else (IsClusterUpgradeSupported currentVersion specVersion, k)
  end.

Definition validate (cluster : Cluster) (k : K) : result OpError unit * K :=
  match validateTopology cluster with
  | Err err => (Err err, k)
  | Ok _ =>
    if DisableVersionValidation then (Ok tt, k) else
    match validateManagementCompatibility cluster k with
    | (Err err, k) => (Err err, k)
    | (Ok _, k) =>
      match validateUpgradePath cluster k with
      | (Err err, k) => (Err err, k)
      | (Ok _, k) => (Ok tt, k)
      end
    end
  end.
End versions.
