(* ===== verification/ClusterStatus.v ===== *)
(** * The status of a cluster ([internal/superphenix-operator/cluster/status.go])

    The phase, the conditions and the applications that a reconciliation reports for a cluster.
    The functions that change the status in place take it and return it. *)

From S2P Require Import Prelude Strings Operator.
(** ** Conditions *)

(** The same status, reason and message. *)
Definition same_condition (c d : Condition) : Prop :=
  c_Status c = c_Status d ∧ c_Reason c = c_Reason d ∧ c_Message c = c_Message d.

#[export] Instance same_condition_dec c d : Decision (same_condition c d).
Proof. unfold same_condition. apply _. Defined.

Fixpoint setCondition (conditions : list Condition) (newCondition : Condition) : list Condition :=
  match conditions with
  | [] => [newCondition]
  | c :: conditions =>
    if decide (c_Type c = c_Type newCondition) then
      if decide (same_condition c newCondition) then c :: conditions else newCondition :: conditions
    else c :: setCondition conditions newCondition
  end.

(** The first condition of the type, as the loops of the code look for it. *)
Definition findCondition (type : string) (conditions : list Condition) : option Condition :=
  find (λ c, bool_decide (c_Type c = type)) conditions.

Definition isSynced (conditions : list Condition) : bool :=
  existsb (λ c, bool_decide (c_Type c = ConditionTypeArgoCDSynced ∧ c_Status c = ConditionTrue))
    conditions.

Definition add_condition (c : Condition) (s : ClusterStatus) : ClusterStatus :=
  set_Conditions (setCondition (Conditions s) c) s.

(** ** The Application *)

Section status.
Context {GT : GoText} {SV : Semver} {K U : Type} {UN : Unstructured U} {OC : OperatorClient K U}.
Context (MinClusterVersion MaxClusterVersion OperatorNamespace : string).

(** The condition of a sync status: status, reason, message and phase. *)
Definition syncCondition (syncStatus phase : string) : ConditionStatus * string * string * string :=
  if decide (syncStatus = "Synced") then
    (ConditionTrue, ReasonArgoCDSynced, "ArgoCD Application is synced", "Deployed")
  else if decide (syncStatus = "OutOfSync") then
    (ConditionFalse, ReasonArgoCDOutOfSync, "ArgoCD Application is out of sync", "OutOfSync")
  else if decide (syncStatus = "Unknown") then
    (ConditionUnknown, ReasonArgoCDUnknown, "ArgoCD Application status is unknown", "Unknown")
  else if decide (syncStatus = "Syncing") then
    (ConditionFalse, ReasonArgoCDSyncing, "ArgoCD Application is syncing", "Deploying")
  else if decide (syncStatus = EmptyString) then
    (ConditionUnknown, ReasonArgoCDUnknown, "ArgoCD Application sync status is not yet available",
     if decide (phase = EmptyString) then "Unknown" else phase)
  else (ConditionFalse, ReasonArgoCDSyncFailed, "ArgoCD Application sync status: " +:+ syncStatus, "Error").

(** The same, with the health of the Application. *)
Definition healthCondition (healthStatus syncStatus phase : string) :
    ConditionStatus * string * string * string :=
  let '(status, reason, message, phase) := syncCondition syncStatus phase in
  let withHealth := message +:+ " (Health: " +:+ healthStatus +:+ ")" in
  if decide (healthStatus = "Degraded") then
    (ConditionFalse, ReasonHealthCheckFailed, withHealth, "Error")
  else if decide (healthStatus = "Suspended" ∨ healthStatus = "Missing") then
    (ConditionUnknown, reason, withHealth, "Unknown")
  else (status, reason, message, phase).

Definition applyApplicationStatus (s : ClusterStatus) (app : U) : ClusterStatus :=
  let healthStatus := default EmptyString (NestedString app ["status"; "health"; "status"]) in
  let syncStatus := default EmptyString (NestedString app ["status"; "sync"; "status"]) in
  let '(status, reason, message, phase) := healthCondition healthStatus syncStatus (Phase s) in
  set_Phase phase (add_condition (condition ConditionTypeArgoCDSynced status reason message) s).

(** ** The Ready condition *)

(** Ready, unless an error has already made the condition false. *)
Definition initialReady (reconcileErr : option OpError) (readyCond : option Condition) :
    ConditionStatus * string * string :=
  match reconcileErr, readyCond with
  | Some _, Some c =>
    if decide (c_Status c = ConditionFalse) then (c_Status c, c_Reason c, c_Message c)
    else (ConditionTrue, ReasonReconcileSuccess, "Cluster is ready")
  | _, _ => (ConditionTrue, ReasonReconcileSuccess, "Cluster is ready")
  end.

(** The status, the reason and the message of the Ready condition. *)
Definition readyCondition (reconcileErr : option OpError) (conditions : list Condition) :
    ConditionStatus * string * string :=
  let reachableCond := findCondition ConditionTypeReachable conditions in
  let reachable := match reachableCond with
    | Some c => bool_decide (c_Status c = ConditionTrue)
    | None => false
    end in
  let argoSyncedCond := findCondition ConditionTypeArgoCDSynced conditions in
  let compatibleCond := findCondition ConditionTypeCompatibleVersion conditions in
  let readyCond := findCondition ConditionTypeReady conditions in
  let '(readyStatus, readyReason, readyMessage) := initialReady reconcileErr readyCond in
    if negb reachable then
      (ConditionFalse, ReasonConnectionFailed,
       match reachableCond with
       | Some c => if decide (c_Message c ≠ EmptyString)
                   then "Cluster is unreachable: " +:+ c_Message c else "Cluster is unreachable"
       | None => "Cluster is unreachable"
       end)
    else match compatibleCond, argoSyncedCond with
         | Some c, _ =>
           if decide (c_Status c = ConditionFalse) then (ConditionFalse, c_Reason c, c_Message c)
           else match argoSyncedCond with
                | Some a =>
                  if decide (c_Status a ≠ ConditionTrue ∧ readyStatus ≠ ConditionFalse)
                  then (c_Status a, c_Reason a, c_Message a)
                  else (readyStatus, readyReason, readyMessage)
                | None => (readyStatus, readyReason, readyMessage)
                end
         | None, Some a =>
           if decide (c_Status a ≠ ConditionTrue ∧ readyStatus ≠ ConditionFalse)
           then (c_Status a, c_Reason a, c_Message a)
           else (readyStatus, readyReason, readyMessage)
         | None, None => (readyStatus, readyReason, readyMessage)
         end.

Definition updateReadyCondition (reconcileErr : option OpError) (s : ClusterStatus) : ClusterStatus :=
  let '(readyStatus, readyReason, readyMessage) := readyCondition reconcileErr (Conditions s) in
  add_condition (condition ConditionTypeReady readyStatus readyReason readyMessage) s.

(** ** The compatibility *)

Definition updateCompatibilityCondition (cluster : Cluster) (s : ClusterStatus) (k : K) :
    ClusterStatus * K :=
  match GetCurrentManagementVersion OperatorNamespace k with
  | (Err err, k) =>
    (add_condition (condition ConditionTypeCompatibleVersion ConditionUnknown "ManagementVersionUnknown"
       ("Failed to get management version: " +:+ oe_text err)) s, k)
  | (Ok mgmtVersion, k) =>
    if decide (mgmtVersion = EmptyString) then
      (add_condition (condition ConditionTypeCompatibleVersion ConditionTrue ReasonCompatibleVersion
         "Management version could not be determined, assuming compatible") s, k)
    else
      (add_condition
        match IsClusterCompatibleWithOperator MinClusterVersion MaxClusterVersion
                (Spec_Version (Spec cluster)) mgmtVersion with
        | Err err => condition ConditionTypeCompatibleVersion ConditionFalse ReasonIncompatibleVersion
                       (oe_text err)
        | Ok _ => condition ConditionTypeCompatibleVersion ConditionTrue ReasonCompatibleVersion
                    "Cluster version is compatible with management version"
        end s, k)
  end.

(** ** The applications of the cluster *)

Definition applicationTargetRevision (app : U) : string :=
  let rev := default EmptyString (NestedString app ["spec"; "source"; "targetRevision"]) in
  if decide (rev ≠ EmptyString) then rev else
  match NestedSlice app ["spec"; "sources"] with
  | Some (Some first :: _) => default EmptyString (NestedString first ["targetRevision"])
  | _ => EmptyString
  end.

Definition buildClusterApp (app : U) : ClusterApp :=
  let time (path : list string) :=
    let text := default EmptyString (NestedString app path) in
    if decide (text ≠ EmptyString) then ParseRFC3339 text else None in
  mkClusterApp (GetName app) (default EmptyString (NestedString app ["status"; "health"; "status"]))
    (time ["status"; "reconciledAt"]) (time ["status"; "operationState"; "finishedAt"])
    (applicationTargetRevision app).

Definition listSubApplications (cluster : Cluster) (k : K) : result OpError (list U) * K :=
  match ListApplications OperatorNamespace ClusterLabel (cl_Name cluster) k with
  | (Err err, k) =>
    (Err (wrap ("failed to list sub-applications for cluster " +:+ cl_Name cluster +:+ ": ") err), k)
  | (Ok apps, k) => (Ok apps, k)
  end.

Definition updateAppsStatus (cluster : Cluster) (s : ClusterStatus) (k : K) : ClusterStatus * K :=
  match listSubApplications cluster k with
  | (Err _, k) => (s, k)
  | (Ok subApps, k) =>
    let apps := fold_left (λ apps app,
      if decide (GetName app = EmptyString ∨ GetName app = cl_Name cluster) then apps
      else <[GetName app := buildClusterApp app]> apps) subApps (∅ : gmap string ClusterApp) in
    (set_Apps (if decide (apps = ∅) then None else Some apps) s, k)
  end.

(** ** The status of a reconciliation *)

(** The reason and the type of the condition of an error. *)
Definition errorCondition (err : OpError) : string * string :=
  if Contains (oe_text err) "not supported" then (ReasonInvalidVersion, ConditionTypeReady)
  else if Contains (oe_text err) "connection.secretRef is required" then
    (ReasonConnectionConfigError, ConditionTypeReachable)
  else if Contains (oe_text err) "invalid secret" then (ReasonInvalidSecret, ConditionTypeReachable)
  else if op_IsNotFound err || Contains (oe_text err) "not found" then
    (ReasonSecretNotFound, ConditionTypeReachable)
  else if Contains (oe_text err) "failed to reconcile clusters ConfigMap" then
    (ReasonConfigMapReconcileFailed, ConditionTypeReady)
  else if Contains (oe_text err) "failed to remove cluster from configmap" then
    (ReasonConfigMapCleanupFailed, ConditionTypeReady)
  else (ReasonHealthCheckFailed, ConditionTypeReady).

Definition setErrorConditions (reconcileErr : option OpError) (s : ClusterStatus) : ClusterStatus :=
  match reconcileErr with
  | None => s
  | Some err =>
    let '(reason, condType) := errorCondition err in
    let s := add_condition (condition condType ConditionFalse reason (oe_text err)) s in
    if decide (condType = ConditionTypeReachable)
    then add_condition (condition ConditionTypeReady ConditionFalse reason (oe_text err)) s
    else s
  end.

(** The phase, from the status so far. *)
Definition nextPhase (cluster : Cluster) (reconcileErr : option OpError) (s : ClusterStatus) : string :=
  let phase := if decide (Phase s = EmptyString ∨ Phase s = "Unknown") then "Deploying" else Phase s in
  let phase :=
    match reconcileErr with
    | Some _ => "Error"
    | None =>
      if paused cluster then "Paused"
      else if isSynced (Conditions s) then "Deployed"
      else if decide (Phase s ≠ EmptyString) then Phase s else phase
    end in
  if decide (phase = "Deployed" ∧ SuperphenixVersion s ≠ Spec_Version (Spec cluster) ∧
      SuperphenixVersion s ≠ EmptyString)
  then "Deploying" else phase.

(** The times of the conditions: kept from the condition that has not changed, [now] otherwise. *)
Definition setTransitionTimes (generation now : Z) (old conditions : list Condition) : list Condition :=
  (λ c,
    let time := match findCondition (c_Type c) old with
                | Some oldC =>
                  if decide (same_condition oldC c ∧ c_LastTransitionTime oldC ≠ 0)
                  then c_LastTransitionTime oldC else now
                | None => now
                end in
    mkCondition (c_Type c) (c_Status c) (c_Reason c) (c_Message c) generation time) <$> conditions.

Definition syncStatus (cluster : Cluster) (app : option U) (k8sVersion : string) (nodeCount : Z)
    (cephClusters : option (gmap string string)) (reconcileErr : option OpError)
    (lastSync : option Z) (k : K) : (Cluster * result OpError unit) * K :=
  let oldStatus := Status cluster in
  let s := oldStatus in
  let s := if decide (k8sVersion ≠ EmptyString) then set_KubernetesVersion k8sVersion s else s in
  let s := if decide (0 < nodeCount) then set_NodeCount nodeCount s else s in
  let s := match cephClusters with Some _ => set_CephClusters cephClusters s | None => s end in
  let '(s, k) := match reconcileErr with
    | Some _ => (s, k)
    | None =>
      match GetCurrentClusterVersion (cl_Name cluster) OperatorNamespace k with
      | (Err _, k) => (s, k)
      | (Ok currentVersion, k) =>
        (if decide (currentVersion ≠ EmptyString) then set_SuperphenixVersion currentVersion s else s, k)
      end
    end in
  let '(s, k) := updateAppsStatus cluster s k in
  let '(s, k) := updateCompatibilityCondition cluster s k in
  let s := setErrorConditions reconcileErr s in
  let s := match app with
    | Some app => if paused cluster then s else applyApplicationStatus s app
    | None => s
    end in
  let s := if paused cluster
    then add_condition (condition ConditionTypePaused ConditionTrue ReasonPaused "Synchronization is paused") s
    else s in
  let s := set_Phase (nextPhase cluster reconcileErr s) s in
  let s := updateReadyCondition reconcileErr s in
  let s := set_Observed (cl_Generation cluster)
    (match lastSync with Some t => Some t | None => LastSync oldStatus end) s in
  let s := set_Conditions (setTransitionTimes (cl_Generation cluster) (Now k) (Conditions oldStatus)
    (Conditions s)) s in
  let updated := with_Status cluster s in
  let '(r, k) := PatchClusterStatus cluster updated k in
  ((updated, r), k).
End status.
