(* ===== verification/ClusterTheorems.v ===== *)
(** * The theorems of the cluster status

    The conditions of a status are read as a map from their types to what they say; the phase and
    the Ready condition that a reconciliation reports are functions of it. *)

From S2P Require Import Prelude Strings Operator ClusterStatus.
(** ** Conditions *)

(** What a condition says, and what is said under a type. *)
Definition says (c : Condition) : ConditionStatus * string * string :=
  (c_Status c, c_Reason c, c_Message c).

Definition said (type : string) (cs : list Condition) : option (ConditionStatus * string * string) :=
  says <$> findCondition type cs.

(** The status under a type. *)
Definition status_of (type : string) (cs : list Condition) : option ConditionStatus :=
  (λ x, x.1.1) <$> said type cs.

Lemma same_condition_says c d : same_condition c d ↔ says c = says d.
Proof. unfold same_condition, says. split; [by intros (-> & -> & ->)|by intros [= -> -> ->]]. Qed.

Lemma findCondition_cons type c cs :
  findCondition type (c :: cs) = if decide (c_Type c = type) then Some c else findCondition type cs.
Proof. unfold findCondition. cbn. by repeat case_decide. Qed.

Lemma said_cons type c cs :
  said type (c :: cs) = if decide (c_Type c = type) then Some (says c) else said type cs.
Proof. unfold said. rewrite findCondition_cons. by case_decide. Qed.

Lemma said_setCondition type cs n :
  said type (setCondition cs n) = if decide (c_Type n = type) then Some (says n) else said type cs.
Proof.
  induction cs as [|c cs IH]; cbn [setCondition]; [by rewrite said_cons|].
  destruct (decide (c_Type c = c_Type n)) as [Hc|Hc].
  - destruct (decide (same_condition c n)) as [Hs|Hs]; rewrite !said_cons, ?Hc; case_decide; try done.
    by rewrite (proj1 (same_condition_says c n) Hs).
  - rewrite !said_cons, IH. repeat case_decide; congruence.
Qed.

Lemma types_setCondition cs n :
  c_Type <$> setCondition cs n =
  if decide (c_Type n ∈ c_Type <$> cs) then c_Type <$> cs else (c_Type <$> cs) ++ [c_Type n].
Proof.
  induction cs as [|c cs IH]; [done|]. cbn [setCondition]. rewrite fmap_cons.
  destruct (decide (c_Type c = c_Type n)) as [Hc|Hc].
  - rewrite (decide_True (P := c_Type n ∈ _)) by (rewrite Hc; left).
    destruct (decide (same_condition c n)); rewrite fmap_cons; [done|by rewrite Hc].
  - rewrite fmap_cons, IH. repeat case_decide; rewrite ?elem_of_cons in *; naive_solver.
Qed.

(** The types of the conditions of a status are distinct. *)
Definition distinct_types (cs : list Condition) : Prop := NoDup (c_Type <$> cs).

Lemma distinct_setCondition cs n : distinct_types cs → distinct_types (setCondition cs n).
Proof.
  unfold distinct_types. rewrite types_setCondition. case_decide; [done|]. intros Hd.
  apply NoDup_app. split_and!; [done|set_solver|apply NoDup_singleton].
Qed.

Lemma isSynced_said cs :
  distinct_types cs → isSynced cs = bool_decide (status_of ConditionTypeArgoCDSynced cs = Some ConditionTrue).
Proof.
  unfold distinct_types, status_of. induction cs as [|c cs IH]; [done|].
  rewrite fmap_cons, NoDup_cons, said_cons. intros [Hno Hd]. cbn [isSynced existsb].
  change (existsb _ cs) with (isSynced cs).
  destruct (decide (c_Type c = ConditionTypeArgoCDSynced)) as [Hc|Hc].
  - destruct (isSynced cs) eqn:Hs.
    + exfalso. apply Hno. rewrite Hc. unfold isSynced in Hs.
      apply existsb_exists in Hs as (d & Hin%list_elem_of_In & [Ht _]%bool_decide_eq_true).
      rewrite <-Ht. by apply list_elem_of_fmap_2.
    + rewrite orb_false_r. apply bool_decide_ext. cbn. split; [by intros [_ ->]|by intros [= ->]].
  - rewrite (bool_decide_eq_false_2 (c_Type c = _ ∧ _)) by naive_solver. rewrite orb_false_l. by apply IH.
Qed.

Lemma setTransitionTimes_says generation now old cs type :
  said type (setTransitionTimes generation now old cs) = said type cs.
Proof.
  unfold setTransitionTimes. induction cs as [|c cs IH]; [done|].
  rewrite fmap_cons, !said_cons. cbn [c_Type]. case_decide; [done|]. exact IH.
Qed.

Lemma setTransitionTimes_types generation now old cs :
  c_Type <$> setTransitionTimes generation now old cs = c_Type <$> cs.
Proof. unfold setTransitionTimes. rewrite <-list_fmap_compose. by apply list_fmap_ext. Qed.

Section status.
Context {GT : GoText} {SV : Semver} {K U : Type} {UN : Unstructured U} {OC : OperatorClient K U}.
Context (MinV MaxV NS : string).
Implicit Types (s : ClusterStatus) (cluster : Cluster) (k : K) (err : option OpError).

Abbreviation sync := (syncStatus (K:=K) (U:=U) MinV MaxV NS).

(** ** What the reconciliation reads *)

(** The status once the versions, the applications and the compatibility are known. *)
Definition observedStatus cluster k8sVersion nodeCount cephClusters err k : ClusterStatus * K :=
  let s := Status cluster in
  let s := if decide (k8sVersion ≠ EmptyString) then set_KubernetesVersion k8sVersion s else s in
  let s := if decide (0 < nodeCount) then set_NodeCount nodeCount s else s in
  let s := match cephClusters with Some _ => set_CephClusters cephClusters s | None => s end in
  let '(s, k) := match err with
    | Some _ => (s, k)
    | None =>
      match GetCurrentClusterVersion (cl_Name cluster) NS k with
      | (Err _, k) => (s, k)
      | (Ok currentVersion, k) =>
        (if decide (currentVersion ≠ EmptyString) then set_SuperphenixVersion currentVersion s else s, k)
      end
    end in
  let '(s, k) := updateAppsStatus NS cluster s k in
  updateCompatibilityCondition MinV MaxV NS cluster s k.

(** The status once the error, the Application and the pause are taken into account. *)
Definition reportedStatus cluster (app : option U) err s : ClusterStatus :=
  let s := setErrorConditions err s in
  let s := match app with
    | Some app => if paused cluster then s else applyApplicationStatus s app
    | None => s
    end in
  if paused cluster
  then add_condition (condition ConditionTypePaused ConditionTrue ReasonPaused "Synchronization is paused") s
  else s.

(** *** The parts of the status that each step leaves *)

Lemma setErrorConditions_keeps err s :
  Phase (setErrorConditions err s) = Phase s ∧
  SuperphenixVersion (setErrorConditions err s) = SuperphenixVersion s.
Proof. destruct err as [err|]; [|done]. unfold setErrorConditions. repeat case_match; done. Qed.

Lemma applyApplicationStatus_keeps s (app : U) :
  SuperphenixVersion (applyApplicationStatus s app) = SuperphenixVersion s.
Proof. unfold applyApplicationStatus. by destruct (healthCondition _ _ _) as [[[? ?] ?] ?]. Qed.

Lemma updateReadyCondition_keeps err s :
  Phase (updateReadyCondition err s) = Phase s ∧
  SuperphenixVersion (updateReadyCondition err s) = SuperphenixVersion s.
Proof. unfold updateReadyCondition. by destruct (readyCondition _ _) as [[? ?] ?]. Qed.

Lemma reportedStatus_version cluster (app : option U) err s :
  SuperphenixVersion (reportedStatus cluster app err s) = SuperphenixVersion s.
Proof.
  destruct (setErrorConditions_keeps err s) as [_ He]. unfold reportedStatus.
  destruct (paused cluster), app as [app|]; cbn; rewrite ?applyApplicationStatus_keeps; exact He.
Qed.

Lemma syncStatus_steps cluster app k8sVersion nodeCount ceph err lastSync k :
  let '((updated, r), k') := sync cluster app k8sVersion nodeCount ceph err lastSync k in
  let '(s0, k1) := observedStatus cluster k8sVersion nodeCount ceph err k in
  let s1 := reportedStatus cluster app err s0 in
  let s2 := updateReadyCondition err (set_Phase (nextPhase cluster err s1) s1) in
  PatchClusterStatus cluster updated k1 = (r, k') ∧
  Phase (Status updated) = nextPhase cluster err s1 ∧
  SuperphenixVersion (Status updated) = SuperphenixVersion s0 ∧
  Conditions (Status updated) =
    setTransitionTimes (cl_Generation cluster) (Now k1) (Conditions (Status cluster)) (Conditions s2) ∧
  Spec updated = Spec cluster ∧ ObservedGeneration (Status updated) = cl_Generation cluster.
Proof.
  unfold syncStatus, observedStatus.
  destruct (match err with Some _ => _ | None => _ end) as [sa ka].
  destruct (updateAppsStatus NS cluster sa ka) as [sb kb].
  destruct (updateCompatibilityCondition MinV MaxV NS cluster sb kb) as [s0 k1].
  fold (reportedStatus cluster app err s0). set (s1 := reportedStatus cluster app err s0).
  destruct (updateReadyCondition_keeps err (set_Phase (nextPhase cluster err s1) s1)) as [Hp Hv].
  set (s2 := updateReadyCondition _ _) in *.
  destruct (PatchClusterStatus cluster _ k1) as [r k'] eqn:HP. split_and!; try done.
  etrans; [exact Hv|]. apply reportedStatus_version.
Qed.

(** *** What the conditions say after each step *)

Lemma said_add_condition type c s :
  said type (Conditions (add_condition c s)) =
  if decide (c_Type c = type) then Some (says c) else said type (Conditions s).
Proof. apply said_setCondition. Qed.

Lemma distinct_add_condition c s :
  distinct_types (Conditions s) → distinct_types (Conditions (add_condition c s)).
Proof. apply distinct_setCondition. Qed.

Lemma Conditions_updateAppsStatus cluster s k :
  Conditions (updateAppsStatus NS cluster s k).1 = Conditions s ∧
  Phase (updateAppsStatus NS cluster s k).1 = Phase s.
Proof. unfold updateAppsStatus. by destruct (listSubApplications NS cluster k) as [[?|?] ?]. Qed.

Lemma updateCompatibilityCondition_adds cluster s k :
  ∃ status reason message,
    (updateCompatibilityCondition MinV MaxV NS cluster s k).1 =
    add_condition (condition ConditionTypeCompatibleVersion status reason message) s.
Proof.
  unfold updateCompatibilityCondition. destruct (GetCurrentManagementVersion NS k) as [[v|e] k'].
  - case_decide; [by eauto|]. cbn. destruct (IsClusterCompatibleWithOperator _ _ _ _); eauto.
  - eauto.
Qed.

Lemma observedStatus_keeps cluster k8sVersion nodeCount ceph err k s0 k1 :
  observedStatus cluster k8sVersion nodeCount ceph err k = (s0, k1) →
  Phase s0 = Phase (Status cluster) ∧
  (distinct_types (Conditions (Status cluster)) → distinct_types (Conditions s0)) ∧
  ∀ type, type ≠ ConditionTypeCompatibleVersion →
    said type (Conditions s0) = said type (Conditions (Status cluster)).
Proof.
  unfold observedStatus. intros Ho.
  match type of Ho with (let '(s, k) := ?x in _) = _ => destruct x as [sa ka] eqn:Ha end.
  assert (Hsa : Phase sa = Phase (Status cluster) ∧ Conditions sa = Conditions (Status cluster)).
  { clear Ho. destruct err; [injection Ha as <- _; split; repeat case_match; done|].
    destruct (GetCurrentClusterVersion _ _ k) as [[v|e] k2]; injection Ha as <- _;
      split; repeat case_match; done. }
  destruct Hsa as [Hp Hc]. destruct (Conditions_updateAppsStatus cluster sa ka) as [Hcb Hpb].
  destruct (updateAppsStatus NS cluster sa ka) as [sb kb]. cbn in Hcb, Hpb.
  destruct (updateCompatibilityCondition_adds cluster sb kb) as (st & re & me & Hadd).
  rewrite Ho in Hadd. cbn in Hadd. subst s0. split_and!.
  - cbn. congruence.
  - intros Hd. apply distinct_add_condition. by rewrite Hcb, Hc.
  - intros type Ht. rewrite said_add_condition. cbn [c_Type condition].
    rewrite decide_False by congruence. by rewrite Hcb, Hc.
Qed.

Lemma errorCondition_type e :
  (errorCondition e).2 = ConditionTypeReady ∨ (errorCondition e).2 = ConditionTypeReachable.
Proof. unfold errorCondition. repeat case_match; auto. Qed.

Lemma said_setErrorConditions type err s :
  said type (Conditions (setErrorConditions err s)) =
  match err with
  | None => said type (Conditions s)
  | Some e =>
    if decide (type = (errorCondition e).2 ∨
               type = ConditionTypeReady)
    then Some (ConditionFalse, (errorCondition e).1, oe_text e)
    else said type (Conditions s)
  end.
Proof.
  destruct err as [e|]; [|done]. unfold setErrorConditions.
  pose proof (errorCondition_type e) as Hct.
  destruct (errorCondition e) as [reason ct]. cbn [fst snd] in *.
  destruct (decide (ct = ConditionTypeReachable)) as [->|Hn];
    rewrite ?said_add_condition; cbn [c_Type condition];
    destruct Hct as [?|?]; simplify_eq; repeat case_decide; naive_solver.
Qed.

Lemma distinct_setErrorConditions err s :
  distinct_types (Conditions s) → distinct_types (Conditions (setErrorConditions err s)).
Proof.
  intros Hd. destruct err as [e|]; [|done]. unfold setErrorConditions.
  destruct (errorCondition e) as [reason ct]. case_decide; repeat apply distinct_add_condition; done.
Qed.

(** The health and the synchronisation that an Application reports. *)
Definition appHealth (app : U) : string := default EmptyString (NestedString app ["status"; "health"; "status"]).
Definition appSync (app : U) : string := default EmptyString (NestedString app ["status"; "sync"; "status"]).

(** The Application that a reconciliation takes into account. *)
Definition followed cluster (app : option U) : option U := if paused cluster then None else app.

Definition appCondition cluster (app : U) : ConditionStatus * string * string * string :=
  healthCondition (appHealth app) (appSync app) (Phase (Status cluster)).

Lemma said_reportedStatus type cluster app err s0 :
  Phase s0 = Phase (Status cluster) → type ≠ ConditionTypePaused →
  said type (Conditions (reportedStatus cluster app err s0)) =
  match followed cluster app with
  | Some a => if decide (type = ConditionTypeArgoCDSynced) then Some (appCondition cluster a).1
              else said type (Conditions (setErrorConditions err s0))
  | None => said type (Conditions (setErrorConditions err s0))
  end.
Proof.
  intros Hp Ht. unfold reportedStatus, followed, appCondition.
  destruct (setErrorConditions_keeps err s0) as [Hpe _].
  destruct (paused cluster).
  - destruct app; rewrite said_add_condition; cbn [c_Type condition]; by rewrite decide_False.
  - destruct app as [a|]; [|done]. unfold applyApplicationStatus. fold (appHealth a) (appSync a).
    rewrite Hpe, Hp. destruct (healthCondition _ _ _) as [[[st re] me] ph].
    change (Conditions (set_Phase ph ?x)) with (Conditions x). rewrite said_add_condition.
    cbn [c_Type condition fst]. repeat case_decide; done.
Qed.

(** *** The phase *)

(** The health of an Application that does not fail the cluster. *)
Definition sound (health : string) : Prop :=
  health ≠ "Degraded" ∧ health ≠ "Suspended" ∧ health ≠ "Missing".

Lemma healthCondition_deployed health sync old :
  let '(status, _, _, phase) := healthCondition health sync old in
  phase ≠ EmptyString ∧
  (status = ConditionTrue ↔ sound health ∧ sync = "Synced") ∧
  (status = ConditionTrue → phase = "Deployed") ∧
  (phase = "Deployed" ↔ sound health ∧ (sync = "Synced" ∨ sync = EmptyString ∧ old = "Deployed")) ∧
  (health = "Degraded" → status = ConditionFalse ∧ phase = "Error").
Proof.
  unfold healthCondition, syncCondition, sound.
  repeat (case_decide; simplify_eq; cbn); naive_solver.
Qed.

Lemma deployed_unless_behind (phase running spec : string) :
  (if decide (phase = "Deployed" ∧ running ≠ spec ∧ running ≠ EmptyString) then "Deploying" else phase) =
    "Deployed" ↔ (running = spec ∨ running = EmptyString) ∧ phase = "Deployed".
Proof.
  destruct (decide (phase = "Deployed")) as [->|Hp].
  - destruct (decide (running = spec)), (decide (running = EmptyString)); case_decide; naive_solver.
  - rewrite decide_False; naive_solver.
Qed.

Lemma reportedStatus_phase cluster app err s0 :
  Phase s0 = Phase (Status cluster) →
  Phase (reportedStatus cluster app err s0) =
  match followed cluster app with
  | Some a => (appCondition cluster a).2
  | None => Phase (Status cluster)
  end.
Proof.
  intros Hp. destruct (setErrorConditions_keeps err s0) as [Hpe _].
  unfold reportedStatus, followed, appCondition. destruct (paused cluster), app as [a|]; cbn;
    try (rewrite Hpe; exact Hp).
  unfold applyApplicationStatus. fold (appHealth a) (appSync a). rewrite Hpe, Hp.
  by destruct (healthCondition _ _ _) as [[[? ?] ?] ?].
Qed.

Lemma distinct_reportedStatus cluster app err s0 :
  distinct_types (Conditions s0) → distinct_types (Conditions (reportedStatus cluster app err s0)).
Proof.
  intros Hd%(distinct_setErrorConditions err). unfold reportedStatus.
  assert (Ha : ∀ a, distinct_types (Conditions (applyApplicationStatus (setErrorConditions err s0) a))).
  { intros a. unfold applyApplicationStatus. destruct (healthCondition _ _ _) as [[[? ?] ?] ?].
    by apply distinct_add_condition. }
  destruct (paused cluster), app as [a|]; try apply distinct_add_condition; done || apply Ha.
Qed.

Lemma said_updateReadyCondition type err s :
  said type (Conditions (updateReadyCondition err s)) =
  if decide (type = ConditionTypeReady) then Some (readyCondition err (Conditions s))
  else said type (Conditions s).
Proof.
  unfold updateReadyCondition. destruct (readyCondition _ _) as [[st re] me].
  rewrite said_add_condition. cbn [c_Type condition]. by repeat case_decide.
Qed.

(** The conditions and the phase that a reconciliation writes, from what it has observed. *)
Lemma syncStatus_said cluster app k8sVersion nodeCount ceph err lastSync k :
  let '((updated, _), _) := sync cluster app k8sVersion nodeCount ceph err lastSync k in
  ∃ s0 k1, observedStatus cluster k8sVersion nodeCount ceph err k = (s0, k1) ∧
  let s1 := reportedStatus cluster app err s0 in
  Phase (Status updated) = nextPhase cluster err s1 ∧
  SuperphenixVersion (Status updated) = SuperphenixVersion s1 ∧
  ∀ type, said type (Conditions (Status updated)) =
    if decide (type = ConditionTypeReady) then Some (readyCondition err (Conditions s1))
    else said type (Conditions s1).
Proof.
  pose proof (syncStatus_steps cluster app k8sVersion nodeCount ceph err lastSync k) as Hs.
  destruct (sync cluster app k8sVersion nodeCount ceph err lastSync k) as [[updated r] k'].
  destruct (observedStatus cluster k8sVersion nodeCount ceph err k) as [s0 k1].
  destruct Hs as (_ & Hp & Hv & Hc & _). exists s0, k1. cbn zeta. split_and!; [done|exact Hp| |].
  - by rewrite reportedStatus_version.
  - intros type. rewrite Hc, setTransitionTimes_says. by rewrite said_updateReadyCondition.
Qed.

(** The phase of a cluster after a reconciliation: Error when it failed, Paused when the cluster is
    paused, and Deployed exactly when the Application it follows is sound and synced (or, without
    one or without its sync status, when the cluster already was) at the version of the spec. *)
Theorem syncStatus_phase cluster app k8sVersion nodeCount ceph err lastSync k :
  distinct_types (Conditions (Status cluster)) →
  let '((updated, _), _) := sync cluster app k8sVersion nodeCount ceph err lastSync k in
  let phase := Phase (Status updated) in
  let running := SuperphenixVersion (Status updated) in
  (err ≠ None → phase = "Error") ∧
  (err = None → paused cluster = true → phase = "Paused") ∧
  (err = None → paused cluster = false →
    (phase = "Deployed" ↔
      (running = Spec_Version (Spec cluster) ∨ running = EmptyString) ∧
      match app with
      | Some a => sound (appHealth a) ∧
          (appSync a = "Synced" ∨ appSync a = EmptyString ∧ Phase (Status cluster) = "Deployed")
      | None => status_of ConditionTypeArgoCDSynced (Conditions (Status cluster)) = Some ConditionTrue ∨
          Phase (Status cluster) = "Deployed"
      end) ∧
    (∀ a, app = Some a → appHealth a = "Degraded" → phase = "Error")).
Proof.
  intros Hd. pose proof (syncStatus_said cluster app k8sVersion nodeCount ceph err lastSync k) as Hs.
  destruct (sync cluster app k8sVersion nodeCount ceph err lastSync k) as [[updated r] k'].
  destruct Hs as (s0 & k1 & Ho & Hp & Hv & _). cbn zeta.
  apply observedStatus_keeps in Ho as (Hp0 & Hd0 & Hs0). specialize (Hd0 Hd).
  pose proof (isSynced_said _ (distinct_reportedStatus cluster app err _ Hd0)) as Hsync.
  pose proof (reportedStatus_phase cluster app err s0 Hp0) as Hp1.
  pose proof (said_reportedStatus ConditionTypeArgoCDSynced cluster app err s0 Hp0 ltac:(done)) as Hsaid.
  rewrite Hp, Hv. unfold nextPhase. rewrite Hsync. clear Hsync. unfold status_of.
  set (s1 := reportedStatus cluster app err s0) in *. rewrite Hsaid, Hp1. unfold followed.
  split_and!.
  - destruct err; [|done]. intros _. lazy zeta iota. by rewrite decide_False by naive_solver.
  - intros -> ->. lazy zeta iota. by rewrite decide_False by naive_solver.
  - intros -> ->. lazy zeta iota. destruct app as [a|].
    + rewrite (decide_True (P := ConditionTypeArgoCDSynced = _)) by done. unfold appCondition.
      pose proof (healthCondition_deployed (appHealth a) (appSync a) (Phase (Status cluster))) as Hh.
      destruct (healthCondition _ _ _) as [[[st re] me] ph]. cbn [fst snd fmap option_fmap option_map].
      destruct Hh as (Hne & Hst & Hdep & Hph & Hdeg). rewrite (decide_True (P := ph ≠ _)) by done.
      assert (Hx : (if bool_decide (Some st = Some ConditionTrue) then "Deployed" else ph) = ph).
      { case_bool_decide as Hb; [|done]. injection Hb as ->. by rewrite Hdep. }
      rewrite Hx. split; [by rewrite deployed_unless_behind, Hph|].
      intros ? [= ->] Hd'. destruct (Hdeg Hd') as [_ ->]. by rewrite decide_False by naive_solver.
    + cbn [setErrorConditions]. rewrite Hs0 by done. fold (status_of ConditionTypeArgoCDSynced (Conditions (Status cluster))).
      split; [|done]. rewrite deployed_unless_behind. f_equiv.
      case_bool_decide as Hb; [tauto|].
      destruct (decide (Phase (Status cluster) = EmptyString)) as [He|He].
      * rewrite decide_False, decide_True by auto. rewrite He. naive_solver.
      * rewrite decide_True by done. naive_solver.
Qed.

(** *** The Ready condition *)

Lemma status_of_findCondition type cs : status_of type cs = c_Status <$> findCondition type cs.
Proof. unfold status_of, said. by destruct (findCondition type cs). Qed.

Lemma readyCondition_true err cs :
  (readyCondition err cs).1.1 = ConditionTrue ↔
    status_of ConditionTypeReachable cs = Some ConditionTrue ∧
    status_of ConditionTypeCompatibleVersion cs ≠ Some ConditionFalse ∧
    (status_of ConditionTypeArgoCDSynced cs = None ∨
     status_of ConditionTypeArgoCDSynced cs = Some ConditionTrue) ∧
    (err = None ∨ status_of ConditionTypeReady cs ≠ Some ConditionFalse).
Proof.
  rewrite !status_of_findCondition. unfold readyCondition.
  generalize (findCondition ConditionTypeReachable cs) (findCondition ConditionTypeArgoCDSynced cs)
    (findCondition ConditionTypeCompatibleVersion cs) (findCondition ConditionTypeReady cs).
  intros r a c d.
  set (ready := initialReady err d).
  assert (Hready : ready.1.1 = ConditionTrue ↔ err = None ∨ c_Status <$> d ≠ Some ConditionFalse).
  { subst ready. unfold initialReady. destruct err, d as [[? [] ? ? ? ?]|]; cbn; repeat case_decide; cbn; intuition congruence. }
  rewrite <-Hready. clear Hready. clearbody ready. destruct ready as [[st re] me]. cbn [fst].
  destruct r as [[? [] ? ? ? ?]|]; [|split; [discriminate|intros [[=] _]]..].
  destruct c as [[? [] ? ? ? ?]|], a as [[? [] ? ? ? ?]|], st; cbn; repeat case_decide; cbn; intuition congruence.
Qed.

(** A cluster is reported ready exactly when its reconciliation had no error, it was reachable, its
    version is not incompatible with the management's, and its Application, if one has ever been
    seen, is reported synced. *)
Theorem syncStatus_ready cluster app k8sVersion nodeCount ceph err lastSync k :
  let '((updated, _), _) := sync cluster app k8sVersion nodeCount ceph err lastSync k in
  let reported := Conditions (Status updated) in
  status_of ConditionTypeReady reported = Some ConditionTrue ↔
    err = None ∧
    status_of ConditionTypeReachable (Conditions (Status cluster)) = Some ConditionTrue ∧
    status_of ConditionTypeCompatibleVersion reported ≠ Some ConditionFalse ∧
    (status_of ConditionTypeArgoCDSynced reported = None ∨
     status_of ConditionTypeArgoCDSynced reported = Some ConditionTrue).
Proof.
  pose proof (syncStatus_said cluster app k8sVersion nodeCount ceph err lastSync k) as Hs.
  destruct (sync cluster app k8sVersion nodeCount ceph err lastSync k) as [[updated r] k'].
  destruct Hs as (s0 & k1 & Ho & _ & _ & Hsaid). cbn zeta.
  apply observedStatus_keeps in Ho as (Hp0 & _ & Hs0).
  pose proof (said_reportedStatus ConditionTypeReachable cluster app err s0 Hp0 ltac:(done)) as Hreach.
  pose proof (said_reportedStatus ConditionTypeReady cluster app err s0 Hp0 ltac:(done)) as Hready.
  set (s1 := reportedStatus cluster app err s0) in *.
  assert (Hst : ∀ type, status_of type (Conditions (Status updated)) =
    if decide (type = ConditionTypeReady) then Some (readyCondition err (Conditions s1)).1.1
    else status_of type (Conditions s1)).
  { intros type. unfold status_of. rewrite Hsaid. by destruct (decide (type = ConditionTypeReady)). }
  rewrite !Hst. rewrite (decide_True (P := ConditionTypeReady = _)), !decide_False by done.
  trans ((readyCondition err (Conditions s1)).1.1 = ConditionTrue); [split; congruence|].
  rewrite readyCondition_true.
  assert (Hr : status_of ConditionTypeReachable (Conditions s1) = status_of ConditionTypeReachable
      (Conditions (setErrorConditions err s0))).
  { unfold status_of. rewrite Hreach. by destruct (followed cluster app). }
  assert (Hr' : status_of ConditionTypeReady (Conditions s1) = status_of ConditionTypeReady
      (Conditions (setErrorConditions err s0))).
  { unfold status_of. rewrite Hready. by destruct (followed cluster app). }
  rewrite Hr, Hr'. unfold status_of at 1 5. rewrite !said_setErrorConditions.
  destruct err as [e|].
  - rewrite (decide_True (P := ConditionTypeReady = _ ∨ _)) by auto. cbn. intuition congruence.
  - rewrite Hs0 by done. fold (status_of ConditionTypeReachable (Conditions (Status cluster))). tauto.
Qed.

(** Distinct types are an invariant of the conditions. *)
Lemma syncStatus_distinct cluster app k8sVersion nodeCount ceph err lastSync k :
  distinct_types (Conditions (Status cluster)) →
  distinct_types (Conditions (Status
    (sync cluster app k8sVersion nodeCount ceph err lastSync k).1.1)).
Proof.
  intros Hd. pose proof (syncStatus_steps cluster app k8sVersion nodeCount ceph err lastSync k) as Hs.
  destruct (sync cluster app k8sVersion nodeCount ceph err lastSync k) as [[updated r] k']. cbn [fst].
  destruct (observedStatus cluster k8sVersion nodeCount ceph err k) as [s0 k1] eqn:Ho.
  apply observedStatus_keeps in Ho as (_ & Hd0 & _). destruct Hs as (_ & _ & _ & Hc & _).
  unfold distinct_types. rewrite Hc, setTransitionTimes_types.
  unfold updateReadyCondition. destruct (readyCondition _ _) as [[st re] me].
  apply distinct_setCondition. by apply distinct_reportedStatus, Hd0.
Qed.
End status.
