(* ===== verification/ClusterSettles.v ===== *)
(** * A settled cluster status

    A reconciliation that observes what the previous one observed writes the same status, times
    included: the controller does not loop on its own patches. The conditions of a status are
    those of the previous one with a list of additions that does not depend on it. *)

From S2P Require Import Prelude Strings Operator ClusterStatus ClusterTheorems.
(** ** Adding a list of conditions *)

Lemma said_app type cs ds :
  said type (cs ++ ds) = match said type cs with Some x => Some x | None => said type ds end.
Proof. induction cs as [|c cs IH]; [done|]. cbn [app]. rewrite !said_cons, IH. by case_decide. Qed.

Lemma said_elem type cs : said type cs ≠ None ↔ type ∈ c_Type <$> cs.
Proof.
  induction cs as [|c cs IH]; [split; [done|by intros ?%elem_of_nil]|].
  rewrite said_cons, fmap_cons, elem_of_cons. case_decide; naive_solver.
Qed.

(** What is said after the additions: the last of them on the type, or what was said before. *)
Lemma said_additions type adds cs :
  said type (foldl setCondition cs adds) =
  match said type (reverse adds) with Some x => Some x | None => said type cs end.
Proof.
  revert cs. induction adds as [|a adds IH]; intros cs; [done|]. cbn [foldl].
  rewrite IH, reverse_cons, said_app, said_setCondition, said_cons.
  destruct (said type (reverse adds)); [done|]. by case_decide.
Qed.

Lemma types_additions adds cs :
  (∀ a, a ∈ adds → c_Type a ∈ c_Type <$> cs) → c_Type <$> foldl setCondition cs adds = c_Type <$> cs.
Proof.
  revert cs. induction adds as [|a adds IH]; intros cs Ha; [done|]. cbn [foldl].
  assert (Ht : c_Type <$> setCondition cs a = c_Type <$> cs).
  { rewrite types_setCondition, decide_True; [done|]. apply Ha. left. }
  rewrite IH; [done|]. rewrite Ht. intros b Hb. apply Ha. by right.
Qed.

Lemma additions_present adds cs a :
  a ∈ adds → c_Type a ∈ c_Type <$> foldl setCondition cs adds.
Proof.
  intros Ha. rewrite <-said_elem, said_additions.
  assert (He : said (c_Type a) (reverse adds) ≠ None).
  { rewrite said_elem. apply list_elem_of_fmap_2. by rewrite elem_of_reverse. }
  by destruct (said (c_Type a) (reverse adds)).
Qed.

Lemma distinct_additions adds cs : distinct_types cs → distinct_types (foldl setCondition cs adds).
Proof. revert cs. induction adds; [done|]. intros cs Hd. cbn. by apply IHadds, distinct_setCondition. Qed.

(** ** Times that are kept *)

Lemma findCondition_lookup cs i c :
  distinct_types cs → cs !! i = Some c → findCondition (c_Type c) cs = Some c.
Proof.
  unfold distinct_types. revert i. induction cs as [|d cs IH]; intros i; [done|].
  rewrite fmap_cons, NoDup_cons, findCondition_cons. intros [Hno Hd] Hi.
  destruct i as [|i]; cbn in Hi; [simplify_eq; by rewrite decide_True|].
  rewrite decide_False; [by eapply IH|]. intros He. apply Hno. rewrite He.
  apply list_elem_of_fmap_2. by eapply list_elem_of_lookup_2.
Qed.

Lemma setTransitionTimes_kept generation now cs ds :
  distinct_types cs → c_Type <$> ds = c_Type <$> cs → (∀ type, said type ds = said type cs) →
  (∀ c, c ∈ cs → c_ObservedGeneration c = generation ∧ c_LastTransitionTime c ≠ 0) →
  setTransitionTimes generation now cs ds = cs.
Proof.
  intros Hd Ht Hs Hc. apply list_eq. intros i. unfold setTransitionTimes. rewrite list_lookup_fmap.
  pose proof (f_equal (λ l, l !! i) Ht) as Hi. cbn in Hi. rewrite !list_lookup_fmap in Hi.
  destruct (ds !! i) as [d|] eqn:Hdi, (cs !! i) as [c|] eqn:Hci; try done. cbn in *.
  injection Hi as Htype. pose proof (findCondition_lookup _ _ _ Hd Hci) as Hfind. rewrite Htype, Hfind.
  assert (Hdd : distinct_types ds) by (unfold distinct_types; by rewrite Ht).
  pose proof (findCondition_lookup _ _ _ Hdd Hdi) as Hfind'. specialize (Hs (c_Type c)).
  unfold said in Hs. rewrite Hfind, <-Htype, Hfind' in Hs. cbn in Hs. apply (inj Some) in Hs as Hsame.
  destruct (Hc c) as [Hg Hz]; [by eapply list_elem_of_lookup_2|].
  rewrite decide_True by (split; [by rewrite same_condition_says|done]).
  f_equal. destruct c, d; cbn in *. unfold says in *. cbn in *. congruence.
Qed.

Lemma setTransitionTimes_fresh generation now cs ds c :
  now ≠ 0 → c ∈ setTransitionTimes generation now cs ds →
  c_ObservedGeneration c = generation ∧ c_LastTransitionTime c ≠ 0.
Proof.
  intros Hn Hc. unfold setTransitionTimes in Hc. apply list_elem_of_fmap in Hc as (d & -> & _). cbn.
  split; [done|]. destruct (findCondition _ cs); [|done]. case_decide; [naive_solver|done].
Qed.

(** Two rounds of the same additions: the second one changes nothing. *)
Lemma settled_conditions generation now now' cs adds :
  distinct_types cs → now ≠ 0 →
  let settled := setTransitionTimes generation now cs (foldl setCondition cs adds) in
  setTransitionTimes generation now' settled (foldl setCondition settled adds) = settled.
Proof.
  intros Hd Hn settled. subst settled.
  set (once := foldl setCondition cs adds).
  set (settled := setTransitionTimes generation now cs once).
  assert (Htypes : c_Type <$> settled = c_Type <$> once) by apply setTransitionTimes_types.
  apply setTransitionTimes_kept.
  - unfold distinct_types. rewrite Htypes. by apply distinct_additions.
  - apply types_additions. intros a Ha. rewrite Htypes. by apply additions_present.
  - intros type. rewrite said_additions. subst settled. rewrite setTransitionTimes_says.
    subst once. rewrite said_additions. by destruct (said type (reverse adds)).
  - intros c Hc. by eapply setTransitionTimes_fresh.
Qed.

(** ** The additions of a reconciliation *)

Section status.
Context {GT : GoText} {SV : Semver} {K U : Type} {UN : Unstructured U} {OC : OperatorClient K U}.
Context (MinV MaxV NS : string).
Implicit Types (s : ClusterStatus) (cluster : Cluster) (k : K) (err : option OpError).

Abbreviation sync := (syncStatus (K:=K) (U:=U) MinV MaxV NS).
Abbreviation observed := (observedStatus (K:=K) (U:=U) MinV MaxV NS).

(** The fields that are neither the phase nor the conditions, which only observing changes. *)
Definition facts s :=
  (SuperphenixVersion s, KubernetesVersion s, NodeCount s, Apps s, CephClusters s, PXESetupDone s).

Lemma facts_setErrorConditions err s : facts (setErrorConditions err s) = facts s.
Proof. destruct err as [e|]; [|done]. unfold setErrorConditions. repeat case_match; done. Qed.

Lemma facts_updateReadyCondition err s : facts (updateReadyCondition err s) = facts s.
Proof. unfold updateReadyCondition. by destruct (readyCondition _ _) as [[? ?] ?]. Qed.

Lemma facts_reportedStatus cluster (app : option U) err s :
  facts (reportedStatus cluster app err s) = facts s.
Proof.
  pose proof (facts_setErrorConditions err s) as He. unfold reportedStatus.
  assert (Ha : ∀ a s, facts (applyApplicationStatus (U:=U) s a) = facts s).
  { intros a ?. unfold applyApplicationStatus. by destruct (healthCondition _ _ _) as [[[? ?] ?] ?]. }
  rewrite <-He. destruct (paused cluster), app as [a|]; done || apply Ha.
Qed.

(** The compatibility condition, from the version of the management. *)
Definition compatibility cluster k : Condition :=
  match (GetCurrentManagementVersion NS k).1 with
  | Err err => condition ConditionTypeCompatibleVersion ConditionUnknown "ManagementVersionUnknown"
      ("Failed to get management version: " +:+ oe_text err)
  | Ok mgmtVersion =>
    if decide (mgmtVersion = EmptyString) then
      condition ConditionTypeCompatibleVersion ConditionTrue ReasonCompatibleVersion
        "Management version could not be determined, assuming compatible"
    else match IsClusterCompatibleWithOperator MinV MaxV (Spec_Version (Spec cluster)) mgmtVersion with
      | Err err => condition ConditionTypeCompatibleVersion ConditionFalse ReasonIncompatibleVersion
                     (oe_text err)
      | Ok _ => condition ConditionTypeCompatibleVersion ConditionTrue ReasonCompatibleVersion
                  "Cluster version is compatible with management version"
      end
  end.

Definition errorAdditions err : list Condition :=
  match err with
  | None => []
  | Some e =>
    condition (errorCondition e).2 ConditionFalse (errorCondition e).1 (oe_text e) ::
    (if decide ((errorCondition e).2 = ConditionTypeReachable)
     then [condition ConditionTypeReady ConditionFalse (errorCondition e).1 (oe_text e)] else [])
  end.

Definition pauseAdditions cluster : list Condition :=
  if paused cluster
  then [condition ConditionTypePaused ConditionTrue ReasonPaused "Synchronization is paused"] else [].

Definition appAdditions cluster (app : option U) : list Condition :=
  match followed cluster app with
  | Some a =>
    let '(status, reason, message, _) := healthCondition (appHealth a) (appSync a) EmptyString in
    [condition ConditionTypeArgoCDSynced status reason message]
  | None => []
  end.

Definition additions cluster app err : list Condition :=
  errorAdditions err ++ appAdditions cluster app ++ pauseAdditions cluster.

(** The phase has no part in what the condition says. *)
Lemma healthCondition_phase health sync old old' :
  (healthCondition health sync old).1 = (healthCondition health sync old').1.
Proof. unfold healthCondition, syncCondition. repeat case_decide; done. Qed.

Lemma setErrorConditions_additions err s :
  Conditions (setErrorConditions err s) = foldl setCondition (Conditions s) (errorAdditions err).
Proof.
  destruct err as [e|]; [|done]. unfold setErrorConditions, errorAdditions.
  destruct (errorCondition e) as [reason ct]. cbn [fst snd]. by case_decide.
Qed.

Lemma reportedStatus_additions cluster app err s :
  Conditions (reportedStatus cluster app err s) =
  foldl setCondition (Conditions s) (additions cluster app err).
Proof.
  unfold reportedStatus, additions, appAdditions, pauseAdditions, followed.
  rewrite !foldl_app, <-setErrorConditions_additions. destruct (paused cluster); [by destruct app|].
  destruct app as [a|]; [|done]. unfold applyApplicationStatus. fold (appHealth a) (appSync a).
  pose proof (healthCondition_phase (appHealth a) (appSync a) (Phase (setErrorConditions err s)) EmptyString)
    as Hh.
  destruct (healthCondition _ _ (Phase _)) as [[[st re] me] ph], (healthCondition _ _ EmptyString)
    as [[[st' re'] me'] ph']. cbn in Hh. by simplify_eq.
Qed.

Lemma findCondition_ext type cs ds :
  said type cs = said type ds →
  match findCondition type cs, findCondition type ds with
  | Some c, Some d => same_condition c d
  | None, None => True
  | _, _ => False
  end.
Proof.
  unfold said. destruct (findCondition type cs), (findCondition type ds); cbn; try done.
  intros [=]. by split_and!.
Qed.

(** The Ready condition is a function of what the other conditions say, and of itself on errors. *)
Lemma readyCondition_ext err cs ds :
  (∀ type, type ≠ ConditionTypeReady ∨ err ≠ None → said type cs = said type ds) →
  readyCondition err cs = readyCondition err ds.
Proof.
  intros Hs. unfold readyCondition.
  pose proof (findCondition_ext ConditionTypeReachable cs ds ltac:(apply Hs; by left)) as Hr.
  pose proof (findCondition_ext ConditionTypeArgoCDSynced cs ds ltac:(apply Hs; by left)) as Ha.
  pose proof (findCondition_ext ConditionTypeCompatibleVersion cs ds ltac:(apply Hs; by left)) as Hc.
  assert (Hi : initialReady err (findCondition ConditionTypeReady cs) =
               initialReady err (findCondition ConditionTypeReady ds)).
  { destruct err as [e|]; [|done].
    pose proof (findCondition_ext ConditionTypeReady cs ds ltac:(apply Hs; by right)) as Hd.
    unfold initialReady. destruct (findCondition ConditionTypeReady cs), (findCondition ConditionTypeReady ds); try done.
    destruct Hd as (-> & -> & ->). done. }
  rewrite Hi. destruct (initialReady _ _) as [[st re] me].
  destruct (findCondition ConditionTypeReachable cs), (findCondition ConditionTypeReachable ds); try done;
  destruct (findCondition ConditionTypeArgoCDSynced cs), (findCondition ConditionTypeArgoCDSynced ds); try done;
  destruct (findCondition ConditionTypeCompatibleVersion cs),
    (findCondition ConditionTypeCompatibleVersion ds); try done;
  repeat match goal with H : same_condition _ _ |- _ => unfold same_condition in H; destruct H as (? & ? & ?) end;
  repeat match goal with H : _ _ = _ _ |- _ => try rewrite H; clear H end; done.
Qed.

(** ** The status that a reconciliation writes *)

(** The conditions after all the additions, the compatibility first and Ready last. *)
Definition reportedConditions cluster app err k (cs : list Condition) : list Condition :=
  foldl setCondition cs (compatibility cluster k :: additions cluster app err).

Definition readyAddition err cs : Condition :=
  let '(status, reason, message) := readyCondition err cs in
  condition ConditionTypeReady status reason message.

Lemma said_not_ready type err cs ds :
  type ≠ ConditionTypeReady → said type (setCondition cs (readyAddition err ds)) = said type cs.
Proof.
  intros Ht. rewrite said_setCondition. unfold readyAddition.
  destruct (readyCondition err ds) as [[st re] me]. cbn [c_Type condition]. by rewrite decide_False.
Qed.

Lemma errorAdditions_ready err :
  err ≠ None → said ConditionTypeReady (reverse (errorAdditions err)) ≠ None.
Proof.
  destruct err as [e|]; [|done]. intros _. unfold errorAdditions. rewrite said_elem, list_elem_of_fmap.
  pose proof (errorCondition_type e) as Ht. destruct (errorCondition e) as [reason ct]. cbn [fst snd] in *.
  destruct Ht as [->| ->]; [|rewrite decide_True by done]; eexists; (split; [|rewrite elem_of_reverse]);
    [|left| |right; left]; done.
Qed.

(** Adding to a status or to the one that follows it says the same, Ready apart without an error. *)
Lemma said_reported_again cluster app err k cs ds type :
  let once := reportedConditions cluster app err k cs in
  (∀ type, said type ds = said type (setCondition once (readyAddition err once))) →
  type ≠ ConditionTypeReady ∨ err ≠ None →
  said type (reportedConditions cluster app err k ds) = said type once.
Proof.
  intros once Hds Ht. subst once. unfold reportedConditions in *.
  rewrite said_additions. rewrite (said_additions type _ cs).
  destruct (said type (reverse _)) eqn:Ha; [done|].
  destruct (decide (type = ConditionTypeReady)) as [->|Hn].
  - destruct Ht as [?|Herr]; [done|]. apply errorAdditions_ready in Herr. exfalso.
    unfold additions in Ha. rewrite reverse_cons, reverse_app, !said_app in Ha.
    destruct (said _ (reverse (appAdditions _ _ ++ _))); [done|].
    by destruct (said _ (reverse (errorAdditions err))).
  - rewrite Hds, said_not_ready by done. rewrite said_additions. by rewrite Ha.
Qed.

(** Ready is the same whether it is computed from a status or from the one that follows it. *)
Lemma readyAddition_again cluster app err k cs ds :
  let once := reportedConditions cluster app err k cs in
  (∀ type, said type ds = said type (setCondition once (readyAddition err once))) →
  readyAddition err (reportedConditions cluster app err k ds) = readyAddition err once.
Proof.
  intros once Hds. unfold readyAddition at 1 2. erewrite (readyCondition_ext err _ once); [done|].
  intros type Ht. by apply said_reported_again.
Qed.

(** ** The phase of a settled cluster *)

(** The phase from which the next one is computed. *)
Definition appPhase cluster (app : option U) (phase : string) : string :=
  match followed cluster app with
  | Some a => (healthCondition (appHealth a) (appSync a) phase).2
  | None => phase
  end.

Definition settlePhase cluster err (version : string) (synced : bool) (phase : string) : string :=
  nextPhase cluster err (mkClusterStatus phase version EmptyString 0 None None
    (if synced then [condition ConditionTypeArgoCDSynced ConditionTrue EmptyString EmptyString] else [])
    0 None []).

Lemma nextPhase_settle cluster err s :
  nextPhase cluster err s =
  settlePhase cluster err (SuperphenixVersion s) (isSynced (Conditions s)) (Phase s).
Proof. unfold settlePhase, nextPhase. by destruct (isSynced (Conditions s)). Qed.

Lemma appPhase_cases cluster app :
  (∀ p q, appPhase cluster app p = appPhase cluster app q) ∨ (∀ p, appPhase cluster app p = p) ∨
  (∀ p, appPhase cluster app p = if decide (p = EmptyString) then "Unknown" else p).
Proof.
  unfold appPhase. destruct (followed cluster app) as [a|]; [|auto].
  unfold healthCondition, syncCondition.
  repeat match goal with |- context [decide (?P)] => destruct (decide P) end;
    solve [left; done|right; right; done].
Qed.

(** A phase that no condition or error decides. *)
Lemma settlePhase_undecided cluster version phase :
  paused cluster = false →
  settlePhase cluster None version false phase =
  if decide (phase = EmptyString ∨
      phase = "Deployed" ∧ version ≠ Spec_Version (Spec cluster) ∧ version ≠ EmptyString)
  then "Deploying" else phase.
Proof.
  intros Hp. unfold settlePhase, nextPhase. rewrite Hp. lazy zeta.
  cbn [Phase Operator.SuperphenixVersion Operator.Conditions isSynced existsb].
  destruct (decide (phase = EmptyString)) as [->|He].
  - rewrite (decide_False (P := EmptyString ≠ _)) by tauto.
    rewrite (decide_True (P := EmptyString = _ ∨ EmptyString = "Unknown")) by auto.
    rewrite decide_False by naive_solver.
    by rewrite decide_True by auto.
  - rewrite (decide_True (P := phase ≠ _)) by done. apply decide_ext. tauto.
Qed.

Lemma settlePhase_decided cluster err version synced p q :
  err ≠ None ∨ paused cluster = true ∨ synced = true →
  settlePhase cluster err version synced p = settlePhase cluster err version synced q.
Proof.
  intros Hd. unfold settlePhase, nextPhase. destruct err; [done|].
  destruct (paused cluster); [done|]. by destruct synced; [|destruct Hd as [?|[?|?]]].
Qed.

Lemma settlePhase_again cluster app err version synced phase :
  let next p := settlePhase cluster err version synced (appPhase cluster app p) in
  next (next phase) = next phase.
Proof.
  cbn zeta. destruct (appPhase_cases cluster app) as [Hc|Hc]; [by erewrite Hc|].
  destruct err; [by apply settlePhase_decided; left|].
  destruct (paused cluster) eqn:Hp; [apply settlePhase_decided; auto|].
  destruct synced; [apply settlePhase_decided; auto|].
  rewrite !settlePhase_undecided by done. generalize (appPhase cluster app phase) as q. intros q.
  set (settled := if decide _ then "Deploying" else q).
  assert (Hs : settled ≠ EmptyString ∧ ¬ (settled = "Deployed" ∧
    version ≠ Spec_Version (Spec cluster) ∧ version ≠ EmptyString)).
  { subst settled. case_decide; [split; [done|naive_solver]|tauto]. }
  clearbody settled. destruct Hs as [Hne Hd].
  assert (Ha : appPhase cluster app settled = settled).
  { destruct Hc as [Hc|Hc]; rewrite Hc; [done|by rewrite decide_False]. }
  rewrite Ha. by rewrite decide_False by tauto.
Qed.

(** ** What observing finds *)

Definition seenVersion cluster err k (version : string) : string :=
  match err with
  | Some _ => version
  | None => match (GetCurrentClusterVersion (cl_Name cluster) NS k).1 with
            | Ok v => if decide (v ≠ EmptyString) then v else version
            | Err _ => version
            end
  end.

Definition seenApps cluster k (apps : option (gmap string ClusterApp)) : option (gmap string ClusterApp) :=
  Apps (updateAppsStatus NS cluster (set_Apps apps (Status cluster)) k).1.

Definition seenFacts cluster k8sVersion nodeCount (ceph : option (gmap string string)) err k s :=
  (seenVersion cluster err k (SuperphenixVersion s),
   if decide (k8sVersion ≠ EmptyString) then k8sVersion else KubernetesVersion s,
   if decide (0 < nodeCount) then nodeCount else NodeCount s,
   seenApps cluster k (Apps s),
   match ceph with Some _ => ceph | None => CephClusters s end, PXESetupDone s).

Section reads.
(** Reading leaves the client as it is. *)
Context (reads : ∀ name namespace k, (GetApplication name namespace k).2 = k).
Context (lists : ∀ namespace label name k, (ListApplications namespace label name k).2 = k).

Lemma versions_read name k : (GetApplicationVersion name NS k).2 = k.
Proof.
  unfold GetApplicationVersion. pose proof (reads name NS k) as Hk.
  destruct (GetApplication name NS k) as [[app|e] k']; cbn in *; [done|by case_decide].
Qed.

Lemma seenApps_apps cluster s k :
  (updateAppsStatus NS cluster s k).2 = k ∧
  Apps (updateAppsStatus NS cluster s k).1 = seenApps cluster k (Apps s) ∧
  (updateAppsStatus NS cluster s k).1 = set_Apps (Apps (updateAppsStatus NS cluster s k).1) s.
Proof.
  unfold seenApps, updateAppsStatus, listSubApplications.
  pose proof (lists NS ClusterLabel (cl_Name cluster) k) as Hk.
  destruct (ListApplications NS ClusterLabel (cl_Name cluster) k) as [[apps|e] k']; cbn in *;
    split_and!; try done. by destruct s.
Qed.

Lemma updateCompatibilityCondition_reads cluster s k :
  updateCompatibilityCondition MinV MaxV NS cluster s k = (add_condition (compatibility cluster k) s, k).
Proof.
  unfold updateCompatibilityCondition, compatibility.
  pose proof (versions_read ManagementAppName k) as Hk. unfold GetCurrentManagementVersion.
  destruct (GetApplicationVersion ManagementAppName NS k) as [[v|e] k']; cbn in *; subst; [|done].
  by case_decide.
Qed.

Lemma observedStatus_reads cluster k8sVersion nodeCount ceph err k :
  ∃ s0, observed cluster k8sVersion nodeCount ceph err k = (s0, k) ∧
    facts s0 = seenFacts cluster k8sVersion nodeCount ceph err k (Status cluster) ∧
    Phase s0 = Phase (Status cluster) ∧
    Conditions s0 = setCondition (Conditions (Status cluster)) (compatibility cluster k).
Proof.
  unfold observedStatus.
  match goal with |- context [match err with Some _ => (?s, k) | None => _ end] => set (s1 := s) end.
  assert (Hv : match err with
    | Some _ => (s1, k)
    | None => match GetCurrentClusterVersion (cl_Name cluster) NS k with
              | (Err _, k) => (s1, k)
              | (Ok v, k) => (if decide (v ≠ EmptyString) then set_SuperphenixVersion v s1 else s1, k)
              end
    end = (set_SuperphenixVersion (seenVersion cluster err k (SuperphenixVersion s1)) s1, k)).
  { unfold seenVersion. destruct err; [by destruct s1|].
    pose proof (versions_read (cl_Name cluster) k) as Hk. unfold GetCurrentClusterVersion.
    destruct (GetApplicationVersion (cl_Name cluster) NS k) as [[v|e] k']; cbn in *; subst k';
      [case_decide|]; by destruct s1. }
  rewrite Hv. set (s2 := set_SuperphenixVersion _ _).
  destruct (seenApps_apps cluster s2 k) as (Hk & Ha & Hset).
  destruct (updateAppsStatus NS cluster s2 k) as [s3 k3]. cbn in Hk, Ha, Hset. subst k3.
  rewrite updateCompatibilityCondition_reads. eexists. split; [done|].
  rewrite Hset, Ha. unfold facts, seenFacts. cbn. subst s1. cbn.
  destruct ceph; repeat case_decide; done.
Qed.

(** The status that a reconciliation writes, in full. *)
Lemma syncStatus_writes cluster app k8sVersion nodeCount ceph err lastSync k :
  let '((updated, _), _) := sync cluster app k8sVersion nodeCount ceph err lastSync k in
  let old := Status cluster in
  let once := reportedConditions cluster app err k (Conditions old) in
  updated = with_Status cluster (Status updated) ∧
  facts (Status updated) = seenFacts cluster k8sVersion nodeCount ceph err k old ∧
  Phase (Status updated) = settlePhase cluster err (seenVersion cluster err k (SuperphenixVersion old))
    (isSynced once) (appPhase cluster app (Phase old)) ∧
  Conditions (Status updated) = setTransitionTimes (cl_Generation cluster) (Now k) (Conditions old)
    (setCondition once (readyAddition err once)) ∧
  ObservedGeneration (Status updated) = cl_Generation cluster ∧
  LastSync (Status updated) = match lastSync with Some t => Some t | None => LastSync old end.
Proof.
  destruct (observedStatus_reads cluster k8sVersion nodeCount ceph err k) as (s0 & Ho & Hf & Hp & Hc).
  pose proof (syncStatus_steps MinV MaxV NS cluster app k8sVersion nodeCount ceph err lastSync k) as Hs.
  assert (Hraw : let '((updated, _), _) := sync cluster app k8sVersion nodeCount ceph err lastSync k in
    updated = with_Status cluster (Status updated) ∧
    facts (Status updated) = facts (reportedStatus cluster app err s0) ∧
    LastSync (Status updated) = match lastSync with Some t => Some t | None => LastSync (Status cluster) end).
  { unfold observedStatus in Ho. unfold syncStatus.
    destruct (match err with Some _ => _ | None => _ end) as [sa ka].
    destruct (updateAppsStatus NS cluster sa ka) as [sb kb]. rewrite Ho.
    fold (reportedStatus cluster app err s0).
    pose proof (facts_updateReadyCondition err (set_Phase (nextPhase cluster err
      (reportedStatus cluster app err s0)) (reportedStatus cluster app err s0))) as Hfr.
    set (s2 := updateReadyCondition _ _) in *. destruct (PatchClusterStatus cluster _ k) as [r k'].
    split_and!; [done|exact Hfr|done]. }
  destruct (sync cluster app k8sVersion nodeCount ceph err lastSync k) as [[updated r] k'].
  rewrite Ho in Hs. destruct Hs as (_ & Hph & _ & Hcond & _ & Hgen). destruct Hraw as (Hu & Hfacts & Hlast).
  rewrite facts_reportedStatus, Hf in Hfacts.
  pose proof (reportedStatus_additions cluster app err s0) as Hadd. rewrite Hc in Hadd.
  pose proof (reportedStatus_phase cluster app err s0 Hp) as Hp1.
  pose proof (reportedStatus_version cluster app err s0) as Hv1.
  split_and!; [exact Hu|exact Hfacts| | |exact Hgen|exact Hlast].
  - rewrite Hph, nextPhase_settle, Hv1, Hp1. unfold reportedConditions. cbn [foldl]. rewrite <-Hadd.
    assert (SuperphenixVersion s0 = seenVersion cluster err k (SuperphenixVersion (Status cluster))) as ->
      by (unfold facts, seenFacts in Hf; congruence).
    unfold appPhase, appCondition. by destruct (followed cluster app).
  - rewrite Hcond. f_equal. unfold reportedConditions. cbn [foldl]. rewrite <-Hadd.
    unfold updateReadyCondition, readyAddition.
    change (Conditions (set_Phase ?p ?s)) with (Conditions s).
    by destruct (readyCondition err _) as [[st re] me].
Qed.

(** *** Observing the same thing again *)

(** The two states of the client answer alike. *)
Definition same_answers k k' : Prop :=
  (∀ name namespace, (GetApplication name namespace k').1 = (GetApplication name namespace k).1) ∧
  (∀ namespace label name,
    (ListApplications namespace label name k').1 = (ListApplications namespace label name k).1).

Lemma versions_same name k k' :
  same_answers k k' → (GetApplicationVersion name NS k').1 = (GetApplicationVersion name NS k).1.
Proof.
  intros [Hg _]. unfold GetApplicationVersion. specialize (Hg name NS).
  destruct (GetApplication name NS k') as [a k1], (GetApplication name NS k) as [b k2]. cbn in Hg. subst b.
  destruct a as [?|e]; [done|]. by destruct (decide (oe_kind e = KindNotFound ∨ oe_kind e = KindNoMatch)).
Qed.

Lemma compatibility_same cluster s k k' :
  same_answers k k' → compatibility (with_Status cluster s) k' = compatibility cluster k.
Proof.
  intros Hs. unfold compatibility, GetCurrentManagementVersion. by rewrite (versions_same _ k k' Hs).
Qed.

Lemma seenVersion_same cluster s err k k' v :
  same_answers k k' →
  seenVersion (with_Status cluster s) err k' (seenVersion cluster err k v) = seenVersion cluster err k v.
Proof.
  intros Hs. unfold seenVersion. destruct err; [done|]. unfold GetCurrentClusterVersion.
  cbn [cl_Name with_Status]. rewrite (versions_same (cl_Name cluster) k k' Hs).
  destruct (GetApplicationVersion _ NS k).1 as [w|e]; [|done]. by case_decide.
Qed.

Lemma seenApps_same cluster s k k' apps :
  same_answers k k' →
  seenApps (with_Status cluster s) k' (seenApps cluster k apps) = seenApps cluster k apps.
Proof.
  intros [_ Hl]. unfold seenApps, updateAppsStatus, listSubApplications. cbn [cl_Name with_Status].
  specialize (Hl NS ClusterLabel (cl_Name cluster)).
  destruct (ListApplications _ _ _ k') as [a k1], (ListApplications _ _ _ k) as [b k2]. cbn in Hl. subst b.
  by destruct a.
Qed.

Lemma seenFacts_same cluster s0 k8sVersion nodeCount ceph err k k' s :
  same_answers k k' → facts s = seenFacts cluster k8sVersion nodeCount ceph err k s0 →
  seenFacts (with_Status cluster s) k8sVersion nodeCount ceph err k' s = facts s.
Proof.
  intros Hs Hf. unfold facts, seenFacts in *. injection Hf as Hv Hk Hn Ha Hc Hx.
  rewrite Hv, Hk, Hn, Ha, Hc, Hx, seenVersion_same, seenApps_same by done.
  destruct ceph; repeat case_decide; done.
Qed.

Lemma status_ext s s' :
  facts s = facts s' → Phase s = Phase s' → Conditions s = Conditions s' →
  ObservedGeneration s = ObservedGeneration s' → LastSync s = LastSync s' → s = s'.
Proof. destruct s, s'. unfold facts. cbn. intros [=]. congruence. Qed.

(** The conditions of the second reconciliation, before their times. *)
Lemma reported_again cluster app err k cs :
  let once := reportedConditions cluster app err k cs in
  setCondition once (readyAddition err once) =
    foldl setCondition cs (compatibility cluster k :: additions cluster app err ++ [readyAddition err once]).
Proof. cbn zeta. unfold reportedConditions. cbn [foldl]. by rewrite foldl_app. Qed.

(** C28: A cluster whose reconciliation observes what the previous one observed keeps its status, the
    times of its conditions included: patching it changes nothing, so that the patch does not
    trigger another reconciliation. *)
Theorem syncStatus_settles cluster app k8sVersion nodeCount ceph err lastSync k k' :
  distinct_types (Conditions (Status cluster)) → Now k ≠ 0 →
  (∀ name namespace, (GetApplication name namespace k').1 = (GetApplication name namespace k).1) →
  (∀ namespace label name,
    (ListApplications namespace label name k').1 = (ListApplications namespace label name k).1) →
  let updated := (sync cluster app k8sVersion nodeCount ceph err lastSync k).1.1 in
  (sync updated app k8sVersion nodeCount ceph err lastSync k').1.1 = updated.
Proof.
  intros Hd Hnow Hget Hlist. cbn zeta. assert (Hsame : same_answers k k') by done.
  pose proof (syncStatus_writes cluster app k8sVersion nodeCount ceph err lastSync k) as H1.
  destruct (sync cluster app k8sVersion nodeCount ceph err lastSync k) as [[updated r] k1]. cbn [fst].
  pose proof (syncStatus_writes updated app k8sVersion nodeCount ceph err lastSync k') as H2.
  destruct (sync updated app k8sVersion nodeCount ceph err lastSync k') as [[again r'] k2]. cbn [fst].
  cbn zeta in H1, H2. destruct H1 as (Hu & Hf & Hp & Hc & Hg & Hl).
  set (s := Status updated) in *. clearbody s. subst updated.
  set (once := reportedConditions cluster app err k (Conditions (Status cluster))) in *.
  destruct H2 as (Hu2 & Hf2 & Hp2 & Hc2 & Hg2 & Hl2). rewrite Hu2. f_equal.
  assert (Honce : reportedConditions (with_Status cluster s) app err k' (Conditions s) =
    reportedConditions cluster app err k (Conditions s)).
  { unfold reportedConditions. by rewrite (compatibility_same _ _ k k' Hsame). }
  assert (Hsaid : ∀ type, said type (Conditions s) = said type (setCondition once (readyAddition err once))).
  { intros type. rewrite Hc. apply setTransitionTimes_says. }
  pose proof (readyAddition_again cluster app err k _ _ Hsaid) as Hready. cbn zeta in Hready. fold once in Hready.
  assert (Hconds : Conditions (Status again) = Conditions s).
  { pose proof (reported_again cluster app err k (Conditions (Status cluster))) as Hadds. cbn zeta in Hadds.
    fold once in Hadds. rewrite Hadds in Hc. rewrite Hc2, Honce, Hready.
    unfold reportedConditions. rewrite <-foldl_snoc, <-app_comm_cons, Hc. by apply settled_conditions. }
  apply status_ext; [| |done|by rewrite Hg|by rewrite Hl2; destruct lastSync].
  - rewrite Hf2. by apply (seenFacts_same cluster (Status cluster) _ _ _ _ k k').
  - rewrite Hp2, Hp, Honce. unfold facts, seenFacts in Hf. injection Hf as Hv _ _ _ _ _.
    rewrite Hv, (seenVersion_same _ _ _ k k') by done.
    assert (isSynced (reportedConditions cluster app err k (Conditions s)) = isSynced once) as ->.
    { assert (Hds : distinct_types (Conditions s)).
      { rewrite Hc. unfold distinct_types. rewrite setTransitionTimes_types.
        by apply distinct_setCondition, distinct_additions. }
      rewrite !isSynced_said by (by apply distinct_additions). unfold status_of.
      by rewrite (said_reported_again cluster app err k _ _ ConditionTypeArgoCDSynced Hsaid) by (by left). }
    exact (settlePhase_again cluster app err _ (isSynced once) (Phase (Status cluster))).
Qed.
End reads.
End status.
