(* ===== verification/ClusterSync.v ===== *)
(** * Synchronising and cleaning up a cluster
      ([internal/superphenix-operator/cluster/sub_applications.go], [cleanup.go], [configmap.go],
      [cluster_controller.go])

    The periodic synchronisation of the Applications of a cluster, the entry of the cluster in the
    shared ConfigMap, and the finalizer that keeps a cluster until its Applications are gone. *)

From S2P Require Import Prelude Strings Operator ClusterStatus.
Definition operationPhaseRunning : string := "Running".
Definition operationPhaseTerminating : string := "Terminating".
Definition FinalizerName : string := "operator.superphenix.net/finalizer".

(** [time.Minute] *)
Definition Minute : Z := 60 * 10 ^ 9.

(** [ctrl.Result], by its [RequeueAfter], 0 when empty. *)
Record Result := mkResult { RequeueAfter : Z }.

Section sync.
Context {GT : GoText} {SV : Semver} {K U : Type} {UN : Unstructured U} {OC : OperatorClient K U}.
Context (MinClusterVersion MaxClusterVersion OperatorNamespace ClustersConfigMapName : string).
Context (SyncPeriod SyncTimeout : Z).

(** ** The Applications *)

Definition fetchApplication (name : string) (k : K) : result OpError U * K :=
  match GetApplication name OperatorNamespace k with
  | (Err err, k) => (Err (wrap ("failed to get Application " +:+ name +:+ ": ") err), k)
  | (Ok app, k) => (Ok app, k)
  end.

(** The sub-applications, then the root Application when it is there. *)
Definition listAllApplications (cluster : Cluster) (k : K) : result OpError (list U) * K :=
  match listSubApplications OperatorNamespace cluster k with
  | (Err err, k) => (Err err, k)
  | (Ok apps, k) =>
    match fetchApplication (cl_Name cluster) k with
    | (Ok rootApp, k) => (Ok (apps ++ [rootApp]), k)
    | (Err _, k) => (Ok apps, k)
    end
  end.

Definition operationPhase (app : U) : string :=
  default EmptyString (NestedString app ["status"; "operationState"; "phase"]).

(** When the operation started; now when the date cannot be parsed. *)
Definition startedAt (k : K) (app : U) : Z :=
  default (Now k) (ParseRFC3339 (default EmptyString
    (NestedString app ["status"; "operationState"; "startedAt"]))).

Definition isRunning (app : U) : bool := bool_decide (operationPhase app = operationPhaseRunning).

(** The loop of [syncInProgress]: whether an operation is running, and since when. *)
Definition oldestRunning (k : K) (apps : list U) : bool * Z :=
  fold_left (λ '(inProgress, oldest) app,
    if isRunning app
    then (true, if decide (oldest = 0 ∨ startedAt k app < oldest) then startedAt k app else oldest)
    else (inProgress, oldest)) apps (false, 0).

Definition syncInProgress (cluster : Cluster) (k : K) : result OpError (bool * Z) * K :=
  match listAllApplications cluster k with
  | (Err err, k) => (Err err, k)
  | (Ok apps, k) => (Ok (oldestRunning k apps), k)
  end.

(** ** Triggering and aborting *)

Definition triggerApplicationSync (app : U) (force : bool) (k : K) : result OpError unit * K :=
  if negb force && isRunning app then (Ok tt, k) else
  match SetSyncOperation app with
  | None => (Err (Errorf ("failed to build sync operation for Application " +:+ GetName app)), k)
  | Some app' =>
    match PatchApplication app app' k with
    | (Err err, k) => (Err (wrap ("failed to trigger sync on Application " +:+ GetName app +:+ ": ") err), k)
    | (Ok _, k) => (Ok tt, k)
    end
  end.

Fixpoint triggerAll (apps : list U) (force : bool) (k : K) : K :=
  match apps with
  | [] => k
  | app :: apps => triggerAll apps force (triggerApplicationSync app force k).2
  end.

(** The root Application first; failures are only logged. *)
Definition syncSubApplications (cluster : Cluster) (force : bool) (k : K) : K :=
  let k := match fetchApplication (cl_Name cluster) k with
    | (Err _, k) => k
    | (Ok rootApp, k) => (triggerApplicationSync rootApp force k).2
    end in
  match listSubApplications OperatorNamespace cluster k with
  | (Err _, k) => k
  | (Ok subApps, k) => triggerAll subApps force k
  end.

(** One application of the loop of [abortInProgressSyncs]. *)
Definition abortSync (app : U) (k : K) : K :=
  if isRunning app then
    match SetNestedString app operationPhaseTerminating ["status"; "operationState"; "phase"] with
    | None => k
    | Some app' =>
      match PatchApplicationStatus app app' k with
      | (Err _, k) => k
      | (Ok app', k) => (ClearOperation app' k).2
      end
    end
  else k.

Definition abortInProgressSyncs (cluster : Cluster) (k : K) : result OpError unit * K :=
  match listAllApplications cluster k with
  | (Err err, k) => (Err err, k)
  | (Ok apps, k) => (Ok tt, fold_left (λ k app, abortSync app k) apps k)
  end.

Definition runPeriodicSync (cluster : Cluster) (k : K) : bool * K :=
  let recent := match LastSync (Status cluster) with
    | Some t => bool_decide (Now k - t < SyncPeriod)
    | None => false
    end in
  if recent then (false, k) else
  match syncInProgress cluster k with
  | (Err _, k) => (false, k)
  | (Ok (inProgress, oldestStart), k) =>
    if inProgress then
      if decide (Now k - oldestStart < SyncTimeout) then (false, k) else
      match abortInProgressSyncs cluster k with
      | (Err _, k) => (false, k)
      | (Ok _, k) => (true, syncSubApplications cluster true k)
      end
    else (true, syncSubApplications cluster false k)
  end.

(** ** The shared ConfigMap *)

Definition reconcileClustersConfigMap (cluster : Cluster) (k : K) : result OpError unit * K :=
  if decide (ClustersConfigMapName = EmptyString) then (Ok tt, k) else
  match GetConfigMap ClustersConfigMapName OperatorNamespace k with
  | (Err err, k) =>
    if op_IsNotFound err
    then CreateConfigMap ClustersConfigMapName OperatorNamespace {[cl_Name cluster := EmptyString]} k
    else (Err err, k)
  | (Ok data, k) =>
    let data := default ∅ data in
    match data !! cl_Name cluster with
    | Some _ => (Ok tt, k)
    | None => UpdateConfigMap ClustersConfigMapName OperatorNamespace
                (<[cl_Name cluster := EmptyString]> data) k
    end
  end.

Definition removeClusterFromConfigMap (cluster : Cluster) (k : K) : result OpError unit * K :=
  if decide (ClustersConfigMapName = EmptyString) then (Ok tt, k) else
  match GetConfigMap ClustersConfigMapName OperatorNamespace k with
  | (Err err, k) => if op_IsNotFound err then (Ok tt, k) else (Err err, k)
  | (Ok None, k) => (Ok tt, k)
  | (Ok (Some data), k) =>
    match data !! cl_Name cluster with
    | None => (Ok tt, k)
    | Some _ => UpdateConfigMap ClustersConfigMapName OperatorNamespace (delete (cl_Name cluster) data) k
    end
  end.

(** ** Deletion *)

(** The names of the Applications that are left, the root one first. *)
Definition remainingApps (rootApp : option U) (subApps : list U) : list string :=
  match rootApp with Some app => [GetName app] | None => [] end ++ (GetName <$> subApps).

(** [cleanupCluster], once the root Application has been looked for. *)
Definition cleanupSubApplications (cluster : Cluster) (rootApp : option U) (k : K) :
    result OpError unit * K :=
  match listSubApplications OperatorNamespace cluster k with
  | (Err err, k) => (Err (wrap "failed to list sub-applications: " err), k)
  | (Ok subApps, k) =>
    let appNames := remainingApps rootApp subApps in
    if decide (appNames ≠ []) then
      (Err (Errorf ("waiting for " +:+ pretty (length appNames) +:+ " ArgoCD applications to be deleted")), k)
    else
      match removeClusterFromConfigMap cluster k with
      | (Err err, k) => (Err (wrap "failed to remove cluster from configmap: " err), k)
      | (Ok _, k) => (Ok tt, k)
      end
  end.

Definition cleanupCluster (cluster : Cluster) (k : K) : result OpError unit * K :=
  match fetchApplication (cl_Name cluster) k with
  | (Ok app, k) => cleanupSubApplications cluster (Some app) k
  | (Err err, k) =>
    if op_IsNotFound err then cleanupSubApplications cluster None k
    else (Err (wrap "failed to check root application: " err), k)
  end.

(** ** The reconciliation *)

Definition CheckCRDs (k : K) : result OpError unit * K :=
  let check (kind : string) (k : K) := match RESTMapping kind k with
    | (Err err, k) =>
      (Err (if decide (oe_kind err = KindNoMatch)
            then Errorf ("ArgoCD CRD " +:+ kind +:+ " not found") else err), k)
    | (Ok _, k) => (Ok tt, k)
    end in
  match check "Application" k with
  | (Err err, k) => (Err err, k)
  | (Ok _, k) => check "AppProject" k
  end.

Definition ContainsFinalizer (cluster : Cluster) (finalizer : string) : bool :=
  bool_decide (finalizer ∈ cl_Finalizers cluster).

Definition RemoveFinalizer (cluster : Cluster) (finalizer : string) : Cluster :=
  with_Finalizers cluster (filter (λ f, f ≠ finalizer) (cl_Finalizers cluster)).

Definition AddFinalizer (cluster : Cluster) (finalizer : string) : Cluster :=
  with_Finalizers cluster (if decide (finalizer ∈ cl_Finalizers cluster) then cl_Finalizers cluster
                           else cl_Finalizers cluster ++ [finalizer]).

(** The branch of [Reconcile] for a cluster that is being deleted. *)
Definition reconcileDeletion (cluster : Cluster) (k : K) : (Result * option OpError) * K :=
  if negb (ContainsFinalizer cluster FinalizerName) then ((mkResult 0, None), k) else
  match cleanupCluster cluster k with
  | (Err err, k) =>
    let '(_, k) := syncStatus MinClusterVersion MaxClusterVersion OperatorNamespace cluster None
      EmptyString 0 None (Some err) None k in
    ((mkResult Minute, Some err), k)
  | (Ok _, k) =>
    match UpdateCluster (RemoveFinalizer cluster FinalizerName) k with
    | (Err err, k) => ((mkResult Minute, Some err), k)
    | (Ok _, k) => ((mkResult 0, None), k)
    end
  end.

(** [reconcileCluster] deploys the stack on a cluster that is not being deleted ([ClusterDeploy]);
    [None] is its panic. *)
Definition Reconcile (reconcileCluster : Cluster → K → option ((Result * option OpError) * K))
    (namespace name : string) (k : K) : option ((Result * option OpError) * K) :=
  if decide (OperatorNamespace ≠ EmptyString ∧ namespace ≠ OperatorNamespace) then
    Some ((mkResult 0, None), k)
  else
  match GetCluster namespace name k with
  | (Err err, k) => Some ((mkResult 0, if op_IsNotFound err then None else Some err), k)
  | (Ok cluster, k) =>
    match CheckCRDs k with
    | (Err _, k) => Some ((mkResult Minute, None), k)
    | (Ok _, k) =>
      if cl_Deleting cluster then Some (reconcileDeletion cluster k)
      else if ContainsFinalizer cluster FinalizerName then reconcileCluster cluster k
      else
        let cluster := AddFinalizer cluster FinalizerName in
        match UpdateCluster cluster k with
        | (Err err, k) => Some ((mkResult Minute, Some err), k)
        | (Ok _, k) => reconcileCluster cluster k
        end
    end
  end.
End sync.
