(* ===== verification/ClusterSyncTheorems.v ===== *)
(** * The theorems of the synchronisation and the deletion of clusters

    They hold for every API server: [Server] answers each call with any function of the calls made
    before, and the state of the client is the list of these calls. What the operator may do is a
    property of the calls it makes. *)

From S2P Require Import Prelude Strings Operator ClusterStatus ClusterSync.
(** ** Any API server *)

(** A call and its answer. *)
Inductive Event (U : Type) :=
  | GotApplication (name namespace : string) (r : result OpError U)
  | ListedApplications (namespace label name : string) (r : result OpError (list U))
  | PatchedApplication (base app : U) (r : result OpError U)
  | PatchedApplicationStatus (base app : U) (r : result OpError U)
  | ClearedOperation (app : U) (r : result OpError U)
  | PatchedClusterStatus (base cluster : Cluster) (r : result OpError unit)
  | UpdatedCluster (cluster : Cluster) (r : result OpError unit)
  | GotCluster (namespace name : string) (r : result OpError Cluster)
  | GotConfigMap (name namespace : string) (r : result OpError (option (gmap string string)))
  | CreatedConfigMap (name namespace : string) (data : gmap string string) (r : result OpError unit)
  | UpdatedConfigMap (name namespace : string) (data : gmap string string) (r : result OpError unit)
  | Mapped (kind : string) (r : result OpError unit).

Arguments GotApplication {U}.
Arguments ListedApplications {U}.
Arguments PatchedApplication {U}.
Arguments PatchedApplicationStatus {U}.
Arguments ClearedOperation {U}.
Arguments PatchedClusterStatus {U}.
Arguments UpdatedCluster {U}.
Arguments GotCluster {U}.
Arguments GotConfigMap {U}.
Arguments CreatedConfigMap {U}.
Arguments UpdatedConfigMap {U}.
Arguments Mapped {U}.

(** The answers and the clock, given the calls made so far, oldest first. *)
Record Server (U : Type) := mkServer {
  s_GetApplication : list (Event U) → string → string → result OpError U;
  s_ListApplications : list (Event U) → string → string → string → result OpError (list U);
  s_PatchApplication : list (Event U) → U → U → result OpError U;
  s_PatchApplicationStatus : list (Event U) → U → U → result OpError U;
  s_ClearOperation : list (Event U) → U → result OpError U;
  s_PatchClusterStatus : list (Event U) → Cluster → Cluster → result OpError unit;
  s_UpdateCluster : list (Event U) → Cluster → result OpError unit;
  s_GetCluster : list (Event U) → string → string → result OpError Cluster;
  s_GetConfigMap : list (Event U) → string → string → result OpError (option (gmap string string));
  s_CreateConfigMap : list (Event U) → string → string → gmap string string → result OpError unit;
  s_UpdateConfigMap : list (Event U) → string → string → gmap string string → result OpError unit;
  s_RESTMapping : list (Event U) → string → result OpError unit;
  s_Now : list (Event U) → Z;
}.

Section recorded.
Context {U : Type} (S : Server U).

(** The call, recorded with its answer. *)
Definition record {A} (event : result OpError A → Event U) (r : result OpError A) (h : list (Event U)) :
    result OpError A * list (Event U) := (r, h ++ [event r]).

#[export] Instance recorded : OperatorClient (list (Event U)) U := {
  GetApplication name ns h := record (GotApplication name ns) (s_GetApplication U S h name ns) h;
  ListApplications ns l name h := record (ListedApplications ns l name) (s_ListApplications U S h ns l name) h;
  PatchApplication base app h := record (PatchedApplication base app) (s_PatchApplication U S h base app) h;
  PatchApplicationStatus base app h :=
    record (PatchedApplicationStatus base app) (s_PatchApplicationStatus U S h base app) h;
  ClearOperation app h := record (ClearedOperation app) (s_ClearOperation U S h app) h;
  PatchClusterStatus base c h := record (PatchedClusterStatus base c) (s_PatchClusterStatus U S h base c) h;
  UpdateCluster c h := record (UpdatedCluster c) (s_UpdateCluster U S h c) h;
  GetCluster ns name h := record (GotCluster ns name) (s_GetCluster U S h ns name) h;
  GetConfigMap name ns h := record (GotConfigMap name ns) (s_GetConfigMap U S h name ns) h;
  CreateConfigMap name ns d h := record (CreatedConfigMap name ns d) (s_CreateConfigMap U S h name ns d) h;
  UpdateConfigMap name ns d h := record (UpdatedConfigMap name ns d) (s_UpdateConfigMap U S h name ns d) h;
  RESTMapping kind h := record (Mapped kind) (s_RESTMapping U S h kind) h;
  Now h := s_Now U S h;
}.
End recorded.

(** ** Calls that satisfy a predicate *)

Section appends.
Context {U : Type}.
Implicit Types (h : list (Event U)) (P Q : Event U → Prop).

Definition appends P h h' : Prop := ∃ calls, h' = h ++ calls ∧ Forall P calls.

Lemma appends_refl P h : appends P h h.
Proof. exists []. by rewrite app_nil_r. Qed.

Lemma appends_trans P h1 h2 h3 : appends P h1 h2 → appends P h2 h3 → appends P h1 h3.
Proof.
  intros (c1 & -> & H1) (c2 & -> & H2). exists (c1 ++ c2). split; [by rewrite app_assoc|].
  by apply Forall_app.
Qed.

Lemma appends_call P h e : P e → appends P h (h ++ [e]).
Proof. intros He. exists [e]. split; [done|]. by constructor. Qed.

Lemma appends_mono P Q h h' : (∀ e, P e → Q e) → appends P h h' → appends Q h h'.
Proof. intros HPQ (c & -> & Hc). exists c. split; [done|]. eapply Forall_impl; eauto. Qed.

Lemma appends_prefix P h h' : appends P h h' → h `prefix_of` h'.
Proof. intros (c & -> & _). by apply prefix_app_r. Qed.
End appends.

#[export] Hint Resolve appends_refl appends_call : spx.

Section theorems.
Context {GT : GoText} {SV : Semver} {U : Type} {UN : Unstructured U} (S : Server U).
Context (MinV MaxV NS ConfigMapName : string) (SyncPeriod SyncTimeout : Z).
Implicit Types (cluster : Cluster) (h : list (Event U)) (app : U).

#[local] Instance server : OperatorClient (list (Event U)) U := recorded S.

(** ** What the reads find *)

Lemma fetchApplication_calls name h :
  let '(r, h') := fetchApplication NS name h in
  ∃ answer, h' = h ++ [GotApplication name NS answer] ∧
    match r, answer with
    | Ok app, Ok app' => app = app'
    | Err err, Err err' => op_IsNotFound err = op_IsNotFound err'
    | _, _ => False
    end.
Proof.
  unfold fetchApplication. cbn. destruct (s_GetApplication U S h name NS) as [app|err]; cbn; eexists; done.
Qed.

Lemma listSubApplications_calls cluster h :
  let '(r, h') := listSubApplications NS cluster h in
  ∃ answer, h' = h ++ [ListedApplications NS ClusterLabel (cl_Name cluster) answer] ∧
    match r, answer with
    | Ok apps, Ok apps' => apps = apps'
    | Err _, Err _ => True
    | _, _ => False
    end.
Proof.
  unfold listSubApplications. cbn.
  destruct (s_ListApplications U S h NS ClusterLabel (cl_Name cluster)) as [apps|err]; cbn; eexists; done.
Qed.

(** ** Deletion *)

(** The answer of a ConfigMap without the entry of the cluster. *)
Definition no_entry cluster (r : result OpError (option (gmap string string))) : Prop :=
  match r with
  | Err err => op_IsNotFound err = true
  | Ok None => True
  | Ok (Some data) => data !! cl_Name cluster = None
  end.

(** The calls have found no Application of the cluster, and no entry of it, or removed it. *)
Definition gone cluster (calls : list (Event U)) : Prop :=
  (∃ err, GotApplication (cl_Name cluster) NS (Err err) ∈ calls ∧ op_IsNotFound err = true) ∧
  ListedApplications NS ClusterLabel (cl_Name cluster) (Ok []) ∈ calls ∧
  (ConfigMapName = EmptyString ∨
   (∃ r, GotConfigMap ConfigMapName NS r ∈ calls ∧ no_entry cluster r) ∨
   (∃ data, UpdatedConfigMap ConfigMapName NS data (Ok tt) ∈ calls ∧ data !! cl_Name cluster = None)).

(** A call that does not update the Cluster object. *)
Definition no_update (e : Event U) : Prop := match e with UpdatedCluster _ _ => False | _ => True end.

Lemma removeClusterFromConfigMap_calls cluster h :
  let '(r, h') := removeClusterFromConfigMap NS ConfigMapName cluster h in
  ∃ calls, h' = h ++ calls ∧ Forall no_update calls ∧
    (is_Ok r = true → ConfigMapName = EmptyString ∨
      (∃ r, GotConfigMap ConfigMapName NS r ∈ calls ∧ no_entry cluster r) ∨
      (∃ data, UpdatedConfigMap ConfigMapName NS data (Ok tt) ∈ calls ∧ data !! cl_Name cluster = None)).
Proof.
  unfold removeClusterFromConfigMap. destruct (decide (ConfigMapName = EmptyString)) as [Hn|Hn].
  { exists []. rewrite app_nil_r. auto. }
  cbn. destruct (s_GetConfigMap U S h ConfigMapName NS) as [[data|]|err] eqn:Hget; cbn.
  - destruct (data !! cl_Name cluster) as [v|] eqn:Hv; cbn.
    + set (data' := delete (cl_Name cluster) data).
      destruct (s_UpdateConfigMap U S _ ConfigMapName NS data') as [[]|err]; cbn;
        (eexists [_; _]; rewrite <-app_assoc; split; [done|]; split; [by repeat constructor|]).
      * intros _. right; right. exists data'. split; [set_solver|]. apply lookup_delete_eq.
      * done.
    + eexists [_]. split; [done|]. split; [by repeat constructor|]. intros _. right; left.
      eexists. split; [left|]. done.
  - eexists [_]. split; [done|]. split; [by repeat constructor|]. intros _. right; left.
    eexists. split; [left|]. done.
  - destruct (op_IsNotFound err) eqn:He; (eexists [_]; split; [done|]; split; [by repeat constructor|]).
    + intros _. right; left. eexists. split; [left|]. done.
    + done.
Qed.

Lemma remainingApps_nil (root : option U) subApps :
  remainingApps root subApps = [] → root = None ∧ subApps = [].
Proof. destruct root, subApps; done. Qed.

Lemma cleanupSubApplications_calls cluster root h :
  let '(r, h') := cleanupSubApplications NS ConfigMapName cluster root h in
  ∃ calls, h' = h ++ calls ∧ Forall no_update calls ∧
    (is_Ok r = true → root = None ∧
      ∀ err, op_IsNotFound err = true → gone cluster (GotApplication (cl_Name cluster) NS (Err err) :: calls)).
Proof.
  unfold cleanupSubApplications. pose proof (listSubApplications_calls cluster h) as Hl.
  destruct (listSubApplications NS cluster h) as [subs h2]. destruct Hl as (listed & -> & Hl).
  destruct subs as [subApps|err], listed as [apps|err']; try done;
    [|eexists [_]; split; [done|]; split; [by repeat constructor|done]].
  subst apps. case_decide as Hrest; [eexists [_]; split; [done|]; split; [by repeat constructor|done]|].
  apply remainingApps_nil in Hrest as [-> ->].
  set (h1 := h ++ [_]). pose proof (removeClusterFromConfigMap_calls cluster h1) as Hc.
  destruct (removeClusterFromConfigMap NS ConfigMapName cluster h1) as [r h3].
  destruct Hc as (calls & -> & Hq & Hgone). subst h1.
  destruct r as [[]|e]; (eexists (_ :: calls); rewrite <-!app_assoc; split; [done|];
    split; [by repeat constructor|]); [|done].
  intros _. specialize (Hgone eq_refl). split; [done|]. intros err Hnf.
  split; [exists err; split; [left|done]|]. split; [right; left|].
  destruct Hgone as [?|[(x & ? & ?)|(x & ? & ?)]]; [by left|right; left|right; right];
    exists x; (split; [do 2 right|]); done.
Qed.

Lemma cleanupCluster_calls cluster h :
  let '(r, h') := cleanupCluster NS ConfigMapName cluster h in
  ∃ calls, h' = h ++ calls ∧ Forall no_update calls ∧ (is_Ok r = true → gone cluster calls).
Proof.
  unfold cleanupCluster. pose proof (fetchApplication_calls (cl_Name cluster) h) as Hf.
  destruct (fetchApplication NS (cl_Name cluster) h) as [root h1]. destruct Hf as (answer & -> & Ha).
  set (h1 := h ++ [_]).
  assert (Hsub : ∀ rootApp, (rootApp = None → ∃ err, answer = Err err ∧ op_IsNotFound err = true) →
    let '(r, h') := cleanupSubApplications NS ConfigMapName cluster rootApp h1 in
    ∃ calls, h' = h ++ calls ∧ Forall no_update calls ∧ (is_Ok r = true → gone cluster calls)).
  { intros rootApp Hroot. pose proof (cleanupSubApplications_calls cluster rootApp h1) as Hc.
    destruct (cleanupSubApplications NS ConfigMapName cluster rootApp h1) as [r h2].
    destruct Hc as (calls & -> & Hq & Hgone). subst h1. rewrite <-app_assoc. eexists. split; [done|].
    split; [by constructor|]. intros Hr. destruct (Hgone Hr) as [-> Hg].
    destruct (Hroot eq_refl) as (err & -> & Hnf). by apply Hg. }
  destruct root as [app|err]; [by apply (Hsub (Some app))|]. destruct answer as [app'|err']; [done|].
  destruct (op_IsNotFound err) eqn:Hnf.
  - apply (Hsub None). intros _. exists err'. split; [done|]. congruence.
  - eexists [_]. split; [done|]. split; [by repeat constructor|done].
Qed.

(** *** The status only reads and patches *)

Lemma GetApplicationVersion_quiet name h :
  appends no_update h (GetApplicationVersion name NS h).2.
Proof.
  unfold GetApplicationVersion. cbn. destruct (s_GetApplication U S h name NS); cbn; [|case_decide; cbn];
    by apply appends_call.
Qed.

Lemma updateAppsStatus_quiet cluster s h : appends no_update h (updateAppsStatus NS cluster s h).2.
Proof.
  unfold updateAppsStatus. pose proof (listSubApplications_calls cluster h) as Hl.
  destruct (listSubApplications NS cluster h) as [[apps|err] h']; destruct Hl as (answer & -> & _);
    by apply appends_call.
Qed.

Lemma updateCompatibilityCondition_quiet cluster s h :
  appends no_update h (updateCompatibilityCondition MinV MaxV NS cluster s h).2.
Proof.
  unfold updateCompatibilityCondition, GetCurrentManagementVersion.
  pose proof (GetApplicationVersion_quiet ManagementAppName h) as Hq.
  destruct (GetApplicationVersion ManagementAppName NS h) as [[v|err] h']; [|done]. by case_decide.
Qed.

Lemma syncStatus_quiet cluster (app : option U) k8sVersion nodeCount ceph err lastSync h :
  appends no_update h (syncStatus MinV MaxV NS cluster app k8sVersion nodeCount ceph err lastSync h).2.
Proof.
  unfold syncStatus.
  match goal with |- context [match err with Some _ => (?s, h) | None => _ end] => set (s1 := s) end.
  assert (Hv : appends no_update h (match err with
    | Some _ => (s1, h)
    | None => match GetCurrentClusterVersion (cl_Name cluster) NS h with
              | (Err _, k) => (s1, k)
              | (Ok v, k) => (if decide (v ≠ EmptyString) then set_SuperphenixVersion v s1 else s1, k)
              end
    end).2).
  { destruct err; [apply appends_refl|]. unfold GetCurrentClusterVersion.
    pose proof (GetApplicationVersion_quiet (cl_Name cluster) h) as Hq.
    by destruct (GetApplicationVersion _ _ _) as [[v|e] h']. }
  destruct (match err with Some _ => _ | None => _ end) as [s2 h2]. cbn in Hv.
  pose proof (updateAppsStatus_quiet cluster s2 h2) as Ha.
  destruct (updateAppsStatus NS cluster s2 h2) as [s3 h3]. cbn in Ha.
  pose proof (updateCompatibilityCondition_quiet cluster s3 h3) as Hc.
  destruct (updateCompatibilityCondition MinV MaxV NS cluster s3 h3) as [s4 h4]. cbn in Hc.
  cbn [PatchClusterStatus server recorded record fst snd].
  eapply appends_trans; [exact Hv|]. eapply appends_trans; [exact Ha|].
  eapply appends_trans; [exact Hc|]. by apply appends_call.
Qed.

(** *** The finalizer *)

(** Every update of a cluster among the calls that has no finalizer comes last, after calls that
    have found the cluster gone. *)
Definition finalizer_guarded cluster (calls : list (Event U)) : Prop :=
  ∀ before after c r, calls = before ++ UpdatedCluster c r :: after → FinalizerName ∉ cl_Finalizers c →
    c = RemoveFinalizer cluster FinalizerName ∧ after = [] ∧ gone cluster before.

Lemma no_update_guarded cluster calls : Forall no_update calls → finalizer_guarded cluster calls.
Proof.
  intros Hq before after c r ->. apply Forall_app in Hq as [_ Hq]. by apply Forall_cons in Hq as [? _].
Qed.

Lemma RemoveFinalizer_removes cluster finalizer :
  finalizer ∉ cl_Finalizers (RemoveFinalizer cluster finalizer).
Proof. cbn. rewrite list_elem_of_filter. tauto. Qed.

(** An update that ends calls without any. *)
Lemma split_last_update calls c r before after c' r' :
  Forall no_update calls → calls ++ [UpdatedCluster c r] = before ++ UpdatedCluster c' r' :: after →
  before = calls ∧ after = [] ∧ c' = c.
Proof.
  intros Hq. revert before. induction calls as [|e calls IH]; intros before Heq.
  - destruct before as [|b before]; [by simplify_eq/=|]. cbn in Heq. injection Heq as _ Heq.
    by destruct before.
  - apply Forall_cons in Hq as [He Hq]. destruct before as [|b before]; cbn in Heq; [by simplify_eq|].
    injection Heq as -> Heq. destruct (IH Hq _ Heq) as (-> & -> & ->). done.
Qed.

Lemma reconcileDeletion_calls cluster h :
  let '(_, h') := reconcileDeletion MinV MaxV NS ConfigMapName cluster h in
  ∃ calls, h' = h ++ calls ∧ finalizer_guarded cluster calls.
Proof.
  unfold reconcileDeletion. destruct (negb _).
  { exists []. rewrite app_nil_r. split; [done|]. by apply no_update_guarded. }
  pose proof (cleanupCluster_calls cluster h) as Hc.
  destruct (cleanupCluster NS ConfigMapName cluster h) as [r h1].
  destruct Hc as (calls & -> & Hq & Hgone). destruct r as [[]|err].
  - cbn [UpdateCluster server recorded record].
    destruct (s_UpdateCluster U S (h ++ calls) _) as [[]|err]; rewrite <-app_assoc;
      (eexists; split; [done|]); intros before after c r Heq _;
      apply (split_last_update calls) in Heq as (-> & -> & ->); try done;
      (split_and!; [done|done|]); by apply Hgone.
  - pose proof (syncStatus_quiet cluster None EmptyString 0 None (Some err) None (h ++ calls)) as Hs.
    destruct (syncStatus _ _ _ _ _ _ _ _ _ _ _) as [x h2]. destruct Hs as (calls2 & Heq & Hq2).
    cbn in Heq. subst h2. rewrite <-app_assoc. eexists. split; [done|]. apply no_update_guarded.
    by apply Forall_app.
Qed.

Lemma gone_prefixed cluster calls calls' : gone cluster calls → gone cluster (calls' ++ calls).
Proof.
  intros ((err & He & Hnf) & Hl & Hcm). split; [exists err; set_solver|]. split; [set_solver|].
  destruct Hcm as [?|[(x & ? & ?)|(x & ? & ?)]]; [by left|right; left; exists x|right; right; exists x];
    (split; [set_solver|done]).
Qed.

Lemma CheckCRDs_quiet h : appends no_update h (CheckCRDs h).2.
Proof.
  unfold CheckCRDs. cbn. destruct (s_RESTMapping U S h "Application"); cbn; [|by apply appends_call].
  destruct (s_RESTMapping U S _ "AppProject"); cbn; (eapply appends_trans; by apply appends_call).
Qed.

(** Calls whose updates of clusters come after others that have none. *)
Lemma update_after (quiet calls before after : list (Event U)) c r :
  Forall no_update quiet → quiet ++ calls = before ++ UpdatedCluster c r :: after →
  ∃ before', before = quiet ++ before' ∧ calls = before' ++ UpdatedCluster c r :: after.
Proof.
  intros Hq. revert before. induction quiet as [|e quiet IH]; intros before Heq; [by eexists|].
  apply Forall_cons in Hq as [He Hq]. destruct before as [|b before]; cbn in Heq; [by simplify_eq|].
  injection Heq as -> Heq. destruct (IH Hq _ Heq) as (before' & -> & ->). by eexists.
Qed.

(** A run appends calls that update no cluster. *)
Definition quiet_run {A} (h : list (Event U)) (run : option (A * list (Event U))) : Prop :=
  match run with Some (_, h') => appends no_update h h' | None => True end.

Lemma no_update_last (calls before after : list (Event U)) c r :
  Forall no_update calls → calls ≠ before ++ UpdatedCluster c r :: after.
Proof. intros Hq ->. apply Forall_app in Hq as [_ Hq]. by apply Forall_cons in Hq as [? _]. Qed.

(** The calls that remove the finalizer of a cluster, in a run of [Reconcile]. *)
Definition finalizer_kept namespace name h : Prop :=
  ∀ before after c r, h = before ++ UpdatedCluster c r :: after → FinalizerName ∉ cl_Finalizers c →
  ∃ cluster, c = RemoveFinalizer cluster FinalizerName ∧ cl_Deleting cluster = true ∧
    GotCluster namespace name (Ok cluster) ∈ before ∧ gone cluster before ∧ after = [].

Lemma quiet_kept namespace name h : Forall no_update h → finalizer_kept namespace name h.
Proof. intros Hq before after c r Heq. by apply no_update_last in Heq. Qed.

Lemma reconcileDeletion_kept namespace name cluster h :
  Forall no_update h → cl_Deleting cluster = true → GotCluster namespace name (Ok cluster) ∈ h →
  finalizer_kept namespace name (reconcileDeletion MinV MaxV NS ConfigMapName cluster h).2.
Proof.
  intros Hq Hdel Hgot. pose proof (reconcileDeletion_calls cluster h) as Hc.
  destruct (reconcileDeletion _ _ _ _ cluster h) as [res h2]. destruct Hc as (calls & -> & Hg).
  intros before after c r Heq Hno. apply (update_after h) in Heq as (before' & -> & Heq); [|done].
  destruct (Hg _ _ _ _ Heq Hno) as (-> & -> & Hgone). exists cluster. split_and!; try done.
  - apply elem_of_app. by left.
  - by apply gone_prefixed.
Qed.

(** The update that adds the finalizer does not remove it, and nothing else updates the cluster. *)
Lemma addFinalizer_kept namespace name h cluster r calls :
  Forall no_update h → Forall no_update calls →
  finalizer_kept namespace name (h ++ UpdatedCluster (AddFinalizer cluster FinalizerName) r :: calls).
Proof.
  intros Hq Hqc before after c r' Heq Hno. exfalso.
  apply (update_after h) in Heq as (before' & -> & Heq); [|done].
  destruct before' as [|b before']; cbn in Heq.
  - injection Heq as <- _ _. apply Hno. cbn. case_decide; [done|]. apply elem_of_app. right. left.
  - injection Heq as _ Heq. by apply no_update_last in Heq.
Qed.

(** The finalizer of a cluster is kept by a reconciliation, whatever it does on a cluster that is not
    being deleted, as long as it updates no cluster there. *)
Lemma Reconcile_kept reconcileCluster namespace name res h :
  (∀ c h, quiet_run h (reconcileCluster c h)) →
  Reconcile MinV MaxV NS ConfigMapName reconcileCluster namespace name [] = Some (res, h) →
  finalizer_kept namespace name h.
Proof.
  intros Hrec. unfold Reconcile. case_decide; [by intros [= _ <-]; apply quiet_kept|].
  cbn [GetCluster server recorded record app].
  destruct (s_GetCluster U S [] namespace name) as [cluster|err];
    [|intros [= _ <-]; apply quiet_kept; by repeat constructor].
  pose proof (CheckCRDs_quiet [GotCluster namespace name (Ok cluster)]) as Hcrd.
  destruct (CheckCRDs _) as [crd h1]. destruct Hcrd as (mapped & Heq & Hm). cbn in Heq. subst h1.
  set (h1 := GotCluster namespace name (Ok cluster) :: mapped).
  assert (Hq1 : Forall no_update h1) by by constructor.
  destruct crd as [[]|err]; [|intros [= _ <-]; by apply quiet_kept].
  assert (Hquiet : ∀ c h0, Forall no_update h0 → reconcileCluster c h0 = Some (res, h) →
    ∃ calls, h = h0 ++ calls ∧ Forall no_update calls).
  { intros c h0 H0 Hrun. pose proof (Hrec c h0) as Hq. rewrite Hrun in Hq. exact Hq. }
  destruct (cl_Deleting cluster) eqn:Hdel.
  - intros [= Hrun]. replace h with (reconcileDeletion MinV MaxV NS ConfigMapName cluster h1).2 by (by rewrite Hrun).
    apply reconcileDeletion_kept; [done|done|left].
  - destruct (ContainsFinalizer cluster FinalizerName).
    + intros Hrun. destruct (Hquiet _ _ Hq1 Hrun) as (calls & -> & Hq). apply quiet_kept. by apply Forall_app.
    + cbn [UpdateCluster server recorded record].
      destruct (s_UpdateCluster U S h1 _) as [[]|err]; intros Hrun.
      * pose proof (Hrec (AddFinalizer cluster FinalizerName)
          (h1 ++ [UpdatedCluster (AddFinalizer cluster FinalizerName) (Ok tt)])) as Hq.
        rewrite Hrun in Hq. destruct Hq as (calls & -> & Hq). rewrite <-app_assoc.
        by apply addFinalizer_kept.
      * injection Hrun as _ <-. by apply (addFinalizer_kept namespace name h1 cluster (Err err) []).
Qed.

(** ** The periodic synchronisation *)

(** A call that only reads Applications. *)
Definition reads (e : Event U) : Prop :=
  match e with GotApplication _ _ _ | ListedApplications _ _ _ _ => True | _ => False end.

(** The calls have found the Application. *)
Definition found app h : Prop :=
  (∃ namespace label name apps, ListedApplications namespace label name (Ok apps) ∈ h ∧ app ∈ apps) ∨
  (∃ name namespace, GotApplication name namespace (Ok app) ∈ h).

(** An operation was found to run for longer than the timeout. *)
Definition stuck h : Prop :=
  ∃ h1 app, h1 `prefix_of` h ∧ found app h1 ∧ isRunning app = true ∧
    SyncTimeout ≤ s_Now U S h1 - startedAt h1 app.

(** What a synchronisation may call, [late] being whether an operation is stuck. *)
Definition allowed (late : Prop) (e : Event U) : Prop :=
  match e with
  | GotApplication _ _ _ | ListedApplications _ _ _ _ => True
  | PatchedApplication base app _ => SetSyncOperation base = Some app ∧ (isRunning base = false ∨ late)
  | PatchedApplicationStatus base app _ =>
    isRunning base = true ∧ late ∧
    SetNestedString base operationPhaseTerminating ["status"; "operationState"; "phase"] = Some app
  | ClearedOperation _ _ => late
  | _ => False
  end.

Definition due cluster h : Prop :=
  match LastSync (Status cluster) with Some t => SyncPeriod ≤ s_Now U S h - t | None => True end.

Lemma reads_allowed late e : reads e → allowed late e.
Proof. by destruct e. Qed.

Lemma stuck_prefix h h' : h `prefix_of` h' → stuck h → stuck h'.
Proof. intros Hp (h1 & app & Hp1 & Hrest). exists h1, app. split; [by trans h|done]. Qed.

Lemma oldestRunning_found h apps :
  (oldestRunning h apps).1 = true →
  ∃ app, app ∈ apps ∧ isRunning app = true ∧ (oldestRunning h apps).2 = startedAt h app.
Proof.
  unfold oldestRunning.
  assert (Hgen : ∀ apps b o, (b = false → o = 0) →
    let r := fold_left (λ '(inProgress, oldest) app,
      if isRunning app
      then (true, if decide (oldest = 0 ∨ startedAt h app < oldest) then startedAt h app else oldest)
      else (inProgress, oldest)) apps (b, o) in
    r.1 = true → (b = true ∧ r.2 = o) ∨
      ∃ app, app ∈ apps ∧ isRunning app = true ∧ r.2 = startedAt h app).
  { clear apps. induction apps as [|a apps IH]; intros b o Hb; cbn; [auto|].
    destruct (isRunning a) eqn:Ha; intros Hr; apply IH in Hr; [|done| |done].
    - destruct Hr as [[_ Hr]|(x & Hx & Hrest)]; [|right; exists x; split; [by right|done]].
      case_decide as Hd; [right; exists a; split; [left|done]|].
      destruct b; [by left|]. destruct Hd. left. by apply Hb.
    - destruct Hr as [?|(x & Hx & Hrest)]; [by left|right; exists x; split; [by right|done]]. }
  intros Hr. apply (Hgen apps false 0) in Hr as [[? _]|?]; done.
Qed.

(** *** Listing *)

Lemma fetchApplication_reads name h : appends reads h (fetchApplication NS name h).2.
Proof.
  pose proof (fetchApplication_calls name h) as Hf.
  destruct (fetchApplication NS name h) as [r h']. destruct Hf as (answer & -> & _). by apply appends_call.
Qed.

Lemma listSubApplications_reads cluster h : appends reads h (listSubApplications NS cluster h).2.
Proof.
  pose proof (listSubApplications_calls cluster h) as Hl.
  destruct (listSubApplications NS cluster h) as [r h']. destruct Hl as (answer & -> & _). by apply appends_call.
Qed.

Lemma listAllApplications_found cluster h :
  let '(r, h') := listAllApplications NS cluster h in
  appends reads h h' ∧ ∀ apps app, r = Ok apps → app ∈ apps → found app h'.
Proof.
  unfold listAllApplications. pose proof (listSubApplications_calls cluster h) as Hl.
  destruct (listSubApplications NS cluster h) as [[apps|err] h1]; destruct Hl as (listed & -> & Hl);
    [|split; [by apply appends_call|done]].
  destruct listed as [apps'|]; [|done]. subst apps'. set (h1 := h ++ _).
  pose proof (fetchApplication_calls (cl_Name cluster) h1) as Hf.
  destruct (fetchApplication NS (cl_Name cluster) h1) as [root h2]. destruct Hf as (answer & -> & Hr).
  assert (Hreads : appends reads h (h1 ++ [GotApplication (cl_Name cluster) NS answer])).
  { eapply appends_trans; by apply appends_call. }
  assert (Hlisted : ∀ app e, app ∈ apps → found app (h1 ++ [e])).
  { intros app e Happ. left. exists NS, ClusterLabel, (cl_Name cluster), apps. subst h1. set_solver. }
  destruct root as [rootApp|err]; (split; [exact Hreads|]); intros ? app [= <-] Happ; [|by apply Hlisted].
  apply elem_of_app in Happ as [Happ|Happ%list_elem_of_singleton]; [by apply Hlisted|]. subst app.
  destruct answer as [a|]; [|done]. subst a. right. exists (cl_Name cluster), NS. set_solver.
Qed.

(** *** Triggering and aborting *)

Lemma triggerApplicationSync_allowed late app force h :
  (force = true → late) → appends (allowed late) h (triggerApplicationSync app force h).2.
Proof.
  intros Hforce. unfold triggerApplicationSync.
  destruct (negb force && isRunning app) eqn:Hskip; [apply appends_refl|].
  destruct (SetSyncOperation app) as [app'|] eqn:Hset; [|apply appends_refl].
  cbn. assert (Hrun : isRunning app = false ∨ late).
  { destruct force; [right; by apply Hforce|]. by left. }
  destruct (s_PatchApplication U S h app app'); by apply appends_call.
Qed.

Lemma triggerAll_allowed late apps force h :
  (force = true → late) → appends (allowed late) h (triggerAll apps force h).
Proof.
  intros Hforce. revert h. induction apps as [|app apps IH]; intros h; [apply appends_refl|].
  cbn. eapply appends_trans; [by apply triggerApplicationSync_allowed|apply IH].
Qed.

Lemma syncSubApplications_allowed late cluster force h :
  (force = true → late) → appends (allowed late) h (syncSubApplications NS cluster force h).
Proof.
  intros Hforce. unfold syncSubApplications.
  pose proof (fetchApplication_reads (cl_Name cluster) h) as Hf.
  destruct (fetchApplication NS (cl_Name cluster) h) as [root h1]. cbn in Hf.
  apply (appends_mono _ (allowed late)) in Hf; [|apply reads_allowed].
  set (h2 := match root with Ok _ => _ | Err _ => _ end).
  assert (H2 : appends (allowed late) h h2).
  { subst h2. destruct root; [|done]. eapply appends_trans; [done|]. by apply triggerApplicationSync_allowed. }
  replace (match root with Ok _ => _ | Err _ => _ end) with h2 by done.
  pose proof (listSubApplications_reads cluster h2) as Hl.
  destruct (listSubApplications NS cluster h2) as [subs h3]. cbn in Hl.
  apply (appends_mono _ (allowed late)) in Hl; [|apply reads_allowed].
  assert (H3 : appends (allowed late) h h3) by by eapply appends_trans.
  destruct subs; [|done]. eapply appends_trans; [done|]. by apply triggerAll_allowed.
Qed.

Lemma abortSync_allowed (late : Prop) app h : late → appends (allowed late) h (abortSync app h).
Proof.
  intros Hlate. unfold abortSync. destruct (isRunning app) eqn:Hrun; [|apply appends_refl].
  destruct (SetNestedString app _ _) as [app'|] eqn:Hset; [|apply appends_refl].
  cbn. destruct (s_PatchApplicationStatus U S h app app') as [app''|err]; cbn.
  - eapply appends_trans; by apply appends_call.
  - by apply appends_call.
Qed.

Lemma abortInProgressSyncs_allowed (late : Prop) cluster h :
  late → let '(r, h') := abortInProgressSyncs NS cluster h in
  appends (allowed late) h h' ∧ (is_Ok r = false → appends reads h h').
Proof.
  intros Hlate. unfold abortInProgressSyncs. pose proof (listAllApplications_found cluster h) as Hl.
  destruct (listAllApplications NS cluster h) as [[apps|err] h1]; destruct Hl as [Hreads _].
  - split; [|done]. eapply appends_trans; [eapply appends_mono; [apply reads_allowed|exact Hreads]|].
    clear Hreads. revert h1. induction apps as [|app apps IH]; intros h1; cbn; [apply appends_refl|].
    eapply appends_trans; [by apply abortSync_allowed|apply IH].
  - split; [|done]. eapply appends_mono; [apply reads_allowed|exact Hreads].
Qed.

(** The periodic synchronisation of a cluster does nothing before [SyncPeriod] has passed since the
    last one; it then only triggers Applications that run no operation, unless an operation found
    on one of them has run for at least [SyncTimeout], and only then does it terminate running
    operations. Whatever the API server answers, it writes nothing when it reports no
    synchronisation. *)
Theorem periodic_sync_guarded cluster h :
  let '(triggered, h') := runPeriodicSync NS SyncPeriod SyncTimeout cluster h in
  (¬ due cluster h → triggered = false ∧ h' = h) ∧
  appends (allowed (stuck h')) h h' ∧
  (triggered = false → appends reads h h').
Proof.
  unfold runPeriodicSync, due. cbn [Now server recorded].
  set (recent := match LastSync (Status cluster) with Some t => _ | None => _ end).
  assert (Hrecent : recent = true ↔ ¬ due cluster h).
  { subst recent. unfold due. destruct (LastSync _); [rewrite bool_decide_eq_true; lia|naive_solver]. }
  destruct recent; [split_and!; [done|apply appends_refl|intros; apply appends_refl]|].
  unfold syncInProgress. pose proof (listAllApplications_found cluster h) as Hl.
  destruct (listAllApplications NS cluster h) as [[apps|err] h1]; destruct Hl as [Hreads Hfound];
    (assert (Hr' : ∀ late, appends (allowed late) h h1)
      by (intros; eapply appends_mono; [apply reads_allowed|exact Hreads]));
    [|split_and!; [naive_solver|done|done]].
  pose proof (oldestRunning_found h1 apps) as Hold.
  destruct (oldestRunning h1 apps) as [inProgress oldest]. cbn [fst snd] in Hold.
  destruct inProgress; cycle 1.
  { split_and!; [naive_solver| |done]. eapply appends_trans; [apply Hr'|].
    by apply syncSubApplications_allowed. }
  case_decide as Hlate; [split_and!; [naive_solver|done|done]|].
  assert (Hstuck : ∀ h', h1 `prefix_of` h' → stuck h').
  { intros h' Hp. destruct (Hold eq_refl) as (app & Happ & Hrun & ->). exists h1, app.
    split_and!; [done|by eapply Hfound|done|lia]. }
  pose proof (abortInProgressSyncs_allowed True cluster h1 I) as Ha0.
  destruct (abortInProgressSyncs NS cluster h1) as [[[]|err] h2] eqn:Ha.
  - assert (Hlater : appends (allowed True) h1 (syncSubApplications NS cluster true h2)).
    { eapply appends_trans; [apply Ha0|]. by apply syncSubApplications_allowed. }
    apply appends_prefix, Hstuck in Hlater as Hs.
    pose proof (abortInProgressSyncs_allowed (stuck (syncSubApplications NS cluster true h2)) cluster h1 Hs) as Ha1.
    rewrite Ha in Ha1. split_and!; [naive_solver| |done].
    eapply appends_trans; [apply Hr'|]. eapply appends_trans; [apply Ha1|].
    by apply syncSubApplications_allowed.
  - split_and!; [naive_solver| |].
    + apply (appends_mono reads); [apply reads_allowed|]. eapply appends_trans; [done|]. by apply Ha0.
    + intros _. eapply appends_trans; [done|]. by apply Ha0.
Qed.
End theorems.
