(* ===== verification/Connections.v ===== *)
(** * Connecting to the clusters
      ([internal/superphenix-operator/cluster/argocd.go], [health.go], [ceph.go], [kubeconfig.go])

    The credentials of a cluster, read from a Secret and given to ArgoCD and to the toolbox, and the
    health check. Bytes are strings. The files, the REST clients and the codecs are a class. *)

From Stdlib Require Import Ascii.
From S2P Require Import Prelude Strings Operator ClusterStatus ClusterSync.
(** JSON values, as [map[string]interface{}] holds them. *)
#[warnings="-automation"]
Inductive Value :=
  | VString (s : string) | VBool (b : bool) | VInt (z : Z)
  | VList (l : list Value) | VMap (m : gmap string Value).

Definition ReasonConnectionSuccess : string := "ConnectionSuccess".
Definition ConnectionModeRemote : string := "Remote".
Definition ConnectionModeLocal : string := "Local".
Definition ToolboxKubeconfigSecretName : string := "superphenix-toolbox-kubeconfig".

(** ** Base64 ([base64.StdEncoding]) *)

Definition base64Digit (n : N) : ascii :=
  ascii_of_N (if decide (n < 26) then 65 + n else if decide (n < 52) then 71 + n
              else if decide (n < 62) then n - 4 else if decide (n = 62) then 43 else 47)%N.

Fixpoint base64 (s : string) : string :=
  match s with
  | EmptyString => EmptyString
  | String a EmptyString =>
    let n := (N_of_ascii a * 16)%N in
    String (base64Digit (n / 64)) (String (base64Digit (n mod 64)) "==")
  | String a (String b EmptyString) =>
    let n := ((N_of_ascii a * 256 + N_of_ascii b) * 4)%N in
    String (base64Digit (n / 4096)) (String (base64Digit (n / 64 mod 64))
      (String (base64Digit (n mod 64)) "="))
  | String a (String b (String c s)) =>
    let n := ((N_of_ascii a * 256 + N_of_ascii b) * 256 + N_of_ascii c)%N in
    String (base64Digit (n / 262144)) (String (base64Digit (n / 4096 mod 64))
      (String (base64Digit (n / 64 mod 64)) (String (base64Digit (n mod 64)) (base64 s))))
  end.

Example base64_vectors :
  base64 <$> ["f"; "fo"; "foo"; "foob"; "fooba"; "foobar"] =
  ["Zg=="; "Zm8="; "Zm9v"; "Zm9vYg=="; "Zm9vYmE="; "Zm9vYmFy"].
Proof. vm_compute. reflexivity. Qed.

(** ** The credentials *)

Record Secret := mkSecret {
  sec_Labels : option (gmap string string); sec_Owner : option string;
  Data : gmap string string; StringData : gmap string string }.

Record connectionData := mkConnectionData {
  bearerToken : string; username : string; password : string;
  caData : string; certData : string; keyData : string;
  insecure : bool; serverName : string; hasAuth : bool; tlsClientConfig : gmap string Value }.

Definition getData (secret : Secret) (key : string) : option string :=
  match Data secret !! key with Some v => Some v | None => StringData secret !! key end.

Definition getString (secret : Secret) (key : string) : string :=
  match getData secret key with Some v => TrimSpace v | None => EmptyString end.

Definition extractConnectionData (secret : Secret) : connectionData :=
  let token := getString secret "bearerToken" in
  let username := getString secret "username" in
  let password := getString secret "password" in
  let caData := default EmptyString (getData secret "caData") in
  let certData := default EmptyString (getData secret "certData") in
  let keyData := default EmptyString (getData secret "keyData") in
  let insecureText := getString secret "insecure" in
  let insecure := bool_decide (insecureText = "true") in
  let serverName := getString secret "serverName" in
  let hasAuth := bool_decide (token ≠ EmptyString ∨ username ≠ EmptyString ∨ password ≠ EmptyString ∨
    certData ≠ EmptyString ∧ keyData ≠ EmptyString) in
  let encoded (key bytes : string) (tls : gmap string Value) :=
    if decide (bytes ≠ EmptyString) then <[key := VString (base64 bytes)]> tls else tls in
  let tls := encoded "keyData" keyData (encoded "certData" certData (encoded "caData" caData ∅)) in
  let tls := if decide (insecureText ≠ EmptyString) then <["insecure" := VBool insecure]> tls else tls in
  let tls := if decide (serverName ≠ EmptyString) then <["serverName" := VString serverName]> tls else tls in
  mkConnectionData token username password caData certData keyData insecure serverName hasAuth tls.

(** [rest.Config] *)
Record RESTConfig := mkRESTConfig {
  Host : string; rc_Username : string; rc_Password : string; BearerToken : string;
  rc_CAData : string; rc_CertData : string; rc_KeyData : string; Insecure : bool; rc_ServerName : string }.

(** [fmt.Errorf("%w: <text>", errConfig)], and the same for [errInvalidSecret]. *)
Definition configError (text : string) : OpError := Errorf ("configuration error: " +:+ text).
Definition invalidSecret (text : string) : OpError := Errorf ("invalid secret: " +:+ text).

(** Only [invalidSecret] makes errors of [buildRESTConfig]. *)
Definition buildRESTConfig (url : string) (secret : Secret) : result OpError RESTConfig :=
  let connData := extractConnectionData secret in
  if negb (hasAuth connData) then
    Err (invalidSecret ("secret must contain authentication credentials " +:+
      "(username/password, bearerToken or certData/keyData)"))
  else Ok (mkRESTConfig url (username connData) (password connData) (bearerToken connData)
    (if insecure connData then EmptyString else caData connData)
    (certData connData) (keyData connData) (insecure connData) (serverName connData)).

(** ** What connecting calls *)

(** The configuration of the local cluster ([ctrl.GetConfig]), where data may be in files. *)
Record LocalConfig := mkLocalConfig {
  lc_Config : RESTConfig; CAFile : string; CertFile : string; KeyFile : string; BearerTokenFile : string }.

(** [clientcmdapi.Config]: the entries by name, and the current context. *)
Record KubeUser := mkKubeUser {
  Token : string; ku_Username : string; ku_Password : string;
  ClientCertificateData : string; ClientKeyData : string }.
Record KubeCluster := mkKubeCluster {
  ServerURL : string; CertificateAuthorityData : string; InsecureSkipTLSVerify : bool; TLSServerName : string }.
Record KubeContext := mkKubeContext { ctx_Cluster : string; ctx_AuthInfo : string }.
Record KubeConfig := mkKubeConfig {
  Clusters : gmap string KubeCluster; AuthInfos : gmap string KubeUser;
  Contexts : gmap string KubeContext; CurrentContext : string }.

(** A CephCluster: its [status.ceph] when there is one, as the FSID and the JSON text. *)
Record CephCluster := mkCephCluster { cephStatus : option (option string * option string) }.

(** The Secrets, the clusters, the REST clients, the files and the codecs. [CreateOrUpdateSecret]
    runs the function on the object, new or read, and writes it; [None] is a panic of the function. *)
Class ClusterClient (K : Type) := {
  GetSecret : string → string → K → result OpError Secret * K;
  CreateOrUpdateSecret : string → string → (Secret → K → option (result OpError Secret * K)) → K →
    option (result OpError unit * K);
  SetControllerReference : Cluster → option string → result OpError (option string);
  ListClusters : string → K → result OpError (list Cluster) * K;
  GetLocalConfig : K → result OpError LocalConfig;
  ReadFile : string → K → result OpError string;
  ServerVersion : RESTConfig → K → result OpError string * K;
  ListNodes : RESTConfig → K → result OpError Z * K;
  NewDynamicClient : RESTConfig → result OpError unit;
  ListCephClusters : RESTConfig → K → result OpError (list CephCluster) * K;
  MarshalJSON : gmap string Value → result OpError string;
  WriteKubeconfig : KubeConfig → result OpError string;
}.

Section connections.
Context {K : Type} {CC : ClusterClient K}.
Context (OperatorNamespace : string).

(** The namespace of the Secret of a cluster. *)
Definition secretNamespace (cluster : Cluster) (ref : SecretReference) : string :=
  if decide (sr_Namespace ref = EmptyString) then cl_Namespace cluster else sr_Namespace ref.

(** ** The Secret of ArgoCD *)

Definition with_Data (data : gmap string string) (s : Secret) : Secret :=
  mkSecret (sec_Labels s) (sec_Owner s) data (StringData s).
Definition with_Labels (labels : option (gmap string string)) (s : Secret) : Secret :=
  mkSecret labels (sec_Owner s) (Data s) (StringData s).
Definition with_Owner (owner : option string) (s : Secret) : Secret :=
  mkSecret (sec_Labels s) owner (Data s) (StringData s).

(** The configuration that ArgoCD reads. *)
Definition argocdConfig (connData : connectionData) : gmap string Value :=
  let set (key v : string) (config : gmap string Value) :=
    if decide (v ≠ EmptyString) then <[key := VString v]> config else config in
  <["tlsClientConfig" := VMap (tlsClientConfig connData)]>
    (set "password" (password connData) (set "username" (username connData)
      (set "bearerToken" (bearerToken connData) ∅))).

(** The function that [CreateOrUpdate] runs on the Secret of ArgoCD. *)
Definition argocdSecret (cluster : Cluster) (conn : ClusterConnectionSpec) (secret : Secret) (k : K) :
    result OpError Secret * K :=
  let labels := <[ClusterLabel := cl_Name cluster]>
    (<["argocd.argoproj.io/secret-type" := "cluster"]> (default ∅ (sec_Labels secret))) in
  let secret := with_Labels (Some labels) secret in
  match SetControllerReference cluster (sec_Owner secret) with
  | Err err => (Err err, k)
  | Ok owner =>
    let secret := with_Owner owner secret in
    match SecretRef conn with
    | None => (Err (configError "connection.secretRef is required when Mode is Remote"), k)
    | Some ref =>
      match GetSecret (sr_Name ref) (secretNamespace cluster ref) k with
      | (Err err, k) => (Err err, k)
      | (Ok connSecret, k) =>
        let connData := extractConnectionData connSecret in
        if decide (bearerToken connData = EmptyString ∧ username connData = EmptyString ∧
            password connData = EmptyString ∧
            (certData connData = EmptyString ∨ keyData connData = EmptyString)) then
          (Err (invalidSecret ("secret must contain either a bearerToken, a username/password pair " +:+
            "or certData/keyData")), k)
        else
          match MarshalJSON (argocdConfig connData) with
          | Err err => (Err err, k)
          | Ok config =>
            (Ok (with_Data (<["config" := config]> (<["server" := URL conn]>
              {["name" := cl_Name cluster]})) secret), k)
          end
      end
    end
  end.

(** [None] is the panic of a cluster without connection. *)
Definition reconcileArgoCDSecret (cluster : Cluster) (k : K) : option (result OpError unit * K) :=
  conn ← Connection (Spec cluster);
  if decide (Mode conn ≠ ConnectionModeRemote) then Some (Ok tt, k)
  else CreateOrUpdateSecret ("argocd-secret-" +:+ cl_Name cluster) OperatorNamespace
    (λ secret k, Some (argocdSecret cluster conn secret k)) k.

(** ** The kubeconfig of the toolbox *)

Definition mergeClusterIntoConfig (cfg : KubeConfig) (clusterName serverURL : string)
    (conn : connectionData) : KubeConfig :=
  mkKubeConfig
    (<[clusterName := mkKubeCluster serverURL (caData conn) (insecure conn) (serverName conn)]> (Clusters cfg))
    (<[clusterName := mkKubeUser (bearerToken conn) (username conn) (password conn)
      (certData conn) (keyData conn)]> (AuthInfos cfg))
    (<[clusterName := mkKubeContext clusterName clusterName]> (Contexts cfg))
    (if decide (CurrentContext cfg = EmptyString) then clusterName else CurrentContext cfg).

(** The data, or the content of the file when there is none. *)
Definition dataOrFile (what data file : string) (k : K) : result OpError string :=
  if decide (data = EmptyString ∧ file ≠ EmptyString) then
    match ReadFile file k with
    | Err err => Err (wrap ("failed to read " +:+ what +:+ " file " +:+ file +:+ ": ") err)
    | Ok bytes => Ok bytes
    end
  else Ok data.

Definition mergeLocalClusterIntoConfig (cfg : KubeConfig) (clusterName : string) (k : K) :
    result OpError KubeConfig :=
  match GetLocalConfig k with
  | Err err => Err (wrap "failed to get in-cluster REST config: " err)
  | Ok local =>
    let rest := lc_Config local in
    caData ← dataOrFile "CA" (rc_CAData rest) (CAFile local) k;
    certData ← dataOrFile "cert" (rc_CertData rest) (CertFile local) k;
    keyData ← dataOrFile "key" (rc_KeyData rest) (KeyFile local) k;
    token ← dataOrFile "bearer token" (BearerToken rest) (BearerTokenFile local) k;
    let token := if decide (BearerToken rest = EmptyString) then TrimSpace token else token in
    Ok (mergeClusterIntoConfig cfg clusterName (Host rest)
      (mkConnectionData token (rc_Username rest) (rc_Password rest) caData certData keyData
        (Insecure rest) (rc_ServerName rest) false ∅))
  end.

(** The entry of one cluster, skipped when it cannot be built. *)
Definition mergeCluster (cluster : Cluster) (merged : KubeConfig) (k : K) : KubeConfig * K :=
  match Connection (Spec cluster) with
  | None => (merged, k)
  | Some conn =>
    if decide (Mode conn = ConnectionModeLocal) then
      (match mergeLocalClusterIntoConfig merged (cl_Name cluster) k with
       | Ok merged => merged
       | Err _ => merged
       end, k)
    else if decide (Mode conn = ConnectionModeRemote) then
      match SecretRef conn with
      | None => (merged, k)
      | Some ref =>
        match GetSecret (sr_Name ref) (secretNamespace cluster ref) k with
        | (Err _, k) => (merged, k)
        | (Ok connSecret, k) =>
          (mergeClusterIntoConfig merged (cl_Name cluster) (URL conn) (extractConnectionData connSecret), k)
        end
      end
    else (merged, k)
  end.

Definition reconcileToolboxKubeconfigSecret (k : K) : option (result OpError unit * K) :=
  match ListClusters OperatorNamespace k with
  | (Err err, k) => Some (Err (wrap "failed to list clusters: " err), k)
  | (Ok clusters, k) =>
    let '(merged, k) := fold_left (λ '(merged, k) cluster, mergeCluster cluster merged k) clusters
      (mkKubeConfig ∅ ∅ ∅ EmptyString, k) in
    match WriteKubeconfig merged with
    | Err err => Some (Err (wrap "failed to serialize merged kubeconfig: " err), k)
    | Ok kubeconfigBytes =>
      written ← CreateOrUpdateSecret ToolboxKubeconfigSecretName OperatorNamespace
        (λ secret k, Some (Ok (with_Data {["kubeconfig" := kubeconfigBytes]}
          (with_Labels (Some (default ∅ (sec_Labels secret))) secret)), k)) k;
      match written with
      | (Err err, k) => Some (Err (wrap "failed to upsert toolbox kubeconfig secret: " err), k)
      | (Ok _, k) => Some (Ok tt, k)
      end
    end
  end.

(** ** The health check *)

Definition setReachableCondition (cluster : Cluster) (status : ConditionStatus) (reason message : string) :
    Cluster :=
  with_Status cluster (add_condition
    (mkCondition ConditionTypeReachable status reason message (cl_Generation cluster) 0) (Status cluster)).

Definition getRESTConfigForCluster (cluster : Cluster) (k : K) :
    (result OpError RESTConfig * Cluster) * K :=
  let refuse (reason : string) (err : OpError) (k : K) :=
    ((Err err, setReachableCondition cluster ConditionFalse reason (oe_text err)), k) in
  match Connection (Spec cluster) with
  | None => refuse ReasonConnectionConfigError (configError "connection configuration is missing") k
  | Some conn =>
    if decide (Mode conn = ConnectionModeLocal) then
      match GetLocalConfig k with
      | Err err => refuse ReasonConnectionFailed err k
      | Ok local => ((Ok (lc_Config local), cluster), k)
      end
    else if decide (URL conn = EmptyString) then
      refuse ReasonConnectionConfigError (configError "connection URL must be provided in Remote mode") k
    else match SecretRef conn with
      | None => refuse ReasonConnectionConfigError
                  (configError "secret reference must be provided in Remote mode") k
      | Some ref =>
        match GetSecret (sr_Name ref) (secretNamespace cluster ref) k with
        | (Err err, k) =>
          refuse (if op_IsNotFound err then ReasonSecretNotFound else ReasonConnectionFailed) err k
        | (Ok secret, k) =>
          match buildRESTConfig (URL conn) secret with
          | Err err => refuse ReasonInvalidSecret err k
          | Ok config => ((Ok config, cluster), k)
          end
        end
      end
  end.

(** By FSID; the statuses without one, or that cannot be encoded, are left out. *)
Definition cephByFSID (clusters : list CephCluster) : gmap string string :=
  fold_left (λ result ceph,
    match cephStatus ceph with
    | Some (Some fsid, Some bytes) =>
      if decide (fsid = EmptyString) then result else <[fsid := bytes]> result
    | _ => result
    end) clusters ∅.

Definition reconcileCephClusters (config : RESTConfig) (k : K) :
    result OpError (option (gmap string string)) * K :=
  match NewDynamicClient config with
  | Err err => (Err (wrap "failed to create dynamic client: " err), k)
  | Ok _ =>
    match ListCephClusters config k with
    | (Err _, k) => (Ok None, k)
    | (Ok clusters, k) => (Ok (Some (cephByFSID clusters)), k)
    end
  end.

(** The version, the number of nodes and the Ceph clusters, or an error; when to check again; and
    the cluster, whose Reachable condition may have changed. *)
Definition reconcileHealth (cluster : Cluster) (k : K) :
    (result OpError (string * Z * option (gmap string string)) * Result * Cluster) * K :=
  match getRESTConfigForCluster cluster k with
  | ((Err err, cluster), k) => ((Err err, mkResult Minute, cluster), k)
  | ((Ok config, cluster), k) =>
    match ServerVersion config k with
    | (Err err, k) => ((Err err, mkResult Minute, cluster), k)
    | (Ok version, k) =>
      let '(nodes, k) := ListNodes config k in
      let nodeCount := match nodes with Ok n => n | Err _ => 0 end in
      let '(ceph, k) := reconcileCephClusters config k in
      let cephClusters := match ceph with Ok c => c | Err _ => None end in
      ((Ok (version, nodeCount, cephClusters), mkResult 0,
        setReachableCondition cluster ConditionTrue ReasonConnectionSuccess
          "Successfully connected to cluster"), k)
    end
  end.
End connections.
