(* ===== verification/Talos.v ===== *)
(** * The Talos manager of a cluster ([internal/superphenix-operator/cluster/talos_manager.go])

    The values of the talos-manager chart, the PXE setup of the nodes through Redfish, and the
    connection Secret made from the kubeconfig that talos-operator writes. The JSON and YAML codecs,
    the compression and the Redfish services are a class. [None] stands for a panic. *)

From S2P Require Import Prelude Strings Operator ClusterStatus ClusterSync Connections.
Definition TalosManagerApp : string := "talos-manager".
Definition TalosMachineStateBooting : string := "Booting".
Definition TalosManagementUnmanaged : string := "Unmanaged".
Definition TalosManagementImport : string := "Import".
Definition TalosManagementFull : string := "Full".
Definition ManagedLabel : string := "operator.superphenix.net/managed".
Definition RootApplicationLabel : string := "operator.superphenix.net/root".
Definition resourcesFinalizer : string := "resources-finalizer.argocd.argoproj.io".

(** [ManufacturerNames], all of which are supported. *)
Definition DELL : string := "Dell Inc.".
Definition LENOVO : string := "Lenovo".
Definition PXESetupSupportedManufacturers : list string := [DELL; LENOVO].

(** ** The values of the chart *)

Record ClusterNetworkSpec := mkClusterNetworkSpec {
  cn_Ipv4 : string; cn_Ipv6 : string; cn_CidrIpv4 : Z; cn_CidrIpv6 : Z; VlanId : Z;
  GatewayIpv4 : string; GatewayIpv6 : string; cn_LinkMtu : Z }.
Record NetworkSpec := mkNetworkSpec {
  ns_Ipv4 : string; ns_Ipv6 : string; ns_CidrIpv4 : Z; ns_CidrIpv6 : Z; ns_VlanId : Z; ns_LinkMtu : Z }.
Record SubnetSpec := mkSubnetSpec { ss_Ipv4 : string; ss_Ipv6 : string; ss_CidrIpv4 : Z; ss_CidrIpv6 : Z }.
Record NodeNetworkAddress := mkNodeNetworkAddress { na_Ipv4 : string; na_Ipv6 : string }.
Record LacpBondInterfaceSpec := mkLacpBondInterfaceSpec { bi_Name : string; bi_MacAddress : string }.
Record LacpBondSpec := mkLacpBondSpec {
  lb_Enabled : bool; LacpRate : string; XmitHashPolicy : string; Miimon : Z; Updelay : Z; Downdelay : Z;
  lb_LinkMtu : Z; PhysicalInterfaces : list LacpBondInterfaceSpec }.
Record NodeInterfaceSpec := mkNodeInterfaceSpec {
  ni_Name : string; ni_ClusterNetwork : NodeNetworkAddress; ni_PublicNetwork : NodeNetworkAddress;
  ni_StorageNetwork : NodeNetworkAddress; UseVlan : bool; LacpBond : LacpBondSpec;
  PhysicalMacAddress : string }.
Record InstallDiskSpec := mkInstallDiskSpec { Auto : bool; Selector : string }.
Record NodeSpec := mkNodeSpec {
  Hostname : string; NodeType : string; CpuArchitecture : string; PxeMacAddress : string;
  KernelCmdlineArgs : string; PxeSetup : bool; IpmiIpv4 : string; IpmiUser : string; IpmiPassword : string;
  PxeInterfaceName : string; Interface : NodeInterfaceSpec; InstallDisk : InstallDiskSpec;
  MachineOverrides : list Value }.
Record ImageSpec := mkImageSpec { PullPolicy : string }.
Record TalosManagerConfigurationSpec := mkTalosManagerConfigurationSpec {
  PxeEnabled : bool; DhcpInterface : string; PxeIpAddr : string; tm_ClusterName : string;
  tm_ClusterType : string; ReconciliationMode : string; ClusterNetwork : ClusterNetworkSpec;
  PublicNetwork : NetworkSpec; StorageNetwork : NetworkSpec; PodSubnets : SubnetSpec;
  ServiceSubnets : SubnetSpec; ControlplaneIpv4 : string; ControlplaneIpv6 : string; ControlplanePort : Z;
  ArgocdToken : string; TalosVersion : string; K8sVersion : string; MachineGlobalOverrides : list Value;
  MachineOverridesControlPlane : list Value; MachineOverridesWorker : list Value; Nodes : list NodeSpec;
  Image : ImageSpec }.

Definition with_KernelCmdlineArgs (args : string) (n : NodeSpec) : NodeSpec :=
  mkNodeSpec (Hostname n) (NodeType n) (CpuArchitecture n) (PxeMacAddress n) args (PxeSetup n) (IpmiIpv4 n)
    (IpmiUser n) (IpmiPassword n) (PxeInterfaceName n) (Interface n) (InstallDisk n) (MachineOverrides n).

Definition with_Nodes (nodes : list NodeSpec) (c : TalosManagerConfigurationSpec) :
    TalosManagerConfigurationSpec :=
  mkTalosManagerConfigurationSpec (PxeEnabled c) (DhcpInterface c) (PxeIpAddr c) (tm_ClusterName c)
    (tm_ClusterType c) (ReconciliationMode c) (ClusterNetwork c) (PublicNetwork c) (StorageNetwork c)
    (PodSubnets c) (ServiceSubnets c) (ControlplaneIpv4 c) (ControlplaneIpv6 c) (ControlplanePort c)
    (ArgocdToken c) (TalosVersion c) (K8sVersion c) (MachineGlobalOverrides c)
    (MachineOverridesControlPlane c) (MachineOverridesWorker c) nodes (Image c).

(** ** What the manager calls *)

(** A Redfish system and its manufacturer; whether it is off. *)
Record RedfishSystem := mkRedfishSystem { rs_ID : string; Manufacturer : string; PowerOff : bool }.

Inductive ResetType := ForceRestartResetType | OnResetType.

(** A TalosMachine: its cluster, its state and its endpoint. *)
Record TalosMachine := mkTalosMachine { tma_Cluster : string; tma_State : string; tma_Endpoint : string }.

(** The certificate authorities of the clusters of a kubeconfig, and the certificates and keys of
    its users. *)
Record KubectlConfig := mkKubectlConfig { kc_Clusters : list string; kc_Users : list (string * string) }.

(** An ArgoCD object that the operator writes: labels, controller, finalizers and spec. *)
Record ArgoObject := mkArgoObject {
  ao_Labels : option (gmap string string); ao_Owner : option string; ao_Finalizers : list string;
  ao_Spec : gmap string Value }.

Class TalosClient (K U : Type) := {
  (** [kjson.Unmarshal] into a configuration where [pxeEnabled] has the given default. *)
  UnmarshalTalosConfig : bool → string → result OpError TalosManagerConfigurationSpec;
  TalosConfigValues : TalosManagerConfigurationSpec → result OpError (gmap string Value);
  UnmarshalJSON : string → option (gmap string Value);
  UnmarshalKubeconfig : string → result OpError KubectlConfig;
  ZstdCompress : string → result OpError string;
  ToLower : string → string;
  ListTalosMachines : string → K → result OpError (list TalosMachine) * K;
  RedfishConnect : string → string → string → K → result OpError unit * K;
  RedfishSystems : string → K → result OpError (list RedfishSystem) * K;
  RedfishBios : RedfishSystem → K → result OpError unit * K;
  UpdateBiosAttributes : RedfishSystem → gmap string Value → K → result OpError unit * K;
  SetBootPxeOnce : RedfishSystem → K → result OpError unit * K;
  RedfishReset : RedfishSystem → ResetType → K → result OpError unit * K;
  (** [controllerutil.CreateOrUpdate] on an Application or an AppProject of a name and namespace. *)
  CreateOrUpdateApplication : string → string → (ArgoObject → result OpError ArgoObject) → K →
    result OpError U * K;
  CreateOrUpdateAppProject : string → string → (ArgoObject → result OpError ArgoObject) → K →
    result OpError unit * K;
  DeleteApplication : U → K → result OpError unit * K;
}.

Section talos.
Context {K U : Type} {OC : OperatorClient K U} {CC : ClusterClient K} {TC : TalosClient K U}.
Context (OperatorNamespace TalosManagerChartURL TalosManagerChartVersion : string).

(** ** Link aliases *)

Definition newline : string := String (Ascii.ascii_of_nat 10) EmptyString.
Definition quote : string := String (Ascii.ascii_of_nat 34) EmptyString.

(** [fmt.Sprintf(LinkAliasTemplate, name, mac)] *)
Definition LinkAliasTemplate (name mac : string) : string :=
  "apiVersion: v1alpha1" +:+ newline +:+ "kind: LinkAliasConfig" +:+ newline +:+ "name: " +:+ name +:+
  newline +:+ "selector:" +:+ newline +:+ "  match: mac(link.permanent_addr) == " +:+ quote +:+ mac +:+ quote.

Definition linkAliases (node : NodeSpec) : string :=
  let bond := LacpBond (Interface node) in
  if lb_Enabled bond then
    fold_left (λ aliases iface,
      aliases +:+ newline +:+ "---" +:+ newline +:+
        LinkAliasTemplate (bi_Name iface) (ToLower (bi_MacAddress iface)))
      (PhysicalInterfaces bond) EmptyString
  else LinkAliasTemplate (ni_Name (Interface node)) (ToLower (PhysicalMacAddress (Interface node))).

Definition injectNode (node : NodeSpec) : result OpError NodeSpec :=
  compressed ← ZstdCompress (linkAliases node);
  let linkAliasesFinal := "talos.config.inline=" +:+ base64 compressed in
  Ok (with_KernelCmdlineArgs
    (if decide (KernelCmdlineArgs node ≠ EmptyString)
     then linkAliasesFinal +:+ " " +:+ KernelCmdlineArgs node else linkAliasesFinal) node).

Definition injectLinkAliases (config : TalosManagerConfigurationSpec) :
    result OpError TalosManagerConfigurationSpec :=
  nodes ← foldM (λ nodes node, node ← injectNode node; Ok (nodes ++ [node])) [] (Nodes config);
  Ok (with_Nodes nodes config).

(** ** PXE *)

(** The BIOS attributes of a supported manufacturer. *)
Definition pxePatch (config : TalosManagerConfigurationSpec) (node : NodeSpec) (manufacturer : string) :
    gmap string Value :=
  if decide (manufacturer = DELL) then
    let patch := <["BootMode" := VString "Uefi"]> (<["PxeDev1EnDis" := VString "Enabled"]>
      (<["PxeDev1Protocol" := VString "IPv4"]> {["PxeDev1Interface" := VString (PxeInterfaceName node)]})) in
    if UseVlan (Interface node)
    then <["PxeDev1VlanId" := VInt (VlanId (ClusterNetwork config))]>
           (<["PxeDev1VlanEnDis" := VString "Enabled"]> patch)
    else patch
  else
    <["BootModes_SystemBootMode" := VString "UEFIMode"]>
      (<["NetworkStackSettings_NetworkStack" := VString "Enable"]>
        {["NetworkStackSettings_IPv4PXESupport" := VString "Enable"]}).

(** The part of the loop that configures one node and restarts it. *)
Definition setupNode (config : TalosManagerConfigurationSpec) (node : NodeSpec) (k : K) :
    option (result OpError unit * K) :=
  let reset (system : RedfishSystem) (k : K) :=
    match SetBootPxeOnce system k with
    | (Err err, k) => (Err err, k)
    | (Ok _, k) => RedfishReset system (if PowerOff system then OnResetType else ForceRestartResetType) k
    end in
  match RedfishConnect ("https://" +:+ IpmiIpv4 node) (IpmiUser node) (IpmiPassword node) k with
  | (Err err, k) => Some (Err err, k)
  | (Ok _, k) =>
    match RedfishSystems (IpmiIpv4 node) k with
    | (Err err, k) => Some (Err err, k)
    | (Ok [], k) => None
    | (Ok (system :: _), k) =>
      match RedfishBios system k with
      | (Err err, k) => Some (Err err, k)
      | (Ok _, k) =>
        if decide (Manufacturer system ∈ PXESetupSupportedManufacturers) then
          match UpdateBiosAttributes system (pxePatch config node (Manufacturer system)) k with
          | (Err err, k) => Some (Err err, k)
          | (Ok _, k) => Some (reset system k)
          end
        else Some (reset system k)
      end
    end
  end.

Definition toSetUp (doneList : list string) (node : NodeSpec) : bool :=
  PxeSetup node && negb (bool_decide (Hostname node ∈ doneList)).

(** The loop over the nodes: the list of those that are done, and whether it has changed. *)
Fixpoint setupNodes (config : TalosManagerConfigurationSpec) (nodes : list NodeSpec)
    (doneList : list string) (update : bool) (k : K) : option (result OpError (list string * bool) * K) :=
  match nodes with
  | [] => Some (Ok (doneList, update), k)
  | node :: nodes =>
    if toSetUp doneList node then
      r ← setupNode config node k;
      match r with
      | (Err err, k) => Some (Err err, k)
      | (Ok _, k) => setupNodes config nodes (doneList ++ [Hostname node]) true k
      end
    else setupNodes config nodes doneList update k
  end.

(** The host name of the last node with the endpoint, empty when there is none. *)
Definition endpointHostname (nodes : list NodeSpec) (endpoint : string) : string :=
  fold_left (λ hostname node,
    if decide (na_Ipv4 (ni_ClusterNetwork (Interface node)) = endpoint) then Hostname node else hostname)
    nodes EmptyString.

(** The nodes that are already done: those of the status that still exist, or, without any in the
    status, those that talos-operator already handles. *)
Definition alreadyDone (config : TalosManagerConfigurationSpec) (cluster : Cluster) (k : K) :
    result OpError (list string * bool) * K :=
  let hostnames := Hostname <$> Nodes config in
  match PXESetupDone (Status cluster) with
  | [] =>
    let '(machines, k) := ListTalosMachines (cl_Namespace cluster) k in
    match machines with
    | Err err => if decide (oe_kind err = KindNoMatch) then (Ok ([], false), k) else (Err err, k)
    | Ok items =>
      let handled := filter (λ m, tma_Cluster m = cl_Name cluster ∧ tma_State m ≠ TalosMachineStateBooting)
        items in
      (Ok ((λ m, endpointHostname (Nodes config) (tma_Endpoint m)) <$> handled,
           negb (bool_decide (handled = []))), k)
    end
  | done =>
    (Ok (filter (λ h, h ∈ hostnames) done, negb (bool_decide (Forall (λ h, h ∈ hostnames) done))), k)
  end.

Definition with_PXESetupDone (doneList : list string) (cluster : Cluster) : Cluster :=
  let s := Status cluster in
  with_Status cluster (mkClusterStatus (Phase s) (SuperphenixVersion s) (KubernetesVersion s) (NodeCount s)
    (Apps s) (CephClusters s) (Conditions s) (ObservedGeneration s) (LastSync s) doneList).

Definition pxeSetup (config : TalosManagerConfigurationSpec) (cluster : Cluster) (k : K) :
    option ((result OpError unit * Cluster) * K) :=
  match alreadyDone config cluster k with
  | (Err err, k) => Some ((Err err, cluster), k)
  | (Ok (doneList, update), k) =>
    r ← setupNodes config (Nodes config) doneList update k;
    match r with
    | (Err err, k) => Some ((Err err, cluster), k)
    | (Ok (doneList, update), k) =>
      if (update : bool) then
        let updated := with_PXESetupDone doneList cluster in
        let '(patched, k) := PatchClusterStatus cluster updated k in
        Some ((patched, updated), k)
      else Some ((Ok tt, cluster), k)
    end
  end.

(** ** The Application *)

(** [controllerutil.AddFinalizer] or [RemoveFinalizer], as [CleanupOnDeletion] says. *)
Definition cleanupFinalizer (cluster : Cluster) (finalizers : list string) : list string :=
  if match Lifecycle (Spec cluster) with Some l => CleanupOnDeletion l | None => false end then
    if decide (resourcesFinalizer ∈ finalizers) then finalizers else finalizers ++ [resourcesFinalizer]
  else filter (λ f, f ≠ resourcesFinalizer) finalizers.

Definition buildTalosManagerAppSpec (vals : gmap string Value) : gmap string Value :=
  <["project" := VString "default"]>
  (<["source" := VMap (<["repoURL" := VString TalosManagerChartURL]>
     (<["targetRevision" := VString TalosManagerChartVersion]> (<["chart" := VString "talos-manager"]>
       {["helm" := VMap {["valuesObject" := VMap vals]}]})))]>
  (<["destination" := VMap (<["name" := VString "in-cluster"]> {["namespace" := VString OperatorNamespace]})]>
  {["syncPolicy" := VMap {["automated" := VMap (<["prune" := VBool true]> {["selfHeal" := VBool true]})]}]})).

Definition talosManagerObject (cluster : Cluster) (values : gmap string Value) (app : ArgoObject) :
    result OpError ArgoObject :=
  owner ← SetControllerReference cluster (ao_Owner app);
  Ok (mkArgoObject (Some (<[ManagedLabel := "true"]> (default ∅ (ao_Labels app)))) owner
    (cleanupFinalizer cluster (ao_Finalizers app)) (buildTalosManagerAppSpec values)).

(** The Application of the talos-manager, once the values of its chart are known. *)
Definition deployTalosManager (config : TalosManagerConfigurationSpec) (cluster : Cluster) (k : K) :
    (result OpError unit * Cluster) * K :=
  match TalosConfigValues config with
  | Err err => ((Err err, cluster), k)
  | Ok values =>
    let '(r, k) := CreateOrUpdateApplication (TalosManagerApp +:+ "-" +:+ cl_Name cluster) OperatorNamespace
      (talosManagerObject cluster values) k in
    ((match r with Ok _ => Ok tt | Err err => Err err end, cluster), k)
  end.

Definition reconcileTalosManager (cluster : Cluster) (k : K) :
    option ((result OpError unit * Cluster) * K) :=
  let mode := TalosManagementMode (Spec cluster) in
  match TalosManagerConfiguration (Spec cluster) with
  | None =>
    Some ((Err (Errorf ("Failed to reconcile talos-manager Application: " +:+
      "missing TalosManagerConfiguration")), cluster), k)
  | Some raw =>
    match UnmarshalTalosConfig (negb (bool_decide (mode = TalosManagementImport))) raw with
    | Err err => Some ((Err err, cluster), k)
    | Ok config =>
      if decide (mode = TalosManagementFull) then
        match injectLinkAliases config with
        | Err err => Some ((Err err, cluster), k)
        | Ok config =>
          r ← pxeSetup config cluster k;
          match r with
          | ((Err err, cluster), k) => Some ((Err err, cluster), k)
          | ((Ok _, cluster), k) => Some (deployTalosManager config cluster k)
          end
        end
      else Some (deployTalosManager config cluster k)
    end
  end.

(** ** The connection Secret *)

Definition with_StringData (data : gmap string string) (s : Secret) : Secret :=
  mkSecret (sec_Labels s) (sec_Owner s) (Data s) data.

Definition generateConnectionSecret (cluster : Cluster) (k : K) : option (result OpError unit * K) :=
  match GetSecret (cl_Name cluster +:+ "-kubeconfig") (cl_Namespace cluster) k with
  | (Err err, k) => Some (if op_IsNotFound err then (Ok tt, k) else (Err err, k))
  | (Ok kubeconfigSecret, k) =>
    match UnmarshalKubeconfig (default EmptyString (Data kubeconfigSecret !! "kubeconfig")) with
    | Err err => Some (Err err, k)
    | Ok kubeconfig =>
      conn ← Connection (Spec cluster);
      match SecretRef conn with
      | None => Some (Err (Errorf "Missing connection secretRef"), k)
      | Some ref =>
        CreateOrUpdateSecret (sr_Name ref) (secretNamespace cluster ref)
          (λ secret k,
            ca ← head (kc_Clusters kubeconfig);
            user ← head (kc_Users kubeconfig);
            let '(cert, key) := user : string * string in
            Some (Ok (with_StringData (<["caData" := ca]> (<["certData" := cert]> (<["keyData" := key]>
              {["insecure" := "true"]}))) secret), k)) k
      end
    end
  end.
End talos.
