(* ===== verification/ClusterDeploy.v ===== *)
(** * Deploying a cluster
      ([internal/superphenix-operator/cluster/application.go], [project.go], [cluster_controller.go])

    The ArgoCD Application and AppProject of a cluster, and the reconciliation of a cluster that is
    not being deleted. The dynamic watch of the Applications, which changes no object, is left out.
    [None] stands for a panic. *)

From S2P Require Import Prelude Strings Operator ClusterStatus ClusterSync Connections Talos.
(** The settings of the reconciler. *)
Record Reconciler := mkReconciler {
  OperatorNamespace : string; ClustersConfigMapName : string;
  SystemChartURL : string; SystemChartName : string; SystemChartVersion : string;
  SyncPeriod : Z; SyncTimeout : Z; TalosManagerChartURL : string; TalosManagerChartVersion : string;
  DisableVersionValidation : bool; ToolboxEnabled : bool;
  MinOperatorVersion : string; MinClusterVersion : string; MaxClusterVersion : string }.

Section deploy.
Context {GT : GoText} {SV : Semver} {K U : Type} {UN : Unstructured U} {OC : OperatorClient K U}.
Context {CC : ClusterClient K} {TC : TalosClient K U}.
Context (r : Reconciler).

Definition cleanupOnDeletion (cluster : Cluster) : bool :=
  match Lifecycle (Spec cluster) with Some l => CleanupOnDeletion l | None => false end.

(** ** The Application *)

(** The version of the chart: that of the cluster, or the default. *)
Definition chartVersion (cluster : Cluster) : string :=
  if decide (Spec_Version (Spec cluster) ≠ EmptyString) then Spec_Version (Spec cluster)
  else SystemChartVersion r.

(** [maps.Copy(dst, src)] *)
Definition mapsCopy (dst src : gmap string Value) : gmap string Value := src ∪ dst.

Definition generateApplicationValues (cluster : Cluster) (conn : ClusterConnectionSpec) : gmap string Value :=
  let clusterValues :=
    <["name" := VString (cl_Name cluster)]>
    (<["local" := VBool (bool_decide (Mode conn = ConnectionModeLocal))]>
    (<["region" := VString (Region (Spec cluster))]>
    (<["availabilityZone" := VString (AvailabilityZone (Spec cluster))]>
    {["deploymentTopology" := VString (DeploymentTopology (Spec cluster))]}))) in
  let clusterValues := match ClusterType (Spec cluster) with
    | Some type => <["type" := VString type]> clusterValues
    | None => clusterValues
    end in
  let clusterValues := <["version" := VString (chartVersion cluster)]> clusterValues in
  let values :=
    <["cluster" := VMap clusterValues]>
    (<["argocd" := VMap (<["namespace" := VString (OperatorNamespace r)]>
      {["project" := VString (cl_Name cluster)]})]>
    (<["forceManual" := VBool (manual cluster)]>
    {["cleanupOnDeletion" := VBool (cleanupOnDeletion cluster)]})) in
  match SystemConfiguration (Spec cluster) with
  | None => values
  | Some raw => match UnmarshalJSON raw with
                | Some systemConfig => mapsCopy values systemConfig
                | None => values
                end
  end.

Definition syncPolicy (enabled : bool) : gmap string Value :=
  <["automated" := VMap (<["enabled" := VBool enabled]> (<["prune" := VBool true]>
    {["selfHeal" := VBool true]}))]>
  (<["syncOptions" := VList [VString "CreateNamespace=true"; VString "PrunePropagationPolicy=foreground";
    VString "PruneLast=true"; VString "SkipDryRunOnMissingResource=true"]]>
  {["retry" := VMap (<["limit" := VInt 5]> {["backoff" := VMap (<["duration" := VString "30s"]>
    (<["factor" := VInt 2]> {["maxDuration" := VString "3m"]}))]})]}).

Definition buildApplicationSpec (cluster : Cluster) (conn : ClusterConnectionSpec) : gmap string Value :=
  let location (field : SystemLocationSpec → string) (default : string) :=
    match SystemLocation (Spec cluster) with
    | Some l => if decide (field l ≠ EmptyString) then field l else default
    | None => default
    end in
  <["project" := VString (cl_Name cluster)]>
  (<["source" := VMap
     (<["repoURL" := VString (location RepoURL (SystemChartURL r))]>
     (<["chart" := VString (location ChartName (SystemChartName r))]>
     (<["targetRevision" := VString (chartVersion cluster)]>
     {["helm" := VMap {["valuesObject" := VMap (generateApplicationValues cluster conn)]}]})))]>
  (<["destination" := VMap (<["name" := VString "in-cluster"]>
     {["namespace" := VString (OperatorNamespace r)]})]>
  {["syncPolicy" := VMap (syncPolicy (negb (paused cluster) && negb (manual cluster)))]})).

(** The function that [CreateOrUpdate] runs on the Application. *)
Definition applicationObject (cluster : Cluster) (conn : ClusterConnectionSpec) (app : ArgoObject) :
    result OpError ArgoObject :=
  let labels := <[ClusterLabel := cl_Name cluster]> (<[ManagedLabel := "true"]>
    (<[RootApplicationLabel := "true"]> (default ∅ (ao_Labels app)))) in
  owner ← SetControllerReference cluster (ao_Owner app);
  Ok (mkArgoObject (Some labels) owner (cleanupFinalizer cluster (ao_Finalizers app))
    (buildApplicationSpec cluster conn)).

Definition reconcileApplication (cluster : Cluster) (conn : ClusterConnectionSpec) (k : K) :
    result OpError U * K :=
  CreateOrUpdateApplication (cl_Name cluster) (OperatorNamespace r) (applicationObject cluster conn) k.

(** ** The AppProject *)

Definition anyKind : Value := VMap (<["group" := VString "*"]> {["kind" := VString "*"]}).

Definition buildAppProjectSpec (cluster : Cluster) (conn : ClusterConnectionSpec) : gmap string Value :=
  let destName := if decide (Mode conn = ConnectionModeLocal) then "in-cluster" else cl_Name cluster in
  let destination (namespace name : string) :=
    VMap (<["namespace" := VString namespace]> {["name" := VString name]}) in
  let destinations := destination "*" destName ::
    (if decide (destName ≠ "in-cluster") then [destination (OperatorNamespace r) "in-cluster"] else []) in
  let spec :=
    <["description" := VString ("Project for cluster " +:+ cl_Name cluster)]>
    (<["sourceRepos" := VList [VString "*"]]>
    (<["destinations" := VList destinations]>
    (<["clusterResourceWhitelist" := VList [anyKind]]>
    {["namespaceResourceWhitelist" := VList [anyKind]]}))) in
  if paused cluster then
    <["syncWindows" := VList [VMap
      (<["kind" := VString "deny"]> (<["schedule" := VString "0 0 * * *"]> (<["duration" := VString "24h"]>
      (<["manualSync" := VBool false]> (<["applications" := VList [VString "*"]]>
      (<["clusters" := VList [VString destName; VString "in-cluster"]]>
      {["namespaces" := VList [VString "*"]]}))))))]]> spec
  else spec.

Definition appProjectObject (cluster : Cluster) (conn : ClusterConnectionSpec) (project : ArgoObject) :
    result OpError ArgoObject :=
  let finalizers := if decide (resourcesFinalizer ∈ ao_Finalizers project) then ao_Finalizers project
    else ao_Finalizers project ++ [resourcesFinalizer] in
  owner ← SetControllerReference cluster (ao_Owner project);
  Ok (mkArgoObject (ao_Labels project) owner finalizers (buildAppProjectSpec cluster conn)).

Definition reconcileAppProject (cluster : Cluster) (conn : ClusterConnectionSpec) (k : K) :
    result OpError unit * K :=
  CreateOrUpdateAppProject (cl_Name cluster) (OperatorNamespace r) (appProjectObject cluster conn) k.

(** ** The reconciliation *)

(** [if reconcileErr == nil { reconcileErr = err }] *)
Definition firstError (reconcileErr : option OpError) {A} (res : result OpError A) : option OpError :=
  match reconcileErr, res with
  | None, Err err => Some err
  | _, _ => reconcileErr
  end.

(** What the first half of the reconciliation has found: the error, the versions and counts, the
    Application; and the cluster, whose Reachable condition may have changed. *)
Record Observed := mkObserved {
  o_Err : option OpError; o_K8sVersion : string; o_NodeCount : Z;
  o_Ceph : option (gmap string string); o_App : option U; o_Cluster : Cluster }.

(** The Secrets, then the health when they are in place. The [Result] of a successful health check
    is empty, so that it never ends the reconciliation. *)
Definition observeCluster (cluster : Cluster) (k : K) : option (Observed * K) :=
  secret ← reconcileArgoCDSecret (OperatorNamespace r) cluster k;
  let '(res, k) := secret in
  let err := firstError None res in
  toolbox ← (if ToolboxEnabled r then reconcileToolboxKubeconfigSecret (OperatorNamespace r) k
             else Some (Ok tt, k));
  let '(res, k) := toolbox in
  let err := firstError err res in
  match err with
  | Some _ => Some (mkObserved err EmptyString 0 None None cluster, k)
  | None =>
    match reconcileHealth cluster k with
    | ((Err err, _, cluster), k) => Some (mkObserved (Some err) EmptyString 0 None None cluster, k)
    | ((Ok (version, nodeCount, ceph), _, cluster), k) =>
      Some (mkObserved None version nodeCount ceph None cluster, k)
    end
  end.

(** The ArgoCD objects and the shared ConfigMap; an error keeps the later ones from being written,
    the AppProject apart. *)
Definition deployApplication (o : Observed) (k : K) : option (Observed * K) :=
  let cluster := o_Cluster o in
  let failed (err : option OpError) (app : option U) :=
    mkObserved err (o_K8sVersion o) (o_NodeCount o) (o_Ceph o) app cluster in
  conn ← Connection (Spec cluster);
  let '(res, k) := reconcileAppProject cluster conn k in
  match firstError (o_Err o) res with
  | Some err => Some (failed (Some err) None, k)
  | None =>
    match validate (MinOperatorVersion r) (MinClusterVersion r) (MaxClusterVersion r)
            (OperatorNamespace r) (DisableVersionValidation r) cluster k with
    | (Err err, k) => Some (failed (Some err) None, k)
    | (Ok _, k) =>
      match reconcileApplication cluster conn k with
      | (Err err, k) => Some (failed (Some err) None, k)
      | (Ok app, k) =>
        let '(fetched, k) := GetApplication (cl_Name cluster) (OperatorNamespace r) k in
        let app := match fetched with Ok app => app | Err _ => app end in
        match reconcileClustersConfigMap (OperatorNamespace r) (ClustersConfigMapName r) cluster k with
        | (Err err, k) =>
          Some (failed (Some (wrap "failed to reconcile clusters ConfigMap: " err)) (Some app), k)
        | (Ok _, k) => Some (failed None (Some app), k)
        end
      end
    end
  end.

Definition writeStatus (o : Observed) (cluster : Cluster) (lastSync : option Z) (k : K) :
    (Cluster * result OpError unit) * K :=
  syncStatus (MinClusterVersion r) (MaxClusterVersion r) (OperatorNamespace r) cluster (o_App o)
    (o_K8sVersion o) (o_NodeCount o) (o_Ceph o) (o_Err o) lastSync k.

(** Whether the Ready condition is True. *)
Definition isReady (cluster : Cluster) : bool :=
  existsb (λ c, bool_decide (c_Type c = ConditionTypeReady ∧ c_Status c = ConditionTrue))
    (Conditions (Status cluster)).

(** The synchronisation of the Applications, and its time in the status. *)
Definition resync (o : Observed) (cluster : Cluster) (k : K) : Cluster * K :=
  if negb (paused cluster) && negb (manual cluster) &&
     (bool_decide (o_Err o = None) || negb (isReady cluster)) then
    match runPeriodicSync (OperatorNamespace r) (SyncPeriod r) (SyncTimeout r) cluster k with
    | (true, k) =>
      let '((cluster, _), k) := writeStatus o cluster (Some (Now k)) k in (cluster, k)
    | (false, k) => (cluster, k)
    end
  else (cluster, k).

(** The talos-manager, or its deletion in the [Unmanaged] mode; the last error replaces the others. *)
Definition reconcileTalos (cluster : Cluster) (reconcileErr : option OpError) (k : K) :
    option (option OpError * K) :=
  let lastError {A} (err : option OpError) (res : result OpError A) :=
    match res with Err err => Some err | Ok _ => err end in
  if decide (TalosManagementMode (Spec cluster) ≠ TalosManagementUnmanaged) then
    manager ← reconcileTalosManager (OperatorNamespace r) (TalosManagerChartURL r)
      (TalosManagerChartVersion r) cluster k;
    let '((res, cluster), k) := manager in
    let err := lastError reconcileErr res in
    conn ← Connection (Spec cluster);
    if decide (Mode conn = ConnectionModeRemote) then
      secret ← generateConnectionSecret cluster k;
      let '(res, k) := secret in
      Some (lastError err res, k)
    else Some (err, k)
  else
    match GetApplication (TalosManagerApp +:+ "-" +:+ cl_Name cluster) (OperatorNamespace r) k with
    | (Err err, k) => Some (if op_IsNotFound err then reconcileErr else Some err, k)
    | (Ok existing, k) =>
      match reconcileErr with
      | Some _ => Some (reconcileErr, k)
      | None => let '(res, k) := DeleteApplication existing k in Some (lastError None res, k)
      end
    end.

(** The clusters to reconcile when a Secret changes, by namespace and name. *)
Definition findClustersForSecret (namespace name : string) (k : K) : list (string * string) * K :=
  match ListClusters (OperatorNamespace r) k with
  | (Err _, k) => ([], k)
  | (Ok clusters, k) =>
    let refers (cluster : Cluster) : bool :=
      match Connection (Spec cluster) with
      | Some conn => match SecretRef conn with
                     | Some ref => bool_decide (sr_Name ref = name ∧ secretNamespace cluster ref = namespace)
                     | None => false
                     end
      | None => false
      end in
    ((λ cluster, (cl_Namespace cluster, cl_Name cluster)) <$> filter (λ c, refers c = true) clusters, k)
  end.

Definition reconcileCluster (cluster : Cluster) (k : K) : option ((Result * option OpError) * K) :=
  observed ← observeCluster cluster k;
  let '(o, k) := observed in
  deployed ← deployApplication o k;
  let '(o, k) := deployed in
  match writeStatus o (o_Cluster o) None k with
  | ((_, Err err), k) => Some ((mkResult Minute, Some err), k)
  | ((cluster, Ok _), k) =>
    let '(cluster, k) := resync o cluster k in
    talos ← reconcileTalos cluster (o_Err o) k;
    let '(err, k) := talos in
    Some ((mkResult (match err with Some _ => Minute | None => SyncPeriod r end), None), k)
  end.
End deploy.
