(* ===== verification/DeployTheorems.v ===== *)
(** * The theorems of the deployment of a cluster

    Which credentials are accepted, what the ArgoCD objects say of the cluster, that the PXE setup
    restarts each node once, and what a Ready cluster has gone through. *)

From S2P Require Import Prelude Strings Operator ClusterStatus ClusterTheorems ClusterSync.
From S2P Require Import ClusterSettles Connections Talos ClusterDeploy.

(** ** Credentials *)

Section connections.
Context {K : Type} {CC : ClusterClient K}.

(** The credentials that a Secret must have. *)
Definition credentials (secret : Secret) : Prop :=
  getString secret "bearerToken" ≠ EmptyString ∨ getString secret "username" ≠ EmptyString ∨
  getString secret "password" ≠ EmptyString ∨
  default EmptyString (getData secret "certData") ≠ EmptyString ∧
  default EmptyString (getData secret "keyData") ≠ EmptyString.

#[export] Instance credentials_dec secret : Decision (credentials secret).
Proof. unfold credentials. apply _. Defined.

Lemma hasAuth_spec secret : hasAuth (extractConnectionData secret) = true ↔ credentials secret.
Proof. unfold extractConnectionData. cbn [hasAuth]. apply bool_decide_eq_true. Qed.

(** The health check and the Secret of ArgoCD accept the same credentials: a Secret with a token, a
    user name, a password, or a certificate and its key. *)
Theorem credentials_agree cluster conn ref url secret connSecret owner config k k' :
  SetControllerReference cluster (sec_Owner secret) = Ok owner → SecretRef conn = Some ref →
  GetSecret (sr_Name ref) (secretNamespace cluster ref) k = (Ok connSecret, k') →
  MarshalJSON (argocdConfig (extractConnectionData connSecret)) = Ok config →
  (is_Ok (buildRESTConfig url connSecret) = true ↔ credentials connSecret) ∧
  (is_Ok (argocdSecret cluster conn secret k).1 = true ↔ credentials connSecret) ∧
  (credentials connSecret → ∃ written, argocdSecret cluster conn secret k = (Ok written, k') ∧
    Data written = <["config" := config]> (<["server" := URL conn]> {["name" := cl_Name cluster]})).
Proof.
  intros Howner Href Hget Hjson. pose proof (hasAuth_spec connSecret) as Hauth.
  unfold argocdSecret. cbn [sec_Owner with_Labels]. rewrite Howner, Href, Hget.
  unfold buildRESTConfig. set (P := _ ∧ _ ∧ _ ∧ (_ ∨ _)).
  assert (HP : P ↔ ¬ credentials connSecret).
  { subst P. unfold credentials, extractConnectionData. cbn. split; [naive_solver|]. intros Hc.
    assert (Hdn : ∀ s : string, ¬ (s ≠ EmptyString) → s = EmptyString) by (intros s; apply dec_stable).
    split_and!; try (apply Hdn; tauto).
    destruct (decide (default EmptyString (getData connSecret "certData") = EmptyString)); [by left|].
    right. apply Hdn. tauto. }
  destruct (decide (credentials connSecret)) as [Hc|Hc].
  - rewrite (proj2 Hauth Hc), decide_False, Hjson by tauto. cbn. split_and!; [tauto|tauto|].
    intros _. eexists. split; reflexivity.
  - destruct (hasAuth _); [tauto|]. rewrite decide_True by tauto. cbn. split_and!; [naive_solver..|tauto].
Qed.
End connections.

(** ** The ArgoCD objects *)

(** The value at a path. *)
Fixpoint valueAt (m : gmap string Value) (path : list string) : option Value :=
  match path with
  | [] => Some (VMap m)
  | key :: path =>
    v ← m !! key;
    match path, v with
    | [], _ => Some v
    | _, VMap m => valueAt m path
    | _, _ => None
    end
  end.

Section objects.
Context {K U : Type} {CC : ClusterClient K} {TC : TalosClient K U}.
Context (r : Reconciler).

Lemma cleanupFinalizer_spec cluster finalizers :
  resourcesFinalizer ∈ cleanupFinalizer cluster finalizers ↔ cleanupOnDeletion cluster = true.
Proof.
  unfold cleanupFinalizer, cleanupOnDeletion. destruct (Lifecycle (Spec cluster)) as [l|].
  - destruct (CleanupOnDeletion l).
    + case_decide; [done|]. rewrite elem_of_app, list_elem_of_singleton. tauto.
    + rewrite list_elem_of_filter. naive_solver.
  - rewrite list_elem_of_filter. naive_solver.
Qed.

(** The Application and the AppProject of a cluster follow its spec: the version deployed is the
    cluster's or else the default; ArgoCD synchronises by itself unless the cluster is paused or
    manual; the resources are deleted with the Application exactly when the cluster says so; and a
    window denies every synchronisation, manual ones included, exactly when the cluster is paused. *)
Theorem argocd_objects_follow cluster conn app project app' project' :
  applicationObject r cluster conn app = Ok app' →
  appProjectObject r cluster conn project = Ok project' →
  valueAt (ao_Spec app') ["source"; "targetRevision"] =
    Some (VString (if decide (Spec_Version (Spec cluster) ≠ EmptyString)
                   then Spec_Version (Spec cluster) else SystemChartVersion r)) ∧
  valueAt (ao_Spec app') ["syncPolicy"; "automated"; "enabled"] =
    Some (VBool (negb (paused cluster) && negb (manual cluster))) ∧
  (resourcesFinalizer ∈ ao_Finalizers app' ↔ cleanupOnDeletion cluster = true) ∧
  resourcesFinalizer ∈ ao_Finalizers project' ∧
  valueAt (ao_Spec app') ["project"] = Some (VString (cl_Name cluster)) ∧
  (is_Some (ao_Spec project' !! "syncWindows") ↔ paused cluster = true) ∧
  (∀ labels, ao_Labels app' = Some labels → labels !! ClusterLabel = Some (cl_Name cluster)).
Proof.
  unfold applicationObject, appProjectObject. intros Happ Hproject.
  apply result_bind_Ok in Happ as (owner & _ & [= <-]).
  apply result_bind_Ok in Hproject as (owner' & _ & [= <-]). cbn [ao_Spec ao_Finalizers ao_Labels].
  split_and!.
  - reflexivity.
  - reflexivity.
  - apply cleanupFinalizer_spec.
  - case_decide; [done|]. apply elem_of_app. right. left.
  - reflexivity.
  - unfold buildAppProjectSpec. destruct (paused cluster).
    + rewrite lookup_insert_eq. split; [done|]. by eexists.
    + split; [intros [v Hv]; vm_compute in Hv; discriminate Hv|done].
  - intros labels [= <-]. by rewrite lookup_insert_eq.
Qed.
End objects.

(** ** The PXE setup *)

Section pxe.
Context {K U : Type} {OC : OperatorClient K U} {TC : TalosClient K U}.
Implicit Types (config : TalosManagerConfigurationSpec) (node : NodeSpec) (cluster : Cluster) (k : K).

Lemma filter_Forall {A} (P : A → Prop) `{∀ x, Decision (P x)} l : Forall P l → filter P l = l.
Proof.
  induction 1 as [|x l Hx Hl IH]; [done|]. by rewrite filter_cons_True, IH.
Qed.

Lemma setupNodes_Ok config nodes doneList update k doneList' update' k' :
  setupNodes config nodes doneList update k = Some (Ok (doneList', update'), k') →
  doneList `prefix_of` doneList' ∧
  (∀ node, node ∈ nodes → PxeSetup node = true → Hostname node ∈ doneList') ∧
  (∀ h, h ∈ doneList' → h ∈ doneList ∨ h ∈ Hostname <$> nodes) ∧
  (update' = false → doneList' = doneList ∧ update = false).
Proof.
  revert doneList update k. induction nodes as [|n nodes IH]; intros doneList update k; cbn [setupNodes].
  { intros [= <- <- _]. split_and!; [done|by intros ? ?%elem_of_nil|auto|auto]. }
  destruct (toSetUp doneList n) eqn:Hset.
  - destruct (setupNode config n k) as [[[[]|err] k1]|]; [|done|done]. cbn. intros Hrun.
    apply IH in Hrun as (Hp & Hin & Hsub & Hupd).
    assert (Hn : Hostname n ∈ doneList').
    { destruct Hp as [l ->]. rewrite !elem_of_app, list_elem_of_singleton. auto. }
    split_and!.
    + etrans; [|exact Hp]. by apply prefix_app_r.
    + intros node [->|Hnode]%elem_of_cons; [done|by apply Hin].
    + intros h Hh. cbn. rewrite elem_of_cons. apply Hsub in Hh as [Hh|Hh]; [|auto].
      rewrite elem_of_app, list_elem_of_singleton in Hh. tauto.
    + intros Hf. apply Hupd in Hf as [_ Hf]. done.
  - intros Hrun. apply IH in Hrun as (Hp & Hin & Hsub & Hupd). split_and!; [done| | |done].
    + intros node [->|Hnode]%elem_of_cons Hpxe; [|by apply Hin].
      unfold toSetUp in Hset. rewrite Hpxe in Hset. cbn in Hset.
      apply negb_false_iff, bool_decide_eq_true in Hset. destruct Hp as [l ->]. apply elem_of_app. by left.
    + intros h Hh. cbn. rewrite elem_of_cons. apply Hsub in Hh. tauto.
Qed.

Lemma setupNodes_nothing config nodes doneList update k :
  (∀ node, node ∈ nodes → PxeSetup node = true → Hostname node ∈ doneList) →
  setupNodes config nodes doneList update k = Some (Ok (doneList, update), k).
Proof.
  induction nodes as [|n nodes IH]; intros Hall; [done|]. cbn [setupNodes].
  assert (Hn : toSetUp doneList n = false).
  { unfold toSetUp. destruct (PxeSetup n) eqn:Hp; [|done]. cbn. apply negb_false_iff, bool_decide_eq_true.
    apply Hall; [left|done]. }
  rewrite Hn. apply IH. intros node Hnode. apply Hall. by right.
Qed.

Lemma endpointHostname_known nodes endpoint :
  endpointHostname nodes endpoint = EmptyString ∨ endpointHostname nodes endpoint ∈ Hostname <$> nodes.
Proof.
  unfold endpointHostname. assert (Hgen : ∀ h0, let h := fold_left (λ hostname node,
    if decide (na_Ipv4 (ni_ClusterNetwork (Interface node)) = endpoint) then Hostname node else hostname)
    nodes h0 in h = h0 ∨ h ∈ Hostname <$> nodes); [|apply Hgen].
  induction nodes as [|n nodes IH]; intros h0; cbn; [by left|]. rewrite elem_of_cons.
  case_decide; [destruct (IH (Hostname n)) as [->|?]|destruct (IH h0) as [->|?]]; auto.
Qed.

(** The nodes that are taken as done belong to the configuration, when they have a name. *)
Lemma alreadyDone_known config cluster k doneList update k' h :
  alreadyDone config cluster k = (Ok (doneList, update), k') → h ∈ doneList →
  h = EmptyString ∨ h ∈ Hostname <$> Nodes config.
Proof.
  unfold alreadyDone. destruct (PXESetupDone (Status cluster)) as [|d names].
  - destruct (ListTalosMachines _ k) as [[items|err] k1].
    + intros [= <- _ _] (m & -> & _)%list_elem_of_fmap. apply endpointHostname_known.
    + case_decide; [|done]. by intros [= <- _ _] ?%elem_of_nil.
  - intros [= <- _ _] [? _]%list_elem_of_filter. by right.
Qed.

(** A run that finds the list of the status complete changes nothing and calls nothing. *)
Lemma pxeSetup_nothing config cluster k :
  PXESetupDone (Status cluster) ≠ [] →
  (∀ h, h ∈ PXESetupDone (Status cluster) → h ∈ Hostname <$> Nodes config) →
  (∀ node, node ∈ Nodes config → PxeSetup node = true → Hostname node ∈ PXESetupDone (Status cluster)) →
  pxeSetup config cluster k = Some ((Ok tt, cluster), k).
Proof.
  intros Hne Hsub Hall. unfold pxeSetup, alreadyDone.
  destruct (PXESetupDone (Status cluster)) as [|d names] eqn:Hdone; [done|].
  assert (Hf : Forall (λ h, h ∈ Hostname <$> Nodes config) (d :: names)) by by apply Forall_forall.
  rewrite (bool_decide_eq_true_2 _ Hf). cbn [negb].
  rewrite filter_Forall by done.
  by rewrite (setupNodes_nothing config (Nodes config) (d :: names) false k Hall).
Qed.

(** The PXE setup restarts each node once: after a successful run every node that asks for the setup
    is recorded in the status, and, as long as the recorded names are those of nodes, any later run
    finds nothing to do, calls no service and changes nothing. *)
Theorem pxeSetup_once config cluster k cluster' k' :
  pxeSetup config cluster k = Some ((Ok tt, cluster'), k') →
  PXESetupDone (Status cluster') ≠ [] → (EmptyString ∉ PXESetupDone (Status cluster')) →
  (∀ node, node ∈ Nodes config → PxeSetup node = true → Hostname node ∈ PXESetupDone (Status cluster')) ∧
  ∀ later, pxeSetup config cluster' later = Some ((Ok tt, cluster'), later).
Proof.
  intros Hrun Hne Hempty.
  assert (Hdone : (∀ h, h ∈ PXESetupDone (Status cluster') → h ∈ Hostname <$> Nodes config) ∧
    ∀ node, node ∈ Nodes config → PxeSetup node = true → Hostname node ∈ PXESetupDone (Status cluster')).
  2: { destruct Hdone as [Hsub Hall]. split; [exact Hall|]. intros later. by apply pxeSetup_nothing. }
  unfold pxeSetup in Hrun. destruct (alreadyDone config cluster k) as [[[d0 u0]|err] k0] eqn:Halready; [|done].
  destruct (setupNodes config (Nodes config) d0 u0 k0) as [[[[d u]|err] k1]|] eqn:Hset; cbn in Hrun; [|done|done].
  apply setupNodes_Ok in Hset as (_ & Hall & Hsub & Hupd).
  assert (Hd : PXESetupDone (Status cluster') = d).
  { destruct u.
    - destruct (PatchClusterStatus cluster _ k1) as [patched k2]. by injection Hrun as _ <- _.
    - injection Hrun as <- _. destruct (Hupd eq_refl) as [-> ->]. clear - Halready Hne.
      unfold alreadyDone in Halready. destruct (PXESetupDone (Status cluster)) as [|x names]; [done|].
      injection Halready as <- Hf _. apply negb_false_iff, bool_decide_eq_true in Hf.
      by rewrite filter_Forall. }
  rewrite Hd in *. split; [|exact Hall]. intros h Hh. apply Hsub in Hh as Hcase.
  destruct Hcase as [H0|?]; [|done].
  destruct (alreadyDone_known _ _ _ _ _ _ h Halready H0) as [->|?]; done.
Qed.
End pxe.

(** ** A cluster that is Ready *)

Section ready.
Context {GT : GoText} {SV : Semver} {K U : Type} {UN : Unstructured U} {OC : OperatorClient K U}.
Context {CC : ClusterClient K} {TC : TalosClient K U}.
Context (r : Reconciler).

Lemma firstError_None {A} err (res : result OpError A) :
  firstError err res = None → err = None ∧ ∃ a, res = Ok a.
Proof. destruct err, res; cbn; naive_solver. Qed.

(** The health check of a run: from [k] to [k'], once the Secrets were written, the cluster answered its
    version to the credentials of its connection. *)
Definition answered (cluster : Cluster) (k : K) (version : string) (k' : K) : Prop :=
  ∃ config cluster1 ka kb kc kd nodes ke,
    reconcileArgoCDSecret (OperatorNamespace r) cluster k = Some (Ok tt, ka) ∧
    (if ToolboxEnabled r then reconcileToolboxKubeconfigSecret (OperatorNamespace r) ka else Some (Ok tt, ka)) = Some (Ok tt, kb) ∧
    getRESTConfigForCluster cluster kb = ((Ok config, cluster1), kc) ∧
    ServerVersion config kc = (Ok version, kd) ∧
    ListNodes config kd = (nodes, ke) ∧ (reconcileCephClusters config ke).2 = k'.

(** The topology is one of those supported; the version suits the management's and is a supported upgrade,
    as they are read from [k] to [k'], unless the settings ask not to look. *)
Definition accepted (cluster : Cluster) (k k' : K) : Prop :=
  validateTopology cluster = Ok tt ∧
  if DisableVersionValidation r then k' = k else
    ∃ ka, validateManagementCompatibility (U:=U) (MinClusterVersion r) (MaxClusterVersion r) (OperatorNamespace r) cluster k = (Ok tt, ka) ∧
      validateUpgradePath (U:=U) (MinOperatorVersion r) (MinClusterVersion r) (MaxClusterVersion r) (OperatorNamespace r) cluster ka = (Ok tt, k').

(** The shared ConfigMap, if there is one, was read with an entry for the cluster, or given one. *)
Definition registered (cluster : Cluster) (k k' : K) : Prop :=
  if decide (ClustersConfigMapName r = EmptyString) then k' = k else
  ∃ answer ka, GetConfigMap (U:=U) (ClustersConfigMapName r) (OperatorNamespace r) k = (answer, ka) ∧
    match answer with
    | Ok data => is_Some (default ∅ data !! cl_Name cluster) ∧ k' = ka ∨
        UpdateConfigMap (U:=U) (ClustersConfigMapName r) (OperatorNamespace r)
          (<[cl_Name cluster := EmptyString]> (default ∅ data)) ka = (Ok tt, k')
    | Err err => op_IsNotFound err = true ∧
        CreateConfigMap (U:=U) (ClustersConfigMapName r) (OperatorNamespace r) {[cl_Name cluster := EmptyString]} ka = (Ok tt, k')
    end.

(** The deployment of a run, from [k] to [k']: the AppProject is written; then the topology and the version
    are accepted; then the Application is written, and read again; then the ConfigMap has the entry. *)
Definition deployed (cluster : Cluster) (conn : ClusterConnectionSpec) (k k' : K) : Prop :=
  ∃ ka kb app kc fetched kd,
    CreateOrUpdateAppProject (cl_Name cluster) (OperatorNamespace r) (appProjectObject r cluster conn) k = (Ok tt, ka) ∧
    accepted cluster ka kb ∧
    CreateOrUpdateApplication (cl_Name cluster) (OperatorNamespace r) (applicationObject r cluster conn) kb = (Ok app, kc) ∧
    GetApplication (cl_Name cluster) (OperatorNamespace r) kc = (fetched, kd) ∧
    registered cluster kd k'.

Lemma validate_accepted cluster k k' :
  validate (U:=U) (MinOperatorVersion r) (MinClusterVersion r) (MaxClusterVersion r) (OperatorNamespace r)
    (DisableVersionValidation r) cluster k = (Ok tt, k') → accepted cluster k k'.
Proof.
  unfold validate, accepted. destruct (validateTopology cluster) as [[]|err]; [|done].
  destruct (DisableVersionValidation r); [by intros [= <-]|].
  destruct (validateManagementCompatibility _ _ _ cluster k) as [[[]|err] ka]; [|done].
  destruct (validateUpgradePath _ _ _ _ cluster ka) as [[[]|err] kb] eqn:Hup; [|done]. intros [= <-].
  split; [done|]. by exists ka.
Qed.

Lemma reconcileClustersConfigMap_registered cluster k k' :
  reconcileClustersConfigMap (OC:=OC) (OperatorNamespace r) (ClustersConfigMapName r) cluster k = (Ok tt, k') → registered cluster k k'.
Proof.
  unfold reconcileClustersConfigMap, registered. case_decide; [by intros [= <-]|].
  destruct (GetConfigMap _ _ k) as [[data|err] ka]; intros Hrun; eexists _, ka; (split; [done|]).
  - destruct (default ∅ data !! cl_Name cluster) eqn:Hin; [|by right]. injection Hrun as <-. left. by split.
  - destruct (op_IsNotFound err) eqn:Herr; [split; [exact Herr|exact Hrun]|done].
Qed.

Lemma observeCluster_Ok cluster k (o : Observed (U:=U)) k' :
  observeCluster r cluster k = Some (o, k') → o_Err o = None →
  Spec (o_Cluster o) = Spec cluster ∧ cl_Name (o_Cluster o) = cl_Name cluster ∧ answered cluster k (o_K8sVersion o) k'.
Proof.
  unfold observeCluster. intros Hrun Herr.
  destruct (reconcileArgoCDSecret _ cluster k) as [[res ka]|] eqn:Hsecret; [|done]. cbn [mbind option_bind] in Hrun.
  destruct (if ToolboxEnabled r then _ else _) as [[tool kb]|] eqn:Htool; [|done]. cbn [mbind option_bind] in Hrun.
  destruct (firstError (firstError None res) tool) as [err|] eqn:Hfirst; [injection Hrun as <- _; done|].
  apply firstError_None in Hfirst as [(_ & [] & ->)%firstError_None ([] & ->)].
  unfold reconcileHealth in Hrun.
  assert (Hcfg : Spec (getRESTConfigForCluster cluster kb).1.2 = Spec cluster ∧ cl_Name (getRESTConfigForCluster cluster kb).1.2 = cl_Name cluster).
  { unfold getRESTConfigForCluster. repeat case_match; simplify_eq/=; done. }
  destruct (getRESTConfigForCluster cluster kb) as [[[config|err] cluster1] kc] eqn:Hconfig; [|injection Hrun as <- _; done].
  destruct (ServerVersion config kc) as [[version|err] kd] eqn:Hversion; [|injection Hrun as <- _; done].
  destruct (ListNodes config kd) as [nodes ke] eqn:Hnodes. destruct (reconcileCephClusters config ke) as [ceph kf] eqn:Hceph.
  injection Hrun as <- <-. split_and!; [apply Hcfg..|].
  exists config, cluster1, ka, kb, kc, kd, nodes, ke. by rewrite Hceph.
Qed.

Lemma deployApplication_Ok (o0 : Observed (U:=U)) k o k' :
  deployApplication r o0 k = Some (o, k') → o_Err o = None →
  o_Err o0 = None ∧ o_Cluster o = o_Cluster o0 ∧ o_K8sVersion o = o_K8sVersion o0 ∧
  ∃ conn, Connection (Spec (o_Cluster o0)) = Some conn ∧ deployed (o_Cluster o0) conn k k'.
Proof.
  unfold deployApplication. intros Hrun Herr.
  destruct (Connection (Spec (o_Cluster o0))) as [conn|]; [|done]. cbn in Hrun.
  destruct (reconcileAppProject r (o_Cluster o0) conn k) as [res ka] eqn:Hproject.
  destruct (firstError (o_Err o0) res) as [err|] eqn:Hfirst; [injection Hrun as <- _; done|].
  apply firstError_None in Hfirst as [H0 ([] & ->)].
  destruct (validate _ _ _ _ _ _ ka) as [[[]|err] kb] eqn:Hvalid; [|injection Hrun as <- _; done].
  destruct (reconcileApplication r (o_Cluster o0) conn kb) as [[app|err] kc] eqn:Happ;
    [|injection Hrun as <- _; done].
  destruct (GetApplication (cl_Name (o_Cluster o0)) (OperatorNamespace r) kc) as [fetched kd] eqn:Hget.
  destruct (reconcileClustersConfigMap _ _ _ kd) as [[[]|err] ke] eqn:Hcm; injection Hrun as <- <-; [|done].
  cbn. split_and!; [done..|]. exists conn. split; [done|]. exists ka, kb, app, kc, fetched, kd.
  split_and!; [done|by apply validate_accepted|done|done|by apply reconcileClustersConfigMap_registered].
Qed.

Lemma facts_version s s' : facts s = facts s' → KubernetesVersion s = KubernetesVersion s'.
Proof. by intros [= _ -> _ _ _ _]. Qed.

(** The status that is written has the version that was answered, if it is one. *)
Lemma writeStatus_version (o : Observed (U:=U)) cluster lastSync k cluster' w k' :
  writeStatus r o cluster lastSync k = ((cluster', w), k') → o_K8sVersion o ≠ EmptyString →
  KubernetesVersion (Status cluster') = o_K8sVersion o.
Proof.
  unfold writeStatus, syncStatus. intros Hrun Hne. rewrite (decide_True (P:=o_K8sVersion o ≠ EmptyString)) in Hrun by done.
  match type of Hrun with (let '(s, k) := ?x in _) = _ => destruct x as [sa ka] eqn:Ha end.
  assert (KubernetesVersion sa = o_K8sVersion o) as Hsa.
  { destruct (o_Err o); [injection Ha as <- _; repeat case_match; done|].
    destruct (GetCurrentClusterVersion _ _ k) as [[v|e] k2]; injection Ha as <- _; repeat case_match; done. }
  clear Ha. destruct (updateAppsStatus _ cluster sa ka) as [sb kb] eqn:Hb.
  assert (KubernetesVersion sb = o_K8sVersion o) as Hsb.
  { unfold updateAppsStatus in Hb. destruct (listSubApplications _ cluster ka) as [[?|?] ?]; by injection Hb as <- _. }
  destruct (updateCompatibilityCondition _ _ _ cluster sb kb) as [s0 k1] eqn:Hc.
  pose proof (updateCompatibilityCondition_adds (MinClusterVersion r) (MaxClusterVersion r) (OperatorNamespace r) cluster sb kb)
    as (st & re & me & Hs0). rewrite Hc in Hs0. cbn in Hs0.
  destruct (PatchClusterStatus cluster _ k1) as [? ?]. injection Hrun as <- _ _. cbn [with_Status Status].
  fold (reportedStatus cluster (o_App o) (o_Err o) s0).
  pose proof (facts_reportedStatus cluster (o_App o) (o_Err o) s0) as Hf. set (s1 := reportedStatus _ _ _ s0) in *.
  pose proof (facts_updateReadyCondition (o_Err o) (set_Phase (nextPhase cluster (o_Err o) s1) s1)) as Hg.
  apply facts_version in Hf, Hg. cbn in Hg |- *. by rewrite Hg, Hf, Hs0.
Qed.

(** C40: A cluster that a reconciliation reports Ready has, in this same reconciliation and in this order,
    answered the health check with the version that is reported, once its Secrets were written, and had its
    AppProject written, its topology and version accepted, its Application written, and its entry in the
    shared ConfigMap found or written: each step succeeds from the state that the step before has left. *)
Theorem ready_cluster_deployed cluster k (o1 : Observed (U:=U)) k1 o k2 cluster' w k3 :
  observeCluster r cluster k = Some (o1, k1) → deployApplication r o1 k1 = Some (o, k2) →
  writeStatus r o (o_Cluster o) None k2 = ((cluster', w), k3) →
  status_of ConditionTypeReady (Conditions (Status cluster')) = Some ConditionTrue →
  answered cluster k (o_K8sVersion o) k1 ∧
  (o_K8sVersion o ≠ EmptyString → KubernetesVersion (Status cluster') = o_K8sVersion o) ∧
  cl_Name (o_Cluster o) = cl_Name cluster ∧ Spec (o_Cluster o) = Spec cluster ∧
  ∃ conn, Connection (Spec cluster) = Some conn ∧ deployed (o_Cluster o) conn k1 k2.
Proof.
  intros Hobserve Hdeploy Hstatus Hready. pose proof (writeStatus_version _ _ _ _ _ _ _ Hstatus) as Hversion.
  unfold writeStatus in Hstatus.
  pose proof (syncStatus_ready (MinClusterVersion r) (MaxClusterVersion r) (OperatorNamespace r)
    (o_Cluster o) (o_App o) (o_K8sVersion o) (o_NodeCount o) (o_Ceph o) (o_Err o) None k2) as Hs.
  rewrite Hstatus in Hs. apply Hs in Hready as [Herr _].
  destruct (deployApplication_Ok _ _ _ _ Hdeploy Herr) as (Herr1 & Hc & Hv & conn & Hconn & Hdep).
  destruct (observeCluster_Ok _ _ _ _ Hobserve Herr1) as (Hspec & Hname & Hans).
  rewrite Hc. split; [by rewrite Hv|]. split; [done|]. split; [done|]. split; [done|]. exists conn. split; [congruence|done].
Qed.
End ready.
