(* ===== verification/ClusterSafety.v ===== *)
(** * What the reconciliation of a cluster may write to it

    The clients of [Connections] and [Talos] know no call that updates a Cluster. When what they do
    is recorded among the calls of [ClusterSyncTheorems.Server], the reconciliation of a cluster that
    is not being deleted updates no Cluster, so that the theorem on finalizers holds for the
    complete [Reconcile]. *)

From S2P Require Import Prelude Strings Operator ClusterStatus ClusterSync ClusterSyncTheorems.
From S2P Require Import Connections Talos ClusterDeploy.

(** The calls of the other clients, whatever events they stand for, update no Cluster. *)
Class QuietClients {U} (CC : ClusterClient (list (Event U))) (TC : TalosClient (list (Event U)) U) := {
  quiet_GetSecret name ns h : appends no_update h (GetSecret name ns h).2;
  quiet_CreateOrUpdateSecret name ns f h :
    (∀ s h, quiet_run h (f s h)) → quiet_run h (CreateOrUpdateSecret name ns f h);
  quiet_ListClusters ns h : appends no_update h (ListClusters ns h).2;
  quiet_ServerVersion config h : appends no_update h (ServerVersion config h).2;
  quiet_ListNodes config h : appends no_update h (ListNodes config h).2;
  quiet_ListCephClusters config h : appends no_update h (ListCephClusters config h).2;
  quiet_ListTalosMachines ns h : appends no_update h (ListTalosMachines ns h).2;
  quiet_RedfishConnect a b c h : appends no_update h (RedfishConnect a b c h).2;
  quiet_RedfishSystems a h : appends no_update h (RedfishSystems a h).2;
  quiet_RedfishBios s h : appends no_update h (RedfishBios s h).2;
  quiet_UpdateBiosAttributes s patch h : appends no_update h (UpdateBiosAttributes s patch h).2;
  quiet_SetBootPxeOnce s h : appends no_update h (SetBootPxeOnce s h).2;
  quiet_RedfishReset s t h : appends no_update h (RedfishReset s t h).2;
  quiet_CreateOrUpdateApplication name ns f h : appends no_update h (CreateOrUpdateApplication name ns f h).2;
  quiet_CreateOrUpdateAppProject name ns f h : appends no_update h (CreateOrUpdateAppProject name ns f h).2;
  quiet_DeleteApplication app h : appends no_update h (DeleteApplication app h).2;
}.

(** A step of a run: destruct it, keeping that it is quiet. *)
Ltac quiet_step lem :=
  let H := fresh "Hquiet" in
  pose proof lem as H;
  match type of H with
  | appends _ _ (snd ?x) => destruct x as [? ?] eqn:?; cbn [snd fst] in H
  | quiet_run _ ?x => destruct x as [[? ?]|] eqn:?; cbn [quiet_run] in H
  end.

(** Closes a chain of quiet steps. *)
Ltac quiet_done :=
  cbn [quiet_run snd];
  solve [done | apply appends_refl | repeat (eapply appends_trans; [eassumption|]); first [eassumption|apply appends_refl] ].

Section quiet.
Context {GT : GoText} {SV : Semver} {U : Type} {UN : Unstructured U} (S : Server U).
Context {CC : ClusterClient (list (Event U))} {TC : TalosClient (list (Event U)) U} {QC : QuietClients CC TC}.
Context (r : Reconciler).
Implicit Types (cluster : Cluster) (h : list (Event U)).

#[local] Hint Extern 0 (OperatorClient (list (Event U)) U) => exact (server S) : typeclass_instances.

Lemma quiet_reads h h' : appends reads h h' → appends no_update h h'.
Proof. apply appends_mono. by intros []. Qed.

Lemma quiet_allowed late h h' : appends (allowed late) h h' → appends no_update h h'.
Proof. apply appends_mono. by intros []. Qed.

Lemma quiet_run_trans {A} h k (x : option (A * list (Event U))) :
  appends no_update h k → quiet_run k x → quiet_run h x.
Proof. destruct x as [[a k']|]; [|done]. apply appends_trans. Qed.

(** *** The Secrets and the health *)

Lemma argocdSecret_quiet cluster conn secret h : quiet_run h (Some (argocdSecret cluster conn secret h)).
Proof.
  unfold argocdSecret. destruct (SetControllerReference _ _); [|quiet_done].
  destruct (SecretRef conn) as [ref|]; [|quiet_done].
  quiet_step (quiet_GetSecret (sr_Name ref) (secretNamespace cluster ref) h).
  destruct r0; [|quiet_done]. case_decide; [quiet_done|]. destruct (MarshalJSON _); quiet_done.
Qed.

Lemma reconcileArgoCDSecret_quiet cluster h : quiet_run h (reconcileArgoCDSecret (OperatorNamespace r) cluster h).
Proof.
  unfold reconcileArgoCDSecret. destruct (Connection (Spec cluster)) as [conn|]; [|done]. cbn [mbind option_bind].
  case_decide; [quiet_done|]. apply quiet_CreateOrUpdateSecret. intros s h'. apply argocdSecret_quiet.
Qed.

Lemma mergeCluster_quiet cluster merged h : appends no_update h (mergeCluster cluster merged h).2.
Proof.
  unfold mergeCluster. destruct (Connection (Spec cluster)) as [conn|]; [|quiet_done].
  case_decide; [quiet_done|]. case_decide; [|quiet_done]. destruct (SecretRef conn) as [ref|]; [|quiet_done].
  quiet_step (quiet_GetSecret (sr_Name ref) (secretNamespace cluster ref) h). destruct r0; quiet_done.
Qed.

Lemma mergeClusters_quiet clusters merged h :
  appends no_update h (fold_left (λ '(merged, k) cluster, mergeCluster cluster merged k) clusters (merged, h)).2.
Proof.
  revert merged h. induction clusters as [|c clusters IH]; intros merged h; cbn [fold_left]; [quiet_done|].
  quiet_step (mergeCluster_quiet c merged h). eapply appends_trans; [eassumption|apply IH].
Qed.

Lemma reconcileToolboxKubeconfigSecret_quiet h :
  quiet_run h (reconcileToolboxKubeconfigSecret (OperatorNamespace r) h).
Proof.
  unfold reconcileToolboxKubeconfigSecret. quiet_step (quiet_ListClusters (OperatorNamespace r) h).
  destruct r0 as [clusters|]; [|quiet_done].
  quiet_step (mergeClusters_quiet clusters (mkKubeConfig ∅ ∅ ∅ EmptyString) l).
  destruct (WriteKubeconfig k) as [bytes|]; [|quiet_done].
  match goal with |- context [CreateOrUpdateSecret ?n ?ns ?f ?k] =>
    assert (Hw : quiet_run k (CreateOrUpdateSecret n ns f k))
      by (apply quiet_CreateOrUpdateSecret; intros; quiet_done);
    destruct (CreateOrUpdateSecret n ns f k) as [[written h3]|]; [|done]
  end.
  cbn [mbind option_bind quiet_run] in *. destruct written; quiet_done.
Qed.

Lemma getRESTConfigForCluster_quiet cluster h : appends no_update h (getRESTConfigForCluster cluster h).2.
Proof.
  unfold getRESTConfigForCluster. destruct (Connection (Spec cluster)) as [conn|]; [|quiet_done].
  case_decide; [destruct (GetLocalConfig h); quiet_done|]. case_decide; [quiet_done|].
  destruct (SecretRef conn) as [ref|]; [|quiet_done].
  quiet_step (quiet_GetSecret (sr_Name ref) (secretNamespace cluster ref) h).
  destruct r0 as [secret|]; [|quiet_done]. destruct (buildRESTConfig (URL conn) secret); quiet_done.
Qed.

Lemma reconcileCephClusters_quiet config h : appends no_update h (reconcileCephClusters config h).2.
Proof.
  unfold reconcileCephClusters. destruct (NewDynamicClient config); [|quiet_done].
  quiet_step (quiet_ListCephClusters config h). destruct r0; quiet_done.
Qed.

Lemma reconcileHealth_quiet cluster h : appends no_update h (reconcileHealth cluster h).2.
Proof.
  unfold reconcileHealth. quiet_step (getRESTConfigForCluster_quiet cluster h).
  destruct p as [[config|err] c]; [|quiet_done]. quiet_step (quiet_ServerVersion config l).
  destruct r0 as [v|]; [|quiet_done]. quiet_step (quiet_ListNodes config l0).
  quiet_step (reconcileCephClusters_quiet config l1). quiet_done.
Qed.

Lemma observeCluster_quiet cluster h : quiet_run h (observeCluster (U:=U) r cluster h).
Proof.
  unfold observeCluster. quiet_step (reconcileArgoCDSecret_quiet cluster h); [|done].
  cbn [mbind option_bind].
  assert (Ht : quiet_run l (if ToolboxEnabled r then reconcileToolboxKubeconfigSecret (OperatorNamespace r) l
    else Some (Ok tt, l))) by (destruct (ToolboxEnabled r); [apply reconcileToolboxKubeconfigSecret_quiet|quiet_done]).
  destruct (if ToolboxEnabled r then _ else _) as [[tool l1]|]; [|done]. cbn [mbind option_bind quiet_run] in *.
  destruct (firstError (firstError None r0) tool); [quiet_done|].
  quiet_step (reconcileHealth_quiet cluster l1). destruct p as [[[[[v n] c]|err] res] c1]; quiet_done.
Qed.

(** *** The ArgoCD objects *)

Lemma validate_quiet cluster h : appends no_update h (validate (U:=U) (MinOperatorVersion r) (MinClusterVersion r)
  (MaxClusterVersion r) (OperatorNamespace r) (DisableVersionValidation r) cluster h).2.
Proof.
  unfold validate. destruct (validateTopology cluster); [|quiet_done].
  destruct (DisableVersionValidation r); [quiet_done|].
  assert (Hm : appends no_update h (validateManagementCompatibility (MinClusterVersion r) (MaxClusterVersion r)
    (OperatorNamespace r) cluster h).2).
  { unfold validateManagementCompatibility. case_decide; [quiet_done|].
    quiet_step (GetApplicationVersion_quiet S (OperatorNamespace r) ManagementAppName h).
    unfold GetCurrentManagementVersion. rewrite Heqp. destruct r0; [|quiet_done]. case_decide; quiet_done. }
  destruct (validateManagementCompatibility _ _ _ cluster h) as [[v|e] h1]; [|quiet_done]. cbn in Hm.
  assert (Hu : appends no_update h1 (validateUpgradePath (MinOperatorVersion r) (MinClusterVersion r)
    (MaxClusterVersion r) (OperatorNamespace r) cluster h1).2).
  { unfold validateUpgradePath, GetCurrentClusterVersion.
    quiet_step (GetApplicationVersion_quiet S (OperatorNamespace r) (cl_Name cluster) h1).
    destruct r0; [|quiet_done]. case_decide; quiet_done. }
  destruct (validateUpgradePath _ _ _ _ cluster h1) as [[w|e] h2]; quiet_done.
Qed.

Lemma reconcileClustersConfigMap_quiet cluster h : appends no_update h
  (reconcileClustersConfigMap (U:=U) (OperatorNamespace r) (ClustersConfigMapName r) cluster h).2.
Proof.
  unfold reconcileClustersConfigMap. case_decide; [quiet_done|]. cbn.
  destruct (s_GetConfigMap U S h _ _) as [data|err]; cbn.
  - destruct (default ∅ data !! cl_Name cluster); [by apply appends_call|].
    eapply appends_trans; by apply appends_call.
  - destruct (op_IsNotFound err); [|by apply appends_call]. eapply appends_trans; by apply appends_call.
Qed.

Lemma deployApplication_quiet (o : Observed (U:=U)) h : quiet_run h (deployApplication r o h).
Proof.
  unfold deployApplication. destruct (Connection (Spec (o_Cluster o))) as [conn|]; [|done].
  cbn [mbind option_bind].
  quiet_step (quiet_CreateOrUpdateAppProject (cl_Name (o_Cluster o)) (OperatorNamespace r)
    (appProjectObject r (o_Cluster o) conn) h).
  unfold reconcileAppProject. rewrite Heqp. destruct (firstError _ _); [quiet_done|].
  quiet_step (validate_quiet (o_Cluster o) l). destruct r1; [|quiet_done].
  quiet_step (quiet_CreateOrUpdateApplication (cl_Name (o_Cluster o)) (OperatorNamespace r)
    (applicationObject r (o_Cluster o) conn) l0).
  unfold reconcileApplication. rewrite Heqp1. destruct r1 as [app|]; [|quiet_done].
  cbn [GetApplication server recorded record].
  set (l2 := l1 ++ [_]). assert (Hget : appends no_update l1 l2) by by apply appends_call.
  quiet_step (reconcileClustersConfigMap_quiet (o_Cluster o) l2). destruct r1; quiet_done.
Qed.

Lemma resync_quiet (o : Observed (U:=U)) cluster h : appends no_update h (resync (U:=U) r o cluster h).2.
Proof.
  unfold resync. destruct (_ && _); [|quiet_done].
  pose proof (periodic_sync_guarded S (OperatorNamespace r) (SyncPeriod r) (SyncTimeout r) cluster h) as Hp.
  destruct (runPeriodicSync _ _ _ cluster h) as [triggered h1]. destruct Hp as (_ & Hp%quiet_allowed & _).
  destruct triggered; [|quiet_done]. unfold writeStatus.
  match goal with |- context [syncStatus ?a ?b ?c ?d ?e ?f ?g ?i ?j ?k h1] =>
    pose proof (syncStatus_quiet S a b c d e f g i j k h1) as Hs;
    destruct (syncStatus a b c d e f g i j k h1) as [[? ?] ?] end.
  cbn [snd] in Hs. quiet_done.
Qed.

(** *** The talos-manager *)

Lemma setupNode_quiet config node h : quiet_run h (setupNode config node h).
Proof.
  unfold setupNode.
  quiet_step (quiet_RedfishConnect ("https://" +:+ IpmiIpv4 node) (IpmiUser node) (IpmiPassword node) h).
  destruct r0; [|quiet_done]. quiet_step (quiet_RedfishSystems (IpmiIpv4 node) l).
  destruct r0 as [[|system ?]|]; [done| |quiet_done]. quiet_step (quiet_RedfishBios system l0).
  destruct r0; [|quiet_done].
  assert (Hreset : ∀ k, quiet_run k (Some match SetBootPxeOnce system k with
    | (Err err, k) => (Err err, k)
    | (Ok _, k) => RedfishReset system (if PowerOff system then OnResetType else ForceRestartResetType) k
    end)).
  { intros k. quiet_step (quiet_SetBootPxeOnce system k). destruct r0; [|quiet_done].
    quiet_step (quiet_RedfishReset system (if PowerOff system then OnResetType else ForceRestartResetType) l3).
    quiet_done. }
  assert (Hl : appends no_update h l2) by quiet_done. case_decide; [|by apply (quiet_run_trans h l2)].
  quiet_step (quiet_UpdateBiosAttributes system (pxePatch config node (Manufacturer system)) l2).
  destruct r0; [|quiet_done]. apply (quiet_run_trans h l3); [quiet_done|apply Hreset].
Qed.

Lemma setupNodes_quiet config nodes doneList update h :
  quiet_run h (setupNodes config nodes doneList update h).
Proof.
  revert doneList update h. induction nodes as [|n nodes IH]; intros doneList update h; cbn [setupNodes];
    [quiet_done|]. destruct (toSetUp doneList n); [|apply IH].
  quiet_step (setupNode_quiet config n h); [|done]. cbn [mbind option_bind]. destruct r0; [|quiet_done].
  quiet_step (IH (doneList ++ [Hostname n]) true l); quiet_done.
Qed.

Lemma alreadyDone_quiet config cluster h : appends no_update h (alreadyDone (U:=U) config cluster h).2.
Proof.
  unfold alreadyDone. destruct (PXESetupDone _); [|quiet_done].
  quiet_step (quiet_ListTalosMachines (cl_Namespace cluster) h).
  destruct r0; [quiet_done|]. case_decide; quiet_done.
Qed.

Lemma pxeSetup_quiet config cluster h : quiet_run h (pxeSetup (U:=U) config cluster h).
Proof.
  unfold pxeSetup. quiet_step (alreadyDone_quiet config cluster h). destruct r0 as [[d u]|]; [|quiet_done].
  quiet_step (setupNodes_quiet config (Nodes config) d u l); [|done]. cbn [mbind option_bind].
  destruct r0 as [[d' []]|]; [|quiet_done|quiet_done].
  cbn [PatchClusterStatus server recorded record]. eapply appends_trans; [eassumption|].
  eapply appends_trans; [eassumption|]. by apply appends_call.
Qed.

Lemma deployTalosManager_quiet config cluster h : appends no_update h (deployTalosManager (U:=U)
  (OperatorNamespace r) (TalosManagerChartURL r) (TalosManagerChartVersion r) config cluster h).2.
Proof.
  unfold deployTalosManager. destruct (TalosConfigValues config) as [values|]; [|quiet_done].
  quiet_step (quiet_CreateOrUpdateApplication (TalosManagerApp +:+ "-" +:+ cl_Name cluster)
    (OperatorNamespace r) (talosManagerObject (OperatorNamespace r) (TalosManagerChartURL r)
    (TalosManagerChartVersion r) cluster values) h). quiet_done.
Qed.

Lemma reconcileTalosManager_quiet cluster h : quiet_run h (reconcileTalosManager (U:=U) (OperatorNamespace r)
  (TalosManagerChartURL r) (TalosManagerChartVersion r) cluster h).
Proof.
  unfold reconcileTalosManager. destruct (TalosManagerConfiguration (Spec cluster)) as [raw|]; [|quiet_done].
  destruct (UnmarshalTalosConfig _ raw) as [config|]; [|quiet_done].
  case_decide; [|quiet_step (deployTalosManager_quiet config cluster h); quiet_done].
  destruct (injectLinkAliases config) as [config'|]; [|quiet_done].
  quiet_step (pxeSetup_quiet config' cluster h); [|done]. cbn [mbind option_bind]. destruct p as [[u|] c]; [|quiet_done].
  quiet_step (deployTalosManager_quiet config' c l). quiet_done.
Qed.

Lemma generateConnectionSecret_quiet cluster h : quiet_run h (generateConnectionSecret (U:=U) cluster h).
Proof.
  unfold generateConnectionSecret.
  quiet_step (quiet_GetSecret (cl_Name cluster +:+ "-kubeconfig") (cl_Namespace cluster) h).
  destruct r0 as [secret|err]; [|destruct (op_IsNotFound err); quiet_done].
  destruct (UnmarshalKubeconfig _) as [kubeconfig|]; [|quiet_done].
  destruct (Connection (Spec cluster)) as [conn|]; [|done]. cbn [mbind option_bind].
  destruct (SecretRef conn) as [ref|]; [|quiet_done].
  match goal with |- context [CreateOrUpdateSecret ?n ?ns ?f ?k] =>
    assert (Hw : quiet_run k (CreateOrUpdateSecret n ns f k)) end.
  { apply quiet_CreateOrUpdateSecret. intros s h'. destruct (head (kc_Clusters kubeconfig)); [|done].
    destruct (head (kc_Users kubeconfig)) as [[cert key]|]; [|done]. quiet_done. }
  destruct (CreateOrUpdateSecret _ _ _ l) as [[w l1]|]; [|done]. cbn [quiet_run] in *. quiet_done.
Qed.

Lemma reconcileTalos_quiet cluster err h : quiet_run h (reconcileTalos (U:=U) r cluster err h).
Proof.
  unfold reconcileTalos. case_decide.
  - quiet_step (reconcileTalosManager_quiet cluster h); [|done]. cbn [mbind option_bind]. destruct p as [res c].
    destruct (Connection (Spec c)) as [conn|]; [|done]. cbn [mbind option_bind]. case_decide; [|quiet_done].
    quiet_step (generateConnectionSecret_quiet c l); [|done]. quiet_done.
  - cbn [GetApplication server recorded record].
    set (l := h ++ [_]). assert (Hget : appends no_update h l) by by apply appends_call.
    destruct (s_GetApplication U S h _ _) as [existing|e]; [|quiet_done]. destruct err; [quiet_done|].
    quiet_step (quiet_DeleteApplication existing l). quiet_done.
Qed.

(** The reconciliation of a cluster that is not being deleted updates no Cluster. *)
Lemma reconcileCluster_quiet cluster h : quiet_run h (reconcileCluster (U:=U) r cluster h).
Proof.
  unfold reconcileCluster. quiet_step (observeCluster_quiet cluster h); [|done]. cbn [mbind option_bind].
  quiet_step (deployApplication_quiet o l); [|done]. cbn [mbind option_bind].
  assert (Hs : ∀ (o : Observed (U:=U)) c t (k : list (Event U)), appends no_update k (writeStatus r o c t k).2).
  { intros. unfold writeStatus. apply syncStatus_quiet. }
  specialize (Hs o0 (o_Cluster o0) None l0).
  destruct (writeStatus r o0 (o_Cluster o0) None l0) as [[c [u|e]] l1]; cbn [snd] in Hs; [|quiet_done].
  quiet_step (resync_quiet o0 c l1). quiet_step (reconcileTalos_quiet c0 (o_Err o0) l2); [|done].
  cbn [mbind option_bind quiet_run]. quiet_done.
Qed.

(** C39: The finalizer of a cluster is only removed by a reconciliation that read the cluster as being
    deleted, and then found no root Application, no sub-application, and no entry of the cluster
    in the shared ConfigMap, or removed it; removing it is the last thing it does. *)
Theorem finalizer_removed_when_gone namespace name res h before after c answer :
  Reconcile (MinClusterVersion r) (MaxClusterVersion r) (OperatorNamespace r) (ClustersConfigMapName r)
    (reconcileCluster (U:=U) r) namespace name [] = Some (res, h) →
  h = before ++ UpdatedCluster c answer :: after → FinalizerName ∉ cl_Finalizers c →
  ∃ cluster, c = RemoveFinalizer cluster FinalizerName ∧ cl_Deleting cluster = true ∧
    GotCluster namespace name (Ok cluster) ∈ before ∧
    gone (OperatorNamespace r) (ClustersConfigMapName r) cluster before ∧ after = [].
Proof.
  intros Hrun. apply Reconcile_kept in Hrun; [|apply reconcileCluster_quiet]. apply Hrun.
Qed.
End quiet.
