(* ===== verification/ClusterWitnesses.v ===== *)
(** * Samples of the operator

    A management cluster with two others, the Applications that deploy them, and the theorems on
    the status at these states. *)

From S2P Require Import Prelude Strings Operator ClusterStatus ClusterTheorems ClusterSettles ClusterSync.
From S2P Require Import ClusterSyncTheorems Connections Talos ClusterDeploy DeployTheorems ClusterSafety.

(** ** A sample of what the operator calls *)

(** An Application: a name and the strings of its fields. *)
Record SampleApp := mkSampleApp { sa_name : string; sa_fields : list (list string * string) }.

Fixpoint sampleField (fields : list (list string * string)) (path : list string) : option string :=
  match fields with
  | [] => None
  | (p, v) :: fields => if decide (p = path) then Some v else sampleField fields path
  end.

#[export] Instance sample_unstructured : Unstructured SampleApp := {
  GetName := sa_name;
  NestedString app path := sampleField (sa_fields app) path;
  NestedSlice _ _ := None;
  SetNestedString app v path := Some (mkSampleApp (sa_name app) ((path, v) :: sa_fields app));
  SetSyncOperation app := Some app;
}.

#[export] Instance sample_text : GoText := { ParseRFC3339 _ := Some 1; Quote s := s }.

(** Versions compared by their first digit. *)
#[export] Instance sample_semver : Semver := {
  SemVersion := string; SemConstraints := string;
  NewVersion v := if decide (v = EmptyString) then Err (Errorf "no version") else Ok v;
  NewConstraint c := Ok c;
  Check _ v := HasPrefix v "1.";
}.

(** The Applications of the management namespace, and the clock. *)
Record SampleK := mkSampleK { sk_apps : list SampleApp; sk_now : Z }.

Definition sampleGet (name : string) (k : SampleK) : result OpError SampleApp :=
  match find (λ a, bool_decide (sa_name a = name)) (sk_apps k) with
  | Some a => Ok a
  | None => Err (mkOpError KindNotFound (name +:+ " not found"))
  end.

#[export] Instance sample_client : OperatorClient SampleK SampleApp := {
  GetApplication name _ k := (sampleGet name k, k);
  ListApplications _ _ name k := (Ok (filter (λ a, HasPrefix (sa_name a) name = true) (sk_apps k)), k);
  PatchApplication _ app k := (Ok app, k);
  PatchApplicationStatus _ app k := (Ok app, k);
  ClearOperation app k := (Ok app, k);
  PatchClusterStatus _ _ k := (Ok tt, mkSampleK (sk_apps k) (sk_now k + 1));
  UpdateCluster _ k := (Ok tt, k);
  GetCluster _ name k := (Err (mkOpError KindNotFound name), k);
  GetConfigMap _ _ k := (Ok None, k);
  CreateConfigMap _ _ _ k := (Ok tt, k);
  UpdateConfigMap _ _ _ k := (Ok tt, k);
  RESTMapping _ k := (Ok tt, k);
  Now k := sk_now k;
}.

Definition sampleClusterApp (sync health version : string) : SampleApp :=
  mkSampleApp "paris" [(["status"; "sync"; "status"], sync); (["status"; "health"; "status"], health);
    (["spec"; "source"; "targetRevision"], version)].

Definition sampleManagement : SampleApp :=
  mkSampleApp "management" [(["spec"; "source"; "targetRevision"], "1.4.0")].

Definition sampleState (app : SampleApp) : SampleK := mkSampleK [sampleManagement; app] 100.

(** A workload cluster of version 1.2.0, reachable. *)
Definition sampleCluster (pause : bool) : Cluster :=
  mkCluster "paris" "superphenix" 3 false []
    (mkClusterSpec DeploymentTopologyHyperconverged (Some ClusterTypeWorkload) EmptyString None "eu" "a"
      None None "1.2.0" (Some (mkClusterConnectionSpec "Local" EmptyString None))
      (Some (mkClusterLifecycleSpec pause false false)))
    (mkClusterStatus EmptyString EmptyString EmptyString 0 None None
      [mkCondition ConditionTypeReachable ConditionTrue "Reachable" "Cluster is reachable" 3 50] 2 None []).

Definition sampleSync (pause : bool) (app : SampleApp) (err : option OpError) : Cluster :=
  (syncStatus (K:=SampleK) (U:=SampleApp) "1.0.0" "2.0.0" "superphenix" (sampleCluster pause) (Some app)
    "v1.31" 3 None err None (sampleState app)).1.1.

Definition sampleHealthy : SampleApp := sampleClusterApp "Synced" "Healthy" "1.2.0".

Example sample_phases :
  (λ c, Phase (Status c)) <$>
    [sampleSync false sampleHealthy None; sampleSync true sampleHealthy None;
     sampleSync false (sampleClusterApp "Synced" "Degraded" "1.2.0") None;
     sampleSync false (sampleClusterApp "OutOfSync" "Healthy" "1.2.0") None;
     sampleSync false (sampleClusterApp "Synced" "Healthy" "1.1.0") None;
     sampleSync false sampleHealthy (Some (Errorf "invalid secret"))] =
  ["Deployed"; "Paused"; "Error"; "OutOfSync"; "Deploying"; "Error"].
Proof. vm_compute. reflexivity. Qed.

(** A cluster that is resumed keeps its Paused condition, and its phase until the Application
    reports a sync status. *)
Definition sampleResume (app : SampleApp) : Cluster :=
  let c := sampleSync true sampleHealthy None in
  (syncStatus (K:=SampleK) (U:=SampleApp) "1.0.0" "2.0.0" "superphenix"
    (mkCluster (cl_Name c) (cl_Namespace c) 4 false [] (Spec (sampleCluster false)) (Status c)) (Some app)
    "v1.31" 3 None None None (sampleState app)).1.1.

Example resumed_stays_paused :
  let c := sampleResume (sampleClusterApp EmptyString "Healthy" "1.2.0") in
  let d := sampleResume sampleHealthy in
  (Phase (Status c), status_of ConditionTypePaused (Conditions (Status c)),
   Phase (Status d), status_of ConditionTypePaused (Conditions (Status d))) =
  ("Paused", Some ConditionTrue, "Deployed", Some ConditionTrue).
Proof. vm_compute. reflexivity. Qed.

(** The first phase of a cluster whose Application has no sync status yet. *)
Example first_phase_unknown :
  Phase (Status (sampleSync false (sampleClusterApp EmptyString EmptyString "1.2.0") None)) = "Unknown".
Proof. vm_compute. reflexivity. Qed.

Lemma sample_distinct pause : distinct_types (Conditions (Status (sampleCluster pause))).
Proof. apply NoDup_singleton. Qed.

(** ** The theorems at the samples *)

Lemma syncStatus_phase_witness :
  Phase (Status (sampleSync false sampleHealthy None)) = "Deployed" ∧
  (SuperphenixVersion (Status (sampleSync false sampleHealthy None)) = "1.2.0" ∨
   SuperphenixVersion (Status (sampleSync false sampleHealthy None)) = EmptyString).
Proof.
  pose proof (syncStatus_phase (K:=SampleK) (U:=SampleApp) "1.0.0" "2.0.0" "superphenix"
    (sampleCluster false) (Some sampleHealthy) "v1.31" 3 None None None (sampleState sampleHealthy)
    (sample_distinct false)) as H.
  assert (Hd : Phase (Status (sampleSync false sampleHealthy None)) = "Deployed") by (vm_compute; reflexivity).
  split; [exact Hd|]. unfold sampleSync in Hd |- *.
  destruct (syncStatus _ _ _ (sampleCluster false) _ _ _ _ _ _ _) as [[updated r] k'].
  destruct H as (_ & _ & H). destruct (H eq_refl eq_refl) as [H' _]. by apply H' in Hd as [? _].
Defined.

Lemma syncStatus_settles_witness :
  let once := sampleSync false sampleHealthy None in
  (syncStatus (K:=SampleK) (U:=SampleApp) "1.0.0" "2.0.0" "superphenix" once (Some sampleHealthy)
    "v1.31" 3 None None None (mkSampleK [sampleManagement; sampleHealthy] 500)).1.1 = once.
Proof.
  apply (syncStatus_settles (K:=SampleK) (U:=SampleApp) (OC:=sample_client) "1.0.0" "2.0.0" "superphenix"
    (λ name namespace k, eq_refl k) (λ namespace label name k, eq_refl k) (sampleCluster false) (Some sampleHealthy) "v1.31" 3 None None None
    (sampleState sampleHealthy)).
  - apply sample_distinct.
  - discriminate.
  - reflexivity.
  - reflexivity.
Defined.

(** ** Deletion and synchronisation *)

(** A server with the given cluster and Applications, where every write succeeds; its clock. *)
Definition sampleServer (cluster : Cluster) (root : option SampleApp) (subs : list SampleApp)
    (data : gmap string string) (now : Z) : Server SampleApp :=
  mkServer SampleApp
    (λ _ name _, match root with Some app => Ok app | None => Err (mkOpError KindNotFound name) end)
    (λ _ _ _ _, Ok subs) (λ _ _ app, Ok app) (λ _ _ app, Ok app) (λ _ app, Ok app)
    (λ _ _ _, Ok tt) (λ _ _, Ok tt) (λ _ _ _, Ok cluster) (λ _ _ _, Ok (Some data))
    (λ _ _ _ _, Ok tt) (λ _ _ _ _, Ok tt) (λ _ _, Ok tt) (λ _, now).

Definition deletedCluster : Cluster :=
  let c := sampleCluster false in
  mkCluster (cl_Name c) (cl_Namespace c) 5 true [FinalizerName] (Spec c) (Status c).

Definition goneServer : Server SampleApp := sampleServer deletedCluster None [] {["paris" := EmptyString]} 100.

(** A synchronisation that was started an hour ago is terminated and restarted. *)
Definition runningApp (start : string) : SampleApp :=
  mkSampleApp "paris-net" [(["status"; "operationState"; "phase"], operationPhaseRunning);
    (["status"; "operationState"; "startedAt"], start)].

Definition hour : Z := 60 * Minute.

Definition sampleRun (timeout : Z) : bool * list (Event SampleApp) :=
  runPeriodicSync (OC := recorded (sampleServer (sampleCluster false) (Some sampleHealthy)
    [runningApp "t"] ∅ hour)) "superphenix" Minute timeout (sampleCluster false) [].

Definition is_write (e : Event SampleApp) : bool :=
  match e with GotApplication _ _ _ | ListedApplications _ _ _ _ => false | _ => true end.

Example stuck_sync_restarted :
  ((sampleRun (hour - Minute)).1, length (filter is_write (sampleRun (hour - Minute)).2)) = (true, 4%nat) ∧
  sampleRun (2 * hour) = (false, filter (λ e, is_write e = false) (sampleRun (2 * hour)).2).
Proof. vm_compute. done. Qed.

(** * Samples of the deployment of a cluster

    The clients of [Connections] and [Talos] on the samples of [ClusterWitnesses], and the theorems
    of [DeployTheorems] at these states. *)

Definition sampleSecret : Secret := mkSecret None None {["bearerToken" := " t "]} ∅.
Definition emptySecret : Secret := mkSecret None None ∅ ∅.

#[export] Instance sample_connections : ClusterClient SampleK := {
  GetSecret _ _ k := (Ok sampleSecret, k);
  CreateOrUpdateSecret _ _ f k := match f emptySecret k with
    | Some (Ok _, k) => Some (Ok tt, k)
    | Some (Err err, k) => Some (Err err, k)
    | None => None
    end;
  SetControllerReference c _ := Ok (Some (cl_Name c));
  ListClusters _ k := (Ok [], k);
  GetLocalConfig _ := Ok (mkLocalConfig (mkRESTConfig "https://local" EmptyString EmptyString "t" EmptyString
    EmptyString EmptyString false EmptyString) EmptyString EmptyString EmptyString EmptyString);
  ReadFile name _ := Err (mkOpError KindNotFound name);
  ServerVersion _ k := (Ok "v1.31", k);
  ListNodes _ k := (Ok 3, k);
  NewDynamicClient _ := Ok tt;
  ListCephClusters _ k := (Ok [], k);
  MarshalJSON _ := Ok "{}";
  WriteKubeconfig _ := Ok "kubeconfig";
}.

Definition emptyObject : ArgoObject := mkArgoObject None None [] ∅.

#[export] Instance sample_talos : TalosClient SampleK SampleApp := {
  UnmarshalTalosConfig _ text := Err (Errorf text);
  TalosConfigValues _ := Ok ∅;
  UnmarshalJSON _ := None;
  UnmarshalKubeconfig text := Err (Errorf text);
  ZstdCompress text := Ok text;
  ToLower text := text;
  ListTalosMachines _ k := (Ok [], k);
  RedfishConnect _ _ _ k := (Ok tt, k);
  RedfishSystems _ k := (Ok [mkRedfishSystem "1" DELL true], k);
  RedfishBios _ k := (Ok tt, k);
  UpdateBiosAttributes _ _ k := (Ok tt, k);
  SetBootPxeOnce _ k := (Ok tt, k);
  RedfishReset _ _ k := (Ok tt, mkSampleK (sk_apps k) (sk_now k + Minute));
  CreateOrUpdateApplication _ _ f k := (match f emptyObject with Ok _ => Ok sampleHealthy | Err e => Err e end, k);
  CreateOrUpdateAppProject _ _ f k := (match f emptyObject with Ok _ => Ok tt | Err e => Err e end, k);
  DeleteApplication _ k := (Ok tt, k);
}.

(** ** Credentials and objects *)

Definition sampleRef : SecretReference := mkSecretReference "paris" EmptyString.
Definition remote : ClusterConnectionSpec :=
  mkClusterConnectionSpec ConnectionModeRemote "https://paris" (Some sampleRef).

Lemma credentials_agree_witness :
  ∃ written, argocdSecret (sampleCluster false) remote emptySecret (sampleState sampleHealthy) =
      (Ok written, sampleState sampleHealthy) ∧
    Data written = <["config" := "{}"]> (<["server" := "https://paris"]> {["name" := "paris"]}).
Proof.
  destruct (credentials_agree (K:=SampleK) (CC:=sample_connections) (sampleCluster false) remote sampleRef "https://paris" emptySecret sampleSecret
    (Some "paris") "{}" (sampleState sampleHealthy) (sampleState sampleHealthy)
    eq_refl eq_refl eq_refl eq_refl) as (_ & _ & H).
  destruct H as (written & Heq & Hdata); [|exists written; split; [exact Heq|exact Hdata]].
  left. vm_compute. discriminate.
Defined.

Definition sampleReconciler : Reconciler :=
  mkReconciler "superphenix" EmptyString "https://charts" "superphenix-system" "1.0.0" Minute hour
    "https://charts" "1.0.0" false false "1.0.0" "1.0.0" "2.0.0".

Lemma argocd_objects_follow_witness :
  ∃ app project,
    applicationObject sampleReconciler (sampleCluster true) remote emptyObject = Ok app ∧
    appProjectObject sampleReconciler (sampleCluster true) remote emptyObject = Ok project ∧
    valueAt (ao_Spec app) ["source"; "targetRevision"] = Some (VString "1.2.0") ∧
    is_Some (ao_Spec project !! "syncWindows").
Proof.
  destruct (applicationObject sampleReconciler (sampleCluster true) remote emptyObject) as [app|e] eqn:Happ;
    [|discriminate Happ].
  destruct (appProjectObject sampleReconciler (sampleCluster true) remote emptyObject) as [project|e] eqn:Hproj;
    [|discriminate Hproj].
  pose proof (argocd_objects_follow (K:=SampleK) (U:=SampleApp) sampleReconciler (sampleCluster true) remote
    emptyObject emptyObject app project Happ Hproj) as (Hrev & _ & _ & _ & _ & Hwindow & _).
  exists app, project. split; [reflexivity|]. split; [reflexivity|]. split; [exact Hrev|].
  apply Hwindow. reflexivity.
Defined.

(** ** The PXE setup *)

Definition sampleNode (name : string) (pxe : bool) : NodeSpec :=
  let none := mkNodeNetworkAddress EmptyString EmptyString in
  mkNodeSpec name "worker" "amd64" EmptyString EmptyString pxe "10.0.0.1" "root" "root" "NIC.1"
    (mkNodeInterfaceSpec "eth0" (mkNodeNetworkAddress "10.1.0.1" EmptyString) none none true
      (mkLacpBondSpec false EmptyString EmptyString 0 0 0 0 []) "aa:bb") (mkInstallDiskSpec true EmptyString) [].

Definition sampleConfig : TalosManagerConfigurationSpec :=
  let network := mkNetworkSpec EmptyString EmptyString 0 0 0 0 in
  let subnet := mkSubnetSpec EmptyString EmptyString 0 0 in
  mkTalosManagerConfigurationSpec true EmptyString EmptyString "paris" EmptyString EmptyString
    (mkClusterNetworkSpec EmptyString EmptyString 0 0 12 EmptyString EmptyString 0) network network subnet subnet
    EmptyString EmptyString 6443 EmptyString EmptyString EmptyString [] [] []
    [sampleNode "a" true; sampleNode "b" false; sampleNode "c" true] (mkImageSpec EmptyString).

Definition pxeCluster : Cluster := with_PXESetupDone ["a"; "c"] (sampleCluster false).

Lemma pxeSetup_once_witness :
  pxeSetup (K:=SampleK) (U:=SampleApp) sampleConfig (sampleCluster false) (sampleState sampleHealthy) =
    Some ((Ok tt, pxeCluster), mkSampleK [sampleManagement; sampleHealthy] (100 + 2 * Minute + 1)) ∧
  ∀ later, pxeSetup (K:=SampleK) (U:=SampleApp) sampleConfig pxeCluster later =
    Some ((Ok tt, pxeCluster), later).
Proof.
  assert (Hrun : pxeSetup (K:=SampleK) (U:=SampleApp) sampleConfig (sampleCluster false)
    (sampleState sampleHealthy) = Some ((Ok tt, pxeCluster),
      mkSampleK [sampleManagement; sampleHealthy] (100 + 2 * Minute + 1))) by (vm_compute; reflexivity).
  split; [exact Hrun|].
  apply (pxeSetup_once (K:=SampleK) (U:=SampleApp) sampleConfig (sampleCluster false) _ pxeCluster _ Hrun).
  - discriminate.
  - vm_compute. intros Hin. inversion Hin as [|? ? ? Hin']. inversion Hin' as [|? ? ? Hin'']. inversion Hin''.
Defined.

(** A node that has been restarted is forgotten when a later one fails: the next run restarts it. *)
Example failed_setup_forgets :
  let broken := {|
    UnmarshalTalosConfig := UnmarshalTalosConfig (K:=SampleK) (U:=SampleApp);
    TalosConfigValues := TalosConfigValues (K:=SampleK) (U:=SampleApp);
    UnmarshalJSON := UnmarshalJSON (K:=SampleK) (U:=SampleApp);
    UnmarshalKubeconfig := UnmarshalKubeconfig (K:=SampleK) (U:=SampleApp);
    ZstdCompress := ZstdCompress (K:=SampleK) (U:=SampleApp);
    ToLower := ToLower (K:=SampleK) (U:=SampleApp);
    ListTalosMachines := ListTalosMachines (K:=SampleK) (U:=SampleApp);
    RedfishConnect _ _ _ k := (if decide (100 < sk_now k) then Err (Errorf "no route to host") else Ok tt, k);
    RedfishSystems := RedfishSystems (K:=SampleK) (U:=SampleApp);
    RedfishBios := RedfishBios (K:=SampleK) (U:=SampleApp);
    UpdateBiosAttributes := UpdateBiosAttributes (K:=SampleK) (U:=SampleApp);
    SetBootPxeOnce := SetBootPxeOnce (K:=SampleK) (U:=SampleApp);
    RedfishReset := RedfishReset (K:=SampleK) (U:=SampleApp);
    CreateOrUpdateApplication := CreateOrUpdateApplication (K:=SampleK) (U:=SampleApp);
    CreateOrUpdateAppProject := CreateOrUpdateAppProject (K:=SampleK) (U:=SampleApp);
    DeleteApplication := DeleteApplication (K:=SampleK) (U:=SampleApp) |} in
  match pxeSetup (TC := broken) sampleConfig (sampleCluster false) (sampleState sampleHealthy) with
  | Some ((Err _, c), k) => PXESetupDone (Status c) = [] ∧ sk_now k = 100 + Minute
  | _ => False
  end.
Proof. vm_compute. done. Qed.

(** ** The health check *)

(** The clients where the API server of the cluster refuses connections. *)
Definition refused_connections : ClusterClient SampleK := {|
  GetSecret := GetSecret (K:=SampleK);
  CreateOrUpdateSecret := CreateOrUpdateSecret (K:=SampleK);
  SetControllerReference := SetControllerReference (K:=SampleK);
  ListClusters := ListClusters (K:=SampleK);
  GetLocalConfig := GetLocalConfig (K:=SampleK);
  ReadFile := ReadFile (K:=SampleK);
  ServerVersion _ k := (Err (Errorf "connection refused"), k);
  ListNodes := ListNodes (K:=SampleK);
  NewDynamicClient := NewDynamicClient (K:=SampleK);
  ListCephClusters := ListCephClusters (K:=SampleK);
  MarshalJSON := MarshalJSON (K:=SampleK);
  WriteKubeconfig := WriteKubeconfig (K:=SampleK) |}.

(** A cluster that stops answering is in error and not ready, and stays reachable. *)
Example unreachable_stays_reachable :
  (observed ← observeCluster (CC:=refused_connections) (U:=SampleApp) sampleReconciler (sampleCluster false)
     (sampleState sampleHealthy);
   deployed ← deployApplication sampleReconciler observed.1 observed.2;
   let '((cluster, _), _) := writeStatus sampleReconciler deployed.1 (o_Cluster deployed.1) None deployed.2 in
   Some (Phase (Status cluster), status_of ConditionTypeReady (Conditions (Status cluster)),
     status_of ConditionTypeReachable (Conditions (Status cluster)))) =
  Some ("Error", Some ConditionFalse, Some ConditionTrue).
Proof. vm_compute. reflexivity. Qed.

(** ** A Ready cluster *)

Lemma ready_cluster_deployed_witness :
  ∃ (o : Observed (U:=SampleApp)) k1 k2 cluster', status_of ConditionTypeReady (Conditions (Status cluster')) = Some ConditionTrue ∧
    answered (K:=SampleK) sampleReconciler (sampleCluster false) (sampleState sampleHealthy) (o_K8sVersion o) k1 ∧
    ∃ conn, Connection (Spec (sampleCluster false)) = Some conn ∧
      deployed (K:=SampleK) (U:=SampleApp) sampleReconciler (o_Cluster o) conn k1 k2.
Proof.
  destruct (observeCluster (K:=SampleK) (U:=SampleApp) sampleReconciler (sampleCluster false)
    (sampleState sampleHealthy)) as [[o1 k1]|] eqn:H1; [|vm_compute in H1; discriminate H1].
  destruct (deployApplication sampleReconciler o1 k1) as [[o k2]|] eqn:H2;
    [|vm_compute in H1; injection H1 as <- <-; vm_compute in H2; discriminate H2].
  destruct (writeStatus sampleReconciler o (o_Cluster o) None k2) as [[cluster' w] k3] eqn:H3.
  assert (Hready : status_of ConditionTypeReady (Conditions (Status cluster')) = Some ConditionTrue).
  { vm_compute in H1. injection H1 as <- <-. vm_compute in H2. injection H2 as <- <-.
    vm_compute in H3. injection H3 as <- _ _. vm_compute. reflexivity. }
  exists o, k1, k2, cluster'. split; [exact Hready|].
  destruct (ready_cluster_deployed sampleReconciler (sampleCluster false) (sampleState sampleHealthy) o1 k1 o k2
    cluster' w k3 H1 H2 H3 Hready) as (Hans & _ & _ & _ & Hdep).
  split; [exact Hans|exact Hdep].
Defined.

(** The whole reconciliation, where the talos-manager has no configuration: it is tried again in a
    minute. *)
Example sample_reconciled :
  fst <$> reconcileCluster (K:=SampleK) (U:=SampleApp) sampleReconciler (sampleCluster true)
    (sampleState sampleHealthy) = Some (mkResult Minute, None).
Proof. vm_compute. reflexivity. Qed.

(** * Samples of the finalizer

    A deleted cluster whose Applications are gone, reconciled through the recorded API server of
    [ClusterSyncTheorems] with clients that record no call of their own. *)

Definition SampleHistory : Type := list (Event SampleApp).

#[export] Instance history_connections : ClusterClient SampleHistory := {
  GetSecret _ _ h := (Ok sampleSecret, h);
  CreateOrUpdateSecret _ _ f h := match f emptySecret h with
    | Some (Ok _, h) => Some (Ok tt, h)
    | Some (Err err, h) => Some (Err err, h)
    | None => None
    end;
  SetControllerReference c _ := Ok (Some (cl_Name c));
  ListClusters _ h := (Ok [], h);
  GetLocalConfig _ := Err (Errorf "no local config");
  ReadFile name _ := Err (mkOpError KindNotFound name);
  ServerVersion _ h := (Ok "v1.31", h);
  ListNodes _ h := (Ok 3, h);
  NewDynamicClient _ := Ok tt;
  ListCephClusters _ h := (Ok [], h);
  MarshalJSON _ := Ok "{}";
  WriteKubeconfig _ := Ok "kubeconfig";
}.

#[export] Instance history_talos : TalosClient SampleHistory SampleApp := {
  UnmarshalTalosConfig _ text := Err (Errorf text);
  TalosConfigValues _ := Ok ∅;
  UnmarshalJSON _ := None;
  UnmarshalKubeconfig text := Err (Errorf text);
  ZstdCompress text := Ok text;
  ToLower text := text;
  ListTalosMachines _ h := (Ok [], h);
  RedfishConnect _ _ _ h := (Ok tt, h);
  RedfishSystems _ h := (Ok [mkRedfishSystem "1" DELL true], h);
  RedfishBios _ h := (Ok tt, h);
  UpdateBiosAttributes _ _ h := (Ok tt, h);
  SetBootPxeOnce _ h := (Ok tt, h);
  RedfishReset _ _ h := (Ok tt, h);
  CreateOrUpdateApplication _ _ f h := (match f emptyObject with Ok _ => Ok sampleHealthy | Err e => Err e end, h);
  CreateOrUpdateAppProject _ _ f h := (match f emptyObject with Ok _ => Ok tt | Err e => Err e end, h);
  DeleteApplication _ h := (Ok tt, h);
}.

#[export] Instance history_quiet : QuietClients history_connections history_talos.
Proof.
  split; intros; try apply appends_refl.
  cbn [CreateOrUpdateSecret history_connections]. specialize (H emptySecret h).
  by destruct (f emptySecret h) as [[[] ?]|].
Qed.

Definition goneReconciler : Reconciler :=
  mkReconciler "superphenix" "clusters" "https://charts" "superphenix-system" "1.0.0" Minute hour
    "https://charts" "1.0.0" false false "1.0.0" "1.0.0" "2.0.0".

Definition sampleDeletion : option ((Result * option OpError) * SampleHistory) :=
  Reconcile (OC := recorded goneServer) "1.0.0" "2.0.0" "superphenix" "clusters"
    (reconcileCluster (OC := recorded goneServer) goneReconciler) "superphenix" "paris" [].

Definition deletionCalls : SampleHistory := default [] (snd <$> sampleDeletion).

Lemma finalizer_removed_when_gone_witness :
  let before := removelast deletionCalls in
  deletionCalls = before ++ [UpdatedCluster (RemoveFinalizer deletedCluster FinalizerName) (Ok tt)] ∧
  ∃ cluster, cl_Deleting cluster = true ∧ gone (U:=SampleApp) "superphenix" "clusters" cluster before.
Proof.
  assert (Heq : deletionCalls = removelast deletionCalls ++
    [UpdatedCluster (RemoveFinalizer deletedCluster FinalizerName) (Ok tt)]) by (vm_compute; reflexivity).
  split; [exact Heq|].
  assert (Hrun : sampleDeletion = Some (mkResult 0, None, deletionCalls)) by (vm_compute; reflexivity).
  destruct (finalizer_removed_when_gone goneServer (QC:=history_quiet) goneReconciler "superphenix" "paris"
    _ _ _ _ _ _ Hrun Heq (RemoveFinalizer_removes _ _)) as (cluster & _ & Hdel & _ & Hgone & _).
  exists cluster. split; [exact Hdel|exact Hgone].
Defined.
