(* ===== verification/IP.v ===== *)
(** * IP addresses (Go's [net] and [net/netip])

    What the controller uses of the standard library: parsing and printing of addresses and of CIDR
    blocks, masks and membership. An [Addr] is its number, and its zone for IPv6; a [net.IP] or a
    mask is its list of 4 or 16 bytes, most significant first. A parser answers [None] where Go
    answers an error. *)

From Stdlib Require Import Ascii.
From Stdlib Require Import Ascii Btauto.
From S2P Require Import Prelude Strings Strconv.

(** ** Numbers in a base, most significant digit first *)

Definition fromBase (b : Z) (l : list Z) : Z := foldl (λ z d, z * b + d) 0 l.

Fixpoint toBase (b : Z) (n : nat) (z : Z) : list Z :=
  match n with
  | O => []
  | S n => toBase b n (z `div` b) ++ [z `mod` b]
  end.

(** ** [netip.Addr] *)

Inductive Addr :=
  | V4 (n : Z)
  | V6 (n : Z) (zone : string).

#[export] Instance Addr_eq_dec : EqDecision Addr.
Proof. solve_decision. Defined.

Definition BitLen (a : Addr) : nat := match a with V4 _ => 32 | V6 _ _ => 128 end.

Definition Zone (a : Addr) : string := match a with V4 _ => EmptyString | V6 _ zone => zone end.

(** The number of the mapped address [::ffff:0.0.0.0]. *)
Definition mapped : Z := 65535 * 2 ^ 32.

Definition Is4In6 (n : Z) : bool := bool_decide (n `div` 2 ^ 32 = 65535).

(** The number of the address as 16 bytes, and [As16]. *)
Definition number (a : Addr) : Z := match a with V4 n => mapped + n | V6 n _ => n end.
Definition As16 (a : Addr) : list Z := toBase 256 16 (number a).

(** [None] is the zero [Addr], which wraps around stand for. *)
Definition Next (a : Addr) : option Addr :=
  match a with
  | V4 n => if decide (n + 1 = 2 ^ 32) then None else Some (V4 (n + 1))
  | V6 n zone => if decide (n + 1 = 2 ^ 128) then None else Some (V6 (n + 1) zone)
  end.

Definition Prev (a : Addr) : option Addr :=
  match a with
  | V4 n => if decide (n = 0) then None else Some (V4 (n - 1))
  | V6 n zone => if decide (n = 0) then None else Some (V6 (n - 1) zone)
  end.

(** ** Printing *)

Definition dotted (n : Z) : string := join "." (FormatInt <$> toBase 256 4 n).

Definition hexDigit (d : Z) : ascii := ascii_of_N (Z.to_N (if decide (d < 10) then 48 + d else 87 + d)).

(** [appendHex]: without leading zeros. *)
Definition hex (x : Z) : string :=
  let lastDigit := String (hexDigit (x `mod` 16)) EmptyString in
  let third := String (hexDigit ((x `div` 16) `mod` 16)) lastDigit in
  let second := String (hexDigit ((x `div` 256) `mod` 16)) third in
  if decide (4096 ≤ x) then String (hexDigit (x `div` 4096)) second
  else if decide (256 ≤ x) then second
  else if decide (16 ≤ x) then third
  else lastDigit.

(** The number of zeros that the list starts with. *)
Fixpoint zeros (l : list Z) : nat :=
  match l with
  | x :: l => if decide (x = 0) then S (zeros l) else O
  | [] => O
  end.

(** The first of the longest runs of at least two zeros: where it starts and its length. The run
    that starts at [i], the position of [l], is compared with the best so far. *)
Fixpoint longestZeros (i : nat) (l : list Z) (best : option (nat * nat)) : option (nat * nat) :=
  match l with
  | [] => best
  | _ :: l' =>
    let run := zeros l in
    let longer := match best with Some (_, length) => bool_decide (length < run)%nat | None => true end in
    longestZeros (S i) l' (if bool_decide (2 ≤ run)%nat && longer then Some (i, run) else best)
  end.

(** [appendTo6], on the eight 16-bit groups. *)
Definition to6 (n : Z) : string :=
  let groups := toBase 65536 8 n in
  match longestZeros 0 groups None with
  | Some (start, length) =>
    join ":" (hex <$> take start groups) +:+ "::" +:+ join ":" (hex <$> drop (start + length) groups)
  | None => join ":" (hex <$> groups)
  end.

(** [%zone], when there is one. *)
Definition withZone (zone : string) : string :=
  if decide (zone = EmptyString) then EmptyString else "%" +:+ zone.

Definition AddrString (a : Addr) : string :=
  match a with
  | V4 n => dotted n
  | V6 n zone =>
    (if Is4In6 n then "::ffff:" +:+ dotted (n - mapped) else to6 n) +:+ withZone zone
  end.

(** ** Parsing *)

(** [parseIPv4Fields]: the fields so far, the value of the current one and its number of digits. *)
Fixpoint parseIPv4Fields (s : string) (fields : list Z) (val : Z) (digLen : nat) : option (list Z) :=
  match s with
  | EmptyString => if decide (length fields < 3)%nat then None else Some (fields ++ [val])
  | String c s =>
    match digit c with
    | Some d =>
      if decide (digLen = 1%nat ∧ val = 0) then None
      else let val := val * 10 + Z.of_N d in
        if decide (255 < val) then None else parseIPv4Fields s fields val (S digLen)
    | None =>
      if decide (c = "."%char) then
        if decide (digLen = O ∨ s = EmptyString) then None
        else if decide (length fields = 3)%nat then None
        else parseIPv4Fields s (fields ++ [val]) 0 O
      else None
    end
  end.

Definition parseIPv4 (s : string) : option Addr :=
  fields ← parseIPv4Fields s [] 0 O;
  Some (V4 (fromBase 256 fields)).

Definition hexValue (c : ascii) : option Z :=
  let n := Z.of_N (N_of_ascii c) in
  if decide (48 ≤ n ≤ 57) then Some (n - 48)
  else if decide (97 ≤ n ≤ 102) then Some (n - 87)
  else if decide (65 ≤ n ≤ 70) then Some (n - 55)
  else None.

(** The hexadecimal digits that the text starts with, at most four: their number, their value and
    the rest. *)
Fixpoint hexRun (s : string) (off : nat) (acc : Z) : option (nat * Z * string) :=
  match s with
  | EmptyString => Some (off, acc, s)
  | String c rest =>
    match hexValue c with
    | Some d => if decide (3 < off)%nat then None else hexRun rest (S off) (acc * 16 + d)
    | None => Some (off, acc, s)
    end
  end.

(** The loop of [parseIPv6], with room for [n] more groups: the bytes so far, the position of the
    ellipsis, and the text that is left at the end. *)
Fixpoint parseGroups (n : nat) (ip : list Z) (ellipsis : option nat) (s : string) :
    option (list Z * option nat * string) :=
  match n with
  | O => Some (ip, ellipsis, s)
  | S n =>
    match hexRun s O 0 with
    | None => None
    | Some (off, acc, rest) =>
      if decide (off = O) then None else
      let ip' := ip ++ [acc `div` 256; acc `mod` 256] in
      match rest with
      | EmptyString => Some (ip', ellipsis, EmptyString)
      | String c rest =>
        if decide (c = "."%char) then
          if decide (ellipsis = None ∧ length ip ≠ 12%nat) then None
          else if decide (16 < length ip + 4)%nat then None
          else fields ← parseIPv4Fields s [] 0 O; Some (ip ++ fields, ellipsis, EmptyString)
        else if decide (c ≠ ":"%char ∨ rest = EmptyString) then None
        else match cutPrefix ":" rest with
          | Some rest =>
            if decide (is_Some ellipsis) then None
            else if decide (rest = EmptyString) then Some (ip', Some (length ip'), EmptyString)
            else parseGroups n ip' (Some (length ip')) rest
          | None => parseGroups n ip' ellipsis rest
          end
      end
    end
  end.

(** The end of [parseIPv6]: the ellipsis is expanded. *)
Definition expand (parsed : list Z * option nat * string) : option (list Z) :=
  let '(ip, ellipsis, s) := parsed in
  if decide (s ≠ EmptyString) then None
  else if decide (length ip < 16)%nat then
    match ellipsis with
    | None => None
    | Some e => Some (take e ip ++ replicate (16 - length ip) 0 ++ drop e ip)
    end
  else match ellipsis with Some _ => None | None => Some ip end.

(** The number of an address without zone. *)
Definition parseNumber6 (s : string) : option Z :=
  let start := match cutPrefix "::" s with Some rest => (Some O, rest) | None => (None, s) end in
  if decide (start = (Some O, EmptyString)) then Some 0
  else ip ← parseGroups 8 [] start.1 start.2 ≫= expand; Some (fromBase 256 ip).

Definition parseIPv6 (text : string) : option Addr :=
  let '(s, zone, found) := Cut text "%" in
  if found && bool_decide (zone = EmptyString) then None
  else n ← parseNumber6 s; Some (V6 n zone).

(** The first of the characters that tell the versions apart. *)
Fixpoint family (s : string) : option ascii :=
  match s with
  | EmptyString => None
  | String c s => if decide (c = "."%char ∨ c = ":"%char ∨ c = "%"%char) then Some c else family s
  end.

Definition ParseAddr (s : string) : option Addr :=
  match family s with
  | Some c => if decide (c = "."%char) then parseIPv4 s else if decide (c = ":"%char) then parseIPv6 s else None
  | None => None
  end.

(** [netip.ParsePrefix] *)
Record Prefix := mkPrefix { PrefixAddr : Addr; Bits : Z }.

(** What precedes and follows the last occurrence. *)
Fixpoint cutLast (s : string) (sep : ascii) : option (string * string) :=
  match s with
  | EmptyString => None
  | String c s' =>
    match cutLast s' sep with
    | Some (before, after) => Some (String c before, after)
    | None => if decide (c = sep) then Some (EmptyString, s') else None
    end
  end.

Definition startsWithNonzero (s : string) : bool :=
  match s with
  | String c _ => match digit c with Some d => bool_decide (d ≠ 0)%N | None => false end
  | EmptyString => false
  end.

Definition ParsePrefix (s : string) : option Prefix :=
  match cutLast s "/" with
  | None => None
  | Some (addr, bitsStr) =>
    ip ← ParseAddr addr;
    if decide (Zone ip ≠ EmptyString) then None
    else if bool_decide (1 < String.length bitsStr)%nat && negb (startsWithNonzero bitsStr) then None
    else bits ← ParseInt bitsStr;
      if decide (bits < 0 ∨ Z.of_nat (BitLen ip) < bits) then None else Some (mkPrefix ip bits)
  end.

Definition PrefixString (p : Prefix) : string := AddrString (PrefixAddr p) +:+ "/" +:+ FormatInt (Bits p).

(** ** [net.IP], [net.IPMask], [net.IPNet] *)

Definition ParseIP (s : string) : option (list Z) :=
  ip ← ParseAddr s;
  if decide (Zone ip ≠ EmptyString) then None else Some (As16 ip).

Definition To4 (ip : list Z) : option (list Z) :=
  if decide (length ip = 4%nat) then Some ip
  else if decide (length ip = 16%nat ∧ take 12 ip = replicate 10 0 ++ [255; 255]) then Some (drop 12 ip)
  else None.

Definition IPString (ip : list Z) : string :=
  match To4 ip with
  | Some p4 => AddrString (V4 (fromBase 256 p4))
  | None => AddrString (V6 (fromBase 256 ip) EmptyString)
  end.

(** The [l] bytes of a mask of [n] ones. *)
Fixpoint maskBytes (l : nat) (n : Z) : list Z :=
  match l with
  | O => []
  | S l => if decide (8 ≤ n) then 255 :: maskBytes l (n - 8) else (255 - Z.shiftr 255 n) :: maskBytes l 0
  end.

(** [CIDRMask], for lengths of 32 and 128 bits and a number of ones in range. *)
Definition CIDRMask (ones : Z) (bits : nat) : list Z := maskBytes (bits / 8) ones.

(** The ones that a byte starts with, when only zeros follow them. *)
Definition byteOnes (v : Z) : option Z :=
  (λ n, Z.of_nat n) <$> find (λ n, bool_decide (255 - Z.shiftr 255 (Z.of_nat n) = v)) (seq 0 8).

(** [simpleMaskLength], [None] for -1. *)
Fixpoint simpleMaskLength (mask : list Z) : option Z :=
  match mask with
  | [] => Some 0
  | v :: mask =>
    if decide (v = 255) then Z.add 8 <$> simpleMaskLength mask
    else n ← byteOnes v; if decide (Forall (λ b, b = 0) mask) then Some n else None
  end.

(** [IPMask.Size]: the ones and the bits. *)
Definition MaskSize (mask : list Z) : Z * Z :=
  match simpleMaskLength mask with
  | Some ones => (ones, 8 * Z.of_nat (length mask))
  | None => (0, 0)
  end.

(** [bytes.Compare] *)
Fixpoint bytesCompare (l1 l2 : list Z) : comparison :=
  match l1, l2 with
  | [], [] => Eq
  | [], _ => Lt
  | _, [] => Gt
  | x :: l1, y :: l2 => match x ?= y with Eq => bytesCompare l1 l2 | c => c end
  end.

Record IPNet := mkIPNet { net_IP : list Z; net_Mask : list Z }.

(** [IP.Mask], for an address of as many bytes as the mask, or a mapped address and a mask of 4. *)
Definition IPMask (ip mask : list Z) : list Z :=
  zip_with Z.land
    (if decide (length mask = 4%nat ∧ length ip = 16%nat ∧ take 12 ip = replicate 10 0 ++ [255; 255])
     then drop 12 ip else ip) mask.

(** [dtoi]: the decimal number that the whole text is. *)
Definition dtoi (s : string) : option Z :=
  if decide (s = EmptyString) then None else
  match digits 0 s with
  | (n, EmptyString) => if decide (16777215 ≤ n)%N then None else Some (Z.of_N n)
  | _ => None
  end.

Definition ParseCIDR (s : string) : option (list Z * IPNet) :=
  let '(addr, mask, found) := Cut s "/" in
  if negb found then None else
  ip ← ParseAddr addr;
  if decide (Zone ip ≠ EmptyString) then None else
  n ← dtoi mask;
  if decide (Z.of_nat (BitLen ip) < n) then None else
  let m := CIDRMask n (BitLen ip) in
  Some (As16 ip, mkIPNet (IPMask (As16 ip) m) m).

(** [networkNumberAndMask] *)
Definition networkNumberAndMask (n : IPNet) : option (list Z * list Z) :=
  match To4 (net_IP n) with
  | Some ip =>
    if decide (length (net_Mask n) = 4%nat) then Some (ip, net_Mask n)
    else if decide (length (net_Mask n) = 16%nat) then Some (ip, drop 12 (net_Mask n))
    else None
  | None =>
    if decide (length (net_IP n) = 16%nat ∧ length (net_Mask n) = 16%nat) then Some (net_IP n, net_Mask n)
    else None
  end.

Definition NetContains (n : IPNet) (ip : list Z) : bool :=
  match networkNumberAndMask n with
  | None => false
  | Some (nn, m) =>
    let ip := default ip (To4 ip) in
    bool_decide (length ip = length nn ∧ zip_with Z.land nn m = zip_with Z.land ip m)
  end.

(** [IPNet.String], for a mask of ones followed by zeros. *)
Definition NetString (n : IPNet) : string :=
  match networkNumberAndMask n with
  | None => "<nil>"
  | Some (nn, m) =>
    match simpleMaskLength m with
    | Some l => IPString nn +:+ "/" +:+ FormatInt l
    | None => "<nil>"
    end
  end.

(** ** Vectors *)

Example addr_vectors :
  (λ s, AddrString <$> ParseAddr s) <$>
    ["10.0.0.1"; "1.2.3"; "1.2.3.04"; "1.2.3.256"; "::"; "::1"; "FC00::00aB"; "1:0:0:2:0:0:0:3"; "1::2::3";
     "::ffff:1.2.3.4"; "1:2:3:4:5:6:7.8.9.10"; "1:2:3:4:5:6:7:8"; "1:2:3:4:5:6:7::"; "1:2:3:4:5:6:7:8::";
     "fe80::1%eth0"; "12345::"; "1:"; "1:2:3:4:5:6:0:0"] =
  [Some "10.0.0.1"; None; None; None; Some "::"; Some "::1"; Some "fc00::ab"; Some "1:0:0:2::3"; None;
   Some "::ffff:1.2.3.4"; Some "1:2:3:4:5:6:708:90a"; Some "1:2:3:4:5:6:7:8"; Some "1:2:3:4:5:6:7:0"; None;
   Some "fe80::1%eth0"; None; None; Some "1:2:3:4:5:6::"].
Proof. vm_compute. reflexivity. Qed.

Example cidr_vectors :
  (λ s, (λ '(ip, n), (IPString ip, NetString n, MaskSize (net_Mask n))) <$> ParseCIDR s) <$>
    ["10.1.2.3/8"; "fc00::1234/7"; "10.0.0.0/33"; "10.0.0.0"; "10.0.0.0/"; "::ffff:10.1.0.0/104"; "::/0"] =
  [Some ("10.1.2.3", "10.0.0.0/8", (8, 32)); Some ("fc00::1234", "fc00::/7", (7, 128)); None; None; None;
   Some ("10.1.0.0", "10.0.0.0/8", (104, 128)); Some ("::", "::/0", (0, 128))].
Proof. vm_compute. reflexivity. Qed.

(** * Laws of the addresses

    Numbers in a base, masks as powers of two, and the round trips between addresses and texts. *)

(** ** Numbers in a base *)

Section base.
Context (b : Z).
Implicit Types (l : list Z) (z d : Z).

Definition digits_of (l : list Z) : Prop := Forall (λ d, 0 ≤ d < b) l.

Lemma digits_snoc l d : digits_of (l ++ [d]) ↔ digits_of l ∧ 0 ≤ d < b.
Proof. unfold digits_of. rewrite Forall_app, Forall_singleton. done. Qed.

Lemma fromBase_snoc l d : fromBase b (l ++ [d]) = fromBase b l * b + d.
Proof. unfold fromBase. by rewrite foldl_app. Qed.

Lemma fromBase_app l1 l2 : fromBase b (l1 ++ l2) = fromBase b l1 * b ^ Z.of_nat (length l2) + fromBase b l2.
Proof.
  induction l2 as [|d l2 IH] using rev_ind; [rewrite app_nil_r; cbn; lia|].
  rewrite app_assoc, !fromBase_snoc, IH, length_app, Nat2Z.inj_add, Z.pow_add_r by lia. cbn. lia.
Qed.

Lemma toBase_length n z : length (toBase b n z) = n.
Proof. revert z. induction n as [|n IH]; intros z; cbn; [done|]. rewrite length_app, IH. cbn. lia. Qed.

Lemma fromBase_replicate n : fromBase b (replicate n 0) = 0.
Proof.
  induction n as [|n IH]; [done|]. rewrite replicate_S_end, fromBase_snoc, IH. lia.
Qed.

Context (Hb : 0 < b).

Lemma toBase_digits n z : digits_of (toBase b n z).
Proof.
  revert z. induction n as [|n IH]; intros z; cbn; [constructor|]. apply digits_snoc. split; [apply IH|].
  by apply Z.mod_pos_bound.
Qed.

Lemma fromBase_toBase n z : fromBase b (toBase b n z) = z `mod` b ^ Z.of_nat n.
Proof.
  revert z. induction n as [|n IH]; intros z; cbn [toBase]; [by rewrite Z.mod_1_r|].
  rewrite fromBase_snoc, IH, Nat2Z.inj_succ, Z.pow_succ_r, Z.rem_mul_r by lia. lia.
Qed.

Lemma toBase_fromBase l : digits_of l → toBase b (length l) (fromBase b l) = l.
Proof.
  induction l as [|d l IH] using rev_ind; intros Hl; [done|].
  apply digits_snoc in Hl as [Hl Hd].
  rewrite length_app, Nat.add_1_r, fromBase_snoc. cbn [toBase].
  rewrite Z.div_add_l, (Z.div_small d), Z.add_0_r, IH by (done || lia).
  by rewrite Z.add_comm, Z.mod_add, Z.mod_small by lia.
Qed.

Lemma fromBase_bound l : digits_of l → 0 ≤ fromBase b l < b ^ Z.of_nat (length l).
Proof.
  induction l as [|d l IH] using rev_ind; intros Hl; [cbn; lia|].
  apply digits_snoc in Hl as [Hl%IH Hd].
  rewrite length_app, Nat.add_1_r, fromBase_snoc, Nat2Z.inj_succ, Z.pow_succ_r by lia. nia.
Qed.

Lemma fromBase_inj l1 l2 :
  digits_of l1 → digits_of l2 → length l1 = length l2 → fromBase b l1 = fromBase b l2 → l1 = l2.
Proof.
  intros H1 H2 Hlen Heq. rewrite <-(toBase_fromBase l1), <-(toBase_fromBase l2) by done. by rewrite Hlen, Heq.
Qed.

Lemma toBase_app n m z : toBase b (n + m) z = toBase b n (z `div` b ^ Z.of_nat m) ++ toBase b m z.
Proof.
  revert z. induction m as [|m IH]; intros z; cbn [toBase].
  - by rewrite Nat.add_0_r, app_nil_r, Z.div_1_r.
  - rewrite Nat.add_succ_r. cbn [toBase]. rewrite IH, app_assoc. do 2 f_equal.
    by rewrite Nat2Z.inj_succ, Z.pow_succ_r, Z.div_div by lia.
Qed.

Lemma toBase_mod n z : toBase b n (z `mod` b ^ Z.of_nat n) = toBase b n z.
Proof.
  apply fromBase_inj; [apply toBase_digits..|by rewrite !toBase_length|].
  by rewrite !fromBase_toBase, Z.mod_mod by lia.
Qed.
End base.

Abbreviation bytes_of := (digits_of 256).

(** Bitwise conjunction, byte by byte. *)
Lemma land_concat x y c d :
  0 ≤ c < 256 → 0 ≤ d < 256 → Z.land (x * 256 + c) (y * 256 + d) = Z.land x y * 256 + Z.land c d.
Proof.
  intros Hc Hd. set (u := x * 256 + c). set (v := y * 256 + d).
  assert (Hhigh : Z.land u v `div` 256 = Z.land x y).
  { change 256 with (2 ^ 8). rewrite <-Z.shiftr_div_pow2, Z.shiftr_land, !Z.shiftr_div_pow2 by lia.
    subst u v. change (2 ^ 8) with 256. rewrite !Z.div_add_l, !Z.div_small, !Z.add_0_r by lia. done. }
  assert (Hlow : Z.land u v `mod` 256 = Z.land c d).
  { change 256 with (2 ^ 8). rewrite <-Z.land_ones by lia.
    assert (Hm : ∀ z w, Z.land (Z.land z w) (Z.ones 8) = Z.land (Z.land z (Z.ones 8)) (Z.land w (Z.ones 8))).
    { intros z w. apply Z.bits_inj'. intros n Hn. rewrite !Z.land_spec. btauto. }
    rewrite Hm, !Z.land_ones by lia. subst u v. change (2 ^ 8) with 256.
    rewrite !(Z.add_comm (_ * 256)), !Z.mod_add, !Z.mod_small by lia. done. }
  rewrite (Z.div_mod (Z.land u v) 256), Hhigh, Hlow by lia. lia.
Qed.

Lemma land_byte c d : 0 ≤ c < 256 → 0 ≤ d < 256 → 0 ≤ Z.land c d < 256.
Proof.
  intros Hc Hd. split; [apply Z.land_nonneg; lia|]. destruct (decide (Z.land c d = 0)); [lia|].
  assert (H0 : 0 < Z.land c d) by (pose proof (proj2 (Z.land_nonneg c d)); lia).
  destruct (decide (c = 0)) as [->|]; [by rewrite Z.land_0_l|].
  change 256 with (2 ^ 8). apply Z.log2_lt_pow2; [done|].
  eapply Z.le_lt_trans; [apply Z.log2_land; lia|]. eapply Z.le_lt_trans; [apply Z.le_min_l|].
  apply Z.log2_lt_pow2; lia.
Qed.

Lemma zip_land_bytes l1 l2 : bytes_of l1 → bytes_of l2 → bytes_of (zip_with Z.land l1 l2).
Proof.
  intros H1. revert l2. induction H1 as [|c l1 Hc H1 IH]; intros l2 H2; [constructor|].
  destruct H2 as [|d l2 Hd H2]; constructor; [by apply land_byte|by apply IH].
Qed.

Lemma fromBase_land l1 l2 : bytes_of l1 → bytes_of l2 → length l1 = length l2 →
  fromBase 256 (zip_with Z.land l1 l2) = Z.land (fromBase 256 l1) (fromBase 256 l2).
Proof.
  revert l2. induction l1 as [|c l1 IH] using rev_ind; intros l2 H1 H2 Hlen.
  { destruct l2; [done|discriminate Hlen]. }
  destruct l2 as [|d l2 _] using rev_ind; [rewrite length_app in Hlen; cbn in Hlen; lia|].
  rewrite !length_app in Hlen. cbn in Hlen.
  apply digits_snoc in H1 as [H1 Hc]. apply digits_snoc in H2 as [H2 Hd].
  rewrite zip_with_app by lia. cbn [zip_with]. rewrite !fromBase_snoc, land_concat, IH by (done || lia). done.
Qed.

(** ** Masks *)

(** The mask of [n] ones out of [8 * l] bits, as a number. *)
Definition maskNumber (l : nat) (n : Z) : Z := 2 ^ (8 * Z.of_nat l) - 2 ^ (8 * Z.of_nat l - n).

(** Both are checked on the masks that exist: those of 32 and 128 bits. *)
Definition checkMask (l : nat) (n : Z) : bool :=
  let m := maskBytes l n in
  bool_decide (length m = l ∧ fromBase 256 m = maskNumber l n ∧ simpleMaskLength m = Some n ∧
    Forall (λ d, 0 ≤ d < 256) m).

Definition checkMasks (l : nat) : bool := forallb (checkMask l) (seqZ 0 (8 * Z.of_nat l + 1)).

Lemma maskBytes_spec l n : (l = 4 ∨ l = 16)%nat → 0 ≤ n ≤ 8 * Z.of_nat l →
  length (maskBytes l n) = l ∧ fromBase 256 (maskBytes l n) = maskNumber l n ∧
  simpleMaskLength (maskBytes l n) = Some n ∧ bytes_of (maskBytes l n).
Proof.
  intros Hl Hn. assert (Hall : checkMasks l = true) by (destruct Hl as [->| ->]; vm_compute; reflexivity).
  unfold checkMasks in Hall. rewrite forallb_forall in Hall.
  specialize (Hall n). apply (bool_decide_eq_true_1 _) in Hall; [done|].
  apply list_elem_of_In, elem_of_seqZ. lia.
Qed.

Lemma bytesCompare_spec l1 l2 : bytes_of l1 → bytes_of l2 → length l1 = length l2 →
  bytesCompare l1 l2 = (fromBase 256 l1 ?= fromBase 256 l2).
Proof.
  intros H1. revert l2. induction H1 as [|x l1 Hx H1 IH]; intros l2 H2 Hlen.
  { destruct l2; [done|discriminate Hlen]. }
  destruct H2 as [|y l2 Hy H2]; [discriminate Hlen|]. injection Hlen as Hlen. cbn [bytesCompare].
  change (x :: l1) with ([x] ++ l1). change (y :: l2) with ([y] ++ l2).
  rewrite !fromBase_app, Hlen. change (fromBase 256 [x]) with x. change (fromBase 256 [y]) with y.
  pose proof (fromBase_bound 256 ltac:(lia) l1 H1) as B1. rewrite Hlen in B1.
  pose proof (fromBase_bound 256 ltac:(lia) l2 H2) as B2.
  set (w := 256 ^ Z.of_nat (length l2)) in *. symmetry.
  destruct (Z.compare_spec x y) as [->|Hlt|Hgt].
  - rewrite (IH l2 H2 Hlen). destruct (Z.compare_spec (fromBase 256 l1) (fromBase 256 l2));
      [apply Z.compare_eq_iff|apply Z.compare_lt_iff|apply Z.compare_gt_iff]; lia.
  - apply Z.compare_lt_iff. nia.
  - apply Z.compare_gt_iff. nia.
Qed.

Lemma maskNumber_le l n m : 0 ≤ n ≤ 8 * Z.of_nat l → 0 ≤ m ≤ 8 * Z.of_nat l →
  maskNumber l n ≤ maskNumber l m ↔ n ≤ m.
Proof.
  intros Hn Hm. unfold maskNumber. set (w := 8 * Z.of_nat l) in *.
  pose proof (Z.pow_le_mono_r_iff 2 (w - m) (w - n)) as Hiff. split; intros H; [|apply Z.sub_le_mono_l, Hiff; lia].
  assert (w - m ≤ w - n) by (apply Hiff; lia). lia.
Qed.

(** A mask keeps the high bits. *)
Lemma land_maskNumber l n z : 0 ≤ n ≤ 8 * Z.of_nat l → 0 ≤ z < 2 ^ (8 * Z.of_nat l) →
  let s := 2 ^ (8 * Z.of_nat l - n) in Z.land z (maskNumber l n) = z `div` s * s.
Proof.
  intros Hn Hz s. set (w := 8 * Z.of_nat l) in *. subst s. unfold maskNumber. fold w.
  rewrite <-Z.shiftr_div_pow2, <-Z.shiftl_mul_pow2 by lia.
  assert (Hm : 2 ^ w - 2 ^ (w - n) = Z.shiftl (Z.ones n) (w - n)).
  { rewrite Z.shiftl_mul_pow2, Z.ones_equiv by lia. replace w with (n + (w - n)) at 1 by lia.
    rewrite Z.pow_add_r by lia. nia. }
  rewrite Hm. apply Z.bits_inj'. intros i Hi. rewrite Z.land_spec.
  destruct (decide (i < w - n)) as [Hlt|Hge].
  - rewrite !Z.shiftl_spec_low by lia. by rewrite andb_false_r.
  - rewrite !Z.shiftl_spec_high, Z.shiftr_spec by lia. rewrite Z.sub_add.
    destruct (decide (i - (w - n) < n)).
    + by rewrite Z.ones_spec_low, andb_true_r by lia.
    + rewrite Z.ones_spec_high, andb_false_r by lia. symmetry.
      destruct (decide (z = 0)) as [->|]; [apply Z.bits_0|].
      apply Z.bits_above_log2; [lia|]. eapply Z.lt_le_trans; [|apply (proj1 (Z.nlt_ge i w)); lia].
      apply Z.log2_lt_pow2; lia.
Qed.
