(* ===== verification/IPText.v ===== *)
(** * Addresses and their texts

    Printing an address and parsing the text gives the address back, whatever its version, its runs
    of zeros and its zone; and what is parsed is in range. *)

From Stdlib Require Import Ascii.
From S2P Require Import Prelude Strings Strconv IP.
(** An address in range. *)
Definition valid (a : Addr) : Prop :=
  match a with V4 n => 0 ≤ n < 2 ^ 32 | V6 n _ => 0 ≤ n < 2 ^ 128 end.

(** ** Dotted decimal *)

(** A field is read up to the character that follows it. *)
Definition fieldRead (d : Z) : Prop := ∀ rest fields, ∃ k,
  parseIPv4Fields (FormatInt d +:+ rest) fields 0 O = parseIPv4Fields rest fields d (S k).

Ltac read_field := intros rest fields; eexists; cbv -[parseIPv4Fields]; cbn; reflexivity.

Lemma read_fields : Forall fieldRead (seqZ 0 256).
Proof.
  let l := eval vm_compute in (seqZ 0 256) in change (Forall fieldRead l).
  repeat (constructor; [read_field|]). constructor.
Qed.

Lemma field_spec d : 0 ≤ d < 256 → fieldRead d.
Proof.
  intros Hd. pose proof read_fields as H. rewrite Forall_forall in H. apply H, elem_of_seqZ. lia.
Qed.

Lemma fields_dot d fields k rest : (length fields < 3)%nat → rest ≠ EmptyString →
  parseIPv4Fields ("." +:+ rest) fields d (S k) = parseIPv4Fields rest (fields ++ [d]) 0 O.
Proof.
  intros Hlen Hrest. change ("." +:+ rest) with (String "." rest). cbn [parseIPv4Fields].
  change (digit ".") with (@None N). cbn match. rewrite decide_True by done.
  rewrite decide_False by (intros [?|?]; done). by rewrite decide_False by lia.
Qed.

Lemma FormatInt_not_empty z : FormatInt z ≠ EmptyString.
Proof.
  destruct z as [|p|p]; [done| |done]. unfold FormatInt. change (pretty (Z.pos p)) with (pretty (N.pos p)).
  destruct (pretty_N_first (N.pos p)) as (c & s & -> & _). done.
Qed.

Lemma app_not_empty s t : s ≠ EmptyString → s +:+ t ≠ EmptyString.
Proof. by destruct s. Qed.

Lemma parseIPv4Fields_dotted n : parseIPv4Fields (dotted n) [] 0 O = Some (toBase 256 4 n).
Proof.
  pose proof (toBase_digits 256 ltac:(lia) 4 n) as Hd. pose proof (toBase_length 256 4 n) as Hl.
  unfold dotted. destruct (toBase 256 4 n) as [|a [|b [|c [|d [|? ?]]]]]; try discriminate Hl.
  unfold digits_of in Hd. rewrite !Forall_cons in Hd. destruct Hd as (Ha & Hb & Hc & Hd & _).
  cbn [fmap list_fmap join].
  edestruct (field_spec a Ha) as [k ->]. rewrite fields_dot by (cbn; lia || by apply app_not_empty, FormatInt_not_empty).
  edestruct (field_spec b Hb) as [k' ->]. rewrite fields_dot by (cbn; lia || by apply app_not_empty, FormatInt_not_empty).
  edestruct (field_spec c Hc) as [k'' ->]. rewrite fields_dot by (cbn; lia || by apply FormatInt_not_empty).
  rewrite <-(app_empty (FormatInt d)). edestruct (field_spec d Hd) as [k3 ->]. done.
Qed.

(** ** Hexadecimal groups *)

Lemma hexValue_digit d : 0 ≤ d < 16 → hexValue (hexDigit d) = Some d.
Proof.
  intros Hd. assert (Hall : Forall (λ d, hexValue (hexDigit d) = Some d) (seqZ 0 16))
    by (let l := eval vm_compute in (seqZ 0 16) in change (seqZ 0 16) with l; repeat constructor).
  rewrite Forall_forall in Hall. apply Hall, elem_of_seqZ. lia.
Qed.

(** The text does not continue a group. *)
Definition ends_group (s : string) : Prop :=
  match s with String c _ => hexValue c = None | EmptyString => True end.

Lemma hexRun_digit d s off acc : 0 ≤ d < 16 → (off ≤ 3)%nat →
  hexRun (String (hexDigit d) s) off acc = hexRun s (S off) (acc * 16 + d).
Proof. intros Hd Hoff. cbn [hexRun]. rewrite hexValue_digit by done. by rewrite decide_False by lia. Qed.

Lemma hexRun_end s off acc : ends_group s → hexRun s off acc = Some (off, acc, s).
Proof. destruct s as [|c s]; cbn; [done|]. by intros ->. Qed.

Lemma hexRun_hex x s : 0 ≤ x < 65536 → ends_group s →
  ∃ k, hexRun (hex x +:+ s) O 0 = Some (S k, x, s).
Proof.
  intros Hx Hs. unfold hex. repeat case_decide; rewrite !string_app_cons;
    change (EmptyString +:+ s) with s;
    repeat rewrite hexRun_digit by (lia || (Z.to_euclidean_division_equations; lia));
    rewrite hexRun_end by done; eexists; do 3 f_equal; Z.to_euclidean_division_equations; lia.
Qed.

Fixpoint group_bytes (gs : list Z) : list Z :=
  match gs with
  | [] => []
  | g :: gs => g `div` 256 :: g `mod` 256 :: group_bytes gs
  end.

Abbreviation groups_of := (digits_of 65536).

Lemma group_bytes_length gs : length (group_bytes gs) = (2 * length gs)%nat.
Proof. induction gs as [|g gs IH]; [done|]. cbn [group_bytes length]. lia. Qed.

Lemma hexDigit_plain d : 0 ≤ d < 16 → hexDigit d ≠ ":"%char ∧ hexDigit d ≠ "."%char ∧ hexDigit d ≠ "%"%char.
Proof.
  intros Hd. assert (Hv : is_Some (hexValue (hexDigit d))) by (by rewrite hexValue_digit).
  split_and!; intros Heq; rewrite Heq in Hv; by destruct Hv.
Qed.

(** A text that starts with a group. *)
Definition starts_group (s : string) : Prop :=
  match s with String c _ => is_Some (hexValue c) | EmptyString => False end.

Lemma starts_group_spec s : starts_group s → s ≠ EmptyString ∧ cutPrefix ":" s = None ∧ cutPrefix "::" s = None.
Proof.
  destruct s as [|c s]; [done|]. intros Hc. assert (c ≠ ":"%char) by (intros ->; by destruct Hc).
  cbn [cutPrefix]. by rewrite !decide_False by done.
Qed.

Lemma hex_starts x s : 0 ≤ x < 65536 → starts_group (hex x +:+ s).
Proof.
  intros Hx. unfold hex. repeat case_decide; rewrite string_app_cons; cbn [starts_group];
    rewrite hexValue_digit; (done || (Z.to_euclidean_division_equations; lia)).
Qed.

Lemma starts_group_app s t : starts_group s → starts_group (s +:+ t).
Proof. destruct s as [|c s]; [done|]. by rewrite string_app_cons. Qed.

Lemma join_cons (sep s : string) l : l ≠ [] → join sep (s :: l) = s +:+ sep +:+ join sep l.
Proof. by destruct l. Qed.

Lemma join_starts gs : groups_of gs → gs ≠ [] → starts_group (join ":" (hex <$> gs)).
Proof.
  intros [|g gs' Hg Hgs'] Hne; [done|]. destruct gs' as [|g' gs'].
  - cbn. rewrite <-(app_empty (hex g)). by apply hex_starts.
  - rewrite fmap_cons, join_cons by done. by apply hex_starts.
Qed.

Section step.
Context (n : nat) (ip : list Z) (g : Z) (Hg : 0 ≤ g < 65536).

Lemma parseGroups_end ellipsis :
  parseGroups (S n) ip ellipsis (hex g) = Some (ip ++ group_bytes [g], ellipsis, EmptyString).
Proof.
  cbn [parseGroups]. rewrite <-(app_empty (hex g)). destruct (hexRun_hex g EmptyString Hg I) as [k ->]. done.
Qed.

Lemma parseGroups_step ellipsis s : starts_group s →
  parseGroups (S n) ip ellipsis (hex g +:+ ":" +:+ s) = parseGroups n (ip ++ group_bytes [g]) ellipsis s.
Proof.
  intros Hs. apply starts_group_spec in Hs as (Hne & Hcut & _). cbn [parseGroups].
  change (":" +:+ s) with (String ":" s). destruct (hexRun_hex g (String ":" s) Hg eq_refl) as [k ->].
  cbv zeta. rewrite decide_False, (decide_False (P := ":"%char = "."%char)), decide_False by naive_solver.
  by rewrite Hcut.
Qed.

Lemma parseGroups_ellipsis s :
  let ip' := ip ++ group_bytes [g] in
  parseGroups (S n) ip None (hex g +:+ "::" +:+ s) =
    if decide (s = EmptyString) then Some (ip', Some (length ip'), EmptyString)
    else parseGroups n ip' (Some (length ip')) s.
Proof.
  intros ip'. cbn [parseGroups]. change ("::" +:+ s) with (String ":" (String ":" s)).
  destruct (hexRun_hex g (String ":" (String ":" s)) Hg eq_refl) as [k ->].
  cbv zeta. rewrite decide_False, (decide_False (P := ":"%char = "."%char)), decide_False by naive_solver.
  cbn [cutPrefix]. rewrite decide_True by done. by rewrite decide_False by (by intros []).
Qed.
End step.

Lemma group_bytes_cons g gs : group_bytes (g :: gs) = group_bytes [g] ++ group_bytes gs.
Proof. done. Qed.

(** The loop on groups that end the text. *)
Lemma parseGroups_last n gs ip ellipsis : groups_of gs → gs ≠ [] → (length gs ≤ n)%nat →
  parseGroups n ip ellipsis (join ":" (hex <$> gs)) = Some (ip ++ group_bytes gs, ellipsis, EmptyString).
Proof.
  intros Hgs. revert n ip. induction Hgs as [|g gs Hg Hgs IH]; intros n ip Hne Hlen; [done|].
  destruct n as [|n]; [cbn in Hlen; lia|]. cbn in Hlen. destruct gs as [|g' gs].
  - by apply parseGroups_end.
  - rewrite fmap_cons, join_cons, parseGroups_step by (done || by apply join_starts).
    by rewrite IH, (group_bytes_cons g (g' :: gs)), app_assoc by (done || lia).
Qed.

(** The loop on groups that an ellipsis follows. *)
Lemma parseGroups_first n gs ip s : groups_of gs → gs ≠ [] → (length gs ≤ n)%nat →
  let ip' := ip ++ group_bytes gs in
  parseGroups n ip None (join ":" (hex <$> gs) +:+ "::" +:+ s) =
    if decide (s = EmptyString) then Some (ip', Some (length ip'), EmptyString)
    else parseGroups (n - length gs) ip' (Some (length ip')) s.
Proof.
  intros Hgs. revert n ip. induction Hgs as [|g gs Hg Hgs IH]; intros n ip Hne Hlen ip'; [done|].
  destruct n as [|n]; [cbn in Hlen; lia|]. cbn in Hlen. destruct gs as [|g' gs].
  - cbn [fmap list_fmap join length Nat.sub]. rewrite Nat.sub_0_r. by apply parseGroups_ellipsis.
  - rewrite fmap_cons, join_cons, !string_app_assoc by done.
    rewrite parseGroups_step by (done || by apply starts_group_app, join_starts).
    rewrite IH by (done || lia). subst ip'. rewrite (group_bytes_cons g (g' :: gs)), !app_assoc. done.
Qed.

(** ** The longest run of zeros *)

Lemma zeros_spec l : (zeros l ≤ length l)%nat ∧ take (zeros l) l = replicate (zeros l) 0.
Proof.
  induction l as [|x l [IH1 IH2]]; [done|]. cbn [zeros]. case_decide as Hx; [|cbn; split; [lia|done]].
  subst x. cbn. split; [lia|by rewrite IH2].
Qed.

Definition runAt (l : list Z) (best : option (nat * nat)) : Prop :=
  match best with
  | None => True
  | Some (start, len) => (2 ≤ len)%nat ∧ (start + len ≤ length l)%nat ∧
      l = take start l ++ replicate len 0 ++ drop (start + len) l
  end.

Lemma longestZeros_spec l i best : (i ≤ length l)%nat → runAt l best →
  runAt l (longestZeros i (drop i l) best).
Proof.
  intros Hi. remember (drop i l) as rest eqn:Hrest. revert i best Hi Hrest.
  induction rest as [|x rest IH]; intros i best Hi Hrest Hbest; [done|]. cbn [longestZeros].
  assert (Hlen : (i < length l)%nat).
  { apply (f_equal length) in Hrest. rewrite length_drop in Hrest. cbn in Hrest. lia. }
  apply IH; [lia| |].
  { by rewrite <-Nat.add_1_r, <-drop_drop, <-Hrest. }
  destruct (_ && _) eqn:Hlonger; [|done]. apply andb_true_iff in Hlonger as [Hrun%bool_decide_eq_true _].
  rewrite Hrest in *. destruct (zeros_spec (drop i l)) as [Hle Hzeros]. rewrite length_drop in Hle.
  split_and!; [done|lia|]. rewrite <-Hzeros, <-drop_drop, take_drop, take_drop. done.
Qed.

(** ** The number of an IPv6 address *)

Lemma group_bytes_app l1 l2 : group_bytes (l1 ++ l2) = group_bytes l1 ++ group_bytes l2.
Proof. induction l1 as [|g l1 IH]; [done|]. cbn. by rewrite IH. Qed.

Lemma group_bytes_zeros n : group_bytes (replicate n 0) = replicate (2 * n) 0.
Proof. induction n as [|n IH]; [done|]. cbn [replicate group_bytes]. rewrite IH. by replace (2 * S n)%nat with (S (S (2 * n))) by lia. Qed.

Lemma fromBase_group_bytes gs : groups_of gs → fromBase 256 (group_bytes gs) = fromBase 65536 gs.
Proof.
  induction gs as [|g gs IH] using rev_ind; intros Hgs; [done|]. apply digits_snoc in Hgs as [Hgs%IH Hg].
  rewrite group_bytes_app, fromBase_app, fromBase_snoc, Hgs. cbn.
  pose proof (Z.div_mod g 256). lia.
Qed.

Lemma fromBase_toBase_groups n : 0 ≤ n < 2 ^ 128 → fromBase 256 (group_bytes (toBase 65536 8 n)) = n.
Proof.
  intros Hn. rewrite fromBase_group_bytes by by apply toBase_digits.
  rewrite fromBase_toBase, Z.mod_small by lia. done.
Qed.

(** Eight groups where a run of zeros is an ellipsis, expanded. *)
Lemma expand_run gs start len : length gs = 8%nat → (2 ≤ len)%nat → (start + len ≤ 8)%nat →
  gs = take start gs ++ replicate len 0 ++ drop (start + len) gs →
  expand (group_bytes (take start gs) ++ group_bytes (drop (start + len) gs), Some (2 * start)%nat, EmptyString) =
    Some (group_bytes gs).
Proof.
  intros Hgs H2 Hlen Heq. unfold expand. rewrite decide_False by (intros H; by apply H).
  rewrite length_app, !group_bytes_length, length_take, length_drop, decide_True by lia.
  assert (Ht : length (group_bytes (take start gs)) = (2 * start)%nat)
    by (rewrite group_bytes_length, length_take; lia).
  rewrite <-Ht, take_app_length, drop_app_length, (f_equal group_bytes Heq), !group_bytes_app, group_bytes_zeros.
  do 4 f_equal. lia.
Qed.

Lemma parseNumber6_start s : parseNumber6 ("::" +:+ s) =
  if decide (s = EmptyString) then Some 0
  else ip ← parseGroups 8 [] (Some O) s ≫= expand; Some (fromBase 256 ip).
Proof.
  unfold parseNumber6. assert (Hcut : cutPrefix "::" ("::" +:+ s) = Some s) by done. rewrite Hcut.
  destruct (decide (s = EmptyString)) as [->|Hs]; [by rewrite decide_True|].
  by rewrite decide_False by congruence.
Qed.

Lemma parseNumber6_plain s : starts_group s →
  parseNumber6 s = (ip ← parseGroups 8 [] None s ≫= expand; Some (fromBase 256 ip)).
Proof.
  intros (_ & _ & Hcut)%starts_group_spec. unfold parseNumber6. rewrite Hcut. by rewrite decide_False.
Qed.

Lemma parseNumber6_to6 n : 0 ≤ n < 2 ^ 128 → parseNumber6 (to6 n) = Some n.
Proof.
  intros Hn. unfold to6. set (gs := toBase 65536 8 n).
  assert (Hgs : groups_of gs) by by apply toBase_digits.
  assert (Hlen : length gs = 8%nat) by apply toBase_length.
  assert (Hnum : fromBase 256 (group_bytes gs) = n) by by apply fromBase_toBase_groups.
  pose proof (longestZeros_spec gs 0 None ltac:(lia) I) as Hrun. rewrite drop_0 in Hrun.
  destruct (longestZeros 0 gs None) as [[start len]|].
  2: { rewrite parseNumber6_plain by (apply join_starts; [done|by intros ->]).
    rewrite parseGroups_last by (done || lia || by intros ->). cbn [mbind option_bind app].
    unfold expand. rewrite decide_False by (intros H; by apply H).
    rewrite group_bytes_length, Hlen, decide_False by lia. cbn [mbind option_bind]. by rewrite Hnum. }
  destruct Hrun as (H2 & Hle & Heq). rewrite Hlen in Hle.
  assert (Hrest : groups_of (drop (start + len) gs)) by by apply Forall_drop.
  assert (Hfirst : groups_of (take start gs)) by by apply Forall_take.
  pose proof (expand_run gs start len Hlen H2 Hle Heq) as Hexpand.
  set (rest := drop (start + len) gs) in *.
  assert (Hrlen : length rest = (8 - (start + len))%nat) by (subst rest; rewrite length_drop; lia).
  assert (Hlast : join ":" (hex <$> rest) = EmptyString ↔ rest = []).
  { split; [|by intros ->]. intros He. destruct (decide (rest = [])); [done|].
    apply join_starts in Hrest; [|done]. by rewrite He in Hrest. }
  destruct (decide (start = O)) as [->|Hstart].
  - change (join ":" (hex <$> take 0 gs) +:+ ?s) with s. rewrite parseNumber6_start.
    case_decide as He; [|].
    { apply Hlast in He. f_equal. rewrite <-Hnum, Heq. unfold rest in *. rewrite He, app_nil_r, take_0.
      cbn [app]. rewrite group_bytes_zeros, fromBase_replicate. done. }
    rewrite Hlast in He. rewrite parseGroups_last by (done || lia). cbn [mbind option_bind app].
    rewrite take_0, Nat.mul_0_r in Hexpand. cbn [group_bytes app] in Hexpand. rewrite Hexpand.
    cbn [mbind option_bind]. by rewrite Hnum.
  - assert (Hne : take start gs ≠ []).
    { intros He%(f_equal length). rewrite length_take in He. cbn in He. lia. }
    rewrite parseNumber6_plain by by apply starts_group_app, join_starts.
    rewrite parseGroups_first by (done || rewrite length_take; lia). cbn [app].
    rewrite !group_bytes_length, length_take, Hlen, Nat.min_l by lia.
    assert (Hgoal : (ip ← expand (group_bytes (take start gs) ++ group_bytes rest, Some (2 * start)%nat, EmptyString);
      Some (fromBase 256 ip)) = Some n) by (rewrite Hexpand; cbn [mbind option_bind]; by rewrite Hnum).
    case_decide as He; cbn [mbind option_bind].
    + apply Hlast in He. rewrite He, app_nil_r in Hgoal. exact Hgoal.
    + rewrite Hlast in He. rewrite parseGroups_last by (done || lia). exact Hgoal.
Qed.

(** ** Mapped addresses *)

(** The digits of a decimal field, read as a group. *)
Definition fieldAsGroup (d : Z) : Prop := ∀ rest, ∃ k v,
  hexRun (FormatInt d +:+ rest) O 0 = hexRun rest (S k) v ∧ starts_group (FormatInt d +:+ rest).

Ltac read_group := intros rest; do 2 eexists; split; [cbv -[hexRun]; cbn; reflexivity|cbv; eexists; reflexivity].

Lemma read_groups : Forall fieldAsGroup (seqZ 0 256).
Proof.
  let l := eval vm_compute in (seqZ 0 256) in change (Forall fieldAsGroup l).
  repeat (constructor; [read_group|]). constructor.
Qed.

(** A dotted address: its first field, a dot and the rest. *)
Lemma dotted_first m : ∃ d s, 0 ≤ d < 256 ∧ dotted m = FormatInt d +:+ "." +:+ s.
Proof.
  pose proof (toBase_digits 256 ltac:(lia) 4 m) as Hd. pose proof (toBase_length 256 4 m) as Hl.
  unfold dotted. destruct (toBase 256 4 m) as [|a [|b l]]; try discriminate Hl.
  apply Forall_cons in Hd as [Ha _]. rewrite fmap_cons, join_cons by done. by exists a; eexists.
Qed.

Lemma dotted_group m : starts_group (dotted m) ∧
  ∃ k v s, hexRun (dotted m) O 0 = Some (S k, v, "." +:+ s).
Proof.
  destruct (dotted_first m) as (d & s & Hd & ->). pose proof read_groups as H. rewrite Forall_forall in H.
  destruct (H d ltac:(apply elem_of_seqZ; lia) ("." +:+ s)) as (k & v & Hrun & Hstart).
  split; [done|]. exists k, v, s. rewrite Hrun. apply hexRun_end. done.
Qed.

Lemma parseNumber6_mapped m : 0 ≤ m < 2 ^ 32 → parseNumber6 ("::ffff:" +:+ dotted m) = Some (mapped + m).
Proof.
  intros Hm. destruct (dotted_group m) as (Hstart & k & v & s & Hrun).
  change ("::ffff:" +:+ dotted m) with ("::" +:+ hex 65535 +:+ ":" +:+ dotted m).
  rewrite parseNumber6_start, decide_False by done.
  rewrite (parseGroups_step 7 [] 65535 ltac:(lia) (Some O) (dotted m) Hstart). cbn [app parseGroups].
  rewrite Hrun. change ("." +:+ s) with (String "." s). cbv zeta. rewrite decide_False by done.
  rewrite (decide_True (P := "."%char = "."%char)), decide_False by (done || naive_solver).
  rewrite (decide_False (P := (16 < _)%nat)) by (cbn; lia).
  rewrite parseIPv4Fields_dotted. cbn [mbind option_bind]. unfold expand.
  rewrite decide_False by (intros H; by apply H).
  rewrite length_app, toBase_length, decide_True by (cbn; lia).
  cbn [length group_bytes Nat.add Nat.sub take drop app mbind option_bind]. f_equal.
  change (65535 `div` 256 :: 65535 `mod` 256 :: ?l) with ([255; 255] ++ l).
  rewrite app_assoc, fromBase_app, toBase_length, fromBase_toBase, Z.mod_small by lia. done.
Qed.

(** ** The round trip *)

Definition special (c : ascii) : bool := bool_decide (c = "."%char ∨ c = ":"%char ∨ c = "%"%char).

(** No special character, or none but dots. *)
Definition plain : string → bool := all_bytes (λ c, negb (special c)).

Lemma family_app s c t : plain s = true → special c = true → family (s +:+ String c t) = Some c.
Proof.
  intros Hs Hc. induction s as [|a s IH].
  - change (EmptyString +:+ String c t) with (String c t). cbn [family].
    rewrite decide_True; [done|]. by apply bool_decide_eq_true in Hc.
  - apply andb_true_iff in Hs as [Ha%negb_true_iff Hs]. rewrite string_app_cons. cbn [family].
    rewrite decide_False; [by apply IH|]. by apply bool_decide_eq_false in Ha.
Qed.

Lemma all_bytes_join p sep l : all_bytes p sep = true → Forall (λ s, all_bytes p s = true) l →
  all_bytes p (join sep l) = true.
Proof.
  intros Hsep. induction 1 as [|s l Hs Hl IH]; [done|]. destruct l as [|s' l]; [done|].
  rewrite join_cons by done. by rewrite !all_bytes_app, Hs, Hsep, IH.
Qed.

Lemma hex_plain x : 0 ≤ x < 65536 → plain (hex x) = true.
Proof.
  intros Hx. assert (Hd : ∀ d s, 0 ≤ d < 16 → plain s = true → plain (String (hexDigit d) s) = true).
  { intros d s Hd Hs. unfold plain in *. cbn. rewrite Hs, andb_true_r. apply negb_true_iff, bool_decide_eq_false.
    destruct (hexDigit_plain d Hd) as (? & ? & ?). naive_solver. }
  unfold hex. repeat case_decide; repeat (apply Hd; [Z.to_euclidean_division_equations; lia|]); done.
Qed.

Lemma decimal_plain d : 0 ≤ d < 256 → plain (FormatInt d) = true.
Proof.
  intros Hd. assert (Hall : forallb (λ d, plain (FormatInt d)) (seqZ 0 256) = true) by (vm_compute; reflexivity).
  rewrite forallb_forall in Hall. apply Hall, list_elem_of_In, elem_of_seqZ. lia.
Qed.

(** The text of an IPv6 address has a colon before any other special character, and no zone. *)
Lemma join_first x gs s : 0 ≤ x < 65536 → ∃ p t, plain p = true ∧
  join ":" (hex <$> x :: gs) +:+ ":" +:+ s = p +:+ String ":" t.
Proof.
  intros Hx. exists (hex x). destruct gs as [|g gs].
  - exists s. by rewrite hex_plain.
  - rewrite fmap_cons, join_cons, !string_app_assoc by done.
    eexists. split; [by apply hex_plain|]. reflexivity.
Qed.

Lemma to6_first n s : ∃ p t, plain p = true ∧ to6 n +:+ s = p +:+ String ":" t.
Proof.
  unfold to6. pose proof (toBase_digits 65536 ltac:(lia) 8 n) as Hgs.
  pose proof (toBase_length 65536 8 n) as Hlen. destruct (toBase 65536 8 n) as [|x [|y gs]]; try discriminate Hlen.
  apply Forall_cons in Hgs as [Hx _]. destruct (longestZeros 0 _ None) as [[[|start] len]|].
  - exists EmptyString. rewrite take_0. eexists. split; [done|]. reflexivity.
  - cbn [take]. rewrite string_app_assoc.
    change ("::" +:+ ?a) with (":" +:+ String ":" a). by apply join_first.
  - rewrite fmap_cons, join_cons, !string_app_assoc by done.
    exists (hex x). eexists. split; [by apply hex_plain|]. reflexivity.
Qed.

Definition no_zone : string → bool := all_bytes (λ c, negb (bool_decide (c = "%"%char))).

Lemma plain_no_zone s : plain s = true → no_zone s = true.
Proof.
  induction s as [|c s IH]; [done|]. cbn. intros [Hc Hs%IH]%andb_true_iff. rewrite Hs, andb_true_r.
  apply negb_true_iff in Hc. apply bool_decide_eq_false in Hc. apply negb_true_iff, bool_decide_eq_false. naive_solver.
Qed.

Lemma groups_no_zone gs : groups_of gs → no_zone (join ":" (hex <$> gs)) = true.
Proof.
  intros Hgs. apply all_bytes_join; [done|]. apply Forall_fmap. eapply Forall_impl; [exact Hgs|].
  intros g Hg. by apply plain_no_zone, hex_plain.
Qed.

Lemma to6_no_zone n : no_zone (to6 n) = true.
Proof.
  unfold to6. pose proof (toBase_digits 65536 ltac:(lia) 8 n) as Hgs.
  destruct (longestZeros 0 _ None) as [[start len]|]; [|by apply groups_no_zone].
  unfold no_zone. rewrite !all_bytes_app. apply andb_true_iff. split; [|apply andb_true_iff; split; [done|]];
    apply groups_no_zone; [by apply Forall_take|by apply Forall_drop].
Qed.

Lemma decimals_plain n : Forall (λ s, plain s = true) (FormatInt <$> toBase 256 4 n).
Proof.
  apply Forall_fmap. eapply Forall_impl; [apply (toBase_digits 256); lia|]. intros d Hd. by apply decimal_plain.
Qed.

Lemma dotted_no_zone n : no_zone (dotted n) = true.
Proof.
  apply all_bytes_join; [done|]. eapply Forall_impl; [apply decimals_plain|]. apply plain_no_zone.
Qed.

Lemma Cut_no_zone s zone : no_zone s = true →
  Cut (s +:+ withZone zone) "%" = (s, zone, bool_decide (zone ≠ EmptyString)).
Proof.
  intros Hs. unfold withZone. case_decide as Hz.
  - subst zone. rewrite app_empty. induction s as [|c s IH]; [done|]. cbn in Hs |- *.
    apply andb_true_iff in Hs as [Hc%negb_true_iff%bool_decide_eq_false Hs].
    rewrite IH by done. by rewrite decide_False by done.
  - change ("%" +:+ zone) with (String "%" zone). rewrite Cut_app; [by rewrite bool_decide_eq_true_2|].
    induction s as [|c s IH]; [done|]. cbn in Hs |- *.
    apply andb_true_iff in Hs as [Hc%negb_true_iff Hs]. by rewrite Hc, IH.
Qed.

Lemma parseIPv6_text s zone n : no_zone s = true → parseNumber6 s = Some n →
  parseIPv6 (s +:+ withZone zone) = Some (V6 n zone).
Proof.
  intros Hs Hn. unfold parseIPv6. rewrite Cut_no_zone by done.
  rewrite bool_decide_not. rewrite andb_comm, andb_negb_r, Hn. done.
Qed.

Lemma mapped_spec n : 0 ≤ n < 2 ^ 128 → Is4In6 n = true ↔ 0 ≤ n - mapped < 2 ^ 32.
Proof.
  intros Hn. unfold Is4In6, mapped. rewrite bool_decide_eq_true. Z.to_euclidean_division_equations; lia.
Qed.

Lemma parse_printed a : valid a → ParseAddr (AddrString a) = Some a.
Proof.
  destruct a as [n|n zone]; cbn [valid AddrString]; intros Hn; unfold ParseAddr.
  - destruct (dotted_first n) as (d & s & Hd & Heq). rewrite Heq.
    change ("." +:+ s) with (String "." s). rewrite family_app by (done || by apply decimal_plain).
    rewrite decide_True by done. change (String "." s) with ("." +:+ s). rewrite <-Heq.
    unfold parseIPv4. rewrite parseIPv4Fields_dotted. cbn [mbind option_bind].
    by rewrite fromBase_toBase, Z.mod_small by lia.
  - destruct (Is4In6 n) eqn:Hmapped.
    + apply mapped_spec in Hmapped; [|done].
      change (family _) with (Some ":"%char). cbv beta iota. rewrite decide_False, decide_True by done.
      apply parseIPv6_text; [by apply dotted_no_zone|]. rewrite parseNumber6_mapped by done. f_equal. lia.
    + destruct (to6_first n (withZone zone)) as (p & t & Hp & Heq). rewrite Heq, family_app by done.
      rewrite decide_False, decide_True, <-Heq by done.
      apply parseIPv6_text; [apply to6_no_zone|by apply parseNumber6_to6].
Qed.

(** ** What is parsed is in range *)

Lemma digit_bound c d : digit c = Some d → (d < 10)%N.
Proof. unfold digit. repeat case_match; intros; simplify_eq; lia. Qed.

Lemma parseIPv4Fields_valid s fields val k r :
  bytes_of fields → 0 ≤ val < 256 → (length fields ≤ 3)%nat →
  parseIPv4Fields s fields val k = Some r → bytes_of r ∧ length r = 4%nat.
Proof.
  revert fields val k. induction s as [|c s IH]; intros fields val k Hf Hv Hlen; cbn [parseIPv4Fields].
  - case_decide; [done|]. intros [= <-]. rewrite digits_snoc, length_app. cbn. split; [done|lia].
  - destruct (digit c) as [d|] eqn:Hd.
    + apply digit_bound in Hd. repeat case_decide; [done..|]. apply IH; [done|lia|done].
    + repeat case_decide; [done|done| |done]. apply IH; [by apply digits_snoc|lia|rewrite length_app; cbn; lia].
Qed.

Lemma hexValue_bound c d : hexValue c = Some d → 0 ≤ d < 16.
Proof. unfold hexValue. repeat case_decide; intros; simplify_eq; lia. Qed.

Lemma hexRun_valid s off acc off' acc' rest : (off ≤ 4)%nat → 0 ≤ acc < 16 ^ Z.of_nat off →
  hexRun s off acc = Some (off', acc', rest) → 0 ≤ acc' < 65536.
Proof.
  assert (Hpow : ∀ k, (k ≤ 4)%nat → 16 ^ Z.of_nat k ≤ 65536).
  { intros k Hk. change 65536 with (16 ^ 4). apply Z.pow_le_mono_r; lia. }
  revert off acc. induction s as [|c s IH]; intros off acc Hoff Hacc; cbn [hexRun].
  - intros [= _ <- _]. specialize (Hpow off Hoff). lia.
  - destruct (hexValue c) as [d|] eqn:Hd; [|intros [= _ <- _]; specialize (Hpow off Hoff); lia].
    apply hexValue_bound in Hd. case_decide; [done|]. apply IH; [lia|].
    rewrite Nat2Z.inj_succ, Z.pow_succ_r by lia. lia.
Qed.

(** The bytes of the loop, and the position of the ellipsis in them. *)
Definition partial (ip : list Z) (ellipsis : option nat) : Prop :=
  bytes_of ip ∧ (length ip ≤ 16)%nat ∧ ∀ e, ellipsis = Some e → (e ≤ length ip)%nat.

Lemma partial_group ip g : 0 ≤ g < 65536 → bytes_of ip →
  bytes_of (ip ++ [g `div` 256; g `mod` 256]).
Proof.
  intros Hg Hip. change [g `div` 256; g `mod` 256] with ([g `div` 256] ++ [g `mod` 256]).
  rewrite app_assoc, !digits_snoc. split_and!; [done| | |..]; Z.to_euclidean_division_equations; lia.
Qed.

Lemma parseGroups_valid n ip ellipsis s ip' ellipsis' s' :
  partial ip ellipsis → (length ip + 2 * n ≤ 16)%nat →
  parseGroups n ip ellipsis s = Some (ip', ellipsis', s') → partial ip' ellipsis'.
Proof.
  revert ip ellipsis s. induction n as [|n IH]; intros ip ellipsis s Hp Hlen; cbn [parseGroups].
  { by intros [= <- <- _]. }
  destruct (hexRun s 0 0) as [[[off acc] rest]|] eqn:Hrun; [|done].
  apply hexRun_valid in Hrun; [|lia|cbn; lia]. case_decide; [done|].
  destruct Hp as (Hip & Hmax & He). pose proof (partial_group ip acc Hrun Hip) as Hip'. cbv zeta.
  set (next := ip ++ [acc `div` 256; acc `mod` 256]) in *.
  assert (Hnext : length next = (length ip + 2)%nat) by (subst next; rewrite length_app; done).
  assert (Hpn : partial next ellipsis).
  { split_and!; [done|lia|]. intros e Heq. specialize (He e Heq). lia. }
  destruct rest as [|c rest]; [by intros [= <- <- _]|]. case_decide.
  - repeat case_decide; [done..|]. destruct (parseIPv4Fields s [] 0 0) as [fields|] eqn:Hf; [|done].
    apply parseIPv4Fields_valid in Hf as [Hf Hfl]; [|constructor|lia|cbn; lia]. intros [= <- <- _].
    unfold partial. rewrite length_app, Hfl. split_and!; [by apply Forall_app|lia|].
    intros e Heq. specialize (He e Heq). lia.
  - case_decide; [done|]. destruct (cutPrefix ":" rest) as [rest'|]; [|apply IH; [done|lia]].
    assert (Hpe : partial next (Some (length next))).
    { split_and!; [done|lia|]. by intros e [= <-]. }
    repeat case_decide; [done|by intros [= <- <- _]|]. apply IH; [done|lia].
Qed.

Lemma expand_valid ip ellipsis s r : partial ip ellipsis → expand (ip, ellipsis, s) = Some r →
  bytes_of r ∧ length r = 16%nat.
Proof.
  intros (Hip & Hlen & He). unfold expand. case_decide; [done|]. case_decide.
  - destruct ellipsis as [e|]; [|done]. specialize (He e eq_refl). intros [= <-]. split.
    + unfold digits_of. rewrite !Forall_app. split_and!; [by apply Forall_take| |by apply Forall_drop].
      apply Forall_replicate. lia.
    + rewrite !length_app, length_take, length_replicate, length_drop. lia.
  - destruct ellipsis; [done|]. intros [= <-]. split; [done|lia].
Qed.

Lemma parseNumber6_valid s n : parseNumber6 s = Some n → 0 ≤ n < 2 ^ 128.
Proof.
  unfold parseNumber6.
  set (start := match cutPrefix "::" s with Some rest => (Some O, rest) | None => (None, s) end).
  assert (Hstart : partial [] start.1).
  { split_and!; [constructor|cbn; lia|]. subst start. destruct (cutPrefix "::" s); cbn; [|done]. by intros e [= <-]. }
  case_decide; [intros [= <-]; lia|].
  destruct (parseGroups 8 [] start.1 start.2) as [[[ip e] rest]|] eqn:Hg; [|done]. cbn [mbind option_bind].
  apply parseGroups_valid in Hg; [|done|cbn; lia].
  destruct (expand (ip, e, rest)) as [r|] eqn:Hr; [|done]. cbn [mbind option_bind]. intros [= <-].
  apply (expand_valid _ _ _ _ Hg) in Hr as [Hbytes Hlen].
  pose proof (fromBase_bound 256 ltac:(lia) r Hbytes) as Hb. rewrite Hlen in Hb. exact Hb.
Qed.

Lemma parsed_valid s a : ParseAddr s = Some a → valid a.
Proof.
  unfold ParseAddr. intros Hparse. destruct (family s) as [c|]; [|done]. repeat case_decide; [| |done].
  - unfold parseIPv4 in Hparse. destruct (parseIPv4Fields s [] 0 0) as [r|] eqn:Hf; [|done].
    apply parseIPv4Fields_valid in Hf as [Hr Hlen]; [|constructor|lia|cbn; lia]. injection Hparse as <-.
    pose proof (fromBase_bound 256 ltac:(lia) r Hr) as Hb. rewrite Hlen in Hb. exact Hb.
  - unfold parseIPv6 in Hparse. destruct (Cut s "%") as [[s' zone] found].
    destruct (found && _); [done|]. destruct (parseNumber6 s') as [n|] eqn:Hn; [|done].
    injection Hparse as <-. by apply parseNumber6_valid in Hn.
Qed.

(** Printing an address and parsing the text gives the address back: of version 4, of version 6
    with any run of zeros, mapped ones, and with any zone; and the text that is printed is a normal
    form of every text that is parsed. *)
Theorem address_text_roundtrip :
  (∀ a, valid a → ParseAddr (AddrString a) = Some a) ∧
  (∀ s a, ParseAddr s = Some a → valid a ∧ ParseAddr (AddrString a) = Some a).
Proof.
  split; [exact parse_printed|]. intros s a Ha%parsed_valid. split; [done|by apply parse_printed].
Qed.
