(* ===== verification/Addresses.v ===== *)
(** * Address ranges ([internal/superphenix-controller/internal/utils/ip.go])

    The first and last addresses of a CIDR block and membership of addresses and blocks. A nil
    [net.IP] is [None], an error is [None] too where the code only tests it. *)

From Stdlib Require Import Ascii.
From S2P Require Import Prelude Strings Strconv IP IPText.

Definition LoadBalancerVIPCIDR : string := "198.18.0.0/16".
Definition LogicalSwitchAnnotation : string := "ovn.kubernetes.io/logical_switch".
Definition LogicalRouterAnnotation : string := "ovn.kubernetes.io/logical_router".

(** The number and the bits of an address of 4 or 16 bytes. *)
Definition ipToInt (ip : list Z) : option (Z * Z) :=
  if decide (length ip = 4%nat) then Some (fromBase 256 ip, 32)
  else if decide (length ip = 16%nat) then Some (fromBase 256 ip, 128)
  else None.

Definition intToIP (ipInt bits : Z) : list Z := toBase 256 (Z.to_nat (bits `div` 8)) ipInt.

Definition AddressRange (network : IPNet) : option (list Z * list Z) :=
  let firstIP := net_IP network in
  let '(prefixLen, bits) := MaskSize (net_Mask network) in
  if decide (prefixLen = bits) then Some (firstIP, firstIP)
  else match ipToInt firstIP with
       | None => None
       | Some (firstIPInt, bits) =>
         let hostLen := bits - prefixLen in
         Some (firstIP, intToIP (Z.lor (Z.shiftl 1 hostLen - 1) firstIPInt) bits)
       end.

(** The text of the zero [Addr]. *)
Definition optAddrString (a : option Addr) : string :=
  match a with Some a => AddrString a | None => "invalid IP" end.

Definition FirstAndLastAvailable (network : IPNet) : option (list Z) * option (list Z) :=
  let '(mask, maxMask) := MaskSize (net_Mask network) in
  if decide (maxMask - 1 ≤ mask) then (None, None) else
  match AddressRange network with
  | None => (None, None)
  | Some (first, last) =>
    match ParseAddr (IPString first), ParseAddr (IPString last) with
    | Some firstAddr, Some lastAddr =>
      (ParseIP (optAddrString (Next firstAddr)), ParseIP (optAddrString (Prev lastAddr)))
    | _, _ => (None, None)
    end
  end.

(** The mask of the first network is compared byte by byte with that of the second. *)
Definition ContainsNet (net1 net2 : IPNet) : bool :=
  if decide (length (net_IP net1) ≠ length (net_IP net2)) then false
  else if negb (NetContains net1 (net_IP net2)) then false
  else match bytesCompare (net_Mask net1) (net_Mask net2) with Gt => false | _ => true end.

(** The loop over the blocks. *)
Fixpoint anyContains (cidrs : list string) (ipAddr : list Z) : option bool :=
  match cidrs with
  | [] => Some false
  | c :: cidrs =>
    let c := TrimSpace c in
    if decide (c = EmptyString) then anyContains cidrs ipAddr
    else match ParseCIDR c with
         | None => None
         | Some (_, ipnet) => if NetContains ipnet ipAddr then Some true else anyContains cidrs ipAddr
         end
  end.

Definition IsIPInCIDR (cidr ip : string) : option bool :=
  match ParseIP ip with
  | None => None
  | Some ipAddr => anyContains (Split cidr ","%char) ipAddr
  end.

Example ranges :
  (λ s, '(_, n) ← ParseCIDR s; let '(f, l) := FirstAndLastAvailable n in
        Some (IPString <$> f, IPString <$> l)) <$>
    ["192.168.1.0/24"; "10.0.0.0/30"; "10.0.0.0/31"; "fc00::/64"; "255.255.255.248/29"; "::/0"] =
  [Some (Some "192.168.1.1", Some "192.168.1.254"); Some (Some "10.0.0.1", Some "10.0.0.2"); Some (None, None);
   Some (Some "fc00::1", Some "fc00::ffff:ffff:ffff:fffe"); Some (Some "255.255.255.249", Some "255.255.255.254");
   Some (Some "::1", Some "ffff:ffff:ffff:ffff:ffff:ffff:ffff:fffe")].
Proof. vm_compute. reflexivity. Qed.

Example memberships :
  IsIPInCIDR "10.10.0.0/16, fd00:10:10::/64" "10.10.3.4" = Some true ∧
  IsIPInCIDR "10.10.0.0/16,fd00:10:10::/64" "fd00:10:10::7" = Some true ∧
  IsIPInCIDR "10.10.0.0/16" "10.11.0.0" = Some false ∧ IsIPInCIDR "10.10.0.0/16" "10.11.0" = None ∧
  IsIPInCIDR LoadBalancerVIPCIDR "::ffff:198.18.0.1" = Some true.
Proof. vm_compute. done. Qed.

(** * CIDR blocks as intervals

    A block that is parsed is a number aligned on a power of two; membership of addresses and blocks
    is that of intervals. Addresses of version 4 and their mapped forms have the same number. *)

(** ** Numbers of addresses and blocks *)

Definition is_ip (ip : list Z) : Prop := bytes_of ip ∧ (length ip = 4 ∨ length ip = 16)%nat.

Definition ipNumber (ip : list Z) : Z :=
  if decide (length ip = 4%nat) then mapped + fromBase 256 ip else fromBase 256 ip.

Definition isMapped (z : Z) : Prop := mapped ≤ z < mapped + 2 ^ 32.

#[export] Instance isMapped_dec z : Decision (isMapped z).
Proof. unfold isMapped. apply _. Defined.

(** A block of [l] bytes and [ones] fixed bits. *)
Record cidr (n : IPNet) (l : nat) (ones : Z) : Prop := {
  cidr_bytes : (l = 4 ∨ l = 16)%nat;
  cidr_ones : 0 ≤ ones ≤ 8 * Z.of_nat l;
  cidr_length : length (net_IP n) = l;
  cidr_ip : bytes_of (net_IP n);
  cidr_mask : net_Mask n = maskBytes l ones;
  cidr_aligned : fromBase 256 (net_IP n) `mod` 2 ^ (8 * Z.of_nat l - ones) = 0;
}.

Definition blockSize (l : nat) (ones : Z) : Z := 2 ^ (8 * Z.of_nat l - ones).
Definition netFirst (n : IPNet) : Z := ipNumber (net_IP n).

Lemma pow256 l : 256 ^ Z.of_nat l = 2 ^ (8 * Z.of_nat l).
Proof. change 256 with (2 ^ 8). by rewrite <-Z.pow_mul_r by lia. Qed.

Lemma bytes_bound ip : bytes_of ip → 0 ≤ fromBase 256 ip < 2 ^ (8 * Z.of_nat (length ip)).
Proof. intros Hip. rewrite <-pow256. by apply fromBase_bound. Qed.

Lemma blockSize_pos l ones : 0 ≤ ones ≤ 8 * Z.of_nat l → 0 < blockSize l ones.
Proof. intros H. apply Z.pow_pos_nonneg; lia. Qed.

(** ** Masking *)

Lemma masked_eq l k x y : (l = 4 ∨ l = 16)%nat → 0 ≤ k ≤ 8 * Z.of_nat l →
  bytes_of x → bytes_of y → length x = l → length y = l →
  zip_with Z.land x (maskBytes l k) = zip_with Z.land y (maskBytes l k) ↔
  fromBase 256 x `div` blockSize l k = fromBase 256 y `div` blockSize l k.
Proof.
  intros Hl Hk Hx Hy Hlx Hly. destruct (maskBytes_spec l k Hl Hk) as (Hml & Hm & _ & Hmb).
  pose proof (blockSize_pos l k Hk) as Hs.
  assert (Hval : ∀ z, bytes_of z → length z = l →
    fromBase 256 (zip_with Z.land z (maskBytes l k)) = fromBase 256 z `div` blockSize l k * blockSize l k).
  { intros z Hz Hlz. rewrite fromBase_land by (done || congruence). rewrite Hm.
    apply land_maskNumber; [done|]. rewrite <-Hlz. by apply bytes_bound. }
  split; intros Heq.
  - apply (f_equal (fromBase 256)) in Heq. rewrite !Hval in Heq by done. nia.
  - apply (fromBase_inj 256); [lia|by apply zip_land_bytes..| |by rewrite !Hval, Heq].
    rewrite !length_zip_with. congruence.
Qed.

(** What a mask keeps of an address aligned on it. *)
Lemma aligned_div s b x : 0 < s → b `mod` s = 0 → b `div` s = x `div` s ↔ b ≤ x < b + s.
Proof. intros Hs Hb. Z.to_euclidean_division_equations. nia. Qed.

(** ** [To4] *)

Lemma prefix_mapped : fromBase 256 (replicate 10 0 ++ [255; 255]) = 65535.
Proof. done. Qed.

Lemma To4_spec ip : is_ip ip →
  (isMapped (ipNumber ip) → To4 ip = Some (toBase 256 4 (ipNumber ip - mapped))) ∧
  (¬ isMapped (ipNumber ip) → To4 ip = None ∧ length ip = 16%nat).
Proof.
  intros [Hb Hl]. unfold To4, ipNumber. pose proof (bytes_bound ip Hb) as Hbound. case_decide as H4.
  - rewrite H4 in Hbound. split; [|unfold isMapped; lia]. intros _. f_equal.
    replace (mapped + fromBase 256 ip - mapped) with (fromBase 256 ip) by lia. rewrite <-H4. symmetry.
    by apply toBase_fromBase.
  - destruct Hl as [Hl|Hl]; [lia|]. rewrite Hl in Hbound.
    assert (Hsplit : fromBase 256 ip = fromBase 256 (take 12 ip) * 2 ^ 32 + fromBase 256 (drop 12 ip)).
    { rewrite <-(take_drop 12 ip) at 1. rewrite fromBase_app, length_drop, Hl. done. }
    assert (Ht : bytes_of (take 12 ip)) by by apply Forall_take.
    assert (Hd : bytes_of (drop 12 ip)) by by apply Forall_drop.
    assert (Hdl : length (drop 12 ip) = 4%nat) by (rewrite length_drop; lia).
    assert (Htl : length (take 12 ip) = 12%nat) by (rewrite length_take; lia).
    pose proof (bytes_bound _ Hd) as Hdb. rewrite Hdl in Hdb. change (2 ^ (8 * Z.of_nat 4)) with (2 ^ 32) in Hdb.
    assert (Hiff : isMapped (fromBase 256 ip) ↔ take 12 ip = replicate 10 0 ++ [255; 255]).
    { unfold isMapped, mapped. split.
      - intros Hm. apply (fromBase_inj 256); [lia|done| |done|rewrite prefix_mapped; lia].
        unfold digits_of. repeat constructor; lia.
      - intros Heq. rewrite Hsplit, Heq, prefix_mapped. lia. }
    split; intros Hm.
    + apply Hiff in Hm as Htake. rewrite decide_True by done. f_equal.
      rewrite Hsplit, Htake, prefix_mapped. unfold mapped.
      replace (65535 * 2 ^ 32 + fromBase 256 (drop 12 ip) - 65535 * 2 ^ 32) with (fromBase 256 (drop 12 ip)) by lia.
      pose proof (toBase_fromBase 256 ltac:(lia) _ Hd) as Hround. by rewrite Hdl in Hround.
    + split; [|done]. rewrite decide_False; [done|]. intros [_ Heq]. by apply Hm, Hiff.
Qed.

(** Two addresses of the same family have numbers in the same units. *)
Lemma number_units ip l : is_ip ip → length ip = l →
  ipNumber ip = (if decide (l = 4%nat) then mapped else 0) + fromBase 256 ip.
Proof. intros _ <-. unfold ipNumber. case_decide; lia. Qed.

(** A block that starts at a mapped address fixes the 96 bits of the mapped prefix. *)
Lemma mapped_ones n ones : cidr n 16 ones → isMapped (netFirst n) → 96 ≤ ones.
Proof.
  intros Hn Hm. destruct (decide (96 ≤ ones)); [done|exfalso].
  pose proof (cidr_ones _ _ _ Hn) as Ho. pose proof (cidr_aligned _ _ _ Hn) as Ha.
  unfold netFirst, ipNumber in Hm. rewrite (cidr_length _ _ _ Hn), decide_False in Hm by done.
  apply Z.mod_divide in Ha as [q Hq]; [|apply Z.pow_nonzero; lia].
  replace (8 * Z.of_nat 16 - ones) with (33 + (95 - ones)) in Hq by lia.
  rewrite Z.pow_add_r in Hq by lia. change (2 ^ 33) with (2 * 2 ^ 32) in Hq.
  set (w := q * 2 ^ (95 - ones)). assert (Hw : fromBase 256 (net_IP n) = w * (2 * 2 ^ 32)) by (subst w; lia).
  unfold isMapped, mapped in Hm. lia.
Qed.

Lemma mapped_mask ones : 96 ≤ ones ≤ 128 → drop 12 (maskBytes 16 ones) = maskBytes 4 (ones - 96).
Proof.
  intros Ho. assert (Hall : forallb (λ k, bool_decide (drop 12 (maskBytes 16 k) = maskBytes 4 (k - 96)))
    (seqZ 96 33) = true) by (vm_compute; reflexivity).
  rewrite forallb_forall in Hall. apply (bool_decide_eq_true_1 _), Hall, list_elem_of_In, elem_of_seqZ. lia.
Qed.

(** The number and mask that membership compares: those of the family of the block. *)
Lemma networkNumber_spec n l ones : cidr n l ones →
  if decide (isMapped (netFirst n))
  then ∃ k, 0 ≤ k ≤ 32 ∧ networkNumberAndMask n = Some (toBase 256 4 (netFirst n - mapped), maskBytes 4 k) ∧
    blockSize l ones = blockSize 4 k ∧ (netFirst n - mapped) `mod` blockSize 4 k = 0
  else l = 16%nat ∧ networkNumberAndMask n = Some (net_IP n, maskBytes 16 ones).
Proof.
  intros Hn. pose proof (cidr_bytes _ _ _ Hn) as Hl. pose proof (cidr_ones _ _ _ Hn) as Ho.
  pose proof (cidr_length _ _ _ Hn) as Hlen. pose proof (cidr_mask _ _ _ Hn) as Hmask.
  pose proof (cidr_aligned _ _ _ Hn) as Ha.
  assert (Hip : is_ip (net_IP n)) by (split; [apply (cidr_ip _ _ _ Hn)|lia]).
  destruct (To4_spec _ Hip) as [H4 H16]. destruct (maskBytes_spec l ones Hl Ho) as (Hml & _).
  unfold networkNumberAndMask, netFirst. case_decide as Hm.
  - rewrite H4, Hmask, Hml by done. destruct Hl as [->| ->].
    + exists ones. rewrite decide_True by done. split_and!; [lia|lia|done|done|].
      unfold ipNumber. rewrite Hlen, decide_True by done. rewrite Z.add_simpl_l. exact Ha.
    + pose proof (mapped_ones n ones Hn Hm) as H96. exists (ones - 96).
      assert (Hsize : blockSize 16 ones = blockSize 4 (ones - 96)) by (unfold blockSize; f_equal; lia).
      rewrite decide_False, decide_True, mapped_mask by (done || lia). split_and!; [lia|lia|done|done|].
      rewrite <-Hsize. unfold ipNumber. rewrite Hlen, decide_False by done.
      unfold mapped. apply Z.mod_divide; [pose proof (blockSize_pos 16 ones Ho); lia|].
      apply Z.divide_sub_r; [apply Z.mod_divide; [|exact Ha]; apply Z.pow_nonzero; lia|].
      apply Z.divide_mul_r. unfold blockSize. exists (2 ^ (ones - 96)). rewrite <-Z.pow_add_r by lia. f_equal. lia.
  - destruct (H16 Hm) as [-> H]. assert (l = 16%nat) as -> by lia. split; [done|].
    rewrite Hmask, Hml, decide_True by done. done.
Qed.

(** Membership of an address: same family, and in the interval. *)
Lemma NetContains_spec n l ones ip : cidr n l ones → is_ip ip →
  NetContains n ip = true ↔ (isMapped (netFirst n) ↔ isMapped (ipNumber ip)) ∧
    netFirst n ≤ ipNumber ip < netFirst n + blockSize l ones.
Proof.
  intros Hn Hip. pose proof (networkNumber_spec n l ones Hn) as Hnet.
  destruct (To4_spec ip Hip) as [H4 H16]. unfold NetContains. destruct Hip as [Hb Hl].
  case_decide as Hm.
  - destruct Hnet as (k & Hk & -> & Hsize & Ha). rewrite bool_decide_eq_true.
    destruct (decide (isMapped (ipNumber ip))) as [Hi|Hi].
    + rewrite H4 by done. cbn [default from_option id]. rewrite !toBase_length.
      rewrite masked_eq by (rewrite ?toBase_length; try apply toBase_digits; lia).
      unfold isMapped in Hm, Hi. rewrite !fromBase_toBase by lia.
      change (256 ^ Z.of_nat 4) with (2 ^ 32). rewrite !Z.mod_small by lia.
      rewrite (aligned_div (blockSize 4 k)) by (done || by apply blockSize_pos; lia).
      rewrite Hsize. unfold isMapped. split; [|lia]. intros [_ ?]. split; lia.
    + destruct (H16 Hi) as [-> Hlen]. cbn [default from_option id]. rewrite Hlen, toBase_length. split; [by intros []|tauto].
  - destruct Hnet as [-> ->]. rewrite bool_decide_eq_true, (cidr_length _ _ _ Hn).
    destruct (decide (isMapped (ipNumber ip))) as [Hi|Hi].
    + rewrite H4 by done. cbn [default from_option id]. rewrite toBase_length. split; [by intros []|tauto].
    + destruct (H16 Hi) as [-> Hlen]. cbn [default from_option id].
      rewrite masked_eq by (done || apply Hn || lia || by right).
      rewrite (aligned_div (blockSize 16 ones)) by (apply blockSize_pos, Hn || apply Hn).
      unfold netFirst, ipNumber in *. rewrite Hlen, (cidr_length _ _ _ Hn), !decide_False in * by done. tauto.
Qed.
