(* ===== verification/AddressTheorems.v ===== *)
(** * The theorems of address ranges

    Inclusion of blocks, the first and last available addresses, and membership in a list of
    blocks, as statements on numbers. *)

From Stdlib Require Import Ascii.
From S2P Require Import Prelude Strings Strconv IP IPText Addresses.

(** ** What is parsed *)

Lemma As16_is_ip a : is_ip (As16 a).
Proof. split; [by apply toBase_digits|right; apply toBase_length]. Qed.

Lemma As16_number a : valid a → ipNumber (As16 a) = number a.
Proof.
  intros Ha. unfold ipNumber, As16. rewrite toBase_length, decide_False, fromBase_toBase by (done || lia).
  apply Z.mod_small. unfold number, valid, mapped in *. destruct a; cbn in *; lia.
Qed.

Lemma ParseIP_is_ip s ip : ParseIP s = Some ip → is_ip ip ∧ length ip = 16%nat.
Proof.
  unfold ParseIP. destruct (ParseAddr s) as [a|]; [|done]. cbn [mbind option_bind]. case_decide; [done|].
  intros [= <-]. split; [apply As16_is_ip|apply toBase_length].
Qed.

Lemma dtoi_bound s n : dtoi s = Some n → 0 ≤ n.
Proof. unfold dtoi. repeat case_match; intros; simplify_eq; lia. Qed.

Lemma mapped_bytes v : 0 ≤ v < 2 ^ 32 →
  toBase 256 16 (mapped + v) = (replicate 10 0 ++ [255; 255]) ++ toBase 256 4 v.
Proof.
  intros Hv. change 16%nat with (12 + 4)%nat. rewrite toBase_app by lia. f_equal.
  - assert (Hdiv : (mapped + v) `div` 256 ^ Z.of_nat 4 = 65535).
    { unfold mapped. change (256 ^ Z.of_nat 4) with (2 ^ 32). rewrite Z.div_add_l, Z.div_small by lia. lia. }
    rewrite Hdiv. done.
  - rewrite <-(toBase_mod 256 ltac:(lia) 4 (mapped + v)), <-(toBase_mod 256 ltac:(lia) 4 v). f_equal.
    unfold mapped. change (256 ^ Z.of_nat 4) with (2 ^ 32). by rewrite Z.add_comm, Z.mod_add by lia.
Qed.

Lemma IPMask_V4 v m : 0 ≤ v < 2 ^ 32 → length m = 4%nat →
  IPMask (As16 (V4 v)) m = zip_with Z.land (toBase 256 4 v) m.
Proof.
  intros Hv Hm. unfold IPMask, As16, number. rewrite toBase_length, mapped_bytes by done.
  rewrite decide_True by (split_and!; done). done.
Qed.

Lemma IPMask_16 ip m : length m = 16%nat → IPMask ip m = zip_with Z.land ip m.
Proof. intros Hm. unfold IPMask. rewrite decide_False; [done|]. intros [H _]. lia. Qed.

(** An address and the block of its first [ones] bits. *)
Lemma masked_cidr l ones src : (l = 4 ∨ l = 16)%nat → 0 ≤ ones ≤ 8 * Z.of_nat l →
  bytes_of src → length src = l →
  let n := mkIPNet (zip_with Z.land src (maskBytes l ones)) (maskBytes l ones) in
  cidr n l ones ∧ fromBase 256 (net_IP n) ≤ fromBase 256 src < fromBase 256 (net_IP n) + blockSize l ones.
Proof.
  intros Hl Ho Hsrc Hlen n. destruct (maskBytes_spec l ones Hl Ho) as (Hml & Hm & _ & Hmb).
  pose proof (blockSize_pos l ones Ho) as Hs. pose proof (bytes_bound src Hsrc) as Hb. rewrite Hlen in Hb.
  assert (Hnum : fromBase 256 (net_IP n) = fromBase 256 src `div` blockSize l ones * blockSize l ones).
  { subst n. cbn [net_IP]. rewrite fromBase_land, Hm by (done || congruence). by apply land_maskNumber. }
  split; [split|]; subst n; cbn [net_IP net_Mask] in *; try done.
  - rewrite length_zip_with. lia.
  - by apply zip_land_bytes.
  - rewrite Hnum. by apply Z.mod_mul, Z.pow_nonzero; lia.
  - rewrite Hnum. unfold blockSize in *. Z.to_euclidean_division_equations; nia.
Qed.

Lemma As16_fromBase v : 0 ≤ v < 2 ^ 128 → fromBase 256 (toBase 256 16 v) = v.
Proof. intros Hv. rewrite fromBase_toBase, Z.mod_small by lia. done. Qed.

Lemma CIDR_of_addr a ones : valid a → 0 ≤ ones ≤ Z.of_nat (BitLen a) →
  let n := mkIPNet (IPMask (As16 a) (CIDRMask ones (BitLen a))) (CIDRMask ones (BitLen a)) in
  cidr n (BitLen a / 8) ones ∧ netFirst n ≤ number a < netFirst n + blockSize (BitLen a / 8) ones.
Proof.
  intros Ha Ho n. unfold CIDRMask in *. subst n. destruct a as [v|v zone]; unfold BitLen, valid in *.
  - change (32 / 8)%nat with 4%nat. destruct (maskBytes_spec 4 ones ltac:(auto) ltac:(lia)) as (Hml & _).
    rewrite IPMask_V4 by done.
    destruct (masked_cidr 4 ones (toBase 256 4 v) ltac:(auto) ltac:(lia) ltac:(by apply toBase_digits)
      (toBase_length _ _ _)) as [Hc Hin]. split; [exact Hc|].
    unfold netFirst, ipNumber. rewrite (cidr_length _ _ _ Hc), decide_True by done.
    rewrite fromBase_toBase, Z.mod_small in Hin by (cbn; lia). unfold number. lia.
  - change (128 / 8)%nat with 16%nat. destruct (maskBytes_spec 16 ones ltac:(auto) ltac:(lia)) as (Hml & _).
    rewrite IPMask_16 by done.
    destruct (masked_cidr 16 ones (As16 (V6 v zone)) ltac:(auto) ltac:(lia) ltac:(by apply toBase_digits)
      (toBase_length _ _ _)) as [Hc Hin]. split; [exact Hc|].
    unfold netFirst, ipNumber. rewrite (cidr_length _ _ _ Hc), decide_False by done.
    unfold As16 in Hin at 2 3. rewrite As16_fromBase in Hin by done. exact Hin.
Qed.

Lemma ParseCIDR_cidr s ip n : ParseCIDR s = Some (ip, n) →
  is_ip ip ∧ ∃ l ones, cidr n l ones ∧ netFirst n ≤ ipNumber ip < netFirst n + blockSize l ones.
Proof.
  unfold ParseCIDR. destruct (Cut s "/") as [[addr mask] found]. destruct (negb found); [done|].
  destruct (ParseAddr addr) as [a|] eqn:Ha; [|done]. cbn [mbind option_bind]. case_decide as Hz; [done|].
  destruct (dtoi mask) as [ones|] eqn:Hd; [|done]. cbn [mbind option_bind]. case_decide as Hones; [done|].
  intros [= <- <-]. split; [apply As16_is_ip|]. apply dtoi_bound in Hd. apply parsed_valid in Ha as Hvalid.
  exists (BitLen a / 8)%nat, ones. rewrite As16_number by done. apply CIDR_of_addr; [done|lia].
Qed.

(** ** Inclusion *)

Lemma cidr_is_ip n l ones : cidr n l ones → is_ip (net_IP n).
Proof.
  intros Hn. split; [apply Hn|]. pose proof (cidr_bytes _ _ _ Hn). pose proof (cidr_length _ _ _ Hn). lia.
Qed.

Lemma netFirst_base n l ones : cidr n l ones →
  netFirst n = (if decide (l = 4%nat) then mapped else 0) + fromBase 256 (net_IP n).
Proof.
  intros Hn. apply (number_units _ l); [by eapply cidr_is_ip|apply Hn].
Qed.

Lemma mask_order l o1 o2 : (l = 4 ∨ l = 16)%nat → 0 ≤ o1 ≤ 8 * Z.of_nat l → 0 ≤ o2 ≤ 8 * Z.of_nat l →
  bytesCompare (maskBytes l o1) (maskBytes l o2) ≠ Gt ↔ o1 ≤ o2.
Proof.
  intros Hl H1 H2. destruct (maskBytes_spec l o1 Hl H1) as (Hl1 & Hm1 & _ & Hb1).
  destruct (maskBytes_spec l o2 Hl H2) as (Hl2 & Hm2 & _ & Hb2).
  rewrite bytesCompare_spec, Hm1, Hm2 by (done || congruence). apply maskNumber_le; lia.
Qed.

(** Aligned intervals are nested as soon as the small one starts in the large one. *)
Lemma aligned_nested s1 s2 a b m : 0 < s2 → s1 = m * s2 → a `mod` s1 = 0 → b `mod` s2 = 0 →
  a ≤ b < a + s1 → b + s2 ≤ a + s1.
Proof.
  intros Hs -> Ha Hb Hin. assert (Hm : 0 < m * s2) by lia.
  apply Z.mod_divide in Ha as [p ->]; [|lia]. apply Z.mod_divide in Hb as [q ->]; [|lia].
  assert (q < (p + 1) * m) by nia. nia.
Qed.

(** The block [n2] is inside the block [n1]: same bytes, same family, and nested intervals. *)
Definition inside (n1 n2 : IPNet) (l1 l2 : nat) (o1 o2 : Z) : Prop :=
  l1 = l2 ∧ (isMapped (netFirst n1) ↔ isMapped (netFirst n2)) ∧
  netFirst n1 ≤ netFirst n2 ∧ netFirst n2 + blockSize l2 o2 ≤ netFirst n1 + blockSize l1 o1.

Lemma ContainsNet_inside n1 n2 l1 l2 o1 o2 : cidr n1 l1 o1 → cidr n2 l2 o2 →
  ContainsNet n1 n2 = true ↔ inside n1 n2 l1 l2 o1 o2.
Proof.
  intros H1 H2. unfold ContainsNet, inside.
  rewrite (cidr_length _ _ _ H1), (cidr_length _ _ _ H2), (cidr_mask _ _ _ H1), (cidr_mask _ _ _ H2).
  pose proof (NetContains_spec n1 l1 o1 _ H1 (cidr_is_ip _ _ _ H2)) as Hin. fold (netFirst n2) in Hin.
  destruct (decide (l1 ≠ l2)) as [|Hl%dec_stable]; [naive_solver|]. subst l2.
  pose proof (mask_order l1 o1 o2 (cidr_bytes _ _ _ H1) (cidr_ones _ _ _ H1) (cidr_ones _ _ _ H2)) as Hmask.
  pose proof (blockSize_pos l1 o1 (cidr_ones _ _ _ H1)) as Hs1.
  pose proof (blockSize_pos l1 o2 (cidr_ones _ _ _ H2)) as Hs2.
  assert (Hsize : o1 ≤ o2 ↔ blockSize l1 o2 ≤ blockSize l1 o1).
  { unfold blockSize. rewrite <-Z.pow_le_mono_r_iff; [lia|lia|]. pose proof (cidr_ones _ _ _ H1). lia. }
  assert (Hiff : ContainsNet n1 n2 = true ↔ NetContains n1 (net_IP n2) = true ∧ o1 ≤ o2).
  { unfold ContainsNet. rewrite (cidr_length _ _ _ H1), (cidr_length _ _ _ H2), decide_False by tauto.
    rewrite (cidr_mask _ _ _ H1), (cidr_mask _ _ _ H2), <-Hmask.
    destruct (NetContains n1 (net_IP n2)); cbn [negb]; [|naive_solver].
    destruct (bytesCompare _ _); naive_solver. }
  unfold ContainsNet in Hiff.
  rewrite (cidr_length _ _ _ H1), (cidr_length _ _ _ H2), (cidr_mask _ _ _ H1), (cidr_mask _ _ _ H2) in Hiff.
  rewrite decide_False in Hiff by tauto. rewrite Hiff, Hin, Hsize. split.
  - intros [[Hfam Hrange] Ho]. split_and!; [done|done|lia|].
    apply Hsize in Ho as Ho'.
    assert (Hmul : blockSize l1 o1 = 2 ^ (o2 - o1) * blockSize l1 o2).
    { unfold blockSize. rewrite <-Z.pow_add_r; [f_equal; lia|lia|]. pose proof (cidr_ones _ _ _ H2). lia. }
    rewrite !(netFirst_base _ l1 o1 H1), !(netFirst_base _ l1 o2 H2) in *.
    pose proof (aligned_nested _ _ _ _ _ Hs2 Hmul (cidr_aligned _ _ _ H1) (cidr_aligned _ _ _ H2)) as Hnest. lia.
  - intros (_ & Hfam & Hle & Hend). split; [|lia]. split; [done|lia].
Qed.

(** For blocks that were parsed, [ContainsNet] decides inclusion: same length, same family and
    nested intervals; and every address of the inner block is in the outer one. *)
Theorem ContainsNet_subset s1 ip1 n1 s2 ip2 n2 :
  ParseCIDR s1 = Some (ip1, n1) → ParseCIDR s2 = Some (ip2, n2) →
  ∃ l1 o1 l2 o2, cidr n1 l1 o1 ∧ cidr n2 l2 o2 ∧
    (ContainsNet n1 n2 = true ↔ inside n1 n2 l1 l2 o1 o2) ∧
    (ContainsNet n1 n2 = true → ∀ ip, is_ip ip → NetContains n2 ip = true → NetContains n1 ip = true).
Proof.
  intros (_ & l1 & o1 & H1 & _)%ParseCIDR_cidr (_ & l2 & o2 & H2 & _)%ParseCIDR_cidr.
  exists l1, o1, l2, o2. pose proof (ContainsNet_inside n1 n2 l1 l2 o1 o2 H1 H2) as Hiff.
  split_and!; [done|done|done|]. intros (_ & Hfam & Hle & Hend)%Hiff ip Hip.
  rewrite (NetContains_spec n1 l1 o1 ip H1 Hip), (NetContains_spec n2 l2 o2 ip H2 Hip).
  intros [Hfam2 Hrange]. split; [by rewrite Hfam|lia].
Qed.

(** ** The first and last available addresses *)

(** The [Addr] whose text is that of an address: of version 4 when it is mapped. *)
Definition addrOf (z : Z) : Addr := if decide (isMapped z) then V4 (z - mapped) else V6 z EmptyString.

Lemma addrOf_spec z : 0 ≤ z < 2 ^ 128 → valid (addrOf z) ∧ number (addrOf z) = z ∧ Zone (addrOf z) = EmptyString.
Proof. intros Hz. unfold addrOf, isMapped, mapped. case_decide; cbn; [unfold mapped|]; split_and!; done || lia. Qed.

Lemma ipNumber_bound ip : is_ip ip → 0 ≤ ipNumber ip < 2 ^ 128.
Proof.
  intros [Hb Hl]. pose proof (bytes_bound ip Hb) as Hbound. unfold ipNumber, mapped. case_decide as H4.
  - rewrite H4 in Hbound. lia.
  - assert (length ip = 16%nat) as Hl' by lia. by rewrite Hl' in Hbound.
Qed.

Lemma IPString_spec ip : is_ip ip → IPString ip = AddrString (addrOf (ipNumber ip)).
Proof.
  intros Hip. destruct (To4_spec ip Hip) as [H4 H16]. unfold IPString, addrOf. case_decide as Hm.
  - rewrite H4 by done. rewrite fromBase_toBase, Z.mod_small; [done| |lia].
    unfold isMapped in Hm. change (256 ^ Z.of_nat 4) with (2 ^ 32). lia.
  - destruct (H16 Hm) as [-> Hl]. unfold ipNumber. by rewrite Hl, decide_False.
Qed.

Lemma ParseAddr_IPString ip : is_ip ip → ParseAddr (IPString ip) = Some (addrOf (ipNumber ip)).
Proof.
  intros Hip. rewrite IPString_spec by done. apply parse_printed, addrOf_spec. by apply ipNumber_bound.
Qed.

Lemma ParseIP_text a : valid a → Zone a = EmptyString → ParseIP (AddrString a) = Some (toBase 256 16 (number a)).
Proof.
  intros Ha Hz. unfold ParseIP. rewrite parse_printed by done. cbn [mbind option_bind].
  rewrite decide_False; [done|]. by intros [].
Qed.

(** The printed address reads back as the same address, in 16 bytes. *)
Lemma ParseIP_IPString ip : is_ip ip → ParseIP (IPString ip) = Some (toBase 256 16 (ipNumber ip)).
Proof.
  intros Hip. destruct (addrOf_spec _ (ipNumber_bound ip Hip)) as (Hv & Hn & Hz).
  rewrite IPString_spec, ParseIP_text by done. by rewrite Hn.
Qed.

Lemma Next_addrOf z : 0 ≤ z < 2 ^ 128 → (2 | z) →
  ∃ a, Next (addrOf z) = Some a ∧ valid a ∧ Zone a = EmptyString ∧ number a = z + 1.
Proof.
  intros Hz [q ->]. unfold addrOf, isMapped, mapped. case_decide as Hm; cbn [Next].
  - rewrite decide_False by lia. eexists. split; [done|]. cbn. unfold mapped. split_and!; [lia..|done|lia].
  - rewrite decide_False by lia. eexists. split; [done|]. cbn. split_and!; [lia..|done|done].
Qed.

Lemma Prev_addrOf z : 0 ≤ z < 2 ^ 128 → (2 | z + 1) →
  ∃ a, Prev (addrOf z) = Some a ∧ valid a ∧ Zone a = EmptyString ∧ number a = z - 1.
Proof.
  intros Hz [q Hq]. unfold addrOf, isMapped, mapped. case_decide as Hm; cbn [Prev].
  - rewrite decide_False by lia. eexists. split; [done|]. cbn. unfold mapped. split_and!; [lia..|done|lia].
  - rewrite decide_False by lia. eexists. split; [done|]. cbn. split_and!; [lia..|done|done].
Qed.

Lemma lor_ones h b : 0 ≤ h → b `mod` 2 ^ h = 0 → Z.lor (Z.shiftl 1 h - 1) b = b + 2 ^ h - 1.
Proof.
  intros Hh Hb. rewrite Z.shiftl_1_l.
  assert (Hland : Z.land b (Z.ones h) = 0) by (by rewrite Z.land_ones).
  replace (2 ^ h - 1) with (Z.ones h) by (rewrite Z.ones_equiv; lia).
  rewrite Z.lor_comm, <-Z.lxor_lor, <-Z.add_nocarry_lxor by done. rewrite Z.ones_equiv. lia.
Qed.

(** The size of a block with room for addresses is a multiple of 4. *)
Lemma block_even l ones : 0 ≤ ones ≤ 8 * Z.of_nat l → ones < 8 * Z.of_nat l - 1 →
  ∃ q, 0 < q ∧ blockSize l ones = q * 4.
Proof.
  intros Ho Hroom. exists (2 ^ (8 * Z.of_nat l - ones - 2)). split; [apply Z.pow_pos_nonneg; lia|].
  unfold blockSize. change 4 with (2 ^ 2). rewrite <-Z.pow_add_r by lia. f_equal. lia.
Qed.

Lemma AddressRange_spec n l ones : cidr n l ones → ones < 8 * Z.of_nat l →
  AddressRange n = Some (net_IP n, toBase 256 l (fromBase 256 (net_IP n) + blockSize l ones - 1)).
Proof.
  intros Hn Ho. pose proof (cidr_bytes _ _ _ Hn) as Hl. pose proof (cidr_ones _ _ _ Hn) as Hones.
  destruct (maskBytes_spec l ones Hl Hones) as (Hml & _ & Hsize & _).
  unfold AddressRange, MaskSize, ipToInt. rewrite (cidr_mask _ _ _ Hn), Hsize, Hml, (cidr_length _ _ _ Hn).
  rewrite decide_False by lia.
  destruct Hl as [->| ->]; [rewrite decide_True by done|rewrite decide_False, decide_True by done];
    rewrite lor_ones by (done || lia || apply Hn); done.
Qed.

Lemma last_is_ip n l ones : cidr n l ones →
  let lastIP := toBase 256 l (fromBase 256 (net_IP n) + blockSize l ones - 1) in
  is_ip lastIP ∧ ipNumber lastIP = netFirst n + blockSize l ones - 1.
Proof.
  intros Hn lastIP. pose proof (cidr_bytes _ _ _ Hn) as Hl. pose proof (cidr_ones _ _ _ Hn) as Ho.
  pose proof (blockSize_pos l ones Ho) as Hs. pose proof (bytes_bound _ (cidr_ip _ _ _ Hn)) as Hb.
  rewrite (cidr_length _ _ _ Hn) in Hb.
  assert (Hip : is_ip lastIP).
  { split; [by apply toBase_digits|]. subst lastIP. rewrite toBase_length. exact Hl. }
  split; [done|]. rewrite (number_units lastIP l), (netFirst_base n l ones Hn) by (done || apply toBase_length).
  subst lastIP. rewrite fromBase_toBase by lia. rewrite pow256, Z.mod_small; [lia|].
  assert (Htop : 2 ^ (8 * Z.of_nat l) = 2 ^ ones * blockSize l ones).
  { unfold blockSize. rewrite <-Z.pow_add_r by lia. f_equal. lia. }
  pose proof (cidr_aligned _ _ _ Hn) as Ha. fold (blockSize l ones) in Ha.
  apply Z.mod_divide in Ha as [q Hq]; [|lia]. set (s := blockSize l ones) in *.
  rewrite Hq in Hb |- *. rewrite Htop in Hb |- *. assert (q < 2 ^ ones) by nia. nia.
Qed.

(** A block has fewer than four addresses exactly when its mask leaves fewer than two bits. *)
Lemma small_block l ones : 0 ≤ ones ≤ 8 * Z.of_nat l → 8 * Z.of_nat l - 1 ≤ ones ↔ blockSize l ones < 4.
Proof.
  intros Ho. split.
  - intros Hs. unfold blockSize. apply (Z.le_lt_trans _ (2 ^ 1)); [|done]. apply Z.pow_le_mono_r; lia.
  - intros Hlt. destruct (decide (8 * Z.of_nat l - 1 ≤ ones)); [done|]. exfalso.
    destruct (block_even l ones Ho) as (q & Hq & Heq); lia.
Qed.

Lemma netFirst_even n l ones : cidr n l ones → ones < 8 * Z.of_nat l - 1 →
  (2 | netFirst n) ∧ (2 | netFirst n + blockSize l ones).
Proof.
  intros Hn Hroom. pose proof (cidr_ones _ _ _ Hn) as Ho. pose proof (cidr_aligned _ _ _ Hn) as Ha.
  destruct (block_even l ones Ho Hroom) as (q & Hq & Hsize). fold (blockSize l ones) in Ha.
  apply Z.mod_divide in Ha as [p Hp]; [|lia]. rewrite (netFirst_base n l ones Hn), Hp, Hsize.
  assert (Hm : (2 | if decide (l = 4%nat) then mapped else 0)) by (case_decide; [by exists (65535 * 2 ^ 31)|by exists 0]).
  destruct Hm as [m ->]. split; [exists (m + p * q * 2)|exists (m + p * q * 2 + q * 2)]; lia.
Qed.

Lemma FirstAndLast_block n l ones : cidr n l ones → FirstAndLastAvailable n =
  if decide (blockSize l ones < 4) then (None, None)
  else (Some (toBase 256 16 (netFirst n + 1)), Some (toBase 256 16 (netFirst n + blockSize l ones - 2))).
Proof.
  intros Hn. pose proof (cidr_bytes _ _ _ Hn) as Hl. pose proof (cidr_ones _ _ _ Hn) as Ho.
  destruct (maskBytes_spec l ones Hl Ho) as (Hml & _ & Hsize & _).
  assert (Hmask : MaskSize (net_Mask n) = (ones, 8 * Z.of_nat l))
    by (unfold MaskSize; by rewrite (cidr_mask _ _ _ Hn), Hsize, Hml).
  unfold FirstAndLastAvailable. rewrite Hmask. pose proof (small_block l ones Ho) as Hsmall.
  case_decide as Hs; [by rewrite decide_True by by apply Hsmall|].
  rewrite decide_False by (by rewrite <-Hsmall). rewrite (AddressRange_spec n l ones Hn) by lia.
  destruct (last_is_ip n l ones Hn) as [Hlast Hlastn]. pose proof (cidr_is_ip n l ones Hn) as Hip.
  destruct (netFirst_even n l ones Hn ltac:(lia)) as [He1 He2].
  pose proof (ipNumber_bound _ Hip) as Hb1. pose proof (ipNumber_bound _ Hlast) as Hb2. rewrite Hlastn in Hb2.
  rewrite !ParseAddr_IPString by done. rewrite Hlastn. fold (netFirst n) in *.
  destruct (Next_addrOf (netFirst n) Hb1 He1) as (a & -> & Ha & Hza & Hna).
  destruct (Prev_addrOf _ Hb2) as (b & -> & Hbv & Hzb & Hnb); [by rewrite Z.sub_add|].
  cbn [optAddrString]. rewrite !ParseIP_text by done. rewrite Hna, Hnb. do 3 f_equal. lia.
Qed.

(** The first and last available addresses of a block are those after its first and before its
    last address, whatever the version and through the texts they are converted by; a block of fewer
    than four addresses has none. *)
Theorem FirstAndLastAvailable_spec s ip n : ParseCIDR s = Some (ip, n) → ∃ l ones, cidr n l ones ∧
  FirstAndLastAvailable n =
    if decide (blockSize l ones < 4) then (None, None)
    else (Some (toBase 256 16 (netFirst n + 1)), Some (toBase 256 16 (netFirst n + blockSize l ones - 2))).
Proof.
  intros (_ & l & ones & Hn & _)%ParseCIDR_cidr. exists l, ones. split; [done|by apply FirstAndLast_block].
Qed.

(** * The texts of addresses and blocks

    The bytes that printed addresses are made of, and the round trip of blocks: what is printed is
    read back as a block of the same addresses. *)

(** ** The bytes of printed addresses *)

(** A hexadecimal digit, a dot or a colon. *)
Definition lexical (c : ascii) : bool :=
  bool_decide (is_Some (hexValue c) ∨ c = "."%char ∨ c = ":"%char).

Definition lexical_text : string → bool := all_bytes lexical.

Lemma hexDigit_lexical d s : 0 ≤ d < 16 → lexical_text s = true → lexical_text (String (hexDigit d) s) = true.
Proof.
  intros Hd Hs. unfold lexical_text in *. cbn. rewrite Hs, andb_true_r. apply bool_decide_eq_true_2.
  left. by rewrite hexValue_digit.
Qed.

Lemma hex_lexical x : 0 ≤ x < 65536 → lexical_text (hex x) = true.
Proof.
  intros Hx. unfold hex.
  repeat case_decide; repeat (apply hexDigit_lexical; [Z.to_euclidean_division_equations; lia|]); done.
Qed.

Lemma groups_lexical gs : groups_of gs → lexical_text (join ":" (hex <$> gs)) = true.
Proof.
  intros Hgs. apply all_bytes_join; [done|]. apply Forall_fmap. eapply Forall_impl; [exact Hgs|].
  intros g Hg. by apply hex_lexical.
Qed.

Lemma to6_lexical n : lexical_text (to6 n) = true.
Proof.
  unfold to6. pose proof (toBase_digits 65536 ltac:(lia) 8 n) as Hgs.
  destruct (longestZeros 0 _ None) as [[start len]|]; [|by apply groups_lexical].
  unfold lexical_text. rewrite !all_bytes_app. apply andb_true_iff. split; [|apply andb_true_iff; split; [done|]];
    apply groups_lexical; [by apply Forall_take|by apply Forall_drop].
Qed.

Lemma decimal_lexical d : 0 ≤ d < 256 → lexical_text (FormatInt d) = true.
Proof.
  intros Hd. assert (Hall : forallb (λ d, lexical_text (FormatInt d)) (seqZ 0 256) = true) by (vm_compute; reflexivity).
  rewrite forallb_forall in Hall. apply Hall, list_elem_of_In, elem_of_seqZ. lia.
Qed.

Lemma dotted_lexical n : lexical_text (dotted n) = true.
Proof.
  apply all_bytes_join; [done|]. apply Forall_fmap. eapply Forall_impl; [apply (toBase_digits 256); lia|].
  intros d Hd. by apply decimal_lexical.
Qed.

Lemma AddrString_lexical a : Zone a = EmptyString → lexical_text (AddrString a) = true.
Proof.
  destruct a as [n|n zone]; cbn [Zone AddrString]; [intros _; apply dotted_lexical|intros ->].
  unfold withZone. rewrite decide_True, app_empty by done. destruct (Is4In6 n); [|apply to6_lexical].
  unfold lexical_text. rewrite all_bytes_app. apply andb_true_iff. split; [done|apply dotted_lexical].
Qed.

Lemma lexical_occurs c s : lexical c = false → lexical_text s = true → occurs c s = false.
Proof.
  intros Hc. induction s as [|c' s IH]; [done|]. cbn. intros [Hc' Hs]%andb_true_iff. rewrite IH by done.
  rewrite orb_false_r. apply bool_decide_eq_false. by intros ->; congruence.
Qed.

(** ** Printed blocks *)

Lemma small_numbers k : 0 ≤ k ≤ 128 → dtoi (FormatInt k) = Some k ∧ lexical_text (FormatInt k) = true.
Proof.
  intros Hk. assert (Hall : forallb (λ k, bool_decide (dtoi (FormatInt k) = Some k) && lexical_text (FormatInt k))
    (seqZ 0 129) = true) by (vm_compute; reflexivity).
  rewrite forallb_forall in Hall. specialize (Hall k). rewrite andb_true_iff, bool_decide_eq_true in Hall.
  apply Hall, list_elem_of_In, elem_of_seqZ. lia.
Qed.

Definition netText (a : Addr) (k : Z) : string := AddrString a +:+ String "/" (FormatInt k).

Lemma ParseCIDR_netText a k : valid a → Zone a = EmptyString → 0 ≤ k ≤ Z.of_nat (BitLen a) →
  ParseCIDR (netText a k) =
    Some (As16 a, mkIPNet (IPMask (As16 a) (CIDRMask k (BitLen a))) (CIDRMask k (BitLen a))).
Proof.
  intros Ha Hz Hk. unfold netText, ParseCIDR.
  rewrite Cut_app by (apply lexical_occurs; [done|by apply AddrString_lexical]).
  cbn [negb]. rewrite parse_printed by done. cbn [mbind option_bind]. rewrite decide_False by tauto.
  destruct (small_numbers k) as [-> _]; [destruct a; cbn in Hk; lia|]. cbn [mbind option_bind].
  by rewrite decide_False by lia.
Qed.

(** The address and the length that a block is printed with. *)
Lemma NetString_text n l ones : cidr n l ones → ∃ k, 0 ≤ k ≤ Z.of_nat (BitLen (addrOf (netFirst n))) ∧
  NetString n = netText (addrOf (netFirst n)) k ∧
  blockSize (BitLen (addrOf (netFirst n)) / 8) k = blockSize l ones ∧
  (netFirst n - (if decide (isMapped (netFirst n)) then mapped else 0)) `mod` blockSize l ones = 0.
Proof.
  intros Hn. pose proof (networkNumber_spec n l ones Hn) as Hnet. unfold NetString, addrOf, netText.
  case_decide as Hm; cbn [BitLen].
  - destruct Hnet as (k & Hk & -> & Hsize & Ha). exists k. change (32 / 8)%nat with 4%nat.
    destruct (maskBytes_spec 4 k ltac:(auto) ltac:(lia)) as (_ & _ & -> & _).
    split_and!; [lia|lia| |by rewrite Hsize|by rewrite Hsize].
    unfold IPString, To4. rewrite toBase_length, decide_True by done.
    rewrite fromBase_toBase, Z.mod_small; [done| |lia].
    unfold isMapped in Hm. change (256 ^ Z.of_nat 4) with (2 ^ 32). lia.
  - destruct Hnet as [-> ->]. exists ones. change (128 / 8)%nat with 16%nat.
    pose proof (cidr_ones _ _ _ Hn) as Ho. destruct (maskBytes_spec 16 ones ltac:(auto) Ho) as (_ & _ & -> & _).
    split_and!; [lia|lia| |done|].
    + rewrite IPString_spec by by eapply cidr_is_ip. unfold addrOf. by rewrite decide_False.
    + rewrite Z.sub_0_r, (netFirst_base n 16 ones Hn), decide_False by done. apply (cidr_aligned _ _ _ Hn).
Qed.

Lemma NetString_lexical n l ones : cidr n l ones → ∃ a k, Zone a = EmptyString ∧ 0 ≤ k ≤ 128 ∧
  NetString n = netText a k.
Proof.
  intros Hn. destruct (NetString_text n l ones Hn) as (k & Hk & -> & _). exists (addrOf (netFirst n)), k.
  split_and!; [by unfold addrOf; case_decide|lia| |done]. unfold addrOf in Hk. case_decide; cbn in Hk; lia.
Qed.

(** Two blocks of the same addresses. *)
Definition same_block (n n' : IPNet) : Prop :=
  ∃ l ones l' ones', cidr n l ones ∧ cidr n' l' ones' ∧ netFirst n' = netFirst n ∧
    blockSize l' ones' = blockSize l ones.

Lemma aligned_unique s a x : 0 < s → a `mod` s = 0 → x `mod` s = 0 → a ≤ x < a + s → a = x.
Proof.
  intros Hs Ha Hx Hin. apply Z.mod_divide in Ha as [p ->]; [|lia]. apply Z.mod_divide in Hx as [q ->]; [|lia].
  assert (p = q) by nia. by subst.
Qed.

Lemma NetString_same_block n l ones : cidr n l ones → ∃ ip' n', ParseCIDR (NetString n) = Some (ip', n') ∧
  ipNumber ip' = netFirst n ∧ same_block n n'.
Proof.
  intros Hn. destruct (NetString_text n l ones Hn) as (k & Hk & -> & Hsize & Hmod).
  pose proof (ipNumber_bound _ (cidr_is_ip _ _ _ Hn)) as Hb. fold (netFirst n) in Hb.
  destruct (addrOf_spec _ Hb) as (Hv & Hnum & Hz). rewrite ParseCIDR_netText by done.
  eexists _, _. split; [done|]. rewrite As16_number, Hnum by done. split; [done|].
  destruct (CIDR_of_addr _ _ Hv Hk) as [Hc Hin]. rewrite Hnum, Hsize in Hin.
  eexists _, _, _, _. split_and!; [exact Hn|exact Hc| |exact Hsize]. revert Hin.
  pose proof (cidr_aligned _ _ _ Hc) as Ha. fold (blockSize (BitLen (addrOf (netFirst n)) / 8) k) in Ha.
  rewrite Hsize in Ha. revert Ha. rewrite (netFirst_base _ _ _ Hc).
  set (base := fromBase 256 _). clearbody base. intros Ha Hin.
  pose proof (blockSize_pos l ones (cidr_ones _ _ _ Hn)) as Hs.
  pose proof (aligned_unique _ _ _ Hs Ha Hmod) as Heq. revert Hin Heq. unfold addrOf.
  destruct (decide (isMapped (netFirst n))); cbn [BitLen];
    [change (32 / 8)%nat with 4%nat; rewrite decide_True by done
    |change (128 / 8)%nat with 16%nat; rewrite decide_False by done]; lia.
Qed.
