(* ===== verification/NetworkChecks.v ===== *)
(** * The checks on addresses in requests ([internal/superphenix-controller/internal/kubeovn])

    What the requests on subnets, public addresses and load balancers may name: [subnet/utils.go] and
    [consts.go], [eip/validate.go], [load_balancer/spec.go] and [backends.go]. *)

From Stdlib Require Import Ascii.
From S2P Require Import Prelude Strings Strconv SpxId Labels ControllerQuota IP Addresses.

(** The errors of the operations on networks. *)
Inductive OvnError :=
  | BadLabel (e : LabelError)
  | BadMetadata (e : MetadataError)
  | KubeFailed (reason : StatusReason)
  | ErrNotFound (name : string)
  | ErrParseCIDR (cidr : string)
  | ErrNoGateway (cidr : string)
  | ErrNotAllowed (cidr : string)
  | ErrNotDual (cidr : string)
  | ErrInvalidIP (ip : string)
  | ErrHasEIP
  | ErrRouteTable (subnet : string)
  | ErrNextHop (ip : string)
  | ErrVpcNotEmpty
  | ErrNoTarget
  | ErrInvalidUUID
  | InternalIPNotInSubnet (ip : string)
  | InvalidSnat (cidr : string)
  | SnatNotInSubnet (cidr : string)
  | InvalidVIP
  | VIPNotAllowed
  | InvalidSelectors (e : LabelError)
  | InvalidEndpoint (ip : string)
  | EndpointNotInSubnet (ip : string)
  | SubnetRequired
  | SubnetNotFound (name : string)
  | SubnetNotInVpc (name : string)
  | VIPInUse (vip : string)
  | NotAttached (name : string)
  | SubnetCannotChange (name : string).

(** [apierrors.IsNotFound] and [apierrors.IsBadRequest] *)
Definition IsNotFound (e : OvnError) : bool :=
  match e with BadLabel (ResourceNotFound _) | KubeFailed NotFound | ErrNotFound _ => true | _ => false end.

Definition IsBadRequest (e : OvnError) : bool :=
  match e with
  | InternalIPNotInSubnet _ | InvalidSnat _ | SnatNotInSubnet _ | InvalidVIP | VIPNotAllowed
  | InvalidSelectors _ | InvalidEndpoint _ | EndpointNotInSubnet _ | SubnetRequired | SubnetNotFound _
  | SubnetNotInVpc _ | VIPInUse _ | NotAttached _ | SubnetCannotChange _ => true
  | _ => false
  end.

(** ** Subnets ([subnet/consts.go], [subnet/utils.go]) *)

Definition allowedCIDRStrs : list string :=
  ["10.0.0.0/8"; "172.16.0.0/12"; "192.168.0.0/16"; "224.0.0.0/4"; "240.0.0.0/4"; "fc00::/7"; "64:ff9b:1::/48"].

(** [init]; all of them parse. *)
Definition allowedCIDRs : list IPNet := omap (λ s, snd <$> ParseCIDR s) allowedCIDRStrs.

Definition isCIDRAllowed (network : IPNet) : bool :=
  existsb (λ allowedCIDR, ContainsNet allowedCIDR network) allowedCIDRs.

(** [ParseCIDR], the block only. *)
Definition parseNet (cidr : string) : result OvnError IPNet :=
  match ParseCIDR cidr with Some (_, n) => Ok n | None => Err (ErrParseCIDR cidr) end.

(** [FirstAndLastAvailable], with the check of the first address. *)
Definition firstAndLast (n : IPNet) : result OvnError (list Z * option (list Z)) :=
  match FirstAndLastAvailable n with
  | (Some first, last) => Ok (first, last)
  | (None, _) => Err (ErrNoGateway (NetString n))
  end.

Definition checkAllowed (n : IPNet) : result OvnError unit :=
  if isCIDRAllowed n then Ok tt else Err (ErrNotAllowed (NetString n)).

(** The text of a [net.IP] that may be nil. *)
Definition optIPString (ip : option (list Z)) : string :=
  match ip with Some ip => IPString ip | None => "<nil>" end.

(** The CIDR, the gateway and the address of the NAT gateway. *)
Definition parseNetworkInfo (protocol ipv4 ipv6 : string) : result OvnError (string * string * string) :=
  if decide (protocol = "Dual") then
    cidrV4 ← parseNet ipv4;
    cidrV6 ← parseNet ipv6;
    '(firstv4, lastv4) ← firstAndLast cidrV4;
    '(firstv6, _) ← firstAndLast cidrV6;
    _ ← checkAllowed cidrV4;
    _ ← checkAllowed cidrV6;
    Ok (NetString cidrV4 +:+ "," +:+ NetString cidrV6, IPString firstv4 +:+ "," +:+ IPString firstv6,
        optIPString lastv4)
  else
    cidrV ← parseNet (if decide (protocol = "IPv6") then ipv6 else ipv4);
    '(first, last) ← firstAndLast cidrV;
    _ ← checkAllowed cidrV;
    Ok (NetString cidrV, IPString first, optIPString last).

(** The gateway and the address of the NAT gateway of a stored CIDR. *)
Definition parseSubnetCIDR (protocol cidr : string) : result OvnError (string * string) :=
  if decide (protocol = "Dual") then
    match Split cidr ","%char with
    | ipv4 :: ipv6 :: _ =>
      cidrV4 ← parseNet ipv4;
      cidrV6 ← parseNet ipv6;
      '(firstv4, lastv4) ← firstAndLast cidrV4;
      '(firstv6, _) ← firstAndLast cidrV6;
      Ok (IPString firstv4 +:+ "," +:+ IPString firstv6, optIPString lastv4)
    | _ => Err (ErrNotDual cidr)
    end
  else
    cidrV ← parseNet cidr;
    '(first, last) ← firstAndLast cidrV;
    Ok (IPString first, if decide (protocol = "IPv6") then EmptyString else optIPString last).

Definition isAllowedSharedSubnet (annotations : gmap string string) (projectID : string) : bool :=
  IsSharedWithProject annotations projectID.

Definition checkDnsIP (dnsV4 dnsV6 : string) : result OvnError unit :=
  if decide (dnsV4 ≠ EmptyString ∧ ParseIP dnsV4 = None) then Err (ErrInvalidIP dnsV4)
  else if decide (dnsV6 ≠ EmptyString ∧ ParseIP dnsV6 = None) then Err (ErrInvalidIP dnsV6)
  else Ok tt.

(** ** Public addresses ([eip/validate.go]) *)

Record InfoDNAT := mkInfoDNAT {
  ExternalPort : string; InternalIP : string; InternalPort : string; Protocol : string }.

Definition checkIPInSubnet (subnetCIDR ip : string) : result OvnError unit :=
  let ip := TrimSpace ip in
  match IsIPInCIDR subnetCIDR ip with
  | Some true => Ok tt
  | _ => Err (InternalIPNotInSubnet ip)
  end.

Definition checkInternalIP (subnetCIDR ip : string) : result OvnError unit :=
  match IsIPInCIDR LoadBalancerVIPCIDR (TrimSpace ip) with
  | Some true => Ok tt
  | _ => checkIPInSubnet subnetCIDR ip
  end.

Definition checkCIDRInSubnet (subnetCIDR cidr : string) : result OvnError unit :=
  let cidr := TrimSpace cidr in
  if negb (Contains cidr "/") then checkIPInSubnet subnetCIDR cidr else
  match ParseCIDR cidr with
  | None => Err (InvalidSnat cidr)
  | Some (_, target) =>
    if existsb (λ block, match ParseCIDR (TrimSpace block) with
                         | None => false
                         | Some (_, subnetNet) => ContainsNet subnetNet target
                         end) (Split subnetCIDR ","%char)
    then Ok tt else Err (SnatNotInSubnet cidr)
  end.

(** A loop over the elements of a slice that stops at the first error. *)
Definition forM {A} (check : A → result OvnError unit) (l : list A) : result OvnError unit :=
  foldM (λ _ x, check x) tt l.

Definition validateInternalTargets (subnetCIDR internalIP : string) (snatCIDRs : list string)
    (dnatRules : list InfoDNAT) : result OvnError unit :=
  _ ← (if decide (internalIP ≠ EmptyString) then checkInternalIP subnetCIDR internalIP else Ok tt);
  _ ← forM (checkCIDRInSubnet subnetCIDR) snatCIDRs;
  forM (λ rule, checkInternalIP subnetCIDR (InternalIP rule)) dnatRules.

(** ** Load balancers ([load_balancer/spec.go], [load_balancer/backends.go]) *)

(** [strings.ToUpper] and [strings.ToLower] *)
Class CaseLib := { ToUpper : string → string; ToLower : string → string }.

Record LBPort := mkLBPort { lp_Port : Z; lp_TargetPort : Z; lp_Protocol : string }.

Record SwitchLBRulePort := mkSwitchLBRulePort {
  sp_Name : string; sp_Port : Z; sp_TargetPort : Z; sp_Protocol : string }.

Record SwitchLBRuleSpec := mkSwitchLBRuleSpec {
  Vip : string; SpecNamespace : string; Selector : list string; Endpoints : list string;
  SpecPorts : list SwitchLBRulePort }.

Definition checkVIP (vip : string) : result OvnError unit :=
  match IsIPInCIDR LoadBalancerVIPCIDR vip with
  | None => Err InvalidVIP
  | Some false => Err VIPNotAllowed
  | Some true => Ok tt
  end.

Definition checkEndpoint (endpoint : string) : result OvnError unit :=
  match ParseIP endpoint ≫= To4 with
  | None => Err (InvalidEndpoint endpoint)
  | Some _ => Ok tt
  end.

Definition rulePort {CL : CaseLib} (port : LBPort) : SwitchLBRulePort :=
  let protocol := ToUpper (lp_Protocol port) in
  mkSwitchLBRulePort
    (FormatInt (lp_Port port) +:+ "-" +:+ FormatInt (lp_TargetPort port) +:+ "-" +:+ ToLower protocol)
    (lp_Port port) (lp_TargetPort port) protocol.

(** The selectors are those of the map of the labels, in the order in which it is visited. *)
Definition buildSpec {CL : CaseLib} (vip namespace : string) (selectors endpoints : list string)
    (ports : list LBPort) : result OvnError SwitchLBRuleSpec :=
  _ ← checkVIP vip;
  '(selector, endpoints) ←
    (if decide (selectors ≠ []) then
       match ParseLabels selectors EmptyString with
       | Err e => Err (InvalidSelectors e)
       | Ok selector => Ok ((λ kv, kv.1 +:+ ":" +:+ kv.2) <$> map_to_list selector, [])
       end
     else
       _ ← forM checkEndpoint endpoints; Ok ([], endpoints));
  Ok (mkSwitchLBRuleSpec vip namespace selector endpoints (rulePort <$> ports)).

Definition checkEndpointsInSubnet (cidrBlock : string) (endpoints : list string) : result OvnError unit :=
  forM (λ endpoint, match IsIPInCIDR cidrBlock endpoint with
                    | Some true => Ok tt
                    | _ => Err (EndpointNotInSubnet endpoint)
                    end) endpoints.

Example network_vectors :
  parseNetworkInfo "Dual" "10.1.0.7/16" "fd00::9/64" =
    Ok ("10.1.0.0/16,fd00::/64", "10.1.0.1,fd00::1", "10.1.255.254") ∧
  parseNetworkInfo "IPv6" EmptyString "fd00::/126" = Ok ("fd00::/126", "fd00::1", "fd00::2") ∧
  parseNetworkInfo "IPv4" "10.0.0.0/7" EmptyString = Err (ErrNotAllowed "10.0.0.0/7") ∧
  parseNetworkInfo "IPv4" "10.0.0.8/31" EmptyString = Err (ErrNoGateway "10.0.0.8/31") ∧
  parseNetworkInfo "IPv4" "8.8.8.0/24" EmptyString = Err (ErrNotAllowed "8.8.8.0/24") ∧
  parseSubnetCIDR "IPv6" "fd00::/126" = Ok ("fd00::1", EmptyString) ∧
  length allowedCIDRs = length allowedCIDRStrs.
Proof. vm_compute. done. Qed.

Example target_vectors :
  validateInternalTargets "10.1.0.0/16,fd00::/64" " 10.1.2.3" ["10.1.4.0/24"; "10.1.1.1"; "fd00::/96"]
    [mkInfoDNAT "80" "198.18.0.4" "80" "tcp"] = Ok tt ∧
  checkCIDRInSubnet "10.1.0.0/16" "10.0.0.0/8" = Err (SnatNotInSubnet "10.0.0.0/8") ∧
  checkInternalIP "10.1.0.0/16" "10.2.0.1" = Err (InternalIPNotInSubnet "10.2.0.1") ∧
  checkVIP "198.19.0.1" = Err VIPNotAllowed ∧ checkVIP "198.18" = Err InvalidVIP ∧ checkVIP "198.18.7.7" = Ok tt.
Proof. vm_compute. done. Qed.
