(* ===== verification/NetworkCheckTheorems.v ===== *)
(** * The theorems of the checks on addresses

    The blocks of a subnet are inside the allowed ranges, its gateway and NAT address are their
    second and last but one addresses, and both are read back from the stored CIDR; the targets of a
    public address are addresses of the subnet or of the load balancers. *)

From Stdlib Require Import Ascii.
From S2P Require Import Prelude Strings Strconv SpxId Labels ControllerQuota IP IPText Addresses AddressTheorems NetworkChecks.
(** ** Blocks of subnets *)

(** A block with room for the gateway, inside an allowed range. *)
Definition allowed_block (n : IPNet) : Prop := ∃ l ones, cidr n l ones ∧ 4 ≤ blockSize l ones ∧
  ∃ s ip a, s ∈ allowedCIDRStrs ∧ ParseCIDR s = Some (ip, a) ∧ ∃ l' ones', cidr a l' ones' ∧
    inside a n l' l ones' ones.

(** The addresses after the first and before the last, as texts. *)
Definition secondIP (n : IPNet) : string := IPString (toBase 256 16 (netFirst n + 1)).
Definition penultimateIP (n : IPNet) (size : Z) : string := IPString (toBase 256 16 (netFirst n + size - 2)).

(** What is known of a block and of its two addresses. *)
Definition usable_block (n : IPNet) (first : list Z) (last : option (list Z)) : Prop :=
  ∃ l ones, cidr n l ones ∧ 4 ≤ blockSize l ones ∧ first = toBase 256 16 (netFirst n + 1) ∧
    last = Some (toBase 256 16 (netFirst n + blockSize l ones - 2)).

Lemma parseNet_Ok s n : parseNet s = Ok n → ∃ ip, ParseCIDR s = Some (ip, n).
Proof. unfold parseNet. destruct (ParseCIDR s) as [[ip n']|]; [|done]. intros [= ->]. by exists ip. Qed.

Lemma firstAndLast_Ok s n first last : parseNet s = Ok n → firstAndLast n = Ok (first, last) →
  usable_block n first last.
Proof.
  intros (ip & Hs)%parseNet_Ok. apply ParseCIDR_cidr in Hs as (_ & l & ones & Hn & _).
  unfold firstAndLast. rewrite (FirstAndLast_block n l ones Hn). case_decide as Hsize; [done|].
  intros [= <- <-]. exists l, ones. split_and!; [done|lia|done|done].
Qed.

Lemma isCIDRAllowed_spec n : isCIDRAllowed n = true ↔
  ∃ s ip a, s ∈ allowedCIDRStrs ∧ ParseCIDR s = Some (ip, a) ∧ ContainsNet a n = true.
Proof.
  unfold isCIDRAllowed. rewrite existsb_exists. split.
  - intros (a & (s & Hs & Ha)%list_elem_of_In%list_elem_of_omap & Hc).
    destruct (ParseCIDR s) as [[ip a']|] eqn:Hp; [|done]. injection Ha as <-. by exists s, ip, a'.
  - intros (s & ip & a & Hs & Hp & Hc). exists a. split; [|done].
    apply list_elem_of_In, list_elem_of_omap. exists s. by rewrite Hp.
Qed.

Lemma checkAllowed_Ok n first last u : usable_block n first last → checkAllowed n = Ok u → allowed_block n.
Proof.
  intros (l & ones & Hn & Hsize & _). unfold checkAllowed. destruct (isCIDRAllowed n) eqn:Ha; [intros _|done].
  exists l, ones. split; [done|]. split; [done|]. apply isCIDRAllowed_spec in Ha as (s & ip & a & Hs & Hp & Hc).
  exists s, ip, a. split; [done|]. split; [done|]. apply ParseCIDR_cidr in Hp as (_ & l' & ones' & Ha & _).
  exists l', ones'. split; [done|]. by apply (ContainsNet_inside a n l' l ones' ones).
Qed.

(** A success of [parseNetworkInfo], taken apart. *)
Definition accepted (s : string) (n : IPNet) (first : list Z) (last : option (list Z)) : Prop :=
  parseNet s = Ok n ∧ firstAndLast n = Ok (first, last) ∧ usable_block n first last ∧ allowed_block n.

Lemma parseNetworkInfo_Ok protocol ipv4 ipv6 c g lan :
  parseNetworkInfo protocol ipv4 ipv6 = Ok (c, g, lan) →
  if decide (protocol = "Dual") then
    ∃ n4 f4 l4 n6 f6 l6, accepted ipv4 n4 f4 l4 ∧ accepted ipv6 n6 f6 l6 ∧
      c = NetString n4 +:+ "," +:+ NetString n6 ∧ g = IPString f4 +:+ "," +:+ IPString f6 ∧ lan = optIPString l4
  else ∃ n f last, accepted (if decide (protocol = "IPv6") then ipv6 else ipv4) n f last ∧
      c = NetString n ∧ g = IPString f ∧ lan = optIPString last.
Proof.
  unfold parseNetworkInfo. case_decide.
  - intros (n4 & H4 & (n6 & H6 & ([f4 l4] & Hf4 & ([f6 l6] & Hf6 & (u4 & Ha4 & (u6 & Ha6 &
      Heq)%result_bind_Ok)%result_bind_Ok)%result_bind_Ok)%result_bind_Ok)%result_bind_Ok)%result_bind_Ok.
    injection Heq as <- <- <-. pose proof (firstAndLast_Ok _ _ _ _ H4 Hf4). pose proof (firstAndLast_Ok _ _ _ _ H6 Hf6).
    exists n4, f4, l4, n6, f6, l6. unfold accepted. split_and!; eauto using checkAllowed_Ok.
  - intros (n & Hp & ([f l] & Hf & (u & Ha & Heq)%result_bind_Ok)%result_bind_Ok)%result_bind_Ok.
    injection Heq as <- <- <-. pose proof (firstAndLast_Ok _ _ _ _ Hp Hf).
    exists n, f, l. unfold accepted. split_and!; eauto using checkAllowed_Ok.
Qed.

(** ** Membership of the two addresses *)

Lemma toBase_is_ip z : is_ip (toBase 256 16 z).
Proof. split; [by apply toBase_digits|right; apply toBase_length]. Qed.

Lemma toBase_number z : 0 ≤ z < 2 ^ 128 → ipNumber (toBase 256 16 z) = z.
Proof. intros Hz. unfold ipNumber. rewrite toBase_length, decide_False by done. by apply As16_fromBase. Qed.

(** A block is inside the mapped range, or has no address of it but its last ones. *)
Lemma block_family n l ones z : cidr n l ones → isMapped (netFirst n) →
  netFirst n ≤ z < netFirst n + blockSize l ones → isMapped z.
Proof.
  intros Hn Hm Hz. pose proof (networkNumber_spec n l ones Hn) as Hnet. rewrite decide_True in Hnet by done.
  destruct Hnet as (k & Hk & _ & Hsize & Hmod). rewrite Hsize in Hz.
  unfold isMapped in *. unfold blockSize in *. change (8 * Z.of_nat 4) with 32 in *.
  assert (Hpow : 2 ^ 32 = 2 ^ k * 2 ^ (32 - k)) by (rewrite <-Z.pow_add_r by lia; f_equal; lia).
  pose proof (aligned_nested (2 ^ 32) (2 ^ (32 - k)) 0 (netFirst n - mapped) (2 ^ k)) as Hnest.
  assert (0 < 2 ^ (32 - k)) by (apply Z.pow_pos_nonneg; lia).
  specialize (Hnest ltac:(done) Hpow ltac:(done) Hmod ltac:(lia)). lia.
Qed.

(** The number of addresses of a block. *)
Definition netSize (n : IPNet) : Z := let '(ones, bits) := MaskSize (net_Mask n) in 2 ^ (bits - ones).

Lemma netSize_cidr n l ones : cidr n l ones → netSize n = blockSize l ones.
Proof.
  intros Hn. destruct (maskBytes_spec l ones (cidr_bytes _ _ _ Hn) (cidr_ones _ _ _ Hn)) as (Hml & _ & Hsize & _).
  unfold netSize, MaskSize. by rewrite (cidr_mask _ _ _ Hn), Hsize, Hml.
Qed.

(** The allowed ranges of version 6 are above the mapped addresses. *)
Lemma allowed_ranges s ip a : s ∈ allowedCIDRStrs → ParseCIDR s = Some (ip, a) →
  isMapped (netFirst a) ∨ mapped + 2 ^ 32 ≤ netFirst a.
Proof.
  intros Hs Hp. assert (Hall : forallb (λ s, match ParseCIDR s with
    | Some (_, a) => bool_decide (isMapped (netFirst a)) || (mapped + 2 ^ 32 <=? netFirst a)
    | None => true end) allowedCIDRStrs = true) by (vm_compute; reflexivity).
  rewrite forallb_forall in Hall. specialize (Hall s). rewrite Hp in Hall.
  apply list_elem_of_In, Hall, orb_true_iff in Hs as [Hm%bool_decide_eq_true|Hle%Z.leb_le]; tauto.
Qed.

Lemma allowed_contains n z : allowed_block n → netFirst n ≤ z < netFirst n + netSize n →
  0 ≤ z < 2 ^ 128 → NetContains n (toBase 256 16 z) = true.
Proof.
  intros (l & ones & Hn & Hsize & s & ip & a & Hs & Hp & l' & ones' & Ha & _ & Hfam & Hle & Hend) Hz Hb.
  rewrite (netSize_cidr n l ones Hn) in Hz.
  rewrite (NetContains_spec n l ones _ Hn (toBase_is_ip z)), toBase_number by done. split; [|done].
  split; [intros Hm; by apply (block_family n l ones z Hn Hm)|]. intros Hm. apply Hfam.
  destruct (allowed_ranges s ip a Hs Hp) as [|Habove]; [done|]. unfold isMapped in Hm. lia.
Qed.

Lemma usable_range n first last : usable_block n first last → 4 ≤ netSize n ∧ 0 ≤ netFirst n ∧
  netFirst n + netSize n ≤ 2 ^ 128 ∧ first = toBase 256 16 (netFirst n + 1) ∧
  last = Some (toBase 256 16 (netFirst n + netSize n - 2)).
Proof.
  intros (l & ones & Hn & Hsize & -> & ->). rewrite (netSize_cidr n l ones Hn).
  pose proof (ipNumber_bound _ (cidr_is_ip _ _ _ Hn)) as Hb. destruct (last_is_ip n l ones Hn) as [Hip Heq].
  pose proof (ipNumber_bound _ Hip) as Hb'. rewrite Heq in Hb'. fold (netFirst n) in Hb. split_and!; done || lia.
Qed.

(** What a subnet may use: the two addresses are in the block. *)
Definition good_block (n : IPNet) : Prop := allowed_block n ∧ 4 ≤ netSize n ∧
  NetContains n (toBase 256 16 (netFirst n + 1)) = true ∧
  NetContains n (toBase 256 16 (netFirst n + netSize n - 2)) = true.

Lemma accepted_good s n first last : accepted s n first last → good_block n ∧ parseNet s = Ok n ∧
  IPString first = secondIP n ∧ optIPString last = penultimateIP n (netSize n).
Proof.
  intros (Hs & _ & (Hsize & Hlo & Hhi & -> & ->)%usable_range & Ha). split; [|done].
  split_and!; [done|done|apply allowed_contains; [done|lia|lia]..].
Qed.

(** C21: A subnet is only accepted with blocks that its request names, inside the allowed ranges and
    with at least four addresses; the gateways are the addresses after the first ones and the address
    of the NAT gateway the one before the last of the first block, all of them in their block. *)
Theorem parseNetworkInfo_sound protocol ipv4 ipv6 c gateway lanIP :
  parseNetworkInfo protocol ipv4 ipv6 = Ok (c, gateway, lanIP) →
  ∃ nets, (parseNet <$> (if decide (protocol = "Dual") then [ipv4; ipv6]
                         else [if decide (protocol = "IPv6") then ipv6 else ipv4])) = Ok <$> nets ∧
    Forall good_block nets ∧
    c = join "," (NetString <$> nets) ∧ gateway = join "," (secondIP <$> nets) ∧
    head ((λ n, penultimateIP n (netSize n)) <$> nets) = Some lanIP.
Proof.
  intros Hok%parseNetworkInfo_Ok. case_decide.
  - destruct Hok as (n4 & f4 & l4 & n6 & f6 & l6 & (Hg4 & Hp4 & Hf4 & Hl4)%accepted_good &
      (Hg6 & Hp6 & Hf6 & _)%accepted_good & -> & -> & ->).
    exists [n4; n6]. rewrite Hf4, Hf6, Hl4. cbn. rewrite Hp4, Hp6. split_and!; [done|by rewrite !Forall_cons, Forall_nil|done..].
  - destruct Hok as (n & f & last & (Hg & Hp & Hf & Hl)%accepted_good & -> & -> & ->).
    exists [n]. rewrite Hf, Hl. cbn. rewrite Hp. split_and!; [done|by rewrite !Forall_cons, Forall_nil|done..].
Qed.

(** ** Reading the stored CIDR *)

Lemma NetString_no_comma n l ones : cidr n l ones → occurs ","%char (NetString n) = false.
Proof.
  intros (a & k & Ha & Hk & ->)%NetString_lexical. unfold netText. rewrite occurs_app. cbn [occurs].
  rewrite !lexical_occurs by (done || by apply AddrString_lexical || by apply small_numbers). done.
Qed.

Lemma usable_reread n first last : usable_block n first last → ∃ n', parseNet (NetString n) = Ok n' ∧
  firstAndLast n' = Ok (first, last).
Proof.
  intros (l & ones & Hn & Hsize & -> & ->).
  destruct (NetString_same_block n l ones Hn) as (ip' & n' & Hp & _ & l0 & ones0 & l' & ones' & Hn0 & Hn' & Hfirst & Hs).
  exists n'. unfold parseNet, firstAndLast. rewrite Hp, (FirstAndLast_block n' l' ones' Hn'). split; [done|].
  rewrite Hs, <-(netSize_cidr n l0 ones0 Hn0), (netSize_cidr n l ones Hn), Hfirst. by rewrite decide_False by lia.
Qed.

Lemma IPString_not_empty ip : is_ip ip → IPString ip ≠ EmptyString.
Proof. intros Hip Heq. pose proof (ParseAddr_IPString ip Hip) as Hp. rewrite Heq in Hp. discriminate Hp. Qed.

Lemma usable_last n first last : usable_block n first last → optIPString last ≠ EmptyString.
Proof. intros (l & ones & _ & _ & _ & ->). cbn. apply IPString_not_empty, toBase_is_ip. Qed.

Lemma usable_no_comma n first last : usable_block n first last → occurs ","%char (NetString n) = false.
Proof. intros (l & ones & Hn & _). by eapply NetString_no_comma. Qed.

(** The gateway and the NAT address of an accepted subnet are read back from the CIDR that is
    stored, except that a subnet of protocol IPv6 loses its NAT address. *)
Theorem parseSubnetCIDR_roundtrip protocol ipv4 ipv6 c gateway lanIP :
  parseNetworkInfo protocol ipv4 ipv6 = Ok (c, gateway, lanIP) →
  parseSubnetCIDR protocol c = Ok (gateway, if decide (protocol = "IPv6") then EmptyString else lanIP) ∧
  lanIP ≠ EmptyString.
Proof.
  intros Hok%parseNetworkInfo_Ok. unfold parseSubnetCIDR. case_decide.
  - destruct Hok as (n4 & f4 & l4 & n6 & f6 & l6 & (_ & _ & Hu4 & _) & (_ & _ & Hu6 & _) & -> & -> & ->).
    destruct (usable_reread _ _ _ Hu4) as (n4' & Hp4 & Hf4). destruct (usable_reread _ _ _ Hu6) as (n6' & Hp6 & Hf6).
    change ("," +:+ NetString n6) with (String "," (NetString n6)).
    rewrite Split_app by by eapply usable_no_comma. rewrite Split_no_sep by by eapply usable_no_comma.
    rewrite Hp4, Hp6. cbn [mbind result_bind]. rewrite Hf4, Hf6. cbn [mbind result_bind].
    rewrite decide_False by congruence. split; [done|by eapply usable_last].
  - destruct Hok as (n & f & last & (_ & _ & Hu & _) & -> & -> & ->).
    destruct (usable_reread _ _ _ Hu) as (n' & -> & Hf). cbn [mbind result_bind]. rewrite Hf. cbn [mbind result_bind].
    split; [done|by eapply usable_last].
Qed.

(** ** Targets of public addresses *)

(** The blocks of a CIDR that may have several. *)
Fixpoint parseBlocks (l : list string) : option (list IPNet) :=
  match l with
  | [] => Some []
  | b :: l =>
    if decide (TrimSpace b = EmptyString) then parseBlocks l else
    '(_, n) ← ParseCIDR (TrimSpace b); nets ← parseBlocks l; Some (n :: nets)
  end.

Definition blocksOf (c : string) : option (list IPNet) := parseBlocks (Split c ","%char).

Definition in_blocks (nets : list IPNet) (ip : list Z) : Prop := Exists (λ n, NetContains n ip = true) nets.

Lemma anyContains_spec l nets ip : parseBlocks l = Some nets →
  anyContains l ip = Some (existsb (λ n, NetContains n ip) nets).
Proof.
  revert nets. induction l as [|b l IH]; intros nets; cbn [parseBlocks anyContains]; [by intros [= <-]|].
  case_decide; [apply IH|]. destruct (ParseCIDR (TrimSpace b)) as [[ip' n]|]; [|done]. cbn [mbind option_bind].
  destruct (parseBlocks l) as [nets'|]; [|done]. cbn [mbind option_bind]. intros [= <-]. cbn [existsb].
  destruct (NetContains n ip); [done|]. by apply IH.
Qed.

Lemma existsb_Exists {A} (f : A → bool) l : existsb f l = true ↔ Exists (λ x, f x = true) l.
Proof.
  rewrite existsb_exists, Exists_exists. split; intros (x & Hx & Hf); exists x; split; try done;
    by apply list_elem_of_In.
Qed.

(** The text is an address of the blocks. *)
Definition text_in (nets : list IPNet) (s : string) : Prop := ∃ ip, ParseIP s = Some ip ∧ in_blocks nets ip.

Lemma IsIPInCIDR_spec c nets s : blocksOf c = Some nets → IsIPInCIDR c s = Some true ↔ text_in nets s.
Proof.
  intros Hc. unfold IsIPInCIDR, text_in. destruct (ParseIP s) as [ip|]; [|naive_solver].
  rewrite (anyContains_spec _ nets) by done. unfold in_blocks.
  pose proof (existsb_Exists (λ n, NetContains n ip) nets) as Hex. cbv beta in Hex. split.
  - intros [= Hin]. exists ip. tauto.
  - intros (? & [= <-] & Hin%Hex). by f_equal.
Qed.

(** A target of one address: of the subnet or of the load balancers. *)
Definition internal_ok (nets : list IPNet) (s : string) : Prop :=
  IsIPInCIDR LoadBalancerVIPCIDR (TrimSpace s) = Some true ∨ text_in nets (TrimSpace s).

(** A target of a block, or of one address when it has no length. *)
Definition snat_ok (nets : list IPNet) (s : string) : Prop :=
  let s := TrimSpace s in
  if Contains s "/" then ∃ ip t, ParseCIDR s = Some (ip, t) ∧ Exists (λ n, ContainsNet n t = true) nets
  else text_in nets (TrimSpace s).

Lemma forM_Ok {A} (check : A → result OvnError unit) l :
  forM check l = Ok tt ↔ Forall (λ x, check x = Ok tt) l.
Proof.
  unfold forM. induction l as [|x l IH]; cbn [foldM]; [by rewrite Forall_nil|].
  rewrite Forall_cons. destruct (check x) as [[]|e]; cbn [mbind result_bind]; naive_solver.
Qed.

Section targets.
Context (c : string) (nets : list IPNet) (Hc : blocksOf c = Some nets).

Lemma checkIPInSubnet_Ok s : checkIPInSubnet c s = Ok tt ↔ text_in nets (TrimSpace s).
Proof.
  rewrite <-(IsIPInCIDR_spec c) by done. unfold checkIPInSubnet. cbv zeta.
  destruct (IsIPInCIDR c (TrimSpace s)) as [[|]|]; naive_solver.
Qed.

Lemma checkInternalIP_Ok s : checkInternalIP c s = Ok tt ↔ internal_ok nets s.
Proof.
  unfold checkInternalIP, internal_ok. rewrite <-checkIPInSubnet_Ok.
  destruct (IsIPInCIDR LoadBalancerVIPCIDR (TrimSpace s)) as [[|]|]; naive_solver.
Qed.

(** The loop skips the blocks that do not parse: the empty ones. *)
Lemma existsb_blocks l nets' (f : IPNet → bool) : parseBlocks l = Some nets' →
  existsb (λ block, match ParseCIDR (TrimSpace block) with None => false | Some (_, n) => f n end) l =
  existsb f nets'.
Proof.
  revert nets'. induction l as [|b l IH]; intros nets'; cbn [parseBlocks existsb]; [by intros [= <-]|].
  case_decide as Hb; [rewrite Hb; apply IH|].
  destruct (ParseCIDR (TrimSpace b)) as [[ip n]|]; [|done]. cbn [mbind option_bind].
  destruct (parseBlocks l) as [nets''|]; [|done]. cbn [mbind option_bind]. intros [= <-]. cbn [existsb].
  by rewrite (IH nets'').
Qed.

Lemma checkCIDRInSubnet_Ok s : checkCIDRInSubnet c s = Ok tt ↔ snat_ok nets s.
Proof.
  unfold checkCIDRInSubnet, snat_ok. cbv zeta. destruct (Contains (TrimSpace s) "/"); cbn [negb];
    [|apply checkIPInSubnet_Ok].
  destruct (ParseCIDR (TrimSpace s)) as [[ip t]|]; [|naive_solver].
  rewrite (existsb_blocks _ nets (λ n, ContainsNet n t)) by done.
  pose proof (existsb_Exists (λ n, ContainsNet n t) nets) as Hex.
  destruct (existsb (λ n, ContainsNet n t) nets); naive_solver.
Qed.
End targets.

(** The addresses that a target of a rule stands for. *)
Definition targeted (s : string) (ip : list Z) : Prop :=
  let s := TrimSpace s in
  if Contains s "/" then ∃ ip' t, ParseCIDR s = Some (ip', t) ∧ NetContains t ip = true
  else ParseIP (TrimSpace s) = Some ip.

Lemma blocks_cidr l nets : parseBlocks l = Some nets → Forall (λ n, ∃ l ones, cidr n l ones) nets.
Proof.
  revert nets. induction l as [|b l IH]; intros nets; cbn [parseBlocks]; [by intros [= <-]|].
  case_decide; [apply IH|]. destruct (ParseCIDR (TrimSpace b)) as [[ip n]|] eqn:Hp; [|done]. cbn [mbind option_bind].
  destruct (parseBlocks l) as [nets'|]; [|done]. cbn [mbind option_bind]. intros [= <-].
  constructor; [|by apply IH]. apply ParseCIDR_cidr in Hp as (_ & l' & ones & Hn & _). eauto.
Qed.

Lemma ContainsNet_mono n1 n2 l1 l2 o1 o2 ip : cidr n1 l1 o1 → cidr n2 l2 o2 → is_ip ip →
  ContainsNet n1 n2 = true → NetContains n2 ip = true → NetContains n1 ip = true.
Proof.
  intros H1 H2 Hip (_ & Hfam & Hle & Hend)%(ContainsNet_inside n1 n2 l1 l2 o1 o2 H1 H2).
  rewrite (NetContains_spec n1 l1 o1 ip H1 Hip), (NetContains_spec n2 l2 o2 ip H2 Hip).
  intros [Hfam2 Hrange]. split; [by rewrite Hfam|lia].
Qed.

Lemma snat_targets c nets s ip : blocksOf c = Some nets → snat_ok nets s → is_ip ip → targeted s ip →
  in_blocks nets ip.
Proof.
  intros Hc%blocks_cidr. unfold snat_ok, targeted. cbv zeta. destruct (Contains (TrimSpace s) "/").
  - intros (ip1 & t & Hp & Hex) Hip (ip2 & t' & Hp' & Hin). rewrite Hp in Hp'. injection Hp' as <- <-.
    apply ParseCIDR_cidr in Hp as (_ & lt & ot & Ht & _). unfold in_blocks.
    apply Exists_exists in Hex as (n & Hn & Hcont). apply Exists_exists. exists n. split; [done|].
    rewrite Forall_forall in Hc. destruct (Hc n Hn) as (l & o & Hcn). by apply (ContainsNet_mono n t l lt o ot).
  - intros (ip1 & Hp & Hin) _ Hp'. congruence.
Qed.

Lemma validateInternalTargets_Ok c nets internalIP snats dnats : blocksOf c = Some nets →
  validateInternalTargets c internalIP snats dnats = Ok tt ↔
    (internalIP ≠ EmptyString → internal_ok nets internalIP) ∧ Forall (snat_ok nets) snats ∧
    Forall (λ rule, internal_ok nets (InternalIP rule)) dnats.
Proof.
  intros Hc. unfold validateInternalTargets.
  assert (Hs : Forall (snat_ok nets) snats ↔ forM (checkCIDRInSubnet c) snats = Ok tt).
  { rewrite forM_Ok. apply Forall_iff. intros s. symmetry. by apply checkCIDRInSubnet_Ok. }
  assert (Hd : Forall (λ rule, internal_ok nets (InternalIP rule)) dnats ↔
    forM (λ rule, checkInternalIP c (InternalIP rule)) dnats = Ok tt).
  { rewrite forM_Ok. apply Forall_iff. intros s. symmetry. by apply checkInternalIP_Ok. }
  rewrite Hs, Hd. case_decide as Hip.
  - rewrite <-(checkInternalIP_Ok c) by done.
    destruct (checkInternalIP c internalIP) as [[]|], (forM (checkCIDRInSubnet c) snats) as [[]|]; naive_solver.
  - destruct (forM (checkCIDRInSubnet c) snats) as [[]|]; cbn [mbind result_bind]; naive_solver.
Qed.

(** On a subnet with a well-formed CIDR, the targets of a public address are accepted exactly
    when each internal address is one of the subnet or of the load balancers, and each source block
    is inside a block of the subnet; then every address that is translated is one of the subnet. *)
Theorem validateInternalTargets_spec c nets internalIP snats dnats : blocksOf c = Some nets →
  (validateInternalTargets c internalIP snats dnats = Ok tt ↔
    (internalIP ≠ EmptyString → internal_ok nets internalIP) ∧ Forall (snat_ok nets) snats ∧
    Forall (λ rule, internal_ok nets (InternalIP rule)) dnats) ∧
  (validateInternalTargets c internalIP snats dnats = Ok tt →
    ∀ s ip, s ∈ snats → is_ip ip → targeted s ip → in_blocks nets ip).
Proof.
  intros Hc. split; [by apply validateInternalTargets_Ok|].
  intros (_ & Hs & _)%(validateInternalTargets_Ok c nets) s ip Hin; [|done]. rewrite Forall_forall in Hs.
  by apply (snat_targets c), Hs.
Qed.
