(* ===== verification/KubeOvn.v ===== *)
(** * The objects and the clients of the networks ([internal/superphenix-controller/internal/kubeovn])

    The Kube-OVN objects that the controller reads and writes, with the fields it uses; the API server
    and the informers as a class; and the monad in which the operations call them. A call of [Get]
    returns an object, the zero one on an error, and the error: some callers only look at the first. *)

From S2P Require Import Prelude SpxId Labels ControllerQuota NetworkChecks.

(** ** Objects ([github.com/kubeovn/kube-ovn/pkg/apis/kubeovn/v1]) *)

Record Subnet := mkSubnet {
  s_Name : string; s_Labels : gmap string string; s_Annotations : gmap string string;
  s_Vpc : string; s_Protocol : string; s_RouteTable : string; s_Namespaces : list string;
  s_CIDRBlock : string; s_Gateway : string; s_Default : bool; s_Provider : string; s_EnableDHCP : bool;
  s_DHCPv4Options : string; s_DHCPv6Options : string; s_EnableIPv6RA : bool; s_EnableMulticastSnoop : bool;
  s_NatOutgoing : bool; s_Private : bool; s_ExcludeIps : list string; s_Mtu : Z }.

Record StaticRoute := mkStaticRoute {
  Policy : string; CIDR : string; NextHopIP : string; RouteTable : string }.

#[export] Instance StaticRoute_eq_dec : EqDecision StaticRoute.
Proof. solve_decision. Defined.

Record Vpc := mkVpc {
  v_Name : string; v_Labels : gmap string string; v_Namespaces : list string;
  v_StaticRoutes : list StaticRoute; v_Subnets : list string }.

Record VpcBgpSpeaker := mkVpcBgpSpeaker {
  bgp_Enabled : bool; bgp_ASN : Z; bgp_RemoteASN : Z; bgp_Neighbors : list string; bgp_HoldTime : Z;
  bgp_RouterID : string; bgp_Password : string; bgp_EnableGracefulRestart : bool; bgp_ExtraArgs : list string }.

(** A route is its CIDR and its next hop. *)
Record VpcNatGateway := mkVpcNatGateway {
  g_Name : string; g_Labels : gmap string string; g_Vpc : string; g_Subnet : string;
  g_ExternalSubnets : list string; g_LanIP : string; g_Routes : list (string * string);
  g_BgpSpeaker : VpcBgpSpeaker }.

Record IptablesEIP := mkIptablesEIP {
  e_Name : string; e_Labels : gmap string string; e_Annotations : gmap string string;
  e_NatGwDp : string; e_ExternalSubnet : string }.

Record IptablesFIPRule := mkIptablesFIPRule {
  f_Name : string; f_Labels : gmap string string; f_EIP : string; f_InternalIP : string }.

Record IptablesSnatRule := mkIptablesSnatRule {
  sn_Name : string; sn_Labels : gmap string string; sn_EIP : string; sn_InternalCIDR : string }.

Record IptablesDnatRule := mkIptablesDnatRule {
  dn_Name : string; dn_Labels : gmap string string; dn_EIP : string; dn_ExternalPort : string;
  dn_Protocol : string; dn_InternalIP : string; dn_InternalPort : string }.

Record SwitchLBRule := mkSwitchLBRule {
  lb_Name : string; lb_Labels : gmap string string; lb_Annotations : gmap string string;
  lb_Spec : SwitchLBRuleSpec }.

(** A network attachment definition: its configuration is the JSON text with this provider. *)
Record NetworkAttachmentDefinition := mkNAD {
  nad_Namespace : string; nad_Name : string; nad_Labels : gmap string string; nad_Provider : string }.

Inductive Kind := KSubnet | KVpc | KNatGw | KEip | KFip | KSnat | KDnat | KLb.

#[export] Instance Kind_eq_dec : EqDecision Kind.
Proof. solve_decision. Defined.

Definition Obj (kind : Kind) : Type :=
  match kind with
  | KSubnet => Subnet | KVpc => Vpc | KNatGw => VpcNatGateway | KEip => IptablesEIP
  | KFip => IptablesFIPRule | KSnat => IptablesSnatRule | KDnat => IptablesDnatRule | KLb => SwitchLBRule
  end.

Definition nameOf (kind : Kind) : Obj kind → string :=
  match kind with
  | KSubnet => s_Name | KVpc => v_Name | KNatGw => g_Name | KEip => e_Name
  | KFip => f_Name | KSnat => sn_Name | KDnat => dn_Name | KLb => lb_Name
  end.

Definition labelsOf (kind : Kind) : Obj kind → gmap string string :=
  match kind with
  | KSubnet => s_Labels | KVpc => v_Labels | KNatGw => g_Labels | KEip => e_Labels
  | KFip => f_Labels | KSnat => sn_Labels | KDnat => dn_Labels | KLb => lb_Labels
  end.

(** ** The clients *)

(** The lists of the informers are those of their caches; [RulesByIndex] is the index of the load
    balancer rules by VPC and VIP, [IsVMInSubnet] a question to the code of the virtual machines. *)
Class OvnClient (K : Type) := {
  Get : ∀ kind, string → K → (Obj kind * option StatusReason) * K;
  List : ∀ kind, list (string * string) → K → result StatusReason (list (Obj kind)) * K;
  Create : ∀ kind, Obj kind → K → result StatusReason unit * K;
  Update : ∀ kind, Obj kind → K → result StatusReason unit * K;
  Delete : Kind → string → K → result StatusReason unit * K;
  CreateNetAttach : NetworkAttachmentDefinition → K → result StatusReason unit * K;
  DeleteNetAttach : string → string → K → result StatusReason unit * K;
  GetServiceAnnotations : string → string → K → result StatusReason (gmap string string) * K;
  CachedSubnets : K → list Subnet;
  CachedDnats : K → list IptablesDnatRule;
  CachedRules : K → list SwitchLBRule;
  IsVMInSubnet : string → string → K → result unit bool * K;
}.

(** ** The monad of the operations *)

Definition OM (K A : Type) : Type := K → result OvnError A * K.

#[export] Instance OM_ret {K} : MRet (OM K) := λ A a k, (Ok a, k).
#[export] Instance OM_bind {K} : MBind (OM K) := λ A B f m k,
  match m k with (Ok a, k) => f a k | (Err e, k) => (Err e, k) end.

Section calls.
Context {K : Type} {OC : OvnClient K}.

Definition fail {A} (e : OvnError) : OM K A := λ k, (Err e, k).

Definition lift {A} (r : result OvnError A) : OM K A := λ k, (r, k).

(** The error is given to the caller as a value. *)
Definition attempt {A} (m : OM K A) : OM K (result OvnError A) := λ k, let '(r, k) := m k in (Ok r, k).

Definition call {A} (m : K → result StatusReason A * K) : OM K A := λ k,
  match m k with (Ok a, k) => (Ok a, k) | (Err e, k) => (Err (KubeFailed e), k) end.

(** An error that is only logged. *)
Definition logged {A} (m : OM K A) : OM K unit := λ k, (Ok tt, (m k).2).

Definition read {A} (f : K → A) : OM K A := λ k, (Ok (f k), k).

(** [if err != nil] after a [Get]. *)
Definition get (kind : Kind) (name : string) : OM K (Obj kind) := λ k,
  match Get kind name k with
  | ((_, Some e), k) => (Err (KubeFailed e), k)
  | ((o, None), k) => (Ok o, k)
  end.

(** The object only. *)
Definition getObject (kind : Kind) (name : string) : OM K (Obj kind) := λ k, let '((o, _), k) := Get kind name k in (Ok o, k).

(** A deletion to which [NotFound] is no error. *)
Definition deleteIgnoreNotFound (kind : Kind) (name : string) : OM K unit := λ k,
  match Delete kind name k with
  | (Ok _, k) | (Err NotFound, k) => (Ok tt, k)
  | (Err e, k) => (Err (KubeFailed e), k)
  end.

(** A loop over a slice that stops at the first error. *)
Fixpoint each {A} (f : A → OM K unit) (l : list A) : OM K unit :=
  match l with
  | [] => mret tt
  | x :: l => _ ← f x; each f l
  end.

Definition checkProject {kind} (o : Obj kind) (namespace : string) : OM K unit :=
  lift match CheckProjectLabel (labelsOf kind o) (nameOf kind o) namespace with
       | Err e => Err (BadLabel e) | Ok _ => Ok tt
       end.

Definition checkEdit (disabled : list (string * string)) {kind} (o : Obj kind) : OM K unit :=
  lift match IsEditAllowed disabled (labelsOf kind o) with
       | Err e => Err (BadLabel e) | Ok _ => Ok tt
       end.

(** [ConvertToSpxMetadata] on the metadata of a request. *)
Definition convert {UL : UUIDLib} (m : Metadata) : OM K Metadata :=
  lift match ConvertToSpxMetadata m m with (m, None) => Ok m | (_, Some e) => Err (BadMetadata e) end.
End calls.

(** ** Configuration ([pkg/config/config.go], the part of the networks) *)

Record ProductsConfig := mkProductsConfig {
  NatExternalSubnets : list string; NatDefaultRoutes : list (string * string); NatBgpSpeaker : VpcBgpSpeaker;
  EipExternalSubnet : string; SubnetsMtu : Z; MtuAutodetection : bool }.
