(* ===== verification/Vpcs.v ===== *)
(** * Virtual networks and their NAT gateways
      ([internal/kubeovn/vpc], [internal/kubeovn/nat_gateway], [internal/models/view/vpc.go])

    The static routes of a VPC are those that a user asks for and the default routes of its NAT
    gateways; the operations on both objects. Maps are visited in the order of their list of entries. *)

From S2P Require Import Prelude Strings Strconv Quantity SpxId Labels ControllerQuota IP Addresses NetworkChecks KubeOvn.

(** ** Static routes ([vpc/utils.go], [view/vpc.go]) *)

(** A route of the console, and whether a user route takes its place. *)
Record NatRoute := mkNatRoute { nr_Route : StaticRoute; nr_IsOverriden : bool }.

Definition PolicyDst : string := "policyDst".
Definition DefaultIPv4LanIP : string := "0.0.0.0/0".
Definition DefaultIPv6LanIP : string := "::/0".

Definition normalizeCIDR (cidr : string) : result OvnError string :=
  match ParsePrefix cidr with Some prefix => Ok (PrefixString prefix) | None => Err (ErrParseCIDR cidr) end.

Definition shortKey (sr : StaticRoute) (cidr : string) : string :=
  Policy sr +:+ "-" +:+ cidr +:+ "-" +:+ RouteTable sr.

Definition fullKey (sr : StaticRoute) : string :=
  Policy sr +:+ "-" +:+ CIDR sr +:+ "-" +:+ NextHopIP sr +:+ "-" +:+ RouteTable sr.

(** The default route of a NAT gateway for one version. *)
Definition natGwRoute (cidr : string) (natGw : VpcNatGateway) : StaticRoute :=
  mkStaticRoute PolicyDst cidr (g_LanIP natGw) (g_Subnet natGw).

(** The loop over the NAT gateways. *)
Definition natGwStaticRoutes (natGws : list VpcNatGateway) : result OvnError (gmap string NatRoute) :=
  foldM (λ result natGw,
    let v4Route := natGwRoute DefaultIPv4LanIP natGw in
    normCIDRv4 ← normalizeCIDR (CIDR v4Route);
    let result := <[shortKey v4Route normCIDRv4 := mkNatRoute v4Route false]> result in
    let v6Route := natGwRoute DefaultIPv6LanIP natGw in
    normCIDRv6 ← normalizeCIDR (CIDR v6Route);
    Ok (<[shortKey v6Route normCIDRv6 := mkNatRoute v6Route false]> result)) ∅ natGws.

(** The subnets of the VPC by name, the last one of each name. *)
Definition mapSubnets (vpcSubnets : list Subnet) : gmap string Subnet :=
  fold_left (λ m subnet, <[s_Name subnet := subnet]> m) vpcSubnets ∅.

Definition inSubnets (subnets : gmap string Subnet) (ip : string) : bool :=
  existsb (λ kv, match IsIPInCIDR (s_CIDRBlock kv.2) ip with Some true => true | _ => false end)
    (map_to_list subnets).

(** One route of the request. *)
Definition addStaticRoute (subnets : gmap string Subnet) (acc : gmap string NatRoute * gmap string StaticRoute)
    (sr : StaticRoute) : result OvnError (gmap string NatRoute * gmap string StaticRoute) :=
  let '(natGwSR, newSrMap) := acc in
  normCIDR ← normalizeCIDR (CIDR sr);
  if decide (NextHopIP sr ≠ EmptyString ∧ ParseIP (NextHopIP sr) = None) then Err (ErrInvalidIP (NextHopIP sr))
  else if decide (default EmptyString (s_Name <$> subnets !! RouteTable sr) = EmptyString)
    then Err (ErrRouteTable (RouteTable sr))
  else if negb (inSubnets subnets (NextHopIP sr)) then Err (ErrNextHop (NextHopIP sr))
  else
    let sr := mkStaticRoute (Policy sr) normCIDR (NextHopIP sr) (RouteTable sr) in
    match natGwSR !! shortKey sr normCIDR with
    | Some v =>
      if decide (NextHopIP (nr_Route v) ≠ NextHopIP sr)
      then Ok (<[shortKey sr normCIDR := mkNatRoute (nr_Route v) true]> natGwSR, <[fullKey sr := sr]> newSrMap)
      else Ok (natGwSR, newSrMap)
    | None => Ok (natGwSR, <[fullKey sr := sr]> newSrMap)
    end.

Definition parseStaticRoutes (vpcSubnets : list Subnet) (newSRList : list StaticRoute)
    (natGwSR : gmap string NatRoute) : result OvnError (list StaticRoute) :=
  '(natGwSR, newSrMap) ← foldM (addStaticRoute (mapSubnets vpcSubnets)) (natGwSR, ∅) newSRList;
  Ok ((nr_Route <$> filter (λ v, nr_IsOverriden v = false) (map_to_list natGwSR).*2) ++
      (map_to_list newSrMap).*2).

(** The routes that a view shows, and whether each one is that of a NAT gateway. *)
Definition viewRoutes (natGwSR : gmap string NatRoute) (routes : list StaticRoute) : list (StaticRoute * bool) :=
  (λ sr, (sr, match natGwSR !! shortKey sr (CIDR sr) with
              | Some v => bool_decide (NextHopIP (nr_Route v) = NextHopIP sr)
              | None => false
              end)) <$> routes.

(** The routes of a gateway that goes away. *)
Definition isNatGwRoute (subnetEID lanIP : string) (rs : StaticRoute) : bool :=
  bool_decide (Policy rs = PolicyDst ∧ (CIDR rs = DefaultIPv6LanIP ∨ CIDR rs = DefaultIPv4LanIP) ∧
    NextHopIP rs = lanIP ∧ RouteTable rs = subnetEID).

(** ** Operations *)

Section operations.
Context {UL : UUIDLib} {K : Type} {OC : OvnClient K}.
Context (SpxPrefix : string) (disabled : list (string * string)) (config : ProductsConfig).

Definition fetchNatGwStaticRoutes (namespace vpcEid : string) : OM K (gmap string NatRoute) :=
  natGws ← call (List KNatGw [("ovn.kubernetes.io/vpc", vpcEid); (SpxLabelProjectID, namespace)]);
  lift (natGwStaticRoutes natGws).

Definition listBatchSubnet (namespace vpcEID : string) : OM K (list Subnet) :=
  read (λ k, filter (λ subnet, s_Vpc subnet = vpcEID ∧
    default EmptyString (s_Labels subnet !! SpxLabelProjectID) = namespace) (CachedSubnets k)).

Definition with_StaticRoutes (vpc : Vpc) (routes : list StaticRoute) : Vpc :=
  mkVpc (v_Name vpc) (v_Labels vpc) (v_Namespaces vpc) routes (v_Subnets vpc).

Definition updateVPC (vpc : Vpc) (namespace name : string) (staticRoutes : list StaticRoute) : OM K unit :=
  natGwSR ← fetchNatGwStaticRoutes namespace name;
  subnets ← listBatchSubnet namespace name;
  srList ← lift (parseStaticRoutes subnets staticRoutes natGwSR);
  call (Update KVpc (with_StaticRoutes vpc srList)).

Definition CreateVPC (info : Metadata) : OM K unit :=
  let namespace := ToSPXID SpxPrefix (ProjectId info) in
  m ← convert info;
  call (Create KVpc (mkVpc (ToSPXID SpxPrefix (ResourceEffectiveId m)) (GetLabels SpxPrefix m) [namespace] [] [])).

Definition UpdateVPC (staticRoutes : list StaticRoute) (namespace name : string) : OM K unit :=
  vpc ← get KVpc name;
  _ ← checkProject (kind:=KVpc) vpc namespace;
  _ ← checkEdit disabled (kind:=KVpc) vpc;
  updateVPC vpc namespace name staticRoutes.

(** [view.VPCToView]: the object and its routes. *)
Definition GetVPC (namespace name : string) : OM K (Vpc * list (StaticRoute * bool)) :=
  vpc ← get KVpc name;
  if decide (default EmptyString (v_Labels vpc !! SpxLabelProjectID) ≠ namespace) then fail (ErrNotFound name) else
  natGwSR ← fetchNatGwStaticRoutes namespace name;
  mret (vpc, viewRoutes natGwSR (v_StaticRoutes vpc)).

Definition DeleteVPC (namespace name : string) : OM K unit :=
  '(vpc, _) ← GetVPC namespace name;
  if decide (0 < length (v_Subnets vpc))%nat then fail ErrVpcNotEmpty else call (Delete KVpc name).

(** An error of [Get] is logged: the object is then the zero one. *)
Definition AddNatGateway (namespace vpcEID lanIP subnetEID : string) : OM K unit :=
  vpc ← getObject KVpc vpcEID;
  updateVPC vpc namespace vpcEID (v_StaticRoutes vpc ++
    [mkStaticRoute PolicyDst DefaultIPv4LanIP lanIP subnetEID;
     mkStaticRoute PolicyDst DefaultIPv6LanIP lanIP subnetEID]).

Definition RemoveNatGateway (vpcEID subnetEID lanIP : string) : OM K unit :=
  vpc ← getObject KVpc vpcEID;
  call (Update KVpc (with_StaticRoutes vpc
    (filter (λ rs, isNatGwRoute subnetEID lanIP rs = false) (v_StaticRoutes vpc)))).

(** ** NAT gateways ([nat_gateway]) *)

Definition CreateNatGateway (m : Metadata) (lanIP vpcEID : string) : OM K unit :=
  let eid := ToSPXID SpxPrefix (ResourceEffectiveId m) in
  _ ← call (Create KNatGw (mkVpcNatGateway eid (GetLabels SpxPrefix m) vpcEID eid (NatExternalSubnets config)
    lanIP (NatDefaultRoutes config) (NatBgpSpeaker config)));
  AddNatGateway (ToSPXID SpxPrefix (ProjectId m)) vpcEID lanIP eid.

Definition with_LanIP (g : VpcNatGateway) (lanIP : string) : VpcNatGateway :=
  mkVpcNatGateway (g_Name g) (g_Labels g) (g_Vpc g) (g_Subnet g) (g_ExternalSubnets g) lanIP (g_Routes g) (g_BgpSpeaker g).

Definition UpdateNatGateway (lanIP namespace name : string) : OM K unit :=
  natGw ← get KNatGw name;
  _ ← checkProject (kind:=KNatGw) natGw namespace;
  _ ← checkEdit disabled (kind:=KNatGw) natGw;
  call (Update KNatGw (with_LanIP natGw lanIP)).

Definition DeleteNatGateway (namespace vpcEID name : string) : OM K unit := λ k,
  match get KNatGw name k with
  | (Err (KubeFailed NotFound), k) => (Ok tt, k)
  | (Err e, k) => (Err e, k)
  | (Ok natGw, k) =>
    (_ ← checkProject (kind:=KNatGw) natGw namespace;
     _ ← checkEdit disabled (kind:=KNatGw) natGw;
     _ ← RemoveNatGateway vpcEID name (g_LanIP natGw);
     call (Delete KNatGw name)) k
  end.

(** [None] is a nil view. *)
Definition GetNatGw (namespace name : string) : OM K (option VpcNatGateway) := λ k,
  match get KNatGw name k with
  | (Err (KubeFailed NotFound), k) => (Ok None, k)
  | (Err e, k) => (Err e, k)
  | (Ok natGw, k) =>
    match CheckProjectLabel (g_Labels natGw) (g_Name natGw) namespace with
    | Err _ => (Ok None, k)
    | Ok _ => (Ok (Some natGw), k)
    end
  end.

(** ** The endpoints ([pkg/api/kubeovn/vpc.go]): the status of the answer *)

Definition statusOf (r : result OvnError unit) : Z :=
  match r with Ok _ => 200 | Err e => if IsNotFound e then 404 else 500 end.

Definition createVPCEndpoint {QL : QuantityLib} {KC : KubeClient K} (orgId projectId : string)
    (body : option Metadata) (k : K) : Z * K :=
  match CreateNamespaceIfNotExists SpxPrefix orgId projectId k with
  | (Err _, k) => (500, k)
  | (Ok _, k) =>
    match body with
    | None => (400, k)
    | Some info => match CreateVPC info k with (Ok _, k) => (200, k) | (Err _, k) => (500, k) end
    end
  end.

Definition updateVPCEndpoint (projectId effectiveId : string) (body : option (list StaticRoute)) (k : K) : Z * K :=
  if decide (effectiveId = EmptyString) then (400, k) else
  match body with
  | None => (400, k)
  | Some routes =>
    let '(r, k) := UpdateVPC routes (GetNamespace SpxPrefix projectId) effectiveId k in (statusOf r, k)
  end.

Definition deleteVPCEndpoint (projectId effectiveId : string) (k : K) : Z * K :=
  if decide (effectiveId = EmptyString) then (400, k) else
  let '(r, k) := DeleteVPC (GetNamespace SpxPrefix projectId) effectiveId k in (statusOf r, k).
End operations.
