(* ===== verification/Subnets.v ===== *)
(** * Subnets ([internal/kubeovn/subnet], [internal/kubevirt/nad], [pkg/api/kubeovn/subnet.go])

    A subnet is an object of a VPC with a network attachment definition of the same name and, when
    asked for, a NAT gateway of the same name. *)

From S2P Require Import Prelude Strings Quantity SpxId Labels ControllerQuota NetworkChecks KubeOvn Vpcs.

(** ** Requests *)

Record CreateSubnetInfo := mkCreateSubnetInfo {
  cs_Metadata : Metadata; cs_VpcEId : string; cs_Private : bool; cs_Protocol : string;
  cs_IPv4 : string; cs_IPv6 : string; cs_DnsV4 : string; cs_DnsV6 : string; cs_NatGateway : bool }.

Record UpdateSubnetInfo := mkUpdateSubnetInfo {
  us_Metadata : Metadata; us_Private : bool; us_DnsV4 : string; us_DnsV6 : string; us_NatGateway : bool }.

Inductive NatGwStatus := NatGwStatusIdle | NatGwStatusDelete | NatGwStatusCreate | NatGwStatusUpdate.

Definition dhcpOption (server : string) : string := "dns_server=" +:+ server.

(** ** Network attachment definitions *)

Section operations.
Context {UL : UUIDLib} {K : Type} {OC : OvnClient K}.
Context (SpxPrefix : string) (disabled : list (string * string)) (config : ProductsConfig).

Definition CreateNAD (namespace subnetEID : string) (labels : gmap string string) : OM K unit :=
  call (CreateNetAttach (mkNAD namespace subnetEID labels (subnetEID +:+ "." +:+ namespace +:+ ".ovn"))).

Definition DeleteNAD (namespace name : string) : OM K unit := λ k,
  match DeleteNetAttach namespace name k with
  | (Ok _, k) | (Err NotFound, k) => (Ok tt, k)
  | (Err e, k) => (Err (KubeFailed e), k)
  end.

(** ** Creation *)

Definition checkVpcOwnership (vpcName projectID : string) : OM K unit :=
  if decide (vpcName = EmptyString) then fail (ErrNotFound vpcName) else
  vpc ← get KVpc vpcName;
  checkProject (kind:=KVpc) vpc projectID.

(** [uint32] of the configured MTU. *)
Definition mtu : Z := if MtuAutodetection config then 0 else SubnetsMtu config `mod` 2 ^ 32.

(** The subnet of a request. *)
Definition newSubnet (s : CreateSubnetInfo) (m : Metadata) (cidr gateway : string) (excludeIps : list string) : Subnet :=
  let namespace := ToSPXID SpxPrefix (ProjectId m) in
  let eid := ToSPXID SpxPrefix (ResourceEffectiveId m) in
  mkSubnet eid (GetLabels SpxPrefix m) ∅ (cs_VpcEId s) (cs_Protocol s) eid [namespace] cidr gateway false
    (eid +:+ "." +:+ namespace +:+ ".ovn") true (dhcpOption (cs_DnsV4 s)) (dhcpOption (cs_DnsV6 s)) true false
    false (cs_Private s) excludeIps mtu.

Definition CreateSubnet (s : CreateSubnetInfo) : OM K unit :=
  m ← convert (cs_Metadata s);
  let projectID := ToSPXID SpxPrefix (ProjectId m) in
  let eid := ToSPXID SpxPrefix (ResourceEffectiveId m) in
  _ ← checkVpcOwnership (cs_VpcEId s) projectID;
  '(cidr, gateway, lanIP) ← lift (parseNetworkInfo (cs_Protocol s) (cs_IPv4 s) (cs_IPv6 s));
  let excludeIps := if cs_NatGateway s then [lanIP] else [] in
  _ ← lift (checkDnsIP (cs_DnsV4 s) (cs_DnsV6 s));
  _ ← call (Create KSubnet (newSubnet s m cidr gateway excludeIps));
  created ← attempt (CreateNAD projectID eid (GetLabels SpxPrefix m));
  match created with
  | Err e => _ ← call (Delete KSubnet eid); fail e
  | Ok _ =>
    if cs_NatGateway s
    then logged (CreateNatGateway SpxPrefix config m lanIP (cs_VpcEId s)) else mret tt
  end.

(** ** Public addresses of a subnet ([eip/eip.go]) *)

Definition IsEIPInSubnet (namespace subnetName : string) : OM K bool :=
  eips ← call (List KEip [(SpxLabelProjectID, namespace)]);
  mret (existsb (λ eip, bool_decide (e_NatGwDp eip = subnetName)) (eips : list IptablesEIP)).

(** ** Update *)

(** The fields that an update sets. *)
Definition updatedSubnet (s : UpdateSubnetInfo) (o : Subnet) (excludeIps : list string) : Subnet :=
  mkSubnet (s_Name o) (s_Labels o) (s_Annotations o) (s_Vpc o) (s_Protocol o) (s_RouteTable o) (s_Namespaces o)
    (s_CIDRBlock o) (s_Gateway o) (s_Default o) (s_Provider o) (s_EnableDHCP o)
    (dhcpOption (us_DnsV4 s)) (dhcpOption (us_DnsV6 s)) (s_EnableIPv6RA o) (s_EnableMulticastSnoop o)
    (s_NatOutgoing o) (us_Private s) excludeIps (s_Mtu o).

(** What becomes of the NAT gateway, and the excluded addresses. *)
Definition natGwPlan (s : UpdateSubnetInfo) (gw : option VpcNatGateway) (namespace name lanIP : string)
    (excludeIps : list string) : OM K (NatGwStatus * list string) :=
  match gw, us_NatGateway s with
  | Some _, false =>
    hasEip ← IsEIPInSubnet namespace name;
    if (hasEip : bool) then fail ErrHasEIP else mret (NatGwStatusDelete, [])
  | None, true => mret (NatGwStatusCreate, [lanIP])
  | Some _, true => mret (NatGwStatusUpdate, [lanIP])
  | None, false => mret (NatGwStatusIdle, excludeIps)
  end.

Definition UpdateSubnet (s : UpdateSubnetInfo) (namespace name : string) : OM K unit :=
  _ ← lift (checkDnsIP (us_DnsV4 s) (us_DnsV6 s));
  subnet ← get KSubnet name;
  _ ← checkProject (kind:=KSubnet) subnet namespace;
  _ ← checkEdit disabled (kind:=KSubnet) subnet;
  '(_, lanIP) ← lift (parseSubnetCIDR (s_Protocol subnet) (s_CIDRBlock subnet));
  gw ← GetNatGw namespace name;
  '(status, excludeIps) ← natGwPlan s gw namespace name lanIP (s_ExcludeIps subnet);
  _ ← call (Update KSubnet (updatedSubnet s subnet excludeIps));
  match status with
  | NatGwStatusDelete => logged (DeleteNatGateway disabled namespace (s_Vpc subnet) name)
  | NatGwStatusCreate =>
    logged (m ← convert (us_Metadata s); CreateNatGateway SpxPrefix config m lanIP (s_Vpc subnet))
  | NatGwStatusUpdate => logged (UpdateNatGateway disabled lanIP namespace name)
  | NatGwStatusIdle => mret tt
  end.

(** ** Deletion and reading *)

Definition DeleteSubnet (namespace name : string) : OM K unit :=
  subnet ← get KSubnet name;
  _ ← checkProject (kind:=KSubnet) subnet namespace;
  _ ← checkEdit disabled (kind:=KSubnet) subnet;
  _ ← DeleteNAD namespace name;
  natGw ← GetNatGw namespace name;
  _ ← match natGw with
      | Some natGw => DeleteNatGateway disabled namespace (g_Vpc natGw) (g_Name natGw)
      | None => mret tt
      end;
  call (Delete KSubnet name).

(** The object that [view.SubnetToView] shows, and whether it is shared. *)
Definition GetSubnet (name projectID : string) : OM K (Subnet * bool) :=
  subnet ← get KSubnet name;
  let isAllowedShared := isAllowedSharedSubnet (s_Annotations subnet) projectID in
  if decide (default EmptyString (s_Labels subnet !! SpxLabelProjectID) ≠ projectID ∧ isAllowedShared = false)
  then fail (ErrNotFound name) else mret (subnet, isAllowedShared).

(** ** The endpoints: the status of the answer *)

Definition createSubnetEndpoint {QL : QuantityLib} {KC : KubeClient K} (orgId projectId : string)
    (body : option CreateSubnetInfo) (k : K) : Z * K :=
  match CreateNamespaceIfNotExists SpxPrefix orgId projectId k with
  | (Err _, k) => (500, k)
  | (Ok _, k) =>
    match body with
    | None => (400, k)
    | Some info => let '(r, k) := CreateSubnet info k in (statusOf r, k)
    end
  end.

Definition updateSubnetEndpoint (projectId effectiveId : string) (body : option UpdateSubnetInfo) (k : K) : Z * K :=
  if decide (effectiveId = EmptyString) then (400, k) else
  match body with
  | None => (400, k)
  | Some info => let '(r, k) := UpdateSubnet info (GetNamespace SpxPrefix projectId) effectiveId k in (statusOf r, k)
  end.

Definition deleteSubnetEndpoint (projectId effectiveId : string) (k : K) : Z * K :=
  let namespace := GetNamespace SpxPrefix projectId in
  if decide (effectiveId = EmptyString) then (400, k) else
  match IsVMInSubnet namespace effectiveId k with
  | (Err _, k) => (500, k)
  | (Ok true, k) => (400, k)
  | (Ok false, k) =>
    match IsEIPInSubnet namespace effectiveId k with
    | (Err _, k) => (500, k)
    | (Ok true, k) => (400, k)
    | (Ok false, k) => let '(r, k) := DeleteSubnet namespace effectiveId k in (statusOf r, k)
    end
  end.
End operations.
