(* ===== verification/Eips.v ===== *)
(** * Public addresses and their rules ([internal/kubeovn/eip], [pkg/api/kubeovn/eip.go])

    A public address is translated to one internal address (FIP), or it is the source of blocks
    (SNAT) and the target of ports (DNAT). Its rules are objects of their own: the FIP has the name of
    the address, the others a name computed from what they translate. *)

From S2P Require Import Prelude Strings Quantity SpxId Labels ControllerQuota NetworkChecks KubeOvn Vpcs Subnets.

(** ** Requests *)

Record EIPSpec := mkEIPSpec {
  InternalIPOf : string; SNAT : list string; DNAT : list InfoDNAT }.

Record CreateEIPInfo := mkCreateEIPInfo { ce_Metadata : Metadata; ce_SubnetEId : string; ce_Spec : EIPSpec }.
Record UpdateEIPInfo := mkUpdateEIPInfo { ue_Metadata : Metadata; ue_Spec : EIPSpec }.

(** The text that identifies a DNAT rule. *)
Definition dnatKey (externalPort internalIP internalPort protocol : string) : string :=
  externalPort +:+ "-" +:+ internalIP +:+ "-" +:+ internalPort +:+ "-" +:+ protocol.

(** An entry of the comparison of the old and the new DNAT rules. *)
Record DnatEntry := mkDnatEntry { de_Old : bool; de_New : bool; de_EID : string; de_Info : InfoDNAT }.

Definition noInfo : InfoDNAT := mkInfoDNAT EmptyString EmptyString EmptyString EmptyString.

Section operations.
Context {UL : UUIDLib} {K : Type} {OC : OvnClient K}.
Context (SpxPrefix : string) (disabled : list (string * string)) (config : ProductsConfig).

Definition eidOf (m : Metadata) : string := ToSPXID SpxPrefix (ResourceEffectiveId m).

(** ** Rules *)

(** The metadata of a rule: those of the address, with a name hashed from the text. *)
Definition generateRule (eipEidUUID : UUID) (eipMetadata : Metadata) (text : string) :
    Metadata * option MetadataError :=
  GenerateMetadata (mkMetadata EmptyString EmptyString EmptyString EmptyString) (ProjectId eipMetadata)
    (OrgId eipMetadata) (uuid_String (NewSHA1 eipEidUUID text)).

Definition ruleMetadata (eipMetadata : Metadata) (text : string) : result OvnError Metadata :=
  match uuid_Parse (ResourceEffectiveId eipMetadata) with
  | None => Err ErrInvalidUUID
  | Some eipEidUUID =>
    match generateRule eipEidUUID eipMetadata text with
    | (m, None) => Ok m
    | (_, Some e) => Err (BadMetadata e)
    end
  end.

Definition CreateFip (internalIp : string) (eipMetadata : Metadata) : OM K unit :=
  call (Create KFip (mkIptablesFIPRule (eidOf eipMetadata) (GetLabels SpxPrefix eipMetadata) (eidOf eipMetadata)
    (TrimSpace internalIp))).

Definition CreateSNAT (internalCIDR : string) (eipMetadata : Metadata) : OM K unit :=
  let internalCIDR := TrimSpace internalCIDR in
  m ← lift (ruleMetadata eipMetadata internalCIDR);
  call (Create KSnat (mkIptablesSnatRule (eidOf m) (GetLabels SpxPrefix m) (eidOf eipMetadata) internalCIDR)).

Definition CreateDNAT (item : InfoDNAT) (eipMetadata : Metadata) : OM K unit :=
  let externalPort := TrimSpace (ExternalPort item) in
  let internalIP := TrimSpace (InternalIP item) in
  let internalPort := TrimSpace (InternalPort item) in
  m ← lift (ruleMetadata eipMetadata (dnatKey externalPort internalIP internalPort (Protocol item)));
  call (Create KDnat (mkIptablesDnatRule (eidOf m) (GetLabels SpxPrefix m) (eidOf eipMetadata) externalPort
    (Protocol item) internalIP internalPort)).

(** [snat.ListResources]: a rule of the name of the address comes first, for compatibility. *)
Definition ListSnats (namespace eip : string) : OM K (list IptablesSnatRule) := λ k,
  match Get KSnat eip k with
  | ((oldSnat, None), k) => (Ok [oldSnat], k)
  | ((_, Some e), k) =>
    if decide (e ≠ NotFound) then (Err (KubeFailed e), k) else
    match List KSnat [(SpxLabelProjectID, namespace)] k with
    | (Err NotFound, k) => (Ok [], k)
    | (Err e, k) => (Err (KubeFailed e), k)
    | (Ok l, k) => (Ok (filter (λ item : IptablesSnatRule, sn_EIP item = eip) l), k)
    end
  end.

(** [dnat.ListResources] *)
Definition ListDnats (namespace eip : string) : OM K (list IptablesDnatRule) := λ k,
  match List KDnat [(SpxLabelProjectID, namespace)] k with
  | (Err NotFound, k) => (Ok [], k)
  | (Err e, k) => (Err (KubeFailed e), k)
  | (Ok l, k) => (Ok (filter (λ item : IptablesDnatRule, dn_EIP item = eip) l), k)
  end.

(** [dnat.List], from the informer. *)
Definition CachedDnatsOf (namespace eip : string) : OM K (list IptablesDnatRule) :=
  read (λ k, filter (λ dnat, default EmptyString (dn_Labels dnat !! SpxLabelProjectID) = namespace ∧ dn_EIP dnat = eip)
    (CachedDnats k)).

(** ** Updates of the rules *)

(** The names of the wanted SNAT rules and their blocks. *)
Definition newSnats (eipMetadata : Metadata) (newSNATs : list string) : result OvnError (gmap string string) :=
  foldM (λ newSnatsMap cidr,
    let cidr := TrimSpace cidr in
    m ← ruleMetadata eipMetadata cidr;
    Ok (<[eidOf m := cidr]> newSnatsMap)) ∅ newSNATs.

Definition UpdateSnat (eipMetadata : Metadata) (newSNATs : list string) (existingSnats : list IptablesSnatRule) :
    OM K unit :=
  match uuid_Parse (ResourceEffectiveId eipMetadata) with
  | None => fail ErrInvalidUUID
  | Some eipEidUUID =>
    newSnatsMap ← lift (newSnats eipMetadata newSNATs);
    _ ← each (λ oldSnat, match newSnatsMap !! sn_Name oldSnat with
                         | Some _ => mret tt
                         | None => deleteIgnoreNotFound KSnat (sn_Name oldSnat)
                         end) existingSnats;
    each (λ '(snatName, cidr),
      if decide (snatName ∈ sn_Name <$> existingSnats) then mret tt else
      call (Create KSnat (mkIptablesSnatRule snatName
        (GetLabels SpxPrefix (generateRule eipEidUUID eipMetadata cidr).1) (eidOf eipMetadata) cidr)))
      (map_to_list newSnatsMap)
  end.

(** The entries of the old and the new rules. *)
Definition dnatEntries (newDNATs : list InfoDNAT) (oldDNATs : list IptablesDnatRule) : gmap string DnatEntry :=
  let m := fold_left (λ m s1Val,
    <[dnatKey (dn_ExternalPort s1Val) (dn_InternalIP s1Val) (dn_InternalPort s1Val) (dn_Protocol s1Val) :=
      mkDnatEntry true false (dn_Name s1Val) noInfo]> m) oldDNATs ∅ in
  fold_left (λ (m : gmap string DnatEntry) s2Val,
    let val := dnatKey (ExternalPort s2Val) (InternalIP s2Val) (InternalPort s2Val) (Protocol s2Val) in
    let old := default (mkDnatEntry false false EmptyString noInfo) (m !! val) in
    <[val := mkDnatEntry (de_Old old) true (de_EID old) s2Val]> m) newDNATs m.

Definition UpdateDnat (eipMetadata : Metadata) (newDNATs : list InfoDNAT) (oldDNATs : list IptablesDnatRule) :
    OM K unit :=
  let entries := (map_to_list (dnatEntries newDNATs oldDNATs)).*2 in
  _ ← each (λ mVal, if negb (de_Old mVal) && de_New mVal then CreateDNAT (de_Info mVal) eipMetadata else mret tt) entries;
  each (λ eid, call (Delete KDnat eid)) (de_EID <$> filter (λ mVal, de_Old mVal = true ∧ de_New mVal = false) entries).

(** ** Validation of the subnet *)

Definition getAccessibleSubnet (name projectID : string) : OM K Subnet :=
  if decide (name = EmptyString) then fail (ErrNotFound name) else
  subnet ← get KSubnet name;
  if decide (default EmptyString (s_Labels subnet !! SpxLabelProjectID) ≠ projectID ∧
             IsSharedWithProject (s_Annotations subnet) projectID = false)
  then fail (ErrNotFound name) else mret subnet.

(** The targets of the mode that will be applied. *)
Definition checkTargets (subnet : Subnet) (spec : EIPSpec) : OM K unit :=
  lift (if decide (InternalIPOf spec ≠ EmptyString)
        then validateInternalTargets (s_CIDRBlock subnet) (InternalIPOf spec) [] []
        else validateInternalTargets (s_CIDRBlock subnet) EmptyString (SNAT spec) (DNAT spec)).

(** ** Operations *)

Definition DeleteEip (namespace name : string) : OM K unit :=
  eip ← get KEip name;
  _ ← checkProject (kind:=KEip) eip namespace;
  _ ← checkEdit disabled (kind:=KEip) eip;
  _ ← deleteIgnoreNotFound KFip name;
  snatList ← ListSnats namespace name;
  _ ← each (λ item, deleteIgnoreNotFound KSnat (sn_Name item)) snatList;
  dnatList ← ListDnats namespace name;
  _ ← each (λ item, call (Delete KDnat (dn_Name item))) dnatList;
  call (Delete KEip name).

(** [cleanEip]: the address of the metadata is deleted and the error is kept. *)
Definition orClean (m : Metadata) (op : OM K unit) : OM K unit :=
  r ← attempt op;
  match r with
  | Ok _ => mret tt
  | Err e => _ ← logged (DeleteEip (ToSPXID SpxPrefix (ProjectId m)) (eidOf m)); fail e
  end.

Definition CreateEip (s : CreateEIPInfo) : OM K unit :=
  m ← convert (ce_Metadata s);
  let spec := ce_Spec s in
  if decide (InternalIPOf spec = EmptyString ∧ SNAT spec = []) then fail ErrNoTarget else
  subnet ← getAccessibleSubnet (ce_SubnetEId s) (ToSPXID SpxPrefix (ProjectId m));
  _ ← checkTargets subnet spec;
  _ ← call (Create KEip (mkIptablesEIP (eidOf m) (GetLabels SpxPrefix m) {["ovn.kubernetes.io/bgp" := "true"]}
    (ce_SubnetEId s) (EipExternalSubnet config)));
  if decide (InternalIPOf spec ≠ EmptyString) then orClean m (CreateFip (InternalIPOf spec) m)
  else
    _ ← each (λ internalCIDR, orClean m (CreateSNAT internalCIDR m)) (SNAT spec);
    each (λ dnat, orClean m (CreateDNAT dnat m)) (DNAT spec).

(** The rules of the new mode are created, then those of the old mode are deleted. *)
Definition changeMode (spec : EIPSpec) (m : Metadata) (namespace name : string) (isOldModeFip : bool) : OM K unit :=
  _ ← (if decide (InternalIPOf spec ≠ EmptyString) then orClean m (CreateFip (InternalIPOf spec) m)
       else
         _ ← each (λ internalCIDR, orClean m (CreateSNAT internalCIDR m)) (SNAT spec);
         each (λ item, orClean m (CreateDNAT item m)) (DNAT spec));
  if isOldModeFip then deleteIgnoreNotFound KFip name
  else
    snatList ← ListSnats namespace name;
    _ ← each (λ item, deleteIgnoreNotFound KSnat (sn_Name item)) snatList;
    dnatList ← CachedDnatsOf namespace name;
    each (λ item, call (Delete KDnat (dn_Name item))) dnatList.

(** The rules of the mode that does not change. *)
Definition updateRules (spec : EIPSpec) (m : Metadata) (namespace name : string) (oldFip : IptablesFIPRule) :
    OM K unit :=
  if decide (InternalIPOf spec ≠ EmptyString) then
    _ ← call (Delete KFip (f_Name oldFip));
    call (Create KFip (mkIptablesFIPRule (f_Name oldFip) (f_Labels oldFip) (f_EIP oldFip) (TrimSpace (InternalIPOf spec))))
  else
    existingSnats ← ListSnats namespace name;
    _ ← UpdateSnat m (SNAT spec) existingSnats;
    dnatList ← ListDnats namespace name;
    UpdateDnat m (DNAT spec) dnatList.

Definition UpdateEip (s : UpdateEIPInfo) (namespace name : string) : OM K unit :=
  m ← convert (ue_Metadata s);
  eip ← get KEip name;
  _ ← checkProject (kind:=KEip) eip namespace;
  _ ← checkEdit disabled (kind:=KEip) eip;
  subnet ← getAccessibleSubnet (e_NatGwDp eip) namespace;
  let spec := ue_Spec s in
  _ ← checkTargets subnet spec;
  oldFip ← getObject KFip name;
  let isFipMode := bool_decide (InternalIPOf spec ≠ EmptyString) in
  let isOldModeFip := bool_decide (f_Name oldFip ≠ EmptyString) in
  if decide (isFipMode ≠ isOldModeFip) then changeMode spec m namespace name isOldModeFip
  else updateRules spec m namespace name oldFip.

(** The object that [view.EipToView] shows. *)
Definition GetEip (namespace name : string) : OM K IptablesEIP :=
  eip ← get KEip name;
  _ ← checkProject (kind:=KEip) eip namespace;
  mret eip.

(** ** The endpoints: the status of the answer *)

Definition statusOrBadRequest (r : result OvnError unit) : Z :=
  match r with Ok _ => 200 | Err e => if IsNotFound e then 404 else if IsBadRequest e then 400 else 500 end.

Definition createEIP {QL : QuantityLib} {KC : KubeClient K} (orgId projectId : string)
    (body : option CreateEIPInfo) (k : K) : Z * K :=
  match CreateNamespaceIfNotExists SpxPrefix orgId projectId k with
  | (Err _, k) => (500, k)
  | (Ok _, k) =>
    match body with
    | None => (400, k)
    | Some info => let '(r, k) := CreateEip info k in (statusOrBadRequest r, k)
    end
  end.

Definition updateEIP (projectId effectiveId : string) (body : option UpdateEIPInfo) (k : K) : Z * K :=
  if decide (effectiveId = EmptyString) then (400, k) else
  match body with
  | None => (400, k)
  | Some info => let '(r, k) := UpdateEip info (GetNamespace SpxPrefix projectId) effectiveId k in (statusOrBadRequest r, k)
  end.

Definition deleteEIP (projectId effectiveId : string) (k : K) : Z * K :=
  if decide (effectiveId = EmptyString) then (400, k) else
  let '(r, k) := DeleteEip (GetNamespace SpxPrefix projectId) effectiveId k in (statusOf r, k).
End operations.
