(* ===== verification/LoadBalancers.v ===== *)
(** * Load balancers ([internal/kubeovn/load_balancer], [internal/informers/indexers.go],
      [pkg/api/kubeovn/loadBalancer.go])

    A rule gives a virtual address, of a range reserved to them, to endpoints of a subnet of the
    project; two rules of a VPC have different virtual addresses. *)

From S2P Require Import Prelude Strings Quantity SpxId Labels ControllerQuota IP Addresses NetworkChecks KubeOvn Vpcs Eips.

Definition logicalRouterAnnotation : string := LogicalRouterAnnotation.
Definition logicalSwitchAnnotation : string := LogicalSwitchAnnotation.
Definition serviceVPCAnnotation : string := "ovn.kubernetes.io/vpc".
Definition defaultVPC : string := "ovn-cluster".
Definition ruleServicePrefix : string := "slr-".
Definition UnpinnedVPC : string := "*".

Record LoadBalancerInfo := mkLoadBalancerInfo {
  li_VIP : string; li_SubnetEId : string; li_Selectors : list string; li_Endpoints : list string;
  li_Ports : list LBPort }.

(** ** The index of the rules *)

Definition SwitchLBRuleVPCVIPKey (vpc vip : string) : string := vpc +:+ "|" +:+ vip.

Definition switchLBRuleVPCVIP (rule : SwitchLBRule) : list string :=
  let vpc := default EmptyString (lb_Annotations rule !! LogicalRouterAnnotation) in
  [SwitchLBRuleVPCVIPKey (if decide (vpc = EmptyString) then UnpinnedVPC else vpc) (Vip (lb_Spec rule))].

(** [ByIndex]: the rules of the cache that the index function gives the key. *)
Definition rulesByIndex (rules : list SwitchLBRule) (key : string) : list SwitchLBRule :=
  filter (λ rule, key ∈ switchLBRuleVPCVIP rule) rules.

Section operations.
Context {CL : CaseLib} {UL : UUIDLib} {K : Type} {OC : OvnClient K}.
Context (SpxPrefix : string) (disabled : list (string * string)).

(** ** Checks *)

Definition getRuleSubnet (name projectID : string) : OM K Subnet := λ k,
  if decide (name = EmptyString) then (Err SubnetRequired, k) else
  match get KSubnet name k with
  | (Err (KubeFailed NotFound), k) => (Err (SubnetNotFound name), k)
  | (Err e, k) => (Err e, k)
  | (Ok subnet, k) =>
    if decide (default EmptyString (s_Labels subnet !! SpxLabelProjectID) ≠ projectID ∧
               IsSharedWithProject (s_Annotations subnet) projectID = false)
    then (Err (SubnetNotFound name), k)
    else if decide (s_Vpc subnet = EmptyString ∨ s_Vpc subnet = defaultVPC) then (Err (SubnetNotInVpc name), k)
    else (Ok subnet, k)
  end.

(** The VPC that Kube-OVN resolved on the service of a rule, empty when unknown. *)
Definition serviceVPC (rule : SwitchLBRule) : OM K string := λ k,
  match GetServiceAnnotations (SpecNamespace (lb_Spec rule)) (ruleServicePrefix +:+ lb_Name rule) k with
  | (Ok annotations, k) => (Ok (default EmptyString (annotations !! serviceVPCAnnotation)), k)
  | (Err NotFound, k) => (Ok EmptyString, k)
  | (Err e, k) => (Err (KubeFailed e), k)
  end.

(** The loop over the candidates. *)
Fixpoint anyInUse (vpc selfName : string) (candidates : list SwitchLBRule) : OM K bool :=
  match candidates with
  | [] => mret false
  | rule :: candidates =>
    if decide (lb_Name rule = selfName) then anyInUse vpc selfName candidates else
    let other := default EmptyString (lb_Annotations rule !! logicalRouterAnnotation) in
    other ← (if decide (other = EmptyString) then serviceVPC rule else mret other);
    if decide (other = EmptyString ∨ other = vpc) then mret true else anyInUse vpc selfName candidates
  end.

Definition vipInUse (vip vpc selfName : string) : OM K bool :=
  rules ← read CachedRules;
  anyInUse vpc selfName (rulesByIndex rules (SwitchLBRuleVPCVIPKey vpc vip) ++
    rulesByIndex rules (SwitchLBRuleVPCVIPKey UnpinnedVPC vip)).

Definition checkVIPAvailable (vip vpc selfName : string) : OM K unit :=
  inUse ← vipInUse vip vpc selfName;
  if (inUse : bool) then fail (VIPInUse vip) else mret tt.

(** ** Operations *)

(** The metadata are those of the body, effective ID included. *)
Definition CreateLoadBalancer (m : Metadata) (info : LoadBalancerInfo) : OM K unit :=
  let projectID := ToSPXID SpxPrefix (ProjectId m) in
  let eid := ToSPXID SpxPrefix (ResourceEffectiveId m) in
  spec ← lift (buildSpec (li_VIP info) projectID (li_Selectors info) (li_Endpoints info) (li_Ports info));
  subnet ← getRuleSubnet (li_SubnetEId info) projectID;
  _ ← lift (checkEndpointsInSubnet (s_CIDRBlock subnet) (Endpoints spec));
  _ ← checkVIPAvailable (li_VIP info) (s_Vpc subnet) eid;
  call (Create KLb (mkSwitchLBRule eid (GetLabels SpxPrefix m)
    (<[logicalSwitchAnnotation := s_Name subnet]> {[logicalRouterAnnotation := s_Vpc subnet]}) spec)).

Definition with_Spec (lb : SwitchLBRule) (spec : SwitchLBRuleSpec) : SwitchLBRule :=
  mkSwitchLBRule (lb_Name lb) (lb_Labels lb) (lb_Annotations lb)
    (mkSwitchLBRuleSpec (Vip spec) (SpecNamespace (lb_Spec lb)) (Selector spec) (Endpoints spec) (SpecPorts spec)).

Definition UpdateLoadBalancer (info : LoadBalancerInfo) (namespace name : string) : OM K unit :=
  lb ← get KLb name;
  _ ← checkProject (kind:=KLb) lb namespace;
  _ ← checkEdit disabled (kind:=KLb) lb;
  let pinned := default EmptyString (lb_Annotations lb !! logicalSwitchAnnotation) in
  if decide (pinned = EmptyString) then fail (NotAttached name) else
  spec ← lift (buildSpec (li_VIP info) namespace (li_Selectors info) (li_Endpoints info) (li_Ports info));
  subnet ← getRuleSubnet (li_SubnetEId info) namespace;
  if decide (pinned ≠ s_Name subnet) then fail (SubnetCannotChange name) else
  _ ← lift (checkEndpointsInSubnet (s_CIDRBlock subnet) (Endpoints spec));
  _ ← checkVIPAvailable (li_VIP info) (s_Vpc subnet) name;
  call (Update KLb (with_Spec lb spec)).

Definition DeleteLoadBalancer (namespace name : string) : OM K unit :=
  lb ← get KLb name;
  _ ← checkProject (kind:=KLb) lb namespace;
  _ ← checkEdit disabled (kind:=KLb) lb;
  call (Delete KLb name).

(** The object that [view.LBToView] shows. *)
Definition GetLoadBalancer (namespace name : string) : OM K SwitchLBRule :=
  lb ← get KLb name;
  _ ← checkProject (kind:=KLb) lb namespace;
  mret lb.

(** ** The endpoints: the status of the answer *)

Definition createLoadBalancer {QL : QuantityLib} {KC : KubeClient K} (orgId projectId : string)
    (body : option (Metadata * LoadBalancerInfo)) (k : K) : Z * K :=
  match CreateNamespaceIfNotExists SpxPrefix orgId projectId k with
  | (Err _, k) => (500, k)
  | (Ok _, k) =>
    match body with
    | None => (400, k)
    | Some (m, info) =>
      match CreateLoadBalancer m info k with
      | (Ok _, k) => (200, k)
      | (Err e, k) => (if IsBadRequest e then 400 else 500, k)
      end
    end
  end.

Definition updateLoadBalancer (projectId effectiveId : string) (body : option LoadBalancerInfo) (k : K) : Z * K :=
  if decide (effectiveId = EmptyString) then (400, k) else
  match body with
  | None => (400, k)
  | Some info =>
    let '(r, k) := UpdateLoadBalancer info (GetNamespace SpxPrefix projectId) effectiveId k in (statusOrBadRequest r, k)
  end.

Definition deleteLoadBalancer (projectId effectiveId : string) (k : K) : Z * K :=
  if decide (effectiveId = EmptyString) then (400, k) else
  let '(r, k) := DeleteLoadBalancer (GetNamespace SpxPrefix projectId) effectiveId k in (statusOf r, k).
End operations.
