(* ===== verification/NetworkCalls.v ===== *)
(** * The calls of the operations on networks

    The theorems on the operations hold for every cluster: [Cluster] answers each call with any
    function of the calls made before, and the state is the list of these calls with their answers.
    [wp m h Φ] says that running [m] after the calls [h] gives a result and further calls that
    satisfy [Φ]. *)

From S2P Require Import Prelude Strings SpxId ControllerQuota Labels NetworkChecks KubeOvn Vpcs Subnets.
From S2P Require Import Eips LoadBalancers.

(** ** Any cluster *)

Inductive Call :=
  | Got (kind : Kind) (name : string) (o : Obj kind) (e : option StatusReason)
  | Listed (kind : Kind) (selector : list (string * string)) (r : result StatusReason (list (Obj kind)))
  | Created (kind : Kind) (o : Obj kind) (r : result StatusReason unit)
  | Updated (kind : Kind) (o : Obj kind) (r : result StatusReason unit)
  | Deleted (kind : Kind) (name : string) (r : result StatusReason unit)
  | NadCreated (nad : NetworkAttachmentDefinition) (r : result StatusReason unit)
  | NadDeleted (namespace name : string) (r : result StatusReason unit)
  | ServiceRead (namespace name : string) (r : result StatusReason (gmap string string))
  | VMAsked (namespace name : string) (r : result unit bool).

Record Cluster := mkCluster {
  c_Get : list Call → ∀ kind, string → Obj kind * option StatusReason;
  c_List : list Call → ∀ kind, list (string * string) → result StatusReason (list (Obj kind));
  c_Create : list Call → ∀ kind, Obj kind → result StatusReason unit;
  c_Update : list Call → ∀ kind, Obj kind → result StatusReason unit;
  c_Delete : list Call → Kind → string → result StatusReason unit;
  c_CreateNetAttach : list Call → NetworkAttachmentDefinition → result StatusReason unit;
  c_DeleteNetAttach : list Call → string → string → result StatusReason unit;
  c_GetServiceAnnotations : list Call → string → string → result StatusReason (gmap string string);
  c_CachedSubnets : list Call → list Subnet;
  c_CachedDnats : list Call → list IptablesDnatRule;
  c_CachedRules : list Call → list SwitchLBRule;
  c_IsVMInSubnet : list Call → string → string → result unit bool }.

Existing Class Cluster.

#[export] Instance calls_of {C : Cluster} : OvnClient (list Call) := {
  Get kind name h := let a := c_Get C h kind name in (a, h ++ [Got kind name a.1 a.2]);
  List kind sel h := let r := c_List C h kind sel in (r, h ++ [Listed kind sel r]);
  Create kind o h := let r := c_Create C h kind o in (r, h ++ [Created kind o r]);
  Update kind o h := let r := c_Update C h kind o in (r, h ++ [Updated kind o r]);
  Delete kind name h := let r := c_Delete C h kind name in (r, h ++ [Deleted kind name r]);
  CreateNetAttach nad h := let r := c_CreateNetAttach C h nad in (r, h ++ [NadCreated nad r]);
  DeleteNetAttach ns name h := let r := c_DeleteNetAttach C h ns name in (r, h ++ [NadDeleted ns name r]);
  GetServiceAnnotations ns name h :=
    let r := c_GetServiceAnnotations C h ns name in (r, h ++ [ServiceRead ns name r]);
  CachedSubnets h := c_CachedSubnets C h;
  CachedDnats h := c_CachedDnats C h;
  CachedRules h := c_CachedRules C h;
  IsVMInSubnet ns name h := let r := c_IsVMInSubnet C h ns name in (r, h ++ [VMAsked ns name r]);
}.

(** A call that does not change the cluster. *)
Definition is_read (c : Call) : Prop :=
  match c with
  | Got _ _ _ _ | Listed _ _ _ | ServiceRead _ _ _ | VMAsked _ _ _ => True
  | _ => False
  end.

(** ** Postconditions *)
Section wp.
Context {C : Cluster}.
Abbreviation M := (OM (list Call)).
Implicit Types (h calls : list Call).

Definition wp {A} (m : M A) h (Φ : result OvnError A → list Call → Prop) : Prop :=
  ∃ r calls, m h = (r, h ++ calls) ∧ Φ r calls.

Lemma wp_mono {A} (m : M A) h (Φ Ψ : _ → _ → Prop) : (∀ r calls, Φ r calls → Ψ r calls) → wp m h Φ → wp m h Ψ.
Proof. intros HΦ (r & calls & Hm & H). exists r, calls. auto. Qed.

Lemma wp_run {A} (m : M A) h Φ r h' : wp m h Φ → m h = (r, h') → ∃ calls, h' = h ++ calls ∧ Φ r calls.
Proof. intros (r0 & calls & Hm & H) Heq. rewrite Hm in Heq. injection Heq as <- <-. by exists calls. Qed.

Lemma wp_bind {A B} (m : M A) (f : A → M B) h Φ :
  wp m h (λ r calls, match r with
    | Ok a => wp (f a) (h ++ calls) (λ r' calls', Φ r' (calls ++ calls'))
    | Err e => Φ (Err e) calls
    end) → wp (m ≫= f) h Φ.
Proof.
  intros (r & calls & Hm & H). unfold mbind, OM_bind, wp. rewrite Hm. destruct r as [a|e].
  - destruct H as (r' & calls' & Hf & H). rewrite Hf. exists r', (calls ++ calls'). by rewrite app_assoc.
  - by exists (Err e), calls.
Qed.

Lemma wp_lift {A} (r : result OvnError A) h (Φ : _ → _ → Prop) : Φ r [] → wp (lift r) h Φ.
Proof. intros H. exists r, []. by rewrite app_nil_r. Qed.

Lemma wp_ret {A} (a : A) h (Φ : _ → _ → Prop) : Φ (Ok a) [] → wp (mret a) h Φ.
Proof. apply (wp_lift (Ok a)). Qed.

Lemma wp_fail {A} e h (Φ : result OvnError A → _ → Prop) : Φ (Err e) [] → wp (fail e) h Φ.
Proof. apply (wp_lift (Err e)). Qed.

Lemma wp_read {A} (f : list Call → A) h (Φ : _ → _ → Prop) : Φ (Ok (f h)) [] → wp (read f) h Φ.
Proof. intros H. exists (Ok (f h)), []. by rewrite app_nil_r. Qed.

Lemma wp_attempt {A} (m : M A) h (Φ : _ → _ → Prop) : wp m h (λ r calls, Φ (Ok r) calls) → wp (attempt m) h Φ.
Proof. intros (r & calls & Hm & H). exists (Ok r), calls. unfold attempt. by rewrite Hm. Qed.

Lemma wp_logged {A} (m : M A) h (Φ : _ → _ → Prop) : wp m h (λ _ calls, Φ (Ok tt) calls) → wp (logged m) h Φ.
Proof. intros (r & calls & Hm & H). exists (Ok tt), calls. unfold logged. by rewrite Hm. Qed.

(** What an answer of the API server is to the operations. *)
Definition answer {A} (r : result StatusReason A) : result OvnError A :=
  match r with Ok a => Ok a | Err e => Err (KubeFailed e) end.

Lemma wp_call {A} (f : list Call → result StatusReason A * list Call) h r c (Φ : _ → _ → Prop) :
  f h = (r, h ++ [c]) → Φ (answer r) [c] → wp (call f) h Φ.
Proof. intros Hf H. exists (answer r), [c]. unfold call. rewrite Hf. by destruct r. Qed.

Lemma wp_create kind (o : Obj kind) h (Φ : _ → _ → Prop) :
  (∀ r, Φ (answer r) [Created kind o r]) → wp (call (Create kind o)) h Φ.
Proof. intros H. by eapply wp_call. Qed.

Lemma wp_update kind (o : Obj kind) h (Φ : _ → _ → Prop) :
  (∀ r, Φ (answer r) [Updated kind o r]) → wp (call (Update kind o)) h Φ.
Proof. intros H. by eapply wp_call. Qed.

Lemma wp_delete kind name h (Φ : _ → _ → Prop) :
  (∀ r, Φ (answer r) [Deleted kind name r]) → wp (call (Delete kind name)) h Φ.
Proof. intros H. by eapply wp_call. Qed.

Lemma wp_list kind sel h (Φ : _ → _ → Prop) :
  (∀ r, Φ (answer r) [Listed kind sel r]) → wp (call (List kind sel)) h Φ.
Proof. intros H. by eapply wp_call. Qed.

Lemma wp_create_nad nad h (Φ : _ → _ → Prop) :
  (∀ r, Φ (answer r) [NadCreated nad r]) → wp (call (CreateNetAttach nad)) h Φ.
Proof. intros H. by eapply wp_call. Qed.

Lemma wp_get kind name h (Φ : result OvnError (Obj kind) → list Call → Prop) :
  (∀ o, Φ (Ok o) [Got kind name o None]) → (∀ o e, Φ (Err (KubeFailed e)) [Got kind name o (Some e)]) →
  wp (get kind name) h Φ.
Proof.
  intros Hok Herr. unfold wp, get. cbn. destruct (c_Get C h kind name) as [o [e|]]; cbn.
  - by exists (Err (KubeFailed e)), [Got kind name o (Some e)].
  - by exists (Ok o), [Got kind name o None].
Qed.

Lemma wp_getObject kind name h (Φ : result OvnError (Obj kind) → list Call → Prop) :
  (∀ o e, Φ (Ok o) [Got kind name o e]) → wp (getObject kind name) h Φ.
Proof.
  intros H. unfold wp, getObject. cbn. destruct (c_Get C h kind name) as [o e]; cbn.
  by exists (Ok o), [Got kind name o e].
Qed.

Lemma wp_deleteIgnoreNotFound kind name h (Φ : _ → _ → Prop) :
  (∀ r u, Φ r [Deleted kind name u]) → wp (deleteIgnoreNotFound kind name) h Φ.
Proof.
  intros H. unfold wp, deleteIgnoreNotFound. cbn. destruct (c_Delete C h kind name) as [u|[]];
    eexists _, [_]; split; done.
Qed.

Lemma wp_checkProject {kind} (o : Obj kind) namespace h (Φ : _ → _ → Prop) :
  (default EmptyString (labelsOf kind o !! SpxLabelProjectID) = namespace → Φ (Ok tt) []) →
  (default EmptyString (labelsOf kind o !! SpxLabelProjectID) ≠ namespace →
    Φ (Err (BadLabel (ResourceNotFound (nameOf kind o)))) []) → wp (checkProject o namespace) h Φ.
Proof. intros Hok Herr. apply wp_lift. unfold CheckProjectLabel. case_decide as Hl; auto. Qed.

Lemma wp_checkEdit disabled {kind} (o : Obj kind) h (Φ : _ → _ → Prop) :
  (IsEditAllowed disabled (labelsOf kind o) = Ok tt → Φ (Ok tt) []) → (∀ e, Φ (Err (BadLabel e)) []) →
  wp (checkEdit disabled o) h Φ.
Proof. intros Hok Herr. apply wp_lift. destruct (IsEditAllowed _ _) as [[]|e]; auto. Qed.

(** ** Computations whose calls all satisfy a predicate *)

Definition keeps {A} (P : Call → Prop) (m : M A) : Prop := ∀ h, wp m h (λ _ calls, Forall P calls).

Lemma keeps_run {A} P (m : M A) h r h' : keeps P m → m h = (r, h') → ∃ calls, h' = h ++ calls ∧ Forall P calls.
Proof. intros Hm. apply (wp_run _ _ (λ _ calls, Forall P calls)), Hm. Qed.

Lemma keeps_mono {A} (P Q : Call → Prop) (m : M A) : (∀ c, P c → Q c) → keeps P m → keeps Q m.
Proof. intros HPQ Hm h. eapply wp_mono; [|apply Hm]. intros r calls Hc. eapply Forall_impl; [exact Hc|exact HPQ]. Qed.

Lemma keeps_bind {A B} P (m : M A) (f : A → M B) : keeps P m → (∀ a, keeps P (f a)) → keeps P (m ≫= f).
Proof.
  intros Hm Hf h. apply wp_bind. eapply wp_mono; [|apply Hm]. intros [a|e] calls Hc; [|done].
  eapply wp_mono; [|apply Hf]. intros r calls' Hc'. by apply Forall_app.
Qed.

Lemma keeps_lift {A} P (r : result OvnError A) : keeps P (lift r).
Proof. intros h. by apply wp_lift. Qed.

Lemma keeps_ret {A} P (a : A) : keeps P (mret a).
Proof. intros h. by apply wp_ret. Qed.

Lemma keeps_fail {A} P e : keeps P (fail (A:=A) e).
Proof. intros h. by apply wp_fail. Qed.

Lemma keeps_read {A} P (f : list Call → A) : keeps P (read f).
Proof. intros h. by apply wp_read. Qed.

Lemma keeps_attempt {A} P (m : M A) : keeps P m → keeps P (attempt m).
Proof. intros Hm h. apply wp_attempt. eapply wp_mono; [|apply Hm]. done. Qed.

Lemma keeps_logged {A} P (m : M A) : keeps P m → keeps P (logged m).
Proof. intros Hm h. apply wp_logged. eapply wp_mono; [|apply Hm]. done. Qed.

Lemma keeps_create P kind (o : Obj kind) : (∀ r, P (Created kind o r)) → keeps P (call (Create kind o)).
Proof. intros HP h. apply wp_create. intros r. by repeat constructor. Qed.

Lemma keeps_update P kind (o : Obj kind) : (∀ r, P (Updated kind o r)) → keeps P (call (Update kind o)).
Proof. intros HP h. apply wp_update. intros r. by repeat constructor. Qed.

Lemma keeps_delete P kind name : (∀ r, P (Deleted kind name r)) → keeps P (call (Delete kind name)).
Proof. intros HP h. apply wp_delete. intros r. by repeat constructor. Qed.

Lemma keeps_list P kind sel : (∀ r, P (Listed kind sel r)) → keeps P (call (List kind sel)).
Proof. intros HP h. apply wp_list. intros r. by repeat constructor. Qed.

Lemma keeps_create_nad P nad : (∀ r, P (NadCreated nad r)) → keeps P (call (CreateNetAttach nad)).
Proof. intros HP h. apply wp_create_nad. intros r. by repeat constructor. Qed.

Lemma keeps_get P kind name : (∀ o e, P (Got kind name o e)) → keeps P (get kind name).
Proof. intros HP h. apply wp_get; intros; by repeat constructor. Qed.

Lemma keeps_getObject P kind name : (∀ o e, P (Got kind name o e)) → keeps P (getObject kind name).
Proof. intros HP h. apply wp_getObject; intros; by repeat constructor. Qed.

Lemma keeps_deleteIgnoreNotFound P kind name :
  (∀ r, P (Deleted kind name r)) → keeps P (deleteIgnoreNotFound kind name).
Proof. intros HP h. apply wp_deleteIgnoreNotFound; intros; by repeat constructor. Qed.

Lemma keeps_each {A} P (f : A → M unit) l : (∀ x, x ∈ l → keeps P (f x)) → keeps P (each f l).
Proof.
  induction l as [|x l IH]; intros Hf; cbn [each]; [apply keeps_ret|].
  apply keeps_bind; [apply Hf; left|]. intros _. apply IH. intros y Hy. apply Hf. by right.
Qed.

(** ** Guards *)

(** Nothing is written unless the object was read, belongs to the project and may be edited. *)
Definition guarded (disabled : list (string * string)) (kind : Kind) (name namespace : string)
    (calls : list Call) : Prop :=
  Forall is_read calls ∨
  ∃ o rest, calls = Got kind name o None :: rest ∧
    default EmptyString (labelsOf kind o !! SpxLabelProjectID) = namespace ∧
    IsEditAllowed disabled (labelsOf kind o) = Ok tt.

Lemma guard_spec {A} disabled kind name namespace (f : Obj kind → M A) h :
  (∀ o, keeps (λ _, True) (f o)) →
  wp (o ← get kind name; _ ← checkProject o namespace; _ ← checkEdit disabled o; f o) h
    (λ _ calls, guarded disabled kind name namespace calls).
Proof.
  intros Hf. apply wp_bind, wp_get; [|intros o e; left; by repeat constructor]. intros o.
  apply wp_bind, wp_checkProject; intros Hl; [|left; by repeat constructor].
  apply wp_bind, wp_checkEdit; [|intros e; left; by repeat constructor]. intros He.
  eapply wp_mono; [|apply Hf]. intros r calls _. right. by exists o, calls.
Qed.
End wp.

(** Follows the text of an operation; what is left are the calls it makes. *)
Ltac keeps_step :=
  lazymatch goal with
  | |- keeps _ (mbind _ _) => apply keeps_bind; [|intros ?]
  | |- keeps _ (mret _) => apply keeps_ret
  | |- keeps _ (fail _) => apply keeps_fail
  | |- keeps _ (lift _) => apply keeps_lift
  | |- keeps _ (convert _) => apply keeps_lift
  | |- keeps _ (checkProject _ _) => apply keeps_lift
  | |- keeps _ (checkEdit _ _) => apply keeps_lift
  | |- keeps _ (read _) => apply keeps_read
  | |- keeps _ (attempt _) => apply keeps_attempt
  | |- keeps _ (logged _) => apply keeps_logged
  | |- keeps ?P (call (Create ?k ?x)) => refine (keeps_create P k x _); intros ?
  | |- keeps ?P (call (Update ?k ?x)) => refine (keeps_update P k x _); intros ?
  | |- keeps _ (call (Delete _ _)) => apply keeps_delete; intros ?
  | |- keeps ?P (call (List ?k ?x)) => refine (keeps_list P k x _); intros ?
  | |- keeps _ (call (CreateNetAttach _)) => apply keeps_create_nad; intros ?
  | |- keeps ?P (get ?k ?x) => refine (keeps_get P k x _); intros ? ?
  | |- keeps ?P (getObject ?k ?x) => refine (keeps_getObject P k x _); intros ? ?
  | |- keeps _ (deleteIgnoreNotFound _ _) => apply keeps_deleteIgnoreNotFound; intros ?
  | |- keeps _ (each _ _) => apply keeps_each; intros ? ?
  | |- keeps _ (let _ := _ in _) => cbv zeta
  | |- keeps _ (match ?x with _ => _ end) => destruct x
  end.

(** The lemmas on the operations are in the database [keeps]. *)
Create HintDb keeps.
Ltac keeps := repeat first [solve [eauto with keeps] | keeps_step]; try done.

(** * What the operations on networks may write

    Every operation on an object that exists reads it first and writes nothing unless it belongs to
    the project of the request and may be edited; the calls of each operation. *)

Section calls.
Context {CL : CaseLib} {UL : UUIDLib} {C : Cluster}.
Context (SpxPrefix : string) (disabled : list (string * string)) (config : ProductsConfig).

(** ** Operations that return their own results *)

Lemma keeps_GetNatGw P namespace name : (∀ o e, P (Got KNatGw name o e)) → keeps P (GetNatGw namespace name).
Proof.
  intros HP h. unfold wp, GetNatGw, get. cbn. destruct (c_Get C h KNatGw name) as [o [[]|]]; cbn;
    try (eexists _, [_]; split; [done|by repeat constructor]).
  destruct (CheckProjectLabel _ _ _); eexists _, [_]; (split; [done|by repeat constructor]).
Qed.

Lemma keeps_DeleteNAD P namespace name : (∀ r, P (NadDeleted namespace name r)) → keeps P (DeleteNAD namespace name).
Proof.
  intros HP h. unfold wp, DeleteNAD. cbn. destruct (c_DeleteNetAttach C h namespace name) as [[]|[]];
    eexists _, [_]; (split; [done|by repeat constructor]).
Qed.

Lemma keeps_ListSnats P namespace eip :
  (∀ o e, P (Got KSnat eip o e)) → (∀ sel r, P (Listed KSnat sel r)) → keeps P (ListSnats namespace eip).
Proof.
  intros HG HL h. unfold wp, ListSnats. cbn. destruct (c_Get C h KSnat eip) as [o [e|]]; cbn.
  - case_decide; [eexists _, [_]; split; [done|by repeat constructor]|]. rewrite <-app_assoc.
    destruct (c_List C _ KSnat _) as [l|[]]; eexists _, [_; _]; (split; [done|by repeat constructor]).
  - eexists _, [_]. split; [done|by repeat constructor].
Qed.

Lemma keeps_ListDnats P namespace eip : (∀ sel r, P (Listed KDnat sel r)) → keeps P (ListDnats namespace eip).
Proof.
  intros HL h. unfold wp, ListDnats. cbn. destruct (c_List C h KDnat _) as [l|[]];
    eexists _, [_]; (split; [done|by repeat constructor]).
Qed.

Lemma keeps_getRuleSubnet P name projectID : (∀ o e, P (Got KSubnet name o e)) → keeps P (getRuleSubnet name projectID).
Proof.
  intros HP h. unfold wp, getRuleSubnet, get. cbn.
  case_decide; [eexists _, []; split; [by rewrite app_nil_r|constructor]|].
  destruct (c_Get C h KSubnet name) as [o [[]|]]; cbn; try (eexists _, [_]; split; [done|by repeat constructor]).
  repeat case_decide; eexists _, [_]; (split; [done|by repeat constructor]).
Qed.

Lemma keeps_serviceVPC P rule : (∀ ns name r, P (ServiceRead ns name r)) → keeps P (serviceVPC rule).
Proof.
  intros HP h. unfold wp, serviceVPC. cbn. destruct (c_GetServiceAnnotations C h _ _) as [r|[]];
    eexists _, [_]; (split; [done|by repeat constructor]).
Qed.

Lemma keeps_anyInUse P vpc selfName rules : (∀ ns name r, P (ServiceRead ns name r)) → keeps P (anyInUse vpc selfName rules).
Proof.
  intros HP. induction rules as [|rule rules IH]; cbn [anyInUse]; [apply keeps_ret|]. case_decide; [done|].
  apply keeps_bind; [case_decide; [by apply keeps_serviceVPC|apply keeps_ret]|].
  intros other. case_decide; [apply keeps_ret|done].
Qed.

Lemma keeps_DeleteNatGateway P namespace vpcEID name :
  (∀ c, is_read c → P c) → (∀ o r, P (Updated KVpc o r)) → (∀ r, P (Deleted KNatGw name r)) →
  keeps P (DeleteNatGateway disabled namespace vpcEID name).
Proof.
  intros HR HU HD h. unfold DeleteNatGateway, wp, get. cbn [Get calls_of].
  destruct (c_Get C h KNatGw name) as [o e] eqn:HG. cbn [fst snd].
  assert (HP : P (Got KNatGw name o e)) by by apply HR.
  destruct e as [[]|]; [eexists _, [_]; (split; [done|by repeat constructor])..|].
  assert (Hk : keeps P (_ ← checkProject (kind:=KNatGw) o namespace; _ ← checkEdit disabled (kind:=KNatGw) o;
    _ ← RemoveNatGateway vpcEID name (g_LanIP o); call (Delete KNatGw name))).
  { unfold RemoveNatGateway. keeps; auto. by apply HR. }
  destruct (Hk (h ++ [Got KNatGw name o None])) as (r & calls & -> & Hc).
  exists r, (Got KNatGw name o None :: calls). split; [by rewrite <-app_assoc|by constructor].
Qed.

(** ** The calls of the operations, for a predicate that holds of every read *)

Section reads.
Context (P : Call → Prop) (HR : ∀ c, is_read c → P c).

Lemma keeps_reads_GetNatGw namespace name : keeps P (GetNatGw namespace name).
Proof. apply keeps_GetNatGw. intros o e. by apply HR. Qed.

Lemma keeps_reads_ListSnats namespace eip : keeps P (ListSnats namespace eip).
Proof. apply keeps_ListSnats; intros; by apply HR. Qed.

Lemma keeps_reads_ListDnats namespace eip : keeps P (ListDnats namespace eip).
Proof. apply keeps_ListDnats; intros; by apply HR. Qed.

Lemma keeps_reads_getRuleSubnet name projectID : keeps P (getRuleSubnet name projectID).
Proof. apply keeps_getRuleSubnet. intros; by apply HR. Qed.

Lemma keeps_checkVIPAvailable vip vpc selfName : keeps P (checkVIPAvailable vip vpc selfName).
Proof.
  unfold checkVIPAvailable, vipInUse. keeps. apply keeps_anyInUse. intros; by apply HR.
Qed.

Lemma keeps_getAccessibleSubnet name projectID : keeps P (getAccessibleSubnet name projectID).
Proof. unfold getAccessibleSubnet. keeps. by apply HR. Qed.

Lemma keeps_checkTargets subnet spec : keeps P (checkTargets subnet spec).
Proof. apply keeps_lift. Qed.

Lemma keeps_checkVpcOwnership vpcName projectID : keeps P (checkVpcOwnership vpcName projectID).
Proof. unfold checkVpcOwnership. keeps. by apply HR. Qed.

Lemma keeps_natGwPlan s gw namespace name lanIP excludeIps : keeps P (natGwPlan s gw namespace name lanIP excludeIps).
Proof. unfold natGwPlan, IsEIPInSubnet. keeps. all: by apply HR. Qed.

Lemma keeps_updateVPC vpc namespace name routes : (∀ o r, P (Updated KVpc o r)) →
  keeps P (updateVPC vpc namespace name routes).
Proof. intros HU. unfold updateVPC, fetchNatGwStaticRoutes, listBatchSubnet. keeps; by apply HR. Qed.

Lemma keeps_CreateNatGateway m lanIP vpcEID :
  (∀ o r, P (Updated KVpc o r)) → (∀ o r, P (Created KNatGw o r)) →
  keeps P (CreateNatGateway SpxPrefix config m lanIP vpcEID).
Proof.
  intros HU HC. unfold CreateNatGateway, AddNatGateway. keeps; [by apply HR|by apply keeps_updateVPC].
Qed.

Lemma keeps_DeleteEip namespace name :
  (∀ kind name r, kind ∈ [KEip; KFip; KSnat; KDnat] → P (Deleted kind name r)) →
  keeps P (DeleteEip disabled namespace name).
Proof.
  intros HD. unfold DeleteEip. keeps; try (by apply HR); try (apply HD; set_solver).
  - apply keeps_reads_ListSnats.
  - apply keeps_reads_ListDnats.
Qed.

(** The rules of an address. *)
Lemma keeps_rules m spec :
  (∀ kind o r, kind ∈ [KFip; KSnat; KDnat] → P (Created kind o r)) →
  keeps P (CreateFip SpxPrefix (InternalIPOf spec) m) ∧
  (∀ s, keeps P (CreateSNAT SpxPrefix s m)) ∧ (∀ d, keeps P (CreateDNAT SpxPrefix d m)).
Proof.
  intros HC. unfold CreateFip, CreateSNAT, CreateDNAT. split_and!; [|intros ?|intros ?]; keeps; apply HC; set_solver.
Qed.
End reads.

(** ** The operations on objects that exist *)

(** Any calls. *)
Lemma keeps_any_rules m spec :
  keeps (λ _, True) (CreateFip SpxPrefix (InternalIPOf spec) m) ∧
  (∀ s, keeps (λ _, True) (CreateSNAT SpxPrefix s m)) ∧ (∀ d, keeps (λ _, True) (CreateDNAT SpxPrefix d m)).
Proof. by apply keeps_rules. Qed.

Lemma keeps_any_orClean m op : keeps (λ _, True) op → keeps (λ _, True) (orClean SpxPrefix disabled m op).
Proof. intros Hop. unfold orClean. keeps. by apply keeps_DeleteEip. Qed.

Lemma keeps_any_changeMode spec m namespace name fip :
  keeps (λ _, True) (changeMode SpxPrefix disabled spec m namespace name fip).
Proof.
  destruct (keeps_any_rules m spec) as (Hf & Hs & Hd). unfold changeMode, CachedDnatsOf.
  keeps; try (by apply keeps_any_orClean). by apply keeps_reads_ListSnats.
Qed.

Lemma keeps_any_updateRules spec m namespace name oldFip :
  keeps (λ _, True) (updateRules SpxPrefix spec m namespace name oldFip).
Proof.
  destruct (keeps_any_rules m spec) as (Hf & Hs & Hd). unfold updateRules, UpdateSnat, UpdateDnat.
  keeps; try done; try (by apply keeps_reads_ListSnats); by apply keeps_reads_ListDnats.
Qed.

Lemma keeps_any_DeleteNatGateway namespace vpcEID name : keeps (λ _, True) (DeleteNatGateway disabled namespace vpcEID name).
Proof. by apply keeps_DeleteNatGateway. Qed.

Lemma guard_prefix {A B} kind name namespace (r : result OvnError A) (f : A → OM (list Call) B) h :
  (∀ a h, wp (f a) h (λ _ calls, guarded disabled kind name namespace calls)) →
  wp (a ← lift r; f a) h (λ _ calls, guarded disabled kind name namespace calls).
Proof. intros Hf. apply wp_bind, wp_lift. destruct r as [a|e]; [apply Hf|by left]. Qed.

Lemma DeleteNatGateway_guarded vpcEID namespace name h :
  wp (DeleteNatGateway disabled namespace vpcEID name) h (λ _ calls, guarded disabled KNatGw name namespace calls).
Proof.
  pose proof (guard_spec disabled KNatGw name namespace
    (λ natGw, _ ← RemoveNatGateway vpcEID name (g_LanIP natGw); call (Delete KNatGw name)) h) as Hg.
  destruct Hg as (r & calls & Hrun & Hg); [intros o; unfold RemoveNatGateway; by keeps|].
  unfold mbind at 1 in Hrun. unfold OM_bind at 1 in Hrun. unfold wp, DeleteNatGateway. destruct (get KNatGw name h) as [[natGw|e] h'].
  - exists r, calls. by rewrite <-Hrun.
  - injection Hrun as <- ->. repeat case_match; eexists _, calls; done.
Qed.

(** C19: Updating a VPC, and updating or deleting a NAT gateway, a subnet, a public address or a load
    balancer, writes nothing, to no object, unless the object was read, carries the project of the request
    and is not protected from edition, whatever the cluster answers. The deletion of a VPC is not one of
    these: it does not look whether the VPC is protected. *)
Theorem network_operations_guarded namespace name h :
  (∀ routes, wp (UpdateVPC disabled routes namespace name) h (λ _ c, guarded disabled KVpc name namespace c)) ∧
  (∀ lanIP, wp (UpdateNatGateway disabled lanIP namespace name) h (λ _ c, guarded disabled KNatGw name namespace c)) ∧
  (∀ vpc, wp (DeleteNatGateway disabled namespace vpc name) h (λ _ c, guarded disabled KNatGw name namespace c)) ∧
  (∀ s, wp (UpdateSubnet SpxPrefix disabled config s namespace name) h
    (λ _ c, guarded disabled KSubnet name namespace c)) ∧
  wp (DeleteSubnet disabled namespace name) h (λ _ c, guarded disabled KSubnet name namespace c) ∧
  (∀ s, wp (UpdateEip SpxPrefix disabled s namespace name) h (λ _ c, guarded disabled KEip name namespace c)) ∧
  wp (DeleteEip disabled namespace name) h (λ _ c, guarded disabled KEip name namespace c) ∧
  (∀ info, wp (UpdateLoadBalancer disabled info namespace name) h (λ _ c, guarded disabled KLb name namespace c)) ∧
  wp (DeleteLoadBalancer disabled namespace name) h (λ _ c, guarded disabled KLb name namespace c).
Proof.
  split_and!.
  - intros routes. refine (guard_spec disabled KVpc name namespace _ h _). intros o. by apply keeps_updateVPC.
  - intros lanIP. refine (guard_spec disabled KNatGw name namespace _ h _). intros o. by keeps.
  - intros vpc. apply DeleteNatGateway_guarded.
  - intros s. unfold UpdateSubnet. apply guard_prefix. intros _ h'.
    refine (guard_spec disabled KSubnet name namespace _ h' _). intros o.
    keeps; try (by apply keeps_reads_GetNatGw); try (by apply keeps_natGwPlan);
      try (by apply keeps_any_DeleteNatGateway); try (by apply keeps_CreateNatGateway); unfold UpdateNatGateway; by keeps.
  - refine (guard_spec disabled KSubnet name namespace _ h _). intros o.
    keeps; [by apply keeps_DeleteNAD|by apply keeps_reads_GetNatGw|by apply keeps_any_DeleteNatGateway].
  - intros s. unfold UpdateEip. apply guard_prefix. intros m h'.
    refine (guard_spec disabled KEip name namespace _ h' _). intros o.
    keeps; [by apply keeps_getAccessibleSubnet|apply keeps_lift|apply keeps_any_changeMode|apply keeps_any_updateRules].
  - refine (guard_spec disabled KEip name namespace _ h _). intros o.
    keeps; [by apply keeps_reads_ListSnats|by apply keeps_reads_ListDnats].
  - intros info. refine (guard_spec disabled KLb name namespace _ h _). intros o.
    keeps; [by apply keeps_reads_getRuleSubnet|by apply keeps_checkVIPAvailable].
  - refine (guard_spec disabled KLb name namespace _ h _). intros o. by keeps.
Qed.
End calls.
