(* ===== verification/EipTheorems.v ===== *)
(** * The theorems of the public addresses

    What the rules of an address may translate, and what a failed creation leaves. *)

From S2P Require Import Prelude Strings SpxId ControllerQuota Labels IP Addresses NetworkChecks.
From S2P Require Import NetworkCheckTheorems KubeOvn Vpcs Subnets Eips LoadBalancers NetworkCalls.

(** ** What a rule may translate *)

(** An address of the subnet or of the load balancers, as it is stored. *)
Definition target_in (nets : list IPNet) (ip : string) : Prop :=
  IsIPInCIDR LoadBalancerVIPCIDR ip = Some true ∨ text_in nets ip.

Definition source_in (nets : list IPNet) (c : string) : Prop :=
  if Contains c "/" then ∃ ip t, IP.ParseCIDR c = Some (ip, t) ∧ Exists (λ n, ContainsNet n t = true) nets
  else text_in nets (TrimSpace c).

Definition rule_in (nets : list IPNet) (kind : Kind) : Obj kind → Prop :=
  match kind with
  | KFip => λ f, target_in nets (f_InternalIP f)
  | KSnat => λ r, source_in nets (sn_InternalCIDR r)
  | KDnat => λ r, target_in nets (dn_InternalIP r)
  | _ => λ _, True
  end.

(** The rules that are created stay in the blocks. *)
Definition rules_in (nets : list IPNet) (c : Call) : Prop :=
  match c with Created kind o _ => rule_in nets kind o | _ => True end.

(** The project owns the subnet or it is shared with it. *)
Definition accessible (projectID : string) (subnet : Subnet) : Prop :=
  default EmptyString (s_Labels subnet !! SpxLabelProjectID) = projectID ∨
  IsSharedWithProject (s_Annotations subnet) projectID = true.

Section eips.
Context {UL : UUIDLib} {C : Cluster}.
Context (SpxPrefix : string) (disabled : list (string * string)) (config : ProductsConfig).

(** The run ends with a deletion of the address of the metadata. *)
Definition cleaned (m : Metadata) (h calls : list Call) : Prop :=
  ∃ before after, calls = before ++ after ∧
    (DeleteEip disabled (ToSPXID SpxPrefix (ProjectId m)) (eidOf SpxPrefix m) (h ++ before)).2 = h ++ calls.

Lemma cleaned_app m h calls calls' : cleaned m (h ++ calls) calls' → cleaned m h (calls ++ calls').
Proof.
  intros (before & after & -> & Hd). exists (calls ++ before), after.
  split; [by rewrite app_assoc|]. rewrite <-!app_assoc in Hd. exact Hd.
Qed.

(** What a creation of rules does: calls that keep [P], and a clean-up when it fails. *)
Definition creates (P : Call → Prop) (m : Metadata) (op : OM (list Call) unit) : Prop :=
  ∀ h, wp op h (λ r calls, Forall P calls ∧ ∀ e, r = Err e → cleaned m h calls).

Lemma creates_bind P m op (f : unit → OM (list Call) unit) :
  creates P m op → (∀ u, creates P m (f u)) → creates P m (op ≫= f).
Proof.
  intros Hop Hf h. apply wp_bind. eapply wp_mono; [|apply Hop]. intros [u|e] calls [Hc He]; [|split; [done|by intros ? [= <-]; eauto]].
  eapply wp_mono; [|apply Hf]. intros r calls' [Hc' He']. split; [by apply Forall_app|].
  intros e Hr. by apply cleaned_app, (He' e).
Qed.

Lemma creates_ret P m : creates P m (mret tt).
Proof. intros h. by apply wp_ret. Qed.

Lemma creates_each {A} P m (f : A → OM (list Call) unit) l : (∀ x, x ∈ l → creates P m (f x)) → creates P m (each f l).
Proof.
  induction l as [|x l IH]; intros Hf; cbn [each]; [apply creates_ret|].
  apply creates_bind; [apply Hf; left|]. intros _. apply IH. intros y Hy. apply Hf. by right.
Qed.

Lemma creates_orClean P m op : (∀ c, is_read c → P c) →
  (∀ kind name r, kind ∈ [KEip; KFip; KSnat; KDnat] → P (Deleted kind name r)) →
  keeps P op → creates P m (orClean SpxPrefix disabled m op).
Proof.
  intros HR HD Hop h. unfold orClean. apply wp_bind, wp_attempt. eapply wp_mono; [|apply Hop].
  intros [u|e] calls Hc; [apply wp_ret; rewrite app_nil_r; by split|].
  apply wp_bind, wp_logged.
  pose proof (keeps_DeleteEip disabled P HR (ToSPXID SpxPrefix (ProjectId m)) (eidOf SpxPrefix m) HD (h ++ calls))
    as (r & calls' & Hrun & Hc').
  exists r, calls'. split; [done|]. apply wp_fail. rewrite app_nil_r. split; [by apply Forall_app|].
  intros _ _. exists calls, calls'. split; [done|]. by rewrite Hrun, <-app_assoc.
Qed.

(** The rules of a request: those that are created translate its targets, without spaces. *)
Definition requested_rule (spec : EIPSpec) (kind : Kind) : Obj kind → Prop :=
  match kind with
  | KFip => λ f, InternalIPOf spec ≠ EmptyString ∧ f_InternalIP f = TrimSpace (InternalIPOf spec)
  | KSnat => λ r, InternalIPOf spec = EmptyString ∧ ∃ s, s ∈ SNAT spec ∧ sn_InternalCIDR r = TrimSpace s
  | KDnat => λ r, InternalIPOf spec = EmptyString ∧ ∃ d, d ∈ DNAT spec ∧ dn_InternalIP r = TrimSpace (InternalIP d)
  | _ => λ _, False
  end.

Lemma creates_rules P m spec : (∀ c, is_read c → P c) → (∀ kind name r, P (Deleted kind name r)) →
  (∀ kind o r, requested_rule spec kind o → P (Created kind o r)) →
  creates P m (if decide (InternalIPOf spec ≠ EmptyString)
    then orClean SpxPrefix disabled m (CreateFip SpxPrefix (InternalIPOf spec) m)
    else _ ← each (λ s, orClean SpxPrefix disabled m (CreateSNAT SpxPrefix s m)) (SNAT spec);
      each (λ d, orClean SpxPrefix disabled m (CreateDNAT SpxPrefix d m)) (DNAT spec)).
Proof.
  intros HR HD HC. case_decide as Hip.
  - apply creates_orClean; [done|by intros|]. unfold CreateFip. keeps; by apply HC.
  - apply creates_bind; [|intros _]; apply creates_each; intros x Hx;
      (apply creates_orClean; [done|by intros|]).
    + unfold CreateSNAT. keeps; apply HC; split; [done|by exists x].
    + unfold CreateDNAT. keeps; apply HC; split; [done|by exists x].
Qed.

(** What the validation of the targets gives for the rules. *)
Lemma targets_Ok c nets spec u kind (o : Obj kind) : blocksOf c = Some nets →
  (if decide (InternalIPOf spec ≠ EmptyString)
   then validateInternalTargets c (InternalIPOf spec) [] []
   else validateInternalTargets c EmptyString (SNAT spec) (DNAT spec)) = Ok u →
  requested_rule spec kind o → rule_in nets kind o.
Proof.
  intros Hc. destruct u. case_decide as Hip; rewrite (validateInternalTargets_Ok c nets) by done.
  - intros [Hok _]. specialize (Hok Hip). destruct kind; cbn; try tauto; [by intros [_ ->]|by intros [? _]..].
  - intros (_ & Hs & Hd). rewrite Forall_forall in Hs. rewrite Forall_forall in Hd.
    destruct kind; cbn; try tauto; [intros (_ & s & Hin & ->); by apply Hs|intros (_ & d & Hin & ->); by apply Hd].
Qed.

Lemma getAccessibleSubnet_spec name projectID h (Φ : result OvnError Subnet → list Call → Prop) :
  (∀ subnet, accessible projectID subnet → Φ (Ok subnet) [Got KSubnet name subnet None]) →
  (∀ e calls, Forall is_read calls → Φ (Err e) calls) → wp (getAccessibleSubnet name projectID) h Φ.
Proof.
  intros Hok Herr. unfold getAccessibleSubnet. case_decide; [apply wp_fail; by apply Herr|].
  apply wp_bind, (wp_get KSubnet name); [|intros o e; apply Herr; by repeat constructor].
  intros subnet. case_decide as Ha; [apply wp_fail; apply Herr; by repeat constructor|].
  apply wp_ret, Hok. unfold accessible.
  destruct (decide (default EmptyString (s_Labels subnet !! SpxLabelProjectID) = projectID)); [by left|right].
  destruct (IsSharedWithProject _ _); [done|]. tauto.
Qed.

(** The creation of a public address either only reads, or it creates the address on the subnet
    that it read, which the project owns or shares, and then only rules whose targets are in the
    blocks of that subnet or, for internal addresses, of the load balancers; when a rule fails, it
    ends with a run of the deletion of the address. *)
Theorem CreateEip_confined s h : wp (CreateEip SpxPrefix disabled config s) h (λ r calls,
    Forall is_read calls ∨
    ∃ m subnet eip created rest,
      ConvertToSpxMetadata (ce_Metadata s) (ce_Metadata s) = (m, None) ∧
      calls = Got KSubnet (ce_SubnetEId s) subnet None :: Created KEip eip created :: rest ∧
      accessible (ToSPXID SpxPrefix (ProjectId m)) subnet ∧
      e_NatGwDp eip = ce_SubnetEId s ∧ e_Name eip = eidOf SpxPrefix m ∧ e_Labels eip = GetLabels SpxPrefix m ∧
      (∀ nets, blocksOf (s_CIDRBlock subnet) = Some nets → Forall (rules_in nets) rest) ∧
      match created, r with
      | Err e, _ => r = Err (KubeFailed e) ∧ rest = []
      | Ok _, Ok _ => True
      | Ok _, Err _ => cleaned m (h ++ take 2 calls) rest
      end).
Proof.
  unfold CreateEip. apply wp_bind, wp_lift.
  destruct (ConvertToSpxMetadata _ _) as [m [e|]] eqn:Hm; [by left|].
  case_decide; [apply wp_fail; by left|]. apply wp_bind, getAccessibleSubnet_spec; [|intros e calls Hc; by left].
  intros subnet Hacc. apply wp_bind, wp_lift.
  destruct (if decide _ then _ else _) as [u|e] eqn:Hok; [|left; by repeat constructor].
  apply wp_bind. eapply (wp_create KEip). intros [[]|e]; cbn [answer].
  - pose (P := λ c : Call, ∀ nets, blocksOf (s_CIDRBlock subnet) = Some nets → rules_in nets c).
    assert (HP : creates P m (if decide (InternalIPOf (ce_Spec s) ≠ EmptyString)
      then orClean SpxPrefix disabled m (CreateFip SpxPrefix (InternalIPOf (ce_Spec s)) m)
      else _ ← each (λ s, orClean SpxPrefix disabled m (CreateSNAT SpxPrefix s m)) (SNAT (ce_Spec s));
        each (λ d, orClean SpxPrefix disabled m (CreateDNAT SpxPrefix d m)) (DNAT (ce_Spec s)))).
    { apply creates_rules; [by intros []|done|]. intros kind o r0 Hr nets Hb. by eapply targets_Ok. }
    eapply wp_mono; [|apply HP]. intros r0 rest [Hc Hclean]. right.
    eexists m, subnet, _, (Ok tt), rest. split_and!; try done.
    + intros nets Hb. eapply Forall_impl; [exact Hc|]. intros c HPc. by apply HPc.
    + destruct r0 as [|e]; [done|]. specialize (Hclean e eq_refl).
      rewrite !app_nil_r, <-!app_assoc in Hclean. exact Hclean.
  - right. eexists m, subnet, _, (Err e), []. split_and!; try done.
Qed.
End eips.

(** * The theorems of the updates of rules

    An update of the DNAT rules of a public address creates what is new and deletes what is gone, in
    this order, and does not touch the rest; the same for the SNAT rules, in the other order. *)

(** ** The comparison *)

Definition oldKey (o : IptablesDnatRule) : string :=
  dnatKey (dn_ExternalPort o) (dn_InternalIP o) (dn_InternalPort o) (dn_Protocol o).

Definition newKey (d : InfoDNAT) : string := dnatKey (ExternalPort d) (InternalIP d) (InternalPort d) (Protocol d).

(** The entry of a key. *)
Definition entryOf (o : option IptablesDnatRule) (d : option InfoDNAT) : option DnatEntry :=
  match o, d with
  | None, None => None
  | Some o, None => Some (mkDnatEntry true false (dn_Name o) noInfo)
  | None, Some d => Some (mkDnatEntry false true EmptyString d)
  | Some o, Some d => Some (mkDnatEntry true true (dn_Name o) d)
  end.

Lemma dnatEntries_lookup news olds k :
  dnatEntries news olds !! k = entryOf (lastOf oldKey olds k) (lastOf newKey news k).
Proof.
  unfold dnatEntries. revert k. induction news as [|d news IH] using rev_ind; intros k.
  - cbn [fold_left]. revert k. induction olds as [|o olds IH] using rev_ind; intros k; [done|].
    rewrite fold_left_app, lastOf_snoc. cbn [fold_left]. fold (oldKey o).
    rewrite lookup_insert. case_decide; [done|]. apply IH.
  - rewrite fold_left_app, lastOf_snoc. cbn [fold_left]. fold (newKey d). rewrite lookup_insert.
    case_decide as Hk; [|apply IH]. rewrite Hk, IH.
    by destruct (lastOf oldKey olds k), (lastOf newKey news k).
Qed.

Section rules.
Context {UL : UUIDLib} {C : Cluster} (SpxPrefix : string).

(** The object of a DNAT rule. *)
Definition dnatRule (item : InfoDNAT) (eipMetadata : Metadata) : result OvnError IptablesDnatRule :=
  m ← ruleMetadata eipMetadata (dnatKey (TrimSpace (ExternalPort item)) (TrimSpace (InternalIP item))
    (TrimSpace (InternalPort item)) (Protocol item));
  Ok (mkIptablesDnatRule (eidOf SpxPrefix m) (GetLabels SpxPrefix m) (eidOf SpxPrefix eipMetadata)
    (TrimSpace (ExternalPort item)) (Protocol item) (TrimSpace (InternalIP item)) (TrimSpace (InternalPort item))).

Lemma CreateDNAT_wp item m h (Φ : result OvnError unit → list Call → Prop) :
  (∀ o u, dnatRule item m = Ok o → Φ (answer u) [Created KDnat o u]) → (∀ e, Φ (Err e) []) →
  wp (CreateDNAT SpxPrefix item m) h Φ.
Proof.
  intros Hok Herr. unfold CreateDNAT. apply wp_bind, wp_lift. destruct (ruleMetadata _ _) as [m'|e] eqn:Hm; [|apply Herr].
  apply (wp_create KDnat). intros u. apply Hok. unfold dnatRule. by rewrite Hm.
Qed.

(** A loop of calls that succeeds makes the call of each element, in order. *)
Lemma wp_each_calls {A} (f : A → OM (list Call) unit) (call_of : A → list Call → Prop) l h :
  (∀ x h, x ∈ l → wp (f x) h (λ r calls, r = Ok tt → call_of x calls)) →
  wp (each f l) h (λ r calls, r = Ok tt → ∃ ls, Forall2 call_of l ls ∧ calls = concat ls).
Proof.
  revert h. induction l as [|x l IH]; intros h Hf; cbn [each].
  { apply wp_ret. intros _. exists []. by split; [constructor|]. }
  apply wp_bind. eapply wp_mono; [|apply Hf; left]. intros [[]|e] calls Hc; [|done].
  eapply wp_mono; [|apply IH; intros y h' Hy; apply Hf; by right]. intros r calls' Hc' Hr.
  destruct (Hc' Hr) as (ls & Hls & ->). exists (calls :: ls). split; [|done]. constructor; [by apply Hc|done].
Qed.

(** The calls of a loop are those of its elements. *)
Lemma concat_calls {A} (call_of : A → list Call → Prop) l ls : Forall2 call_of l ls →
  (∀ c, c ∈ concat ls → ∃ x calls, x ∈ l ∧ call_of x calls ∧ c ∈ calls) ∧
  (∀ x, x ∈ l → ∃ calls, call_of x calls ∧ ∀ c, c ∈ calls → c ∈ concat ls).
Proof.
  induction 1 as [|x calls l ls Hx Hls [IH1 IH2]]; [split; by intros ? ?%elem_of_nil|]. cbn [concat]. split.
  - intros c [Hc|Hc]%elem_of_app; [exists x, calls; split_and!; [left|done..]|].
    destruct (IH1 c Hc) as (y & calls' & ? & ? & ?). exists y, calls'. split_and!; [by right|done..].
  - intros y [->|Hy]%elem_of_cons.
    + exists calls. split; [done|]. intros c Hc. apply elem_of_app. by left.
    + destruct (IH2 y Hy) as (calls' & ? & Hin). exists calls'. split; [done|]. intros c Hc. apply elem_of_app. right. auto.
Qed.

(** What the update does for the text [k]. *)
Definition dnat_change (m : Metadata) (news : list InfoDNAT) (olds : list IptablesDnatRule) (k : string) (c : Call) : Prop :=
  (∃ d o, lastOf newKey news k = Some d ∧ lastOf oldKey olds k = None ∧ dnatRule d m = Ok o ∧
    c = Created KDnat o (Ok tt)) ∨
  (∃ o, lastOf oldKey olds k = Some o ∧ lastOf newKey news k = None ∧ c = Deleted KDnat (dn_Name o) (Ok tt)).

Definition is_deletion (c : Call) : Prop := match c with Deleted _ _ _ => True | _ => False end.

Lemma elem_of_entries news olds e : e ∈ (map_to_list (dnatEntries news olds)).*2 ↔
  ∃ k, entryOf (lastOf oldKey olds k) (lastOf newKey news k) = Some e.
Proof.
  rewrite list_elem_of_fmap. setoid_rewrite <-dnatEntries_lookup. split.
  - intros ([k e'] & -> & Hin). exists k. by apply elem_of_map_to_list.
  - intros (k & Hk). exists (k, e). split; [done|]. by apply elem_of_map_to_list.
Qed.

(** A successful update of DNAT rules creates exactly the requested rules whose text no existing
    rule has and deletes exactly the existing rules whose text is not requested, the last of each
    text; the creations come first, and no other call is made. *)
Theorem UpdateDnat_difference m news olds h :
  wp (UpdateDnat SpxPrefix m news olds) h (λ r calls, r = Ok tt →
    (∀ c, c ∈ calls → ∃ k, dnat_change m news olds k c) ∧
    (∀ k d, lastOf newKey news k = Some d → lastOf oldKey olds k = None →
      ∃ c, c ∈ calls ∧ dnat_change m news olds k c) ∧
    (∀ k o, lastOf oldKey olds k = Some o → lastOf newKey news k = None →
      Deleted KDnat (dn_Name o) (Ok tt) ∈ calls) ∧
    ∃ creations deletions, calls = creations ++ deletions ∧
      Forall (λ c, ¬ is_deletion c) creations ∧ Forall is_deletion deletions).
Proof.
  unfold UpdateDnat. set (entries := (map_to_list (dnatEntries news olds)).*2).
  set (made := λ e calls, if negb (de_Old e) && de_New e
    then ∃ o, dnatRule (de_Info e) m = Ok o ∧ calls = [Created KDnat o (Ok tt)] else calls = []).
  set (gone := λ eid calls, calls = [Deleted KDnat eid (Ok tt)]).
  apply wp_bind. eapply wp_mono; [|apply (wp_each_calls _ made)].
  2:{ intros e h' He. unfold made. destruct (negb (de_Old e) && de_New e); [|by apply wp_ret].
      apply CreateDNAT_wp; [|done]. intros o [[]|] Ho; [|done]. intros _. by exists o. }
  intros [[]|e] creations Hc; [|done]. destruct (Hc eq_refl) as (ls & Hls & ->).
  eapply wp_mono; [|apply (wp_each_calls _ gone)].
  2:{ intros eid h' _. apply (wp_delete KDnat). intros [[]|]; [|done]. by intros _. }
  intros r deletions Hd Hr. destruct (Hd Hr) as (ls' & Hls' & ->). clear Hc Hd.
  destruct (concat_calls _ _ _ Hls) as [Hc1 Hc2]. destruct (concat_calls _ _ _ Hls') as [Hd1 Hd2].
  assert (Hmade : ∀ c, c ∈ concat ls → ∃ k d o, lastOf newKey news k = Some d ∧ lastOf oldKey olds k = None ∧
    dnatRule d m = Ok o ∧ c = Created KDnat o (Ok tt)).
  { intros c (e & calls & (k & He)%elem_of_entries & Hm & Hin)%Hc1. unfold made in Hm.
    destruct (lastOf oldKey olds k) eqn:Ho, (lastOf newKey news k) as [d|] eqn:Hn; try discriminate He;
      injection He as <-; cbn in Hm; try (subst calls; by apply elem_of_nil in Hin).
    destruct Hm as (o & Ho' & ->). apply list_elem_of_singleton in Hin as ->. by exists k, d, o. }
  assert (Hgone : ∀ c, c ∈ concat ls' → ∃ k o, lastOf oldKey olds k = Some o ∧ lastOf newKey news k = None ∧
    c = Deleted KDnat (dn_Name o) (Ok tt)).
  { intros c (eid & calls & Hx & -> & ->%list_elem_of_singleton)%Hd1.
    apply list_elem_of_fmap in Hx as (e & -> & [[Hold Hnew] (k & He)%elem_of_entries]%list_elem_of_filter).
    destruct (lastOf oldKey olds k) as [o|] eqn:Ho, (lastOf newKey news k) eqn:Hn; try discriminate He;
      injection He as <-; cbn in Hold, Hnew; try discriminate Hold; try discriminate Hnew. by exists k, o. }
  split_and!.
  - intros c [(k & d & o & Hc)%Hmade|(k & o & Hc)%Hgone]%elem_of_app; exists k; [left; by exists d, o|right; by exists o].
  - intros k d Hd Ho. destruct (Hc2 (mkDnatEntry false true EmptyString d)) as (calls & (o & Hrule & ->) & Hin).
    { apply elem_of_entries. exists k. by rewrite Ho, Hd. }
    exists (Created KDnat o (Ok tt)). split; [apply elem_of_app; left; apply Hin; left|]. left. by exists d, o.
  - intros k o Ho Hd. destruct (Hd2 (dn_Name o)) as (calls & -> & Hin); [|apply elem_of_app; right; apply Hin; left].
    apply list_elem_of_fmap. exists (mkDnatEntry true false (dn_Name o) noInfo). split; [done|].
    apply list_elem_of_filter. split; [done|]. apply elem_of_entries. exists k. by rewrite Ho, Hd.
  - exists (concat ls), (concat ls'). split_and!; [done|apply Forall_forall..].
    + intros c (k & d & o & _ & _ & _ & ->)%Hmade [].
    + by intros c (k & o & _ & _ & ->)%Hgone.
Qed.
End rules.

(** * The theorems of the load balancers

    What a rule that is written points to, and that no other rule of its VPC has its address. *)

Section load_balancers.
Context {CL : CaseLib} {UL : UUIDLib} {C : Cluster}.
Context (SpxPrefix : string) (disabled : list (string * string)).

(** ** Virtual addresses *)

(** A rule of the same address is in another VPC: the one it is pinned to, or the one that was read
    on its service. *)
Definition elsewhere (vpc : string) (rule : SwitchLBRule) (calls : list Call) : Prop :=
  let other := default EmptyString (lb_Annotations rule !! logicalRouterAnnotation) in
  if decide (other = EmptyString) then
    ∃ annotations, ServiceRead (SpecNamespace (lb_Spec rule)) (ruleServicePrefix +:+ lb_Name rule) (Ok annotations) ∈ calls ∧
      default EmptyString (annotations !! serviceVPCAnnotation) ∉ [EmptyString; vpc]
  else other ≠ vpc.

Lemma elsewhere_app vpc rule calls calls' : elsewhere vpc rule calls ∨ elsewhere vpc rule calls' →
  elsewhere vpc rule (calls ++ calls').
Proof.
  unfold elsewhere. cbv zeta. case_decide; [|tauto].
  intros [(a & Ha & Hv)|(a & Ha & Hv)]; exists a; (split; [apply elem_of_app; tauto|done]).
Qed.

Lemma serviceVPC_spec rule h : wp (serviceVPC rule) h (λ r calls, Forall is_read calls ∧
  ∀ v, r = Ok v → v ≠ EmptyString →
    ∃ a, ServiceRead (SpecNamespace (lb_Spec rule)) (ruleServicePrefix +:+ lb_Name rule) (Ok a) ∈ calls ∧
      default EmptyString (a !! serviceVPCAnnotation) = v).
Proof.
  unfold wp, serviceVPC. cbn. destruct (c_GetServiceAnnotations C h _ _) as [a|[]];
    (eexists _, [_]; split; [done|]; split; [by repeat constructor|]); try done.
  - intros v [= <-] _. exists a. split; [left|done].
  - by intros v [= <-].
Qed.

Lemma anyInUse_spec vpc selfName rules h : wp (anyInUse vpc selfName rules) h (λ r calls,
  Forall is_read calls ∧
  (r = Ok false → ∀ rule, rule ∈ rules → lb_Name rule ≠ selfName → elsewhere vpc rule calls)).
Proof.
  revert h. induction rules as [|rule rules IH]; intros h; cbn [anyInUse].
  { apply wp_ret. split; [done|]. by intros _ rule ?%elem_of_nil. }
  case_decide as Hself.
  { eapply wp_mono; [|apply IH]. intros r calls [Hc Hr]. split; [done|].
    intros Hf other [->|Hin]%elem_of_cons Hne; [done|]. by apply Hr. }
  assert (Hnext : ∀ other h' calls, Forall is_read calls → elsewhere vpc rule calls ∨ other = EmptyString ∨ other = vpc →
    wp (if decide (other = EmptyString ∨ other = vpc) then mret true else anyInUse vpc selfName rules) h' (λ r calls',
      Forall is_read (calls ++ calls') ∧ (r = Ok false → ∀ rule', rule' ∈ rule :: rules → lb_Name rule' ≠ selfName →
        elsewhere vpc rule' (calls ++ calls')))).
  { intros other h' calls Hc Helse. case_decide as Ho; [apply wp_ret; rewrite app_nil_r; by split|].
    eapply wp_mono; [|apply IH]. intros r calls' [Hc' Hr]. split; [by apply Forall_app|].
    intros Hf rule' [->|Hin]%elem_of_cons Hne; apply elsewhere_app; [left; tauto|right; by apply Hr]. }
  apply wp_bind. case_decide as Hother.
  - eapply wp_mono; [|apply serviceVPC_spec]. intros [v|e] calls [Hc Hv]; [|by split]. apply Hnext; [done|].
    destruct (decide (v = EmptyString)); [tauto|]. destruct (decide (v = vpc)); [tauto|]. left.
    destruct (Hv v eq_refl) as (a & Ha & Hav); [done|]. unfold elsewhere. rewrite decide_True by done.
    exists a. split; [done|]. rewrite Hav. set_solver.
  - apply wp_ret, Hnext; [constructor|]. unfold elsewhere. rewrite decide_False by done.
    destruct (decide (default EmptyString (lb_Annotations rule !! logicalRouterAnnotation) = vpc)); tauto.
Qed.

(** A rule of the cache with the address is a candidate, unless it is pinned elsewhere. *)
Lemma candidates_spec rules vpc vip rule : rule ∈ rules → Vip (lb_Spec rule) = vip →
  let other := default EmptyString (lb_Annotations rule !! logicalRouterAnnotation) in
  other = EmptyString ∨ other = vpc →
  rule ∈ rulesByIndex rules (SwitchLBRuleVPCVIPKey vpc vip) ++ rulesByIndex rules (SwitchLBRuleVPCVIPKey UnpinnedVPC vip).
Proof.
  intros Hin <- other Ho. apply elem_of_app. unfold rulesByIndex. rewrite !list_elem_of_filter.
  unfold switchLBRuleVPCVIP. rewrite !list_elem_of_singleton. unfold other, logicalRouterAnnotation in Ho.
  destruct Ho as [Ho|Ho]; rewrite Ho; [by right; rewrite decide_True|].
  case_decide as Hv; [by right|by left].
Qed.

Lemma checkVIPAvailable_spec vip vpc selfName h : wp (checkVIPAvailable vip vpc selfName) h (λ r calls,
  Forall is_read calls ∧ (r = Ok tt → ∀ rule, rule ∈ c_CachedRules C h → lb_Name rule ≠ selfName →
    Vip (lb_Spec rule) = vip → elsewhere vpc rule calls)).
Proof.
  unfold checkVIPAvailable, vipInUse. apply wp_bind, wp_bind, wp_read. eapply wp_mono; [|apply anyInUse_spec].
  intros [[]|e] calls [Hc Hr]; [apply wp_fail|apply wp_ret|]; rewrite ?app_nil_r; (split; [done|]); try done.
  intros _ rule Hin Hself Hvip.
  destruct (decide (default EmptyString (lb_Annotations rule !! logicalRouterAnnotation) ∈ [EmptyString; vpc])) as [Ho|Ho].
  - apply (Hr eq_refl rule); [|done]. apply candidates_spec; [by cbn|done|set_solver].
  - unfold elsewhere. cbv zeta. rewrite decide_False; set_solver.
Qed.

(** ** The rules that are written *)

Lemma getRuleSubnet_spec name projectID h (Φ : result OvnError Subnet → list Call → Prop) :
  (∀ subnet, accessible projectID subnet → s_Vpc subnet ∉ [EmptyString; defaultVPC] →
    Φ (Ok subnet) [Got KSubnet name subnet None]) →
  (∀ e calls, Forall is_read calls → Φ (Err e) calls) → wp (getRuleSubnet name projectID) h Φ.
Proof.
  intros Hok Herr. unfold wp, getRuleSubnet, get. cbn.
  case_decide; [eexists _, []; rewrite app_nil_r; split; [done|by apply Herr]|].
  destruct (c_Get C h KSubnet name) as [subnet [[]|]]; cbn;
    try (eexists _, [_]; split; [done|apply Herr; by repeat constructor]).
  case_decide as Ha; [eexists _, [_]; split; [done|apply Herr; by repeat constructor]|].
  case_decide as Hv; [eexists _, [_]; split; [done|apply Herr; by repeat constructor]|].
  eexists _, [_]. split; [done|]. apply Hok; [|set_solver]. unfold accessible.
  destruct (decide (default EmptyString (s_Labels subnet !! SpxLabelProjectID) = projectID)); [by left|right].
  destruct (IsSharedWithProject _ _); [done|]. tauto.
Qed.

(** What a specification that was built and checked on a subnet holds. *)
Definition valid_spec (info : LoadBalancerInfo) (subnet : Subnet) (spec : SwitchLBRuleSpec) : Prop :=
  Vip spec = li_VIP info ∧ IsIPInCIDR LoadBalancerVIPCIDR (Vip spec) = Some true ∧
  Forall (λ ip, is_Some (IP.ParseIP ip ≫= IP.To4) ∧ IsIPInCIDR (s_CIDRBlock subnet) ip = Some true) (Endpoints spec) ∧
  Endpoints spec = (if decide (li_Selectors info = []) then li_Endpoints info else []).

Lemma spec_valid info namespace subnet spec u :
  buildSpec (li_VIP info) namespace (li_Selectors info) (li_Endpoints info) (li_Ports info) = Ok spec →
  checkEndpointsInSubnet (s_CIDRBlock subnet) (Endpoints spec) = Ok u → valid_spec info subnet spec ∧ SpecNamespace spec = namespace.
Proof.
  intros ([] & Hvip & ([selector endpoints] & Hsel & Hspec)%result_bind_Ok)%result_bind_Ok Hin. injection Hspec as <-.
  cbn [Endpoints] in Hin. destruct u. unfold checkEndpointsInSubnet in Hin. rewrite forM_Ok, Forall_forall in Hin.
  unfold checkVIP in Hvip. destruct (IsIPInCIDR LoadBalancerVIPCIDR (li_VIP info)) as [[]|] eqn:Hv; try discriminate Hvip.
  split; [|done]. unfold valid_spec. cbn. split; [done|]. split; [done|].
  destruct (decide (li_Selectors info = [])) as [He|He].
  - rewrite decide_False in Hsel by tauto. apply result_bind_Ok in Hsel as ([] & Hends & Heq). injection Heq as <- <-.
    split; [|done]. rewrite forM_Ok, Forall_forall in Hends. apply Forall_forall. intros ip Hip.
    specialize (Hends ip Hip). specialize (Hin ip Hip). unfold checkEndpoint in Hends.
    destruct (IP.ParseIP ip ≫= IP.To4); [|discriminate Hends]. split; [by eexists|].
    destruct (IsIPInCIDR (s_CIDRBlock subnet) ip) as [[]|]; done.
  - rewrite decide_True in Hsel by done. destruct (Labels.ParseLabels _ _); [|discriminate Hsel].
    injection Hsel as <- <-. by split; [constructor|].
Qed.

(** The rule is right for the subnet, and no other rule in the cache has its address in the VPC. *)
Record good_rule (info : LoadBalancerInfo) (namespace eid : string) (h : list Call) (subnet : Subnet)
    (spec : SwitchLBRuleSpec) (reads : list Call) : Prop := {
  good_subnet : accessible namespace subnet;
  good_vpc : s_Vpc subnet ∉ [EmptyString; defaultVPC];
  good_spec : valid_spec info subnet spec;
  good_reads : Forall is_read reads;
  good_vip : ∀ rule, rule ∈ c_CachedRules C h → lb_Name rule ≠ eid → Vip (lb_Spec rule) = Vip spec →
    elsewhere (s_Vpc subnet) rule reads }.

Lemma write_checked info namespace eid h subnet spec (f : OM (list Call) unit) (Φ : _ → _ → Prop) :
  accessible namespace subnet → s_Vpc subnet ∉ [EmptyString; defaultVPC] →
  buildSpec (li_VIP info) namespace (li_Selectors info) (li_Endpoints info) (li_Ports info) = Ok spec →
  (∀ e calls, Forall is_read calls → Φ (Err e) calls) →
  (∀ reads, good_rule info namespace eid h subnet spec reads → SpecNamespace spec = namespace →
    wp f (h ++ reads) (λ r calls, Φ r (reads ++ calls))) →
  wp (_ ← lift (checkEndpointsInSubnet (s_CIDRBlock subnet) (Endpoints spec));
      _ ← checkVIPAvailable (li_VIP info) (s_Vpc subnet) eid; f) h Φ.
Proof.
  intros Hacc Hvpc Hspec Herr Hf. apply wp_bind, wp_lift.
  destruct (checkEndpointsInSubnet _ _) as [u|e] eqn:Hends; [|by apply Herr].
  destruct (spec_valid _ _ _ _ _ Hspec Hends) as [Hvalid Hns]. rewrite app_nil_r.
  apply wp_bind. eapply wp_mono; [|apply checkVIPAvailable_spec]. intros [[]|e] reads [Hreads Hvip]; [|by apply Herr].
  apply Hf; [|done]. split; try done. intros rule Hin Hne Heq. apply Hvip; [done|done|done|]. rewrite Heq. apply Hvalid.
Qed.

(** C22: A load balancer is created or updated only with an address of the reserved range that no
    other rule of its VPC in the cache has, and with endpoints that are version 4 addresses of the
    subnet, which the project owns or shares and which is in a VPC of its own; a rule that is created
    is pinned to the subnet and its VPC, and otherwise nothing is written. *)
Theorem load_balancer_valid m info namespace name h :
  wp (CreateLoadBalancer SpxPrefix m info) h (λ _ calls,
    Forall is_read calls ∨ ∃ subnet reads rule u,
      let h' := h ++ [Got KSubnet (li_SubnetEId info) subnet None] in
      calls = Got KSubnet (li_SubnetEId info) subnet None :: reads ++ [Created KLb rule u] ∧
      good_rule info (ToSPXID SpxPrefix (ProjectId m)) (eidOf SpxPrefix m) h' subnet (lb_Spec rule) reads ∧
      lb_Name rule = eidOf SpxPrefix m ∧ lb_Labels rule = GetLabels SpxPrefix m ∧
      SpecNamespace (lb_Spec rule) = ToSPXID SpxPrefix (ProjectId m) ∧
      lb_Annotations rule !! logicalRouterAnnotation = Some (s_Vpc subnet) ∧
      lb_Annotations rule !! logicalSwitchAnnotation = Some (s_Name subnet)) ∧
  wp (UpdateLoadBalancer disabled info namespace name) h (λ _ calls,
    Forall is_read calls ∨ ∃ lb subnet reads spec u,
      let h' := h ++ [Got KLb name lb None; Got KSubnet (li_SubnetEId info) subnet None] in
      calls = Got KLb name lb None :: Got KSubnet (li_SubnetEId info) subnet None :: reads ++ [Updated KLb (with_Spec lb spec) u] ∧
      good_rule info namespace name h' subnet spec reads ∧
      default EmptyString (lb_Labels lb !! SpxLabelProjectID) = namespace ∧
      default EmptyString (lb_Annotations lb !! logicalSwitchAnnotation) = s_Name subnet).
Proof.
  split.
  - unfold CreateLoadBalancer. apply wp_bind, wp_lift. destruct (buildSpec _ _ _ _ _) as [spec|e] eqn:Hspec; [|by left].
    apply wp_bind, getRuleSubnet_spec; [|intros e calls Hc; by left]. intros subnet Hacc Hvpc. rewrite !app_nil_r.
    eapply (write_checked info); [exact Hacc|exact Hvpc|exact Hspec|intros e calls Hc; left; by constructor|].
    intros reads Hgood Hns. apply (wp_create KLb). intros u. right. eexists subnet, reads, _, u.
    split; [done|]. split; [exact Hgood|]. split_and!; [done|done|done| |]; cbn; by simplify_map_eq.
  - unfold UpdateLoadBalancer. apply wp_bind, (wp_get KLb name); [|intros o e; left; by repeat constructor]. intros lb.
    apply wp_bind, wp_checkProject; intros Hproject; [|left; by repeat constructor].
    apply wp_bind, wp_checkEdit; [intros Hedit|intros e; left; by repeat constructor].
    cbv zeta. case_decide; [apply wp_fail; left; by repeat constructor|].
    apply wp_bind, wp_lift. destruct (buildSpec _ _ _ _ _) as [spec|e] eqn:Hspec; [|left; by repeat constructor].
    apply wp_bind, getRuleSubnet_spec; [|intros e calls Hc; left; by apply Forall_app_2; [repeat constructor|]].
    intros subnet Hacc Hvpc. case_decide as Hpin; [apply wp_fail; left; by repeat constructor|].
    rewrite !app_nil_r, <-app_assoc.
    eapply (write_checked info); [exact Hacc|exact Hvpc|exact Hspec|intros e calls Hc; left; by repeat constructor|].
    intros reads Hgood Hns. apply (wp_update KLb). intros u. right. exists lb, subnet, reads, spec, u.
    split; [done|]. split; [exact Hgood|]. split; [exact Hproject|]. done.
Qed.
End load_balancers.
