(* ===== verification/SubnetTheorems.v ===== *)
(** * The theorems of the static routes

    Which routes a request may ask for, and which ones the VPC then has. *)

From S2P Require Import Prelude Strings Strconv SpxId ControllerQuota Labels IP Addresses AddressTheorems.
From S2P Require Import NetworkChecks NetworkCheckTheorems KubeOvn Vpcs Subnets NetworkCalls.

(** ** Requests *)

(** The route as it is stored. *)
Definition normalized (sr : StaticRoute) (cidr : string) : StaticRoute :=
  mkStaticRoute (Policy sr) cidr (NextHopIP sr) (RouteTable sr).

(** The CIDR parses, the table is a subnet of the VPC and the next hop an address of one of them. *)
Definition valid_route (vpcSubnets : list Subnet) (sr : StaticRoute) : Prop :=
  is_Some (ParsePrefix (CIDR sr)) ∧
  RouteTable sr ≠ EmptyString ∧ RouteTable sr ∈ s_Name <$> vpcSubnets ∧
  ∃ name subnet, lastOf s_Name vpcSubnets name = Some subnet ∧ IsIPInCIDR (s_CIDRBlock subnet) (NextHopIP sr) = Some true.

Lemma mapSubnets_lookup vpcSubnets name : mapSubnets vpcSubnets !! name = lastOf s_Name vpcSubnets name.
Proof.
  unfold mapSubnets. induction vpcSubnets as [|s l IH] using rev_ind; [done|].
  rewrite fold_left_app, lastOf_snoc. cbn [fold_left]. rewrite lookup_insert. by case_decide.
Qed.

Lemma inSubnets_spec vpcSubnets ip : inSubnets (mapSubnets vpcSubnets) ip = true ↔
  ∃ name subnet, lastOf s_Name vpcSubnets name = Some subnet ∧ IsIPInCIDR (s_CIDRBlock subnet) ip = Some true.
Proof.
  unfold inSubnets. rewrite existsb_exists. setoid_rewrite <-mapSubnets_lookup. split.
  - intros ([name subnet] & Hin & Hip). exists name, subnet.
    split; [by apply elem_of_map_to_list, list_elem_of_In|]. cbn in Hip.
    destruct (IsIPInCIDR (s_CIDRBlock subnet) ip) as [[]|]; done.
  - intros (name & subnet & Hin & Hip). exists (name, subnet).
    split; [by apply list_elem_of_In, elem_of_map_to_list|]. cbn. by rewrite Hip.
Qed.

Lemma lastOf_is_Some {A} (key : A → string) l k : k ∈ key <$> l → is_Some (lastOf key l k).
Proof.
  induction l as [|x l IH] using rev_ind; [by intros ?%elem_of_nil|]. rewrite fmap_app, lastOf_snoc.
  intros [Hk|Hk%list_elem_of_singleton]%elem_of_app; case_decide; eauto. congruence.
Qed.

Lemma table_spec vpcSubnets table :
  default EmptyString (s_Name <$> mapSubnets vpcSubnets !! table) ≠ EmptyString ↔
  table ≠ EmptyString ∧ table ∈ s_Name <$> vpcSubnets.
Proof.
  rewrite mapSubnets_lookup. split.
  - destruct (lastOf s_Name vpcSubnets table) as [s|] eqn:Hl; [|done]. apply lastOf_Some in Hl as [Hin <-].
    cbn. intros Hne. split; [done|]. by apply list_elem_of_fmap_2.
  - intros [Hne Hin]. apply lastOf_is_Some in Hin as [s Hs]. rewrite Hs. apply lastOf_Some in Hs as [_ <-]. done.
Qed.

(** The route that a request adds, if any: not one that a NAT gateway already gives. *)
Definition kept (nat : gmap string NatRoute) (sr : StaticRoute) : option StaticRoute :=
  match normalizeCIDR (CIDR sr) with
  | Err _ => None
  | Ok cidr =>
    let sr := normalized sr cidr in
    match nat !! shortKey sr cidr with
    | Some v => if decide (NextHopIP (nr_Route v) = NextHopIP sr) then None else Some sr
    | None => Some sr
    end
  end.

(** Some route of the request takes the place of the route of a gateway. *)
Definition overrides (nat : gmap string NatRoute) (l : list StaticRoute) (k : string) : Prop :=
  ∃ sr, sr ∈ omap (kept nat) l ∧ shortKey sr (CIDR sr) = k.

(** What the loop has after the routes [l]. *)
Record added (vpcSubnets : list Subnet) (nat0 : gmap string NatRoute) (l : list StaticRoute)
    (acc : gmap string NatRoute * gmap string StaticRoute) : Prop := {
  added_valid : Forall (valid_route vpcSubnets) l;
  added_new k : acc.2 !! k = lastOf fullKey (omap (kept nat0) l) k;
  added_nat k : nr_Route <$> acc.1 !! k = nr_Route <$> nat0 !! k;
  added_overriden k v : acc.1 !! k = Some v →
    (nr_IsOverriden v = true ↔ overrides nat0 l k ∨ (nr_IsOverriden <$> nat0 !! k) = Some true) }.

Lemma addStaticRoute_Ok vpcSubnets acc sr acc' :
  addStaticRoute (mapSubnets vpcSubnets) acc sr = Ok acc' → valid_route vpcSubnets sr.
Proof.
  unfold addStaticRoute. destruct acc as [nat new]. destruct (normalizeCIDR (CIDR sr)) as [cidr|] eqn:Hn; [|done].
  cbn [mbind result_bind]. case_decide as Hip; [done|]. case_decide as Htable; [done|].
  destruct (inSubnets _ _) eqn:Hin; [|done]. intros _.
  apply table_spec in Htable as [Hne Hmem]. split_and!; [|done|done|by apply inSubnets_spec].
  unfold normalizeCIDR in Hn. by destruct (ParsePrefix (CIDR sr)).
Qed.

Lemma addStaticRoute_valid vpcSubnets acc sr : valid_route vpcSubnets sr →
  is_Ok (addStaticRoute (mapSubnets vpcSubnets) acc sr) = true.
Proof.
  intros ([p Hp] & Hne & Hmem & Hin). unfold addStaticRoute, normalizeCIDR. destruct acc as [nat new].
  rewrite Hp. cbn [mbind result_bind]. rewrite decide_False.
  2:{ intros [_ Hip]. destruct Hin as (name & subnet & _ & Hin). unfold IsIPInCIDR in Hin. by rewrite Hip in Hin. }
  rewrite decide_False by by apply table_spec. rewrite (proj2 (inSubnets_spec _ _) Hin). cbn [negb].
  case_match; [case_decide|]; done.
Qed.

Lemma kept_add vpcSubnets nat0 l acc sr acc' : added vpcSubnets nat0 l acc →
  addStaticRoute (mapSubnets vpcSubnets) acc sr = Ok acc' →
  match kept nat0 sr with
  | None => acc' = acc
  | Some sr' => acc'.2 = <[fullKey sr' := sr']> acc.2 ∧
      acc'.1 = (let k := shortKey sr' (CIDR sr') in
                match acc.1 !! k with Some v => <[k := mkNatRoute (nr_Route v) true]> acc.1 | None => acc.1 end)
  end.
Proof.
  intros Hacc. unfold addStaticRoute, kept. destruct acc as [nat new].
  destruct (normalizeCIDR (CIDR sr)) as [cidr|] eqn:Hn; [|done]. cbn [mbind result_bind].
  case_decide; [done|]. case_decide; [done|]. destruct (negb _); [done|].
  fold (normalized sr cidr). set (k := shortKey (normalized sr cidr) cidr).
  pose proof (added_nat _ _ _ _ Hacc k) as Hnat. cbn in Hnat. cbv zeta.
  destruct (nat !! k) as [v|] eqn:Hv, (nat0 !! k) as [v0|] eqn:Hv0; try discriminate Hnat; cbn in Hnat.
  - injection Hnat as <-. case_decide as Hd; case_decide as Hd'; try done.
    + intros [= <-]. cbn. fold k. by rewrite Hv.
    + by intros [= <-].
  - intros [= <-]. cbn. fold k. by rewrite Hv.
Qed.

Lemma added_step vpcSubnets nat0 l acc sr acc' : added vpcSubnets nat0 l acc →
  addStaticRoute (mapSubnets vpcSubnets) acc sr = Ok acc' → added vpcSubnets nat0 (l ++ [sr]) acc'.
Proof.
  intros Hacc Hadd. pose proof (addStaticRoute_Ok _ _ _ _ Hadd) as Hvalid.
  pose proof (kept_add _ _ _ _ _ _ Hacc Hadd) as Hk.
  assert (Homap : omap (kept nat0) (l ++ [sr]) = omap (kept nat0) l ++ omap (kept nat0) [sr]) by apply omap_app.
  cbn in Homap. destruct (kept nat0 sr) as [sr'|] eqn:Hkept.
  2:{ subst acc'. rewrite app_nil_r in Homap. destruct Hacc as [Hval Hnew Hnat Hover].
      split; rewrite ?Homap; try done; [by apply Forall_app_2; [|constructor]|].
      intros k v Hv. unfold overrides. rewrite Homap. by apply Hover. }
  destruct Hk as [Hnew' Hnat']. cbv zeta in Hnat'. destruct Hacc as [Hval Hnew Hnat Hover]. split.
  - by apply Forall_app_2; [|constructor].
  - intros k. rewrite Homap, lastOf_snoc, Hnew', lookup_insert. by case_decide.
  - intros k. rewrite Hnat', <-Hnat. destruct (acc.1 !! shortKey sr' (CIDR sr')) as [v|] eqn:Hv; [|done].
    rewrite lookup_insert. case_decide as Heq; [|done]. by rewrite <-Heq, Hv.
  - intros k v. rewrite Hnat'.
    assert (Hsplit : overrides nat0 (l ++ [sr]) k ↔ overrides nat0 l k ∨ shortKey sr' (CIDR sr') = k).
    { unfold overrides. rewrite Homap. setoid_rewrite elem_of_app. setoid_rewrite list_elem_of_singleton. naive_solver. }
    rewrite Hsplit. destruct (acc.1 !! shortKey sr' (CIDR sr')) as [v'|] eqn:Hv'.
    + rewrite lookup_insert. case_decide as Heq; [intros [= <-]; cbn; tauto|]. intros Hv.
      rewrite (Hover k v Hv). tauto.
    + intros Hv. rewrite (Hover k v Hv). destruct (decide (shortKey sr' (CIDR sr') = k)); [congruence|]. tauto.
Qed.

Lemma foldM_added vpcSubnets nat0 l1 l2 acc acc' : added vpcSubnets nat0 l1 acc →
  foldM (addStaticRoute (mapSubnets vpcSubnets)) acc l2 = Ok acc' → added vpcSubnets nat0 (l1 ++ l2) acc'.
Proof.
  revert l1 acc. induction l2 as [|sr l2 IH]; intros l1 acc Hacc; cbn [foldM].
  { intros [= <-]. by rewrite app_nil_r. }
  intros (acc1 & Hadd & Hfold)%result_bind_Ok.
  pose proof (IH (l1 ++ [sr]) acc1 (added_step _ _ _ _ _ _ Hacc Hadd) Hfold) as Hres.
  by rewrite <-app_assoc in Hres.
Qed.

Lemma added_start vpcSubnets nat0 : added vpcSubnets nat0 [] (nat0, ∅).
Proof.
  split; [constructor|done|done|]. intros k v Hv. cbn in Hv |- *. rewrite Hv. cbn. split.
  - intros ->. by right.
  - intros [(sr & Hin & _)|[=]]; [by apply elem_of_nil in Hin|done].
Qed.

(** A list of static routes is accepted exactly when each one is valid; then the VPC has the
    routes of its NAT gateways that no requested route takes the place of, and the requested routes,
    with normal CIDRs and the last of each key, that are not already those of a gateway. *)
Theorem parseStaticRoutes_spec vpcSubnets l nat :
  (is_Ok (parseStaticRoutes vpcSubnets l nat) = true ↔ Forall (valid_route vpcSubnets) l) ∧
  ∀ routes, parseStaticRoutes vpcSubnets l nat = Ok routes → ∀ r, r ∈ routes ↔
    (∃ k v, nat !! k = Some v ∧ nr_IsOverriden v = false ∧ ¬ overrides nat l k ∧ r = nr_Route v) ∨
    lastOf fullKey (omap (kept nat) l) (fullKey r) = Some r.
Proof.
  unfold parseStaticRoutes.
  assert (Hfold : ∀ acc, foldM (addStaticRoute (mapSubnets vpcSubnets)) (nat, ∅) l = Ok acc → added vpcSubnets nat l acc).
  { intros acc. apply (foldM_added _ _ []), added_start. }
  split.
  - split.
    + destruct (foldM _ _ l) as [acc|e] eqn:Hf; [|done]. intros _. by apply (added_valid vpcSubnets nat l acc), Hfold.
    + clear Hfold. generalize (nat, ∅ : gmap string StaticRoute). induction l as [|sr l IH]; intros acc.
      { cbn. by destruct acc. }
      intros [Hsr Hl]%Forall_cons. cbn [foldM]. pose proof (addStaticRoute_valid _ acc _ Hsr) as Hok.
      destruct (addStaticRoute _ acc sr) as [acc'|]; [|done]. by apply IH.
  - intros routes ([nat' new'] & Hf & [= <-])%result_bind_Ok r. destruct (Hfold _ Hf) as [_ Hnew Hnat Hover].
    cbn in Hnew, Hnat, Hover. rewrite elem_of_app, !list_elem_of_fmap. setoid_rewrite list_elem_of_filter.
    setoid_rewrite list_elem_of_fmap. split.
    + intros [(v & -> & Hno & ([k v'] & -> & Hin%elem_of_map_to_list))|([k r'] & -> & Hin%elem_of_map_to_list)]; cbn in *.
      * left. specialize (Hnat k). specialize (Hover k v' Hin). rewrite Hin in Hnat.
        destruct (nat !! k) as [v0|] eqn:Hv0; [|done]. cbn in Hnat, Hover. injection Hnat as Heq.
        exists k, v0. rewrite Hno in Hover. split_and!; [done| |naive_solver|done].
        destruct (nr_IsOverriden v0); naive_solver.
      * right. rewrite Hnew in Hin. apply lastOf_Some in Hin as Hkey. destruct Hkey as [_ ->]. done.
    + intros [(k & v & Hv & Hno & Hover' & ->)|Hlast].
      * left. specialize (Hnat k). rewrite Hv in Hnat. destruct (nat' !! k) as [v'|] eqn:Hv'; [|done].
        cbn in Hnat. injection Hnat as Heq. exists v'. split; [done|]. specialize (Hover k v' Hv'). rewrite Hv in Hover.
        cbn in Hover. split; [|exists (k, v'); split; [done|by apply elem_of_map_to_list]].
        destruct (nr_IsOverriden v'); [|done]. rewrite Hno in Hover. naive_solver.
      * right. exists (fullKey r, r). split; [done|]. apply elem_of_map_to_list. by rewrite Hnew.
Qed.

Lemma parseStaticRoutes_valid vpcSubnets l nat routes : parseStaticRoutes vpcSubnets l nat = Ok routes →
  Forall (valid_route vpcSubnets) l.
Proof.
  intros (acc & Hf & _)%result_bind_Ok. apply (added_valid vpcSubnets nat l acc).
  by apply (foldM_added vpcSubnets nat [] l (nat, ∅)); [apply added_start|].
Qed.

(** A route without a next hop is never valid. *)
Lemma no_next_hop vpcSubnets sr : NextHopIP sr = EmptyString → ¬ valid_route vpcSubnets sr.
Proof. intros Hsr (_ & _ & _ & name & subnet & _ & Hin). by rewrite Hsr in Hin. Qed.

(** * The theorems of the subnets

    What a creation makes and undoes; what an update does to a NAT gateway; what may be deleted. *)

Section subnets.
Context {UL : UUIDLib} {C : Cluster}.
Context (SpxPrefix : string) (disabled : list (string * string)) (config : ProductsConfig).

(** ** Creation *)

(** The calls that give a subnet its NAT gateway. *)
Definition gateway_call (name vpc lanIP : string) (c : Call) : Prop :=
  is_read c ∨ (∃ o u, c = Updated KVpc o u) ∨
  ∃ g u, c = Created KNatGw g u ∧ g_Name g = name ∧ g_Subnet g = name ∧ g_Vpc g = vpc ∧ g_LanIP g = lanIP.

Lemma CreateNatGateway_calls m lanIP vpc :
  keeps (gateway_call (ToSPXID SpxPrefix (ResourceEffectiveId m)) vpc lanIP) (CreateNatGateway SpxPrefix config m lanIP vpc).
Proof.
  unfold CreateNatGateway, AddNatGateway. keeps; [right; right; eexists _, _; by split_and!|by left|].
  apply keeps_updateVPC; [by left|]. intros o r. right. left. by exists o, r.
Qed.

(** The subnet of the request and its attachment definition. *)
Record created_subnet (s : CreateSubnetInfo) (m : Metadata) (vpc : Vpc) (lanIP : string) (subnet : Subnet)
    (nad : NetworkAttachmentDefinition) : Prop := {
  cs_vpc : default EmptyString (v_Labels vpc !! SpxLabelProjectID) = ToSPXID SpxPrefix (ProjectId m);
  cs_network : parseNetworkInfo (cs_Protocol s) (cs_IPv4 s) (cs_IPv6 s) = Ok (s_CIDRBlock subnet, s_Gateway subnet, lanIP);
  cs_dns : checkDnsIP (cs_DnsV4 s) (cs_DnsV6 s) = Ok tt;
  cs_of_vpc : s_Vpc subnet = cs_VpcEId s;
  cs_labels : s_Labels subnet = GetLabels SpxPrefix m;
  cs_exclude : s_ExcludeIps subnet = if cs_NatGateway s then [lanIP] else [];
  cs_nad : nad = mkNAD (ToSPXID SpxPrefix (ProjectId m)) (s_Name subnet) (s_Labels subnet) (s_Provider subnet) }.

(** C20: The creation of a subnet either only reads, or it read a VPC of the project and creates the
    subnet of the request, then its attachment definition; when the definition fails the subnet is
    deleted again and the error is returned; when it succeeds, so does the creation, and all other
    calls are those of the NAT gateway that was asked for, whose failure is not reported. *)
Theorem CreateSubnet_rollback s h : wp (CreateSubnet SpxPrefix config s) h (λ r calls,
  Forall is_read calls ∨ ∃ m vpc lanIP subnet created rest,
    ConvertToSpxMetadata (cs_Metadata s) (cs_Metadata s) = (m, None) ∧
    calls = Got KVpc (cs_VpcEId s) vpc None :: Created KSubnet subnet created :: rest ∧
    ∃ nad, created_subnet s m vpc lanIP subnet nad ∧
    match created with
    | Err e => r = Err (KubeFailed e) ∧ rest = []
    | Ok _ => ∃ attached rest', rest = NadCreated nad attached :: rest' ∧
      match attached with
      | Err e => ∃ deleted, rest' = [Deleted KSubnet (s_Name subnet) deleted] ∧
          r = Err match deleted with Ok _ => KubeFailed e | Err e' => KubeFailed e' end
      | Ok _ => r = Ok tt ∧ if cs_NatGateway s then Forall (gateway_call (s_Name subnet) (cs_VpcEId s) lanIP) rest' else rest' = []
      end
    end).
Proof.
  unfold CreateSubnet. apply wp_bind, wp_lift. destruct (ConvertToSpxMetadata _ _) as [m [e|]] eqn:Hm; [by left|].
  apply wp_bind. unfold checkVpcOwnership. case_decide; [apply wp_fail; by left|].
  apply wp_bind, (wp_get KVpc); [|intros o e; left; by repeat constructor]. intros vpc.
  apply wp_checkProject; intros Hvpc; [|left; by repeat constructor].
  apply wp_bind, wp_lift. destruct (parseNetworkInfo _ _ _) as [[[cidr gateway] lanIP]|e] eqn:Hnet; [|left; by repeat constructor].
  apply wp_bind, wp_lift. destruct (checkDnsIP _ _) as [[]|e] eqn:Hdns; [|left; by repeat constructor].
  set (subnet := newSubnet SpxPrefix config s m cidr gateway (if cs_NatGateway s then [lanIP] else [])).
  set (nad := mkNAD (ToSPXID SpxPrefix (ProjectId m)) (s_Name subnet) (s_Labels subnet) (s_Provider subnet)).
  assert (Hsubnet : created_subnet s m vpc lanIP subnet nad) by (split; done).
  apply wp_bind, (wp_create KSubnet). intros [[]|e].
  2:{ right. exists m, vpc, lanIP, subnet, (Err e), []. split_and!; [done|done|]. by exists nad. }
  apply wp_bind, wp_attempt. unfold CreateNAD. apply wp_create_nad. intros [[]|e]; cbn [answer].
  - destruct (cs_NatGateway s) eqn:Hgw.
    + apply wp_logged. eapply wp_mono; [|apply CreateNatGateway_calls]. intros r calls Hc. right.
      exists m, vpc, lanIP, subnet, (Ok tt), (NadCreated nad (Ok tt) :: calls). split_and!; [done|done|].
      exists nad. split; [done|]. by exists (Ok tt), calls.
    + apply wp_ret. right. exists m, vpc, lanIP, subnet, (Ok tt), [NadCreated nad (Ok tt)]. split_and!; [done|done|].
      exists nad. split; [done|]. by exists (Ok tt), [].
  - apply wp_bind, (wp_delete KSubnet). intros deleted.
    assert (Hend : ∀ r, r = Err (match deleted with Ok _ => KubeFailed e | Err e' => KubeFailed e' end) →
      ∃ rest, rest = [NadCreated nad (Err e); Deleted KSubnet (s_Name subnet) deleted] ∧ ∃ attached rest',
        rest = NadCreated nad attached :: rest' ∧ match attached with
        | Err e => ∃ deleted, rest' = [Deleted KSubnet (s_Name subnet) deleted] ∧
            r = Err match deleted with Ok _ => KubeFailed e | Err e' => KubeFailed e' end
        | Ok _ => r = Ok tt ∧ if cs_NatGateway s then Forall (gateway_call (s_Name subnet) (cs_VpcEId s) lanIP) rest' else rest' = []
        end).
    { intros r ->. eexists. split; [done|]. exists (Err e), [Deleted KSubnet (s_Name subnet) deleted].
      split; [done|]. by exists deleted. }
    destruct deleted as [[]|e']; [apply wp_fail|]; right; exists m, vpc, lanIP, subnet, (Ok tt);
      (destruct (Hend _ eq_refl) as (rest & -> & Hrest)); eexists; (split_and!; [done|done|]); exists nad; by split.
Qed.

(** ** NAT gateways of IPv6 subnets *)

(** What an update with a NAT gateway does to a subnet whose NAT address is not known. *)
Definition without_address (c : Call) : Prop :=
  match c with
  | Updated kind o _ => match kind return Obj kind → Prop with
      | KSubnet => λ s, s_ExcludeIps s = [EmptyString] | KNatGw => λ g, g_LanIP g = EmptyString | _ => λ _, False
      end o
  | Created kind o _ => match kind return Obj kind → Prop with
      | KNatGw => λ g, g_LanIP g = EmptyString | _ => λ _, False
      end o
  | _ => True
  end.

Lemma reads_without_address c : is_read c → without_address c.
Proof. by destruct c. Qed.

Lemma CreateNatGateway_without_address m vpc : keeps without_address (CreateNatGateway SpxPrefix config m EmptyString vpc).
Proof.
  unfold CreateNatGateway, AddNatGateway. keeps.
  match goal with |- keeps _ (updateVPC ?o ?ns ?name ?routes) => set (l := routes) end.
  intros h. unfold updateVPC, fetchNatGwStaticRoutes, listBatchSubnet.
  apply wp_bind. eapply wp_mono; [|apply (keeps_bind without_address (call (List KNatGw _)));
    [by refine (keeps_list _ KNatGw _ _)|intros ?; apply keeps_lift]].
  intros [nat|e] calls Hc; [|done]. apply wp_bind, wp_read, wp_bind, wp_lift.
  destruct (parseStaticRoutes _ l nat) as [routes|e] eqn:Hparse; [|by rewrite !app_nil_r].
  exfalso. apply parseStaticRoutes_valid in Hparse. rewrite Forall_forall in Hparse.
  refine (no_next_hop _ (mkStaticRoute PolicyDst DefaultIPv4LanIP EmptyString _) eq_refl (Hparse _ _)).
  subst l. apply elem_of_app. right. left.
Qed.

(** The update of a subnet once it is read and its protocol gave no NAT address. *)
Lemma update_without_address s subnet namespace name :
  us_NatGateway s = true →
  keeps without_address (
    gw ← GetNatGw namespace name;
    '(status, excludeIps) ← natGwPlan s gw namespace name EmptyString (s_ExcludeIps subnet);
    _ ← call (Update KSubnet (updatedSubnet s subnet excludeIps));
    match status with
    | NatGwStatusDelete => logged (DeleteNatGateway disabled namespace (s_Vpc subnet) name)
    | NatGwStatusCreate =>
      logged (m ← convert (us_Metadata s); CreateNatGateway SpxPrefix config m EmptyString (s_Vpc subnet))
    | NatGwStatusUpdate => logged (UpdateNatGateway disabled EmptyString namespace name)
    | NatGwStatusIdle => mret tt
    end).
Proof.
  intros Hgw. apply keeps_bind; [apply (keeps_reads_GetNatGw without_address), reads_without_address|]. intros gw.
  unfold natGwPlan. rewrite Hgw. intros h. destruct gw as [gw|]; apply wp_bind, wp_ret; revert h; rewrite <- ?app_nil_r;
    intros h; (eapply wp_mono; [|refine ((_ : keeps without_address _) _)]; [by intros|]).
  - unfold UpdateNatGateway. by keeps.
  - keeps. apply CreateNatGateway_without_address.
Qed.

Lemma parseSubnetCIDR_IPv6 cidr gateway lanIP : parseSubnetCIDR "IPv6" cidr = Ok (gateway, lanIP) → lanIP = EmptyString.
Proof.
  unfold parseSubnetCIDR. case_decide; [done|]. case_decide; [|done].
  destruct (parseNet cidr) as [n|e]; [|done]. cbn. destruct (firstAndLast n) as [[f l]|e]; [|done]. cbn. by intros [= _ <-].
Qed.

(** Asking for the NAT gateway of a subnet of protocol IPv6 when it is updated writes an empty
    excluded address and an empty gateway address, and never changes the routes of the VPC. *)
Theorem ipv6_gateway_lost s namespace name h :
  wp (UpdateSubnet SpxPrefix disabled config s namespace name) h (λ _ calls, us_NatGateway s = true →
    Forall is_read calls ∨ ∃ subnet rest, calls = Got KSubnet name subnet None :: rest ∧
      (s_Protocol subnet = "IPv6" → Forall without_address rest)).
Proof.
  unfold UpdateSubnet. apply wp_bind, wp_lift. destruct (checkDnsIP _ _) as [u|e]; [|by left].
  apply wp_bind, (wp_get KSubnet name); [|intros o e; left; by repeat constructor]. intros subnet.
  apply wp_bind, wp_checkProject; intros Hproject; [|left; by repeat constructor].
  apply wp_bind, wp_checkEdit; [intros Hedit|intros e; left; by repeat constructor].
  rewrite !app_nil_r. cbn [app].
  eapply (wp_mono _ _ (λ _ calls, us_NatGateway s = true → s_Protocol subnet = "IPv6" → Forall without_address calls)).
  { intros r calls Hc Hgw. right. exists subnet, calls. split; [done|]. auto. }
  apply wp_bind, wp_lift. destruct (parseSubnetCIDR _ _) as [[gateway lanIP]|e] eqn:Hcidr; [|done].
  destruct (decide (us_NatGateway s = true ∧ s_Protocol subnet = "IPv6")) as [[Hgw Hv6]|Hn].
  - rewrite Hv6 in Hcidr. apply parseSubnetCIDR_IPv6 in Hcidr as ->.
    eapply wp_mono; [|by apply update_without_address]. intros r calls Hc _ _. by rewrite ?app_nil_r in *.
  - eapply wp_mono; [|refine ((_ : keeps (λ _, True) _) _)]; [intros r calls _ Hgw Hv6; by destruct Hn|].
    keeps; try (by apply keeps_reads_GetNatGw); try (by apply keeps_natGwPlan);
      try (by apply keeps_any_DeleteNatGateway); try (by apply keeps_CreateNatGateway); unfold UpdateNatGateway; by keeps.
Qed.
End subnets.

(** * Concrete inputs of the theorems on addresses and subnets

    Each theorem with hypotheses applied to blocks on which they hold. *)

Definition outerBlock : IPNet := default (mkIPNet [] []) (snd <$> ParseCIDR "10.0.0.0/8").
Definition innerBlock : IPNet := default (mkIPNet [] []) (snd <$> ParseCIDR "10.1.7.9/16").
Definition outerIP : list Z := default [] (fst <$> ParseCIDR "10.0.0.0/8").
Definition innerIP : list Z := default [] (fst <$> ParseCIDR "10.1.7.9/16").

Lemma parse_outer : ParseCIDR "10.0.0.0/8" = Some (outerIP, outerBlock).
Proof. reflexivity. Qed.

Lemma parse_inner : ParseCIDR "10.1.7.9/16" = Some (innerIP, innerBlock).
Proof. reflexivity. Qed.

Lemma ContainsNet_subset_witness :
  ContainsNet outerBlock innerBlock = true ∧ ContainsNet innerBlock outerBlock = false ∧
  ∃ l1 o1 l2 o2, cidr outerBlock l1 o1 ∧ cidr innerBlock l2 o2 ∧ inside outerBlock innerBlock l1 l2 o1 o2.
Proof.
  split; [vm_compute; reflexivity|]. split; [vm_compute; reflexivity|].
  destruct (ContainsNet_subset _ _ _ _ _ _ parse_outer parse_inner) as (l1 & o1 & l2 & o2 & H1 & H2 & Hiff & _).
  exists l1, o1, l2, o2. split; [exact H1|]. split; [exact H2|]. apply Hiff. vm_compute. reflexivity.
Defined.

Lemma FirstAndLastAvailable_spec_witness : ∃ l ones, cidr innerBlock l ones ∧
  FirstAndLastAvailable innerBlock =
    if decide (blockSize l ones < 4)%Z then (None, None)
    else (Some (toBase 256 16 (netFirst innerBlock + 1)),
          Some (toBase 256 16 (netFirst innerBlock + blockSize l ones - 2))).
Proof. exact (FirstAndLastAvailable_spec "10.1.7.9/16" innerIP innerBlock parse_inner). Defined.

(** ** The request of a subnet *)

Lemma accepted_dual : parseNetworkInfo "Dual" "10.1.0.7/16" "fd00::9/64" =
  Ok ("10.1.0.0/16,fd00::/64", "10.1.0.1,fd00::1", "10.1.255.254").
Proof. vm_compute. reflexivity. Qed.

Lemma accepted_IPv6 : parseNetworkInfo "IPv6" EmptyString "fd00::9/64" =
  Ok ("fd00::/64", "fd00::1", "fd00::ffff:ffff:ffff:fffe").
Proof. vm_compute. reflexivity. Qed.

Lemma parseNetworkInfo_sound_witness : ∃ nets,
  (parseNet <$> ["10.1.0.7/16"; "fd00::9/64"]) = Ok <$> nets ∧ Forall good_block nets.
Proof.
  destruct (parseNetworkInfo_sound _ _ _ _ _ _ accepted_dual) as (nets & Hnets & Hgood & _).
  exists nets. split; [exact Hnets|exact Hgood].
Defined.

(** The NAT address of this subnet was not empty. *)
Lemma parseSubnetCIDR_roundtrip_witness :
  parseSubnetCIDR "Dual" "10.1.0.0/16,fd00::/64" = Ok ("10.1.0.1,fd00::1", "10.1.255.254") ∧
  parseSubnetCIDR "IPv6" "fd00::/64" = Ok ("fd00::1", EmptyString).
Proof.
  split; [exact (proj1 (parseSubnetCIDR_roundtrip _ _ _ _ _ _ accepted_dual))|].
  exact (proj1 (parseSubnetCIDR_roundtrip _ _ _ _ _ _ accepted_IPv6)).
Defined.

(** ** The targets of a public address *)

Definition sampleBlocks : list IPNet := default [] (blocksOf "10.1.0.0/16,fd00::/64").

Lemma validateInternalTargets_spec_witness :
  blocksOf "10.1.0.0/16,fd00::/64" = Some sampleBlocks ∧
  internal_ok sampleBlocks "10.1.2.3" ∧ ¬ internal_ok sampleBlocks "10.2.2.3".
Proof.
  assert (Hb : blocksOf "10.1.0.0/16,fd00::/64" = Some sampleBlocks) by reflexivity. split; [exact Hb|]. split.
  - apply (proj1 (validateInternalTargets_spec _ _ "10.1.2.3" [] [] Hb)); [vm_compute; reflexivity|discriminate].
  - intros Hin. assert (Hok : validateInternalTargets "10.1.0.0/16,fd00::/64" "10.2.2.3" [] [] = Ok tt).
    { apply (proj1 (validateInternalTargets_spec _ _ "10.2.2.3" [] [] Hb)).
      split; [intros _; exact Hin|]. split; apply Forall_nil; exact I. }
    vm_compute in Hok. discriminate Hok.
Defined.
