(* ===== verification/Products.v ===== *)
(** * The products of the API
      ([internal/superphenix-api/internal/db/crud/product], [pkg/services/controller/common.go])

    A product is a resource of a project in an availability zone: a row of the database, whose
    effective identifier names the objects of the controller. The functions that read and write the
    rows, and those that the handlers share to create and rename a product. A condition that gorm
    builds from a structure ignores its zero fields. *)

From S2P Require Import Prelude Strconv Errors Quantity QuotaResources Database AZConfig SpxId.
From S2P Require Import Hierarchical QuotaService.
(** ** What the code calls *)

(** [gen_random_uuid], the default of the keys: it may depend on everything in the database. *)
Class RowIds := { gen_random_uuid : Tables → Z → uuid }.

(** [pkg/utils/names], which draws a name, and the audited resource of a request ([pkg/audit]). *)
Class RequestContext (C : Type) := {
  GenerateName : C → string * C;
  SetResource : string → C → C;
  ClearResource : C → C }.

(** ** Rows *)

Definition uuid_Nil : uuid := "00000000-0000-0000-0000-000000000000".

(** [model.Product]: its key and its columns. *)
Abbreviation DBProduct := (uuid * Product)%type.

Definition noProduct : DBProduct :=
  (uuid_Nil, mkProduct EmptyString EmptyString EmptyString uuid_Nil EmptyString false).

Definition noMetadata : Metadata := mkMetadata EmptyString EmptyString EmptyString EmptyString.

Definition with_EffectiveID (p : Product) (eid : string) : Product :=
  mkProduct (pr_ProductName p) eid (pr_CodeAZ p) (pr_ProjectId p) (pr_ProductTypeId p) (pr_Deleted p).

Definition with_ProductName (p : Product) (name : string) : Product :=
  mkProduct name (pr_EffectiveID p) (pr_CodeAZ p) (pr_ProjectId p) (pr_ProductTypeId p) (pr_Deleted p).

Definition soft_delete_product (p : Product) : Product :=
  mkProduct (pr_ProductName p) (pr_EffectiveID p) (pr_CodeAZ p) (pr_ProjectId p) (pr_ProductTypeId p) true.

(** The rows that are not deleted, by key. *)
Definition live_products (T : Tables) : list DBProduct :=
  order_by String.le (map_to_list (filter (λ kv, pr_Deleted kv.2 = false) (products T))).

(** A condition on a column that is only there for a value other than the zero one. *)
Definition column (zero value actual : string) : bool := bool_decide (value = zero ∨ actual = value).

(** Quotas ([crud/quota/consts.go]). *)
Definition ProjectLimitProduct : string := "Project_Limit_Product".
Definition EntityProject : string := "Project".

Section crud.
Context {UL : UUIDLib} {RI : RowIds} {C : Type}.

(** ** [crud/product/product.go] *)

(** [Save] inserts a row without key under a new one, and otherwise replaces the row. *)
Definition Save (product : DBProduct) : M C DBProduct :=
  exec (λ T s, let id := if decide (product.1 = uuid_Nil) then gen_random_uuid T s else product.1 in
    ((id, product.2), set_products <[id := product.2]> T, s)).

Definition DeleteById (productId : uuid) : M C unit :=
  exec (λ T s, (tt, set_products (alter soft_delete_product productId) T, s)).

Definition deletes (productEId azCode : string) (projectId : uuid) (p : Product) : bool :=
  bool_decide (pr_Deleted p = false ∧ pr_EffectiveID p = productEId ∧ pr_CodeAZ p = azCode ∧ pr_ProjectId p = projectId).

(** The number of rows it deletes. *)
Definition DeleteByEIdAndAZCodeAndProject (productEId azCode : string) (projectId : uuid) : M C Z :=
  exec (λ T s,
    (Z.of_nat (size (filter (λ kv, deletes productEId azCode projectId kv.2 = true) (products T))),
     set_products (fmap (λ p, if deletes productEId azCode projectId p then soft_delete_product p else p)) T, s)).

(** The first row by key. *)
Definition productByEId (T : Tables) (productEId : string) : option DBProduct :=
  head (filter (λ p, column EmptyString productEId (pr_EffectiveID p.2) = true) (live_products T)).

Definition FindByEId (productEId : string) : M C DBProduct := take (λ T, productByEId T productEId).

(** [uuid.Parse], whose error is ignored. *)
Definition parsedOrNil (id : string) : uuid := default uuid_Nil (uuid_String <$> uuid_Parse id).

Definition productsWhere (T : Tables) (projectId : uuid) (productType codeAZ : string) : list DBProduct :=
  filter (λ p, column uuid_Nil projectId (pr_ProjectId p.2) && column EmptyString productType (pr_ProductTypeId p.2) &&
    column EmptyString codeAZ (pr_CodeAZ p.2) = true) (live_products T).

Definition FindAllByProjectIdAndResourceType (projectId productType : string) : M C (list DBProduct) :=
  query (λ T, productsWhere T (parsedOrNil projectId) productType EmptyString).

Definition FindAllByProjectIdAndResourceTypeAndCodeAZ (projectId productType codeAZ : string) : M C (list DBProduct) :=
  query (λ T, productsWhere T (parsedOrNil projectId) productType codeAZ).

(** [quota.GetQuotaValue]: the override of an entity, or the default value. *)
Definition quotaOverride (T : Tables) (id : string) (entityId : uuid) (entityType : string) : option string :=
  snd <$> head (filter (λ kv, kv.1.1.1 = id ∧ column uuid_Nil entityId kv.1.1.2 = true ∧ kv.1.2 = entityType)
    (map_to_list (quota_overrides T))).

Definition GetQuotaValue (id : string) (entityId : uuid) (entityType : string) : M C string :=
  on_error (take (λ T, quotaOverride T id entityId entityType)) ErrRecordNotFound (take (λ T, quotas T !! id)).

Definition productsOf (T : Tables) (projectId : uuid) : list DBProduct :=
  productsWhere T projectId EmptyString EmptyString.

(** Whether the project may not have one more product; a failing count is not reported. *)
Definition IsQuotaCreationReached (projectId : uuid) : M C bool :=
  limitQuota ← GetQuotaValue ProjectLimitProduct projectId EntityProject;
  res ← attempt (query (λ T, Z.of_nat (length (productsOf T projectId))));
  match res with
  | Err _ => mret false
  | Ok count =>
    match ParseInt limitQuota with
    | None => fail (errors_New "invalid syntax")
    | Some limit => mret (bool_decide (limit ≤ count))
    end
  end.

(** ** [crud/organization], [crud/project]: the lookups of the handlers *)

Definition firstByKey {A} (deleted : A → bool) (id : uuid) (m : gmap uuid A) : option (uuid * A) :=
  head (filter (λ kv, column uuid_Nil id kv.1 = true)
    (order_by String.le (map_to_list (filter (λ kv, deleted kv.2 = false) m)))).

Definition FindOrganizationById (orgaId : string) : M C (uuid * Database.Organization) :=
  take (λ T, firstByKey o_Deleted (parsedOrNil orgaId) (organizations T)).

Definition FindProjectById (projectId : string) : M C (uuid * Database.Project) :=
  take (λ T, firstByKey p_Deleted (parsedOrNil projectId) (projects T)).

(** ** [pkg/services/controller/common.go] *)
Context {RC : RequestContext C} (SpxPrefix : string).

Definition effectiveID (m : Metadata) : string := ToSPXID SpxPrefix (ResourceEffectiveId m).

(** The branches that clean up: their [err] is that of the deletion. *)
Definition cleaned (productId : uuid) : M C (DBProduct * Metadata) :=
  _ ← DeleteById productId; mret (noProduct, noMetadata).

Definition CreateIntoDb (productName productType azCode : string) (orgUuid projectUuid : uuid) :
    M C (DBProduct * Metadata) :=
  productName ← (if decide (productName = EmptyString) then outsideCall GenerateName else mret productName);
  product ← Save (uuid_Nil, mkProduct productName EmptyString azCode projectUuid productType false);
  match GenerateMetadata noMetadata projectUuid orgUuid product.1 with
  | (_, Some _) => cleaned product.1
  | (m, None) =>
    saved ← attempt (Save (product.1, with_EffectiveID product.2 (effectiveID m)));
    match saved with
    | Err _ => cleaned product.1
    | Ok saved =>
      _ ← outsideCall (λ c, (tt, SetResource (pr_EffectiveID saved.2) c));
      mret (saved, m)
    end
  end.

(** The product to update, or the empty one when there is no row. *)
Definition FindForUpdate (productEid productType azCode : string) (projectUuid : uuid) : M C DBProduct :=
  found ← attempt (FindByEId productEid);
  match found with
  | Err e => if errors_Is e ErrRecordNotFound then mret noProduct else fail e
  | Ok product =>
    if decide (pr_ProjectId product.2 ≠ projectUuid ∨ pr_CodeAZ product.2 ≠ azCode) then fail ErrRecordNotFound
    else if decide (pr_ProductTypeId product.2 ≠ productType)
      then fail (errors_New ("product " +:+ productEid +:+ " is not of type " +:+ productType))
    else mret product
  end.

Definition RenameProduct (product : DBProduct) (productName : string) : M C DBProduct :=
  Save (if decide (productName = EmptyString) then product else (product.1, with_ProductName product.2 productName)).

Definition UpdateIntoDb (productEid productName productType azCode : string) (projectUuid : uuid) : M C DBProduct :=
  product ← FindForUpdate productEid productType azCode projectUuid;
  if decide (product.1 = uuid_Nil) then mret product else RenameProduct product productName.
End crud.
