(* ===== verification/Proxy.v ===== *)
(** * Requests to the controllers ([internal/superphenix-api/pkg/api/publicHttp/proxy/proxy.go])

    A request of the API is sent to the controller of an availability zone with another host, the
    prefix of the API removed from its path, and the secret of the zone. The escaping of paths is
    that of Go's [net/url]; parsing a URL and sending a request are classes. *)

From Stdlib Require Import Ascii.
From S2P Require Import Prelude Strings Errors AZConfig IP Database QuotaService.
(** ** Paths ([net/url]) *)

Record URL := mkURL { Scheme : string; Host : string; Path : string; RawPath : string; RawQuery : string }.

Definition alphanumeric (c : ascii) : bool :=
  let n := N_of_ascii c in
  bool_decide ((48 ≤ n ≤ 57) ∨ (65 ≤ n ≤ 90) ∨ (97 ≤ n ≤ 122))%N.

(** [shouldEscape(c, encodePath)] *)
Definition shouldEscape (c : ascii) : bool :=
  negb (alphanumeric c) &&
  negb (bool_decide (c ∈ ["-"; "_"; "."; "~"; "$"; "&"; "+"; ","; "/"; ":"; ";"; "="; "@"]%char)).

(** The upper-case digits of [escape]. *)
Definition upperHex (d : Z) : ascii := ascii_of_N (Z.to_N (if decide (d < 10)%Z then 48 + d else 55 + d)%Z).

Fixpoint escape (s : string) : string :=
  match s with
  | EmptyString => EmptyString
  | String c s =>
    let n := Z.of_N (N_of_ascii c) in
    if shouldEscape c then String "%" (String (upperHex (n `div` 16)) (String (upperHex (n `mod` 16)) (escape s)))
    else String c (escape s)
  end.

(** [unescape(s, encodePath)], as [PathUnescape]. *)
Fixpoint unescape (s : string) : option string :=
  match s with
  | EmptyString => Some EmptyString
  | String c s =>
    if decide (c = "%"%char) then
      match s with
      | String h (String l s) =>
        hi ← hexValue h; lo ← hexValue l; rest ← unescape s;
        Some (String (ascii_of_N (Z.to_N (16 * hi + lo))) rest)
      | _ => None
      end
    else rest ← unescape s; Some (String c rest)
  end.

Definition validEncoded : string → bool :=
  all_bytes (λ c, negb (shouldEscape c) ||
    bool_decide (c ∈ ["!"; "'"; "("; ")"; "*"; "["; "]"; "%"]%char)).

Definition EscapedPath (u : URL) : string :=
  if decide (RawPath u ≠ EmptyString ∧ validEncoded (RawPath u) = true ∧ unescape (RawPath u) = Some (Path u))
  then RawPath u
  else if decide (Path u = "*") then "*" else escape (Path u).

(** [strings.Replace(s, old, EmptyString, 1)] *)
Fixpoint removeFirst (old s : string) : string :=
  match cutPrefix old s with
  | Some rest => rest
  | None => match s with EmptyString => EmptyString | String c s => String c (removeFirst old s) end
  end.

(** [HasSuffix(s, /)] *)
Fixpoint endsWithSlash (s : string) : bool :=
  match s with
  | EmptyString => false
  | String c EmptyString => bool_decide (c = "/"%char)
  | String _ s => endsWithSlash s
  end.

Definition startsWithSlash (s : string) : bool := HasPrefix s "/".

(** [s[1:]] *)
Definition tail1 (s : string) : string := match s with String _ s => s | EmptyString => EmptyString end.

(** ** What the code calls *)

Class URLLib := { url_Parse : string → option URL; url_String : URL → string }.

(** The request that is sent: the user and the bearer are headers; the identifier for the traces is left out. *)
Record ProxiedRequest := mkProxied {
  px_Method : string; px_URL : URL; px_Host : string; px_UserId : string;
  px_Authorization : string; px_Body : option string }.

(** [http.Client.Do] and [httputil.ReverseProxy.ServeHTTP] *)
Class HTTPClient (C : Type) := {
  client_Do : ProxiedRequest → C → result error Response * C;
  ServeHTTP : ProxiedRequest → C → Response * C }.

(** An incoming request: what the handlers read of it, with the parameters of its route. *)
Record Request := mkRequest {
  rq_Method : string; rq_URL : URL; rq_Host : string; rq_UserId : string; rq_Authorization : string;
  rq_Body : option string; rq_orgaId : string; rq_projectId : string; rq_az : string; rq_effectiveId : string }.

(** ** Rewriting *)

Definition ApiPrefix : string := "/api/spx-ctrl".

Definition singleJoiningSlash (a b : string) : string :=
  match endsWithSlash a, startsWithSlash b with
  | true, true => a +:+ tail1 b
  | false, false => a +:+ "/" +:+ b
  | _, _ => a +:+ b
  end.

Definition joinURLPath (a b : URL) : string * string :=
  if decide (RawPath a = EmptyString ∧ RawPath b = EmptyString)
  then (singleJoiningSlash (Path a) (Path b), EmptyString)
  else
    let apath := EscapedPath a in
    let bpath := EscapedPath b in
    match endsWithSlash apath, startsWithSlash bpath with
    | true, true => (Path a +:+ tail1 (Path b), apath +:+ tail1 bpath)
    | false, false => (Path a +:+ "/" +:+ Path b, apath +:+ "/" +:+ bpath)
    | _, _ => (Path a +:+ Path b, apath +:+ bpath)
    end.

Definition rewriteRequestURL (url target : URL) : URL :=
  let '(path, rawpath) := joinURLPath target url in
  mkURL (Scheme target) (Host target) path rawpath
    (if decide (RawQuery target = EmptyString ∨ RawQuery url = EmptyString)
     then RawQuery target +:+ RawQuery url else RawQuery target +:+ "&" +:+ RawQuery url).

Definition stripPattern (u : URL) (pattern : string) : URL :=
  let raw := removeFirst pattern (EscapedPath u) in
  mkURL (Scheme u) (Host u) (default EmptyString (unescape raw)) raw (RawQuery u).

Section proxy.
Context {UR : URLLib} {C : Type} {HC : HTTPClient C}.

(** The URL and the host of the request that is sent. *)
Definition RewriteRequest (url : URL) (rawUrl pattern : string) : result error (URL * string) :=
  if decide (rawUrl = EmptyString ∨ pattern = EmptyString)
  then Err (errors_New ("parameters can't be empty: " +:+ rawUrl +:+ ", " +:+ pattern)) else
  match url_Parse rawUrl with
  | None => Err (errors_New ("coudn't parse url: " +:+ rawUrl))
  | Some target =>
    if decide (Host target = EmptyString ∨ Scheme target = EmptyString)
    then Err (errors_New ("failed to get a valid target with " +:+ rawUrl))
    else Ok (stripPattern (rewriteRequestURL url target) pattern, Host target)
  end.

(** [http.NewRequestWithContext] with the URL of [r] and the headers that are added. *)
Definition newRequest (r : Request) (target : AZConfig) (body : option string) : result error ProxiedRequest :=
  match url_Parse (url_String (rq_URL r)) with
  | None => Err (errors_New "failed to create new request")
  | Some url => Ok (mkProxied (rq_Method r) url (Host url) (rq_UserId r)
      ("Bearer " +:+ AuthSecret target) body)
  end.

Definition with_URL (p : ProxiedRequest) (u : URL * string) : ProxiedRequest :=
  mkProxied (px_Method p) u.1 u.2 (px_UserId p) (px_Authorization p) (px_Body p).

Definition SendProxy (r : Request) (target : AZConfig) (pattern : string) (body : option string) :
    C → result error Response * C := λ c,
  match newRequest r target body with
  | Err e => (Err e, c)
  | Ok r2 =>
    match RewriteRequest (px_URL r2) (ControllerUrl target) (pattern +:+ "/" +:+ Code target) with
    | Err e => (Err e, c)
    | Ok u => client_Do (with_URL r2 u) c
    end
  end.

(** One answer by code of zone, [None] when there is none; a request that is not rewritten is sent
    as it is. Lists have no body, so that it can be sent several times. *)
Fixpoint SendBatchProxy (r : Request) (targets : list AZConfig) (pattern : string) (c : C) :
    result error (gmap string (option Response)) * C :=
  match targets with
  | [] => (Ok ∅, c)
  | target :: targets =>
    match newRequest r target (rq_Body r) with
    | Err e => (Err e, c)
    | Ok r2 =>
      let sent := match RewriteRequest (px_URL r2) (ControllerUrl target) pattern with
                  | Ok u => with_URL r2 u
                  | Err _ => r2
                  end in
      let '(resp, c) := client_Do sent c in
      let resp := match resp with Ok resp => Some resp | Err _ => None end in
      match SendBatchProxy r targets pattern c with
      | (Ok responses, c) =>
        (Ok (if decide (is_Some (responses !! Code target)) then responses else <[Code target := resp]> responses), c)
      | (Err e, c) => (Err e, c)
      end
    end
  end.

(** The request that a [ReverseProxy] makes: the target is parsed once, and the bearer is only set
    when there is a secret. *)
Definition ReverseProxy (rawUrl pattern authSecret : string) : result error (Request → ProxiedRequest) :=
  if decide (rawUrl = EmptyString ∨ pattern = EmptyString)
  then Err (errors_New ("parameters can't be empty: " +:+ rawUrl +:+ ", " +:+ pattern)) else
  match url_Parse rawUrl with
  | None => Err (errors_New ("coudn't parse url: " +:+ rawUrl))
  | Some endpoint =>
    if decide (Host endpoint = EmptyString ∨ Scheme endpoint = EmptyString)
    then Err (errors_New ("failed to get a valid endpoint with " +:+ rawUrl))
    else Ok (λ r, mkProxied (rq_Method r) (stripPattern (rewriteRequestURL (rq_URL r) endpoint) pattern)
      (Host endpoint) (rq_UserId r)
      (if decide (authSecret = EmptyString) then rq_Authorization r else "Bearer " +:+ authSecret) (rq_Body r))
  end.
End proxy.
