(* ===== verification/ProductHandlers.v ===== *)
(** * Merging the database and the controllers
      ([internal/superphenix-api/pkg/services/controller/merge.go], [utils.go], [utils/utils.go])

    What a controller answers about a resource, a JSON object, is merged with the row of the
    database. A type assertion that fails panics. [slices.SortFunc] leaves the order of equal
    elements open, and a loop over a map its own; both are here that of their lists. *)

From S2P Require Import Prelude Strings Strconv Errors QuotaResources Database AZConfig Hierarchical SpxId.
From S2P Require Import QuotaService NetworkChecks Products Proxy.

(** ** JSON values *)

Inductive json :=
  | JNull
  | JBool (b : bool)
  | JNumber (text : string)
  | JString (s : string)
  | JArray (l : list json)
  | JObject (m : gmap string json).

(** [json.Unmarshal] into an interface. *)
Class JSONLib := { Unmarshal : string → option json }.

(** A type assertion to an object. *)
Definition object (j : json) : option (gmap string json) := match j with JObject m => Some m | _ => None end.

(** A field of a decoded object. *)
Definition field (m : gmap string json) (key : string) : json := default JNull (m !! key).

(** [stringField] *)
Definition stringField (m : gmap string json) (key : string) : string :=
  match m !! key with Some (JString s) => s | _ => EmptyString end.

(** [m[key].(string)]: [None] is a panic. *)
Definition assertString (m : gmap string json) (key : string) : option string :=
  match m !! key with Some (JString s) => Some s | _ => None end.

(** ** Responses ([type.go]) *)

Record ProductResponse := mkProductResponse {
  ID : string; EId : string; ProductName : string; CodeAZ : string; ProductTypeId : string; Gitops : string }.

(** The response of each kind of product: the shared part, and the fields of the controller. *)
Record FullResponse := mkFullResponse { fr_Product : ProductResponse; fr_Fields : list (string * json) }.

(** ** One resource ([merge.go]) *)

Inductive MergeOutcome := MergeNotFound | MergeDbOnly | MergeAzOnly | MergeBoth.

Section merge.
Context {JL : JSONLib}.

(** The payload, when there is something usable to read; [null] decodes to a nil map. *)
Definition decodeAZBody (resp : option Response) : option (gmap string json) :=
  match resp with
  | None => None
  | Some resp =>
    if decide (StatusCode resp ≠ 200) then None else
    match Unmarshal (Body resp) with Some (JObject m) => Some m | _ => None end
  end.

Definition dbProductResponse (p : DBProduct) (azCode : string) : ProductResponse :=
  mkProductResponse p.1 (pr_EffectiveID p.2) (pr_ProductName p.2) azCode (pr_ProductTypeId p.2) "false".

Definition noResponse : ProductResponse :=
  mkProductResponse EmptyString EmptyString EmptyString EmptyString EmptyString EmptyString.

Definition ResolveProductResponse (azCode : string) (resp : option Response) (db : result error DBProduct) :
    ProductResponse * option (gmap string json) * MergeOutcome :=
  match decodeAZBody resp, db with
  | None, Err _ => (noResponse, None, MergeNotFound)
  | None, Ok dbProduct => (dbProductResponse dbProduct azCode, None, MergeDbOnly)
  | Some az, Err _ =>
    (mkProductResponse (stringField az "id") (stringField az "eid") (stringField az "productName") azCode
       EmptyString (stringField az "gitops"), Some az, MergeAzOnly)
  | Some az, Ok dbProduct =>
    if decide (dbProduct.1 = stringField az "id")
    then (mkProductResponse dbProduct.1 (stringField az "eid") (pr_ProductName dbProduct.2) azCode
       (pr_ProductTypeId dbProduct.2) (stringField az "gitops"), Some az, MergeBoth)
    else (dbProductResponse dbProduct azCode, None, MergeDbOnly)
  end.

(** ** Lists *)

(** [ReadResponse]: nothing when the body does not decode, or is [null]. *)
Definition ReadResponse (resp : Response) : option json :=
  match Unmarshal (Body resp) with Some JNull | None => None | Some res => Some res end.

Definition ConcatResponses (responses : gmap string (option Response)) : gmap string (list json) :=
  omap (λ resp, resp ← resp;
    if decide (StatusCode resp = 200)
    then res ← ReadResponse resp; Some (match res with JArray l => l | _ => [res] end)
    else None) responses.
End merge.

(** The response for an object of a zone and the row that has its identifier, if any. *)
Definition azResponse (fields : list string) (azCode : string) (found : option DBProduct) (m : gmap string json) :
    option FullResponse :=
  let extra := (λ key, (key, field m key)) <$> fields in
  match found with
  | Some p =>
    eid ← assertString m "eid"; gitops ← assertString m "gitops";
    Some (mkFullResponse (mkProductResponse p.1 eid (pr_ProductName p.2) azCode (pr_ProductTypeId p.2) gitops) extra)
  | None =>
    id ← assertString m "id"; eid ← assertString m "eid"; productName ← assertString m "productName";
    gitops ← assertString m "gitops";
    Some (mkFullResponse (mkProductResponse id eid productName azCode EmptyString gitops) extra)
  end.

(** [p.ID.String() == mapResult[id]], a comparison with an interface. *)
Definition sameId (m : gmap string json) (p : DBProduct) : bool :=
  match m !! "id" with Some (JString s) => bool_decide (p.1 = s) | _ => false end.

Definition findResource (resources : list DBProduct) (m : gmap string json) : option DBProduct :=
  head (filter (λ p, sameId m p = true) resources).

(** The loop over the objects of one zone, with the identifiers of the rows that were found. *)
Fixpoint combineZone (fields : list string) (resources : list DBProduct) (azCode : string) (results : list json)
    (acc : list FullResponse * gset uuid) : option (list FullResponse * gset uuid) :=
  match results with
  | [] => Some acc
  | JObject m :: results =>
    let found := findResource resources m in
    response ← azResponse fields azCode found m;
    combineZone fields resources azCode results
      (acc.1 ++ [response], match found with Some p => {[p.1]} ∪ acc.2 | None => acc.2 end)
  | _ :: _ => None
  end.

Fixpoint combineZones (fields : list string) (resources : list DBProduct) (zones : list (string * list json))
    (acc : list FullResponse * gset uuid) : option (list FullResponse * gset uuid) :=
  match zones with
  | [] => Some acc
  | (azCode, results) :: zones =>
    acc ← combineZone fields resources azCode results acc;
    combineZones fields resources zones acc
  end.

Section sorting.
Context {CL : CaseLib}.

(** [CompareProductResult] on its two keys. *)
Definition product_le (a b : FullResponse) : Prop :=
  let nameA := ToLower (ProductName (fr_Product a)) in
  let nameB := ToLower (ProductName (fr_Product b)) in
  if decide (nameA = nameB) then String.le (EId (fr_Product a)) (EId (fr_Product b)) else String.le nameA nameB.

#[export] Instance product_le_dec : RelDecision product_le.
Proof. intros a b. unfold product_le. cbv zeta. case_decide; apply _. Defined.

(** [combineListResult] *)
Definition combineListResult (fields : list string) (concatResults : gmap string (list json))
    (resources : list DBProduct) : option (list FullResponse) :=
  '(combined, found) ← combineZones fields resources (map_to_list concatResults) ([], ∅);
  let notFound := filter (λ p : DBProduct, p.1 ∉ (found : gset uuid)) resources in
  Some (merge_sort product_le
    (combined ++ ((λ p, mkFullResponse (dbProductResponse p (pr_CodeAZ p.2)) ((λ key, (key, JNull)) <$> fields)) <$> notFound))).
End sorting.

(** * The handlers of the products ([internal/superphenix-api/pkg/services/controller])

    Every kind of product has the same handlers: list, read, create, update and delete. They are
    written once, with what is different as parameters; [ProductKinds] and [Instances] instantiate
    them. A handler runs on the database and on what is outside it, and either goes on with a value
    or has answered. *)

(** ** Answers *)

(** The body of an error is its message and its context, without the identifier of the request. *)
Inductive answer_body :=
  | NoBody
  | Failure (message : string) (context : list (string * string))
  | Created (eid : string)
  | Product1 (p : FullResponse)
  | ProductList (l : list FullResponse)
  | RawBody (body : string).

Record answer := mkAnswer { status : Z; answered : answer_body }.

Definition H (C A : Type) : Type := World C → result answer A * World C.

#[export] Instance H_ret {C} : MRet (H C) := λ A a w, (Ok a, w).
#[export] Instance H_bind {C} : MBind (H C) := λ A B f m w,
  match m w with (Ok a, w) => f a w | (Err e, w) => (Err e, w) end.

(** What a handler answers: when it ends without an answer, the status is 200. *)
Definition run {C} (m : H C unit) (w : World C) : answer * World C :=
  match m w with (Ok _, w) => (mkAnswer 200 NoBody, w) | (Err a, w) => (a, w) end.

(** ** Messages ([consts]) *)
Definition SpxOrgNotFound : string := "Failed to get organization.".
Definition SpxProjectNotFound : string := "Failed to get project.".
Definition SpxProjectAndOrgMismatch : string := "Project doesn't belong to the organization provided.".
Definition SpxAZNotFound : string := "Failed to get az.".
Definition SpxResourceNotFound : string := "Failed to get resource.".
Definition SpxResourceCreationFailure : string := "Failed to create resource.".
Definition SpxResourceUpdateFailure : string := "Failed to update resource.".
Definition SpxResourceDeletionFailure : string := "Failed to delete resource.".
Definition SpxProxyToAZFailure : string := "Failed to contact AZ.".
Definition SpxFindAllResourcesError : string := "Failed to find resources.".

(** [http.StatusText] *)
Definition StatusText (code : Z) : string :=
  if decide (code = 400) then "Bad Request" else if decide (code = 500) then "Internal Server Error" else EmptyString.

Section handlers.
Context {UL : UUIDLib} {RI : RowIds} {UR : URLLib} {JL : JSONLib} {CL : CaseLib}.
Context {C : Type} {RC : RequestContext C} {HC : HTTPClient C}.
Context (SpxPrefix : string) (AZs : gmap string AZConfig).
Implicit Types (r : Request).

Definition respond {A} (a : answer) : H C A := λ w, (Err a, w).

Definition httpError {A} (code : Z) (context : list (string * string)) (message : string) : H C A :=
  respond (mkAnswer code (Failure message context)).

(** [http.Error], which ends the text with a newline. *)
Definition plainError {A} (code : Z) (message : string) : H C A :=
  respond (mkAnswer code (RawBody (message +:+ String (Ascii.ascii_of_N 10) EmptyString))).

(** A database operation whose error is answered. *)
Definition orElse {A} (m : M C A) (handle : error → H C A) : H C A := λ w,
  match m w with (Ok a, w) => (Ok a, w) | (Err e, w) => handle e w end.

(** A database operation whose error is only logged. *)
Definition logged (m : M C unit) : H C unit := λ w, (Ok tt, (m w).2).

(** A database operation whose error the handler looks at. *)
Definition tried {A} (m : M C A) : H C (result error A) := λ w, let '(res, w) := m w in (Ok res, w).

(** A call to what is outside the database. *)
Definition outsideH {A} (f : C → A * C) : H C A := λ w,
  let '(a, c) := f (outside w) in (Ok a, with_outside w c).

(** What the decoder made of the body of the request. *)
Definition decoded {B} (body : result answer B) : H C B := λ w, (body, w).

(** ** The kit ([utils/utils.go]) *)

Definition CheckListPathParams r : H C (uuid * (uuid * Database.Project)) :=
  orga ← orElse (FindOrganizationById (rq_orgaId r)) (λ _, httpError 404 [] SpxOrgNotFound);
  project ← orElse (FindProjectById (rq_projectId r)) (λ _, httpError 404 [] SpxProjectNotFound);
  if decide (p_OrgaId project.2 ≠ orga.1) then httpError 400 [] SpxProjectAndOrgMismatch
  else mret (orga.1, project).

(** The zone, the organization and the project. *)
Definition CheckPathParams r : H C (AZConfig * uuid * uuid) :=
  '(orga, project) ← CheckListPathParams r;
  match GetByCode AZs (rq_az r) orga with
  | Err _ => httpError 404 [] SpxAZNotFound
  | Ok azCfg => mret (azCfg, orga, project.1)
  end.

Definition CheckProductBelongsToProject r (projectUuid : uuid) : H C unit :=
  let eid := [("eid", rq_effectiveId r)] in
  found ← orElse (found ← attempt (FindByEId (rq_effectiveId r));
                  match found with
                  | Ok p => mret (Some p)
                  | Err e => if errors_Is e ErrRecordNotFound then mret None else fail e
                  end) (λ _, httpError 500 eid SpxResourceNotFound);
  match found with
  | None => mret tt
  | Some dbProduct =>
    if decide (pr_ProjectId dbProduct.2 ≠ projectUuid) then httpError 404 eid SpxResourceNotFound else mret tt
  end.

Definition CleanDb (id : uuid) : H C unit :=
  _ ← logged (DeleteById id); outsideH (λ c, (tt, ClearResource c)).

(** [RetrieveHttpError]: the message of the body, when it decodes. *)
Definition RetrieveHttpError (resp : Response) : option string :=
  match Unmarshal (Body resp) with
  | Some (JObject m) => Some (stringField m "message")
  | Some JNull => Some EmptyString
  | _ => None
  end.

Definition HandleControllerError {A} (resp : Response) (failureCode : Z) (failureMessage : string) : H C A :=
  httpError failureCode (match RetrieveHttpError resp with Some reason => [("reason", reason)] | None => [] end)
    failureMessage.

(** [proxy.SendProxy] as a handler calls it. *)
Definition sendProxy r (azDb : AZConfig) (body : option string) : H C (result error Response) :=
  outsideH (SendProxy r azDb ApiPrefix body).

Definition proxied r (azDb : AZConfig) (body : option string) : H C Response :=
  resp ← sendProxy r azDb body;
  match resp with
  | Ok resp => mret resp
  | Err _ => httpError 500 [("az", Code azDb)] SpxProxyToAZFailure
  end.

Definition SimpleRedirect r : H C unit :=
  match GetByCode AZs (rq_az r) (rq_orgaId r) with
  | Err e => plainError 404 (err_text e)
  | Ok azCfg =>
    match ReverseProxy (ControllerUrl azCfg) (ApiPrefix +:+ "/" +:+ rq_az r) (AuthSecret azCfg) with
    | Err e => plainError 404 (err_text e)
    | Ok reverseProxy =>
      resp ← outsideH (ServeHTTP (reverseProxy r));
      respond (mkAnswer (StatusCode resp) (RawBody (Body resp)))
    end
  end.

(** ** Lists *)

(** A panic is answered by the recovery middleware. *)
Definition orPanic {A} (m : option A) : H C A :=
  match m with Some a => mret a | None => respond (mkAnswer 500 NoBody) end.

(** A row is kept once for each zone that has its code. *)
Definition ListProducts (productType : string) (fields : list string) r : H C unit :=
  '(orga, project) ← CheckListPathParams r;
  let urls := FindAll AZs orga in
  sent ← outsideH (SendBatchProxy r urls ApiPrefix);
  responses ← match sent with Ok responses => mret responses | Err _ => httpError 500 [] SpxProxyToAZFailure end;
  let concatResults := ConcatResponses responses in
  resourcesDb ← orElse (FindAllByProjectIdAndResourceType project.1 productType)
                  (λ _, httpError 500 [] SpxFindAllResourcesError);
  let resources := resourcesDb ≫= λ p, (λ _, p) <$> filter (λ url : AZConfig, pr_CodeAZ p.2 = Code url) urls in
  combineResults ← orPanic (combineListResult fields concatResults resources);
  respond (mkAnswer 200 (ProductList combineResults)).

Definition ListAZProducts (productType : string) (fields : list string) r : H C unit :=
  '(azDb, _, projectId) ← CheckPathParams r;
  resp ← sendProxy r azDb None;
  let resp := match resp with Ok resp => Some resp | Err _ => None end in
  let concatResults := ConcatResponses {[Code azDb := resp]} in
  resources ← orElse (FindAllByProjectIdAndResourceTypeAndCodeAZ projectId productType (Code azDb))
                (λ _, httpError 500 [] SpxFindAllResourcesError);
  combineResults ← orPanic (combineListResult fields concatResults resources);
  respond (mkAnswer 200 (ProductList combineResults)).

(** ** Reading *)

Definition GetProduct (fields : gmap string json → list (string * json)) r : H C unit :=
  '(azDb, _, projectId) ← CheckPathParams r;
  _ ← CheckProductBelongsToProject r projectId;
  resp ← sendProxy r azDb None;
  db ← tried (FindByEId (rq_effectiveId r));
  let resp := match resp with Ok resp => Some resp | Err _ => None end in
  let '(productResponse, azResult, outcome) := ResolveProductResponse (Code azDb) resp db in
  match outcome with
  | MergeNotFound => httpError 404 [("eid", rq_effectiveId r)] SpxResourceNotFound
  | _ => respond (mkAnswer 200 (Product1 (mkFullResponse productResponse
           (match azResult with Some az => fields az | None => [] end))))
  end.

(** ** Creation *)

(** After the checks: a row, a request with the body built from its metadata, and the row is cleaned
    up when the controller refuses. *)
Definition createProduct (productName productType : string) (azDb : AZConfig) (org projectId : uuid)
    (newBody : Metadata → string) (onError : Response → Z → string → H C unit) r : H C unit :=
  '(product, m) ← orElse (CreateIntoDb SpxPrefix productName productType (Code azDb) org projectId)
                    (λ _, httpError 500 [] SpxResourceCreationFailure);
  resp ← proxied r azDb (Some (newBody m));
  if decide (StatusCode resp = 200) then respond (mkAnswer 200 (Created (pr_EffectiveID product.2))) else
  _ ← CleanDb product.1;
  onError resp 500 SpxResourceCreationFailure.

(** ** Update *)

(** The row is renamed, or there is none. *)
Definition updateRow (productName productType : string) (azDb : AZConfig) (projectId : uuid) r : H C DBProduct :=
  orElse (UpdateIntoDb (rq_effectiveId r) productName productType (Code azDb) projectId) (λ e,
    if errors_Is e ErrRecordNotFound then httpError 404 [("eid", rq_effectiveId r)] SpxResourceNotFound
    else httpError 500 [] SpxResourceUpdateFailure).

Definition sendUpdate (azDb : AZConfig) (newBody : string) (onError : Response → Z → string → H C unit) r : H C unit :=
  resp ← proxied r azDb (Some newBody);
  if decide (StatusCode resp = 200) then mret tt
  else if decide (StatusCode resp = 404) then httpError 404 [("eid", rq_effectiveId r)] SpxResourceNotFound
  else onError resp 500 SpxResourceUpdateFailure.

(** ** Deletion *)

Definition DeleteProduct r : H C unit :=
  '(azDb, _, projectId) ← CheckPathParams r;
  _ ← CheckProductBelongsToProject r projectId;
  resp ← proxied r azDb None;
  if decide (StatusCode resp = 200 ∨ StatusCode resp = 404) then
    rowsAffected ← orElse (DeleteByEIdAndAZCodeAndProject (rq_effectiveId r) (Code azDb) projectId)
                     (λ _, httpError 500 [] SpxResourceDeletionFailure);
    if decide (StatusCode resp = 404 ∧ rowsAffected = 0)
    then httpError 404 [("eid", rq_effectiveId r)] SpxResourceNotFound
    else mret tt
  else HandleControllerError resp 500 SpxResourceDeletionFailure.
End handlers.
