(* ===== verification/ProductKinds.v ===== *)
(** * The bodies of the requests about products
      ([pkg/services/controller/type.go] and the types of each kind of product)

    What the handlers decode, and what they send to the controllers. A structure without a name is
    flattened into the structure of the body; a pointer that may be nil is an option, and so is the list of the
    labels of a disk, which the creation of an instance compares to nil. *)

From S2P Require Import Prelude Strings Strconv Quantity Errors QuotaResources Database AZConfig.
From S2P Require Import Hierarchical SpxId QuotaService NetworkChecks Products Proxy.
From S2P Require Import ProductHandlers.

(** ** Networks *)

Record StaticRoute := mkStaticRoute { Policy : string; CIDR : string; NextHopIP : string; RouteTable : string }.
Record CreateVPCBody := mkCreateVPCBody { cv_ProductName : string }.
Record UpdateVPCBody := mkUpdateVPCBody { uv_ProductName : string; uv_StaticRoutes : list StaticRoute }.

Record SubnetNetwork := mkSubnetNetwork {
  Private : bool; sn_Protocol : string; IPv4 : string; IPv6 : string; DnsV4 : string; DnsV6 : string }.
Record CreateSubnetBody := mkCreateSubnetBody {
  csn_ProductName : string; csn_VpcEId : string; csn_Network : SubnetNetwork; csn_NatGateway : bool }.
Record UpdateSubnetNetwork := mkUpdateSubnetNetwork { un_Private : bool; un_DnsV4 : string; un_DnsV6 : string }.
Record UpdateSubnetBody := mkUpdateSubnetBody {
  us_ProductName : string; us_Network : UpdateSubnetNetwork; us_NatGateway : bool }.

Record EipDNATBody := mkEipDNATBody {
  ExternalPort : string; InternalIP : string; InternalPort : string; dn_Protocol : string }.
Record EipSpec := mkEipSpec { es_InternalIP : string; SNAT : list string; DNAT : list EipDNATBody }.
Record CreateEipBody := mkCreateEipBody { ce_ProductName : string; ce_SubnetEId : string; ce_Spec : EipSpec }.
Record UpdateEipBody := mkUpdateEipBody { ue_ProductName : string; ue_Spec : EipSpec }.

Record RulePort := mkRulePort { rp_Port : Z; TargetPort : Z; rp_Protocol : string }.
Record LoadBalancerSpec := mkLoadBalancerSpec {
  VIP : string; SubnetEId : string; Selectors : list string; Endpoints : list string; Ports : list RulePort }.
Record LoadBalancerBody := mkLoadBalancerBody { lb_ProductName : string; lb_Spec : LoadBalancerSpec }.

Record MatchLabel := mkMatchLabel { ml_Key : string; ml_Value : string }.
Record MatchExpression := mkMatchExpression { me_Key : string; Operator : string; Values : list string }.
Record LabelSelector := mkLabelSelector {
  MatchLabels : list MatchLabel; MatchExpressions : list MatchExpression }.
Record IPBlock := mkIPBlock { ib_CIDR : string; Except : list string }.
Record Peer := mkPeer { PodSelector : LabelSelector; pe_IPBlock : IPBlock }.
Record SgPort := mkSgPort { sp_Port : Z; EndPort : Z; sp_Protocol : string }.
Record IngressRule := mkIngressRule {
  ir_Ports : list SgPort; From : list Peer; ir_AllowAll : bool; ir_DenyAll : bool }.
Record EgressRule := mkEgressRule { er_Ports : list SgPort; To : list Peer; er_AllowAll : bool; er_DenyAll : bool }.
Record SecurityGroupSpec := mkSecurityGroupSpec {
  Target : LabelSelector; Ingress : list IngressRule; Egress : list EgressRule; SubnetEIds : list string }.
Record SecurityGroupBody := mkSecurityGroupBody {
  sg_ProductName : string; sg_Description : string; sg_Spec : SecurityGroupSpec }.

(** ** Storage *)

Record DiskSource := mkDiskSource { ds_Type : string; ds_URL : string; Clone : string; ds_Snapshot : string }.
Record CreateDiskBody := mkCreateDiskBody {
  cd_ProductName : string; Storage : string; Source : DiskSource; StorageClass : string; Labels : option (list string) }.
Record UpdateDiskBody := mkUpdateDiskBody {
  ud_ProductName : string; ud_Storage : string; ud_Labels : list string }.

(** The part of [CreateDiskBody] and [CreateDiskSpxControllerBody] that they share. *)
Record DiskGeneral := mkDiskGeneral {
  dg_Storage : string; dg_Source : DiskSource; dg_StorageClass : string; dg_Labels : option (list string) }.

Record SnapshotScheduleConfig := mkSnapshotScheduleConfig { MinHour : Z; MaxHour : Z }.
(** The retention is that of [RetentionPolicy], in hours. *)
Record SnapshotSpec := mkSnapshotSpec {
  ss_Source : string; Scheduled : bool; Schedule : Z; Paused : bool; ss_LabelSelector : list string; ExpiryTime : Z }.
Record CreateSnapshotBody := mkCreateSnapshotBody { cs_ProductName : string; cs_Spec : SnapshotSpec }.
Record UpdateSnapshotSpec := mkUpdateSnapshotSpec {
  us_Schedule : Z; us_Paused : bool; us_LabelSelector : list string; us_ExpiryTime : Z }.
Record UpdateSnapshotBody := mkUpdateSnapshotBody { usn_ProductName : string; usn_Spec : UpdateSnapshotSpec }.

Record CreateVmSnapshotBody := mkCreateVmSnapshotBody { cvs_ProductName : string; cvs_Source : string }.

Record BucketConfig := mkBucketConfig {
  MaxObjects : option Z; MaxSize : string; bk_Policy : string; Lifecycle : string }.
Record CreateBucketBody := mkCreateBucketBody {
  cb_ProductName : string; cb_StorageClass : string; cb_Config : BucketConfig }.
Record UpdateBucketBody := mkUpdateBucketBody { ub_ProductName : string; ub_Config : BucketConfig }.

Record CreateSSHBody := mkCreateSSHBody { ssh_ProductName : string; PublicKey : string }.

(** ** Instances *)

Record BlockToggle := mkBlockToggle { Enabled : option bool }.
Record TPMOptionsBody := mkTPMOptionsBody { tpm_BlockToggle : BlockToggle; tpm_Persistent : option bool }.
Record EFIOptionsBody := mkEFIOptionsBody {
  efi_BlockToggle : BlockToggle; SecureBoot : option bool; efi_Persistent : option bool }.
Record InstanceAdvancedOptionsBody := mkInstanceAdvancedOptionsBody { Tpm : TPMOptionsBody; Efi : EFIOptionsBody }.
Record InstanceNetworkBody := mkInstanceNetworkBody {
  nw_Order : Z; nw_SubnetEId : string; Model : string; nw_Enabled : option bool;
  nw_IPv4 : string; nw_IPv6 : string; MACAddress : string }.
Record InstanceDiskBody := mkInstanceDiskBody {
  id_Order : Z; id_Cdrom : bool; id_Bus : string; id_Eid : string; id_Disk : CreateDiskBody }.
Record InstanceCloudInitBody := mkInstanceCloudInitBody { Custom : bool; ci_Bus : string; Config : string }.

Record InstanceGeneral := mkInstanceGeneral { RunStrategy : string; VMType : string; ig_Labels : list string }.
(** The devices of the GPUs: a list for a creation, nil when it is not there; and for an update a
    pointer to a list. *)
Record InstanceCompute (Gpu : Type) := mkInstanceCompute { Cpu : Z; Memory : string; gpu : Gpu }.
Arguments mkInstanceCompute {Gpu}.
Arguments Cpu {Gpu}.
Arguments Memory {Gpu}.
Arguments gpu {Gpu}.

(** What the bodies of instances share beside the disks. *)
Record InstanceOptions := mkInstanceOptions {
  CloudInit : InstanceCloudInitBody; SSHKeys : list string; ContainerDisks : option (list string);
  Advanced : option InstanceAdvancedOptionsBody }.

(** [CreateInstanceBody] and [UpdateInstanceBody] *)
Record InstanceBody (Gpu : Type) := mkInstanceBody {
  ib_ProductName : string; ib_General : InstanceGeneral; ib_Compute : InstanceCompute Gpu;
  ib_Network : list InstanceNetworkBody; ib_Disks : list InstanceDiskBody; ib_Options : InstanceOptions }.
Arguments mkInstanceBody {Gpu}.
Arguments ib_ProductName {Gpu}.
Arguments ib_General {Gpu}.
Arguments ib_Compute {Gpu}.
Arguments ib_Network {Gpu}.
Arguments ib_Disks {Gpu}.
Arguments ib_Options {Gpu}.

Abbreviation CreateInstanceBody := (InstanceBody (list string)).
Abbreviation UpdateInstanceBody := (InstanceBody (option (list string))).

Record InstanceDiskSpxControllerBody := mkInstanceDiskSpx {
  sd_Order : Z; sd_Cdrom : bool; sd_Bus : string; sd_Eid : string; sd_Metadata : Metadata; sd_Disk : DiskGeneral }.

(** ** What is sent to a controller *)

Inductive ControllerBody :=
  | CreateVPCSpxControllerBody (m : Metadata)
  | UpdateVPCSpxControllerBody (routes : list StaticRoute)
  | CreateSubnetSpxControllerBody (m : Metadata) (vpcEId : string) (network : SubnetNetwork) (natGateway : bool)
  | UpdateSubnetSpxControllerBody (m : Metadata) (network : UpdateSubnetNetwork) (natGateway : bool)
  | CreateEipSpxControllerBody (m : Metadata) (subnetEId : string) (spec : EipSpec)
  | UpdateEipSpxControllerBody (m : Metadata) (spec : EipSpec)
  | CreateLoadBalancerSpxControllerBody (m : Metadata) (spec : LoadBalancerSpec)
  | UpdateLoadBalancerSpxControllerBody (spec : LoadBalancerSpec)
  | CreateSecurityGroupSpxControllerBody (m : Metadata) (description : string) (spec : SecurityGroupSpec)
  | UpdateSecurityGroupSpxControllerBody (description : string) (spec : SecurityGroupSpec)
  | CreateDiskSpxControllerBody (m : Metadata) (general : DiskGeneral)
  | UpdateDiskSpxControllerBody (storage : string) (labels : list string)
  | CreateSnapshotSpxControllerBody (m : Metadata) (spec : SnapshotSpec) (schedule : SnapshotScheduleConfig)
  | UpdateSnapshotAzControllerBody (spec : UpdateSnapshotSpec) (schedule : SnapshotScheduleConfig)
  | CreateVmSnapshotSpxControllerBody (m : Metadata) (source : string)
  | CloneVmSnapshotAZControllerBody (id : string)
  | CreateBucketSpxControllerBody (m : Metadata) (storageClass : string) (config : BucketConfig)
  | UpdateBucketSpxControllerBody (config : BucketConfig)
  | CreateSSHSpxControllerBody (m : Metadata) (publicKey : string)
  | CreateInstanceSpxControllerBody (m : Metadata) (general : InstanceGeneral) (compute : InstanceCompute (list string))
      (network : list InstanceNetworkBody) (disks : list InstanceDiskSpxControllerBody) (options : InstanceOptions)
  | UpdateInstanceSpxControllerBody (general : InstanceGeneral) (compute : InstanceCompute (option (list string)))
      (network : list InstanceNetworkBody) (disks : list InstanceDiskSpxControllerBody) (options : InstanceOptions).

(** [json.Marshal] of these bodies, [json.Compact], and the decoder of the answer to a clone: the
    identifier and the effective identifier of each disk. *)
Class BodyLib := {
  body_Marshal : ControllerBody → string;
  json_Compact : string → option string;
  DecodeClone : string → option (list (string * string)) }.

(** * The kinds of products ([pkg/services/controller/*], but the instances)

    The handlers of VPCs, subnets, EIPs, load balancers, security groups, disks, snapshots, buckets
    and SSH keys, from the handlers of [ProductHandlers], with the middlewares of their routes. *)

(** ** Names and configuration *)
Definition ProductTypeVPC : string := "vpc".
Definition ProductTypeSubnet : string := "subnet".
Definition ProductTypeEIP : string := "eip".
Definition ProductTypeLoadBalancer : string := "loadBalancer".
Definition ProductTypeSecurityGroup : string := "securityGroup".
Definition ProductTypeDisk : string := "disk".
Definition ProductTypeSnapshot : string := "snapshot".
Definition ProductTypeVmSnapshot : string := "vmSnapshot".
Definition ProductTypeBucket : string := "bucket".
Definition ProductTypeSSH : string := "ssh".
Definition ProductTypeInstance : string := "instance".

(** [ProductsConfig] *)
Record ProductsConfig := mkProductsConfig {
  DefaultVPC_ProductName : string; DefaultSubnet_ProductName : string; DefaultSubnet : SubnetNetwork;
  DefaultSubnet_NatGatewayEnabled : bool; SnapshotSchedule : SnapshotScheduleConfig; MaxMinifiedJSONLen : Z }.

(** The fields that a handler copies from the payload of a zone. *)
Definition copied (keys : list string) (az : gmap string json) : list (string * json) :=
  (λ key, (key, field az key)) <$> keys.

Definition orDefault (value dflt : string) : string := if decide (value = EmptyString) then dflt else value.

(** ** Buckets ([bucket/validate.go]) *)
Section validate.
Context {QL : QuantityLib} {BL : BodyLib} (cfg : ProductsConfig).

Definition maxMinifiedJSONLen : Z :=
  if decide (0 < MaxMinifiedJSONLen cfg) then MaxMinifiedJSONLen cfg else 5000.

Definition ValidateAndMinifyJSON (name raw : string) : result error string :=
  if decide (raw = EmptyString) then Ok EmptyString else
  match json_Compact raw with
  | None => Err (errors_New (name +:+ " is not valid JSON"))
  | Some buf =>
    let len := Z.of_nat (String.length buf) in
    if decide (maxMinifiedJSONLen < len)
    then Err (errors_New (name +:+ " exceeds " +:+ FormatInt maxMinifiedJSONLen +:+
           " characters after minification (" +:+ FormatInt len +:+ ")"))
    else Ok buf
  end.

Definition validateMaxSize (maxSize : string) : result error unit :=
  if decide (maxSize = EmptyString) then Ok tt else
  match ParseQuantity maxSize with
  | None => Err (errors_New "maxSize is not a valid quantity")
  | Some size => if decide (Sign size ≤ 0) then Err (errors_New "maxSize must be positive") else Ok tt
  end.

(** The configuration with its policy and its lifecycle minified. *)
Definition ValidateBucketConfig (c : BucketConfig) : result error BucketConfig :=
  match validateMaxSize (MaxSize c) with
  | Err e => Err e
  | Ok _ =>
    match ValidateAndMinifyJSON "policy" (bk_Policy c) with
    | Err e => Err e
    | Ok policy =>
      match ValidateAndMinifyJSON "lifecycle" (Lifecycle c) with
      | Err e => Err e
      | Ok lifecycle => Ok (mkBucketConfig (MaxObjects c) (MaxSize c) policy lifecycle)
      end
    end
  end.
End validate.

Section kinds.
Context {UL : UUIDLib} {RI : RowIds} {UR : URLLib} {JL : JSONLib} {CL : CaseLib} {QL : QuantityLib} {BL : BodyLib}.
Context {C : Type} {RC : RequestContext C} {HC : HTTPClient C} {CH : ControllerHTTP C}.
Context (SpxPrefix : string) (AZs : gmap string AZConfig) (cfg : ProductsConfig).
Implicit Types (r : Request).

(** ** The middlewares of the routes ([routes.go]) *)

Definition CheckProjectActive (next : Request → H C unit) r : H C unit :=
  match uuid_Parse (rq_orgaId r), uuid_Parse (rq_projectId r) with
  | Some orga, Some project =>
    deactivations ← orElse (ListDeactivations (uuid_String orga) (uuid_String project))
                      (λ _, plainError 500 (StatusText 500));
    if decide (deactivations = []) then next r
    else plainError 423 ("project deactivated: " +:+ String.concat ", " deactivations.*1)
  | _, _ => next r
  end.

Definition CheckCreationQuota (next : Request → H C unit) r : H C unit :=
  match uuid_Parse (rq_projectId r) with
  | None => plainError 400 (StatusText 400)
  | Some project =>
    reached ← orElse (IsQuotaCreationReached (uuid_String project)) (λ _, plainError 500 (StatusText 500));
    if (reached : bool) then plainError 400 "Quota to create product reached" else next r
  end.

(** A check whose refusal is a bad request. *)
Definition orBadRequest {A} (checked : result error A) : H C A :=
  match checked with
  | Ok a => mret a
  | Err e => httpError 400 [("reason", err_text e)] (StatusText 400)
  end.

(** The body of an update with the metadata of the row. *)
Definition rowMetadata (org projectId : uuid) (p : DBProduct) : Metadata :=
  mkMetadata org projectId (pr_EffectiveID p.2) p.1.

(** ** VPCs *)
Definition ListVPCs : Request → H C unit := ListProducts AZs ProductTypeVPC ["vpc"].
Definition ListAZVPCs : Request → H C unit := ListAZProducts AZs ProductTypeVPC ["vpc"].
Definition GetVPC : Request → H C unit := GetProduct AZs (copied ["vpc"]).

Definition CreateVPC (body : result answer CreateVPCBody) r : H C unit :=
  '(azDb, org, projectId) ← CheckPathParams AZs r;
  body ← decoded body;
  createProduct SpxPrefix (cv_ProductName body) ProductTypeVPC azDb org projectId
    (λ m, body_Marshal (CreateVPCSpxControllerBody m)) HandleControllerError r.

(** [mayReadSubnets] is the permission of the user on the subnets of the project. *)
Definition UpdateVPC (mayReadSubnets : bool) (body : result answer UpdateVPCBody) r : H C unit :=
  '(azDb, _, projectId) ← CheckPathParams AZs r;
  body ← decoded body;
  _ ← updateRow (uv_ProductName body) ProductTypeVPC azDb projectId r;
  if mayReadSubnets
  then sendUpdate azDb (body_Marshal (UpdateVPCSpxControllerBody (uv_StaticRoutes body))) HandleControllerError r
  else mret tt.

Definition DeleteVPC : Request → H C unit := DeleteProduct AZs.

(** ** Subnets *)
Definition ListSubnets : Request → H C unit := ListProducts AZs ProductTypeSubnet ["subnet"; "natGateway"].
Definition ListAZSubnets : Request → H C unit := ListAZProducts AZs ProductTypeSubnet ["subnet"; "natGateway"].
Definition GetSubnet : Request → H C unit := GetProduct AZs (copied ["subnet"; "natGateway"]).

(** The status and the error of a VPC that is refused. *)
Definition checkVpcReference (vpcEId : string) (projectId : uuid) (found : result error DBProduct) : option (Z * error) :=
  if decide (vpcEId = EmptyString) then Some (400, errors_New "vpcEId is required") else
  match found with
  | Err e => if errors_Is e ErrRecordNotFound then None else Some (500, e)
  | Ok vpc =>
    if decide (pr_ProjectId vpc.2 ≠ projectId ∨ pr_ProductTypeId vpc.2 ≠ ProductTypeVPC)
    then Some (404, errors_New "VPC not found") else None
  end.

(** The lookup is only made for a name. *)
Definition lookupVpc (vpcEId : string) : H C (result error DBProduct) :=
  if decide (vpcEId = EmptyString) then mret (Err (ErrRecordNotFound : error)) else tried (FindByEId vpcEId).

Definition subnetDNS (n : SubnetNetwork) : SubnetNetwork :=
  mkSubnetNetwork (Private n) (sn_Protocol n) (IPv4 n) (IPv6 n)
    (orDefault (DnsV4 n) (DnsV4 (DefaultSubnet cfg))) (orDefault (DnsV6 n) (DnsV6 (DefaultSubnet cfg))).

Definition CreateSubnet (body : result answer CreateSubnetBody) r : H C unit :=
  '(azDb, org, projectId) ← CheckPathParams AZs r;
  body ← decoded body;
  let vpcEId := csn_VpcEId body in
  found ← lookupVpc vpcEId;
  match checkVpcReference vpcEId projectId found with
  | Some (code, err) => httpError code [("vpcEId", vpcEId)]
      (if decide (code = 500) then SpxResourceCreationFailure else err_text err)
  | None =>
    createProduct SpxPrefix (csn_ProductName body) ProductTypeSubnet azDb org projectId
      (λ m, body_Marshal (CreateSubnetSpxControllerBody m vpcEId (subnetDNS (csn_Network body)) (csn_NatGateway body)))
      HandleControllerError r
  end.

Definition updateSubnetDNS (n : UpdateSubnetNetwork) : UpdateSubnetNetwork :=
  mkUpdateSubnetNetwork (un_Private n)
    (orDefault (un_DnsV4 n) (DnsV4 (DefaultSubnet cfg))) (orDefault (un_DnsV6 n) (DnsV6 (DefaultSubnet cfg))).

Definition UpdateSubnet (body : result answer UpdateSubnetBody) r : H C unit :=
  '(azDb, org, projectId) ← CheckPathParams AZs r;
  body ← decoded body;
  subnet ← updateRow (us_ProductName body) ProductTypeSubnet azDb projectId r;
  sendUpdate azDb (body_Marshal (UpdateSubnetSpxControllerBody (rowMetadata org projectId subnet)
    (updateSubnetDNS (us_Network body)) (us_NatGateway body))) HandleControllerError r.

Definition DeleteSubnet : Request → H C unit := DeleteProduct AZs.
Definition HasEip : Request → H C unit := SimpleRedirect AZs.

(** ** EIPs *)
Definition ListEips : Request → H C unit := ListProducts AZs ProductTypeEIP ["eip"].
Definition ListAZEips : Request → H C unit := ListAZProducts AZs ProductTypeEIP ["eip"].
Definition GetEip : Request → H C unit := GetProduct AZs (copied ["eip"; "fip"; "snat"; "dnat"]).

Definition CreateEip (body : result answer CreateEipBody) r : H C unit :=
  '(azDb, org, projectId) ← CheckPathParams AZs r;
  body ← decoded body;
  createProduct SpxPrefix (ce_ProductName body) ProductTypeEIP azDb org projectId
    (λ m, body_Marshal (CreateEipSpxControllerBody m (ce_SubnetEId body) (ce_Spec body))) HandleControllerError r.

Definition UpdateEip (body : result answer UpdateEipBody) r : H C unit :=
  '(azDb, org, projectId) ← CheckPathParams AZs r;
  body ← decoded body;
  eip ← updateRow (ue_ProductName body) ProductTypeEIP azDb projectId r;
  sendUpdate azDb (body_Marshal (UpdateEipSpxControllerBody (rowMetadata org projectId eip) (ue_Spec body)))
    HandleControllerError r.

Definition DeleteEip : Request → H C unit := DeleteProduct AZs.

(** ** Load balancers *)

(** A bad request of the controller is one of the user. *)
Definition handleControllerError (resp : Response) (failureCode : Z) (failureMessage : string) : H C unit :=
  if decide (StatusCode resp ≠ 400) then HandleControllerError resp failureCode failureMessage
  else httpError 400 [("reason", default (StatusText 400) (RetrieveHttpError resp))] failureMessage.

Definition ListLoadBalancers : Request → H C unit := ListProducts AZs ProductTypeLoadBalancer ["loadBalancer"].
Definition ListAZLoadBalancers : Request → H C unit := ListAZProducts AZs ProductTypeLoadBalancer ["loadBalancer"].
Definition GetLoadBalancer : Request → H C unit := GetProduct AZs (copied ["loadBalancer"]).

Definition CreateLoadBalancer (body : result answer LoadBalancerBody) r : H C unit :=
  '(azDb, org, projectId) ← CheckPathParams AZs r;
  body ← decoded body;
  createProduct SpxPrefix (lb_ProductName body) ProductTypeLoadBalancer azDb org projectId
    (λ m, body_Marshal (CreateLoadBalancerSpxControllerBody m (lb_Spec body))) handleControllerError r.

Definition UpdateLoadBalancer (body : result answer LoadBalancerBody) r : H C unit :=
  '(azDb, _, projectId) ← CheckPathParams AZs r;
  body ← decoded body;
  _ ← updateRow (lb_ProductName body) ProductTypeLoadBalancer azDb projectId r;
  sendUpdate azDb (body_Marshal (UpdateLoadBalancerSpxControllerBody (lb_Spec body))) handleControllerError r.

Definition DeleteLoadBalancer : Request → H C unit := DeleteProduct AZs.

(** ** Security groups *)
Definition ListSecurityGroups : Request → H C unit := ListProducts AZs ProductTypeSecurityGroup ["securityGroup"].
Definition ListAZSecurityGroups : Request → H C unit := ListAZProducts AZs ProductTypeSecurityGroup ["securityGroup"].
Definition GetSecurityGroup : Request → H C unit := GetProduct AZs (copied ["securityGroup"]).

Definition CreateSecurityGroup (body : result answer SecurityGroupBody) r : H C unit :=
  '(azDb, org, projectId) ← CheckPathParams AZs r;
  body ← decoded body;
  createProduct SpxPrefix (sg_ProductName body) ProductTypeSecurityGroup azDb org projectId
    (λ m, body_Marshal (CreateSecurityGroupSpxControllerBody m (sg_Description body) (sg_Spec body)))
    HandleControllerError r.

Definition UpdateSecurityGroup (body : result answer SecurityGroupBody) r : H C unit :=
  '(azDb, _, projectId) ← CheckPathParams AZs r;
  body ← decoded body;
  _ ← updateRow (sg_ProductName body) ProductTypeSecurityGroup azDb projectId r;
  sendUpdate azDb (body_Marshal (UpdateSecurityGroupSpxControllerBody (sg_Description body) (sg_Spec body)))
    HandleControllerError r.

Definition DeleteSecurityGroup : Request → H C unit := DeleteProduct AZs.

(** ** Disks *)
Definition diskFields : list string := ["disk"; "pvc"; "mountStatus"].
Definition ListDisks : Request → H C unit := ListProducts AZs ProductTypeDisk diskFields.
Definition ListAZDisks : Request → H C unit := ListAZProducts AZs ProductTypeDisk diskFields.
Definition GetDisk : Request → H C unit := GetProduct AZs (copied (diskFields ++ ["replication"])).

(** [strconv.Atoi], on 64 bits. *)
Definition checkStorage (storage : string) : result error unit :=
  match ParseInt storage with
  | None => Err (errors_New "failed to convert storage size")
  | Some v => if decide (5000 < v) then Err (errors_New "storage size is bigger than 5000") else Ok tt
  end.

Definition diskGeneral (body : CreateDiskBody) : DiskGeneral :=
  mkDiskGeneral (Storage body) (Source body) (StorageClass body) (Labels body).

Definition CreateDisk (body : result answer CreateDiskBody) r : H C unit :=
  '(azDb, org, projectId) ← CheckPathParams AZs r;
  body ← decoded body;
  _ ← orBadRequest (checkStorage (Storage body));
  createProduct SpxPrefix (cd_ProductName body) ProductTypeDisk azDb org projectId
    (λ m, body_Marshal (CreateDiskSpxControllerBody m (diskGeneral body))) HandleControllerError r.

Definition UpdateDisk (body : result answer UpdateDiskBody) r : H C unit :=
  '(azDb, _, projectId) ← CheckPathParams AZs r;
  body ← decoded body;
  _ ← updateRow (ud_ProductName body) ProductTypeDisk azDb projectId r;
  sendUpdate azDb (body_Marshal (UpdateDiskSpxControllerBody (ud_Storage body) (ud_Labels body)))
    HandleControllerError r.

Definition DeleteDisk : Request → H C unit := DeleteProduct AZs.
Definition Unmount : Request → H C unit := SimpleRedirect AZs.

(** ** Snapshots of disks *)
Definition snapshotFields : list string := ["snapshot"; "snapshotSchedule"].
Definition ListSnapshots : Request → H C unit := ListProducts AZs ProductTypeSnapshot snapshotFields.
Definition ListAZSnapshots : Request → H C unit := ListAZProducts AZs ProductTypeSnapshot snapshotFields.
Definition GetSnapshot : Request → H C unit := GetProduct AZs (copied snapshotFields).

Definition CreateSnapshot (body : result answer CreateSnapshotBody) r : H C unit :=
  '(azDb, org, projectId) ← CheckPathParams AZs r;
  body ← decoded body;
  createProduct SpxPrefix (cs_ProductName body) ProductTypeSnapshot azDb org projectId
    (λ m, body_Marshal (CreateSnapshotSpxControllerBody m (cs_Spec body) (SnapshotSchedule cfg)))
    HandleControllerError r.

Definition UpdateSnapshot (body : result answer UpdateSnapshotBody) r : H C unit :=
  '(azDb, _, projectId) ← CheckPathParams AZs r;
  body ← decoded body;
  _ ← updateRow (usn_ProductName body) ProductTypeSnapshot azDb projectId r;
  sendUpdate azDb (body_Marshal (UpdateSnapshotAzControllerBody (usn_Spec body) (SnapshotSchedule cfg)))
    HandleControllerError r.

Definition DeleteSnapshot : Request → H C unit := DeleteProduct AZs.

(** ** Snapshots of instances *)
Definition vmSnapshotFields : list string := ["vmSnapshot"; "vmSnapshotContent"].
Definition ListVmSnapshots : Request → H C unit := ListProducts AZs ProductTypeVmSnapshot vmSnapshotFields.
Definition ListAZVmSnapshots : Request → H C unit := ListAZProducts AZs ProductTypeVmSnapshot vmSnapshotFields.
Definition GetVmSnapshot : Request → H C unit := GetProduct AZs (copied vmSnapshotFields).

Definition CreateVmSnapshot (body : result answer CreateVmSnapshotBody) r : H C unit :=
  '(azDb, org, projectId) ← CheckPathParams AZs r;
  body ← decoded body;
  createProduct SpxPrefix (cvs_ProductName body) ProductTypeVmSnapshot azDb org projectId
    (λ m, body_Marshal (CreateVmSnapshotSpxControllerBody m (cvs_Source body))) HandleControllerError r.

Definition DeleteVmSnapshot : Request → H C unit := DeleteProduct AZs.

Definition RestoreVmSnapshot r : H C unit :=
  '(azDb, _, projectId) ← CheckPathParams AZs r;
  _ ← CheckProductBelongsToProject r projectId;
  resp ← proxied r azDb None;
  if decide (StatusCode resp ≠ 200) then
    HandleControllerError resp
      (if decide (StatusCode resp = 404 ∨ StatusCode resp = 409) then StatusCode resp else 500)
      SpxResourceUpdateFailure
  else mret tt.

(** A row for each disk of the clone, from the [i]-th; whether all of them are saved. *)
Fixpoint saveDisks (azCode : string) (projectId : uuid) (name : string) (i : Z) (disks : list (string * string)) :
    H C bool :=
  match disks with
  | [] => mret true
  | (id, eid) :: disks =>
    saved ← match uuid_Parse id with
            | None => mret false
            | Some diskId =>
              res ← tried (Save (uuid_String diskId, mkProduct (name +:+ "-disk-" +:+ FormatInt i) eid azCode projectId
                                   ProductTypeDisk false));
              mret (is_Ok res)
            end;
    rest ← saveDisks azCode projectId name (i + 1) disks;
    mret (saved && rest)
  end.

Definition CloneVmSnapshot (body : result answer string) r : H C unit :=
  '(azDb, org, projectId) ← CheckPathParams AZs r;
  name ← decoded body;
  '(instance, _) ← orElse (CreateIntoDb SpxPrefix name ProductTypeInstance (Code azDb) org projectId)
                     (λ _, httpError 500 [] SpxResourceCreationFailure);
  resp ← proxied r azDb (Some (body_Marshal (CloneVmSnapshotAZControllerBody instance.1)));
  if decide (StatusCode resp = 201) then
    match DecodeClone (Body resp) with
    | None => httpError 500 [] SpxResourceCreationFailure
    | Some disks =>
      saved ← saveDisks (Code azDb) projectId name 0 disks;
      if (saved : bool) then respond (mkAnswer 201 NoBody) else httpError 500 [] SpxResourceCreationFailure
    end
  else
    _ ← CleanDb instance.1;
    HandleControllerError resp 500 SpxResourceCreationFailure.

(** ** Buckets *)
Definition ListBuckets : Request → H C unit := ListProducts AZs ProductTypeBucket ["bucket"].
Definition ListAZBuckets : Request → H C unit := ListAZProducts AZs ProductTypeBucket ["bucket"].
Definition GetBucket : Request → H C unit := GetProduct AZs (copied ["bucket"]).

Definition buildCreateControllerBody (storageClass : string) (config : BucketConfig) (m : Metadata) : ControllerBody :=
  CreateBucketSpxControllerBody m storageClass config.

Definition CreateBucket (body : result answer CreateBucketBody) r : H C unit :=
  '(azDb, org, projectId) ← CheckPathParams AZs r;
  body ← decoded body;
  config ← orBadRequest (ValidateBucketConfig cfg (cb_Config body));
  createProduct SpxPrefix (cb_ProductName body) ProductTypeBucket azDb org projectId
    (λ m, body_Marshal (buildCreateControllerBody (cb_StorageClass body) config m)) HandleControllerError r.

Definition UpdateBucket (body : result answer UpdateBucketBody) r : H C unit :=
  '(azDb, _, projectId) ← CheckPathParams AZs r;
  body ← decoded body;
  config ← orBadRequest (ValidateBucketConfig cfg (ub_Config body));
  _ ← updateRow (ub_ProductName body) ProductTypeBucket azDb projectId r;
  sendUpdate azDb (body_Marshal (UpdateBucketSpxControllerBody config)) HandleControllerError r.

Definition DeleteBucket : Request → H C unit := DeleteProduct AZs.

Definition credentialsURL (azDb : AZConfig) (org projectId : uuid) (effectiveId : string) : string :=
  ControllerUrl azDb +:+ "/" +:+ org +:+ "/" +:+ projectId +:+ "/bucket/" +:+ effectiveId +:+ "/credentials".

Definition GetBucketCredentials r : H C unit :=
  '(azDb, org, projectId) ← CheckPathParams AZs r;
  _ ← CheckProductBelongsToProject r projectId;
  let eid := [("eid", rq_effectiveId r)] in
  resp ← outsideH (SendRequest (credentialsURL azDb org projectId (rq_effectiveId r)) "GET" None (AuthSecret azDb));
  match resp with
  | Err _ => httpError 500 eid SpxProxyToAZFailure
  | Ok resp =>
    if decide (StatusCode resp = 404) then httpError 404 eid SpxResourceNotFound
    else if decide (StatusCode resp ≠ 200) then httpError 500 eid SpxProxyToAZFailure
    else respond (mkAnswer 200 (RawBody (Body resp)))
  end.

Definition GetS3Config : Request → H C unit := SimpleRedirect AZs.

(** ** SSH keys *)
Definition ListSSHs : Request → H C unit := ListProducts AZs ProductTypeSSH ["ssh"].
Definition ListAZSSHs : Request → H C unit := ListAZProducts AZs ProductTypeSSH ["ssh"].
Definition GetSSH : Request → H C unit := GetProduct AZs (copied ["ssh"]).

Definition CreateSSH (body : result answer CreateSSHBody) r : H C unit :=
  '(azDb, org, projectId) ← CheckPathParams AZs r;
  body ← decoded body;
  createProduct SpxPrefix (ssh_ProductName body) ProductTypeSSH azDb org projectId
    (λ m, body_Marshal (CreateSSHSpxControllerBody m (PublicKey body))) HandleControllerError r.

Definition DeleteSSH : Request → H C unit := DeleteProduct AZs.
End kinds.
