(* ===== verification/Instances.v ===== *)
(** * Instances and the default resources of a project
      ([controller/instance/instance.go], [controller/defaultInit.go], [pkg/utils/validation/compute.go])

    An instance is created and updated with the disks that its body describes, each with a row of
    its own. The VPC and the subnet of a new project are created without a request. *)

From Stdlib Require Import Ascii.
From S2P Require Import Prelude Strings Strconv Errors Quantity QuotaResources Database AZConfig SpxId Hierarchical.
From S2P Require Import QuotaService NetworkChecks Operator Products Proxy ProductHandlers ProductKinds.
From S2P Require Import ProductKinds.

(** ** The size of an instance *)
Definition MinCPU : Z := 1.
Definition MaxComputeValue : Z := 999999.
Definition mebibyte : Z := 1048576.
Definition maxMemoryLength : Z := 64.

Definition ErrInvalidComputeSize : string := "invalid compute size".

(** [!strings.ContainsAny(memory, eE)] *)
Definition noExponent (memory : string) : bool := all_bytes (λ c, negb (bool_decide (c ∈ ["e"; "E"]%char))) memory.

(** The comparison of the quantity with an [int64] is the one with its quantity; the bounds are
    what [MustParse] makes of [128Mi] and [999999Gi]. *)
Definition ValidateComputeSize {QL : QuantityLib} {GT : GoText} (MinMemory MaxMemory : Quantity)
    (cpu : Z) (memory : string) : result error Quantity :=
  if decide (cpu < MinCPU ∨ MaxComputeValue < cpu) then
    Err (errors_New (ErrInvalidComputeSize +:+ ": cpu value (" +:+ FormatInt cpu +:+ ") must be between " +:+
      FormatInt MinCPU +:+ " and " +:+ FormatInt MaxComputeValue))
  else
  let invalidMemory := errors_New (ErrInvalidComputeSize +:+ ": memory (" +:+ Quote memory +:+
    ") must be a whole number of MiB between " +:+ QString MinMemory +:+ " and " +:+ QString MaxMemory) in
  if decide (maxMemoryLength < Z.of_nat (String.length memory)) then Err invalidMemory
  else if negb (noExponent memory) then Err invalidMemory
  else match ParseQuantity memory with
  | None => Err invalidMemory
  | Some q =>
    if decide (Cmp q MinMemory < 0 ∨ 0 < Cmp q MaxMemory ∨ Cmp q (NewQuantity (Value q) DecimalSI) ≠ 0 ∨
               Z.rem (Value q) mebibyte ≠ 0)
    then Err invalidMemory else Ok (NewQuantity (Value q) BinarySI)
  end.

(** ** The container disks of an instance *)

Definition extractRawVolumes (mapResult : gmap string json) : list json :=
  default [] (vm ← object (field mapResult "vm"); spec ← object (field vm "spec");
    template ← object (field spec "template"); templateSpec ← object (field template "spec");
    match field templateSpec "volumes" with JArray volumes => Some volumes | _ => None end).

Definition mountedContainerDisk (vol : json) : option string :=
  volMap ← object vol; _ ← object (field volMap "containerDisk");
  let name := stringField volMap "name" in if decide (name = EmptyString) then None else Some name.

Definition resolveMountedContainerDisks (mapResult : gmap string json) : list string :=
  omap mountedContainerDisk (extractRawVolumes mapResult).

(** The fields of the response of an instance. *)
Definition instanceFields (az : gmap string json) : list (string * json) :=
  copied ["vm"; "vmi"; "cloudInit"] az ++ [("containerDisks", JArray (JString <$> resolveMountedContainerDisks az))] ++
  copied ["gpus"] az.

Definition zeroDisk : CreateDiskBody :=
  mkCreateDiskBody EmptyString EmptyString (mkDiskSource EmptyString EmptyString EmptyString EmptyString)
    EmptyString None.

#[export] Instance DiskSource_eq_dec : EqDecision DiskSource.
Proof. solve_decision. Defined.
#[export] Instance CreateDiskBody_eq_dec : EqDecision CreateDiskBody.
Proof. solve_decision. Defined.

(** [reflect.DeepEqual] with the zero body. *)
Definition isZeroDisk (d : CreateDiskBody) : bool := bool_decide (d = zeroDisk).

Definition zeroGeneral : DiskGeneral :=
  mkDiskGeneral EmptyString (mkDiskSource EmptyString EmptyString EmptyString EmptyString) EmptyString None.

(** A disk that exists. *)
Definition existingDisk (d : InstanceDiskBody) : InstanceDiskSpxControllerBody :=
  mkInstanceDiskSpx (id_Order d) (id_Cdrom d) (id_Bus d) (id_Eid d) noMetadata zeroGeneral.

(** A disk that is created; its labels are not sent. *)
Definition newDisk (d : InstanceDiskBody) (m : Metadata) : InstanceDiskSpxControllerBody :=
  mkInstanceDiskSpx (id_Order d) (id_Cdrom d) (id_Bus d) EmptyString m
    (mkDiskGeneral (Storage (id_Disk d)) (Source (id_Disk d)) (StorageClass (id_Disk d)) None).

Section instances.
Context {UL : UUIDLib} {RI : RowIds} {UR : URLLib} {JL : JSONLib} {CL : CaseLib} {QL : QuantityLib} {BL : BodyLib}.
Context {GT : GoText}.
Context {C : Type} {RC : RequestContext C} {HC : HTTPClient C} {CH : ControllerHTTP C}.
Context (SpxPrefix : string) (AZs : gmap string AZConfig) (cfg : ProductsConfig) (MinMemory MaxMemory : Quantity).
Implicit Types (r : Request).

(** ** New disks *)

(** What [initializeNewDisks] returns: the rows that it made, what to send, and whether it failed. *)
Record NewDisks := mkNewDisks {
  disksCreated : list DBProduct; disksForCtrl : list InstanceDiskSpxControllerBody; failed : bool }.

(** One row: [None] is a failure before there is one; a failure after it leaves the row. *)
Definition initializeNewDisk (orgID projectID : uuid) (azCode : string) (d : InstanceDiskBody) :
    H C (option (DBProduct * option InstanceDiskSpxControllerBody)) :=
  reached ← tried (IsQuotaCreationReached projectID);
  match reached with
  | Err _ | Ok true => mret None
  | Ok false =>
    created ← tried (Save (uuid_Nil, mkProduct (cd_ProductName (id_Disk d)) EmptyString azCode projectID
                             ProductTypeDisk false));
    match created with
    | Err _ => mret None
    | Ok row =>
      match GenerateMetadata noMetadata projectID orgID row.1 with
      | (_, Some _) => mret (Some (row, None))
      | (m, None) =>
        saved ← tried (Save (row.1, with_EffectiveID row.2 (effectiveID SpxPrefix m)));
        mret (Some (row, match saved with Ok _ => Some (newDisk d m) | Err _ => None end))
      end
    end
  end.

Fixpoint initializeNewDisks (orgID projectID : uuid) (azCode : string) (disks : list InstanceDiskBody)
    (acc : NewDisks) : H C NewDisks :=
  match disks with
  | [] => mret acc
  | d :: disks =>
    if isZeroDisk (id_Disk d) then
      initializeNewDisks orgID projectID azCode disks
        (mkNewDisks (disksCreated acc) (disksForCtrl acc ++ [existingDisk d]) false)
    else
      made ← initializeNewDisk orgID projectID azCode d;
      match made with
      | None => mret (mkNewDisks (disksCreated acc) (disksForCtrl acc) true)
      | Some (row, None) => mret (mkNewDisks (disksCreated acc ++ [row]) (disksForCtrl acc) true)
      | Some (row, Some sent) =>
        initializeNewDisks orgID projectID azCode disks
          (mkNewDisks (disksCreated acc ++ [row]) (disksForCtrl acc ++ [sent]) false)
      end
  end.

Definition noDisks : NewDisks := mkNewDisks [] [] false.

(** The rows of the disks are deleted; errors are only logged. *)
Fixpoint deleteRows (rows : list DBProduct) : H C unit :=
  match rows with [] => mret tt | row :: rows => _ ← logged (DeleteById row.1); deleteRows rows end.

Fixpoint cleanRows (rows : list DBProduct) : H C unit :=
  match rows with [] => mret tt | row :: rows => _ ← CleanDb row.1; cleanRows rows end.

(** ** Handlers *)
Definition ListInstances : Request → H C unit := ListProducts AZs ProductTypeInstance ["vm"; "vmi"].
Definition ListAZInstances : Request → H C unit := ListAZProducts AZs ProductTypeInstance ["vm"; "vmi"].
Definition GetInstance : Request → H C unit := GetProduct AZs instanceFields.

(** The memory in canonical form. *)
Definition checkCompute {Gpu} (c : InstanceCompute Gpu) : H C (InstanceCompute Gpu) :=
  memory ← orBadRequest (ValidateComputeSize MinMemory MaxMemory (Cpu c) (Memory c));
  mret (mkInstanceCompute (Cpu c) (QString memory) (gpu c)).

Definition CreateInstance (body : result answer CreateInstanceBody) r : H C unit :=
  '(azDb, org, projectId) ← CheckPathParams AZs r;
  body ← decoded body;
  if decide (ib_Network body = []) then httpError 400 [("reason", "Network is required")] (StatusText 400) else
  compute ← checkCompute (ib_Compute body);
  '(instance, m) ← orElse (CreateIntoDb SpxPrefix (ib_ProductName body) ProductTypeInstance (Code azDb) org projectId)
                     (λ _, httpError 500 [] SpxResourceCreationFailure);
  disks ← initializeNewDisks org projectId (Code azDb) (ib_Disks body) noDisks;
  if failed disks then
    _ ← deleteRows (disksCreated disks);
    _ ← logged (DeleteById instance.1);
    httpError 500 [] SpxResourceCreationFailure
  else
  resp ← proxied r azDb (Some (body_Marshal (CreateInstanceSpxControllerBody m (ib_General body) compute
           (ib_Network body) (disksForCtrl disks) (ib_Options body))));
  if decide (StatusCode resp = 200) then respond (mkAnswer 200 (Created (pr_EffectiveID instance.2))) else
  _ ← cleanRows (disksCreated disks);
  _ ← CleanDb instance.1;
  HandleControllerError resp 500 SpxResourceCreationFailure.

Definition toUpdateAzControllerBody (body : UpdateInstanceBody) (compute : InstanceCompute (option (list string)))
    (disksForCtrl : list InstanceDiskSpxControllerBody) : ControllerBody :=
  UpdateInstanceSpxControllerBody (ib_General body) compute (ib_Network body) disksForCtrl (ib_Options body).

(** The context of the first refusal, the body itself, is left out. *)
Definition UpdateInstance (body : result answer UpdateInstanceBody) r : H C unit :=
  '(azDb, org, projectId) ← CheckPathParams AZs r;
  body ← decoded body;
  if decide (ib_Network body = []) then httpError 400 [] "Network is required" else
  compute ← checkCompute (ib_Compute body);
  _ ← updateRow (ib_ProductName body) ProductTypeInstance azDb projectId r;
  disks ← initializeNewDisks org projectId (Code azDb) (ib_Disks body) noDisks;
  _ ← (if failed disks then deleteRows (disksCreated disks) else mret tt);
  resp ← proxied r azDb (Some (body_Marshal (toUpdateAzControllerBody body compute (disksForCtrl disks))));
  if decide (StatusCode resp = 200) then mret tt else
  _ ← deleteRows (disksCreated disks);
  if decide (StatusCode resp = 404) then httpError 404 [("eid", rq_effectiveId r)] SpxResourceNotFound
  else HandleControllerError resp 500 SpxResourceUpdateFailure.

Definition DeleteInstance : Request → H C unit := DeleteProduct AZs.

(** The other operations are those of the controller. *)
Definition AdvancedOptions : Request → H C unit := SimpleRedirect AZs.
Definition Serial : Request → H C unit := SimpleRedirect AZs.
Definition Vnc : Request → H C unit := SimpleRedirect AZs.
Definition Start : Request → H C unit := SimpleRedirect AZs.
Definition Stop : Request → H C unit := SimpleRedirect AZs.
Definition StopForce : Request → H C unit := SimpleRedirect AZs.
Definition Restart : Request → H C unit := SimpleRedirect AZs.
Definition ContainerDiskMount : Request → H C unit := SimpleRedirect AZs.
Definition ContainerDiskUnmount : Request → H C unit := SimpleRedirect AZs.
Definition ListContainerDisks : Request → H C unit := SimpleRedirect AZs.

(** ** The default resources of a project ([defaultInit.go]) *)

Definition FailedVpcCreation : error := errors_New "failed to create VPC".
Definition FailedSubnetCreation : error := errors_New "failed to create Subnet".

(** A row with its effective identifier and its metadata; a row without is deleted. *)
Definition initializeRow (productName productType azCode : string) (projectUUID orgUUID : uuid) (failure : error) :
    M C (DBProduct * Metadata) :=
  created ← attempt (Save (uuid_Nil, mkProduct productName EmptyString azCode projectUUID productType false));
  match created with
  | Err _ => fail failure
  | Ok row =>
    let clean := (_ ← attempt (DeleteById row.1); fail failure) : M C (DBProduct * Metadata) in
    match GenerateMetadata noMetadata projectUUID orgUUID row.1 with
    | (_, Some _) => clean
    | (m, None) =>
      saved ← attempt (Save (row.1, with_EffectiveID row.2 (effectiveID SpxPrefix m)));
      match saved with Err _ => clean | Ok saved => mret (saved, m) end
    end
  end.

(** The request of the creation, for which a status 404 is a success. *)
Definition postController (az : AZConfig) (orgUUID projectUUID : uuid) (resource : string) (body : ControllerBody)
    (failure : error) : M C unit :=
  resp ← outsideCall (SendRequest (ControllerUrl az +:+ "/" +:+ orgUUID +:+ "/" +:+ projectUUID +:+ "/" +:+ resource)
           "POST" (Some (body_Marshal body)) (AuthSecret az));
  match resp with
  | Err _ => fail failure
  | Ok resp => if decide (StatusCode resp ≠ 200 ∧ StatusCode resp ≠ 404) then fail failure else mret tt
  end.

Definition initializeVPC (orgUUID projectUUID : uuid) (az : AZConfig) : M C string :=
  '(vpc, m) ← initializeRow (DefaultVPC_ProductName cfg) ProductTypeVPC (Code az) projectUUID orgUUID FailedVpcCreation;
  _ ← postController az orgUUID projectUUID "vpc" (CreateVPCSpxControllerBody m) FailedVpcCreation;
  mret (pr_EffectiveID vpc.2).

Definition initializeSubnet (orgUUID projectUUID : uuid) (az : AZConfig) (vpcEID : string) : M C unit :=
  '(_, m) ← initializeRow (DefaultSubnet_ProductName cfg) ProductTypeSubnet (Code az) projectUUID orgUUID
              FailedSubnetCreation;
  postController az orgUUID projectUUID "subnet"
    (CreateSubnetSpxControllerBody m vpcEID (DefaultSubnet cfg) (DefaultSubnet_NatGatewayEnabled cfg))
    FailedSubnetCreation.

Definition failedTo (resource : string) : error :=
  errors_New ("InitializeProjectDefaultResources - Failed to initialize " +:+ resource).

Definition InitializeProjectDefaultResources (orgUUID projectUUID : uuid) : M C unit :=
  for_each (λ az,
    vpcEID ← attempt (initializeVPC orgUUID projectUUID az);
    match vpcEID with
    | Err _ => fail (failedTo "VPC")
    | Ok vpcEID =>
      done ← attempt (initializeSubnet orgUUID projectUUID az vpcEID);
      match done with Err _ => fail (failedTo "Subnet") | Ok _ => mret tt end
    end) (FindAll AZs orgUUID).
End instances.
