(* ===== verification/ProductTheorems.v ===== *)
(** * Laws of the products of the API

    What the lookups of the handlers read, which of their checks stop a request, and what the
    writes of rows do to the tables. *)

From S2P Require Import Prelude Strings Strconv Quantity Errors QuotaResources Database AZConfig.
From S2P Require Import Hierarchical SpxId QuotaService Operator NetworkChecks Products Proxy.
From S2P Require Import ProductHandlers ProductKinds Instances.

(** ** Refusals *)
Definition refusal (a : answer) : Prop := status a = 400 ∨ status a = 404 ∨ status a = 500.

Section checks.
Context {C : Type}.

(** An operation that reads: it goes on with a value that the tables determine, or refuses. *)
Class Checks {A} (m : H C A) (Q : Tables → A → Prop) : Prop :=
  checks w : same_data w (m w).2 ∧ match (m w).1 with Ok a => Q (tables w) a | Err a => refusal a end.

(** A run that is refused and changes nothing. *)
Definition stops {A} (m : H C A) (w : World C) : Prop :=
  same_data w (m w).2 ∧ ∃ a, (m w).1 = Err a ∧ refusal a.

Lemma H_bind_eq {A B} (m : H C A) (k : A → H C B) w :
  (m ≫= k) w = match m w with (Ok a, w) => k a w | (Err e, w) => (Err e, w) end.
Proof. done. Qed.

#[export] Instance checks_ret {A} (a : A) : Checks (mret a) (λ _ a', a' = a).
Proof. by intros w. Qed.

#[export] Instance checks_error {A} code context message :
  code = 400 ∨ code = 404 ∨ code = 500 → Checks (A:=A) (httpError code context message) (λ _ _, False).
Proof. by intros ? w. Qed.

#[export] Instance checks_bind {A B} (m : H C A) (k : A → H C B) Q Q' :
  Checks m Q → (∀ a, Checks (k a) (Q' a)) → Checks (m ≫= k) (λ T b, ∃ a, Q T a ∧ Q' a T b).
Proof.
  intros Hm Hk w. rewrite H_bind_eq. pose proof (Hm w) as [Hs Hq]. destruct (m w) as [[a|e] w1]; simpl in *; [|done].
  pose proof (Hk a w1) as [Hs' Hq']. split; [by rewrite Hs|].
  destruct (k a w1) as [[b|e] w2]; simpl in *; [|done]. exists a. split; [done|]. by rewrite (tables_proper _ _ Hs).
Qed.

Lemma checks_weaken {A} (m : H C A) Q Q' : Checks m Q → (∀ T a, Q T a → Q' T a) → Checks m Q'.
Proof. intros Hm HQ w. pose proof (Hm w) as [Hs Hq]. split; [done|]. destruct (m w).1; eauto. Qed.

#[export] Instance checks_orElse {A} (m : M C A) f (handle : error → H C A) :
  Reads m f → (∀ e, Checks (handle e) (λ _ _, False)) → Checks (orElse m handle) (λ T a, f T = Ok a).
Proof.
  intros Hm Hh w. unfold orElse. pose proof (reads_same (m:=m) w) as Hs.
  destruct (m w) as [[a|e] w1] eqn:Hw; simpl in *.
  - split; [done|]. eapply reads_Ok; eassumption.
  - pose proof (Hh e w1) as [Hs' Hq]. split; [by rewrite Hs|]. by destruct (handle e w1).1.
Qed.

Lemma stops_bind {A B} (m : H C A) (k : A → H C B) w : stops m w → stops (m ≫= k) w.
Proof.
  intros [Hs [a [He Ha]]]. unfold stops. rewrite H_bind_eq. destruct (m w) as [r w1]; simpl in *. subst. eauto.
Qed.

Lemma stops_after {A B} (m : H C A) (k : A → H C B) Q w :
  Checks m Q → (∀ a w', same_data w w' → Q (tables w) a → stops (k a) w') → stops (m ≫= k) w.
Proof.
  intros Hm Hk. pose proof (Hm w) as [Hs Hq]. unfold stops. rewrite H_bind_eq.
  destruct (m w) as [[a|e] w1]; simpl in *; [|by eauto].
  destruct (Hk a w1 Hs Hq) as [Hs' He]. split; [by rewrite Hs|done].
Qed.

Lemma stops_run (m : H C unit) w : stops m w → same_data w (run m w).2 ∧ refusal (run m w).1.
Proof. intros [Hs (a & He & Ha)]. unfold run. destruct (m w) as [[]]; simpl in *; simplify_eq; done. Qed.
End checks.

(** ** Lookups *)
Section lookups.
Context {UL : UUIDLib} {RI : RowIds} {C : Type}.

Definition projectOf (T : Tables) (projectId : string) : option (uuid * Database.Project) :=
  firstByKey p_Deleted (parsedOrNil projectId) (projects T).

Definition found {A} (row : option A) : result error A :=
  match row with Some row => Ok row | None => Err (ErrRecordNotFound : error) end.

#[export] Instance FindByEId_reads eid : Reads (C:=C) (FindByEId eid) (λ T, found (productByEId T eid)).
Proof. unfold FindByEId. eapply reads_ext; [apply _|]. intros T. unfold found. by destruct (productByEId T eid). Qed.

#[export] Instance FindProjectById_reads id : Reads (C:=C) (FindProjectById id) (λ T, found (projectOf T id)).
Proof.
  unfold FindProjectById. eapply reads_ext; [apply _|]. intros T. unfold found, projectOf. by destruct (firstByKey _ _ _).
Qed.

#[export] Instance FindOrganizationById_reads id :
  Reads (C:=C) (FindOrganizationById id)
    (λ T, found (firstByKey o_Deleted (parsedOrNil id) (organizations T))).
Proof.
  unfold FindOrganizationById. eapply reads_ext; [apply _|]. intros T. unfold found. by destruct (firstByKey _ _ _).
Qed.

(** What an attempt to read gives. *)
Lemma attempt_reads {A} (m : M C A) f `{!Reads m f} w :
  ∃ w', same_data w w' ∧ (attempt m w = (Ok (f (tables w)), w') ∨ attempt m w = (Ok (Err (ErrDatabase : error)), w')).
Proof.
  unfold attempt. pose proof (reads_same (m:=m) w) as Hs. pose proof (reads_value (m:=m) w) as Hv.
  destruct (m w) as [res w']; simpl in *. exists w'. split; [done|]. destruct Hv as [-> | ->]; auto.
Qed.
End lookups.

(** ** The kit *)
Section kit.
Context {UL : UUIDLib} {RI : RowIds} {UR : URLLib} {JL : JSONLib} {CL : CaseLib} {QL : QuantityLib} {BL : BodyLib}.
Context {C : Type} {RC : RequestContext C} {HC : HTTPClient C} {CH : ControllerHTTP C}.
Context (SpxPrefix : string) (AZs : gmap string AZConfig).
Implicit Types (r : Request) (T : Tables) (w : World C).

#[export] Instance CheckListPathParams_checks r :
  Checks (C:=C) (CheckListPathParams r) (λ T res, projectOf T (rq_projectId r) = Some res.2 ∧ p_OrgaId res.2.2 = res.1).
Proof.
  unfold CheckListPathParams. eapply checks_weaken.
  - apply checks_bind; [apply checks_orElse; [apply _|]; intros; apply checks_error; auto|]. intros orga.
    apply checks_bind; [apply checks_orElse; [apply _|]; intros; apply checks_error; auto|]. intros project.
    instantiate (1 := λ project T res, res = (orga.1, project) ∧ p_OrgaId project.2 = orga.1).
    case_decide as Ho.
    + eapply checks_weaken; [apply checks_error; auto|]. done.
    + eapply checks_weaken; [apply checks_ret|]. by intros ? ? ->.
  - intros T [o pr] (orga & Ho & project & Hp & [= -> ->] & He). unfold found in Hp. case_match; by simplify_eq/=.
Qed.

#[export] Instance CheckPathParams_checks r :
  Checks (C:=C) (CheckPathParams AZs r) (λ T res,
    let '(az, orga, projectId) := res in
    GetByCode AZs (rq_az r) orga = Ok az ∧
    ∃ p, projectOf T (rq_projectId r) = Some (projectId, p) ∧ p_OrgaId p = orga).
Proof.
  unfold CheckPathParams. eapply checks_weaken.
  - apply checks_bind; [apply _|]. intros [orga project].
    instantiate (1 := λ op T res, GetByCode AZs (rq_az r) op.1 = Ok res.1.1 ∧ res.1.2 = op.1 ∧ res.2 = op.2.1).
    simpl. destruct (GetByCode AZs (rq_az r) orga) eqn:Hg.
    + eapply checks_weaken; [apply checks_ret|]. by intros ? ? ->.
    + eapply checks_weaken; [apply checks_error; auto|]. done.
  - intros T [[az orga] pid] ([o [pid' p]] & [Hp Ho] & Hg & He & He'). simpl in *. subst. eauto.
Qed.

#[export] Instance CheckProductBelongsToProject_checks r projectId :
  Checks (C:=C) (CheckProductBelongsToProject r projectId)
    (λ T _, ∀ row, productByEId T (rq_effectiveId r) = Some row → pr_ProjectId row.2 = projectId).
Proof.
  intros w. unfold CheckProductBelongsToProject, orElse. rewrite H_bind_eq, bind_eq.
  destruct (attempt_reads (FindByEId (rq_effectiveId r)) (λ T, found (productByEId T (rq_effectiveId r))) w)
    as (w' & Hs & [Ha | Ha]); rewrite Ha; [|split; [done|unfold refusal; simpl; auto]].
  destruct (productByEId (tables w) (rq_effectiveId r)) as [row|] eqn:Hp; simpl.
  - case_decide as Hd; simpl; (split; [done|]).
    + unfold refusal. simpl. auto.
    + by intros ? [= <-].
  - split; [done|]. by intros ?.
Qed.

(** The product that a request names is that of another project. *)
Definition foreignProduct T r : Prop :=
  ∃ p row, projectOf T (rq_projectId r) = Some p ∧ productByEId T (rq_effectiveId r) = Some row ∧
    pr_ProjectId row.2 ≠ p.1.

Lemma foreignProduct_same (w w' : World C) r : same_data w w' → foreignProduct (tables w) r → foreignProduct (tables w') r.
Proof. by intros (<- & _ & _). Qed.

(** The beginning of a handler of a product. *)
Lemma guarded_stops {B} (k : AZConfig * uuid * uuid → H C B) r w :
  foreignProduct (tables w) r →
  (∀ az orga projectId p w', same_data w w' → GetByCode AZs (rq_az r) orga = Ok az →
    projectOf (tables w) (rq_projectId r) = Some (projectId, p) → stops (k (az, orga, projectId)) w') →
  stops (CheckPathParams AZs r ≫= k) w.
Proof.
  intros _ Hk. eapply stops_after; [apply _|]. intros [[az orga] pid] w' Hs (Hg & p & Hp & _). eauto.
Qed.

Lemma belongs_stops {B} (k : unit → H C B) r projectId w p :
  foreignProduct (tables w) r → projectOf (tables w) (rq_projectId r) = Some (projectId, p) →
  stops (CheckProductBelongsToProject r projectId ≫= k) w.
Proof.
  intros (p' & row & Hp' & Hr & Hf) Hp. eapply stops_after; [apply _|]. intros [] w' _ Hb.
  simplify_eq. simpl in *. by destruct (Hf (Hb row Hr)).
Qed.

Lemma FindForUpdate_foreign r name azCode projectId w p :
  foreignProduct (tables w) r → projectOf (tables w) (rq_projectId r) = Some (projectId, p) →
  ∃ e w', FindForUpdate (rq_effectiveId r) name azCode projectId w = (Err e, w') ∧ same_data w w'.
Proof.
  intros (p' & row & Hp' & Hr & Hf) Hp. simplify_eq. unfold FindForUpdate. rewrite bind_eq.
  destruct (attempt_reads (FindByEId (rq_effectiveId r)) (λ T, found (productByEId T (rq_effectiveId r))) w)
    as (w' & Hs & [Ha | Ha]); rewrite Ha; [|by eexists _, _].
  rewrite Hr. simpl. rewrite decide_True by auto. by eexists _, _.
Qed.

Lemma updateRow_foreign r (productName name : string) (azDb : AZConfig) projectId w p :
  foreignProduct (tables w) r → projectOf (tables w) (rq_projectId r) = Some (projectId, p) →
  stops (updateRow productName name azDb projectId r) w.
Proof.
  intros Hf Hp. destruct (FindForUpdate_foreign r name (Code azDb) projectId w p Hf Hp) as (e & w' & He & Hs).
  unfold stops, updateRow, orElse, UpdateIntoDb. rewrite !bind_eq, !He.
  destruct (errors_Is e ErrRecordNotFound); simpl; split; try done; eexists; split; unfold refusal; simpl; auto.
Qed.
End kit.

(** * Who may touch a product, and what its creation and its deletion leave

    The handlers that read, update, delete, restore or hand out credentials refuse the product of
    another project before anything is sent or written; a subnet is refused in the VPC of another
    project. A creation leaves a row when the controller accepts it, none when it refuses, and the
    row when it does not answer. *)

Section isolation.
Context {UL : UUIDLib} {RI : RowIds} {UR : URLLib} {JL : JSONLib} {CL : CaseLib} {QL : QuantityLib} {BL : BodyLib}.
Context {GT : GoText}.
Context {C : Type} {RC : RequestContext C} {HC : HTTPClient C} {CH : ControllerHTTP C}.
Context (SpxPrefix : string) (AZs : gmap string AZConfig) (cfg : ProductsConfig) (MinMemory MaxMemory : Quantity).
Implicit Types (r : Request) (w : World C).

(** The handlers of a product that check whose it is. *)
Definition guardedHandlers : list (Request → H C unit) :=
  [GetVPC AZs; GetSubnet AZs; GetEip AZs; GetLoadBalancer AZs; GetSecurityGroup AZs; GetDisk AZs; GetSnapshot AZs;
   GetVmSnapshot AZs; GetBucket AZs; GetSSH AZs; GetInstance AZs;
   DeleteVPC AZs; DeleteSubnet AZs; DeleteEip AZs; DeleteLoadBalancer AZs; DeleteSecurityGroup AZs; DeleteDisk AZs;
   DeleteSnapshot AZs; DeleteVmSnapshot AZs; DeleteBucket AZs; DeleteSSH AZs; DeleteInstance AZs;
   RestoreVmSnapshot AZs; GetBucketCredentials AZs].

Lemma guarded_handler_stops {B} (k : AZConfig → uuid → uuid → unit → H C B) r w :
  foreignProduct (tables w) r →
  stops (CheckPathParams AZs r ≫= λ '(az, orga, projectId),
    CheckProductBelongsToProject r projectId ≫= k az orga projectId) w.
Proof.
  intros Hf. apply guarded_stops; [done|]. intros az orga projectId p w' Hs _ Hp.
  eapply belongs_stops; [by eapply foreignProduct_same|]. by rewrite <- (tables_proper _ _ Hs).
Qed.

(** The handlers that update a product, for bodies that decode. *)
Definition updateHandlers (b : bool) (vpc : UpdateVPCBody) (subnet : UpdateSubnetBody) (eip : UpdateEipBody)
    (lb : LoadBalancerBody) (sg : SecurityGroupBody) (disk : UpdateDiskBody) (snapshot : UpdateSnapshotBody)
    (bucket : UpdateBucketBody) (instance : UpdateInstanceBody) : 
    list (Request → H C unit) :=
  [UpdateVPC AZs b (Ok vpc); UpdateSubnet AZs cfg (Ok subnet); UpdateEip AZs (Ok eip); UpdateLoadBalancer AZs (Ok lb);
   UpdateSecurityGroup AZs (Ok sg); UpdateDisk AZs (Ok disk); UpdateSnapshot AZs cfg (Ok snapshot);
   UpdateBucket AZs cfg (Ok bucket); UpdateInstance SpxPrefix AZs MinMemory MaxMemory (Ok instance)].

#[export] Instance orBadRequest_checks {A} (checked : result error A) :
  Checks (C:=C) (orBadRequest checked) (λ _ a, checked = Ok a).
Proof. intros w. split; [by destruct checked|]. destruct checked; simpl; [done|by left]. Qed.

(** A handler that renames the row. *)
Lemma update_handler_stops {B} (productName productType : string) (k : AZConfig → uuid → uuid → DBProduct → H C B) r w :
  foreignProduct (tables w) r →
  stops (CheckPathParams AZs r ≫= λ '(az, orga, projectId),
    updateRow productName productType az projectId r ≫= k az orga projectId) w.
Proof.
  intros Hf. apply guarded_stops; [done|]. intros az orga projectId p w' Hs _ Hp. apply stops_bind.
  eapply updateRow_foreign; [by eapply foreignProduct_same|]. by rewrite <- (tables_proper _ _ Hs).
Qed.

(** A handler that renames the row after a check. *)
Lemma checked_update_stops {A B} (check : H C A) Q (productName productType : A → string)
    (k : AZConfig → uuid → uuid → A → DBProduct → H C B) r w :
  Checks check Q → foreignProduct (tables w) r →
  stops (CheckPathParams AZs r ≫= λ '(az, orga, projectId),
    check ≫= λ a, updateRow (productName a) (productType a) az projectId r ≫= k az orga projectId a) w.
Proof.
  intros Hc Hf. apply guarded_stops; [done|]. intros az orga projectId p w' Hs _ Hp.
  eapply stops_after; [exact Hc|]. intros a w2 Hs2 _. apply stops_bind.
  assert (same_data w w2) as Hw2 by by rewrite Hs.
  eapply updateRow_foreign; [by eapply foreignProduct_same|]. by rewrite <- (tables_proper _ _ Hw2).
Qed.

Lemma UpdateInstance_stops instance r w :
  foreignProduct (tables w) r → stops (UpdateInstance SpxPrefix AZs MinMemory MaxMemory (Ok instance) r) w.
Proof.
  intros Hf. apply guarded_stops; [done|]. intros az orga projectId p w' Hs _ Hp. unfold decoded.
  change (stops (if decide (ib_Network instance = []) then httpError 400 [] "Network is required" else
    checkCompute MinMemory MaxMemory (ib_Compute instance) ≫= λ compute,
    updateRow (ib_ProductName instance) ProductTypeInstance az projectId r ≫= λ _,
    initializeNewDisks SpxPrefix orga projectId (Code az) (ib_Disks instance) noDisks ≫= λ disks,
    (if failed disks then deleteRows (disksCreated disks) else mret tt) ≫= λ _,
    proxied r az (Some (body_Marshal (toUpdateAzControllerBody instance compute (disksForCtrl disks)))) ≫= λ resp,
    if decide (StatusCode resp = 200) then mret tt else
    deleteRows (disksCreated disks) ≫= λ _,
    if decide (StatusCode resp = 404) then httpError 404 [("eid", rq_effectiveId r)] SpxResourceNotFound
    else HandleControllerError resp 500 SpxResourceUpdateFailure) w').
  case_decide; [split; [done|]; eexists; split; [done|]; by left|].
  eapply stops_after; [unfold checkCompute; apply _|]. intros compute w2 Hs2 _. apply stops_bind.
  assert (same_data w w2) as Hw2 by by rewrite Hs.
  eapply updateRow_foreign; [by eapply foreignProduct_same|]. by rewrite <- (tables_proper _ _ Hw2).
Qed.

(** C11: a request to read or delete a VPC, subnet, public address, load balancer, security group, disk,
    snapshot, snapshot of an instance, bucket, SSH key or instance, to update one of these that the API
    updates, to restore a snapshot of an instance, or for the credentials of a bucket, that names a product
    of another project is refused: nothing is written, nothing is sent to a controller, and the answer is an
    error. The managed clusters and the backups are not among these kinds, and neither the kubeconfig of a
    cluster nor the clone of a snapshot of an instance looks for the project of the product. *)
Theorem foreign_product_untouched b vpc subnet eip lb sg disk snapshot bucket instance h r w :
  h ∈ guardedHandlers ++ updateHandlers b vpc subnet eip lb sg disk snapshot bucket instance →
  foreignProduct (tables w) r →
  let '(a, w') := run (h r) w in same_data w w' ∧ refusal a.
Proof.
  intros Hh Hf. assert (stops (h r) w) as Hs; [|pose proof (stops_run _ _ Hs); by destruct (run (h r) w)].
  revert h Hh. apply Forall_forall, Forall_app. unfold guardedHandlers, updateHandlers. split.
  - repeat (constructor; [exact (guarded_handler_stops _ r w Hf)|]). constructor.
  - repeat (constructor; [first [exact (update_handler_stops _ _ _ r w Hf) |
      exact (checked_update_stops (orBadRequest (ValidateBucketConfig cfg (ub_Config bucket))) _
        (λ _, ub_ProductName bucket) (λ _, ProductTypeBucket) _ r w _ Hf) | by apply UpdateInstance_stops]|]).
    constructor.
Qed.

(** The VPC of a subnet is the product of another project. *)
Definition foreignVPC (T : Tables) (vpcEId : string) r : Prop :=
  ∃ p row, projectOf T (rq_projectId r) = Some p ∧ productByEId T vpcEId = Some row ∧ pr_ProjectId row.2 ≠ p.1.

(** A subnet is not created in a VPC that is the product of another project: no row is made,
    nothing is sent, and the answer is an error. *)
Theorem subnet_foreign_vpc body r w :
  foreignVPC (tables w) (csn_VpcEId body) r →
  let '(a, w') := run (CreateSubnet SpxPrefix AZs cfg (Ok body) r) w in same_data w w' ∧ refusal a.
Proof.
  intros (p & row & Hp & Hr & Hf).
  assert (stops (CreateSubnet SpxPrefix AZs cfg (Ok body) r) w) as Hs;
    [|pose proof (stops_run _ _ Hs); by destruct (run _ w)].
  eapply stops_after; [apply _|]. intros [[az orga] projectId] w' Hs (_ & p' & Hp' & _). simplify_eq/=.
  unfold stops. rewrite !H_bind_eq. unfold decoded. rewrite !H_bind_eq. unfold lookupVpc, checkVpcReference.
  case_decide as He; simpl; [split; [done|]; eexists; unfold refusal; simpl; auto|].
  unfold tried. pose proof (attempt_reads (FindByEId (csn_VpcEId body))
    (λ T, found (productByEId T (csn_VpcEId body))) w') as (w2 & Hs2 & Ha).
  unfold attempt in Ha. destruct (FindByEId _ w') as [res w3]. rewrite <- (tables_proper _ _ Hs), Hr in Ha.
  destruct Ha as [[= -> ->] | [= -> ->]]; simpl.
  - rewrite decide_True by auto. simpl. split; [done|]. eexists; unfold refusal; simpl; auto.
  - split; [done|]. eexists; unfold refusal; simpl; auto.
Qed.
End isolation.
