(* ===== verification/ProductCreation.v ===== *)
(** * The creation and the deletion of a product, statement by statement

    What the database and the controller hold after a creation or a deletion, for each answer of
    the controller, when no statement fails. *)

From S2P Require Import Prelude Strings Strconv Quantity Errors QuotaResources Database AZConfig.
From S2P Require Import Hierarchical QuotaSpec SpxId QuotaService Operator NetworkChecks Products Proxy.
From S2P Require Import ProductHandlers ProductKinds Instances ProductTheorems.

(** The products that are not deleted. *)
Definition liveProducts (T : Tables) : gmap uuid Product := filter (λ kv, pr_Deleted kv.2 = false) (products T).

Section creation.
Context {UL : UUIDLib} {RI : RowIds} {UR : URLLib} {JL : JSONLib} {CL : CaseLib}.
Context {C : Type} {RC : RequestContext C} {HC : HTTPClient C}.
Context (SpxPrefix : string) (AZs : gmap string AZConfig).
Implicit Types (r : Request) (T : Tables) (c : C).

Lemma Save_runs T s c id row :
  id ≠ uuid_Nil →
  Save (id, row) (mkWorld T s [] c) = (Ok (id, row), mkWorld (set_products <[id := row]> T) s [] c).
Proof. intros Hid. unfold Save. erewrite exec_no_faults by (simpl; rewrite ?decide_False by done; done). done. Qed.

Lemma Save_new T s c row :
  Save (uuid_Nil, row) (mkWorld T s [] c) =
  (Ok (gen_random_uuid T s, row), mkWorld (set_products <[gen_random_uuid T s := row]> T) s [] c).
Proof. unfold Save. erewrite exec_no_faults by (simpl; rewrite ?decide_True by done; done). done. Qed.

Lemma set_products_replace T id row row' :
  set_products <[id := row]> (set_products <[id := row']> T) = set_products <[id := row]> T.
Proof. unfold set_products. simpl. f_equal. apply insert_insert_eq. Qed.

Lemma set_products_delete T id row :
  set_products (alter soft_delete_product id) (set_products <[id := row]> T) =
  set_products <[id := soft_delete_product row]> T.
Proof. unfold set_products. simpl. f_equal. by rewrite alter_insert_eq. Qed.

(** The name of a new product and what drawing it leaves. *)
Definition drawnName (productName : string) c : string * C :=
  if decide (productName = EmptyString) then GenerateName c else (productName, c).

Lemma drawnName_runs productName T s c :
  (if decide (productName = EmptyString) then outsideCall GenerateName else mret productName : M C string)
    (mkWorld T s [] c) = (Ok (drawnName productName c).1, mkWorld T s [] (drawnName productName c).2).
Proof. unfold drawnName, outsideCall. case_decide; [|done]. simpl. by destruct (GenerateName c). Qed.

Definition newRow (productName productType azCode : string) (projectId : uuid) (eid : string) : Product :=
  mkProduct productName eid azCode projectId productType false.

(** A creation that can be identified. *)
Definition identified T s (org projectId : uuid) (m : Metadata) : Prop :=
  gen_random_uuid T s ≠ uuid_Nil ∧ GenerateMetadata noMetadata projectId org (gen_random_uuid T s) = (m, None).

Lemma CreateIntoDb_runs productName productType azCode org projectId T s c m :
  identified T s org projectId m →
  let id := gen_random_uuid T s in
  let eid := effectiveID SpxPrefix m in
  let row := newRow (drawnName productName c).1 productType azCode projectId eid in
  CreateIntoDb SpxPrefix productName productType azCode org projectId (mkWorld T s [] c) =
    (Ok (id, row, m), mkWorld (set_products <[id := row]> T) s [] (SetResource eid (drawnName productName c).2)).
Proof.
  intros [Hid Hm]. cbv zeta. unfold CreateIntoDb.
  rewrite bind_eq, drawnName_runs, bind_eq, Save_new. cbn [fst snd]. rewrite Hm. cbn [fst snd].
  rewrite bind_eq. unfold attempt. rewrite Save_runs by done. cbn [fst snd].
  rewrite set_products_replace. rewrite bind_eq. unfold outsideCall. simpl. done.
Qed.

(** C17: what a creation leaves, whatever the kind of the product: when the controller accepts it,
    a new row with the name, the zone, the project and the effective identifier that the metadata
    sent to the controller give it, and the answer is that identifier; when it refuses, a deleted
    row, so that the products are as before; and when it does not answer, the row. *)
Theorem createProduct_decides productName productType azDb org projectId newBody onError r T s c m :
  identified T s org projectId m →
  let id := gen_random_uuid T s in
  let eid := effectiveID SpxPrefix m in
  let row := newRow (drawnName productName c).1 productType (Code azDb) projectId eid in
  let created := set_products <[id := row]> T in
  run (createProduct SpxPrefix productName productType azDb org projectId newBody onError r) (mkWorld T s [] c) =
  match SendProxy r azDb ApiPrefix (Some (newBody m)) (SetResource eid (drawnName productName c).2) with
  | (Ok resp, c2) =>
    if decide (StatusCode resp = 200) then (mkAnswer 200 (Created eid), mkWorld created s [] c2)
    else run (onError resp 500 SpxResourceCreationFailure)
           (mkWorld (set_products <[id := soft_delete_product row]> T) s [] (ClearResource c2))
  | (Err _, c2) => (mkAnswer 500 (Failure SpxProxyToAZFailure [("az", Code azDb)]), mkWorld created s [] c2)
  end.
Proof.
  intros Hm. cbv zeta. unfold run, createProduct. rewrite H_bind_eq. unfold orElse at 1.
  rewrite (CreateIntoDb_runs _ _ _ _ _ _ _ _ _ Hm). cbn [fst snd].
  rewrite H_bind_eq. unfold proxied. rewrite H_bind_eq. unfold sendProxy, outsideH at 1. cbn [outside].
  destruct (SendProxy _ _ _ _ _) as [[resp|e] c2]; [|done]. simpl. case_decide; [done|].
  rewrite H_bind_eq. unfold CleanDb. rewrite H_bind_eq. unfold logged, DeleteById.
  erewrite exec_no_faults by done. cbn -[set_products]. by rewrite set_products_delete.
Qed.

(** The products after a creation that is refused: those of before. *)
Lemma liveProducts_cleaned T id row :
  products T !! id = None → liveProducts (set_products <[id := soft_delete_product row]> T) = liveProducts T.
Proof.
  intros Hid. unfold liveProducts. simpl. apply map_filter_insert_not'; [done|]. intros y Hy. congruence.
Qed.

(** The rows that are not deleted after a deletion. *)
Lemma liveProducts_deleted T productEId azCode projectId :
  liveProducts (set_products (fmap (λ p,
    if deletes productEId azCode projectId p then soft_delete_product p else p)) T) =
  filter (λ kv, deletes productEId azCode projectId kv.2 = false) (liveProducts T).
Proof.
  apply map_eq. intros id. unfold liveProducts. simpl. apply option_eq. intros p.
  rewrite !map_lookup_filter_Some, lookup_fmap, fmap_Some. simpl. split.
  - intros [(p' & Hp' & ->) Hd]. destruct (deletes productEId azCode projectId p') eqn:He; [done|]. by rewrite He.
  - intros [[Hp Hd] He]. split; [|done]. exists p. by rewrite He.
Qed.

(** What a deletion leaves, whatever the kind of the product, once its checks have passed:
    when the controller has deleted the resource, or does not know it, the rows of that resource in
    the project and the zone are deleted and no other, and the answer is 404 only for a resource
    that neither knew; otherwise the database is as before. *)
Theorem DeleteProduct_decides r T s c azDb org projectId :
  let w := mkWorld T s [] c in
  let gone := size (filter (λ kv, deletes (rq_effectiveId r) (Code azDb) projectId kv.2 = true) (products T)) in
  CheckPathParams AZs r w = (Ok (azDb, org, projectId), w) →
  CheckProductBelongsToProject r projectId w = (Ok tt, w) →
  let '(a, w') := run (DeleteProduct AZs r) w in
  match SendProxy r azDb ApiPrefix None c with
  | (Ok resp, c2) =>
    outside w' = c2 ∧
    if decide (StatusCode resp = 200 ∨ StatusCode resp = 404) then
      liveProducts (tables w') =
        filter (λ kv, deletes (rq_effectiveId r) (Code azDb) projectId kv.2 = false) (liveProducts T) ∧
      status a = (if decide (StatusCode resp = 404 ∧ gone = 0%nat) then 404 else 200)
    else tables w' = T ∧ status a = 500
  | (Err _, c2) => tables w' = T ∧ outside w' = c2 ∧ status a = 500
  end.
Proof.
  intros w gone Hp Hb. unfold run, DeleteProduct. rewrite H_bind_eq, Hp, H_bind_eq, Hb, H_bind_eq.
  unfold proxied. rewrite H_bind_eq. unfold sendProxy, outsideH. cbn [outside].
  destruct (SendProxy _ _ _ _ _) as [[resp|e] c2]; [|done]. simpl. case_decide as Hc; [|done].
  rewrite H_bind_eq. unfold orElse, DeleteByEIdAndAZCodeAndProject. erewrite exec_no_faults by done.
  cbn -[set_products]. fold gone.
  destruct (decide (StatusCode resp = 404 ∧ gone = 0%nat)) as [[He Hg]|Hn].
  - rewrite decide_True by (split; [done|lia]). simpl. by rewrite liveProducts_deleted.
  - rewrite decide_False by (intros [??]; apply Hn; split; [done|lia]). simpl. by rewrite liveProducts_deleted.
Qed.
End creation.

(** * The rows that a creation makes

    Runs in which no statement fails: what the creations of products do to the rows, and how many
    rows a project has then. *)

(** ** Runs without failures *)
Section runs.
Context {C : Type}.

(** The run of [m] ends in a result and a world that satisfy [Q]. *)
Definition runs {A} (m : H C A) (T : Tables) (s : Z) (c : C) (Q : result answer A → Tables → C → Prop) : Prop :=
  ∃ res T' c', m (mkWorld T s [] c) = (res, mkWorld T' s [] c') ∧ Q res T' c'.

Lemma runs_weaken {A} (m : H C A) T s c (Q Q' : result answer A → Tables → C → Prop) :
  runs m T s c Q → (∀ res T' c', Q res T' c' → Q' res T' c') → runs m T s c Q'.
Proof. intros (res & T' & c' & Hm & Hq) HQ. exists res, T', c'. eauto. Qed.

Lemma runs_bind {A B} (m : H C A) (k : A → H C B) T s c Q :
  runs m T s c (λ res T' c', match res with Ok a => runs (k a) T' s c' Q | Err e => Q (Err e) T' c' end) →
  runs (m ≫= k) T s c Q.
Proof.
  intros (res & T' & c' & Hm & Hq). unfold runs. rewrite H_bind_eq, Hm. destruct res as [a|e]; [done|].
  by exists (Err e), T', c'.
Qed.

Lemma runs_ret {A} (a : A) T s c (Q : result answer A → Tables → C → Prop) : Q (Ok a) T c → runs (mret a) T s c Q.
Proof. intros. by exists (Ok a), T, c. Qed.

Lemma runs_respond {A} a T s c (Q : result answer A → Tables → C → Prop) : Q (Err a) T c → runs (respond a) T s c Q.
Proof. intros. by exists (Err a), T, c. Qed.

Lemma runs_error {A} code context message T s c (Q : result answer A → Tables → C → Prop) :
  Q (Err (mkAnswer code (Failure message context))) T c → runs (httpError code context message) T s c Q.
Proof. apply runs_respond. Qed.

(** An operation that only reads. *)
Class Steady {A} (m : H C A) : Prop := steady T s c : (m (mkWorld T s [] c)).2 = mkWorld T s [] c.

Lemma runs_steady {A} (m : H C A) `{!Steady m} T s c (Q : result answer A → Tables → C → Prop) :
  (∀ res, (m (mkWorld T s [] c)).1 = res → Q res T c) → runs m T s c Q.
Proof.
  intros HQ. pose proof (steady (m:=m) T s c) as Hs. destruct (m (mkWorld T s [] c)) as [res w] eqn:Hm.
  simpl in *. subst. exists res, T, c. eauto.
Qed.

#[export] Instance steady_ret {A} (a : A) : Steady (mret a).
Proof. by intros ???. Qed.
#[export] Instance steady_respond {A} a : Steady (A:=A) (respond a).
Proof. by intros ???. Qed.
#[export] Instance steady_error {A} code context message : Steady (A:=A) (httpError code context message).
Proof. by intros ???. Qed.
#[export] Instance steady_decoded {B} (b : result answer B) : Steady (decoded b).
Proof. by intros ???. Qed.
#[export] Instance steady_bad {A} (b : result error A) : Steady (orBadRequest b).
Proof. by destruct b; intros ???. Qed.
#[export] Instance steady_bind {A B} (m : H C A) (k : A → H C B) : Steady m → (∀ a, Steady (k a)) → Steady (m ≫= k).
Proof.
  intros Hm Hk T s c. rewrite H_bind_eq. pose proof (Hm T s c) as Hs. destruct (m _) as [[a|e] w]; simpl in *; subst; [|done].
  apply Hk.
Qed.
#[export] Instance steady_orElse {A} (m : M C A) f h : Reads m f → (∀ e, Steady (h e)) → Steady (orElse m h).
Proof.
  intros Hm Hh T s c. unfold orElse. rewrite (reads_exact (m:=m)) by done. simpl. destruct (f T); [done|]. apply Hh.
Qed.
#[export] Instance steady_decide {A} (P : Prop) `{!Decision P} (m1 m2 : H C A) :
  Steady m1 → Steady m2 → Steady (if decide P then m1 else m2).
Proof. by case_decide. Qed.
#[export] Instance steady_option {A B} (o : option A) (m1 : A → H C B) (m2 : H C B) :
  (∀ a, Steady (m1 a)) → Steady m2 → Steady (match o with Some a => m1 a | None => m2 end).
Proof. by destruct o. Qed.
#[export] Instance steady_result {A B E} (o : result E A) (m1 : A → H C B) (m2 : E → H C B) :
  (∀ a, Steady (m1 a)) → (∀ e, Steady (m2 e)) → Steady (match o with Ok a => m1 a | Err e => m2 e end).
Proof. by destruct o. Qed.
#[export] Instance steady_pair {A B D} (p : A * B) (m : A → B → H C D) :
  (∀ a b, Steady (m a b)) → Steady (let '(a, b) := p in m a b).
Proof. by destruct p. Qed.
#[export] Instance steady_tried {A} (m : M C A) f : Reads m f → Steady (tried m).
Proof. intros Hm T s c. unfold tried. by rewrite (reads_exact (m:=m)) by done. Qed.

Lemma runs_tried_reads {A} (m : M C A) f `{!Reads m f} T s c (Q : result answer _ → Tables → C → Prop) :
  Q (Ok (f T)) T c → runs (tried m) T s c Q.
Proof. intros HQ. exists (Ok (f T)), T, c. unfold tried. by rewrite (reads_exact (m:=m)) by done. Qed.

Lemma runs_outside {A} (f : C → A * C) T s c (Q : result answer A → Tables → C → Prop) :
  (∀ a c', f c = (a, c') → Q (Ok a) T c') → runs (outsideH f) T s c Q.
Proof. intros HQ. destruct (f c) as [a c'] eqn:Hf. exists (Ok a), T, c'. unfold outsideH. simpl. rewrite Hf. eauto. Qed.
End runs.

(** ** The rows of a project *)

(** Keys are drawn fresh ([gen_random_uuid]). *)
Class FreshIds `{RowIds} : Prop := {
  fresh_id T s : products T !! gen_random_uuid T s = None;
  fresh_not_Nil T s : gen_random_uuid T s ≠ uuid_Nil }.

Section count.
Implicit Types (T : Tables) (id : uuid) (row : Product) (p : uuid).

Definition counts (p : uuid) (row : Product) : Prop := pr_Deleted row = false ∧ pr_ProjectId row = p.

Definition countOf T (p : uuid) : nat := size (filter (λ kv, counts p kv.2) (products T)).

(** What the row of a key adds to the count. *)
Definition share (p : uuid) (row : option Product) : nat :=
  match row with Some row => if decide (counts p row) then 1%nat else 0%nat | None => 0%nat end.

Lemma countOf_insert T p id row :
  countOf (set_products <[id := row]> T) p = (share p (Some row) + countOf (set_products (delete id) T) p)%nat.
Proof.
  unfold countOf, share. simpl. case_decide as Hc.
  - rewrite map_filter_insert_True by done. rewrite <- (insert_delete_eq (filter _ _)), map_filter_delete.
    rewrite map_size_insert_None; [done|]. by rewrite lookup_delete_eq.
  - rewrite map_filter_insert_False; done.
Qed.

Lemma countOf_split T p id : countOf T p = (share p (products T !! id) + countOf (set_products (delete id) T) p)%nat.
Proof.
  destruct (products T !! id) as [row|] eqn:Hid.
  - rewrite <- countOf_insert. unfold countOf. simpl. by rewrite insert_id.
  - unfold countOf. simpl. by rewrite delete_id.
Qed.

Lemma countOf_added T p id row :
  products T !! id = None → (countOf (set_products <[id := row]> T) p ≤ countOf T p + 1)%nat.
Proof.
  intros Hid. rewrite countOf_insert, (countOf_split T p id), Hid. unfold share. case_decide; lia.
Qed.

Lemma countOf_deleted T p id : (countOf (set_products (alter soft_delete_product id) T) p ≤ countOf T p)%nat.
Proof.
  rewrite (countOf_split T p id). destruct (products T !! id) as [row|] eqn:Hid.
  - assert (set_products (alter soft_delete_product id) T = set_products <[id := soft_delete_product row]> T) as ->.
    { unfold set_products. f_equal. apply map_eq. intros i. destruct (decide (i = id)) as [->|Hn].
      - by rewrite lookup_alter_eq, lookup_insert_eq, Hid.
      - by rewrite lookup_alter_ne, lookup_insert_ne. }
    rewrite countOf_insert. unfold share at 1. rewrite decide_False by (by intros [? _]). lia.
  - assert (set_products (alter soft_delete_product id) T = set_products (delete id) T) as ->; [|simpl; lia].
    unfold set_products. f_equal. rewrite delete_id by done. apply map_eq. intros i.
    destruct (decide (i = id)) as [->|Hn]; [by rewrite lookup_alter_eq, Hid|by rewrite lookup_alter_ne].
Qed.

(** The number of products that the quota counts. *)
Lemma productsOf_count T p : p ≠ uuid_Nil → length (productsOf T p) = countOf T p.
Proof.
  intros Hp. unfold countOf. rewrite <- length_map_to_list. apply Permutation_length, NoDup_Permutation.
  - apply NoDup_filter. unfold live_products. rewrite order_by_Permutation. apply NoDup_map_to_list.
  - apply NoDup_map_to_list.
  - intros [id row]. unfold productsOf, productsWhere, live_products. rewrite list_elem_of_filter, order_by_Permutation.
    rewrite !elem_of_map_to_list, !map_lookup_filter_Some. unfold counts, column. simpl.
    rewrite !andb_true_iff, !bool_decide_eq_true. naive_solver.
Qed.
End count.

(** ** The creation quota *)
Section quota.
Context {UL : UUIDLib} {C : Type}.

Definition creationLimit (T : Tables) (p : uuid) : option Z :=
  match match quotaOverride T ProjectLimitProduct p EntityProject with
        | Some v => Some v | None => quotas T !! ProjectLimitProduct end with
  | Some v => ParseInt v
  | None => None
  end.

(** Whether the quota of a project is reached; [None] is an error. *)
Definition quotaReached (T : Tables) (p : uuid) : option bool :=
  limit ← creationLimit T p; Some (bool_decide (limit ≤ Z.of_nat (length (productsOf T p)))).

Lemma IsQuotaCreationReached_runs T s (c : C) p :
  match quotaReached T p with
  | Some b => IsQuotaCreationReached p (mkWorld T s [] c) = (Ok b, mkWorld T s [] c)
  | None => ∃ e, IsQuotaCreationReached p (mkWorld T s [] c) = (Err e, mkWorld T s [] c)
  end.
Proof.
  unfold quotaReached, creationLimit, IsQuotaCreationReached.
  assert (GetQuotaValue ProjectLimitProduct p EntityProject (mkWorld T s [] c) =
    (match match quotaOverride T ProjectLimitProduct p EntityProject with
           | Some v => Some v | None => quotas T !! ProjectLimitProduct end with
     | Some v => Ok v | None => Err (ErrRecordNotFound : error) end, mkWorld T s [] c)) as Hg.
  { unfold GetQuotaValue. pose proof (reads_on_error (C:=C) _ ErrRecordNotFound _ _ _ ltac:(done)
      (reads_take (λ T, quotaOverride T ProjectLimitProduct p EntityProject)) (reads_take (λ T, quotas T !! ProjectLimitProduct))) as Hr.
    rewrite (reads_exact (Reads:=Hr)) by done. cbn -[quotaOverride].
    destruct (quotaOverride _ _ _ _); [done|]. simpl. by destruct (quotas T !! _). }
  rewrite bind_eq, Hg. destruct (match quotaOverride _ _ _ _ with Some v => _ | None => _ end) as [v|]; simpl; [|eauto].
  unfold attempt, query, gets, statement. simpl. destruct (ParseInt v); simpl; eauto.
Qed.

Lemma quotaReached_open T p : p ≠ uuid_Nil → quotaReached T p = Some false →
  ∃ l, creationLimit T p = Some l ∧ Z.of_nat (countOf T p) < l.
Proof.
  intros Hp. unfold quotaReached. destruct (creationLimit T p) as [l|]; simpl; [|done]. intros [= Hb].
  apply bool_decide_eq_false in Hb. rewrite productsOf_count in Hb by done. exists l. split; [done|lia].
Qed.

Lemma creationLimit_set_products f T p : creationLimit (set_products f T) p = creationLimit T p.
Proof. done. Qed.
End quota.

(** ** What creations do to the rows *)
Section creations.
Context {UL : UUIDLib} `{RI : RowIds} `{!FreshIds} {UR : URLLib} {JL : JSONLib} {CL : CaseLib}.
Context {C : Type} {RC : RequestContext C} {HC : HTTPClient C}.
Context (SpxPrefix : string).
Implicit Types (r : Request) (T : Tables) (s : Z) (c : C).

(** One row more, of the project; it is deleted, or [kept]. *)
Definition made T (projectId : uuid) T' (kept : Prop) : Prop :=
  ∃ id row, products T !! id = None ∧ T' = set_products <[id := row]> T ∧ pr_ProjectId row = projectId ∧
    (pr_Deleted row = true ∨ kept).

(** A row without key: there is none. *)
Definition no_Nil T : Prop := products T !! uuid_Nil = None.

Lemma CreateIntoDb_made productName productType azCode org projectId T s c :
  ∃ product m T' c', CreateIntoDb SpxPrefix productName productType azCode org projectId (mkWorld T s [] c) =
    (Ok (product, m), mkWorld T' s [] c') ∧
  ∃ id row, products T !! id = None ∧ id ≠ uuid_Nil ∧ T' = set_products <[id := row]> T ∧ pr_ProjectId row = projectId ∧
    (product.1 = id ∨ product.1 = uuid_Nil ∧ pr_Deleted row = true).
Proof.
  destruct (GenerateMetadata noMetadata projectId org (gen_random_uuid T s)) as [m [err|]] eqn:Hm.
  - set (row := newRow (drawnName productName c).1 productType azCode projectId EmptyString).
    exists noProduct, noMetadata, (set_products <[gen_random_uuid T s := soft_delete_product row]> T), (drawnName productName c).2.
    split.
    + unfold CreateIntoDb. rewrite bind_eq, drawnName_runs, bind_eq, Save_new. cbn [fst snd]. rewrite Hm.
      unfold cleaned, DeleteById. rewrite bind_eq. erewrite exec_no_faults by done. cbn -[set_products].
      by rewrite set_products_delete.
    + exists (gen_random_uuid T s), (soft_delete_product row). pose proof (fresh_id T s). pose proof (fresh_not_Nil T s).
      repeat split; try done. by right.
  - assert (identified T s org projectId m) as Hi by (split; [apply fresh_not_Nil|done]).
    eexists _, _, _, _. split; [exact (CreateIntoDb_runs SpxPrefix productName productType azCode org projectId T s c m Hi)|].
    eexists (gen_random_uuid T s), _. split; [apply fresh_id|]. split; [apply fresh_not_Nil|]. repeat split. by left.
Qed.
Lemma made_clean T id row : products T !! id = None → no_Nil T → id ≠ uuid_Nil →
  no_Nil (set_products <[id := row]> T).
Proof. intros Hid Hn Hne. unfold no_Nil. simpl. by rewrite lookup_insert_ne. Qed.

Lemma set_products_delete_missing T id :
  products T !! id = None → set_products (alter soft_delete_product id) T = T.
Proof.
  intros Hid. destruct T. unfold set_products. simpl in *. f_equal. apply map_eq. intros i.
  destruct (decide (i = id)) as [->|Hn]; [by rewrite lookup_alter_eq, Hid|by rewrite lookup_alter_ne].
Qed.

(** The cleaning of a row by its key. *)
Lemma CleanDb_runs id T s c :
  CleanDb id (mkWorld T s [] c) = (Ok tt, mkWorld (set_products (alter soft_delete_product id) T) s [] (ClearResource c)).
Proof. unfold CleanDb. rewrite H_bind_eq. unfold logged, DeleteById. by erewrite exec_no_faults. Qed.

(** The answer when the controller cannot be reached. *)
Definition unreachable (a : answer) : Prop := ∃ context, answered a = Failure SpxProxyToAZFailure context.

(** A creation that succeeds, or that no controller has answered. *)
Definition keeps (res : result answer unit) : Prop :=
  match res with Ok _ => True | Err a => status a = 200 ∨ unreachable a end.

Lemma createProduct_made productName productType azDb org projectId newBody onError r T s c :
  (∀ resp, Steady (onError resp 500 SpxResourceCreationFailure)) → no_Nil T →
  runs (createProduct SpxPrefix productName productType azDb org projectId newBody onError r) T s c
    (λ res T' _, made T projectId T' (keeps res)).
Proof.
  intros He Hnil. unfold createProduct. apply runs_bind.
  destruct (CreateIntoDb_made productName productType (Code azDb) org projectId T s c)
    as (product & m & T' & c' & Hrun & id & row & Hid & Hne & -> & Hp & Hk).
  exists (Ok (product, m)), (set_products <[id := row]> T), c'. split; [unfold orElse; by rewrite Hrun|]. simpl.
  apply runs_bind. unfold proxied. apply runs_bind. unfold sendProxy. apply runs_outside. intros resp c2 _.
  destruct resp as [resp|e].
  - apply runs_ret. case_decide as Hs.
    + apply runs_respond. exists id, row. repeat split; try done. right. left. done.
    + apply runs_bind. eexists _, _, _. split; [apply CleanDb_runs|]. apply runs_steady; [apply He|]. intros res _.
      destruct Hk as [-> | [-> Hd]].
      * rewrite set_products_delete. exists id, (soft_delete_product row). repeat split; try done. by left.
      * rewrite set_products_delete_missing by (by apply made_clean). exists id, row. repeat split; try done. by left.
  - apply runs_error. exists id, row. repeat split; try done. right. right. by eexists.
Qed.
End creations.

(** The answers to an error of the controller do not touch the database. *)
#[export] Instance HandleControllerError_steady {JL : JSONLib} {C A} resp code message :
  Steady (C:=C) (HandleControllerError (A:=A) resp code message).
Proof. unfold HandleControllerError. apply _. Qed.

#[export] Instance handleControllerError_steady {JL : JSONLib} {C} resp code message :
  Steady (C:=C) (handleControllerError resp code message).
Proof. unfold handleControllerError. apply _. Qed.

#[export] Instance CheckListPathParams_steady {UL : UUIDLib} {C} r : Steady (C:=C) (CheckListPathParams r).
Proof. unfold CheckListPathParams. apply _. Qed.

#[export] Instance CheckPathParams_steady {UL : UUIDLib} {C} AZs r : Steady (C:=C) (CheckPathParams AZs r).
Proof. unfold CheckPathParams. apply _. Qed.

#[export] Instance lookupVpc_steady {C} eid : Steady (C:=C) (lookupVpc eid).
Proof. unfold lookupVpc. apply _. Qed.
