(* ===== verification/MergeTheorems.v ===== *)
(** * Merging the database and the controllers: what a list and a resource show

    A list shows every object that the controllers report and every row of the database, in the
    order of the names; the response for one resource always has the identity of its row. *)

From Stdlib Require Import Ascii.
From S2P Require Import Prelude Strings Errors Database AZConfig Hierarchical QuotaService IP IPText.
From S2P Require Import NetworkChecks Products Proxy ProductHandlers.

Section lists.
Context {CL : CaseLib} (fields : list string).
Implicit Types (resources : list DBProduct) (concatResults : gmap string (list json)).

#[export] Instance product_le_total : Total product_le.
Proof.
  intros a b. unfold product_le. cbv zeta. repeat case_decide; try congruence; apply (total String.le).
Qed.

(** The response for one object of a zone: [None] when it is malformed, which panics. *)
Definition objectResponse resources (azCode : string) (result : json) : option FullResponse :=
  m ← object result; azResponse fields azCode (findResource resources m) m.

(** The identifier of the row of an object. *)
Definition reportedId resources (result : json) : option uuid :=
  m ← object result; p ← findResource resources m; Some p.1.

Lemma combineZone_spec resources azCode results acc :
  combineZone fields resources azCode results acc =
  (responses ← mapM (objectResponse resources azCode) results;
   Some (acc.1 ++ responses, list_to_set (omap (reportedId resources) results) ∪ acc.2)).
Proof.
  revert acc. induction results as [|j results IH]; intros [combined ids]; simpl.
  - by rewrite app_nil_r, (left_id_L ∅ (∪)).
  - destruct j as [| | | | |m]; try done.
    change (objectResponse resources azCode (JObject m)) with (azResponse fields azCode (findResource resources m) m).
    change (reportedId resources (JObject m)) with (p ← findResource resources m; Some p.1).
    destruct (azResponse fields azCode (findResource resources m) m) as [x|]; simpl; [|done].
    rewrite IH. simpl. destruct (mapM _ results) as [xs|]; simpl; [|done]. rewrite <- (assoc_L (++)). simpl.
    do 2 f_equal. destruct (findResource resources m); simpl; set_solver.
Qed.

Definition zoneResponses resources (zone : string * list json) : option (list FullResponse) :=
  mapM (objectResponse resources zone.1) zone.2.

Lemma combineZones_spec resources zones acc :
  combineZones fields resources zones acc =
  (responses ← mapM (zoneResponses resources) zones;
   Some (acc.1 ++ mjoin responses, list_to_set (omap (reportedId resources) (mjoin zones.*2)) ∪ acc.2)).
Proof.
  revert acc. induction zones as [|[az results] zones IH]; intros [combined ids]; simpl.
  - by rewrite app_nil_r, (left_id_L ∅ (∪)).
  - rewrite combineZone_spec.
    change (zoneResponses resources (az, results)) with (mapM (objectResponse resources az) results).
    destruct (mapM _ results) as [xs|]; simpl; [|done]. rewrite IH. simpl.
    destruct (mapM _ zones) as [xss|]; simpl; [|done]. rewrite <- (assoc_L (++)), omap_app, list_to_set_app_L.
    do 2 f_equal. set_solver.
Qed.
(** The rows that no zone reports, and what is shown of them. *)
Definition reportedIds concatResults resources : gset uuid :=
  list_to_set (omap (reportedId resources) (mjoin (map_to_list concatResults).*2)).

Definition dbOnly (p : DBProduct) : FullResponse :=
  mkFullResponse (dbProductResponse p (pr_CodeAZ p.2)) ((λ key, (key, JNull)) <$> fields).

Lemma combineListResult_eq concatResults resources :
  combineListResult fields concatResults resources =
  (responses ← mapM (zoneResponses resources) (map_to_list concatResults);
   Some (merge_sort product_le (mjoin responses ++
     (dbOnly <$> filter (λ p : DBProduct, p.1 ∉ reportedIds concatResults resources) resources)))).
Proof.
  unfold combineListResult. rewrite combineZones_spec. destruct (mapM _ _) as [responses|]; simpl; [|done].
  by rewrite (right_id_L ∅ (∪)).
Qed.

(** A zone reports an object. *)
Definition reports concatResults (azCode : string) (j : json) : Prop :=
  ∃ results, concatResults !! azCode = Some results ∧ j ∈ results.

Lemma mapM_zone_elem concatResults resources (responses : list (list FullResponse)) x :
  mapM (zoneResponses resources) (map_to_list concatResults) = Some responses →
  x ∈ mjoin responses ↔ ∃ azCode j, reports concatResults azCode j ∧ objectResponse resources azCode j = Some x.
Proof.
  intros Hm%mapM_Some. rewrite list_elem_of_join. split.
  - intros (xs & Hx & Hxs). apply list_elem_of_lookup in Hxs as [i Hi].
    destruct (Forall2_lookup_r _ _ _ _ _ Hm Hi) as ([az results] & Hz & Hr%mapM_Some).
    apply list_elem_of_lookup in Hx as [k Hk].
    destruct (Forall2_lookup_r _ _ _ _ _ Hr Hk) as (j & Hj & Ho). exists az, j. split; [|done].
    exists results. split; [|by eapply list_elem_of_lookup_2].
    apply elem_of_map_to_list. by eapply list_elem_of_lookup_2.
  - intros (az & j & (results & Hz%elem_of_map_to_list & Hj) & Ho). apply list_elem_of_lookup in Hz as [i Hi].
    destruct (Forall2_lookup_l _ _ _ _ _ Hm Hi) as (xs & Hxs & Hr%mapM_Some).
    apply list_elem_of_lookup in Hj as [k Hk].
    destruct (Forall2_lookup_l _ _ _ _ _ Hr Hk) as (x' & Hx & Ho'). simplify_eq/=.
    exists xs. split; by eapply list_elem_of_lookup_2.
Qed.

Lemma elem_of_reportedIds concatResults resources id :
  id ∈ reportedIds concatResults resources ↔
  ∃ azCode j, reports concatResults azCode j ∧ reportedId resources j = Some id.
Proof.
  unfold reportedIds. rewrite elem_of_list_to_set, list_elem_of_omap. setoid_rewrite list_elem_of_join. split.
  - intros (j & (results & Hj & Hr) & Hid). apply list_elem_of_fmap in Hr as ([az results'] & -> & Hz%elem_of_map_to_list).
    exists az, j. split; [by exists results'|done].
  - intros (az & j & (results & Hz & Hj) & Hid). exists j. split; [|done]. exists results. split; [done|].
    apply list_elem_of_fmap. exists (az, results). split; [done|]. by apply elem_of_map_to_list.
Qed.

Lemma objectResponse_reported resources azCode j x id :
  objectResponse resources azCode j = Some x → reportedId resources j = Some id → ID (fr_Product x) = id.
Proof.
  unfold objectResponse, reportedId. destruct (object j) as [m|]; simpl; [|done].
  destruct (findResource resources m) as [p|]; simpl; [|done]. intros Hx [= <-].
  destruct (assertString m "eid"); simpl in *; [|done]. by destruct (assertString m "gitops"); simplify_eq/=.
Qed.

(** C18: the list of a kind of product is in the order of the names, shows every object that the
    zones report, every row of the database whether or not a zone reports it, and nothing else: an
    entry that no zone reports is a row, with what the database says of it. *)
Theorem combineListResult_complete concatResults resources l :
  combineListResult fields concatResults resources = Some l →
  Sorted product_le l ∧
  (∀ azCode j, reports concatResults azCode j → ∃ x, objectResponse resources azCode j = Some x ∧ x ∈ l) ∧
  (∀ p, p ∈ resources → ∃ x, x ∈ l ∧ ID (fr_Product x) = p.1) ∧
  (∀ x, x ∈ l →
    (∃ azCode j, reports concatResults azCode j ∧ objectResponse resources azCode j = Some x) ∨
    (∃ p, p ∈ resources ∧ x = dbOnly p ∧ ∀ azCode j, reports concatResults azCode j → reportedId resources j ≠ Some p.1)).
Proof.
  rewrite combineListResult_eq. destruct (mapM _ _) as [responses|] eqn:Hm; simpl; [|done]. intros [= <-].
  assert (∀ x l', x ∈ merge_sort product_le l' ↔ x ∈ l') as Hin by (intros; by rewrite merge_sort_Permutation).
  assert (∀ azCode j, reports concatResults azCode j → ∃ x, objectResponse resources azCode j = Some x) as Hobj.
  { intros az j (results & Hz%elem_of_map_to_list & Hj). apply mapM_Some in Hm.
    apply list_elem_of_lookup in Hz as [i Hi]. destruct (Forall2_lookup_l _ _ _ _ _ Hm Hi) as (xs & _ & Hr%mapM_Some).
    apply list_elem_of_lookup in Hj as [k Hk]. destruct (Forall2_lookup_l _ _ _ _ _ Hr Hk) as (x & _ & Ho). eauto. }
  split; [apply Sorted_merge_sort, _|]. repeat split.
  - intros az j Hr. destruct (Hobj az j Hr) as [x Hx]. exists x. split; [done|].
    rewrite Hin, elem_of_app. left. apply (mapM_zone_elem _ _ _ _ Hm). eauto.
  - intros p Hp. destruct (decide (p.1 ∈ reportedIds concatResults resources)) as [He|Hn].
    + apply elem_of_reportedIds in He as (az & j & Hr & Hid). destruct (Hobj az j Hr) as [x Hx]. exists x.
      split; [|by eapply objectResponse_reported]. rewrite Hin, elem_of_app. left.
      apply (mapM_zone_elem _ _ _ _ Hm). eauto.
    + exists (dbOnly p). split; [|done]. rewrite Hin, elem_of_app. right.
      apply list_elem_of_fmap. exists p. by rewrite list_elem_of_filter.
  - intros x. rewrite Hin, elem_of_app, (mapM_zone_elem _ _ _ _ Hm), list_elem_of_fmap. intros [Hx|(p & -> & Hp)]; [by left|].
    apply list_elem_of_filter in Hp as [Hn Hp]. right. exists p. split; [done|]. split; [done|].
    intros az j Hr Hid. apply Hn, elem_of_reportedIds. eauto.
Qed.

(** A list panics exactly when a zone reports something that is not an object with the fields
    of a product. *)
Theorem combineListResult_panics concatResults resources :
  combineListResult fields concatResults resources = None ↔
  ∃ azCode j, reports concatResults azCode j ∧ objectResponse resources azCode j = None.
Proof.
  rewrite combineListResult_eq. destruct (mapM _ _) as [responses|] eqn:Hm; simpl.
  - split; [done|]. intros (az & j & (results & Hz%elem_of_map_to_list & Hj) & Ho). apply mapM_Some in Hm.
    apply list_elem_of_lookup in Hz as [i Hi]. destruct (Forall2_lookup_l _ _ _ _ _ Hm Hi) as (xs & _ & Hr%mapM_Some).
    apply list_elem_of_lookup in Hj as [k Hk]. destruct (Forall2_lookup_l _ _ _ _ _ Hr Hk) as (x & _ & Ho'). simpl in *; congruence.
  - split; [|done]. intros _. apply mapM_None, Exists_exists in Hm as ([az results] & Hz%elem_of_map_to_list & Hn).
    apply mapM_None, Exists_exists in Hn as (j & Hj & Ho). exists az, j. split; [by exists results|done].
Qed.
End lists.

(** ** One resource *)

(** The response for one resource: there is none exactly when neither the database nor the
    controller knows it; a row always gives it its identifier and its name, and the payload of the
    controller is only attached when it has the identifier of the row, if there is one. *)
Theorem ResolveProductResponse_identity {JL : JSONLib} azCode resp db :
  let '(product, az, outcome) := ResolveProductResponse azCode resp db in
  (outcome = MergeNotFound ↔ decodeAZBody resp = None ∧ is_Ok db = false) ∧
  (∀ row, db = Ok row → ID product = row.1 ∧ ProductName product = pr_ProductName row.2 ∧
     CodeAZ product = azCode ∧ ProductTypeId product = pr_ProductTypeId row.2) ∧
  (∀ payload, az = Some payload →
     decodeAZBody resp = Some payload ∧ ID product = stringField payload "id" ∧ EId product = stringField payload "eid") ∧
  (az = None → ∀ row, db = Ok row → EId product = pr_EffectiveID row.2 ∧ Gitops product = "false").
Proof.
  unfold ResolveProductResponse. destruct (decodeAZBody resp) as [az|], db as [row|e]; simpl;
    try case_decide; simpl; naive_solver.
Qed.

(** * Where a request of the API is sent

    Escaping a path and reading it back is the identity, and a request is sent to the controller of
    the zone with the prefix of the API removed from its path and the secret of the zone. *)

(** ** Escaping *)
Lemma unescape_escaped c s :
  let n := Z.of_N (N_of_ascii c) in
  unescape (String "%" (String (upperHex (n `div` 16)) (String (upperHex (n `mod` 16)) s))) =
  rest ← unescape s; Some (String c rest).
Proof. destruct c as [[] [] [] [] [] [] [] []]; reflexivity. Qed.

Lemma shouldEscape_percent : shouldEscape "%"%char = true.
Proof. reflexivity. Qed.

(** Reading back an escaped path gives the path. *)
Theorem unescape_escape s : unescape (escape s) = Some s.
Proof.
  induction s as [|c s IH]; [done|]. cbn [escape]. cbv zeta. destruct (shouldEscape c) eqn:Hc.
  - rewrite unescape_escaped, IH. done.
  - cbn [unescape]. rewrite decide_False, IH; [done|]. intros ->. by rewrite shouldEscape_percent in Hc.
Qed.

Lemma escape_app s t : escape (s +:+ t) = escape s +:+ escape t.
Proof.
  induction s as [|c s IH]; [done|]. change (String c s +:+ t) with (String c (s +:+ t)). cbn [escape]. cbv zeta.
  rewrite IH. by destruct (shouldEscape c).
Qed.

(** ** Removing the pattern *)

Lemma cutPrefix_app p s : cutPrefix p (p +:+ s) = Some s.
Proof. induction p as [|c p IH]; [by destruct s|]. rewrite string_app_cons. cbn [cutPrefix]. by rewrite decide_True. Qed.

Lemma cutPrefix_Some p s rest : cutPrefix p s = Some rest → s = p +:+ rest.
Proof.
  revert s. induction p as [|c p IH]; intros s; [intros Hc; destruct s; simpl in Hc; by simplify_eq|].
  destruct s as [|c' s]; simpl; [done|]. case_decide as Hc; [|done]. subst. by intros ->%IH.
Qed.

(** The pattern is at the end of the text, and nowhere before. *)
Definition firstOccurrence (pre pattern : string) : Prop :=
  ∀ a b, pre +:+ pattern = a +:+ pattern +:+ b → b = EmptyString.

Lemma app_prefix x y p r : x +:+ y = p +:+ r → (String.length p ≤ String.length x)%nat → ∃ b, x = p +:+ b.
Proof.
  revert x. induction p as [|c p IH]; intros x He Hl; [by exists x|].
  destruct x as [|c' x]; [simpl in Hl; lia|]. rewrite !string_app_cons in He. simpl in Hl. simplify_eq. destruct (IH x) as [b ->]; [done|lia|]. by exists b.
Qed.

Lemma firstOccurrence_tail c pre pattern : firstOccurrence (String c pre) pattern → firstOccurrence pre pattern.
Proof. intros Hf a b He. apply (Hf (String c a) b). by rewrite !string_app_cons, He. Qed.

Lemma removeFirst_found pre pattern post :
  pattern ≠ EmptyString → firstOccurrence pre pattern → removeFirst pattern (pre +:+ pattern +:+ post) = pre +:+ post.
Proof.
  intros Hne. induction pre as [|c pre IH]; intros Hf.
  - change (removeFirst pattern (pattern +:+ post) = post). pose proof (cutPrefix_app pattern post) as Hc.
    destruct (pattern +:+ post); unfold removeFirst; by rewrite Hc.
  - change (String c pre +:+ pattern +:+ post) with (String c (pre +:+ pattern +:+ post)). cbn [removeFirst].
    destruct (cutPrefix pattern (String c (pre +:+ pattern +:+ post))) as [rest|] eqn:Hc.
    + exfalso. apply cutPrefix_Some in Hc.
      assert ((String c pre +:+ pattern) +:+ post = pattern +:+ rest) as He by (rewrite string_app_assoc; exact Hc).
      destruct (app_prefix _ _ _ _ He) as [b Hb]; [rewrite string_length_app; lia|].
      pose proof (Hf EmptyString b Hb) as ->. apply (f_equal String.length) in Hb.
      rewrite !string_length_app in Hb. simpl in Hb. lia.
    + rewrite IH; [done|]. by eapply firstOccurrence_tail.
Qed.

(** A test of the first occurrence. *)
Fixpoint nowhereIn (pre pattern : string) : bool :=
  match pre with
  | EmptyString => true
  | String _ rest => bool_decide (cutPrefix pattern (pre +:+ pattern) = None) && nowhereIn rest pattern
  end.

Lemma nowhereIn_first pre pattern : nowhereIn pre pattern = true → firstOccurrence pre pattern.
Proof.
  induction pre as [|c pre IH]; intros Hn a b He.
  - apply (f_equal String.length) in He. rewrite !string_length_app in He. simpl in He. destruct b; [done|]. simpl in He. lia.
  - cbn [nowhereIn] in Hn. apply andb_true_iff in Hn as [Hc%bool_decide_eq_true Hn]. destruct a as [|c' a].
    + change (EmptyString +:+ pattern +:+ b) with (pattern +:+ b) in He. by rewrite He, cutPrefix_app in Hc.
    + rewrite !string_app_cons in He. injection He as _ He. by apply (IH Hn a).
Qed.

(** ** The request that is sent *)

Definition safe (pattern : string) : Prop := escape pattern = pattern.

Lemma stripPattern_spec u pre pattern post :
  RawPath u = EmptyString → Path u = pre +:+ pattern +:+ post → Path u ≠ "*" →
  pattern ≠ EmptyString → safe pattern → firstOccurrence (escape pre) pattern →
  stripPattern u pattern = mkURL (Scheme u) (Host u) (pre +:+ post) (escape (pre +:+ post)) (RawQuery u).
Proof.
  intros Hraw Hp Hs Hne Hsafe Hf. unfold stripPattern, EscapedPath.
  rewrite decide_False by (by intros [? _]). rewrite decide_False by done.
  rewrite Hp, !escape_app, Hsafe, removeFirst_found by done. by rewrite <- escape_app, unescape_escape.
Qed.

Section requests.
Context {UR : URLLib} {C : Type} {HC : HTTPClient C}.

(** A request about a zone goes to the host of its controller, at the path of the controller
    followed by the path of the request without the prefix of the API and the zone; it carries the
    identifier of the user and the secret of the zone, whatever the request had as authorization. *)
Theorem SendProxy_request r target body endpoint pre post c :
  let pattern := ApiPrefix +:+ "/" +:+ Code target in
  url_Parse (url_String (rq_URL r)) = Some (rq_URL r) → url_Parse (ControllerUrl target) = Some endpoint →
  ControllerUrl target ≠ EmptyString → Host endpoint ≠ EmptyString → Scheme endpoint ≠ EmptyString →
  RawPath endpoint = EmptyString → RawPath (rq_URL r) = EmptyString →
  singleJoiningSlash (Path endpoint) (Path (rq_URL r)) = pre +:+ pattern +:+ post →
  safe pattern → firstOccurrence (escape pre) pattern →
  ∃ query, SendProxy r target ApiPrefix body c =
    client_Do (mkProxied (rq_Method r)
      (mkURL (Scheme endpoint) (Host endpoint) (pre +:+ post) (escape (pre +:+ post)) query)
      (Host endpoint) (rq_UserId r) ("Bearer " +:+ AuthSecret target) body) c.
Proof.
  intros pattern Hr Ht Hne Hh Hs Hre Hrr Hj Hsafe Hf. unfold SendProxy, newRequest. rewrite Hr. simpl px_URL.
  unfold RewriteRequest. rewrite decide_False by (intros [?|?]; done). rewrite Ht.
  rewrite decide_False by (intros [?|?]; done). unfold rewriteRequestURL, joinURLPath.
  rewrite (decide_True (P := RawPath endpoint = EmptyString ∧ _)) by done. rewrite Hj. cbn [px_Method px_UserId].
  eexists. rewrite (stripPattern_spec _ pre _ post); [reflexivity|done|done| |done|done|done].
  cbn [Path]. intros He. apply (f_equal String.length) in He. rewrite !string_length_app in He. simpl in He. lia.
Qed.
End requests.
