(* ===== verification/CreationTheorems.v ===== *)
(** * Creations of products: all or nothing, and within the quota

    A creation that is refused leaves no product, whatever its kind, and the creation quota of a
    project holds after a creation, the disks of an instance included. No statement fails here: a
    failing count lets a creation through. *)

From S2P Require Import Prelude Strings Strconv Quantity Errors QuotaResources Database AZConfig.
From S2P Require Import Hierarchical QuotaSpec SpxId QuotaService Operator NetworkChecks Products Proxy.
From S2P Require Import ProductHandlers ProductKinds Instances ProductTheorems ProductCreation.

(** ** Rows that are added, and rows that are deleted *)
Section rows.
Implicit Types (T : Tables) (ids : list uuid).

Definition adds T ids T' : Prop :=
  T' = set_products (λ _, products T') T ∧ (∀ id, id ∈ ids → products T !! id = None ∧ id ≠ uuid_Nil) ∧
  (∀ id, id ∉ ids → products T' !! id = products T !! id).

Definition deletesRows T ids T' : Prop :=
  T' = set_products (λ _, products T') T ∧
  (∀ id p, id ∈ ids → products T' !! id = Some p → pr_Deleted p = true) ∧
  (∀ id, id ∉ ids → products T' !! id = products T !! id) ∧ (∀ p, countOf T' p ≤ countOf T p)%nat.

Lemma adds_nil T : adds T [] T.
Proof. split; [by destruct T|]. split; [|done]. intros id Hid. by apply not_elem_of_nil in Hid. Qed.

Lemma adds_one T id row : products T !! id = None → id ≠ uuid_Nil → adds T [id] (set_products <[id := row]> T).
Proof.
  intros Hid Hne. split; [done|]. split; [by intros ? ->%list_elem_of_singleton|].
  intros i Hi. simpl. rewrite lookup_insert_ne; [done|]. intros ->. apply Hi. by left.
Qed.

Lemma adds_app T ids T1 ids' T' : adds T ids T1 → adds T1 ids' T' → adds T (ids ++ ids') T'.
Proof.
  intros (H1 & Hf & Hk) (H1' & Hf' & Hk'). split; [rewrite H1', H1; done|]. split.
  - intros id [Hid|Hid]%elem_of_app; [by apply Hf|]. destruct (Hf' id Hid) as [Hn Hne]. split; [|done].
    destruct (decide (id ∈ ids)) as [Hi|Hi]; [by apply Hf|]. by rewrite <- Hk.
  - intros id Hid. rewrite Hk', Hk; [done| |]; intros Hi; apply Hid, elem_of_app; auto.
Qed.

Lemma adds_no_Nil T ids T' : adds T ids T' → no_Nil T → no_Nil T'.
Proof.
  intros (_ & Hf & Hk) Hn. unfold no_Nil. rewrite Hk; [done|]. intros Hi. by destruct (Hf _ Hi).
Qed.

Lemma deletesRows_nil T : deletesRows T [] T.
Proof. split; [by destruct T|]. split; [|done]. intros id p Hid. by apply not_elem_of_nil in Hid. Qed.

Lemma deletesRows_cons T id ids T' :
  deletesRows (set_products (alter soft_delete_product id) T) ids T' → deletesRows T (id :: ids) T'.
Proof.
  intros (H1 & Hd & Hk & Hc). simpl in *. split; [done|]. split; [|split].
  - intros i p Hi Hp. destruct (decide (i ∈ ids)) as [Hin|Hn]; [eauto|].
    apply elem_of_cons in Hi as [->|?]; [|done]. rewrite Hk, lookup_alter_eq in Hp by done.
    destruct (products T !! id); simplify_eq/=. done.
  - intros i Hi. rewrite Hk, lookup_alter_ne; [done| |]; intros Hn; apply Hi; [subst; by left|by right].
  - intros p. etrans; [apply Hc|apply countOf_deleted].
Qed.

Lemma deletesRows_one T id : deletesRows T [id] (set_products (alter soft_delete_product id) T).
Proof. apply deletesRows_cons, deletesRows_nil. Qed.

Lemma deletesRows_app T ids T1 ids' T' : deletesRows T ids T1 → deletesRows T1 ids' T' → deletesRows T (ids ++ ids') T'.
Proof.
  intros (H1 & Hd & Hk & Hc) (H1' & Hd' & Hk' & Hc'). split; [rewrite H1', H1; done|]. split; [|split].
  - intros id p [Hi|Hi]%elem_of_app Hp; [|eauto]. destruct (decide (id ∈ ids')); [eauto|].
    rewrite Hk' in Hp by done. eauto.
  - intros id Hi. rewrite Hk', Hk; [done| |]; intros Hn; apply Hi, elem_of_app; auto.
  - intros p. specialize (Hc p). specialize (Hc' p). lia.
Qed.

(** Added rows that are deleted leave the products as they were. *)
Lemma liveProducts_adds_deletes T ids T1 ids' T' :
  adds T ids T1 → deletesRows T1 ids' T' →
  (∀ id, id ∈ ids → id ∈ ids' ∨ ∀ p, products T1 !! id = Some p → pr_Deleted p = true) →
  (∀ id, id ∈ ids' → id ∉ ids → products T1 !! id = None) →
  liveProducts T' = liveProducts T.
Proof.
  intros (_ & Hf & Hk) (_ & Hd & Hk' & _) Hsub Hnone. apply map_eq. intros id. unfold liveProducts.
  apply option_eq. intros p. rewrite !map_lookup_filter_Some. simpl.
  destruct (decide (id ∈ ids')) as [Hi'|Hn'].
  - split; [intros [Hp Hl]; by rewrite (Hd id p Hi' Hp) in Hl|]. intros [Hp Hl].
    destruct (decide (id ∈ ids)) as [Hi|Hn]; [by destruct (Hf id Hi); simplify_eq|].
    specialize (Hnone id Hi' Hn). rewrite Hk in Hnone by done. congruence.
  - rewrite Hk' by done. destruct (decide (id ∈ ids)) as [Hi|Hn]; [|by rewrite Hk].
    destruct (Hsub id Hi) as [?|Hdel]; [done|]. destruct (Hf id Hi) as [-> _].
    split; [|by intros []]. intros [Hp Hl]. rewrite (Hdel p Hp) in Hl. done.
Qed.
End rows.

(** ** Deletions of rows *)
Section deletions.
Context {UL : UUIDLib} {RI : RowIds} {C : Type} {RC : RequestContext C}.

Lemma logged_delete_runs id T s (c : C) :
  logged (DeleteById id) (mkWorld T s [] c) = (Ok tt, mkWorld (set_products (alter soft_delete_product id) T) s [] c).
Proof. unfold logged, DeleteById. by erewrite exec_no_faults. Qed.

Lemma deleteRows_runs rows T s (c : C) Q :
  (∀ T' c', deletesRows T rows.*1 T' → Q (Ok tt) T' c') → runs (deleteRows rows) T s c Q.
Proof.
  revert T. induction rows as [|row rows IH]; intros T HQ; simpl.
  - apply runs_ret, HQ, deletesRows_nil.
  - apply runs_bind. eexists _, _, _. split; [apply logged_delete_runs|]. apply IH. intros T' c' Hd.
    by apply HQ, deletesRows_cons.
Qed.

Lemma cleanRows_runs rows T s (c : C) Q :
  (∀ T' c', deletesRows T rows.*1 T' → Q (Ok tt) T' c') → runs (cleanRows rows) T s c Q.
Proof.
  revert T c. induction rows as [|row rows IH]; intros T c HQ; simpl.
  - apply runs_ret, HQ, deletesRows_nil.
  - apply runs_bind. eexists _, _, _. split; [apply CleanDb_runs|]. apply IH. intros T' c' Hd.
    by apply HQ, deletesRows_cons.
Qed.
End deletions.

(** ** Creations *)
Section creations.
Context {UL : UUIDLib} `{RI : RowIds} `{!FreshIds} {UR : URLLib} {JL : JSONLib} {CL : CaseLib} {QL : QuantityLib}.
Context {BL : BodyLib} {GT : GoText} {C : Type} {RC : RequestContext C} {HC : HTTPClient C} {CH : ControllerHTTP C}.
Context (SpxPrefix : string) (AZs : gmap string AZConfig) (cfg : ProductsConfig) (MinMemory MaxMemory : Quantity).
Implicit Types (r : Request) (T : Tables) (s : Z) (c : C).

(** The project has no more products than its quota. *)
Definition within T (p : uuid) : Prop := ∀ l, creationLimit T p = Some l → Z.of_nat (countOf T p) ≤ l.

(** The project may have one more. *)
Definition below T (p : uuid) : Prop := ∀ l, creationLimit T p = Some l → Z.of_nat (countOf T p) < l.

Lemma within_deletes T ids T' p : deletesRows T ids T' → within T p → within T' p.
Proof.
  intros (He & _ & _ & Hc) Hw l Hl. rewrite He, creationLimit_set_products in Hl. specialize (Hw l Hl). specialize (Hc p). lia.
Qed.

Lemma within_added T p id row :
  products T !! id = None → below T p → within (set_products <[id := row]> T) p.
Proof.
  intros Hid Hb l Hl. rewrite creationLimit_set_products in Hl. specialize (Hb l Hl).
  pose proof (countOf_added T p id row Hid). lia.
Qed.

Lemma initializeNewDisk_runs org p azCode d T s c Q :
  p ≠ uuid_Nil →
  Q (Ok None) T c →
  (∀ row row' sent, products T !! row.1 = None → row.1 ≠ uuid_Nil → below T p →
    Q (Ok (Some (row, sent))) (set_products <[row.1 := row']> T) c) →
  runs (initializeNewDisk SpxPrefix org p azCode d) T s c Q.
Proof.
  intros Hp HNone HSome. unfold initializeNewDisk. apply runs_bind.
  pose proof (IsQuotaCreationReached_runs T s c p) as Hq. destruct (quotaReached T p) as [b|] eqn:Hr.
  - exists (Ok (Ok b)), T, c. split; [unfold tried; by rewrite Hq|]. destruct b; [by apply runs_ret|].
    apply quotaReached_open in Hr as (l & Hl & Hc); [|done].
    assert (below T p) as Hb by (intros l' Hl'; congruence).
    set (row0 := mkProduct (cd_ProductName (id_Disk d)) EmptyString azCode p ProductTypeDisk false).
    set (id := gen_random_uuid T s). pose proof (fresh_id T s) as Hfresh. pose proof (fresh_not_Nil T s) as Hne.
    apply runs_bind. exists (Ok (Ok (id, row0))), (set_products <[id := row0]> T), c.
    split; [unfold tried; by rewrite Save_new|]. simpl.
    destruct (GenerateMetadata noMetadata p org id) as [m [err|]].
    + apply runs_ret. by apply (HSome (id, row0) row0 None).
    + apply runs_bind. eexists (Ok (Ok _)), _, c. split; [unfold tried; rewrite Save_runs by done; reflexivity|]. simpl.
      apply runs_ret. rewrite set_products_replace. by apply (HSome (id, row0) _ _).
  - destruct Hq as [e Hq]. exists (Ok (Err e)), T, c. split; [unfold tried; by rewrite Hq|]. by apply runs_ret.
Qed.

(** The rows of the new disks are added, and the quota holds. *)
Lemma initializeNewDisks_runs org p azCode disks acc T s c Q :
  p ≠ uuid_Nil →
  (∀ out rows T', disksCreated out = disksCreated acc ++ rows → adds T rows.*1 T' → (within T p → within T' p) →
    Q (Ok out) T' c) →
  runs (initializeNewDisks SpxPrefix org p azCode disks acc) T s c Q.
Proof.
  intros Hp. revert acc T. induction disks as [|d disks IH]; intros acc T HQ; simpl.
  { apply runs_ret, (HQ acc []); [by rewrite app_nil_r|apply adds_nil|done]. }
  destruct (isZeroDisk (id_Disk d)).
  { apply IH. intros out rows T' Ho. by apply HQ. }
  apply runs_bind, initializeNewDisk_runs; [done| |].
  - apply runs_ret, (HQ _ []); [by rewrite app_nil_r|apply adds_nil|done].
  - intros row row' sent Hid Hne Hb. assert (adds T [row.1] (set_products <[row.1 := row']> T)) as Ha by by apply adds_one.
    assert (within (set_products <[row.1 := row']> T) p) as Hw by by apply within_added.
    destruct sent as [sent|].
    + apply IH. intros out rows T' Ho Ha' Hw'. apply (HQ out (row :: rows)); [simpl in Ho; by rewrite Ho, <- (assoc_L (++))| |auto].
      by apply (adds_app _ _ _ _ _ Ha Ha').
    + apply runs_ret, (HQ _ [row]); [done|done|auto].
Qed.

(** ** What a handler of a creation must do *)
Definition creates (h : Request → H C unit) : Prop := ∀ r T s c, no_Nil T → projects T !! uuid_Nil = None →
  runs (h r) T s c (λ res T' _, (keeps res ∨ liveProducts T' = liveProducts T) ∧
    let p := parsedOrNil (rq_projectId r) in p ≠ uuid_Nil → within T p → below T p → within T' p).

Lemma runs_path {B} (k : AZConfig * uuid * uuid → H C B) r T s c Q :
  (∀ a, Q (Err a) T c) →
  (∀ az org p project, projectOf T (rq_projectId r) = Some (p, project) → runs (k (az, org, p)) T s c Q) →
  runs (CheckPathParams AZs r ≫= k) T s c Q.
Proof.
  intros He Hk. apply runs_bind, runs_steady; [apply _|]. intros res Hres.
  pose proof (checks (m := CheckPathParams AZs r) (mkWorld T s [] c)) as [_ Hc]. rewrite Hres in Hc.
  destruct res as [[[az org] p]|a]; [|apply He]. destruct Hc as (_ & project & Hp & _). eauto.
Qed.

Lemma made_creates r p0 project T res T' :
  projectOf T (rq_projectId r) = Some (p0, project) → made T p0 T' (keeps res) →
  (keeps res ∨ liveProducts T' = liveProducts T) ∧
  let p := parsedOrNil (rq_projectId r) in p ≠ uuid_Nil → within T p → below T p → within T' p.
Proof.
  intros Hp (id & row & Hid & -> & _ & Hk). split.
  - destruct Hk as [Hd|]; [right|by left]. apply map_eq. intros i. unfold liveProducts. apply option_eq. intros q.
    rewrite !map_lookup_filter_Some. simpl. destruct (decide (i = id)) as [->|Hn].
    + rewrite lookup_insert_eq, Hid. split; [|by intros []]. intros [[= <-] Hl]. congruence.
    + by rewrite lookup_insert_ne.
  - intros p _ _ Hb. by apply within_added.
Qed.
Lemma same_creates r T (res : result answer unit) :
  (keeps res ∨ liveProducts T = liveProducts T) ∧
  let p := parsedOrNil (rq_projectId r) in p ≠ uuid_Nil → within T p → below T p → within T p.
Proof. auto. Qed.

Lemma createProduct_creates productName productType azDb org p project newBody onError r T s c :
  (∀ resp, Steady (onError resp 500 SpxResourceCreationFailure)) → no_Nil T →
  projectOf T (rq_projectId r) = Some (p, project) →
  runs (createProduct SpxPrefix productName productType azDb org p newBody onError r) T s c
    (λ res T' _, (keeps res ∨ liveProducts T' = liveProducts T) ∧
      let p := parsedOrNil (rq_projectId r) in p ≠ uuid_Nil → within T p → below T p → within T' p).
Proof.
  intros. eapply runs_weaken; [by apply createProduct_made|]. intros res T' c' Hm. by eapply made_creates.
Qed.

(** The handlers that create a product, for bodies that decode. *)
Definition simpleCreations (vpc : CreateVPCBody) (subnet : CreateSubnetBody) (eip : CreateEipBody)
    (lb : LoadBalancerBody) (sg : SecurityGroupBody) (disk : CreateDiskBody) (snapshot : CreateSnapshotBody)
    (vmSnapshot : CreateVmSnapshotBody) (bucket : CreateBucketBody) (ssh : CreateSSHBody) :
    list (Request → H C unit) :=
  [CreateVPC SpxPrefix AZs (Ok vpc); CreateSubnet SpxPrefix AZs cfg (Ok subnet); CreateEip SpxPrefix AZs (Ok eip);
   CreateLoadBalancer SpxPrefix AZs (Ok lb); CreateSecurityGroup SpxPrefix AZs (Ok sg); CreateDisk SpxPrefix AZs (Ok disk);
   CreateSnapshot SpxPrefix AZs cfg (Ok snapshot); CreateVmSnapshot SpxPrefix AZs (Ok vmSnapshot);
   CreateBucket SpxPrefix AZs cfg (Ok bucket); CreateSSH SpxPrefix AZs (Ok ssh)].

Ltac simple_creation :=
  intros r T s c Hnil _; apply runs_path; [intros; apply same_creates|]; intros az org p project Hp;
  repeat (apply runs_bind, runs_steady; [apply _|]; intros [] _; [|apply same_creates]);
  repeat match goal with |- runs (match ?x with _ => _ end) _ _ _ _ =>
    destruct x as [[? ?]|]; [apply runs_error, same_creates|] end;
  eapply createProduct_creates; [apply _|done|done].

Lemma simpleCreations_create vpc subnet eip lb sg disk snapshot vmSnapshot bucket ssh :
  Forall creates (simpleCreations vpc subnet eip lb sg disk snapshot vmSnapshot bucket ssh).
Proof. unfold simpleCreations. repeat (constructor; [simple_creation|]). constructor. Qed.
(** A row whose key is not [uuid_Nil]. *)
Lemma projectOf_Some T id p project : projectOf T id = Some (p, project) → projects T !! p = Some project.
Proof.
  unfold projectOf, firstByKey. intros Hh. apply head_Some_elem_of, list_elem_of_filter in Hh as [_ Hin].
  rewrite order_by_Permutation, elem_of_map_to_list, map_lookup_filter_Some in Hin. by destruct Hin.
Qed.

Lemma projectOf_key T id p project :
  projectOf T id = Some (p, project) → parsedOrNil id ≠ uuid_Nil → p = parsedOrNil id.
Proof.
  unfold projectOf, firstByKey. intros Hh Hne. apply head_Some_elem_of, list_elem_of_filter in Hh as [Hc _].
  apply bool_decide_eq_true in Hc. by destruct Hc.
Qed.

#[export] Instance checkCompute_steady {Gpu} (i : InstanceCompute Gpu) :
  Steady (C:=C) (checkCompute MinMemory MaxMemory i).
Proof. unfold checkCompute. apply _. Qed.

(** The rows of an instance and of its disks are deleted. *)
Lemma instance_cleaned T id row ids T2 T3 product :
  products T !! id = None → id ≠ uuid_Nil → no_Nil T → adds (set_products <[id := row]> T) ids T2 →
  (product = id ∨ product = uuid_Nil ∧ pr_Deleted row = true) → deletesRows T2 (ids ++ [product]) T3 →
  liveProducts T3 = liveProducts T.
Proof.
  intros Hid Hne Hnil Ha Hp Hd. pose proof (adds_app _ _ _ _ _ (adds_one T id row Hid Hne) Ha) as Hall.
  pose proof (adds_no_Nil _ _ _ Hall Hnil) as Hnil2.
  assert (products T2 !! id = Some row) as Hrow.
  { destruct Ha as (_ & Hf & Hk). rewrite Hk; [apply lookup_insert_eq|]. intros Hi. destruct (Hf id Hi) as [Hn _].
    simpl in Hn. by rewrite lookup_insert_eq in Hn. }
  eapply (liveProducts_adds_deletes _ _ _ _ _ Hall Hd).
  - intros i [->|Hi]%elem_of_cons; [|left; apply elem_of_app; by left].
    destruct Hp as [->|[_ Hdel]]; [left; apply elem_of_app; right; by left|]. right. intros p Hq. congruence.
  - intros i [Hi|Hi]%elem_of_app Hn; [destruct Hn; by right|]. apply list_elem_of_singleton in Hi as ->.
    destruct Hp as [->|[-> _]]; [destruct Hn; by left|done].
Qed.

Lemma CreateInstance_creates body : creates (CreateInstance SpxPrefix AZs MinMemory MaxMemory (Ok body)).
Proof.
  intros r T s c Hnil HnoP. apply runs_path; [intros; apply same_creates|]. intros az org p project Hproj.
  assert (p ≠ uuid_Nil) as Hpne by (intros ->; apply projectOf_Some in Hproj; congruence).
  apply runs_bind, runs_steady; [apply _|]. intros _ <-. simpl.
  case_decide; [apply runs_error, same_creates|].
  apply runs_bind, runs_steady; [apply _|]. intros [compute|a] _; [|apply same_creates].
  apply runs_bind.
  destruct (CreateIntoDb_made SpxPrefix (ib_ProductName body) ProductTypeInstance (Code az) org p T s c)
    as (product & m & T1 & c1 & Hrun & id & row & Hid & Hne & -> & Hrp & Hk).
  exists (Ok (product, m)), (set_products <[id := row]> T), c1. split; [unfold orElse; by rewrite Hrun|]. simpl.
  apply runs_bind, initializeNewDisks_runs; [done|]. intros disks rows T2 Hrows Ha Hw. simpl in Hrows.
  assert (∀ T3, deletesRows T2 (rows.*1 ++ [product.1]) T3 → ∀ res : result answer unit,
    (keeps res ∨ liveProducts T3 = liveProducts T) ∧
    let p := parsedOrNil (rq_projectId r) in p ≠ uuid_Nil → within T p → below T p → within T3 p) as Hclean.
  { intros T3 Hd res. split; [right; by eapply instance_cleaned|]. intros p0 Hp0 _ Hb.
    assert (p = p0) as -> by by eapply projectOf_key. eapply within_deletes; [exact Hd|]. apply Hw. by apply within_added. }
  destruct (failed disks).
  - apply runs_bind, deleteRows_runs. rewrite Hrows. intros T3 c3 Hd. apply runs_bind.
    eexists _, _, _. split; [apply logged_delete_runs|]. apply runs_error, Hclean.
    eapply deletesRows_app; [done|apply deletesRows_one].
  - apply runs_bind. unfold proxied. apply runs_bind. unfold sendProxy. apply runs_outside. intros resp c2 _.
    assert (let p := parsedOrNil (rq_projectId r) in p ≠ uuid_Nil → within T p → below T p → within T2 p) as Hq.
    { intros p0 Hp0 _ Hb. assert (p = p0) as -> by by eapply projectOf_key. apply Hw. by apply within_added. }
    destruct resp as [resp|e]; [|apply runs_error; split; [left; right; by eexists|done]].
    apply runs_ret. case_decide as Hs; [apply runs_respond; split; [left; by left|done]|].
    apply runs_bind, cleanRows_runs. rewrite Hrows. intros T3 c3 Hd. apply runs_bind.
    eexists _, _, _. split; [apply CleanDb_runs|]. apply runs_steady; [apply _|]. intros res _. apply Hclean.
    eapply deletesRows_app; [done|apply deletesRows_one].
Qed.
(** ** The claims *)
Section claims.
Context (vpc : CreateVPCBody) (subnet : CreateSubnetBody) (eip : CreateEipBody) (lb : LoadBalancerBody)
  (sg : SecurityGroupBody) (disk : CreateDiskBody) (snapshot : CreateSnapshotBody) (vmSnapshot : CreateVmSnapshotBody)
  (bucket : CreateBucketBody) (ssh : CreateSSHBody) (instance : CreateInstanceBody).

Definition createHandlers : list (Request → H C unit) :=
  CreateInstance SpxPrefix AZs MinMemory MaxMemory (Ok instance) ::
  simpleCreations vpc subnet eip lb sg disk snapshot vmSnapshot bucket ssh.

Lemma createHandlers_create h : h ∈ createHandlers → creates h.
Proof. apply Forall_forall. constructor; [apply CreateInstance_creates|apply simpleCreations_create]. Qed.

(** A creation of any kind of product, an instance with its disks included, leaves the products
    as they were unless it answers 200 or no controller answered. *)
Theorem refused_creation_leaves_nothing h r T s c :
  h ∈ createHandlers → no_Nil T → projects T !! uuid_Nil = None →
  let '(a, w') := run (h r) (mkWorld T s [] c) in
  status a = 200 ∨ unreachable a ∨ liveProducts (tables w') = liveProducts T.
Proof.
  intros Hh%createHandlers_create Hn HP. destruct (Hh r T s c Hn HP) as (res & T' & c' & Hrun & Hk & _).
  unfold run. rewrite Hrun. destruct res as [[]|a]; simpl in *; [by left|]. tauto.
Qed.

(** C12: when no statement of the database fails and the identifier of the project parses, the creation of
    a VPC, subnet, public address, load balancer, security group, disk, snapshot, snapshot of an instance,
    bucket, SSH key or instance, behind the middleware of the routes, leaves the products of a project that
    was within its creation quota within it, each disk of an instance counted. Managed clusters, backups and
    clones of a snapshot are not among these; and a count that fails takes the quota as not reached. *)
Theorem creation_within_quota h r T s c u :
  h ∈ createHandlers → no_Nil T → projects T !! uuid_Nil = None →
  uuid_Parse (rq_projectId r) = Some u → uuid_String u ≠ uuid_Nil → within T (uuid_String u) →
  within (tables (run (CheckCreationQuota h r) (mkWorld T s [] c)).2) (uuid_String u).
Proof.
  intros Hh%createHandlers_create Hn HP Hu Hne Hw. unfold run, CheckCreationQuota. rewrite Hu, H_bind_eq. unfold orElse.
  assert (parsedOrNil (rq_projectId r) = uuid_String u) as Hp by (unfold parsedOrNil; by rewrite Hu).
  pose proof (IsQuotaCreationReached_runs T s c (uuid_String u)) as Hq.
  destruct (quotaReached T (uuid_String u)) as [b|] eqn:Hr; [|destruct Hq as [e Hq]; by rewrite Hq].
  rewrite Hq. destruct b; [done|]. apply quotaReached_open in Hr as (l & Hl & Hc); [|done].
  destruct (Hh r T s c Hn HP) as (res & T' & c' & Hrun & _ & Hin). rewrite Hp in Hin. rewrite Hrun.
  assert (within T' (uuid_String u)) as HT' by (apply Hin; [done|done|]; intros l' Hl'; congruence).
  by destruct res.
Qed.
End claims.
End creations.

(** * The size of an instance, the creation quota, and the rows of an instance

    What sizes are accepted; that the disks of an instance stay within the creation quota of the
    project; that a creation that is refused leaves the products as they were; and that a new
    project gets its VPC and its subnet in every zone. *)

(** ** Sizes *)
Section sizes.
Context `{QL : QuantityLib} `{!QuantityLaws QL} {GT : GoText}.

(** A number of bytes. *)
Definition bytes (q : Quantity) (n : Z) : Prop := nano q = n * 10 ^ 9.

Lemma sgn_sub_neg a b : Z.sgn (a - b) < 0 ↔ a < b.
Proof. pose proof (Z.sgn_spec (a - b)). lia. Qed.
Lemma sgn_sub_pos a b : 0 < Z.sgn (a - b) ↔ b < a.
Proof. pose proof (Z.sgn_spec (a - b)). lia. Qed.
Lemma sgn_sub_nonzero a b : Z.sgn (a - b) ≠ 0 ↔ a ≠ b.
Proof. pose proof (Z.sgn_spec (a - b)). lia. Qed.

(** The condition on the memory. *)
Lemma whole_mebibytes MinMemory MaxMemory q :
  bytes MinMemory (128 * mebibyte) → bytes MaxMemory (999999 * 1024 * mebibyte) →
  ¬ (Cmp q MinMemory < 0 ∨ 0 < Cmp q MaxMemory ∨ Cmp q (NewQuantity (Value q) DecimalSI) ≠ 0 ∨
     Z.rem (Value q) mebibyte ≠ 0) ↔
  ∃ mib, 128 ≤ mib ≤ 999999 * 1024 ∧ Value q = mib * mebibyte ∧ bytes q (mib * mebibyte).
Proof.
  unfold bytes, mebibyte. intros Hmin Hmax. rewrite !Cmp_spec, Hmin, Hmax, sgn_sub_neg, sgn_sub_pos, sgn_sub_nonzero.
  split.
  - intros Hn. assert (128 * 1048576 * 10 ^ 9 ≤ nano q ≤ 999999 * 1024 * 1048576 * 10 ^ 9) as Hr by lia.
    assert (0 ≤ Value q ≤ MaxInt64) as Hv.
    { rewrite Value_spec by (unfold MaxInt64; lia). split; [apply ceil_div_nonneg; lia|].
      apply ceil_div_le; [lia|]. unfold MaxInt64. lia. }
    rewrite NewQuantity_spec in Hn by (unfold int64, MinInt64, MaxInt64 in *; lia).
    assert (nano q = Value q * 10 ^ 9) as Hq by lia.
    assert (Z.rem (Value q) 1048576 = 0) as Hrem by (destruct (decide (Z.rem (Value q) 1048576 = 0)); tauto).
    apply Z.rem_divide in Hrem as [mib Hmib]; [|lia]. exists mib. rewrite Hq, Hmib in *. lia.
  - intros (mib & Hm & Hv & Hb). rewrite NewQuantity_spec by (unfold int64, MinInt64, MaxInt64; lia).
    rewrite Hv, Hb, Z.rem_mul by lia. lia.
Qed.

(** A size is accepted exactly when it has between 1 and 999999 CPUs and a memory, written
    without exponent in at most 64 bytes, that is a whole number of MiB between 128 MiB and
    999999 GiB; the memory that is sent is that number. *)
Theorem ValidateComputeSize_bounds MinMemory MaxMemory cpu memory :
  bytes MinMemory (128 * mebibyte) → bytes MaxMemory (999999 * 1024 * mebibyte) →
  match ValidateComputeSize MinMemory MaxMemory cpu memory with
  | Ok q => 1 ≤ cpu ≤ 999999 ∧ ∃ mib, 128 ≤ mib ≤ 999999 * 1024 ∧ bytes q (mib * mebibyte) ∧
      ∃ p, ParseQuantity memory = Some p ∧ bytes p (mib * mebibyte)
  | Err _ => ¬ (1 ≤ cpu ≤ 999999) ∨ 64 < Z.of_nat (String.length memory) ∨
      noExponent memory = false ∨
      ∀ p mib, ParseQuantity memory = Some p → 128 ≤ mib ≤ 999999 * 1024 → ¬ bytes p (mib * mebibyte)
  end.
Proof.
  intros Hmin Hmax. unfold ValidateComputeSize, MinCPU, MaxComputeValue, maxMemoryLength.
  case_decide as Hc; [left; lia|]. case_decide as Hl; [auto|]. destruct (noExponent memory) eqn:He; simpl; [|auto].
  destruct (ParseQuantity memory) as [q|] eqn:Hp; [|right; right; right; by intros].
  case_decide as Hq.
  - right. right. right. intros p mib [= <-] Hm Hb. revert Hq. apply (whole_mebibytes _ _ q Hmin Hmax).
    exists mib. split; [done|]. split; [|done]. unfold bytes, mebibyte in *.
    rewrite Value_spec by (unfold MaxInt64; lia). rewrite Hb. apply ceil_div_exact. lia.
  - apply (whole_mebibytes _ _ q Hmin Hmax) in Hq as (mib & Hm & Hv & Hb). split; [lia|]. exists mib.
    split; [done|]. split; [|eauto]. unfold bytes, mebibyte in *. rewrite Hv. apply NewQuantity_spec.
    unfold int64, MinInt64, MaxInt64. lia.
Qed.
End sizes.

(** * The default resources of a project

    When the initialization of a project succeeds, every zone of its organization has a VPC and a
    subnet of the project, whatever statements failed before. *)

Section defaults.
Context {UL : UUIDLib} `{RI : RowIds} `{!FreshIds} {QL : QuantityLib} {BL : BodyLib}.
Context {C : Type} {CH : ControllerHTTP C}.
Context (SpxPrefix : string) (AZs : gmap string AZConfig) (cfg : ProductsConfig).
Implicit Types (w : World C) (az : AZConfig).

(** The rows are still there. *)
Definition keepsRows w w' : Prop :=
  ∀ id row, products (tables w) !! id = Some row → products (tables w') !! id = Some row.

(** A product of a type, in a zone, of a project. *)
Definition hasProduct w (productType azCode : string) (projectId : uuid) : Prop :=
  ∃ id row, products (tables w) !! id = Some row ∧ pr_Deleted row = false ∧ pr_ProductTypeId row = productType ∧
    pr_CodeAZ row = azCode ∧ pr_ProjectId row = projectId.

Lemma keepsRows_has w w' productType azCode projectId :
  keepsRows w w' → hasProduct w productType azCode projectId → hasProduct w' productType azCode projectId.
Proof. intros Hk (id & row & Hr & Hp). exists id, row. auto. Qed.

Lemma attempt_Ok {A} (m : M C A) w res w' : attempt m w = (Ok res, w') → m w = (res, w').
Proof. unfold attempt. destruct (m w). by intros [= -> ->]. Qed.

Lemma Save_Ok id row w res w' :
  Save (id, row) w = (Ok res, w') →
  let key := if decide (id = uuid_Nil) then gen_random_uuid (tables w) (seq w) else id in
  res = (key, row) ∧ tables w' = set_products <[key := row]> (tables w) ∧ seq w' = seq w.
Proof. intros [Hx _]%exec_Ok. simpl in *. by simplify_eq. Qed.

Lemma initializeRow_Ok productName productType azCode projectId org failure w product m w' :
  initializeRow SpxPrefix productName productType azCode projectId org failure w = (Ok (product, m), w') →
  keepsRows w w' ∧ hasProduct w' productType azCode projectId.
Proof.
  intros (res & w1 & Hs%attempt_Ok & Hk)%bind_Ok. destruct res as [[id row]|e]; [|done].
  apply Save_Ok in Hs as (He & HT & Hseq). rewrite decide_True in He, HT by done. injection He as -> ->.
  cbn [fst snd] in Hk. destruct (GenerateMetadata _ _ _ _) as [m' [err|]].
  - apply bind_Ok in Hk as (? & ? & _ & Hf). done.
  - apply bind_Ok in Hk as (saved & w2 & Hs%attempt_Ok & Hr). destruct saved as [saved|e].
    2:{ apply bind_Ok in Hr as (? & ? & _ & Hf). done. }
    injection Hr as <- <- <-. apply Save_Ok in Hs as (-> & HT2 & _).
    rewrite decide_False in HT2 by apply fresh_not_Nil. rewrite HT in HT2. rewrite set_products_replace in HT2.
    unfold keepsRows, hasProduct. rewrite HT2. simpl. split.
    + intros id row Hr. rewrite lookup_insert_ne; [done|]. intros <-. by rewrite fresh_id in Hr.
    + eexists _, _. split; [apply lookup_insert_eq|]. done.
Qed.

Lemma postController_Ok az org projectId resource body failure w u w' :
  postController az org projectId resource body failure w = (Ok u, w') → tables w' = tables w.
Proof.
  intros (res & w1 & Ho & Hk)%bind_Ok. unfold outsideCall in Ho. destruct (SendRequest _ _ _ _ _). simplify_eq.
  destruct res; [|done]. case_decide; [done|]. by injection Hk as <- <-.
Qed.

Lemma initializeVPC_Ok org projectId az w eid w' :
  initializeVPC SpxPrefix cfg org projectId az w = (Ok eid, w') →
  keepsRows w w' ∧ hasProduct w' ProductTypeVPC (Code az) projectId.
Proof.
  intros ([vpc m] & w1 & Hr%initializeRow_Ok & Hk)%bind_Ok. apply bind_Ok in Hk as (u & w2 & HT%postController_Ok & Hk).
  injection Hk as <- <-. unfold keepsRows, hasProduct in *. by rewrite HT.
Qed.

Lemma initializeSubnet_Ok org projectId az eid w u w' :
  initializeSubnet SpxPrefix cfg org projectId az eid w = (Ok u, w') →
  keepsRows w w' ∧ hasProduct w' ProductTypeSubnet (Code az) projectId.
Proof.
  intros ([subnet m] & w1 & Hr%initializeRow_Ok & HT%postController_Ok)%bind_Ok.
  unfold keepsRows, hasProduct in *. by rewrite HT.
Qed.

(** When the initialization of the resources of a project succeeds, every zone of its
    organization has a VPC and a subnet of the project, and no product is lost. *)
Theorem InitializeProjectDefaultResources_complete org projectId w w' :
  InitializeProjectDefaultResources SpxPrefix AZs cfg org projectId w = (Ok tt, w') →
  keepsRows w w' ∧
  ∀ az, az ∈ FindAll AZs org →
    hasProduct w' ProductTypeVPC (Code az) projectId ∧ hasProduct w' ProductTypeSubnet (Code az) projectId.
Proof.
  unfold InitializeProjectDefaultResources. revert w. induction (FindAll AZs org) as [|az azs IH]; intros w Hrun.
  { apply (f_equal snd) in Hrun. simpl in Hrun. subst. split; [by intros ?|]. intros az Hin. by apply not_elem_of_nil in Hin. }
  apply bind_Ok in Hrun as ([] & w1 & Hz & Hrest). apply IH in Hrest as [Hk Hall].
  apply bind_Ok in Hz as (res & w2 & Hv%attempt_Ok & Hz). destruct res as [eid|e]; [|done].
  apply initializeVPC_Ok in Hv as [Hk1 Hv]. apply bind_Ok in Hz as (res & w3 & Hs%attempt_Ok & Hz).
  destruct res as [u|e]; [|done]. apply initializeSubnet_Ok in Hs as [Hk2 Hs]. injection Hz as <-.
  assert (keepsRows w2 w') as Hk' by (intros id row Hr; by apply Hk, Hk2).
  split; [intros id row Hr; by apply Hk', Hk1|]. intros az' [->|Hin]%elem_of_cons; [|auto].
  split; [eapply (keepsRows_has w2)|eapply (keepsRows_has w3)]; done.
Qed.
End defaults.
