(* ===== verification/ProductWitnesses.v ===== *)
(** * Concrete inputs of the theorems on products

    A database with one organization, two projects and a product of each, a zone whose controller
    accepts every request, and the theorems with hypotheses applied there. *)

From S2P Require Import Prelude Strings Strconv Errors Quantity QuotaResources Database AZConfig SpxId Hierarchical.
From S2P Require Import ControllerLaws QuotaService NetworkChecks Operator Products Proxy ProductHandlers.
From S2P Require Import ProductKinds Instances ProductTheorems ProductCreation.
From S2P Require Import CreationTheorems MergeTheorems.
Import NanoQuantity ClusterSamples.

(** ** The libraries *)

(** A key that is not in use, one of a few if possible. *)
Definition usedKeys (T : Tables) : gset uuid := {[uuid_Nil]} ∪ dom (products T).
Definition candidates : list uuid :=
  ["11111111-7a39-4a53-8f3e-0b7f6d1c2a10"; "22222222-7a39-4a53-8f3e-0b7f6d1c2a10"; "33333333-7a39-4a53-8f3e-0b7f6d1c2a10"].
#[export] Instance fresh_keys : RowIds := {|
  gen_random_uuid T _ := default (fresh (usedKeys T)) (head (filter (λ k, k ∉ usedKeys T) candidates)) |}.

#[export] Instance fresh_keys_laws : FreshIds.
Proof.
  assert (∀ T s, gen_random_uuid T s ∉ usedKeys T) as Hf.
  { intros T s. simpl. destruct (head _) as [k|] eqn:Hk; [|apply is_fresh].
    by apply head_Some_elem_of, list_elem_of_filter in Hk as [Hk _]. }
  split; intros T s; specialize (Hf T s); unfold usedKeys in Hf; rewrite not_elem_of_union, not_elem_of_dom in Hf; set_solver.
Qed.

#[export] Instance sample_urls : URLLib := {|
  url_Parse s := if decide (s = "https://az1") then Some (mkURL "https" "az1" EmptyString EmptyString EmptyString)
                 else Some (mkURL EmptyString EmptyString s EmptyString EmptyString);
  url_String u := Path u |}.

#[export] Instance sample_json : JSONLib := {| Unmarshal s := if decide (s = "null") then Some JNull else None |}.
#[export] Instance sample_cases : CaseLib := {| ToUpper s := s; ToLower s := s |}.
#[export] Instance sample_bodies : BodyLib := {|
  body_Marshal _ := "{}"; json_Compact s := Some s; DecodeClone _ := None |}.
#[export] Instance sample_texts : GoText := {| ParseRFC3339 _ := None; Quote s := s |}.

(** The requests that were sent; the controller answers 200. *)
Definition Sent : Type := list ProxiedRequest.
#[export] Instance sample_context : RequestContext Sent := {|
  GenerateName c := ("drawn", c); SetResource _ c := c; ClearResource c := c |}.
#[export] Instance sample_client : HTTPClient Sent := {|
  client_Do p c := (Ok (mkResponse 200 "null"), p :: c); ServeHTTP p c := (mkResponse 200 "null", p :: c) |}.
#[export] Instance sample_controller : ControllerHTTP Sent := {|
  SendRequest _ _ _ _ c := (Ok (mkResponse 200 "null"), c); json_Marshal _ := "{}"; json_Decode _ := None |}.

(** ** The database *)
Definition otherProject : uuid := "b7a3fd4e-1f3e-4b58-9f69-54c2a1a1d111".
Definition localKey : uuid := "5a2f7f0e-7a39-4a53-8f3e-0b7f6d1c2a10".
Definition foreignKey : uuid := "9d1c7a55-51a4-43f7-8c46-2d1f1e6b3c20".

Definition sampleTables : Tables :=
  set_quotas (λ _, {[ProjectLimitProduct := "3"]})
    (set_products (λ _, {[localKey := mkProduct "disk" "spx-1" "az1" project ProductTypeDisk false;
        foreignKey := mkProduct "vpc" "spx-2" "az1" otherProject ProductTypeVPC false]})
      (set_projects (λ _, {[project := Database.mkProject organization false; otherProject := Database.mkProject organization false]})
        (set_organizations (λ _, {[organization := Database.mkOrganization 0 false]}) no_tables))).

Definition zone : AZConfig := mkAZConfig "az1" "secret" "Zone" EmptyString "https://az1" EmptyString [].
Definition zones : gmap string AZConfig := {["az1" := zone]}.

Definition sampleURL : URL :=
  mkURL EmptyString EmptyString ("/" +:+ organization +:+ "/api/spx-ctrl/az1/" +:+ project +:+ "/vpc") EmptyString EmptyString.

(** A request of the project about the product of the other one. *)
Definition sampleRequest (eid : string) : Request :=
  mkRequest "DELETE" sampleURL "api" "user" "Bearer user" None organization project "az1" eid.

Definition config : ProductsConfig :=
  mkProductsConfig "default" "default" (mkSubnetNetwork false "IPv4" "10.0.0.0/24" EmptyString EmptyString EmptyString)
    true (mkSnapshotScheduleConfig 1 24) 0.

Definition sampleWorld : World Sent := mkWorld sampleTables 0 [] [].

(** ** The claims *)
Lemma sample_foreign : foreignProduct sampleTables (sampleRequest "spx-2").
Proof.
  exists (project, Database.mkProject organization false), (foreignKey, mkProduct "vpc" "spx-2" "az1" otherProject ProductTypeVPC false).
  split; [vm_compute; reflexivity|]. split; [vm_compute; reflexivity|]. vm_compute. discriminate.
Defined.

Definition someNetwork : EipSpec := mkEipSpec EmptyString [] [].
Definition someDiskUpdate : UpdateDiskBody := mkUpdateDiskBody "new" "10" [].
Definition updateInstance : UpdateInstanceBody :=
  mkInstanceBody "vm" (mkInstanceGeneral "Always" "small" []) (mkInstanceCompute 2 "512Mi" None) [] []
    (mkInstanceOptions (mkInstanceCloudInitBody false EmptyString EmptyString) [] None None).

Definition minMemory : Quantity := 128 * mebibyte * 10 ^ 9.
Definition maxMemory : Quantity := 999999 * 1024 * mebibyte * 10 ^ 9.

Lemma foreign_product_untouched_witness :
  let '(a, w') := run (DeleteVPC zones (sampleRequest "spx-2")) sampleWorld in
  same_data sampleWorld w' ∧ refusal a.
Proof.
  apply (foreign_product_untouched "spx-" zones config minMemory maxMemory true (mkUpdateVPCBody "new" [])
    (mkUpdateSubnetBody "new" (mkUpdateSubnetNetwork false EmptyString EmptyString) false)
    (mkUpdateEipBody "new" someNetwork) (mkLoadBalancerBody "new" (mkLoadBalancerSpec EmptyString EmptyString [] [] []))
    (mkSecurityGroupBody "new" EmptyString (mkSecurityGroupSpec (mkLabelSelector [] []) [] [] []))
    someDiskUpdate (mkUpdateSnapshotBody "new" (mkUpdateSnapshotSpec 1 false [] 1))
    (mkUpdateBucketBody "new" (mkBucketConfig None EmptyString EmptyString EmptyString)) updateInstance);
    [|exact sample_foreign].
  unfold guardedHandlers. do 11 right. left.
Defined.

Definition sampleSubnet (vpcEId : string) : CreateSubnetBody := mkCreateSubnetBody "subnet" vpcEId (DefaultSubnet config) false.

Definition vpcBody (m : Metadata) : string := body_Marshal (CreateVPCSpxControllerBody m).

Lemma createProduct_decides_witness :
  status (run (createProduct "spx-" "vpc" ProductTypeVPC zone organization project vpcBody HandleControllerError
    (sampleRequest EmptyString)) sampleWorld).1 = 200.
Proof.
  unfold sampleWorld. erewrite createProduct_decides.
  - vm_compute. reflexivity.
  - split; [vm_compute; discriminate|]. vm_compute. reflexivity.
Defined.

Lemma DeleteProduct_decides_witness :
  let '(a, w') := run (DeleteProduct zones (sampleRequest "spx-1")) sampleWorld in
  match SendProxy (sampleRequest "spx-1") zone ApiPrefix None [] with
  | (Ok resp, c2) =>
    outside w' = c2 ∧
    if decide (StatusCode resp = 200 ∨ StatusCode resp = 404) then
      liveProducts (tables w') =
        filter (λ kv, deletes "spx-1" "az1" project kv.2 = false) (liveProducts sampleTables) ∧
      status a = (if decide (StatusCode resp = 404 ∧
        size (filter (λ kv, deletes "spx-1" "az1" project kv.2 = true) (products sampleTables)) = 0%nat) then 404 else 200)
    else tables w' = sampleTables ∧ status a = 500
  | (Err _, c2) => tables w' = sampleTables ∧ outside w' = c2 ∧ status a = 500
  end.
Proof.
  apply (DeleteProduct_decides zones (sampleRequest "spx-1") sampleTables 0 [] zone organization project);
    vm_compute; reflexivity.
Defined.

Definition someDisk : CreateDiskBody :=
  mkCreateDiskBody "disk" "10" (mkDiskSource "blank" EmptyString EmptyString EmptyString) "fast" None.
Definition someInstance : CreateInstanceBody :=
  mkInstanceBody "vm" (mkInstanceGeneral "Always" "small" []) (mkInstanceCompute 2 "512Mi" [])
    [mkInstanceNetworkBody 0 "spx-3" "virtio" None EmptyString EmptyString EmptyString]
    [mkInstanceDiskBody 0 false "virtio" EmptyString someDisk]
    (mkInstanceOptions (mkInstanceCloudInitBody false EmptyString EmptyString) [] None None).

Definition samples : list (Request → H Sent unit) :=
  createHandlers "spx-" zones config minMemory maxMemory (mkCreateVPCBody "vpc") (sampleSubnet "spx-3")
    (mkCreateEipBody "eip" "spx-3" someNetwork) (mkLoadBalancerBody "lb" (mkLoadBalancerSpec EmptyString EmptyString [] [] []))
    (mkSecurityGroupBody "sg" EmptyString (mkSecurityGroupSpec (mkLabelSelector [] []) [] [] [])) someDisk
    (mkCreateSnapshotBody "snapshot" (mkSnapshotSpec "spx-1" false 1 false [] 1)) (mkCreateVmSnapshotBody "vms" "spx-4")
    (mkCreateBucketBody "bucket" "fast" (mkBucketConfig None EmptyString EmptyString EmptyString))
    (mkCreateSSHBody "ssh" "ssh-ed25519") someInstance.

Definition createSample : Request → H Sent unit :=
  CreateInstance "spx-" zones minMemory maxMemory (Ok someInstance).

Lemma refused_creation_leaves_nothing_witness :
  let '(a, w') := run (createSample (sampleRequest EmptyString)) sampleWorld in
  status a = 200 ∨ unreachable a ∨ liveProducts (tables w') = liveProducts sampleTables.
Proof.
  eapply refused_creation_leaves_nothing; [|vm_compute; reflexivity|vm_compute; reflexivity].
  assert (createSample ∈ samples) as Hs by left. exact Hs.
Defined.

Lemma creation_within_quota_witness :
  within (tables (run (CheckCreationQuota createSample (sampleRequest EmptyString)) sampleWorld).2) project.
Proof.
  apply (creation_within_quota (UL:=uuids) "spx-" zones config minMemory maxMemory (mkCreateVPCBody "vpc") (sampleSubnet "spx-3")
    (mkCreateEipBody "eip" "spx-3" someNetwork) (mkLoadBalancerBody "lb" (mkLoadBalancerSpec EmptyString EmptyString [] [] []))
    (mkSecurityGroupBody "sg" EmptyString (mkSecurityGroupSpec (mkLabelSelector [] []) [] [] [])) someDisk
    (mkCreateSnapshotBody "snapshot" (mkSnapshotSpec "spx-1" false 1 false [] 1)) (mkCreateVmSnapshotBody "vms" "spx-4")
    (mkCreateBucketBody "bucket" "fast" (mkBucketConfig None EmptyString EmptyString EmptyString))
    (mkCreateSSHBody "ssh" "ssh-ed25519") someInstance createSample (sampleRequest EmptyString) sampleTables 0 [] project).
  - left.
  - vm_compute. reflexivity.
  - vm_compute. reflexivity.
  - vm_compute. reflexivity.
  - vm_compute. discriminate.
  - intros l Hl. vm_compute in Hl. injection Hl as <-. vm_compute. discriminate.
Defined.

(** What a zone reports: an object of the project and one that no row has. *)
Definition reportedObject (id name : string) : json :=
  JObject {["id" := JString id; "eid" := JString ("eid-" +:+ name); "productName" := JString name; "gitops" := JString "true"]}.
Definition sampleReports : gmap string (list json) :=
  {["az1" := [reportedObject localKey "disk"; reportedObject "unknown" "argo"]]}.
Definition sampleRows : list DBProduct := map_to_list (products sampleTables).

Definition sampleList : list FullResponse := default [] (combineListResult ["disk"] sampleReports sampleRows).

Lemma sampleList_names : ProductName <$> (fr_Product <$> sampleList) = ["argo"; "disk"; "vpc"].
Proof. vm_compute. reflexivity. Qed.

Lemma combineListResult_complete_witness : Sorted product_le sampleList ∧ ∃ x, x ∈ sampleList ∧ ID (fr_Product x) = foreignKey.
Proof.
  assert (combineListResult ["disk"] sampleReports sampleRows = Some sampleList) as Hl by (vm_compute; reflexivity).
  destruct (combineListResult_complete ["disk"] sampleReports sampleRows sampleList Hl) as (Hs & _ & Hr & _).
  split; [exact Hs|]. apply (Hr (foreignKey, mkProduct "vpc" "spx-2" "az1" otherProject ProductTypeVPC false)).
  apply elem_of_map_to_list. vm_compute. reflexivity.
Defined.

Lemma SendProxy_request_witness : ∃ query,
  SendProxy (sampleRequest EmptyString) zone ApiPrefix None ([] : Sent) =
  client_Do (mkProxied "DELETE"
    (mkURL "https" "az1" ("/" +:+ organization +:+ "/" +:+ project +:+ "/vpc")
      (escape ("/" +:+ organization +:+ "/" +:+ project +:+ "/vpc")) query)
    "az1" "user" "Bearer secret" None) [].
Proof.
  apply (SendProxy_request (sampleRequest EmptyString) zone None (mkURL "https" "az1" EmptyString EmptyString EmptyString)
    ("/" +:+ organization) ("/" +:+ project +:+ "/vpc") []);
    try (vm_compute; reflexivity); try (vm_compute; discriminate).
  apply nowhereIn_first. vm_compute. reflexivity.
Defined.

Lemma ValidateComputeSize_bounds_witness :
  match ValidateComputeSize minMemory maxMemory 2 "512Mi" with
  | Ok q => 1 ≤ 2 ≤ 999999 ∧ ∃ mib, 128 ≤ mib ≤ 999999 * 1024 ∧ bytes q (mib * mebibyte) ∧
      ∃ p, ParseQuantity "512Mi" = Some p ∧ bytes p (mib * mebibyte)
  | Err _ => ¬ (1 ≤ 2 ≤ 999999) ∨ 64 < Z.of_nat (String.length "512Mi") ∨ noExponent "512Mi" = false ∨
      ∀ p mib, ParseQuantity "512Mi" = Some p → 128 ≤ mib ≤ 999999 * 1024 → ¬ bytes p (mib * mebibyte)
  end.
Proof. apply ValidateComputeSize_bounds; reflexivity. Defined.

Definition initialized : World Sent :=
  (InitializeProjectDefaultResources "spx-" zones config organization project sampleWorld).2.

Lemma InitializeProjectDefaultResources_complete_witness :
  keepsRows sampleWorld initialized ∧ hasProduct initialized ProductTypeSubnet "az1" project.
Proof.
  assert (InitializeProjectDefaultResources "spx-" zones config organization project sampleWorld = (Ok tt, initialized)) as Hr
    by (vm_compute; reflexivity).
  destruct (InitializeProjectDefaultResources_complete "spx-" zones config organization project _ _ Hr) as [Hk Hall].
  split; [exact Hk|]. apply (Hall zone). vm_compute. left.
Defined.
