(* ===== verification/AuditLog.v ===== *)
(** * The audit log of the API
      ([internal/db/crud/audit-event], [pkg/services/iam/auditlog], [pkg/config] of the API)

    The events of the audited requests, how they are searched, and how long they are kept. A statement
    on the tables may fail, as in [Database]; the tables of the audit log are what is outside its world.
    Dates and durations are in nanoseconds. *)

From S2P Require Import Prelude Strings Strconv Errors Database SpxId Router QuotaService Products.

(** ** Rows *)

Definition AuditStatusAttempted : string := "attempted".
Definition AuditStatusSuccess : string := "success".
Definition AuditStatusFailed : string := "failed".

(** [model.AuditEvent] without its key *)
Record AuditEvent := mkAuditEvent {
  ae_OrganizationId : option uuid; ae_ProjectId : option uuid;
  ae_EventType : string; ae_ResourceType : string; ae_ResourceId : option string;
  ae_UserId : option uuid; ae_UserEmail : option string; ae_AuthType : option string;
  ae_SourceIp : string; ae_RemoteAddr : string;
  ae_Status : string; ae_StatusCode : option Z; ae_RequestId : string;
  ae_StartedAt : Z; ae_CompletedAt : option Z }.

#[export] Instance AuditEvent_eq_dec : EqDecision AuditEvent.
Proof. solve_decision. Defined.

(** The columns of an organization that the audit log uses. *)
Record AuditedOrganization := mkAuditedOrganization { ao_AuditRetentionDays : option Z; ao_Deleted : bool }.

(** The tables, and the number of times that the clock and the context have been read. *)
Record Audits := mkAudits {
  au_events : gmap uuid AuditEvent;
  au_organizations : gmap uuid AuditedOrganization;
  au_emails : gmap uuid string;
  au_reads : nat }.

Definition set_events (f : gmap uuid AuditEvent → gmap uuid AuditEvent) (d : Audits) : Audits :=
  mkAudits (f (au_events d)) (au_organizations d) (au_emails d) (au_reads d).

Definition set_audited f (d : Audits) : Audits :=
  mkAudits (au_events d) (f (au_organizations d)) (au_emails d) (au_reads d).

Definition tick (d : Audits) : Audits :=
  mkAudits (au_events d) (au_organizations d) (au_emails d) (S (au_reads d)).

(** [uuid.New], [lower] of PostgreSQL, [time.Parse] of an RFC 3339 date and [time.Now]. *)
Class AuditEnv := {
  uuid_New : Audits → uuid;
  sql_lower : string → string;
  time_Parse : string → option Z;
  time_Now : nat → Z }.

(** ** Statements *)
Definition Now {AE : AuditEnv} : M Audits Z := λ w,
  (Ok (time_Now (au_reads (outside w))), with_outside w (tick (outside w))).

(** ** [crud/audit-event] *)
Section crud.
Context {AE : AuditEnv}.

Record Filter := mkFilter {
  f_OrganizationId : option uuid; f_NoOrganization : bool; f_ProjectId : option uuid;
  f_UserId : option uuid; f_UserEmail : string; f_EventTypes : list string; f_OtherThan : list string;
  f_ResourceType : string; f_ResourceId : string; f_Status : string;
  f_From : option Z; f_To : option Z; f_Limit : Z; f_Offset : Z }.

Record Completion := mkCompletion {
  c_Status : string; c_StatusCode : Z; c_CompletedAt : Z;
  c_OrganizationId : option uuid; c_ProjectId : option uuid; c_ResourceId : option string }.

Definition with_email (e : AuditEvent) (email : option string) : AuditEvent :=
  mkAuditEvent (ae_OrganizationId e) (ae_ProjectId e) (ae_EventType e) (ae_ResourceType e) (ae_ResourceId e)
    (ae_UserId e) email (ae_AuthType e) (ae_SourceIp e) (ae_RemoteAddr e) (ae_Status e) (ae_StatusCode e)
    (ae_RequestId e) (ae_StartedAt e) (ae_CompletedAt e).

(** The row that is inserted has the email of its user. *)
Definition resolved (emails : gmap uuid string) (e : AuditEvent) : AuditEvent :=
  with_email e (user ← ae_UserId e; emails !! user).

Definition Insert (event : AuditEvent) : M Audits uuid :=
  write_rows (λ d, let id := uuid_New d in (id, set_events <[id := resolved (au_emails d) event]> d)).

Definition completed (c : Completion) (e : AuditEvent) : AuditEvent :=
  mkAuditEvent (match c_OrganizationId c with Some o => Some o | None => ae_OrganizationId e end)
    (match c_ProjectId c with Some p => Some p | None => ae_ProjectId e end)
    (ae_EventType e) (ae_ResourceType e)
    (match c_ResourceId c with Some r => Some r | None => ae_ResourceId e end)
    (ae_UserId e) (ae_UserEmail e) (ae_AuthType e) (ae_SourceIp e) (ae_RemoteAddr e)
    (c_Status c) (Some (c_StatusCode c)) (ae_RequestId e) (ae_StartedAt e) (Some (c_CompletedAt c)).

Definition Finalize (id : uuid) (completion : Completion) : M Audits unit :=
  write_rows (λ d, (tt, set_events (alter (completed completion) id) d)).

(** One [WHERE]: a condition on a filter that is set. *)
Definition whenSome {A} (o : option A) (p : A → bool) : bool := match o with Some a => p a | None => true end.
Definition whenText (s : string) (p : bool) : bool := bool_decide (s = EmptyString) || p.

Definition applyFilter (f : Filter) (e : AuditEvent) : bool :=
  whenSome (f_OrganizationId f) (λ o, bool_decide (ae_OrganizationId e = Some o)) &&
  (negb (f_NoOrganization f) || bool_decide (ae_OrganizationId e = None)) &&
  whenSome (f_ProjectId f) (λ p, bool_decide (ae_ProjectId e = Some p)) &&
  whenSome (f_UserId f) (λ u, bool_decide (ae_UserId e = Some u)) &&
  whenText (f_UserEmail f) (bool_decide (sql_lower <$> ae_UserEmail e = Some (sql_lower (f_UserEmail f)))) &&
  match f_EventTypes f, f_OtherThan f with
  | _ :: _, _ :: _ => bool_decide (ae_EventType e ∈ f_EventTypes f) || bool_decide (ae_EventType e ∉ f_OtherThan f)
  | _ :: _, [] => bool_decide (ae_EventType e ∈ f_EventTypes f)
  | [], _ :: _ => bool_decide (ae_EventType e ∉ f_OtherThan f)
  | [], [] => true
  end &&
  whenText (f_ResourceType f) (bool_decide (ae_ResourceType e = f_ResourceType f)) &&
  whenText (f_ResourceId f) (bool_decide (ae_ResourceId e = Some (f_ResourceId f))) &&
  whenText (f_Status f) (bool_decide (ae_Status e = f_Status f)) &&
  whenSome (f_From f) (λ t, bool_decide (t ≤ ae_StartedAt e)) &&
  whenSome (f_To f) (λ t, bool_decide (ae_StartedAt e ≤ t)).

(** [started_at DESC, id DESC] *)
Definition newest_first (x y : uuid * AuditEvent) : Prop :=
  ae_StartedAt y.2 < ae_StartedAt x.2 ∨ ae_StartedAt x.2 = ae_StartedAt y.2 ∧ String.le y.1 x.1.

#[export] Instance newest_first_dec : RelDecision newest_first.
Proof. unfold newest_first. intros x y. apply _. Defined.

Definition matching (f : Filter) (events : gmap uuid AuditEvent) : list (uuid * AuditEvent) :=
  merge_sort newest_first (map_to_list (filter (λ kv, applyFilter f kv.2 = true) events)).

(** For gorm, a negative limit is no limit, and an offset that is not positive is no offset. *)
Definition page {A} (limit offset : Z) (l : list A) : list A :=
  let l := drop (Z.to_nat offset) l in if decide (0 ≤ limit) then firstn (Z.to_nat limit) l else l.

Definition List (f : Filter) : M Audits (list (uuid * AuditEvent) * Z) :=
  total ← read_rows (λ d, Z.of_nat (length (matching f (au_events d))));
  events ← read_rows (λ d, page (f_Limit f) (f_Offset f) (matching f (au_events d)));
  mret (events, total).

(** [SELECT id ... WHERE p AND started_at < cutoff ORDER BY started_at LIMIT limit]. Among events of the
    same date, the order of the table. *)
Definition oldest_first (x y : uuid * AuditEvent) : Prop := ae_StartedAt x.2 ≤ ae_StartedAt y.2.

#[export] Instance oldest_first_dec : RelDecision oldest_first.
Proof. unfold oldest_first. intros x y. apply _. Defined.

Definition expired (p : AuditEvent → bool) (cutoff : Z) (events : gmap uuid AuditEvent) : gmap uuid AuditEvent :=
  filter (λ kv, p kv.2 = true ∧ ae_StartedAt kv.2 < cutoff) events.

Definition expiredRows (p : AuditEvent → bool) (cutoff limit : Z) (events : gmap uuid AuditEvent) : list uuid :=
  (firstn (Z.to_nat limit) (merge_sort oldest_first (map_to_list (expired p cutoff events)))).*1.

(** [DELETE ... WHERE id IN], and the number of rows deleted. *)
Definition deleteRows (ids : list uuid) (d : Audits) : Z * Audits :=
  (Z.of_nat (length ids), set_events (λ m, foldr delete m ids) d).

Definition DeleteExpiredByOrganization (orgId : uuid) (cutoff limit : Z) : M Audits Z :=
  write_rows (λ d, deleteRows
    (expiredRows (λ e, bool_decide (ae_OrganizationId e = Some orgId)) cutoff limit (au_events d)) d).

Definition DeleteExpiredWithoutOrganization (cutoff limit : Z) : M Audits Z :=
  write_rows (λ d, deleteRows
    (expiredRows (λ e, bool_decide (ae_OrganizationId e = None)) cutoff limit (au_events d)) d).

(** The row of the organization exists and has its own retention. *)
Definition overrideOf (orgs : gmap uuid AuditedOrganization) (o : uuid) : option Z :=
  orgs !! o ≫= ao_AuditRetentionDays.

Definition DeleteExpiredDefault (cutoff limit : Z) : M Audits Z :=
  write_rows (λ d, deleteRows
    (expiredRows (λ e, match ae_OrganizationId e with
       | Some o => bool_decide (overrideOf (au_organizations d) o = None)
       | None => false end) cutoff limit (au_events d)) d).

(** ** [crud/organization] *)

Definition with_days (days : option Z) (o : AuditedOrganization) : AuditedOrganization :=
  if ao_Deleted o then o else mkAuditedOrganization days (ao_Deleted o).

Definition SetAuditRetentionDays (orgaId : uuid) (days : option Z) : M Audits unit :=
  write_rows (λ d, (tt, set_audited (alter (with_days days) orgaId) d)).

Definition overridden (orgs : gmap uuid AuditedOrganization) : list (uuid * Z) :=
  omap (λ kv, (λ days, (kv.1, days)) <$> ao_AuditRetentionDays kv.2) (map_to_list orgs).

(** The organizations with their own retention, the deleted ones included. *)
Definition FindAllWithAuditRetention : M Audits (list (uuid * Z)) :=
  read_rows (λ d, overridden (au_organizations d)).

(** [FindById(...).AuditRetentionDays], of an organization that is not deleted. *)
Definition storedRetention (orgaId : uuid) : M Audits (option Z) :=
  row ← read_rows (λ d, au_organizations d !! orgaId);
  match row with
  | Some o => if ao_Deleted o then fail ErrRecordNotFound else mret (ao_AuditRetentionDays o)
  | None => fail ErrRecordNotFound
  end.
End crud.
