(* ===== verification/AuditSweep.v ===== *)
(** * The deletion of old audit events ([internal/superphenix-api/internal/audit/gc/gc.go])

    The sweep that deletes the events past their retention, in batches, whatever the clock, the
    context and the statements do. A sweep always ends, deletes nothing that has not expired, and
    leaves nothing that has when it succeeds. *)

From S2P Require Import Prelude Strings Strconv Errors Database QuotaService AuditLog.

(** ** Configuration ([pkg/config]) *)

Record RetentionConfig := mkRetentionConfig { DefaultDays : Z; MinDays : Z; MaxDays : Z; UserDays : Z }.

Record GarbageCollectionConfig := mkGarbageCollectionConfig {
  gc_Enabled : bool; gc_Interval : Z; gc_Timeout : Z; gc_BatchSize : Z }.

Record AuditLogConfig := mkAuditLogConfig {
  al_Enabled : bool; al_Retention : RetentionConfig; al_GarbageCollection : GarbageCollectionConfig }.

Definition maxAuditLogBatchSize : Z := 50000.

Definition retentionErrors (r : RetentionConfig) : list string :=
  (if decide (MinDays r < 1 ∨ DefaultDays r < MinDays r ∨ MaxDays r < DefaultDays r)
   then ["auditLog.retention must satisfy 1 <= minDays <= defaultDays <= maxDays"] else []) ++
  (if decide (UserDays r < 1) then ["auditLog.retention.userDays must be at least 1"] else []).

Definition validate (a : AuditLogConfig) : list string :=
  if negb (al_Enabled a) then [] else
  let gc := al_GarbageCollection a in
  retentionErrors (al_Retention a) ++
  if negb (gc_Enabled gc) then [] else
  (if decide (gc_Interval gc ≤ 0 ∨ gc_Timeout gc ≤ 0)
   then ["auditLog.garbageCollection.interval and timeout must be positive"] else []) ++
  (if decide (gc_BatchSize gc < 1 ∨ maxAuditLogBatchSize < gc_BatchSize gc)
   then ["auditLog.garbageCollection.batchSize must be between 1 and " +:+ FormatInt maxAuditLogBatchSize] else []).

(** ** The sweep *)

(** [fmt.Errorf("...: %w", err)] *)
Definition Wrap (prefix : string) (e : error) : error := mkError (err_is e) (prefix +:+ err_text e).

(** [24 * time.Hour] *)
Definition day : Z := 24 * 3600 * 1000000000.

(** [-time.Duration(days) * day], a signed integer on 64 bits. *)
Definition retentionDuration (days : Z) : Z := wrap64 (wrap64 (- days) * day).

(** The advisory lock, and the error of the context each time that it is read. *)
Class SweepEnv := { TryLock : result error bool; ctx_Err : nat → option error }.

(** The count of the events deleted and the error; [None] when the fuel is not enough. *)
Abbreviation Swept := (option (Z * option error)).

Section sweep.
Context {AE : AuditEnv} {SE : SweepEnv} (cfg : AuditLogConfig).

Definition ctxErr : M Audits (option error) := λ w,
  (Ok (ctx_Err (au_reads (outside w))), with_outside w (tick (outside w))).

Definition cutoff (days : Z) : M Audits Z := now ← Now; mret (now + retentionDuration days).

(** A failed statement deletes nothing. *)
Fixpoint batches (fuel : nat) (deleteBatch : Z → M Audits Z) (batchSize total : Z) : M Audits Swept :=
  match fuel with
  | O => mret None
  | S fuel =>
    err ← ctxErr;
    match err with
    | Some e => mret (Some (total, Some e))
    | None =>
      r ← attempt (deleteBatch batchSize);
      match r with
      | Err e => mret (Some (total, Some e))
      | Ok deleted =>
        if decide (deleted < batchSize) then mret (Some (total + deleted, None))
        else batches fuel deleteBatch batchSize (total + deleted)
      end
    end
  end.

Definition deleteInBatches (fuel : nat) (deleteBatch : Z → M Audits Z) : M Audits Swept :=
  let batchSize := gc_BatchSize (al_GarbageCollection cfg) in
  if decide (batchSize < 1)
  then mret (Some (0, Some (errors_New ("batch size must be positive, got " +:+ FormatInt batchSize))))
  else batches fuel deleteBatch batchSize 0.

(** One part of the sweep, and the rest of it when it succeeds. *)
Definition andThen (what : string) (total : Z) (part : M Audits Swept) (rest : Z → M Audits Swept) : M Audits Swept :=
  r ← part;
  match r with
  | None => mret None
  | Some (deleted, Some e) => mret (Some (total + deleted, Some (Wrap (what +:+ ": ") e)))
  | Some (deleted, None) => rest (total + deleted)
  end.

(** Clamp to the current bounds. *)
Definition clamp (days : Z) : Z :=
  Z.min (Z.max days (MinDays (al_Retention cfg))) (MaxDays (al_Retention cfg)).

Definition organizationBatch (orgId : uuid) (days limit : Z) : M Audits Z :=
  c ← cutoff days; DeleteExpiredByOrganization orgId c limit.

Definition defaultBatch (limit : Z) : M Audits Z :=
  c ← cutoff (DefaultDays (al_Retention cfg)); DeleteExpiredDefault c limit.

Definition userBatch (limit : Z) : M Audits Z :=
  c ← cutoff (UserDays (al_Retention cfg)); DeleteExpiredWithoutOrganization c limit.

Definition sweepRest (fuel : nat) (total : Z) : M Audits Swept :=
  andThen "delete events on default retention" total (deleteInBatches fuel defaultBatch) (λ total,
  andThen "delete events without organization" total (deleteInBatches fuel userBatch) (λ total,
  mret (Some (total, None)))).

Fixpoint sweepOverrides (fuel : nat) (overrides : list (uuid * Z)) (total : Z) : M Audits Swept :=
  match overrides with
  | [] => sweepRest fuel total
  | (id, days) :: overrides =>
    andThen ("delete events of organization " +:+ id) total
      (deleteInBatches fuel (organizationBatch id (clamp days))) (sweepOverrides fuel overrides)
  end.

Definition Sweep (fuel : nat) : M Audits Swept :=
  match TryLock with
  | Err e => mret (Some (0, Some (Wrap "acquire sweep lock: " e)))
  | Ok false => mret (Some (0, None))
  | Ok true =>
    overrides ← attempt FindAllWithAuditRetention;
    match overrides with
    | Err e => mret (Some (0, Some (Wrap "list retention overrides: " e)))
    | Ok overrides => sweepOverrides fuel overrides 0
    end
  end.
End sweep.

(** ** What a sweep does to the events *)
Section swept.
Context {AE : AuditEnv} {SE : SweepEnv} (cfg : AuditLogConfig).

(** The [k]-th reading of the clock was made between the two states. *)
Definition read_between (d d' : Audits) (k : nat) : Prop := (au_reads d ≤ k < au_reads d')%nat.

(** From [d] to [d'], [n] events have gone, each of which satisfies [Q] for a reading of the clock that was
    made meanwhile; nothing else has changed. *)
Definition swept (Q : nat → AuditEvent → Prop) (d d' : Audits) (n : Z) : Prop :=
  (au_reads d ≤ au_reads d')%nat ∧
  au_organizations d' = au_organizations d ∧ au_events d' ⊆ au_events d ∧
  Z.of_nat (size (au_events d)) = Z.of_nat (size (au_events d')) + n ∧
  ∀ id e, au_events d !! id = Some e → au_events d' !! id = None → ∃ k, read_between d d' k ∧ Q k e.

Definition gone (R : AuditEvent → Prop) (d : Audits) : Prop := ∀ id e, au_events d !! id = Some e → ¬ R e.

(** How long the event is kept, in days. *)
Definition keptDays (orgs : gmap uuid AuditedOrganization) (e : AuditEvent) : Z :=
  match ae_OrganizationId e with
  | None => UserDays (al_Retention cfg)
  | Some o => match overrideOf orgs o with
              | Some days => clamp cfg days
              | None => DefaultDays (al_Retention cfg)
              end
  end.

(** The event has expired for the [k]-th reading of the clock. *)
Definition expiredAt (orgs : gmap uuid AuditedOrganization) (k : nat) (e : AuditEvent) : Prop :=
  ae_StartedAt e < time_Now k + retentionDuration (keptDays orgs e).

Lemma swept_refl Q d : swept Q d d 0.
Proof. split_and!; [done..|lia|congruence]. Qed.

Lemma swept_tick Q d d' n : swept Q (tick d) d' n → swept Q d d' n.
Proof.
  intros (Hr & Ho & Hs & Hn & Hq). simpl in *. split_and!; [lia|done..|].
  intros id e Hid Hd. destruct (Hq id e Hid Hd) as (k & Hk & HQ). exists k. split; [|done].
  unfold read_between in *. simpl in Hk. lia.
Qed.

Lemma swept_trans Q d1 d2 d3 n m : swept Q d1 d2 n → swept Q d2 d3 m → swept Q d1 d3 (n + m).
Proof.
  intros (Hr1 & Ho1 & Hs1 & Hn1 & Hq1) (Hr2 & Ho2 & Hs2 & Hn2 & Hq2). split_and!; [lia|congruence|by etrans|lia|].
  intros id e Hid H3. unfold read_between in *. destruct (au_events d2 !! id) as [e'|] eqn:H2.
  - assert (e' = e) as -> by (eapply lookup_weaken in H2; [|done]; congruence).
    destruct (Hq2 id e H2 H3) as (k & ? & ?). exists k. split; [lia|done].
  - destruct (Hq1 id e Hid H2) as (k & ? & ?). exists k. split; [lia|done].
Qed.

Lemma gone_swept Q R d d' n : gone R d → swept Q d d' n → gone R d'.
Proof. intros Hg (_ & _ & Hs & _) id e Hid. eapply Hg, lookup_weaken; done. Qed.

(** *** Batches *)

Lemma lookup_foldr_delete (ids : list uuid) (m : gmap uuid AuditEvent) id :
  foldr delete m ids !! id = if decide (id ∈ ids) then None else m !! id.
Proof.
  induction ids as [|i ids IH]; cbn [foldr].
  - case_decide as Hin; [by apply elem_of_nil in Hin | done].
  - destruct (decide (id = i)) as [->|Hne].
    + by rewrite lookup_delete_eq, decide_True by set_solver.
    + rewrite lookup_delete_ne, IH by done. repeat case_decide; set_solver.
Qed.

Lemma size_foldr_delete (ids : list uuid) (m : gmap uuid AuditEvent) :
  NoDup ids → (∀ id, id ∈ ids → is_Some (m !! id)) →
  (size m = size (foldr delete m ids) + length ids)%nat.
Proof.
  induction ids as [|i ids IH]; intros Hnd Hin; simpl; [lia|].
  apply NoDup_cons in Hnd as [Hi Hnd]. rewrite (IH Hnd) by (intros; apply Hin; set_solver).
  assert (is_Some (foldr delete m ids !! i)) as [x Hx].
  { rewrite lookup_foldr_delete, decide_False by done. apply Hin. set_solver. }
  rewrite <-(insert_delete_id _ _ _ Hx) at 1.
  rewrite map_size_insert_None by apply lookup_delete_eq. lia.
Qed.

Section rows.
Context (p : AuditEvent → bool) (c limit : Z) (events : gmap uuid AuditEvent).

Lemma sorted_rows : merge_sort oldest_first (map_to_list (expired p c events)) ≡ₚ map_to_list (expired p c events).
Proof. apply merge_sort_Permutation. Qed.

Lemma expiredRows_in id : id ∈ expiredRows p c limit events → ∃ e, expired p c events !! id = Some e.
Proof.
  unfold expiredRows. rewrite list_elem_of_fmap. intros ([i e] & -> & Hin).
  exists e. rewrite <-elem_of_map_to_list, <-sorted_rows. by eapply subseteq_take.
Qed.

Lemma expiredRows_NoDup : NoDup (expiredRows p c limit events).
Proof.
  unfold expiredRows. rewrite fmap_take. eapply sublist_NoDup; [|apply sublist_take].
  rewrite sorted_rows. apply NoDup_fst_map_to_list.
Qed.

(** A batch that comes back short has deleted every expired row. *)
Lemma expiredRows_short id e :
  0 ≤ limit → Z.of_nat (length (expiredRows p c limit events)) < limit → expired p c events !! id = Some e →
  id ∈ expiredRows p c limit events.
Proof.
  unfold expiredRows. rewrite length_fmap. intros Hl Hshort Hid.
  rewrite length_take in Hshort. rewrite take_ge by lia.
  apply list_elem_of_fmap. exists (id, e). split; [done|].
  by rewrite sorted_rows, elem_of_map_to_list.
Qed.
End rows.

(** What a statement that deletes a batch does when it succeeds. *)
Lemma deleteRows_swept p c limit d :
  0 ≤ limit →
  let '(n, d') := deleteRows (expiredRows p c limit (au_events d)) d in
  let Q e := p e = true ∧ ae_StartedAt e < c in
  au_reads d' = au_reads d ∧ au_organizations d' = au_organizations d ∧ au_events d' ⊆ au_events d ∧
  Z.of_nat (size (au_events d)) = Z.of_nat (size (au_events d')) + n ∧
  (∀ id e, au_events d !! id = Some e → au_events d' !! id = None → Q e) ∧ 0 ≤ n ∧ (n < limit → gone Q d').
Proof.
  intros Hl. unfold deleteRows. set (ids := expiredRows p c limit (au_events d)).
  split; [done|]. split; [done|]. split_and!; [..|lia|].
  - apply map_subseteq_spec. intros id e. simpl. rewrite lookup_foldr_delete. by case_decide.
  - simpl. rewrite (size_foldr_delete ids (au_events d)); [lia|apply expiredRows_NoDup|].
    intros id [e [? _]%map_lookup_filter_Some]%expiredRows_in. eauto.
  - intros id e Hid. simpl. rewrite lookup_foldr_delete. case_decide as Hin; [|congruence]. intros _.
    apply expiredRows_in in Hin as [e' [? ?]%map_lookup_filter_Some]. by simplify_eq.
  - intros Hn id e. simpl. rewrite lookup_foldr_delete. case_decide as Hin; [done|]. intros Hid HQ.
    apply Hin, (expiredRows_short p c limit (au_events d) id e); [done..|].
    by apply map_lookup_filter_Some.
Qed.

(** A batch run on organizations [orgs]: what it deletes, whatever fails, and what is left when it
    comes back short. *)
Definition batch (orgs : gmap uuid AuditedOrganization) (Q : nat → AuditEvent → Prop) (R : AuditEvent → Prop)
    (m : Z → M Audits Z) : Prop :=
  ∀ limit w, 0 < limit → au_organizations (outside w) = orgs →
  match m limit w with
  | (Err _, w') => swept Q (outside w) (outside w') 0
  | (Ok n, w') => swept Q (outside w) (outside w') n ∧ 0 ≤ n ∧ (n < limit → gone R (outside w'))
  end.

Lemma batch_deletes orgs (Q : nat → AuditEvent → Prop) (R : AuditEvent → Prop) (p : AuditEvent → bool) (days : Z)
    (P : gmap uuid AuditedOrganization → AuditEvent → bool) (del : Z → Z → M Audits Z) :
  (∀ c limit, del c limit = write_rows (λ d, deleteRows (expiredRows (P (au_organizations d)) c limit (au_events d)) d)) →
  (∀ e, P orgs e = p e) →
  (∀ k e, p e = true → ae_StartedAt e < time_Now k + retentionDuration days → Q k e) →
  (∀ e, R e → p e = true ∧ ∀ k, ae_StartedAt e < time_Now k + retentionDuration days) →
  batch orgs Q R (λ limit, c ← cutoff days; del c limit).
Proof.
  intros Hdel HP HQ HR limit w Hl Ho.
  set (c := time_Now (au_reads (outside w)) + retentionDuration days).
  set (w1 := with_outside w (tick (outside w))).
  assert ((c ← cutoff days; del c limit) w = del c limit w1) as -> by done.
  rewrite Hdel, write_rows_eq. pose proof (statement_same w1) as (_ & _ & Hs).
  destruct (statement w1) as [[[]|e] w2]; cbn [snd] in Hs.
  - assert (au_organizations (outside w2) = orgs) as Ho2 by (by rewrite <-Hs).
    pose proof (deleteRows_swept (P (au_organizations (outside w2))) c limit (outside w2) ltac:(lia)) as Hd.
    destruct (deleteRows _ _) as [n d']. destruct Hd as (Hr & Hog & Hsub & Hsz & Hq & Hn & Hg).
    rewrite Ho2 in Hq, Hg. split; [|split; [done|]].
    + cbn [outside with_outside]. unfold swept, read_between. rewrite Hr, Hog, <-Hs. split_and!; [simpl; lia|done|by rewrite <-Hs in Hsub|by rewrite <-Hs in Hsz|].
      intros id e Hid Hd. rewrite <-Hs in Hq. destruct (Hq id e Hid Hd) as [He Hc]. rewrite HP in He.
      exists (au_reads (outside w)). split; [simpl; lia|by apply HQ].
    + intros Hshort id e Hid He. apply HR in He as [He Hc]. eapply Hg; [done|done|].
      cbn beta. rewrite HP. split; [done|]. apply Hc.
  - rewrite <-Hs. apply swept_tick, swept_refl.
Qed.

(** *** Parts of a sweep *)

(** A part of a sweep that has already deleted [total] events, run with enough fuel on the
    organizations [orgs]: it ends, counts what it deletes, and when it succeeds leaves no event
    that satisfies [R]. *)
Definition sweeps (orgs : gmap uuid AuditedOrganization) (Q : nat → AuditEvent → Prop) (R : AuditEvent → Prop) (fuel : nat) (total : Z)
    (m : M Audits Swept) : Prop :=
  ∀ w, au_organizations (outside w) = orgs → (size (au_events (outside w)) < fuel)%nat →
  ∃ n err w', m w = (Ok (Some (total + n, err)), w') ∧ swept Q (outside w) (outside w') n ∧
    (err = None → gone R (outside w')).

Lemma sweeps_batches orgs Q R del limit fuel total :
  batch orgs Q R del → 0 < limit → sweeps orgs Q R fuel total (batches fuel del limit total).
Proof.
  intros Hb Hl. revert total. induction fuel as [|fuel IH]; intros total w Ho Hf; [lia|].
  cbn [batches]. unfold ctxErr at 1. rewrite bind_eq. cbn -[batches].
  set (w1 := with_outside w (tick (outside w))).
  assert (swept Q (outside w) (outside w1) 0) as Hw1 by apply swept_tick, swept_refl.
  destruct (ctx_Err _) as [e|].
  { exists 0, (Some e), w1. rewrite Z.add_0_r. split_and!; done. }
  rewrite bind_eq. unfold attempt. specialize (Hb limit w1 Hl Ho).
  destruct (del limit w1) as [[n|e] w2]; cbn -[batches].
  - destruct Hb as (Hsw & Hn & Hg). assert (swept Q (outside w) (outside w2) n) as Hw2 by (by apply swept_tick).
    case_decide as Hd.
    + exists n, None, w2. split_and!; [done..|]. eauto.
    + pose proof Hw2 as (_ & Ho2 & Hs2 & Hsz & _).
      destruct (IH (total + n) w2) as (m & err & w' & -> & Hm & Hr); [congruence|lia|].
      exists (n + m), err, w'. rewrite Z.add_assoc. split_and!; [done| |done].
      eapply swept_trans, Hm. done.
  - exists 0, (Some e), w2. rewrite Z.add_0_r. split_and!; [done|by apply swept_tick|done].
Qed.

Lemma sweeps_deleteInBatches orgs Q R del fuel :
  batch orgs Q R del → sweeps orgs Q R fuel 0 (deleteInBatches cfg fuel del).
Proof.
  intros Hb. unfold deleteInBatches. case_decide.
  - intros w Ho Hf. eexists 0, _, w. split_and!; [done|apply swept_refl|done].
  - apply sweeps_batches; [done|lia].
Qed.

Lemma sweeps_andThen orgs Q R1 R2 fuel what total part rest :
  sweeps orgs Q R1 fuel 0 part → (∀ total, sweeps orgs Q R2 fuel total (rest total)) →
  sweeps orgs Q (λ e, R1 e ∨ R2 e) fuel total (andThen what total part rest).
Proof.
  intros Hp Hrest w Ho Hf. destruct (Hp w Ho Hf) as (n & err & w1 & Hr & Hsw & Hg).
  unfold andThen. rewrite (bind_run _ _ _ _ _ Hr), Z.add_0_l. destruct err as [e|].
  - eexists n, _, w1. done.
  - pose proof Hsw as (_ & Ho1 & Hs1 & Hsz & _). apply map_subseteq_size in Hs1.
    destruct (Hrest (total + n) w1) as (m & err & w' & -> & Hm & Hg'); [congruence|lia|].
    exists (n + m), err, w'. rewrite Z.add_assoc. split_and!; [done|by eapply swept_trans|].
    intros ->. specialize (Hg eq_refl). specialize (Hg' eq_refl). intros id e Hid [?|?].
    + by eapply (gone_swept _ R1).
    + by eapply Hg'.
Qed.

Lemma sweeps_weaken orgs Q (R R' : AuditEvent → Prop) fuel total m :
  (∀ e, R' e → R e) → sweeps orgs Q R fuel total m → sweeps orgs Q R' fuel total m.
Proof.
  intros HR Hm w Ho Hf. destruct (Hm w Ho Hf) as (n & err & w' & ? & ? & Hg). exists n, err, w'.
  split_and!; [done..|]. intros He id e Hid ?%HR. by eapply Hg.
Qed.

Lemma sweeps_done orgs Q R fuel total :
  (∀ e, ¬ R e) → sweeps orgs Q R fuel total (mret (Some (total, None))).
Proof.
  intros HR w Ho Hf. exists 0, None, w. rewrite Z.add_0_r. split_and!; [done|apply swept_refl|].
  intros _ id e _. apply HR.
Qed.

(** *** The whole sweep *)
Section organizations.
Context (orgs : gmap uuid AuditedOrganization) (fuel : nat).

(** What a sweep may delete, and what it must. *)
Abbreviation mayGo := (expiredAt orgs).
Definition mustGo (e : AuditEvent) : Prop := ∀ k, expiredAt orgs k e.

Lemma organization_batch id days :
  overrideOf orgs id = Some days →
  batch orgs mayGo (λ e, ae_OrganizationId e = Some id ∧ mustGo e) (organizationBatch id (clamp cfg days)).
Proof.
  intros Hid. apply (batch_deletes _ _ _ (λ e, bool_decide (ae_OrganizationId e = Some id)) (clamp cfg days)
    (λ _ e, bool_decide (ae_OrganizationId e = Some id))); [done..| |].
  - intros k e He%bool_decide_eq_true Hk. unfold expiredAt, keptDays. by rewrite He, Hid.
  - intros e [He Hm]. split; [by apply bool_decide_eq_true|]. intros k. specialize (Hm k).
    unfold expiredAt, keptDays in Hm. by rewrite He, Hid in Hm.
Qed.

Lemma default_batch :
  batch orgs mayGo (λ e, (∃ o, ae_OrganizationId e = Some o ∧ overrideOf orgs o = None) ∧ mustGo e) (defaultBatch cfg).
Proof.
  apply (batch_deletes _ _ _ (λ e, match ae_OrganizationId e with
       | Some o => bool_decide (overrideOf orgs o = None) | None => false end) (DefaultDays (al_Retention cfg))
    (λ orgs e, match ae_OrganizationId e with
       | Some o => bool_decide (overrideOf orgs o = None) | None => false end)); [done..| |].
  - intros k e He Hk. unfold expiredAt, keptDays. destruct (ae_OrganizationId e) as [o|]; [|done].
    apply bool_decide_eq_true in He. by rewrite He.
  - intros e [(o & He & Ho) Hm]. rewrite He. split; [by apply bool_decide_eq_true|]. intros k. specialize (Hm k).
    unfold expiredAt, keptDays in Hm. by rewrite He, Ho in Hm.
Qed.

Lemma user_batch : batch orgs mayGo (λ e, ae_OrganizationId e = None ∧ mustGo e) (userBatch cfg).
Proof.
  apply (batch_deletes _ _ _ (λ e, bool_decide (ae_OrganizationId e = None)) (UserDays (al_Retention cfg))
    (λ _ e, bool_decide (ae_OrganizationId e = None))); [done..| |].
  - intros k e He%bool_decide_eq_true Hk. unfold expiredAt, keptDays. by rewrite He.
  - intros e [He Hm]. split; [by apply bool_decide_eq_true|]. intros k. specialize (Hm k).
    unfold expiredAt, keptDays in Hm. by rewrite He in Hm.
Qed.

(** The events whose retention is not that of one of the organizations [l]. *)
Definition notOf (l : list (uuid * Z)) (e : AuditEvent) : Prop :=
  match ae_OrganizationId e with Some o => overrideOf orgs o = None ∨ o ∈ l.*1 | None => True end.

Lemma sweepOverrides_sweeps l total :
  (∀ id days, (id, days) ∈ l → overrideOf orgs id = Some days) →
  sweeps orgs mayGo (λ e, notOf l e ∧ mustGo e) fuel total (sweepOverrides cfg fuel l total).
Proof.
  revert total. induction l as [|[id days] l IH]; intros total Hl; cbn [sweepOverrides].
  - unfold sweepRest. eapply sweeps_weaken; [|apply sweeps_andThen;
      [apply sweeps_deleteInBatches, default_batch | intros total'; apply sweeps_andThen;
        [apply sweeps_deleteInBatches, user_batch | intros total''; apply (sweeps_done _ _ (λ _, False)); auto]]].
    intros e [Hn Hm]. unfold notOf in Hn. destruct (ae_OrganizationId e) as [o|] eqn:He.
    + destruct Hn as [?|[]%not_elem_of_nil]. left. eauto.
    + right. by left.
  - eapply sweeps_weaken; [|apply sweeps_andThen;
      [apply sweeps_deleteInBatches, (organization_batch id days); apply Hl; by left | intros total'; apply IH]].
    + intros e [Hn Hm]. unfold notOf in *. destruct (ae_OrganizationId e) as [o|] eqn:He; [|by right].
      destruct Hn as [?|Hin]; [by right; auto|]. cbn in Hin. apply elem_of_cons in Hin as [->|?]; [by left|].
      right. auto.
    + intros id' days' Hin. apply Hl. by right.
Qed.

Lemma elem_of_overridden id days : (id, days) ∈ overridden orgs ↔ overrideOf orgs id = Some days.
Proof.
  unfold overridden, overrideOf. rewrite list_elem_of_omap. split.
  - intros ([i o] & Hin%elem_of_map_to_list & Ho). simpl in *. destruct (ao_AuditRetentionDays o) eqn:Hd;
      simplify_eq/=. by rewrite Hin.
  - intros (o & Hid & Ho)%bind_Some. exists (id, o). rewrite elem_of_map_to_list. simpl. by rewrite Ho.
Qed.
End organizations.
End swept.

(** ** More fuel does not change a sweep *)
Section fuel.
Context {AE : AuditEnv} {SE : SweepEnv} (cfg : AuditLogConfig).

(** [m'] answers what [m] answers, when [m] has enough fuel. *)
Definition continues (m m' : M Audits Swept) : Prop :=
  ∀ w r w', m w = (Ok (Some r), w') → m' w = (Ok (Some r), w').

Lemma batches_continues fuel k del limit total :
  continues (batches fuel del limit total) (batches (fuel + k) del limit total).
Proof.
  revert total. induction fuel as [|fuel IH]; intros total w r w'; [done|]. cbn [batches Nat.add].
  unfold ctxErr. rewrite !bind_eq. cbn -[batches]. destruct (ctx_Err _); [done|].
  unfold attempt. rewrite !bind_eq. destruct (del limit _) as [[n|e] w1]; cbn -[batches]; [|done].
  case_decide; [done|]. apply IH.
Qed.

Lemma deleteInBatches_continues fuel k del :
  continues (deleteInBatches cfg fuel del) (deleteInBatches cfg (fuel + k) del).
Proof. unfold deleteInBatches. case_decide; [by intros w r w'|]. apply batches_continues. Qed.

Lemma andThen_continues what total part part' rest rest' :
  continues part part' → (∀ total, continues (rest total) (rest' total)) →
  continues (andThen what total part rest) (andThen what total part' rest').
Proof.
  intros Hp Hr w r w'. unfold andThen. rewrite !bind_eq. specialize (Hp w).
  destruct (part w) as [[[[n err]|]|e] w1]; [|done..].
  erewrite Hp by done. destruct err; [done|]. apply Hr.
Qed.

Lemma sweepOverrides_continues fuel k l total :
  continues (sweepOverrides cfg fuel l total) (sweepOverrides cfg (fuel + k) l total).
Proof.
  revert total. induction l as [|[id days] l IH]; intros total; cbn [sweepOverrides]; unfold sweepRest;
    repeat (apply andThen_continues; [apply deleteInBatches_continues|intros ?]); [by intros w r w'|apply IH].
Qed.

Lemma Sweep_continues fuel k : continues (Sweep cfg fuel) (Sweep cfg (fuel + k)).
Proof.
  unfold Sweep. destruct TryLock as [[]|]; [|by intros w r w'..].
  intros w r w'. rewrite !bind_eq. destruct (attempt _ w) as [[[l|e]|e] w1]; [|done..].
  apply sweepOverrides_continues.
Qed.
End fuel.

(** ** Theorems *)
Section theorems.
Context {AE : AuditEnv} {SE : SweepEnv} (cfg : AuditLogConfig).

(** What a sweep does, from any state: with more fuel than there are events it ends. *)
Lemma Sweep_sweeps fuel w :
  (size (au_events (outside w)) < fuel)%nat →
  ∃ n err w', Sweep cfg fuel w = (Ok (Some (n, err)), w') ∧
    swept (expiredAt cfg (au_organizations (outside w))) (outside w) (outside w') n ∧
    (err = None → TryLock = Ok true → gone (mustGo cfg (au_organizations (outside w))) (outside w')).
Proof.
  intros Hf. unfold Sweep. destruct TryLock as [[]|e].
  - rewrite bind_eq. unfold attempt, FindAllWithAuditRetention, read_rows. rewrite bind_eq.
    pose proof (statement_same w) as (_ & _ & Hs). destruct (statement w) as [[[]|e] w1]; cbn in Hs.
    + cbn -[sweepOverrides]. rewrite <-Hs.
      destruct (sweepOverrides_sweeps cfg (au_organizations (outside w)) fuel (overridden (au_organizations (outside w))) 0
        ltac:(intros; by apply elem_of_overridden) w1) as (n & err & w' & Hr & Hsw & Hg);
        [by rewrite Hs | by rewrite <-Hs |].
      exists n, err, w'. rewrite <-Hs in Hsw. split_and!; [done..|].
      intros He _ id e Hid Hm. apply (Hg He id e Hid). split; [|done]. unfold notOf.
      destruct (ae_OrganizationId e) as [o|]; [|done].
      destruct (overrideOf (au_organizations (outside w)) o) as [days|] eqn:Ho; [|by left].
      right. apply list_elem_of_fmap. exists (o, days). split; [done|]. by apply elem_of_overridden.
    + eexists 0, _, w1. split_and!; [done| |done]. rewrite <-Hs. apply swept_refl.
  - exists 0, None, w. split_and!; [done|apply swept_refl|done].
  - eexists 0, _, w. split_and!; [done|apply swept_refl|done].
Qed.


Lemma retentionDuration_exact days : 0 ≤ days * day ≤ MaxInt64 → retentionDuration days = - (days * day).
Proof.
  unfold retentionDuration, day. intros Hd.
  rewrite (wrap64_id (- days)) by (unfold int64, MinInt64, MaxInt64 in *; lia).
  rewrite wrap64_id by (unfold int64, MinInt64, MaxInt64 in *; lia). lia.
Qed.

(** C14: the sweep of the audit log always terminates, whatever the clock, the context, the lock and the
    statements do: beyond the number of events, its answer and its effect do not depend on the fuel. It
    counts exactly the events that it deletes and changes nothing else. Every event that it deletes was
    older, at a reading of the clock made during this sweep, than the days that it is kept: those of its
    organization, clamped, the default ones, or those of the users, for any number of days up to 106751,
    beyond which the product overflows. *)
Theorem Sweep_terminates w :
  ∃ n err w',
    (∀ fuel, (size (au_events (outside w)) < fuel)%nat → Sweep cfg fuel w = (Ok (Some (n, err)), w')) ∧
    n = Z.of_nat (size (au_events (outside w))) - Z.of_nat (size (au_events (outside w'))) ∧
    au_organizations (outside w') = au_organizations (outside w) ∧
    au_events (outside w') ⊆ au_events (outside w) ∧
    ∀ id e, au_events (outside w) !! id = Some e → au_events (outside w') !! id = None →
      let days := keptDays cfg (au_organizations (outside w)) e in
      ∃ k, read_between (outside w) (outside w') k ∧
        (0 ≤ days ≤ 106751 → ae_StartedAt e < time_Now k - days * 24 * 3600 * 1000000000).
Proof.
  destruct (Sweep_sweeps (S (size (au_events (outside w)))) w) as (n & err & w' & Hr & (_ & ? & ? & ? & Hq) & _); [lia|].
  exists n, err, w'. split_and!; [|lia|done..|].
  - intros fuel Hf.
    replace fuel with (S (size (au_events (outside w))) + (fuel - S (size (au_events (outside w)))))%nat by lia.
    by apply Sweep_continues.
  - intros id e Hid Hd days. destruct (Hq id e Hid Hd) as (k & Hk & He). exists k. split; [done|]. intros Hdays.
    unfold expiredAt in He. fold days in He. rewrite retentionDuration_exact in He by (unfold day, MaxInt64; lia).
    unfold day in He. lia.
Qed.

End theorems.
