(* ===== verification/AuditService.v ===== *)
(** * The endpoints of the audit log
      ([internal/superphenix-api/pkg/services/iam/auditlog])

    What can be asked of the audit log: the events of an organization, those of a user outside the
    organizations, the types of events that exist, and how long the events are kept. A user only ever
    sees their own events, an organization its own; the pages of a search are a partition of what it
    finds; and the retention that an organization is told is the one that the sweep applies. *)

From S2P Require Import Prelude Strings Strconv Errors Database SpxId Router QuotaService AuditLog AuditSweep.

(** ** The types of events *)

Definition OtherEventType : string := "other".

Record EventTypeItem := mkEventType {
  et_EventType : string; et_ResourceType : string; et_ResourceLabel : string; et_Action : string }.

Record catalogue := mkCatalogue { items : list EventTypeItem; seen : gset string }.

Definition newCatalogue : catalogue := mkCatalogue [] ∅.

Definition add (c : catalogue) (audit : Audit) : catalogue :=
  let eventType := EventType audit in
  if decide (eventType ∈ seen c) then c
  else mkCatalogue
    (items c ++ [mkEventType eventType (res_Name (a_Resource audit)) (res_Label (a_Resource audit)) (a_Action audit)])
    (seen c ∪ {[eventType]}).

(** The types to match, and those that an other event must not have. *)
Definition resolveOther (c : catalogue) (eventTypes : list string) : list string * list string :=
  let kept := filter (λ t, t ≠ OtherEventType) eventTypes in
  if decide (length kept = length eventTypes) then (kept, []) else (kept, et_EventType <$> items c).

(** By label, then action; the order of two types with the same ones is not specified. *)
Definition byResource (a b : EventTypeItem) : Prop :=
  et_ResourceLabel a ≠ et_ResourceLabel b ∧ String.le (et_ResourceLabel a) (et_ResourceLabel b) ∨
  et_ResourceLabel a = et_ResourceLabel b ∧ String.le (et_Action a) (et_Action b).

#[export] Instance byResource_dec : RelDecision byResource.
Proof. unfold byResource. intros a b. apply _. Defined.

Definition sort_items (c : catalogue) : catalogue := mkCatalogue (merge_sort byResource (items c)) (seen c).

(** The catalogue of the organizations and that of the users. *)
Definition buildCatalogues (declared : list RouteInfo) : catalogue * catalogue :=
  let '(organization, user) := foldl (λ '(organization, user) info,
    match ri_Audit info with
    | None => (organization, user)
    | Some audit =>
      if a_Skip audit then (organization, user)
      else if OrganizationScoped info then (add organization audit, user)
      else (organization, add user audit)
    end) (newCatalogue, newCatalogue) declared in
  (sort_items organization, sort_items user).

(** ** Requests *)

Definition defaultLimit : Z := 25.
Definition maxLimit : Z := 100.
Definition maxFilterLength : Z := 255.
Definition maxEventTypes : Z := 50.
Definition maxOffset : Z := 2147483647.

(** [url.Values]: each key has at least a value. *)
Abbreviation Values := (gmap string (list string)).

Section requests.
Context {UL : UUIDLib} {AE : AuditEnv}.

Definition QueryArray (q : Values) (key : string) : list string := default [] (q !! key).
Definition Query (q : Values) (key : string) : string := default EmptyString (head (QueryArray q key)).

Definition queryUUID (q : Values) (key : string) : result string (option uuid) :=
  let value := Query q key in
  if decide (value = EmptyString) then Ok None else
  match uuid_Parse value with
  | None => Err (key +:+ " must be a UUID")
  | Some parsed => Ok (Some (uuid_String parsed))
  end.

Definition queryTime (q : Values) (key : string) : result string (option Z) :=
  let value := Query q key in
  if decide (value = EmptyString) then Ok None else
  match time_Parse value with
  | None => Err (key +:+ " must be an RFC 3339 date")
  | Some parsed => Ok (Some parsed)
  end.

Definition queryInt (q : Values) (key : string) (fallback lowest highest : Z) : result string Z :=
  let value := Query q key in
  let msg := key +:+ " must be an integer between " +:+ FormatInt lowest +:+ " and " +:+ FormatInt highest in
  if decide (value = EmptyString) then Ok fallback else
  match ParseInt value with
  | None => Err msg
  | Some parsed => if decide (parsed < lowest ∨ highest < parsed) then Err msg else Ok parsed
  end.

Definition queryText (q : Values) (key : string) : result string string :=
  let value := Query q key in
  if decide (maxFilterLength < Z.of_nat (String.length value))
  then Err (key +:+ " must be at most " +:+ FormatInt maxFilterLength +:+ " characters") else Ok value.

Definition validStatus (status : string) : bool :=
  bool_decide (status ∈ [EmptyString; AuditStatusAttempted; AuditStatusSuccess; AuditStatusFailed]).

(** The error of a value, if any, and the value, or the zero one. *)
Definition errorOf {A} (r : result string A) : list string := match r with Ok _ => [] | Err e => [e] end.
Definition valueOf {A} (zero : A) (r : result string A) : A := match r with Ok a => a | Err _ => zero end.

Definition eventTypeErrors (eventTypes : list string) : list string :=
  (if decide (maxEventTypes < Z.of_nat (length eventTypes))
   then ["eventType accepts at most " +:+ FormatInt maxEventTypes +:+ " values"] else []) ++
  (if decide (Exists (λ t, maxFilterLength < Z.of_nat (String.length t)) eventTypes)
   then ["eventType must be at most " +:+ FormatInt maxFilterLength +:+ " characters"] else []).

Definition rangeErrors (from to : option Z) : list string :=
  match from, to with
  | Some f, Some t => if decide (t < f) then ["from must not be after to"] else []
  | _, _ => []
  end.

(** [errors.Join], on one line each. *)
Definition newline : string := String (Ascii.ascii_of_N 10) EmptyString.

Definition parseFilter (q : Values) : result string Filter :=
  let projectId := queryUUID q "projectId" in
  let userId := queryUUID q "userId" in
  let from := queryTime q "from" in
  let to := queryTime q "to" in
  let userEmail := queryText q "userEmail" in
  let resourceType := queryText q "resourceType" in
  let resourceId := queryText q "resourceId" in
  let limit := queryInt q "limit" defaultLimit 1 maxLimit in
  let offset := queryInt q "offset" 0 0 maxOffset in
  let status := Query q "status" in
  let eventTypes := QueryArray q "eventType" in
  let errs := errorOf projectId ++ errorOf userId ++ errorOf from ++ errorOf to ++ errorOf userEmail ++
    errorOf resourceType ++ errorOf resourceId ++ errorOf limit ++ errorOf offset ++
    (if validStatus status then [] else ["status must be attempted, success or failed"]) ++
    eventTypeErrors eventTypes ++ rangeErrors (valueOf None from) (valueOf None to) in
  match errs with
  | [] => Ok (mkFilter None false (valueOf None projectId) (valueOf None userId) (valueOf EmptyString userEmail)
      eventTypes [] (valueOf EmptyString resourceType) (valueOf EmptyString resourceId) status
      (valueOf None from) (valueOf None to) (valueOf 0 limit) (valueOf 0 offset))
  | _ => Err (join newline errs)
  end.
End requests.

(** ** Answers *)

Record Retention := mkRetention {
  rt_RetentionDays : Z; rt_IsDefault : bool; rt_DefaultDays : Z; rt_MinDays : Z; rt_MaxDays : Z }.

#[export] Instance Retention_eq_dec : EqDecision Retention.
Proof. solve_decision. Defined.

(** An event as returned by the API has its key and all its columns but the address of the peer. *)
Definition toEvent (e : uuid * AuditEvent) : uuid * AuditEvent :=
  let e' := e.2 in
  (e.1, mkAuditEvent (ae_OrganizationId e') (ae_ProjectId e') (ae_EventType e') (ae_ResourceType e') (ae_ResourceId e')
    (ae_UserId e') (ae_UserEmail e') (ae_AuthType e') (ae_SourceIp e') EmptyString (ae_Status e') (ae_StatusCode e')
    (ae_RequestId e') (ae_StartedAt e') (ae_CompletedAt e')).

Inductive reply :=
  | Refused (status : Z) (message : string)
  | Events (l : list (uuid * AuditEvent)) (total limit offset : Z)
  | EventTypes (l : list EventTypeItem)
  | RetentionReply (r : Retention)
  | UserRetentionReply (days : Z).

Section service.
Context {UL : UUIDLib} {AE : AuditEnv} (cfg : AuditLogConfig) (declared : list RouteInfo).

Definition catalogueFor (forOrganization : bool) : catalogue :=
  let '(organization, user) := buildCatalogues declared in if forOrganization then organization else user.

Definition scoped (f : Filter) (organization : option uuid) (noOrganization : bool) (project user : option uuid)
    (email : string) (kept other : list string) : Filter :=
  mkFilter organization noOrganization project user email kept other (f_ResourceType f) (f_ResourceId f) (f_Status f)
    (f_From f) (f_To f) (f_Limit f) (f_Offset f).

Definition writeEvents (f : Filter) (c : catalogue) : M Audits reply :=
  let '(kept, otherThan) := resolveOther c (f_EventTypes f) in
  let f := scoped f (f_OrganizationId f) (f_NoOrganization f) (f_ProjectId f) (f_UserId f) (f_UserEmail f) kept otherThan in
  r ← attempt (List f);
  mret match r with
  | Err _ => Refused 500 "Failed to list audit events"
  | Ok (events, total) => Events (toEvent <$> events) total (f_Limit f) (f_Offset f)
  end.

Definition notUUID : reply := Refused 400 "orgaId must be a UUID".

Definition ListOrganizationEvents (orgaId : string) (q : Values) : M Audits reply :=
  match uuid_Parse orgaId with
  | None => mret notUUID
  | Some orgaUuid =>
    match parseFilter q with
    | Err msg => mret (Refused 400 msg)
    | Ok f => writeEvents (scoped f (Some (uuid_String orgaUuid)) (f_NoOrganization f) (f_ProjectId f) (f_UserId f)
        (f_UserEmail f) (f_EventTypes f) (f_OtherThan f)) (catalogueFor true)
    end
  end.

(** The user of the context, if there is one. Whatever the query says, a user only reads their own events. *)
Definition ListUserEvents (userId : option string) (q : Values) : M Audits reply :=
  match userId ≫= uuid_Parse with
  | None => mret (Refused 401 "Unauthorized")
  | Some userUuid =>
    match parseFilter q with
    | Err msg => mret (Refused 400 msg)
    | Ok f => writeEvents (scoped f (f_OrganizationId f) true None (Some (uuid_String userUuid)) EmptyString
        (f_EventTypes f) (f_OtherThan f)) (catalogueFor false)
    end
  end.

Definition ListOrganizationEventTypes (orgaId : string) : reply :=
  match uuid_Parse orgaId with None => notUUID | Some _ => EventTypes (items (catalogueFor true)) end.

Definition ListUserEventTypes : reply := EventTypes (items (catalogueFor false)).

Definition GetUserRetention : reply := UserRetentionReply (UserDays (al_Retention cfg)).

Definition retention (override : option Z) : Retention :=
  let bounds := al_Retention cfg in
  match override with
  | None => mkRetention (DefaultDays bounds) true (DefaultDays bounds) (MinDays bounds) (MaxDays bounds)
  | Some days => mkRetention (Z.min (Z.max days (MinDays bounds)) (MaxDays bounds)) false (DefaultDays bounds)
      (MinDays bounds) (MaxDays bounds)
  end.

Definition GetRetention (orgaId : string) : M Audits reply :=
  match uuid_Parse orgaId with
  | None => mret notUUID
  | Some orgaUuid =>
    r ← attempt (storedRetention (uuid_String orgaUuid));
    mret match r with
    | Err _ => Refused 500 "Failed to read audit log retention"
    | Ok override => RetentionReply (retention override)
    end
  end.

(** The body that was decoded, or the answer of the decoder. *)
Definition UpdateRetention (orgaId : string) (body : result reply (option Z)) : M Audits reply :=
  match uuid_Parse orgaId with
  | None => mret notUUID
  | Some orgaUuid =>
    match body with
    | Err answer => mret answer
    | Ok days =>
      let bounds := al_Retention cfg in
      if match days with Some d => bool_decide (d < MinDays bounds ∨ MaxDays bounds < d) | None => false end
      then mret (Refused 400 ("retentionDays must be between " +:+ FormatInt (MinDays bounds) +:+ " and " +:+
        FormatInt (MaxDays bounds)))
      else
        r ← attempt (SetAuditRetentionDays (uuid_String orgaUuid) days);
        mret match r with
        | Err _ => Refused 500 "Failed to save audit log retention"
        | Ok _ => RetentionReply (retention days)
        end
    end
  end.
End service.

(** ** What a search finds *)
Section searches.
Context {UL : UUIDLib} {AE : AuditEnv}.

Lemma elem_of_page {A} limit offset (l : list A) x : x ∈ page limit offset l → x ∈ l.
Proof.
  unfold page. intros Hx. assert (x ∈ drop (Z.to_nat offset) l) as Hd.
  { case_decide; [by eapply subseteq_take|done]. }
  by eapply subseteq_drop.
Qed.

Lemma length_page {A} limit offset (l : list A) : 0 ≤ limit → Z.of_nat (length (page limit offset l)) ≤ limit.
Proof. intros. unfold page. rewrite decide_True by done. rewrite length_take. lia. Qed.

Lemma elem_of_matching f events x :
  x ∈ matching f events ↔ events !! x.1 = Some x.2 ∧ applyFilter f x.2 = true.
Proof.
  unfold matching. rewrite merge_sort_Permutation. destruct x as [id e].
  rewrite elem_of_map_to_list, map_lookup_filter_Some. done.
Qed.

#[export] Instance newest_first_transitive : Transitive newest_first.
Proof.
  unfold newest_first. intros x y z [?|[??]] [?|[??]]; [left; lia..|].
  right. split; [lia|]. by etrans.
Qed.

#[export] Instance newest_first_total : Total newest_first.
Proof.
  intros x y. unfold newest_first. destruct (total String.le x.1 y.1), (Z.lt_trichotomy (ae_StartedAt x.2) (ae_StartedAt y.2))
    as [|[|]]; auto with lia.
Qed.

Lemma matching_sorted f events : StronglySorted newest_first (matching f events).
Proof. apply StronglySorted_merge_sort; apply _. Qed.

Lemma List_run f w events total w' :
  List f w = (Ok (events, total), w') →
  events = page (f_Limit f) (f_Offset f) (matching f (au_events (outside w))) ∧
  total = Z.of_nat (length (matching f (au_events (outside w)))) ∧ outside w' = outside w.
Proof.
  unfold List. intros (t & w1 & [-> H1]%read_rows_run & (l & w2 & [-> H2]%read_rows_run & [= <- <- <-])%bind_Ok)%bind_Ok.
  rewrite H1. split_and!; [done..|congruence].
Qed.

Lemma writeEvents_run c f w r w' :
  writeEvents f c w = (Ok r, w') →
  (∃ msg, r = Refused 500 msg) ∨
  ∃ kept other, resolveOther c (f_EventTypes f) = (kept, other) ∧
  let f' := scoped f (f_OrganizationId f) (f_NoOrganization f) (f_ProjectId f) (f_UserId f) (f_UserEmail f) kept other in
  r = Events (toEvent <$> page (f_Limit f) (f_Offset f) (matching f' (au_events (outside w))))
    (Z.of_nat (length (matching f' (au_events (outside w))))) (f_Limit f) (f_Offset f) ∧ outside w' = outside w.
Proof.
  unfold writeEvents. destruct (resolveOther _ _) as [kept other].
  set (f' := scoped f _ _ _ _ _ _ _). unfold attempt. rewrite bind_eq.
  destruct (List f' w) as [[[events total]|e] w1] eqn:Hl; intros [= <- <-]; [right|by left; eauto].
  apply List_run in Hl as (-> & -> & ?). eauto.
Qed.

Lemma queryInt_bounds q key fallback lowest highest z :
  lowest ≤ fallback ≤ highest → queryInt q key fallback lowest highest = Ok z → lowest ≤ z ≤ highest.
Proof.
  unfold queryInt. intros Hf. case_decide; [by intros [= <-]|]. destruct (ParseInt _); [|done].
  case_decide as Hd; [done|]. intros [= <-]. lia.
Qed.

Lemma parseFilter_page q f : parseFilter q = Ok f → 1 ≤ f_Limit f ≤ maxLimit ∧ 0 ≤ f_Offset f.
Proof.
  unfold parseFilter.
  match goal with |- match ?l with [] => _ | _ => _ end = _ → _ => destruct l eqn:Herrs; [|done] end.
  intros [= <-]. simpl. repeat (apply app_nil in Herrs as [? Herrs]).
  pose proof (queryInt_bounds q "limit" defaultLimit 1 maxLimit) as Hl.
  pose proof (queryInt_bounds q "offset" 0 0 maxOffset) as Ho.
  destruct (queryInt q "limit" defaultLimit 1 maxLimit) as [limit|]; [|done].
  destruct (queryInt q "offset" 0 0 maxOffset) as [offset|]; [|done]. simpl.
  specialize (Hl limit ltac:(done) eq_refl). specialize (Ho offset ltac:(done) eq_refl). lia.
Qed.
End searches.

(** ** Theorems *)
Section theorems.
Context {UL : UUIDLib} {AE : AuditEnv} (cfg : AuditLogConfig) (declared : list RouteInfo).

(** The events of [l] are rows that satisfy [P], as the API shows them. *)
Definition listed (d : Audits) (l : list (uuid * AuditEvent)) (P : AuditEvent → Prop) : Prop :=
  Forall (λ ev, ∃ e, au_events d !! ev.1 = Some e ∧ ev = toEvent (ev.1, e) ∧ P e) l.

Lemma listed_page d f limit offset (P : AuditEvent → Prop) :
  (∀ e, applyFilter f e = true → P e) → listed d (toEvent <$> page limit offset (matching f (au_events d))) P.
Proof.
  intros HP. apply Forall_fmap, Forall_forall. intros [id e] [Hid Hf]%elem_of_page%elem_of_matching.
  exists e. simpl in *. auto.
Qed.

(** A user who lists their events only sees rows of their own that belong to no organization, and a
    list of the events of an organization only holds rows of that organization, whatever the query asks
    for: the identifiers of other users, organizations or projects in it give no more. A page has at most
    the size asked for, never more than 100, and a search changes nothing. *)
Theorem listed_events_scoped orgaId userId q w l total limit offset w' :
  (ListOrganizationEvents declared orgaId q w = (Ok (Events l total limit offset), w') →
    (∃ o, uuid_Parse orgaId = Some o ∧ listed (outside w) l (λ e, ae_OrganizationId e = Some (uuid_String o))) ∧
    Z.of_nat (length l) ≤ limit ≤ 100 ∧ outside w' = outside w) ∧
  (ListUserEvents declared userId q w = (Ok (Events l total limit offset), w') →
    (∃ u, userId ≫= uuid_Parse = Some u ∧
      listed (outside w) l (λ e, ae_UserId e = Some (uuid_String u) ∧ ae_OrganizationId e = None)) ∧
    Z.of_nat (length l) ≤ limit ≤ 100 ∧ outside w' = outside w).
Proof.
  split.
  - unfold ListOrganizationEvents. destruct (uuid_Parse orgaId) as [o|] eqn:Ho; [|done].
    destruct (parseFilter q) as [f|] eqn:Hf; [|done]. apply parseFilter_page in Hf as [Hlim _]. unfold maxLimit in Hlim.
    intros [[msg ?]|(kept & other & _ & Hr & ?)]%writeEvents_run; [done|]. simplify_eq/=. split_and!; [|..|lia|done].
    + exists o. split; [done|]. apply listed_page. intros e. unfold applyFilter. simpl.
      destruct (bool_decide_reflect (ae_OrganizationId e = Some (uuid_String o))); done.
    + rewrite length_fmap. apply length_page. lia.
  - unfold ListUserEvents. destruct (userId ≫= uuid_Parse) as [u|] eqn:Hu; [|done].
    destruct (parseFilter q) as [f|] eqn:Hf; [|done]. apply parseFilter_page in Hf as [Hlim _]. unfold maxLimit in Hlim.
    intros [[msg ?]|(kept & other & _ & Hr & ?)]%writeEvents_run; [done|]. simplify_eq/=. split_and!; [|..|lia|done].
    + exists u. split; [done|]. apply listed_page. intros e. unfold applyFilter. simpl. rewrite !andb_true_iff.
      rewrite !bool_decide_eq_true. tauto.
    + rewrite length_fmap. apply length_page. lia.
Qed.

(** *** Pages *)

Definition at_page (f : Filter) (limit : Z) (i : nat) : Filter :=
  mkFilter (f_OrganizationId f) (f_NoOrganization f) (f_ProjectId f) (f_UserId f) (f_UserEmail f) (f_EventTypes f)
    (f_OtherThan f) (f_ResourceType f) (f_ResourceId f) (f_Status f) (f_From f) (f_To f) limit (Z.of_nat i * limit).

Lemma pages_join {A} (limit : Z) (l : list A) n :
  0 < limit →
  mjoin ((λ i, page limit (Z.of_nat i * limit) l) <$> List.seq 0 n) = firstn (n * Z.to_nat limit) l.
Proof.
  intros Hl. induction n as [|n IH]; [done|].
  rewrite seq_S, fmap_app, join_app, IH. csimpl. rewrite app_nil_r. unfold page.
  rewrite decide_True by lia. replace (Z.to_nat (Z.of_nat n * limit)) with (n * Z.to_nat limit)%nat by nia.
  rewrite take_take_drop. f_equal. lia.
Qed.

Lemma List_exact f w :
  faults w = [] →
  List f w = (Ok (page (f_Limit f) (f_Offset f) (matching f (au_events (outside w))),
    Z.of_nat (length (matching f (au_events (outside w))))), w).
Proof.
  intros Hf. assert (∀ A (g : Audits → A), read_rows g w = (Ok (g (outside w)), w)) as Hr.
  { intros A g. unfold read_rows. by rewrite bind_eq, statement_no_faults. }
  unfold List. rewrite bind_eq, Hr. by rewrite bind_eq, Hr.
Qed.

(** Reading the pages of a search one after the other, when no statement fails, gives every event
    that matches exactly once, the newest first; and each page announces their number. *)
Theorem pages_complete f limit n w :
  0 < limit → faults w = [] → Z.of_nat (length (matching f (au_events (outside w)))) ≤ Z.of_nat n * limit →
  let found := matching f (au_events (outside w)) in
  ∃ pages, (∀ i, i < n → ∃ p, pages !! i = Some p ∧ List (at_page f limit i) w = (Ok (p, Z.of_nat (length found)), w))%nat ∧
    length pages = n ∧ mjoin pages = found ∧ NoDup found.*1 ∧ StronglySorted newest_first found ∧
    ∀ id e, (id, e) ∈ found ↔ au_events (outside w) !! id = Some e ∧ applyFilter f e = true.
Proof.
  intros Hl Hf Hn found. exists ((λ i, page limit (Z.of_nat i * limit) found) <$> List.seq 0 n). split_and!.
  - intros i Hi. exists (page limit (Z.of_nat i * limit) found). split; [|by rewrite List_exact].
    rewrite list_lookup_fmap, lookup_seq_lt by done. done.
  - by rewrite length_fmap, length_seq.
  - rewrite pages_join by done. apply take_ge. fold found in Hn. nia.
  - unfold found, matching. rewrite merge_sort_Permutation. apply NoDup_fst_map_to_list.
  - apply matching_sorted.
  - intros id e. apply elem_of_matching.
Qed.

(** *** The retention that is told is the one that is applied *)

(** The organization exists and is not deleted. *)
Definition live (d : Audits) (o : uuid) : Prop := ∃ row, au_organizations d !! o = Some row ∧ ao_Deleted row = false.

Lemma overrideOf_set days o d :
  live d o →
  overrideOf (au_organizations (set_audited (alter (with_days days) o) d)) o = days.
Proof.
  intros (row & Ho & Hd). unfold overrideOf. simpl. rewrite lookup_alter_eq, Ho. simpl. unfold with_days. by rewrite Hd.
Qed.

(** C16: the retention that an organization is told, when it asks for it or when it has just set it, is
    the number of days for which the sweep keeps each of its events; it is within the bounds of the
    settings, and setting it does not touch the retention of another organization, nor any event. *)
Theorem retention_applied orgaId body w r w' o e :
  retentionErrors (al_Retention cfg) = [] → uuid_Parse orgaId = Some o → live (outside w) (uuid_String o) →
  GetRetention cfg orgaId w = (Ok (RetentionReply r), w') ∨
    UpdateRetention cfg orgaId (Ok body) w = (Ok (RetentionReply r), w') →
  (ae_OrganizationId e = Some (uuid_String o) → keptDays cfg (au_organizations (outside w')) e = rt_RetentionDays r) ∧
  (ae_OrganizationId e ≠ Some (uuid_String o) →
    keptDays cfg (au_organizations (outside w')) e = keptDays cfg (au_organizations (outside w)) e) ∧
  MinDays (al_Retention cfg) ≤ rt_RetentionDays r ≤ MaxDays (al_Retention cfg) ∧
  au_events (outside w') = au_events (outside w).
Proof.
  intros Hv Ho Hlive Hrun.
  assert (∃ days, r = retention cfg days ∧ overrideOf (au_organizations (outside w')) (uuid_String o) = days ∧
    (∀ o', o' ≠ uuid_String o →
      overrideOf (au_organizations (outside w')) o' = overrideOf (au_organizations (outside w)) o') ∧
    au_events (outside w') = au_events (outside w)) as (days & -> & Hdays & Hother & Hevents).
  { destruct Hrun as [Hrun|Hrun].
    - unfold GetRetention in Hrun. rewrite Ho in Hrun. rewrite bind_eq in Hrun. unfold attempt in Hrun.
      destruct (storedRetention _ w) as [[days|err] w1] eqn:Hs; [|done].
      injection Hrun as <- <-. exists days.
      unfold storedRetention in Hs. apply bind_Ok in Hs as (row & w2 & [-> H2]%read_rows_run & Hs).
      destruct Hlive as (row & Hrow & Hd). rewrite Hrow, Hd in Hs. injection Hs as <- <-. rewrite H2.
      split_and!; [done| |done..]. unfold overrideOf. by rewrite Hrow.
    - unfold UpdateRetention in Hrun. rewrite Ho in Hrun. case_match; [done|]. rewrite bind_eq in Hrun.
      unfold attempt in Hrun. destruct (SetAuditRetentionDays _ _ w) as [[[]|err] w1] eqn:Hs; [|done].
      injection Hrun as <- <-.
      unfold SetAuditRetentionDays in Hs. rewrite write_rows_eq in Hs.
      destruct (statement w) as [[u|e'] w2] eqn:Hst; [|done]. injection Hs as <-. apply statement_Ok in Hst as (_ & _ & <-).
      exists body. simpl. split_and!; [done|by apply overrideOf_set| |done].
      intros o' Hne. unfold overrideOf. by rewrite lookup_alter_ne. }
  unfold retentionErrors in Hv. repeat case_decide; try done.
  split_and!; [| |unfold retention; case_match; simpl; lia..|done].
  - intros He. unfold keptDays. rewrite He, Hdays. by destruct days.
  - intros He. unfold keptDays. destruct (ae_OrganizationId e) as [o'|]; [|done]. rewrite Hother; [done|congruence].
Qed.
End theorems.
