(* ===== verification/AuditRecord.v ===== *)
(** * The record of an audited request ([internal/superphenix-api/pkg/audit])

    The middleware of an audited route keeps a record of the request, which authentication stores as an
    attempted event, which the handler completes, and whose outcome is written when the route returns,
    or panics. Whatever statements fail, a request leaves at most one event, of its own user, and never
    one that says something else than what happened. At the end, the witnesses of the audit log. *)

From Stdlib Require Import Ascii.
From S2P Require Import Prelude Strings Errors Database SpxId ControllerLaws QuotaService Router Products.
From S2P Require Import AuditLog AuditSweep AuditService.

(** ** Addresses ([clientip.go]) *)

Definition maxAddrLength : nat := 64.

Definition clientIPHeaders : list string := ["CF-Connecting-IP"; "X-Forwarded-For"; "X-Real-IP"].

Definition truncate (s : string) : string :=
  if decide (maxAddrLength < String.length s)%nat then String.substring 0 maxAddrLength s else s.

(** [bytealg.IndexByteString] and [LastIndexByteString] *)
Fixpoint IndexByte (s : string) (c : ascii) : option nat :=
  match s with
  | EmptyString => None
  | String c' s => if decide (c' = c) then Some 0%nat else S <$> IndexByte s c
  end.

Fixpoint LastIndexByte (s : string) (c : ascii) : option nat :=
  match s with
  | EmptyString => None
  | String c' s =>
    match LastIndexByte s c with
    | Some i => Some (S i)
    | None => if decide (c' = c) then Some 0%nat else None
    end
  end.

(** [s[i:]] *)
Definition from (i : nat) (s : string) : string := String.substring i (String.length s - i) s.

(** The host of [net.SplitHostPort], [None] for an error. *)
Definition SplitHost (hostport : string) : option string :=
  i ← LastIndexByte hostport ":"%char;
  '(host, j, k) ←
    match hostport with
    | String "["%char _ =>
      closing ← IndexByte hostport "]"%char;
      if decide (S closing = i) then Some (String.substring 1 (closing - 1) hostport, 1%nat, S closing) else None
    | _ =>
      let host := String.substring 0 i hostport in
      match IndexByte host ":"%char with Some _ => None | None => Some (host, 0%nat, 0%nat) end
    end;
  match IndexByte (from j hostport) "["%char, IndexByte (from k hostport) "]"%char with
  | None, None => Some host
  | _, _ => None
  end.

Definition hostOf (addr : string) : string :=
  match SplitHost addr with Some host => truncate host | None => truncate addr end.

(** What the middleware reads of a request; the peer is the one of the context, if it was captured. *)
Record AuditedRequest := mkAuditedRequest {
  ar_Params : gmap string string; ar_Query : gmap string (list string); ar_Headers : gmap string string;
  ar_RemoteAddr : string; ar_Peer : option string; ar_RequestId : string }.

Definition CapturePeerAddr (r : AuditedRequest) : AuditedRequest :=
  mkAuditedRequest (ar_Params r) (ar_Query r) (ar_Headers r) (ar_RemoteAddr r) (Some (hostOf (ar_RemoteAddr r)))
    (ar_RequestId r).

Definition PeerAddr (r : AuditedRequest) : string :=
  match ar_Peer r with Some peer => peer | None => hostOf (ar_RemoteAddr r) end.

Definition headerIP (r : AuditedRequest) (header : string) : string :=
  let '(first, _, _) := Cut (default EmptyString (ar_Headers r !! header)) ","%char in TrimSpace first.

Definition ClientIP (r : AuditedRequest) : string :=
  match filter (λ ip, ip ≠ EmptyString) (headerIP r <$> clientIPHeaders) with
  | ip :: _ => truncate ip
  | [] => PeerAddr r
  end.

(** ** The record ([record.go]) *)

Record AuditRecord := mkAuditRecord { rec_event : AuditEvent; rec_id : uuid; rec_begun : bool; rec_failed : bool }.

Definition with_user (e : AuditEvent) (user : uuid) (authType : string) : AuditEvent :=
  mkAuditEvent (ae_OrganizationId e) (ae_ProjectId e) (ae_EventType e) (ae_ResourceType e) (ae_ResourceId e)
    (Some user) (ae_UserEmail e) (Some authType) (ae_SourceIp e) (ae_RemoteAddr e) AuditStatusAttempted
    (ae_StatusCode e) (ae_RequestId e) (ae_StartedAt e) (ae_CompletedAt e).

Definition with_target (e : AuditEvent) (organization project : option uuid) (resource : option string) : AuditEvent :=
  mkAuditEvent organization project (ae_EventType e) (ae_ResourceType e) resource (ae_UserId e) (ae_UserEmail e)
    (ae_AuthType e) (ae_SourceIp e) (ae_RemoteAddr e) (ae_Status e) (ae_StatusCode e) (ae_RequestId e)
    (ae_StartedAt e) (ae_CompletedAt e).

Definition with_outcome (e : AuditEvent) (status : string) (statusCode now : Z) : AuditEvent :=
  mkAuditEvent (ae_OrganizationId e) (ae_ProjectId e) (ae_EventType e) (ae_ResourceType e) (ae_ResourceId e)
    (ae_UserId e) (ae_UserEmail e) (ae_AuthType e) (ae_SourceIp e) (ae_RemoteAddr e) status
    (Some statusCode) (ae_RequestId e) (ae_StartedAt e) (Some now).

Section record.
Context {UL : UUIDLib} {AE : AuditEnv}.

Definition with_event (r : AuditRecord) (e : AuditEvent) : AuditRecord :=
  mkAuditRecord e (rec_id r) (rec_begun r) (rec_failed r).

Definition Begin (userId authType : string) (r : AuditRecord) : M Audits AuditRecord :=
  match uuid_Parse userId with
  | None => mret r
  | Some parsed =>
    if rec_begun r then mret r else
    let e := with_user (rec_event r) (uuid_String parsed) authType in
    res ← attempt (Insert e);
    mret match res with
    | Err _ => with_event r e
    | Ok id => mkAuditRecord e id true (rec_failed r)
    end
  end.

Definition SetResource (resourceId : string) (r : AuditRecord) : AuditRecord :=
  let e := rec_event r in
  if decide (resourceId = EmptyString) then r
  else with_event r (with_target e (ae_OrganizationId e) (ae_ProjectId e) (Some resourceId)).

Definition ClearResource (r : AuditRecord) : AuditRecord :=
  let e := rec_event r in with_event r (with_target e (ae_OrganizationId e) (ae_ProjectId e) None).

Definition SetOrganization (organizationId : uuid) (r : AuditRecord) : AuditRecord :=
  let e := rec_event r in
  if decide (organizationId = uuid_Nil) then r
  else with_event r (with_target e (Some organizationId) (ae_ProjectId e) (ae_ResourceId e)).

Definition SetProject (projectId : uuid) (r : AuditRecord) : AuditRecord :=
  let e := rec_event r in
  if decide (projectId = uuid_Nil) then r
  else with_event r (with_target e (ae_OrganizationId e) (Some projectId) (ae_ResourceId e)).

Definition Fail (r : AuditRecord) : AuditRecord := mkAuditRecord (rec_event r) (rec_id r) (rec_begun r) true.

Definition outcome (r : AuditRecord) (statusCode : Z) : string :=
  if decide (400 ≤ statusCode ∨ rec_failed r = true) then AuditStatusFailed else AuditStatusSuccess.

(** A failed write is only logged. *)
Definition complete (r : AuditRecord) (statusCode : Z) : M Audits unit :=
  let e := rec_event r in
  match ae_UserId e with
  | None => mret tt
  | Some _ =>
    let status := outcome r statusCode in
    now ← Now;
    _ ← (if rec_begun r
         then _ ← attempt (Finalize (rec_id r) (mkCompletion status statusCode now (ae_OrganizationId e)
                (ae_ProjectId e) (ae_ResourceId e))); mret tt
         else _ ← attempt (Insert (with_outcome e status statusCode now)); mret tt);
    mret tt
  end.

(** ** The middleware ([middleware.go]) *)

Definition uuidParam (r : AuditedRequest) (name : string) : option uuid :=
  uuid_String <$> uuid_Parse (default EmptyString (ar_Params r !! name)).

Definition resourceOf (r : AuditedRequest) (declaration : Audit) : string :=
  if decide (a_ResourceParam declaration ≠ EmptyString)
  then default EmptyString (ar_Params r !! a_ResourceParam declaration)
  else if decide (a_ResourceQuery declaration ≠ EmptyString)
  then default EmptyString (ar_Query r !! a_ResourceQuery declaration ≫= head)
  else EmptyString.

Definition newRecord (r : AuditedRequest) (declaration : Audit) : M Audits AuditRecord :=
  now ← Now;
  let resourceId := resourceOf r declaration in
  mret (mkAuditRecord
    (mkAuditEvent (uuidParam r "orgaId") (uuidParam r "projectId") (EventType declaration)
      (res_Name (a_Resource declaration)) (if decide (resourceId = EmptyString) then None else Some resourceId)
      None None None (ClientIP r) (PeerAddr r) EmptyString None (ar_RequestId r) now None)
    uuid_Nil false false).

(** What the authentication and the handler of a route report, and how the route ends. *)
Inductive Report :=
  | Authenticated (userId authType : string)
  | Resource (resourceId : string)
  | NoResource
  | Organization (organizationId : uuid)
  | Project (projectId : uuid)
  | Failed.

Inductive Ending := Returned (statusCode : Z) | Panicked.

Definition report (r : AuditRecord) (s : Report) : M Audits AuditRecord :=
  match s with
  | Authenticated userId authType => Begin userId authType r
  | Resource resourceId => mret (SetResource resourceId r)
  | NoResource => mret (ClearResource r)
  | Organization organizationId => mret (SetOrganization organizationId r)
  | Project projectId => mret (SetProject projectId r)
  | Failed => mret (Fail r)
  end.

Fixpoint reports (r : AuditRecord) (l : list Report) : M Audits AuditRecord :=
  match l with [] => mret r | s :: l => r ← report r s; reports r l end.

(** A route that writes no status answers 200. *)
Definition codeOf (ending : Ending) : Z :=
  match ending with Panicked => 500 | Returned code => if decide (code = 0) then 200 else code end.

Definition Middleware (declaration : Audit) (r : AuditedRequest) (l : list Report) (ending : Ending) : M Audits unit :=
  record ← newRecord r declaration; record ← reports record l; complete record (codeOf ending).
End record.

(** ** Theorems *)

Lemma length_substring n m s : (String.length (String.substring n m s) ≤ m)%nat.
Proof.
  revert n m. induction s as [|c s IH]; intros [|n] [|m]; simpl; try lia.
  - specialize (IH 0%nat m). lia.
  - apply (IH n 0%nat).
  - apply (IH n (S m)).
Qed.

Lemma length_truncate s : (String.length (truncate s) ≤ maxAddrLength)%nat.
Proof. unfold truncate. case_decide; [apply length_substring|lia]. Qed.

Lemma length_PeerAddr r : (String.length (PeerAddr (CapturePeerAddr r)) ≤ maxAddrLength)%nat.
Proof. unfold PeerAddr, CapturePeerAddr, hostOf. simpl. case_match; apply length_truncate. Qed.

Lemma length_ClientIP r : (String.length (ClientIP (CapturePeerAddr r)) ≤ maxAddrLength)%nat.
Proof. unfold ClientIP. case_match; [apply length_PeerAddr|apply length_truncate]. Qed.

(** [uuid.New] is not the key of a row. *)
Class AuditLaws {AE : AuditEnv} : Prop := uuid_New_fresh d : au_events d !! uuid_New d = None.

Section theorems.
Context {UL : UUIDLib} {AE : AuditEnv} {AL : AuditLaws}.

(** The users that authenticate. *)
Definition userOf (s : Report) : option uuid :=
  match s with Authenticated userId _ => uuid_String <$> uuid_Parse userId | _ => None end.

Definition isFailed (s : Report) : bool := match s with Failed => true | _ => false end.

(** The request of an event: what no report changes. *)
Definition origin (e : AuditEvent) : string * string * string * string * string * Z :=
  (ae_EventType e, ae_ResourceType e, ae_SourceIp e, ae_RemoteAddr e, ae_RequestId e, ae_StartedAt e).

(** The state of the tables [d], from [d0], while the record [r] of a request is filled: an event of
    the record if it has begun, and nothing else. *)
Definition recorded (o : string * string * string * string * string * Z) (us : list uuid) (d0 : Audits) (r : AuditRecord)
    (d : Audits) : Prop :=
  au_organizations d = au_organizations d0 ∧ origin (rec_event r) = o ∧ ae_StatusCode (rec_event r) = None ∧
  match ae_UserId (rec_event r) with
  | None => rec_begun r = false
  | Some u => u ∈ us
  end ∧
  if rec_begun r
  then ∃ e, au_events d0 !! rec_id r = None ∧ au_events d = <[rec_id r := e]> (au_events d0) ∧
    origin e = o ∧ ae_UserId e = ae_UserId (rec_event r) ∧
    ae_Status e = AuditStatusAttempted ∧ ae_StatusCode e = None
  else au_events d = au_events d0.

Lemma recorded_weaken o us us' d0 r d : us ⊆ us' → recorded o us d0 r d → recorded o us' d0 r d.
Proof.
  intros Hus (? & ? & ? & Hu & ?). split_and!; [done..| |done].
  destruct (ae_UserId _); [by apply Hus|done].
Qed.

Lemma Insert_run e w :
  (∃ err w1, Insert e w = (Err err, w1) ∧ outside w1 = outside w ∧ (faults w = [] → False)) ∨
  ∃ w1, let id := uuid_New (outside w) in
    Insert e w = (Ok id, w1) ∧ outside w1 = set_events <[id := resolved (au_emails (outside w)) e]> (outside w) ∧
    (faults w = [] → faults w1 = []).
Proof.
  unfold Insert. rewrite write_rows_eq. pose proof (statement_same w) as (_ & _ & Hs).
  pose proof (statement_no_faults w) as Hf. destruct (statement w) as [[u|err] w1]; simpl in *.
  - right. eexists. rewrite Hs. split_and!; [done..|]. intros Hw. specialize (Hf Hw). by simplify_eq.
  - left. exists err, w1. split_and!; [done..|]. intros Hw. by specialize (Hf Hw).
Qed.

Lemma report_run o us d0 r s w :
  recorded o us d0 r (outside w) →
  ∃ r' w', report r s w = (Ok r', w') ∧ recorded o (us ++ option_list (userOf s)) d0 r' (outside w') ∧
    rec_failed r' = rec_failed r || isFailed s ∧
    (faults w = [] → faults w' = [] ∧
      ((ae_UserId (rec_event r) = None ∨ rec_begun r = true) →
        (ae_UserId (rec_event r') = None ∨ rec_begun r' = true) ∧
        ae_UserId (rec_event r') = match ae_UserId (rec_event r) with Some u => Some u | None => userOf s end)).
Proof.
  intros Hr.
  assert (∀ e', origin e' = origin (rec_event r) → ae_UserId e' = ae_UserId (rec_event r) →
    ae_StatusCode e' = ae_StatusCode (rec_event r) → recorded o us d0 (with_event r e') (outside w)) as Hkeep.
  { intros e' Ho Hu Hc. destruct Hr as (? & ? & ? & Hus & Hb). split_and!; simpl; [congruence..| |].
    - by rewrite Hu.
    - destruct (rec_begun r); [|done]. destruct Hb as (e & ? & ? & ? & ? & ? & ?). exists e. split_and!; congruence. }
  assert (∀ r', recorded o us d0 r' (outside w) → ae_UserId (rec_event r') = ae_UserId (rec_event r) →
    rec_begun r' = rec_begun r → rec_failed r' = rec_failed r || isFailed s →
    ∃ r'' w', (mret r' : M Audits AuditRecord) w = (Ok r'', w') ∧ recorded o (us ++ []) d0 r'' (outside w') ∧
    rec_failed r'' = rec_failed r || isFailed s ∧
    (faults w = [] → faults w' = [] ∧
      ((ae_UserId (rec_event r) = None ∨ rec_begun r = true) →
        (ae_UserId (rec_event r'') = None ∨ rec_begun r'' = true) ∧
        ae_UserId (rec_event r'') = match ae_UserId (rec_event r) with Some u => Some u | None => None end))) as Hstay.
  { intros r' Hr' Hu Hb Hf. exists r', w. rewrite app_nil_r, Hu, Hb. split_and!; [done..|].
    intros ?. split; [done|]. intros ?. split; [done|]. by destruct (ae_UserId _). }
  destruct s as [userId authType|rid| |oid|pid|]; cbn [report userOf isFailed option_list] in *; rewrite ?orb_false_r, ?orb_true_r in *.
  - unfold Begin. destruct (uuid_Parse userId) as [parsed|] eqn:Hp; cbn [fmap option_fmap option_map option_list].
    2: by apply Hstay.
    destruct (rec_begun r) eqn:Hb.
    + exists r, w. split_and!; [done| |done|].
      { eapply recorded_weaken, Hr. set_solver. }
      intros ?. split; [done|]. intros ?. split; [by right|].
      destruct Hr as (_ & _ & _ & Hu & _). by destruct (ae_UserId _); [|congruence].
    + destruct Hr as (Horg & Ho & Hc & Hu & Hd). rewrite Hb in Hd.
      set (e := with_user (rec_event r) (uuid_String parsed) authType).
      rewrite bind_eq. unfold attempt.
      destruct (Insert_run e w) as [(err & w1 & -> & Hw1 & Hf)|(w1 & -> & Hw1 & Hf)]; cbn.
      * eexists _, w1. split_and!; [done| |done|].
        { split_and!; simpl; [congruence|done|done|set_solver|]. rewrite Hb. congruence. }
        intros Hw. by apply Hf in Hw.
      * eexists _, w1. split_and!; [done| |done|].
        { split_and!; simpl; [by rewrite Hw1|done|done|set_solver|]. eexists. split_and!.
          - rewrite <-Hd. apply uuid_New_fresh.
          - rewrite Hw1. simpl. by rewrite Hd.
          - done.
          - done.
          - done.
          - done. }
        intros Hw. split; [by apply Hf|]. intros [Hn|Hn]; [|congruence]. rewrite Hn. split; [by right|done].
  - unfold SetResource. case_decide; (apply Hstay; [by first [done | apply Hkeep]|done..]).
  - apply Hstay; [by apply Hkeep|done..].
  - unfold SetOrganization. case_decide; (apply Hstay; [by first [done | apply Hkeep]|done..]).
  - unfold SetProject. case_decide; (apply Hstay; [by first [done | apply Hkeep]|done..]).
  - apply Hstay; [by apply (Hkeep (rec_event r))|done..].
Qed.

Lemma reports_run o d0 l : ∀ us r w,
  recorded o us d0 r (outside w) →
  ∃ r' w', reports r l w = (Ok r', w') ∧ recorded o (us ++ omap userOf l) d0 r' (outside w') ∧
    rec_failed r' = rec_failed r || existsb isFailed l ∧
    (faults w = [] → faults w' = [] ∧
      ((ae_UserId (rec_event r) = None ∨ rec_begun r = true) →
        (ae_UserId (rec_event r') = None ∨ rec_begun r' = true) ∧
        ae_UserId (rec_event r') = match ae_UserId (rec_event r) with Some u => Some u | None => head (omap userOf l) end)).
Proof.
  induction l as [|s l IH]; intros us r w Hr; cbn [reports].
  - exists r, w. rewrite app_nil_r, orb_false_r. split_and!; [done..|]. intros ?. split; [done|].
    intros ?. split; [done|]. by destruct (ae_UserId _).
  - destruct (report_run o us d0 r s w Hr) as (r1 & w1 & Hs & Hr1 & Hf1 & Hnf1).
    destruct (IH _ r1 w1 Hr1) as (r2 & w2 & Hl & Hr2 & Hf2 & Hnf2).
    rewrite (bind_run _ _ _ _ _ Hs). exists r2, w2. split_and!; [done| | |].
    + eapply recorded_weaken, Hr2. rewrite <-app_assoc. cbn. destruct (userOf s); set_solver.
    + rewrite Hf2, Hf1. cbn. by rewrite orb_assoc.
    + intros Hw. destruct (Hnf1 Hw) as [Hw1 Hb1]. destruct (Hnf2 Hw1) as [Hw2 Hb2]. split; [done|].
      intros Hb. destruct (Hb1 Hb) as [Hb' Hu1]. destruct (Hb2 Hb') as [? Hu2]. split; [done|].
      rewrite Hu2, Hu1. cbn. destruct (ae_UserId (rec_event r)); [done|]. by destruct (userOf s).
Qed.

(** From [d] to [d'], an event that satisfies [P] has been added under a new key, and nothing else. *)
Definition left_event (d d' : Audits) (P : AuditEvent → Prop) : Prop :=
  ∃ id e, au_events d !! id = None ∧ au_events d' = <[id := e]> (au_events d) ∧ P e.

Lemma left_event_weaken d d' (P Q : AuditEvent → Prop) : (∀ e, P e → Q e) → left_event d d' P → left_event d d' Q.
Proof. intros HPQ (id & e & ? & ? & ?). exists id, e. auto. Qed.

(** The event of a request that has ended: its outcome is that of the request. *)
Definition ended (o : string * string * string * string * string * Z) (user : option uuid) (status : string) (code : Z)
    (e : AuditEvent) : Prop :=
  origin e = o ∧ ae_UserId e = user ∧ ae_Status e = status ∧ ae_StatusCode e = Some code.

(** The event of a request whose outcome could not be written. *)
Definition pending (o : string * string * string * string * string * Z) (user : option uuid) (e : AuditEvent) : Prop :=
  origin e = o ∧ ae_UserId e = user ∧ ae_Status e = AuditStatusAttempted ∧ ae_StatusCode e = None.

Lemma complete_run o us d0 r code w :
  recorded o us d0 r (outside w) →
  ∃ w', complete r code w = (Ok tt, w') ∧ au_organizations (outside w') = au_organizations d0 ∧
    let user := ae_UserId (rec_event r) in
    (user = None → au_events (outside w') = au_events d0) ∧
    (au_events (outside w') = au_events d0 ∨
     left_event d0 (outside w') (λ e, pending o user e ∨ ended o user (outcome r code) code e)) ∧
    (faults w = [] → is_Some user → left_event d0 (outside w') (ended o user (outcome r code) code)).
Proof.
  intros (Horg & Ho & Hc & Hu & Hd). unfold complete.
  destruct (ae_UserId (rec_event r)) as [u|] eqn:Huser.
  2:{ rewrite Hu in Hd. exists w. split_and!; [done..|by left|by intros _ [??]]. }
  rewrite bind_eq. cbn. set (w1 := with_outside w (tick (outside w))). rewrite bind_eq.
  destruct (rec_begun r).
  - destruct Hd as (e & Hnew & Hev & Hoe & Hue & Hst & Hce). set (c := mkCompletion _ _ _ _ _ _).
    assert (origin (completed c e) = o) as Hoc by done.
    unfold Finalize, attempt. rewrite bind_eq, write_rows_eq.
    pose proof (statement_same w1) as (_ & _ & Hs). pose proof (statement_no_faults w1) as Hf.
    destruct (statement w1) as [[v|err] w2]; cbn in Hs |- *.
    + assert (left_event d0 (set_events (alter (completed c) (rec_id r)) (outside w2))
        (ended o (Some u) (outcome r code) code)) as Hl.
      { exists (rec_id r), (completed c e). split_and!; [done| |done].
        rewrite <-Hs. simpl. rewrite Hev. apply map_eq. intros i. destruct (decide (i = rec_id r)) as [->|Hne].
        - by rewrite lookup_alter_eq, !lookup_insert_eq.
        - by rewrite lookup_alter_ne, !lookup_insert_ne. }
      eexists. split_and!; [done|simpl; by rewrite <-Hs|done| |by intros _ _].
      right. eapply left_event_weaken, Hl. auto.
    + exists w2. split_and!; [done|by rewrite <-Hs|done| |].
      * right. exists (rec_id r), e. rewrite <-Hs. split_and!; [done..|]. by left.
      * intros Hw. specialize (Hf Hw). by simplify_eq.
  - set (e := with_outcome _ _ _ _). unfold attempt. rewrite bind_eq.
    destruct (Insert_run e w1) as [(err & w2 & -> & Hw & Hf)|(w2 & -> & Hw & Hf)]; cbn.
    + exists w2. split_and!; [done|by rewrite Hw|done| |]; [left; by rewrite Hw|].
      intros Hw'. by destruct (Hf Hw').
    + assert (left_event d0 (outside w2) (ended o (Some u) (outcome r code) code)) as Hl.
      { eexists _, _. rewrite Hw. split_and!; [|simpl; by rewrite Hd|by split_and!].
        rewrite <-Hd. apply (uuid_New_fresh (outside w1)). }
      exists w2. split_and!; [done|by rewrite Hw|done| |by intros _ _].
      right. eapply left_event_weaken, Hl. auto.
Qed.

(** What the record of a request says of it. *)
Definition requestOf (declaration : Audit) (rq : AuditedRequest) (startedAt : Z) :
    string * string * string * string * string * Z :=
  (EventType declaration, res_Name (a_Resource declaration), ClientIP rq, PeerAddr rq, ar_RequestId rq, startedAt).

(** C13: an audited request leaves at most one event, whichever statements fail and whatever its handler
    reports, and changes no other. It leaves none when no user authenticates. The event is that of the
    request and of a user who authenticated; its status is that of the answer, failed for an answer of
    400 or more, for a panic and for a refusal that the handler reports, or attempted when the outcome
    could not be written. When no statement fails the event of the first user is there with its outcome. *)
Theorem request_recorded declaration rq l ending w :
  let o := requestOf declaration rq (time_Now (au_reads (outside w))) in
  let users := omap userOf l in
  let code := codeOf ending in
  let status := if decide (400 ≤ code ∨ existsb isFailed l = true) then AuditStatusFailed else AuditStatusSuccess in
  ∃ w', Middleware declaration rq l ending w = (Ok tt, w') ∧
    au_organizations (outside w') = au_organizations (outside w) ∧
    (users = [] → au_events (outside w') = au_events (outside w)) ∧
    (au_events (outside w') = au_events (outside w) ∨
     left_event (outside w) (outside w') (λ e, ∃ u, u ∈ users ∧ (pending o (Some u) e ∨ ended o (Some u) status code e))) ∧
    (faults w = [] → ∀ u us, users = u :: us → left_event (outside w) (outside w') (ended o (Some u) status code)).
Proof.
  intros o users code status. unfold Middleware. rewrite bind_eq. unfold newRecord at 1. rewrite bind_eq. cbn.
  set (r0 := mkAuditRecord _ _ _ _). set (w1 := with_outside w (tick (outside w))).
  assert (recorded o [] (outside w) r0 (outside w1)) as Hr0 by (by split_and!).
  destruct (reports_run o (outside w) l [] r0 w1 Hr0) as (r & w2 & Hl & Hr & Hf & Hnf).
  rewrite (bind_run _ _ _ _ _ Hl). destruct (complete_run o _ _ r code w2 Hr) as (w' & Hc & Horg & Hnone & Hany & Hexact).
  assert (outcome r code = status) as Ho by (unfold outcome, status; by rewrite Hf).
  rewrite Ho in *. exists w'. destruct Hr as (_ & _ & _ & Hu & _). simpl in Hu. fold users in Hu.
  split_and!; [done..| | |].
  - intros Hus. apply Hnone. destruct (ae_UserId (rec_event r)); [|done]. rewrite Hus in Hu. by apply not_elem_of_nil in Hu.
  - destruct (ae_UserId (rec_event r)) as [u|]; [|left; by apply Hnone].
    destruct Hany as [?|Hany]; [by left|right]. eapply left_event_weaken, Hany. intros e He. exists u. by split.
  - intros Hw u us Hus. destruct (Hnf Hw) as [Hw2 Hb]. destruct (Hb ltac:(by left)) as [_ Huser].
    simpl in Huser. fold users in Huser. rewrite Hus in Huser. simpl in Huser. rewrite Huser in Hexact.
    apply Hexact; [done|eauto].
Qed.
End theorems.

(** * Inputs of the theorems on the audit log

    A log with two organizations, one of which keeps its events for 30 days, a sweep that deletes them
    one by one, and a request. *)

Import ClusterSamples.

Definition user : string := "5f0c2f8e-33a2-4d56-8d5a-64a1b1c9a001".
Definition otherOrganization : string := "1a2b3c4d-4c92-4147-b46c-1b018c80f722".

(** Now is the 1000th day. *)
#[export] Instance audit_env : AuditEnv := {|
  uuid_New d := fresh (dom (au_events d) : gset uuid);
  sql_lower s := s;
  time_Parse _ := None;
  time_Now _ := 1000 * day |}.

#[export] Instance audit_laws : AuditLaws.
Proof. intros d. pose proof (is_fresh (dom (au_events d) : gset uuid)) as Hf. by apply not_elem_of_dom in Hf. Qed.

#[export] Instance sweep_env : SweepEnv := {| TryLock := Ok true; ctx_Err _ := None |}.

Definition settings : AuditLogConfig :=
  mkAuditLogConfig true (mkRetentionConfig 90 7 365 60) (mkGarbageCollectionConfig true 1 1 1).

Definition eventOf (organizationId : option uuid) (userId : uuid) (startedAt : Z) : AuditEvent :=
  mkAuditEvent organizationId None "instance.create" "instance" None (Some userId) None None "10.0.0.1" "10.0.0.1"
    AuditStatusSuccess (Some 200) "r" startedAt None.

(** Events of 50 and 10 days ago for each organization and for no organization, and of 200 days ago. *)
Definition events : gmap uuid AuditEvent := list_to_map [
  ("a1", eventOf (Some organization) user (950 * day)); ("a2", eventOf (Some organization) user (990 * day));
  ("b1", eventOf (Some otherOrganization) user (950 * day)); ("b2", eventOf (Some otherOrganization) user (990 * day));
  ("b3", eventOf (Some otherOrganization) user (800 * day));
  ("u1", eventOf None user (930 * day)); ("u2", eventOf None user (990 * day))].

Definition audits : Audits :=
  mkAudits events {[ organization := mkAuditedOrganization (Some 30) false;
                     otherOrganization := mkAuditedOrganization None false ]} ∅ 0.

Definition audited : World Audits := mkWorld no_tables 0 [] audits.

Definition swept_world : World Audits := (Sweep settings 10 audited).2.

(** The sweep deletes the event of 50 days ago of the organization that keeps its events for 30 days,
    that of 200 days ago of the other one, and that of 70 days ago of no organization. *)
Example sweep_sample :
  (Sweep settings 10 audited).1 = Ok (Some (3, None)) ∧
  au_events (outside swept_world) !! "a1" = None ∧ au_events (outside swept_world) !! "b3" = None ∧
  au_events (outside swept_world) !! "u1" = None ∧ size (au_events (outside swept_world)) = 4%nat.
Proof. vm_compute. done. Qed.


(** A setting that is validated and makes the duration overflow: an event of this very day is deleted. *)
Definition longSettings : AuditLogConfig :=
  mkAuditLogConfig true (mkRetentionConfig 106752 1 106752 60) (mkGarbageCollectionConfig true 1 1 100).

Definition today : Audits :=
  mkAudits {[ "t" := eventOf (Some otherOrganization) user (1000 * day) ]} ∅ ∅ 0.

Theorem long_retention_deletes :
  validate longSettings = [] ∧
  au_events (outside (Sweep longSettings 10 (mkWorld no_tables 0 [] today)).2) = ∅.
Proof. vm_compute. done. Qed.

Definition anyFilter (limit offset : Z) : Filter :=
  mkFilter (Some otherOrganization) false None None EmptyString [] [] EmptyString EmptyString EmptyString None None limit offset.

Lemma pages_complete_witness :
  ∃ pages, (∀ i, i < 2 → ∃ p, pages !! i = Some p ∧
      List (at_page (anyFilter 2 0) 2 i) audited =
        (Ok (p, Z.of_nat (length (matching (anyFilter 2 0) (au_events (outside audited))))), audited))%nat ∧
    length pages = 2%nat ∧ mjoin pages = matching (anyFilter 2 0) (au_events (outside audited)).
Proof.
  destruct (pages_complete (anyFilter 2 0) 2 2 audited) as (pages & ? & ? & ? & _).
  - reflexivity.
  - reflexivity.
  - apply Z.leb_le. vm_compute. reflexivity.
  - exists pages. split; [assumption | split; assumption].
Defined.

Lemma listed_events_scoped_witness :
  match ListUserEvents [] (Some user) ∅ audited with
  | (Ok (Events l total limit offset), w') =>
    total = 2 ∧ ∃ u, Some user ≫= uuid_Parse = Some u ∧
      listed (outside audited) l (λ e, ae_UserId e = Some (uuid_String u) ∧ ae_OrganizationId e = None)
  | _ => False
  end.
Proof.
  pose proof (listed_events_scoped [] EmptyString (Some user) ∅ audited) as H.
  destruct (ListUserEvents [] (Some user) ∅ audited) as [[[]|] w'] eqn:Hrun;
    [vm_compute in Hrun; discriminate | | vm_compute in Hrun; discriminate ..].
  destruct (H l total limit offset w') as [_ [Hl _]]; [reflexivity|].
  split; [|exact Hl]. vm_compute in Hrun. congruence.
Defined.

Lemma retention_applied_witness :
  keptDays settings (au_organizations (outside
    (UpdateRetention settings organization (Ok (Some 45)) audited).2)) (eventOf (Some organization) user 0) = 45.
Proof.
  apply (retention_applied (UL:=uuids) settings organization (Some 45) audited (retention settings (Some 45)) _ organization
    (eventOf (Some organization) user 0)).
  - vm_compute. reflexivity.
  - vm_compute. reflexivity.
  - exists (mkAuditedOrganization (Some 30) false). split; vm_compute; reflexivity.
  - right. vm_compute. reflexivity.
  - reflexivity.
Defined.

(** A request to create an instance: the user authenticates, and the handler reports the instance. *)
Definition creation : Audit := mkAudit (mkResource "instance" "Instance") ActionCreate false EmptyString EmptyString false EmptyString.

Definition request : AuditedRequest :=
  CapturePeerAddr (mkAuditedRequest {[ "orgaId" := organization ]} ∅
    {[ "X-Forwarded-For" := "203.0.113.7, 10.0.0.2" ]} "[2001:db8::1]:443" None "r1").

Example client_sample : (ClientIP request, PeerAddr request) = ("203.0.113.7", "2001:db8::1").
Proof. reflexivity. Qed.

Lemma request_recorded_witness :
  ∃ w', Middleware creation request [Authenticated user "jwt"; AuditRecord.Resource "vm-1"] (Returned 0) audited = (Ok tt, w') ∧
    left_event (outside audited) (outside w')
      (ended (requestOf creation request (1000 * day)) (Some user) AuditStatusSuccess 200).
Proof.
  destruct (request_recorded creation request [Authenticated user "jwt"; AuditRecord.Resource "vm-1"] (Returned 0) audited)
    as (w' & Hrun & _ & _ & _ & Hleft).
  exists w'. split; [exact Hrun|].
  apply (Hleft eq_refl user []). reflexivity.
Defined.
