(* ===== verification/Authentication.v ===== *)
(** * Authentication, sessions and tokens
      ([internal/authentication/jwt], [pkg/api/publicHttp/authentication],
      [pkg/services/auth/apitoken], [pkg/services/auth/session], [internal/authorization])

    Who a request comes from, and what it may do: JSON web tokens in a header, an URL or a cookie, API
    tokens, and the checks of permissions. The library of the tokens, the hash, the random bytes, Permify
    and the conversions of Unicode letters are classes. The dates of tokens are in seconds, the clock in
    nanoseconds. *)

From Stdlib Require Import Ascii.
From S2P Require Import Prelude Strings Errors Database SpxId Hierarchical QuotaService NetworkChecks Products Proxy.

(** ** Rows *)

(** [model.User] and [model.ApiToken], without what only other parts read. *)
Record User := mkUser {
  u_Email : string; u_Provider : string; u_ProviderId : string; u_IsActive : bool; u_Deleted : bool }.

(** No date is the zero time. *)
Record ApiToken := mkApiToken {
  t_Name : string; t_Prefix : string; t_UserId : uuid; t_ExpiresAt : option Z;
  t_Salt : string; t_TokenEncrypted : string; t_Deleted : bool }.

(** The tables, and the number of times that the clock and the random generator have been read. *)
Record Accounts := mkAccounts {
  ac_users : gmap uuid User; ac_tokens : gmap uuid ApiToken; ac_reads : nat }.

Definition set_users f (d : Accounts) : Accounts := mkAccounts (f (ac_users d)) (ac_tokens d) (ac_reads d).
Definition set_tokens f (d : Accounts) : Accounts := mkAccounts (ac_users d) (f (ac_tokens d)) (ac_reads d).
Definition next_read (d : Accounts) : Accounts := mkAccounts (ac_users d) (ac_tokens d) (S (ac_reads d)).

(** ** What the code calls *)

Record Claims := mkClaims {
  cl_Issuer : string; cl_Subject : option string; cl_Audience : list string;
  cl_ExpiresAt : Z; cl_NotBefore : Z; cl_IssuedAt : Z }.

(** [jwt.Parse] with HS256 alone and the claims that hold at the time of the call, and [SignedString]. *)
Class JWTLib := {
  jwt_Parse : string → Z → string → option Claims;
  jwt_SignedString : string → Claims → result error string }.

(** The clock and [crypto/rand] at each reading, [gen_random_uuid], [time.Parse] of an RFC 3339 date, the
    SHA3-512 of a text, [strings.EqualFold]. *)
Class AccountsEnv := {
  clock : nat → Z;
  rand_Read : nat → nat → option string;
  newTokenId : Accounts → uuid;
  parseRFC3339 : string → option Z;
  sha3_Sum512 : string → string;
  EqualFold : string → string → bool }.

(** Permify: whether it is connected, and what it answers on an entity, a permission and a user. *)
Class Permify := {
  IsConnected : bool;
  Check : string → string * string → string → string → result error bool }.

(** ** Configuration *)

Record SessionConfig := mkSessionConfig {
  JwtIssuer : string; JwtSecret : string; AccessValidity : Z; RefreshValidity : Z;
  DefaultReturnUrl : string; AllowedOrigins : list string; AllowUnsafeWildcard : bool; SuperAdmins : list string }.

(** ** Requests *)

(** The query parameter [bearer], the header [Authorization], the cookie of the session; empty when there
    is none, but for the cookie. *)
Record AuthRequest := mkAuthRequest { ar_Bearer : string; ar_Authorization : string; ar_Cookie : option string }.

(** The values of the context. *)
Record Context := mkContext { ctx_SessionId : option string; ctx_UserId : option string }.

Definition second : Z := 1000000000.

(** *** [strings.Fields] *)

(** The length of the space at the start of a text, 0 if there is none. *)
Definition spaceAt (s : string) : nat :=
  match head (omap (λ sp, (λ _, String.length sp) <$> cutPrefix sp s) spaces) with Some n => n | None => 0%nat end.

Definition flush (field : string) : list string :=
  if decide (field = EmptyString) then [] else [field].

(** [skip] bytes remain of a space; [field] is what has been read of a field. *)
Fixpoint fieldsFrom (skip : nat) (field : string) (s : string) : list string :=
  match s with
  | EmptyString => flush field
  | String c rest =>
    match skip with
    | S skip => fieldsFrom skip EmptyString rest
    | O => match spaceAt s with
           | S n => flush field ++ fieldsFrom n EmptyString rest
           | O => fieldsFrom 0 (field +:+ String c EmptyString) rest
           end
    end
  end.

Definition Fields (s : string) : list string := fieldsFrom 0 EmptyString s.

(** *** [encoding/hex] *)
Definition lowerHex (d : N) : ascii := ascii_of_N (if decide (d < 10)%N then 48 + d else 87 + d)%N.

Fixpoint hexEncode (s : string) : string :=
  match s with
  | EmptyString => EmptyString
  | String c s => let n := N_of_ascii c in
    String (lowerHex (n / 16)) (String (lowerHex (n mod 16)) (hexEncode s))
  end.

Section authentication.
Context {UL : UUIDLib} {JL : JWTLib} {AE : AccountsEnv} {CL : CaseLib} (cfg : SessionConfig).

(** ** The database ([crud/user], [crud/api-token]) *)

Definition read_clock : M Accounts Z := λ w,
  (Ok (clock (ac_reads (outside w))), with_outside w (next_read (outside w))).

Definition liveUsers (d : Accounts) : list (uuid * User) :=
  order_by String.le (map_to_list (filter (λ kv, u_Deleted kv.2 = false) (ac_users d))).

(** [crud.Find]: the first row by key, among those of the columns that are given. *)
Definition userWhere (id : uuid) (provider providerId : string) (d : Accounts) : option (uuid * User) :=
  head (filter (λ kv, column uuid_Nil id kv.1 && column EmptyString provider (u_Provider kv.2) &&
    column EmptyString providerId (u_ProviderId kv.2) = true) (liveUsers d)).

Definition found {A} (row : option A) : M Accounts A :=
  match row with Some a => mret a | None => fail ErrRecordNotFound end.

Definition KratosProvider : string := "Kratos".

Definition FindByProviderId (providerId provider : string) : M Accounts (uuid * User) :=
  row ← read_rows (userWhere uuid_Nil provider providerId); found row.

(** A user that is not found is not active. *)
Definition IsUserActive (userId : string) : M Accounts bool :=
  row ← read_rows (userWhere (parsedOrNil userId) EmptyString EmptyString);
  mret match row with Some (_, user) => u_IsActive user | None => false end.

Definition tokensByPrefix (prefix : string) (d : Accounts) : list (uuid * ApiToken) :=
  map_to_list (filter (λ kv, t_Deleted kv.2 = false ∧ column EmptyString prefix (t_Prefix kv.2) = true) (ac_tokens d)).

(** The user of a token, which is preloaded unless it is deleted. *)
Definition userOf (d : Accounts) (t : ApiToken) : option User :=
  match ac_users d !! t_UserId t with
  | Some user => if u_Deleted user then None else Some user
  | None => None
  end.

(** The tokens, with their users. *)
Definition FindAllByTokenPrefix (prefix : string) : M Accounts (list (ApiToken * option User)) :=
  read_rows (λ d, (λ kv, (kv.2, userOf d kv.2)) <$> tokensByPrefix prefix d).

Definition SaveToken (t : ApiToken) : M Accounts uuid :=
  write_rows (λ d, let id := newTokenId d in (id, set_tokens <[id := t]> d)).

Definition FindTokenById (tokenId : uuid) : M Accounts (uuid * ApiToken) :=
  row ← read_rows (λ d, head (filter (λ kv, column uuid_Nil tokenId kv.1 = true)
    (order_by String.le (map_to_list (filter (λ kv, t_Deleted kv.2 = false) (ac_tokens d))))));
  found row.

Definition soft_delete_token (t : ApiToken) : ApiToken :=
  mkApiToken (t_Name t) (t_Prefix t) (t_UserId t) (t_ExpiresAt t) (t_Salt t) (t_TokenEncrypted t) true.

Definition DeleteTokenById (tokenId : uuid) : M Accounts unit :=
  write_rows (λ d, (tt, set_tokens (alter soft_delete_token tokenId) d)).

Definition FindAllByUser (userId : uuid) : M Accounts (list (uuid * ApiToken)) :=
  read_rows (λ d, map_to_list (filter (λ kv, t_Deleted kv.2 = false ∧ column uuid_Nil userId (t_UserId kv.2) = true)
    (ac_tokens d))).

(** ** JSON web tokens ([internal/authentication/jwt/jwt.go]) *)

Definition AccessAudience : string := "access".
Definition RefreshAudience : string := "refresh".

(** [NewNumericDate]: the seconds. *)
Definition NumericDate (t : Z) : Z := t `div` second.

(** The claims of a new token; an empty subject is left out. *)
Definition newClaims (audience : string) (validityDuration : Z) (subjectID : string) : M Accounts Claims :=
  t1 ← read_clock; t2 ← read_clock; t3 ← read_clock;
  mret (mkClaims (JwtIssuer cfg) (if decide (subjectID = EmptyString) then None else Some subjectID) [audience]
    (NumericDate (t1 + validityDuration)) (NumericDate t2) (NumericDate t3)).

Definition NewJWTWithSubjectID := newClaims AccessAudience.
Definition NewRefreshToken := newClaims RefreshAudience.

Definition CreateAccessToken (validityDuration : Z) (subjectID : string) : M Accounts string :=
  claims ← NewJWTWithSubjectID validityDuration subjectID; lift (jwt_SignedString (JwtSecret cfg) claims).

(** The access and the refresh token. *)
Definition CreateAccessAndRefreshTokens (validityAccess validityRefresh : Z) (subjectID : string) :
    M Accounts (string * string) :=
  access ← NewJWTWithSubjectID validityAccess subjectID;
  t ← lift (jwt_SignedString (JwtSecret cfg) access);
  refresh ← NewRefreshToken validityRefresh subjectID;
  rt ← lift (jwt_SignedString (JwtSecret cfg) refresh);
  mret (t, rt).

(** [claims.VerifyIssuer(TokenIssuer, true)]: the claim is there and equal. *)
Definition VerifyIssuer (claims : Claims) : bool :=
  bool_decide (cl_Issuer claims ≠ EmptyString ∧ cl_Issuer claims = JwtIssuer cfg).

Definition ParseTokenString (tokenString : string) : M Accounts Claims :=
  now ← read_clock;
  match jwt_Parse (JwtSecret cfg) now tokenString with
  | None => fail (errors_New "invalid token")
  | Some claims => if VerifyIssuer claims then mret claims else fail (errors_New "invalid token issuer")
  end.

Definition IsAudience (claims : Claims) (audience : string) : bool := bool_decide (audience ∈ cl_Audience claims).

Definition UpdateRequestContext (claims : Claims) : Context := mkContext (cl_Subject claims) None.

(** ** From a session to a user ([publicHttp/authentication/utils.go]) *)

Definition RetrieveUserFromSession (ctx : Context) : M Accounts Context :=
  match ctx_SessionId ctx with
  | None => fail (errors_New "no session found")
  | Some sessionId =>
    '(id, _) ← FindByProviderId sessionId KratosProvider;
    active ← IsUserActive id;
    if active : bool then mret (mkContext (Some sessionId) (Some id)) else fail (errors_New "user is not active")
  end.

(** ** Types of authentication *)

Record AuthType := mkAuthType {
  at_Name : string; at_Detection : AuthRequest → bool; at_Validation : AuthRequest → M Accounts Context }.

(** *** Bearer tokens ([publicHttp/authentication/jwt]) *)

Definition TokenHeaderKeyword : string := "bearer".

Inductive location := InURL | InHeader | Nowhere.

Definition detectBearerToken (r : AuthRequest) : location :=
  if decide (ar_Bearer r ≠ EmptyString) then InURL else
  match Fields (ar_Authorization r) with
  | [] => Nowhere
  | keyword :: _ => if EqualFold keyword TokenHeaderKeyword then InHeader else Nowhere
  end.

(** Two fields, the first of which is the keyword. *)
Definition bearerFromHeader (r : AuthRequest) : result error string :=
  if decide (ar_Authorization r = EmptyString) then Ok EmptyString else
  match Fields (ar_Authorization r) with
  | [keyword; token] =>
    if EqualFold keyword TokenHeaderKeyword then Ok token
    else Err (errors_New "authorization header format must be Bearer {token}")
  | _ => Err (errors_New "authorization header format must be Bearer {token}")
  end.

Definition InvalidToken (e : error) : error := errors_New ("token is invalid: " +:+ err_text e).

Definition validateToken (token : result error string) : M Accounts Claims :=
  token ← lift token;
  r ← attempt (ParseTokenString token);
  match r with Ok claims => mret claims | Err e => fail (InvalidToken e) end.

Definition validateJwt (r : AuthRequest) : M Accounts Context :=
  claims ← match detectBearerToken r with
    | InURL => validateToken (Ok (ar_Bearer r))
    | InHeader => validateToken (bearerFromHeader r)
    | Nowhere => fail (errors_New "token not found")
    end;
  if negb (IsAudience claims AccessAudience) then fail (errors_New "invalid audience")
  else RetrieveUserFromSession (UpdateRequestContext claims).

Definition JwtBearerAuth : AuthType :=
  mkAuthType "JwtBearer" (λ r, match detectBearerToken r with Nowhere => false | _ => true end) validateJwt.

(** *** API tokens ([services/auth/apitoken/auth.go]) *)

Definition tokenHeaderKeyword : string := "api-token".

Definition hashToken (token salt : string) : string := hexEncode (sha3_Sum512 (token +:+ ":" +:+ salt)).

Definition verifyToken (token salt hashedToken : string) : bool := bool_decide (hashToken token salt = hashedToken).

Definition detectApiToken (r : AuthRequest) : bool :=
  match Fields (ar_Authorization r) with [] => false | keyword :: _ => EqualFold keyword tokenHeaderKeyword end.

Definition apiTokenFromHeader (r : AuthRequest) : result error string :=
  if decide (ar_Authorization r = EmptyString) then Ok EmptyString else
  match Fields (ar_Authorization r) with
  | [keyword; token] =>
    if decide (ToLower keyword = tokenHeaderKeyword) then Ok token
    else Err (errors_New "authorization header format must be api-token {token}")
  | _ => Err (errors_New "authorization header format must be api-token {token}")
  end.

(** The user exists and is active: a user that was not loaded has no key. *)
Definition usable (t : ApiToken) (user : option User) : bool :=
  match user with Some u => bool_decide (t_UserId t ≠ uuid_Nil) && u_IsActive u | None => false end.

Definition validateApiToken (r : AuthRequest) : M Accounts Context :=
  token ← lift (apiTokenFromHeader r);
  if decide (String.length token < 8)%nat then fail (errors_New "API Token invalid") else
  userTokens ← FindAllByTokenPrefix (String.substring 0 8 token);
  match head (filter (λ tu, verifyToken token (t_Salt tu.1) (t_TokenEncrypted tu.1) = true) userTokens) with
  | None => fail (errors_New "API Token invalid")
  | Some (t, user) =>
    if negb (usable t user) then fail (errors_New "API Token invalid") else
    match t_ExpiresAt t with
    | None => mret (mkContext None (Some (t_UserId t)))
    | Some expiresAt =>
      now ← read_clock;
      if decide (expiresAt < now) then fail (errors_New "API Token expired")
      else mret (mkContext None (Some (t_UserId t)))
    end
  end.

Definition ApiTokenAuth : AuthType := mkAuthType "ApiTokenAuth" detectApiToken validateApiToken.

(** *** Refresh tokens ([services/auth/session]) *)

Definition validateRefresh (r : AuthRequest) : M Accounts Context :=
  match ar_Cookie r with
  | None => fail (errors_New "http: named cookie not present")
  | Some value =>
    claims ← ParseTokenString value;
    if negb (IsAudience claims RefreshAudience) then fail (errors_New "the token is not a refresh token")
    else RetrieveUserFromSession (UpdateRequestContext claims)
  end.

Definition RefreshAuth : AuthType :=
  mkAuthType "RefreshAuth" (λ r, match ar_Cookie r with Some _ => true | None => false end) validateRefresh.

(** ** The middleware ([publicHttp/authentication/middleware.go]) *)

(** The request goes on with a context, as a user whose audit begins, or is answered 401. *)
Inductive admission := Unauthorized | Accepted (ctx : Context) (authType : string).

(** The first type that is detected decides. *)
Fixpoint Authenticate (authTypes : list AuthType) (r : AuthRequest) : M Accounts admission :=
  match authTypes with
  | [] => mret Unauthorized
  | authType :: authTypes =>
    if at_Detection authType r then
      res ← attempt (at_Validation authType r);
      mret match res with Err _ => Unauthorized | Ok ctx => Accepted ctx (at_Name authType) end
    else Authenticate authTypes r
  end.
End authentication.

(** ** Endpoints *)

Record Cookie := mkCookie { ck_Value : string; ck_Expires : Z; ck_MaxAge : Z }.

Inductive auth_reply :=
  | Failure (status : Z) (message : string)
  | NotActive (url : string)                              (* the audit of the request fails *)
  | Redirected (cookie : Cookie) (url : string)
  | Session (accessToken : string) (user : option uuid)
  | TokenCreated (id : uuid) (token : string)             (* the audited resource is the key *)
  | NoContent
  | TokenList (l : list (uuid * ApiToken)).

Section endpoints.
Context {UL : UUIDLib} {JL : JWTLib} {AE : AccountsEnv} {CL : CaseLib} {UR : URLLib} (cfg : SessionConfig).

(** *** API tokens ([services/auth/apitoken/endpoints.go]) *)

Definition fetchUser (ctx : Context) : option uuid :=
  userId ← ctx_UserId ctx; parsed ← uuid_Parse userId; Some (uuid_String parsed).

Definition randBytes (n : nat) : M Accounts string := λ w,
  let w' := with_outside w (next_read (outside w)) in
  match rand_Read (ac_reads (outside w)) n with
  | Some bytes => (Ok bytes, w')
  | None => (Err (errors_New "rand"), w')
  end.

(** The prefix, the salt and the token. *)
Definition generateToken : M Accounts (string * string * string) :=
  prefixBytes ← randBytes 4; saltBytes ← randBytes 16; tokenBytes ← randBytes 28;
  let prefix := hexEncode prefixBytes in
  mret (prefix, hexEncode saltBytes, prefix +:+ hexEncode tokenBytes).

(** The date until which the token is valid, or the answer. *)
Definition parseExpiry (expiresAt : string) : M Accounts (auth_reply + option Z) :=
  if decide (expiresAt = EmptyString) then mret (inr None) else
  match parseRFC3339 expiresAt with
  | None => mret (inl (Failure 400 "Invalid expires_at format (RFC3339 expected)"))
  | Some date =>
    now ← read_clock;
    if decide (date < now) then mret (inl (Failure 400 "ExpiresAt must be in the future")) else mret (inr (Some date))
  end.

Definition saveNewToken (userUUID : uuid) (name : string) (expiresAt : option Z) : M Accounts auth_reply :=
  generated ← attempt generateToken;
  match generated with
  | Err _ => mret (Failure 500 "Failed to generate token")
  | Ok (prefix, salt, token) =>
    saved ← attempt (SaveToken (mkApiToken name prefix userUUID expiresAt salt (hashToken token salt) false));
    mret match saved with
    | Err _ => Failure 500 "Failed to save api token"
    | Ok id => TokenCreated id token
    end
  end.

(** The body that was decoded, a name and a date, or the answer of the decoder. *)
Definition CreateAPIToken (ctx : Context) (body : result auth_reply (string * string)) : M Accounts auth_reply :=
  match body with
  | Err answer => mret answer
  | Ok (name, expiresAt) =>
    match fetchUser ctx with
    | None => mret (Failure 401 "Unauthorized")
    | Some userUUID =>
      r ← parseExpiry expiresAt;
      match r with inl answer => mret answer | inr expiry => saveNewToken userUUID name expiry end
    end
  end.

Definition RevokeAPIToken (ctx : Context) (tokenIdStr : string) : M Accounts auth_reply :=
  match uuid_Parse tokenIdStr with
  | None => mret (Failure 400 "Invalid tokenId format")
  | Some parsed =>
    let tokenId := uuid_String parsed in
    match fetchUser ctx with
    | None => mret (Failure 401 "Unauthorized")
    | Some userUUID =>
      token ← attempt (FindTokenById tokenId);
      match token with
      | Err _ => mret (Failure 404 "Api token not found")
      | Ok (_, token) =>
        if decide (t_UserId token ≠ userUUID) then mret (Failure 404 "Api token not found") else
        r ← attempt (DeleteTokenById tokenId);
        mret match r with Err _ => Failure 500 "Failed to delete api token" | Ok _ => NoContent end
      end
    end
  end.

(** What is shown of a token is neither its salt nor its hash. *)
Definition shown (t : ApiToken) : ApiToken :=
  mkApiToken (t_Name t) (t_Prefix t) uuid_Nil (t_ExpiresAt t) EmptyString EmptyString false.

Definition ListAPIToken (ctx : Context) : M Accounts auth_reply :=
  match fetchUser ctx with
  | None => mret (Failure 401 "Unauthorized")
  | Some userUUID =>
    r ← attempt (FindAllByUser userUUID);
    mret match r with
    | Err _ => Failure 500 "Failed to fetch api tokens"
    | Ok tokens => TokenList ((λ kv, (kv.1, shown kv.2)) <$> tokens)
    end
  end.

(** *** Sessions ([services/auth/session/session.go]) *)

Definition contactAdminResponse : auth_reply := NotActive (DefaultReturnUrl cfg +:+ "?" +:+ "not_active=true").

(** The URL to come back to, which ends where the token is added. *)
Definition parseReturnUrl (returnTo : string) : string :=
  let default := DefaultReturnUrl cfg +:+ "?" in
  match url_Parse returnTo with
  | None => default
  | Some u =>
    if decide (Host u = EmptyString) then default else
    let origin := Scheme u +:+ "://" +:+ Host u in
    if existsb (λ allowedOrigin, bool_decide (allowedOrigin = "*") && AllowUnsafeWildcard cfg || EqualFold allowedOrigin origin)
      (AllowedOrigins cfg)
    then
      let returnPath := if decide (Path u = EmptyString) then "/" else Path u in
      Scheme u +:+ "://" +:+ Host u +:+ "/callback?return_to=" +:+ returnPath +:+ "&"
    else default
  end.

(** An answer of an error or of a session that is not there. *)
Definition internalError : auth_reply := Failure 500 "Internal Server Error".

(** The session and the user of the context, when the user is active. *)
Definition withActiveUser (ctx : Context) (next : string → M Accounts auth_reply) : M Accounts auth_reply :=
  match ctx_SessionId ctx, ctx_UserId ctx with
  | Some sessionId, Some userId =>
    r ← attempt (IsUserActive userId);
    match r with Ok true => next sessionId | _ => mret contactAdminResponse end
  | _, _ => mret internalError
  end.

Definition RetrieveAccessToken (ctx : Context) : M Accounts auth_reply :=
  withActiveUser ctx (λ sessionId,
    r ← attempt (CreateAccessToken cfg (AccessValidity cfg) sessionId);
    match r with
    | Err _ => mret internalError
    | Ok accessToken =>
      user ← attempt (FindByProviderId sessionId KratosProvider);
      mret (Session accessToken match user with Ok (id, _) => Some id | Err _ => None end)
    end).

Definition GenerateTokens (ctx : Context) (returnTo : string) : M Accounts auth_reply :=
  withActiveUser ctx (λ sessionId,
    let urlReturnTo := parseReturnUrl returnTo in
    r ← attempt (CreateAccessAndRefreshTokens cfg (AccessValidity cfg) (RefreshValidity cfg) sessionId);
    match r with
    | Err _ => mret internalError
    | Ok (access, refresh) =>
      now ← read_clock;
      mret (Redirected (mkCookie refresh (now + RefreshValidity cfg) (RefreshValidity cfg `div` second))
        (urlReturnTo +:+ "session=" +:+ access))
    end).

Definition Logout : M Accounts auth_reply :=
  now ← read_clock; mret (Redirected (mkCookie EmptyString now 0) (DefaultReturnUrl cfg)).
End endpoints.

(** ** Permissions ([internal/authorization], [pkg/permify-wrapper]) *)
Section permissions.
Context {P : Permify} (cfg : SessionConfig).

Definition EntityOrganization : string := "organization".
Definition EntityOfProject : string := "project".

Definition organizationPermissions : list string :=
  ["OrganizationRead"; "OrganizationWrite"; "OrganizationIAMRead"; "OrganizationIAMWrite"; "OrganizationBillingRead";
   "OrganizationBillingWrite"; "OrganizationAuditLogRead"; "OrganizationAuditLogWrite"; "OrganizationProjectManagement";
   "OrganizationProjectQuotaRead"; "OrganizationProjectQuotaWrite"].

Definition projectPermissions : list string :=
  ["ProjectRead"; "ProjectInstanceRead"; "ProjectInstanceTerminal"; "ProjectInstanceControl"; "ProjectInstanceWrite";
   "ProjectDiskRead"; "ProjectDiskWrite"; "ProjectSnapshotRead"; "ProjectSnapshotWrite"; "ProjectVPCRead"; "ProjectVPCWrite";
   "ProjectSubnetRead"; "ProjectSubnetWrite"; "ProjectEipRead"; "ProjectEipWrite"; "ProjectLoadBalancerRead";
   "ProjectLoadBalancerWrite"; "ProjectSecurityGroupRead"; "ProjectSecurityGroupWrite"; "ProjectSSHRead"; "ProjectSSHWrite";
   "ProjectKaaSRead"; "ProjectKaaSKubeConfig"; "ProjectKaaSWrite"; "ProjectBaaSRead"; "ProjectBaaSWrite"; "ProjectBucketRead";
   "ProjectBucketCredentials"; "ProjectBucketWrite"; "ProjectAZQuotaRead"; "ProjectAZQuotaWrite"; "ProjectArgoCdRead"].

(** An unknown permission has no entity. *)
Definition PermissionsEntityMap (permission : string) : string :=
  if decide (permission ∈ organizationPermissions) then EntityOrganization
  else if decide (permission ∈ projectPermissions) then EntityOfProject else EmptyString.

Definition CanAccess (tenantId permission entityId subjectId : string) : bool :=
  if negb IsConnected then false else
  match Check tenantId (PermissionsEntityMap permission, entityId) permission subjectId with
  | Err _ => false
  | Ok can => can
  end.

Definition IsSuperAdminUser (userId : string) : bool :=
  bool_decide (userId ≠ EmptyString ∧ userId ∈ SuperAdmins cfg).

Definition entityIdOf (permission orgaId projectId : string) : string :=
  let e := PermissionsEntityMap permission in
  if decide (e = EntityOrganization) then orgaId
  else if decide (e = EntityOfProject) then projectId else EmptyString.

Definition CheckPermissionForRequest (ctx : Context) (orgaId projectId permission : string) : bool :=
  match ctx_UserId ctx with
  | None => false
  | Some userId =>
    IsSuperAdminUser userId || CanAccess orgaId permission (entityIdOf permission orgaId projectId) userId
  end.

(** The middleware of a route goes on, answers 403, or panics when there is no user: its message asserts one. *)
Inductive verdict := Passes | Forbidden | Panics.

Definition CheckPermission (ctx : Context) (orgaId projectId permission : string) : verdict :=
  if CheckPermissionForRequest ctx orgaId projectId permission then Passes
  else match ctx_UserId ctx with Some _ => Forbidden | None => Panics end.
End permissions.

(** A route behind [Authenticate] with bearer and API tokens, and a list of permissions. *)
Section routes.
Context {UL : UUIDLib} {JL : JWTLib} {AE : AccountsEnv} {CL : CaseLib} {P : Permify} (cfg : SessionConfig).

Definition jwtOrToken : list AuthType := [JwtBearerAuth cfg; ApiTokenAuth].

(** The middlewares of a route in order: the status of the refusal, or the context of the handler. *)
Definition guardRoute (permissions : list string) (r : AuthRequest) (orgaId projectId : string) :
    M Accounts (Z + Context) :=
  admitted ← Authenticate jwtOrToken r;
  mret match admitted with
  | Unauthorized => inl 401
  | Accepted ctx _ =>
    if forallb (CheckPermissionForRequest cfg ctx orgaId projectId) permissions then inr ctx else inl 403
  end.
End routes.
