(* ===== verification/AuthTheorems.v ===== *)
(** * Who a request comes from, and until when

    A request only goes on as an active user who holds a signed token of a session or an API token;
    the tokens that a session or a creation gives are accepted for their user until they expire or are
    revoked, and those of one use are not accepted for the other; the tokens of a session are only sent
    to an allowed origin. *)

From Stdlib Require Import Ascii.
From S2P Require Import Prelude Strings Errors Database Hierarchical SpxId ControllerLaws QuotaService.
From S2P Require Import NetworkChecks Products Proxy Authentication.

(** ** What is assumed of the libraries *)

(** A signed token is not empty, and it is read back while the clock, in seconds, is within its dates. *)
Class JWTLaws {JL : JWTLib} : Prop := {
  signed_nonempty secret c tok : jwt_SignedString secret c = Ok tok → tok ≠ EmptyString;
  signed_read secret c tok now : jwt_SignedString secret c = Ok tok →
    jwt_Parse secret now tok =
      if decide (cl_NotBefore c * second ≤ now ∧ cl_IssuedAt c * second ≤ now ∧ now < cl_ExpiresAt c * second)
      then Some c else None }.

(** The clock does not go back, the generator fills its buffer, and the conversions keep a keyword in
    small letters. *)
Class AccountsLaws {AE : AccountsEnv} {CL : CaseLib} : Prop := {
  clock_monotone i j : (i ≤ j)%nat → clock i ≤ clock j;
  rand_length i n s : rand_Read i n = Some s → String.length s = n;
  EqualFold_refl s : EqualFold s s = true;
  EqualFold_keywords : EqualFold tokenHeaderKeyword TokenHeaderKeyword = false;
  ToLower_keyword : ToLower tokenHeaderKeyword = tokenHeaderKeyword }.

(** ** Texts *)

Lemma spaceAt_graphic c s : graphic c = true → spaceAt (String c s) = 0%nat.
Proof.
  intros Hc. unfold spaceAt.
  replace (omap _ spaces) with (@nil nat); [done|]. symmetry. apply elem_of_nil_inv.
  intros n (sp & Hin & Hx)%list_elem_of_omap.
  assert (forallb (λ sp, match sp with EmptyString => false | String c _ => negb (graphic c) end) spaces = true) as Hall
    by by vm_compute.
  rewrite forallb_forall in Hall. specialize (Hall sp). rewrite <-list_elem_of_In in Hall. specialize (Hall Hin).
  destruct sp as [|c' sp]; [done|]. simpl in Hx. case_decide; [|done]. subst. by rewrite Hc in Hall.
Qed.

Lemma fieldsFrom_graphic field s rest :
  all_bytes graphic s = true →
  fieldsFrom 0 field (s +:+ rest) = fieldsFrom 0 (field +:+ s) rest.
Proof.
  revert field. induction s as [|c s IH]; intros field Hs; [by rewrite string_app_nil_r|].
  simpl in Hs. apply andb_true_iff in Hs as [Hc Hs].
  change (String c s +:+ rest) with (String c (s +:+ rest)). cbn [fieldsFrom].
  rewrite spaceAt_graphic by done. rewrite IH by done. by rewrite string_app_assoc.
Qed.

(** A keyword and a token, apart by a space. *)
Lemma Fields_two k t :
  all_bytes graphic k = true → all_bytes graphic t = true → k ≠ EmptyString → t ≠ EmptyString →
  Fields (k +:+ " " +:+ t) = [k; t].
Proof.
  intros Hk Ht Hk0 Ht0. unfold Fields. rewrite fieldsFrom_graphic by done.
  change (EmptyString +:+ k) with k. change (" " +:+ t) with (String " "%char t). cbn [fieldsFrom].
  assert (spaceAt (String " "%char t) = 1%nat) as -> by by vm_compute.
  rewrite <-(string_app_nil_r t) at 1. rewrite fieldsFrom_graphic by done. cbn [fieldsFrom].
  unfold flush. rewrite !decide_False by done. done.
Qed.

Lemma hexEncode_graphic s : all_bytes graphic (hexEncode s) = true.
Proof.
  assert (∀ d, (d < 16)%N → graphic (lowerHex d) = true) as Hd.
  { intros d Hd. unfold graphic, lowerHex. apply bool_decide_eq_true.
    case_decide; rewrite N_ascii_embedding by lia; lia. }
  induction s as [|c s IH]; [done|]. simpl. pose proof (N_ascii_bounded c).
  rewrite IH, !Hd; [done|apply N.mod_lt; lia|apply N.Div0.div_lt_upper_bound; lia].
Qed.

Lemma hexEncode_length s : String.length (hexEncode s) = (2 * String.length s)%nat.
Proof. induction s as [|c s IH]; [done|]. simpl. rewrite IH. lia. Qed.

Lemma substring_prefix p s : String.substring 0 (String.length p) (p +:+ s) = p.
Proof. induction p as [|c p IH]; simpl; [by destruct s|]. by f_equal. Qed.

(** ** Rows *)
Section rows.
Context {UL : UUIDLib} {JL : JWTLib} {AE : AccountsEnv} {CL : CaseLib}.

(** A UUID in its canonical form, and not the zero one. *)
Definition canonical (id : uuid) : Prop := id ≠ uuid_Nil ∧ parsedOrNil id = id.

Lemma canonical_parsed id : canonical id → ∃ parsed, uuid_Parse id = Some parsed ∧ uuid_String parsed = id.
Proof. intros [Hn Hp]. unfold parsedOrNil in Hp. destruct (uuid_Parse id); [eauto|done]. Qed.

Definition keyed (users : gmap uuid User) : Prop := map_Forall (λ id _, canonical id) users.

(** The user exists, is not deleted and is active. *)
Definition active (d : Accounts) (id : uuid) : Prop :=
  ∃ user, ac_users d !! id = Some user ∧ u_Deleted user = false ∧ u_IsActive user = true.

Lemma elem_of_liveUsers d id user :
  (id, user) ∈ liveUsers d ↔ ac_users d !! id = Some user ∧ u_Deleted user = false.
Proof. unfold liveUsers, order_by. by rewrite merge_sort_Permutation, elem_of_map_to_list, map_lookup_filter_Some. Qed.

Lemma column_spec zero value actual : column zero value actual = true ↔ value = zero ∨ actual = value.
Proof. apply bool_decide_eq_true. Qed.

Lemma head_filter_Some {A} (P : A → Prop) `{!∀ x, Decision (P x)} (l : list A) x :
  head (filter P l) = Some x → x ∈ l ∧ P x.
Proof.
  intros Hh. assert (x ∈ filter P l) as Hx by (destruct (filter P l); simplify_eq/=; by left).
  by apply list_elem_of_filter in Hx as [].
Qed.

Lemma head_filter_unique {A} (P : A → Prop) `{!∀ x, Decision (P x)} (l : list A) x :
  x ∈ l → P x → (∀ y, y ∈ l → P y → y = x) → head (filter P l) = Some x.
Proof.
  intros Hin Hx Huniq. destruct (filter P l) as [|y l'] eqn:Hl.
  - assert (x ∈ filter P l) as H by by apply list_elem_of_filter. rewrite Hl in H. by apply not_elem_of_nil in H.
  - simpl. f_equal. assert (y ∈ filter P l) as [? ?]%list_elem_of_filter by (rewrite Hl; by left). by apply Huniq.
Qed.

Lemma userWhere_Some id provider providerId d u user :
  userWhere id provider providerId d = Some (u, user) →
  ac_users d !! u = Some user ∧ u_Deleted user = false ∧ (id = uuid_Nil ∨ u = id) ∧
  (provider = EmptyString ∨ u_Provider user = provider) ∧ (providerId = EmptyString ∨ u_ProviderId user = providerId).
Proof.
  unfold userWhere. intros [[Hu Hl]%elem_of_liveUsers Hc]%head_filter_Some. simpl in Hc.
  rewrite !andb_true_iff, !column_spec in Hc. tauto.
Qed.

(** The row of a key, by its key. *)
Lemma userWhere_key d id user :
  keyed (ac_users d) → ac_users d !! id = Some user → u_Deleted user = false →
  userWhere (parsedOrNil id) EmptyString EmptyString d = Some (id, user).
Proof.
  intros Hk Hid Hl. destruct (Hk _ _ Hid) as [Hne Hp]. rewrite Hp. apply head_filter_unique.
  - by apply elem_of_liveUsers.
  - simpl. rewrite !andb_true_iff, !column_spec. auto.
  - intros [id' user'] [Hin _]%elem_of_liveUsers Hc. simpl in Hc. rewrite !andb_true_iff, !column_spec in Hc.
    destruct Hc as [[[?|?] _] _]; [done|]. by simplify_eq.
Qed.

(** Nothing but readings of the clock separates the two states. *)
Definition same_rows (d d' : Accounts) : Prop :=
  ac_users d' = ac_users d ∧ ac_tokens d' = ac_tokens d ∧ (ac_reads d ≤ ac_reads d')%nat.

#[export] Instance same_rows_preorder : PreOrder same_rows.
Proof.
  split; [by intros d|]. intros d1 d2 d3 (?&?&?) (?&?&?). split_and!; [congruence..|lia].
Qed.

Lemma read_rows_same {A} (f : Accounts → A) w : same_rows (outside w) (outside (read_rows f w).2).
Proof. by rewrite read_rows_outside. Qed.

(** [n] more readings. *)
Definition advance (n : nat) (w : World Accounts) : World Accounts :=
  with_outside w (mkAccounts (ac_users (outside w)) (ac_tokens (outside w)) (n + ac_reads (outside w))).

(** The session of a user: what finding it reads, and what it answers. *)
Lemma RetrieveUserFromSession_sound ctx w ctx' w' :
  keyed (ac_users (outside w)) →
  RetrieveUserFromSession ctx w = (Ok ctx', w') →
  same_rows (outside w) (outside w') ∧
  ∃ sessionId u user, ctx_SessionId ctx = Some sessionId ∧ ctx' = mkContext (Some sessionId) (Some u) ∧
    ac_users (outside w) !! u = Some user ∧ u_Deleted user = false ∧ u_IsActive user = true ∧
    u_Provider user = KratosProvider ∧ (sessionId = EmptyString ∨ u_ProviderId user = sessionId).
Proof.
  intros Hk. unfold RetrieveUserFromSession. destruct (ctx_SessionId ctx) as [sessionId|]; [|done].
  intros ([u user] & w1 & Hfind & Hrun)%bind_Ok. unfold FindByProviderId in Hfind.
  apply bind_Ok in Hfind as (row & w2 & [-> H2]%read_rows_run & Hrow).
  destruct (userWhere _ _ _ _) as [[u' user']|] eqn:Hw; [|done]. injection Hrow as -> -> ->.
  apply userWhere_Some in Hw as (Hu & Hl & _ & Hp & Hpid).
  apply bind_Ok in Hrun as (act & w3 & Hact & Hrun). unfold IsUserActive in Hact.
  apply bind_Ok in Hact as (row & w4 & [-> H4]%read_rows_run & [= <- <-]).
  rewrite H2, (userWhere_key _ _ user Hk Hu Hl) in Hrun. destruct (u_IsActive user) eqn:Ha; [|done].
  injection Hrun as <- <-. split; [by rewrite H4, H2|].
  exists sessionId, u, user. destruct Hp; [done|]. by split_and!.
Qed.

Lemma RetrieveUserFromSession_complete sessionId u user w :
  faults w = [] → keyed (ac_users (outside w)) →
  ac_users (outside w) !! u = Some user → u_Deleted user = false →
  userWhere uuid_Nil KratosProvider sessionId (outside w) = Some (u, user) →
  RetrieveUserFromSession (mkContext (Some sessionId) None) w =
    (if u_IsActive user then Ok (mkContext (Some sessionId) (Some u)) else Err (errors_New "user is not active"), w).
Proof.
  intros Hf Hk Hu Hl Hw. unfold RetrieveUserFromSession, FindByProviderId, IsUserActive. cbn [ctx_SessionId].
  rewrite !bind_eq, read_rows_exact, Hw by done. cbn. rewrite !bind_eq, read_rows_exact by done.
  rewrite (userWhere_key _ _ user) by done. cbn. by destruct (u_IsActive user).
Qed.

Lemma FindAllByTokenPrefix_elem prefix d t user :
  (t, user) ∈ (λ kv, (kv.2, userOf d kv.2)) <$> tokensByPrefix prefix d →
  (∃ id, ac_tokens d !! id = Some t) ∧ t_Deleted t = false ∧ (prefix = EmptyString ∨ t_Prefix t = prefix) ∧ user = userOf d t.
Proof.
  intros ([id t'] & [= -> ->] & Hin)%list_elem_of_fmap. unfold tokensByPrefix in Hin.
  rewrite elem_of_map_to_list, map_lookup_filter_Some, column_spec in Hin. destruct Hin as (? & ? & ?). eauto.
Qed.
End rows.

(** ** A request that goes on *)
Section requests.
Context {UL : UUIDLib} {JL : JWTLib} {AE : AccountsEnv} {CL : CaseLib} {P : Permify} (cfg : SessionConfig).

(** The token is in the request. *)
Definition carries (r : AuthRequest) (token : string) : Prop :=
  ar_Bearer r = token ∨ ∃ keyword, Fields (ar_Authorization r) = [keyword; token].

(** The [k]-th reading of the clock was made between the two states. *)
Definition read_between (d d' : Accounts) (k : nat) : Prop := (ac_reads d ≤ k < ac_reads d')%nat.

(** A signed token of a session of the user, for the audience, whose dates are right at a reading of the
    clock that was made between the two states. *)
Definition session_token (d d' : Accounts) (audience token : string) (u : uuid) : Prop :=
  ∃ k claims user sessionId, read_between d d' k ∧ jwt_Parse (JwtSecret cfg) (clock k) token = Some claims ∧
    cl_Issuer claims = JwtIssuer cfg ∧ audience ∈ cl_Audience claims ∧ cl_Subject claims = Some sessionId ∧
    ac_users d !! u = Some user ∧ u_Provider user = KratosProvider ∧
    (sessionId = EmptyString ∨ u_ProviderId user = sessionId).

(** A row of an API token of the user, which has not been revoked, and has not expired at a reading of the
    clock that was made between the two states. *)
Definition api_token (d d' : Accounts) (token : string) (u : uuid) : Prop :=
  ∃ id t, ac_tokens d !! id = Some t ∧ t_Deleted t = false ∧ t_UserId t = u ∧
    t_Prefix t = String.substring 0 8 token ∧ verifyToken token (t_Salt t) (t_TokenEncrypted t) = true ∧
    match t_ExpiresAt t with None => True | Some date => ∃ k, read_between d d' k ∧ clock k ≤ date end.

Lemma ParseTokenString_sound tok w claims w' :
  ParseTokenString cfg tok w = (Ok claims, w') →
  same_rows (outside w) (outside w') ∧
  ∃ k, read_between (outside w) (outside w') k ∧ jwt_Parse (JwtSecret cfg) (clock k) tok = Some claims ∧ cl_Issuer claims = JwtIssuer cfg.
Proof.
  unfold ParseTokenString, read_clock. rewrite bind_eq. cbn.
  destruct (jwt_Parse _ _ _) as [c|] eqn:Hp; [|done]. destruct (VerifyIssuer cfg c) eqn:Hi; [|done].
  intros [= <- <-]. split; [split_and!; simpl; [done..|lia]|].
  apply bool_decide_eq_true in Hi as []. exists (ac_reads (outside w)). split; [unfold read_between; simpl; lia|done].
Qed.

Lemma validateToken_sound token w claims w' :
  validateToken cfg token w = (Ok claims, w') →
  ∃ tok, token = Ok tok ∧ same_rows (outside w) (outside w') ∧
  ∃ k, read_between (outside w) (outside w') k ∧ jwt_Parse (JwtSecret cfg) (clock k) tok = Some claims ∧ cl_Issuer claims = JwtIssuer cfg.
Proof.
  unfold validateToken. intros (tok & w0 & [= -> ->] & Hrun)%bind_Ok.
  apply bind_Ok in Hrun as (r & w1 & Hatt & Hrun). unfold attempt in Hatt.
  destruct (ParseTokenString cfg tok w0) as [[c|e] w2] eqn:Hp; injection Hatt as <- <-; [|done].
  injection Hrun as -> ->. apply ParseTokenString_sound in Hp. eauto.
Qed.

Lemma validateJwt_sound r w ctx w' :
  keyed (ac_users (outside w)) → validateJwt cfg r w = (Ok ctx, w') →
  same_rows (outside w) (outside w') ∧
  ∃ u token, ctx_UserId ctx = Some u ∧ active (outside w) u ∧ carries r token ∧
    session_token (outside w) (outside w') AccessAudience token u.
Proof.
  intros Hk. unfold validateJwt. intros (claims & w1 & Hv & Hrun)%bind_Ok.
  assert (∃ tok, carries r tok ∧ same_rows (outside w) (outside w1) ∧
    ∃ k, read_between (outside w) (outside w1) k ∧ jwt_Parse (JwtSecret cfg) (clock k) tok = Some claims ∧ cl_Issuer claims = JwtIssuer cfg)
    as (tok & Hc & Hs & k & Hk1 & Hp & Hi).
  { destruct (detectBearerToken r) eqn:Hdet; [| |done]; apply validateToken_sound in Hv as (tok & Htok & ?);
      exists tok; (split; [|done]).
    - injection Htok as <-. by left.
    - unfold bearerFromHeader in Htok. case_decide as Hd.
      + unfold detectBearerToken in Hdet. rewrite Hd in Hdet. by case_decide.
      + destruct (Fields _) as [|kw [|t []]] eqn:Hf; try done. destruct (EqualFold _ _); [|done].
        injection Htok as ->. right. eauto. }
  destruct (IsAudience claims AccessAudience) eqn:Ha; [|done]. cbn in Hrun.
  pose proof Hs as (Hu1 & _). apply RetrieveUserFromSession_sound in Hrun as
    (Hs' & sessionId & u & user & Hsub & -> & Hu & Hl & Hact & Hprov & Hpid); [|by rewrite Hu1].
  rewrite Hu1 in Hu. split; [by etrans|]. exists u, tok. split_and!; [done|by exists user|done|].
  exists k, claims, user, sessionId. split_and!; try done; [|by apply bool_decide_eq_true in Ha].
  destruct Hs' as (_ & _ & Hreads). unfold read_between in *. lia.
Qed.

Lemma validateApiToken_sound r w ctx w' :
  validateApiToken r w = (Ok ctx, w') →
  same_rows (outside w) (outside w') ∧
  ∃ u token, ctx_UserId ctx = Some u ∧ active (outside w) u ∧ carries r token ∧ api_token (outside w) (outside w') token u.
Proof.
  unfold validateApiToken. intros (token & w1 & Htok & Hrun)%bind_Ok. injection Htok as Htok ->.
  assert (carries r token ∨ token = EmptyString) as Hc.
  { clear Hrun. unfold apiTokenFromHeader in Htok. case_decide as Hd; [injection Htok as <-; by right|].
    destruct (Fields _) as [|kw [|t []]] eqn:Hf; try done. case_decide; [|done].
    injection Htok as ->. left. right. eauto. }
  case_decide as Hlen; [done|]. destruct Hc as [Hc| ->]; [|simpl in Hlen; lia].
  apply bind_Ok in Hrun as (tokens & w2 & [-> H2]%read_rows_run & Hrun).
  destruct (head _) as [[t user]|] eqn:Hh; [|done].
  apply head_filter_Some in Hh as [Hin Hv]. simpl in Hv.
  apply FindAllByTokenPrefix_elem in Hin as ([id Hid] & Hdel & Hpre & ->).
  destruct (usable t _) eqn:Hus; [|done]. cbn in Hrun.
  assert (active (outside w1) (t_UserId t)) as Hact.
  { unfold usable, userOf in Hus. destruct (ac_users (outside w1) !! t_UserId t) as [user|] eqn:Hu; [|done].
    destruct (u_Deleted user) eqn:Hd; [done|]. apply andb_true_iff in Hus as [_ Ha]. by exists user. }
  assert (t_Prefix t = String.substring 0 8 token) as Hprefix.
  { destruct Hpre as [He|?]; [|done]. destruct token as [|c token]; simpl in Hlen; [lia|].
    by simpl in He. }
  destruct (t_ExpiresAt t) as [date|] eqn:He.
  - apply bind_Ok in Hrun as (now & w3 & [= <- <-] & Hrun). case_decide as Hexp; [done|].
    injection Hrun as <- <-. simpl. rewrite H2. split; [split_and!; simpl; [done..|lia]|].
    exists (t_UserId t), token. split_and!; [done..|]. exists id, t. rewrite He. split_and!; try done.
    exists (ac_reads (outside w2)). split; [unfold read_between; simpl; rewrite H2; lia|lia].
  - injection Hrun as <- <-. rewrite H2. split; [done|].
    exists (t_UserId t), token. split_and!; [done..|]. exists id, t. rewrite He. by split_and!.
Qed.

(** C9: a request that passes the authentication and the permissions of a route, whatever statements
    fail, comes from a user who exists, is not deleted and is active, and who holds in the request either
    a token signed for this API, for access and not for refreshing, of a session of that user, or an API
    token of theirs that is neither revoked nor expired, the dates being compared with a reading of the clock
    made during this check; and the user is a super administrator or Permify
    allows them each permission of the route on the organization or the project of its URL. Checking
    writes nothing. *)
Theorem guarded_request permissions r orgaId projectId w ctx w' :
  keyed (ac_users (outside w)) →
  guardRoute cfg permissions r orgaId projectId w = (Ok (inr ctx), w') →
  same_rows (outside w) (outside w') ∧
  ∃ u token, ctx_UserId ctx = Some u ∧ active (outside w) u ∧ carries r token ∧
    (session_token (outside w) (outside w') AccessAudience token u ∨ api_token (outside w) (outside w') token u) ∧
    (u ∈ SuperAdmins cfg ∨ Forall (λ permission,
      IsConnected = true ∧ Check orgaId (PermissionsEntityMap permission, entityIdOf permission orgaId projectId)
        permission u = Ok true) permissions).
Proof.
  intros Hk. unfold guardRoute. intros (admitted & w1 & Ha & Hrun)%bind_Ok.
  destruct admitted as [|ctx1 name]; [done|]. destruct (forallb _ permissions) eqn:Hperm; [|done].
  injection Hrun as <- <-.
  assert (same_rows (outside w) (outside w1) ∧ ∃ u token, ctx_UserId ctx1 = Some u ∧ active (outside w) u ∧ carries r token ∧
    (session_token (outside w) (outside w1) AccessAudience token u ∨ api_token (outside w) (outside w1) token u)) as (Hs & u & token & Hu & ? & ? & ?).
  { unfold jwtOrToken in Ha. cbn [Authenticate] in Ha. unfold attempt in Ha.
    destruct (at_Detection (JwtBearerAuth cfg) r).
    - rewrite bind_eq in Ha. cbn in Ha. destruct (validateJwt cfg r w) as [[c|e] w2] eqn:Hv; [|done].
      injection Ha as <- <- <-. apply validateJwt_sound in Hv as (? & u & token & ?); [|done].
      split; [done|]. exists u, token. tauto.
    - destruct (at_Detection ApiTokenAuth r); [|done].
      rewrite bind_eq in Ha. cbn in Ha. destruct (validateApiToken r w) as [[c|e] w2] eqn:Hv; [|done].
      injection Ha as <- <- <-. apply validateApiToken_sound in Hv as (? & u & token & ?).
      split; [done|]. exists u, token. tauto. }
  split; [done|]. exists u, token. split_and!; [done..|].
  destruct (decide (u ∈ SuperAdmins cfg)) as [?|Hn]; [by left|right].
  apply Forall_forall. intros permission Hin. rewrite forallb_forall in Hperm.
  apply list_elem_of_In in Hin. specialize (Hperm _ Hin). unfold CheckPermissionForRequest in Hperm. rewrite Hu in Hperm.
  unfold IsSuperAdminUser in Hperm. rewrite bool_decide_eq_false_2 in Hperm by naive_solver. cbn in Hperm.
  unfold CanAccess in Hperm. destruct IsConnected; [|done]. cbn in Hperm.
  destruct (Check _ _ _ _) as [[]|] eqn:Hc; done.
Qed.
End requests.

(** ** The tokens of a session *)
Section sessions.
Context {UL : UUIDLib} {JL : JWTLib} {AE : AccountsEnv} {CL : CaseLib} {UR : URLLib} {JLaws : JWTLaws}
  {ALaws : AccountsLaws} (cfg : SessionConfig).

(** The claims of a token made from the [k]-th reading of the clock. *)
Definition claimsAt (audience : string) (validity : Z) (subject : string) (k : nat) : Claims :=
  mkClaims (JwtIssuer cfg) (if decide (subject = EmptyString) then None else Some subject) [audience]
    (NumericDate (clock k + validity)) (NumericDate (clock (S k))) (NumericDate (clock (S (S k)))).

Lemma newClaims_run audience validity subject w :
  newClaims cfg audience validity subject w =
    (Ok (claimsAt audience validity subject (ac_reads (outside w))), advance 3 w).
Proof. done. Qed.

(** A token that was signed for an audience. *)
Definition signed_at (audience : string) (validity : Z) (subject : string) (k : nat) (token : string) : Prop :=
  jwt_SignedString (JwtSecret cfg) (claimsAt audience validity subject k) = Ok token.

Lemma CreateAccessAndRefreshTokens_run a r subject w access refresh w' :
  CreateAccessAndRefreshTokens cfg a r subject w = (Ok (access, refresh), w') →
  let k := ac_reads (outside w) in
  signed_at AccessAudience a subject k access ∧ signed_at RefreshAudience r subject (3 + k) refresh ∧ w' = advance 6 w.
Proof.
  unfold CreateAccessAndRefreshTokens, NewJWTWithSubjectID, NewRefreshToken. rewrite bind_eq, newClaims_run. cbv beta iota.
  intros (t & w1 & Ht & Hrun)%bind_Ok. unfold lift in Ht. injection Ht as Ht <-.
  rewrite bind_eq, newClaims_run in Hrun. cbv beta iota in Hrun.
  apply bind_Ok in Hrun as (rt & w2 & Hrt & Hrun). unfold lift in Hrt. injection Hrt as Hrt <-.
  injection Hrun as <- <- <-. done.
Qed.

Lemma NumericDate_le t : NumericDate t * second ≤ t.
Proof. unfold NumericDate, second. Z.to_euclidean_division_equations. lia. Qed.

Lemma ParseTokenString_signed audience validity subject k token w :
  JwtIssuer cfg ≠ EmptyString → signed_at audience validity subject k token → (k + 3 ≤ ac_reads (outside w))%nat →
  let now := clock (ac_reads (outside w)) in
  if decide (now < NumericDate (clock k + validity) * second)
  then ParseTokenString cfg token w = (Ok (claimsAt audience validity subject k), advance 1 w)
  else ∃ e, ParseTokenString cfg token w = (Err e, advance 1 w).
Proof.
  intros Hi Hs Hk now. unfold ParseTokenString, read_clock. rewrite bind_eq. cbv beta iota. fold now.
  rewrite (signed_read _ _ _ now Hs). cbn [claimsAt cl_NotBefore cl_IssuedAt cl_ExpiresAt].
  pose proof (NumericDate_le (clock (S k))). pose proof (NumericDate_le (clock (S (S k)))).
  pose proof (clock_monotone (S k) (ac_reads (outside w)) ltac:(lia)).
  pose proof (clock_monotone (S (S k)) (ac_reads (outside w)) ltac:(lia)).
  destruct (decide (now < NumericDate (clock k + validity) * second)).
  - rewrite decide_True by (unfold now in *; lia).
    unfold VerifyIssuer. rewrite bool_decide_eq_true_2 by done. done.
  - rewrite decide_False by lia. eauto.
Qed.

(** The user of a session. *)
Definition session_of (d : Accounts) (sessionId : string) (u : uuid) : Prop :=
  active d u ∧ (∃ user, ac_users d !! u = Some user ∧ u_Provider user = KratosProvider) ∧ ∀ u' user, ac_users d !! u' = Some user → u_Deleted user = false → u_Provider user = KratosProvider →
    (u_ProviderId user = sessionId ↔ u' = u).

Lemma userWhere_session sessionId u d user :
  sessionId ≠ EmptyString → session_of d sessionId u → ac_users d !! u = Some user →
  userWhere uuid_Nil KratosProvider sessionId d = Some (u, user).
Proof.
  intros Hs ((user1 & Hu & Hl & _) & (user2 & Hu2 & Hp) & Huniq) Hu3. simplify_eq. apply head_filter_unique.
  - by apply elem_of_liveUsers.
  - simpl. rewrite !andb_true_iff, !column_spec. split_and!; [by right|]. right. by apply (Huniq u user1).
  - intros [u' user'] [Hin Hl']%elem_of_liveUsers Hc. simpl in Hc. rewrite !andb_true_iff, !column_spec in Hc.
    destruct Hc as [[?|Hp'] [?|Hpid]]; try done. apply (Huniq u' user') in Hpid; [|done..]. by simplify_eq.
Qed.

Lemma FindByProviderId_session sessionId u w :
  faults w = [] → sessionId ≠ EmptyString → session_of (outside w) sessionId u →
  ∃ user, FindByProviderId sessionId KratosProvider w = (Ok (u, user), w).
Proof.
  intros Hf Hs Hof. pose proof Hof as ((user & Hu & _) & _). exists user. unfold FindByProviderId.
  by rewrite bind_eq, read_rows_exact, (userWhere_session _ u _ user) by done.
Qed.

Lemma RetrieveUserFromSession_session sessionId u w :
  faults w = [] → sessionId ≠ EmptyString → keyed (ac_users (outside w)) → session_of (outside w) sessionId u →
  RetrieveUserFromSession (mkContext (Some sessionId) None) w = (Ok (mkContext (Some sessionId) (Some u)), w).
Proof.
  intros Hf Hs Hk Hof. pose proof Hof as ((user & Hu & Hl & Ha) & _).
  rewrite (RetrieveUserFromSession_complete sessionId u user w); [by rewrite Ha|done..|]. by apply userWhere_session.
Qed.

(** What presenting a token of a session answers, as a bearer token or as a cookie. *)
Definition bearer (token : string) : AuthRequest := mkAuthRequest token EmptyString None.
Definition cookie (token : string) : AuthRequest := mkAuthRequest EmptyString EmptyString (Some token).

(** Between the [from]-th reading of the clock and the deadline, in seconds, a request that presents the
    token is admitted as the user of the session where the audience is that of the request, and nowhere
    else; from the deadline on it is answered 401. *)
Definition accepted (sessionId : string) (u : uuid) (from : nat) (audience token : string) (deadline : Z) : Prop :=
  ∀ w, faults w = [] → (from ≤ ac_reads (outside w))%nat → keyed (ac_users (outside w)) →
    session_of (outside w) sessionId u →
    let live := clock (ac_reads (outside w)) < NumericDate deadline * second in
    let ctx := mkContext (Some sessionId) (Some u) in
    (Authenticate (jwtOrToken cfg) (bearer token) w).1 =
      Ok (if decide (live ∧ audience = AccessAudience) then Accepted ctx "JwtBearer" else Unauthorized) ∧
    (Authenticate [RefreshAuth cfg] (cookie token) w).1 =
      Ok (if decide (live ∧ audience = RefreshAudience) then Accepted ctx "RefreshAuth" else Unauthorized).

Lemma signed_accepted sessionId u audience validity k token :
  JwtIssuer cfg ≠ EmptyString → sessionId ≠ EmptyString → signed_at audience validity sessionId k token →
  accepted sessionId u (k + 3) audience token (clock k + validity).
Proof.
  intros Hissuer Hsession Hs w Hfaults Hk Hkeyed Hof live ctx. pose proof (signed_nonempty _ _ _ Hs) as Hne.
  pose proof (ParseTokenString_signed _ _ _ _ _ w Hissuer Hs Hk) as Hparse. cbv zeta in Hparse.
  assert (RetrieveUserFromSession (mkContext (Some sessionId) None) (advance 1 w) =
    (Ok (mkContext (Some sessionId) (Some u)), advance 1 w)) as Hsess by by apply RetrieveUserFromSession_session.
  assert (∀ aud, IsAudience (claimsAt audience validity sessionId k) aud = bool_decide (audience = aud)) as Haud.
  { intros aud. apply bool_decide_ext. simpl. rewrite list_elem_of_singleton. by split. }
  assert (UpdateRequestContext (claimsAt audience validity sessionId k) = mkContext (Some sessionId) None) as Hctx.
  { unfold UpdateRequestContext. simpl. by rewrite decide_False by done. }
  split.
  - unfold jwtOrToken, Authenticate. cbn [at_Detection JwtBearerAuth at_Validation at_Name]. unfold detectBearerToken at 1.
    cbn [ar_Bearer bearer]. rewrite decide_True by done. cbv iota. unfold attempt at 1. rewrite bind_eq. unfold validateJwt.
    unfold detectBearerToken at 1. cbn [ar_Bearer bearer]. rewrite decide_True by done.
    unfold validateToken. rewrite !bind_eq. unfold lift at 1, attempt at 1. cbv beta iota. rewrite !bind_eq.
    destruct (decide (clock (ac_reads (outside w)) < NumericDate (clock k + validity) * second)) as [Hl|Hl]; fold live in Hl.
    + rewrite Hparse. cbv beta iota. cbn [mret M_ret]. rewrite Haud, Hctx.
      case_bool_decide as Ha; cbn [negb].
      * rewrite Hsess, decide_True by done. done.
      * rewrite decide_False by naive_solver. done.
    + destruct Hparse as [e ->]. cbv beta iota. rewrite decide_False by naive_solver. done.
  - unfold Authenticate. cbn [at_Detection RefreshAuth at_Validation at_Name ar_Cookie cookie].
    unfold attempt at 1. rewrite bind_eq. unfold validateRefresh. cbn [ar_Cookie cookie]. rewrite !bind_eq.
    destruct (decide (clock (ac_reads (outside w)) < NumericDate (clock k + validity) * second)) as [Hl|Hl]; fold live in Hl.
    + rewrite Hparse. cbv beta iota. rewrite Haud, Hctx.
      case_bool_decide as Ha; cbn [negb].
      * rewrite Hsess, decide_True by done. done.
      * rewrite decide_False by naive_solver. done.
    + destruct Hparse as [e ->]. cbv beta iota. rewrite decide_False by naive_solver. done.
Qed.

(** An active user goes on. *)
Lemma withActiveUser_run sessionId u next w :
  faults w = [] → keyed (ac_users (outside w)) → active (outside w) u →
  withActiveUser cfg (mkContext (Some sessionId) (Some u)) next w = next sessionId w.
Proof.
  intros Hf Hk (user & Hu & Hl & Ha). unfold withActiveUser. cbn [ctx_SessionId ctx_UserId]. rewrite bind_eq.
  unfold attempt, IsUserActive. rewrite bind_eq, read_rows_exact by done.
  rewrite (userWhere_key _ _ user) by done. cbn. by rewrite Ha.
Qed.

Lemma CreateAccessAndRefreshTokens_signs a r subject w :
  (∀ c, ∃ token, jwt_SignedString (JwtSecret cfg) c = Ok token) →
  ∃ access refresh, CreateAccessAndRefreshTokens cfg a r subject w = (Ok (access, refresh), advance 6 w).
Proof.
  intros Hsign. unfold CreateAccessAndRefreshTokens, NewJWTWithSubjectID, NewRefreshToken.
  rewrite bind_eq, newClaims_run. cbv beta iota. rewrite bind_eq. unfold lift at 1.
  destruct (Hsign (claimsAt AccessAudience a subject (ac_reads (outside w)))) as [access ->]. cbv beta iota.
  rewrite bind_eq, newClaims_run. cbv beta iota. rewrite bind_eq. unfold lift at 1.
  destruct (Hsign (claimsAt RefreshAudience r subject (ac_reads (outside (advance 3 w))))) as [refresh ->].
  exists access, refresh. done.
Qed.

(** [GenerateTokens] answers an active user of a session, when nothing fails, with a redirection that
    carries an access token and a cookie that carries a refresh token, and reading the access token anew
    with [RetrieveAccessToken] gives another one and the user. Presented later, whatever else the
    database holds, the access tokens are accepted as bearer tokens for the session and its user, up to the
    second in which their validity ends, and the refresh token as a cookie up to its own; an access token is
    never accepted as a cookie, nor the refresh token as a bearer token. *)
Theorem session_tokens sessionId u returnTo w :
  JwtIssuer cfg ≠ EmptyString → sessionId ≠ EmptyString →
  (∀ c, ∃ token, jwt_SignedString (JwtSecret cfg) c = Ok token) →
  faults w = [] → keyed (ac_users (outside w)) → session_of (outside w) sessionId u →
  let ctx := mkContext (Some sessionId) (Some u) in
  let k := ac_reads (outside w) in
  (∃ access refresh w', GenerateTokens cfg ctx returnTo w =
      (Ok (Redirected (mkCookie refresh (clock (6 + k) + RefreshValidity cfg) (RefreshValidity cfg `div` second))
        (parseReturnUrl cfg returnTo +:+ "session=" +:+ access)), w') ∧
    same_rows (outside w) (outside w') ∧
    accepted sessionId u (6 + k) AccessAudience access (clock k + AccessValidity cfg) ∧
    accepted sessionId u (6 + k) RefreshAudience refresh (clock (3 + k) + RefreshValidity cfg)) ∧
  (∃ access w', RetrieveAccessToken cfg ctx w = (Ok (Session access (Some u)), w') ∧
    same_rows (outside w) (outside w') ∧
    accepted sessionId u (3 + k) AccessAudience access (clock k + AccessValidity cfg)).
Proof.
  intros Hi Hs Hsign Hf Hk Hof ctx k. subst ctx. pose proof Hof as (Hact & _). split.
  - unfold GenerateTokens. rewrite withActiveUser_run by done. rewrite bind_eq. unfold attempt.
    destruct (CreateAccessAndRefreshTokens_signs (AccessValidity cfg) (RefreshValidity cfg) sessionId w Hsign)
      as (access & refresh & Hrun). rewrite Hrun. cbv beta iota.
    apply CreateAccessAndRefreshTokens_run in Hrun as (Ha & Hr & _).
    eexists access, refresh, _. split; [done|]. split; [split_and!; simpl; [done..|lia]|].
    split; [intros w2 ? ?; apply (signed_accepted _ _ _ _ k)|
            intros w2 ? ?; apply (signed_accepted _ _ _ _ (3 + k))]; try done; lia.
  - unfold RetrieveAccessToken. rewrite withActiveUser_run by done. rewrite bind_eq. unfold attempt at 1.
    unfold CreateAccessToken, NewJWTWithSubjectID. rewrite bind_eq, newClaims_run. cbv beta iota. unfold lift at 1.
    destruct (Hsign (claimsAt AccessAudience (AccessValidity cfg) sessionId k)) as [access Ha]. fold k. rewrite Ha.
    cbv beta iota. rewrite bind_eq. unfold attempt at 1.
    destruct (FindByProviderId_session sessionId u (advance 3 w)) as [user ->]; [done..|]. cbv beta iota.
    eexists access, _. split; [done|]. split; [split_and!; simpl; [done..|lia]|].
    intros w2 ? ?. apply (signed_accepted _ _ _ _ k); try done. lia.
Qed.
End sessions.

(** ** API tokens *)
Section api_tokens.
Context {UL : UUIDLib} {JL : JWTLib} {AE : AccountsEnv} {CL : CaseLib} {ALaws : AccountsLaws} (cfg : SessionConfig).

Definition with_api_token (token : string) : AuthRequest :=
  mkAuthRequest EmptyString (tokenHeaderKeyword +:+ " " +:+ token) None.

Lemma with_api_token_detected token :
  all_bytes graphic token = true → token ≠ EmptyString →
  detectBearerToken (with_api_token token) = Nowhere ∧ detectApiToken (with_api_token token) = true ∧
  apiTokenFromHeader (with_api_token token) = Ok token.
Proof.
  intros Hg Hne. unfold detectBearerToken, detectApiToken, apiTokenFromHeader, with_api_token. cbn [ar_Bearer ar_Authorization].
  rewrite Fields_two by done. rewrite EqualFold_keywords, EqualFold_refl, ToLower_keyword. done.
Qed.

(** The row is the only one that is not deleted whose hash is that of the token. *)
Definition only_row (d : Accounts) (token : string) (id : uuid) : Prop :=
  ∀ id' t, ac_tokens d !! id' = Some t → t_Deleted t = false →
    verifyToken token (t_Salt t) (t_TokenEncrypted t) = true → id' = id.

(** The token is of the row, which may be deleted. *)
Definition token_of (t : ApiToken) (token : string) : Prop :=
  all_bytes graphic token = true ∧ (8 ≤ String.length token)%nat ∧ t_Prefix t = String.substring 0 8 token ∧
  verifyToken token (t_Salt t) (t_TokenEncrypted t) = true.

(** It may be used: its row is not deleted, its user is active, its date has not passed. *)
Definition in_force (d : Accounts) (t : ApiToken) : Prop :=
  t_Deleted t = false ∧ active d (t_UserId t) ∧
  match t_ExpiresAt t with None => True | Some date => clock (ac_reads d) ≤ date end.

Lemma verified_row d token id t :
  ac_tokens d !! id = Some t → token_of t token → only_row d token id →
  head (filter (λ tu, verifyToken token (t_Salt tu.1) (t_TokenEncrypted tu.1) = true)
    ((λ kv, (kv.2, userOf d kv.2)) <$> tokensByPrefix (String.substring 0 8 token) d)) =
  if t_Deleted t then None else Some (t, userOf d t).
Proof.
  intros Hid (_ & _ & Hpre & Hv) Honly.
  assert (∀ t' user, (t', user) ∈ (λ kv, (kv.2, userOf d kv.2)) <$> tokensByPrefix (String.substring 0 8 token) d →
    verifyToken token (t_Salt t') (t_TokenEncrypted t') = true → t' = t ∧ t_Deleted t = false ∧ user = userOf d t) as Hall.
  { intros t' user ([id' Hid'] & Hl & _ & ->)%FindAllByTokenPrefix_elem Hv'.
    assert (id' = id) as -> by by eapply Honly. by simplify_eq. }
  destruct (t_Deleted t) eqn:Hl.
  - destruct (head _) as [[t' user]|] eqn:Hh; [|done]. apply head_filter_Some in Hh as [Hin Hv'].
    by apply Hall in Hin as (_ & ? & _).
  - apply head_filter_unique; [|done|].
    + apply list_elem_of_fmap. exists (id, t). split; [done|]. unfold tokensByPrefix.
      rewrite elem_of_map_to_list, map_lookup_filter_Some, column_spec. auto.
    + intros [t' user] Hin Hv'. by apply Hall in Hin as (-> & _ & ->).
Qed.

Lemma present_api_token d token id t w :
  outside w = d → faults w = [] → keyed (ac_users d) →
  ac_tokens d !! id = Some t → token_of t token → only_row d token id →
  let answer := (Authenticate (jwtOrToken cfg) (with_api_token token) w).1 in
  (in_force d t → answer = Ok (Accepted (mkContext None (Some (t_UserId t))) "ApiTokenAuth")) ∧
  (¬ in_force d t → answer = Ok Unauthorized).
Proof.
  intros Hd Hf Hk Hid Htok Honly answer. subst answer. pose proof Htok as (Hg & Hlen & _).
  destruct (with_api_token_detected token) as (Hb & Ha & Hheader); [done|by intros ->; simpl in Hlen; lia|].
  unfold jwtOrToken, Authenticate. cbn [at_Detection JwtBearerAuth at_Validation at_Name ApiTokenAuth].
  rewrite Hb, Ha. cbv iota. rewrite bind_eq. unfold attempt, validateApiToken.
  rewrite bind_eq, Hheader. unfold lift. cbv beta iota. rewrite decide_False by lia.
  unfold FindAllByTokenPrefix. rewrite bind_eq, read_rows_exact, Hd by done. cbv beta iota.
  rewrite (verified_row _ _ id t) by done. unfold in_force, active.
  destruct (t_Deleted t); [by split; [intros []|]|].
  assert (usable t (userOf d t) = true ↔ active d (t_UserId t)) as Husable.
  { unfold usable, userOf, active. destruct (ac_users d !! t_UserId t) as [user|] eqn:Hu; [|naive_solver].
    destruct (Hk _ _ Hu) as [Hn _]. rewrite bool_decide_eq_true_2 by done.
    split.
    - destruct (u_Deleted user) eqn:Hdel; [done|]. intros Ha'. by exists user.
    - intros (user0 & [= <-] & -> & ->). done. }
  destruct (usable t _) eqn:Hus; cbn [negb].
  - destruct (t_ExpiresAt t) as [date|]; [|split; [done|]; intros []; split_and!; [done| |done]; by apply Husable].
    unfold read_clock. rewrite !bind_eq. cbv beta iota. rewrite Hd.
    case_decide; (split; [intros (_ & _ & ?); try done; lia|intros Hno; try done]).
    destruct Hno. split_and!; [done|by apply Husable|lia].
  - split; [|done]. intros (_ & Hact & _). fold (active d (t_UserId t)) in Hact. apply Husable in Hact. done.
Qed.

Definition token_row (u : uuid) (name : string) (expiry : option Z) (prefix salt token : string) : ApiToken :=
  mkApiToken name prefix u expiry salt (hashToken token salt) false.

Lemma generateToken_run w :
  (∀ i n, rand_Read i n ≠ None) →
  ∃ prefix salt token, generateToken w = (Ok (prefix, salt, token), advance 3 w) ∧
    ∀ u name expiry, token_of (token_row u name expiry prefix salt token) token.
Proof.
  intros Hrand. set (k := ac_reads (outside w)).
  destruct (rand_Read k 4) as [p|] eqn:Hp; [|by destruct (Hrand k 4%nat)].
  destruct (rand_Read (S k) 16) as [sa|] eqn:Hsa; [|by destruct (Hrand (S k) 16%nat)].
  destruct (rand_Read (S (S k)) 28) as [t|] eqn:Ht; [|by destruct (Hrand (S (S k)) 28%nat)].
  exists (hexEncode p), (hexEncode sa), (hexEncode p +:+ hexEncode t). split.
  - unfold generateToken, randBytes. rewrite bind_eq. fold k. rewrite Hp. cbv beta iota.
    rewrite bind_eq. simpl ac_reads. fold k. rewrite Hsa. cbv beta iota.
    rewrite bind_eq. simpl ac_reads. fold k. rewrite Ht. done.
  - pose proof (rand_length _ _ _ Hp) as Hl. assert (String.length (hexEncode p) = 8%nat) as H8 by (rewrite hexEncode_length; lia).
    intros u name expiry. split_and!.
    + by rewrite all_bytes_app, !hexEncode_graphic.
    + rewrite string_length_app. lia.
    + simpl t_Prefix. rewrite <-H8. symmetry. apply substring_prefix.
    + by apply bool_decide_eq_true.
Qed.

(** The date of the body, when it may be one. *)
Definition future (expiresAt : string) (now : Z) (expiry : option Z) : Prop :=
  match expiry with
  | None => expiresAt = EmptyString
  | Some date => expiresAt ≠ EmptyString ∧ parseRFC3339 expiresAt = Some date ∧ now ≤ date
  end.

Lemma parseExpiry_run expiresAt expiry w :
  future expiresAt (clock (ac_reads (outside w))) expiry →
  ∃ n, parseExpiry expiresAt w = (Ok (inr expiry), advance n w).
Proof.
  unfold future, parseExpiry. destruct expiry as [date|].
  - intros (Hne & Hparse & Hle). exists 1%nat. rewrite decide_False, Hparse by done. unfold read_clock. rewrite bind_eq.
    cbv beta iota. by rewrite decide_False by lia.
  - intros ->. exists 0%nat. by destruct w as [? ? ? []].
Qed.

Lemma alter_known {A} (f : A → A) (m : gmap uuid A) i x : m !! i = Some x → alter f i m = <[i := f x]> m.
Proof.
  intros Hi. apply map_eq. intros j. destruct (decide (i = j)) as [<-|Hn].
  - by rewrite lookup_alter_eq, Hi, lookup_insert_eq.
  - by rewrite lookup_alter_ne, lookup_insert_ne by done.
Qed.

Lemma RevokeAPIToken_run s u id t w :
  faults w = [] → canonical u → canonical id → ac_tokens (outside w) !! id = Some t → t_Deleted t = false →
  ∃ w', RevokeAPIToken (mkContext s (Some u)) id w =
      (Ok (if decide (u = t_UserId t) then NoContent else Failure 404 "Api token not found"), w') ∧
    outside w' = if decide (u = t_UserId t) then set_tokens <[id := soft_delete_token t]> (outside w) else outside w.
Proof.
  intros Hf (pu & Hpu & Hu)%canonical_parsed Hid Ht Hl. pose proof Hid as [Hne _].
  apply canonical_parsed in Hid as (pid & Hpid & Hid). unfold RevokeAPIToken. rewrite Hpid, Hid.
  unfold fetchUser. cbn [ctx_UserId]. cbn. rewrite Hpu. cbn. rewrite Hu, bind_eq. unfold attempt at 1, FindTokenById.
  rewrite bind_eq, read_rows_exact by done. cbv beta iota.
  rewrite (head_filter_unique _ _ (id, t)).
  - cbn. destruct (decide (u = t_UserId t)) as [Heq|Hneq].
    + rewrite decide_False by congruence. rewrite bind_eq. unfold attempt, DeleteTokenById.
      rewrite write_rows_eq, statement_no_faults by done. eexists. split; [done|].
      cbn. unfold set_tokens. f_equal. by apply alter_known.
    + rewrite decide_True by congruence. eauto.
  - unfold order_by. by rewrite merge_sort_Permutation, elem_of_map_to_list, map_lookup_filter_Some.
  - apply column_spec. by right.
  - intros [id' t'] Hin Hc. unfold order_by in Hin.
    rewrite merge_sort_Permutation, elem_of_map_to_list, map_lookup_filter_Some in Hin.
    apply column_spec in Hc as [?|Hc]; [done|]. simpl in Hc. destruct Hin. by simplify_eq.
Qed.

(** C10: an active user who asks for an API token, without a date or until a date to come, gets one, when
    nothing fails; a row is added for it and no other changes. Presented later, whatever else the
    database holds but another row with the hash of the token, it is accepted as that user as long as its row is not deleted,
    its date has not passed and the user is active, and answered 401 otherwise. Its user may revoke it
    at any time, which deletes its row; for any other user it is not found, and stays. *)
Theorem api_token_lifecycle s u name expiresAt expiry w :
  (∀ i n, rand_Read i n ≠ None) →
  (∀ d, same_rows (outside w) d → canonical (newTokenId d) ∧ ac_tokens d !! newTokenId d = None) →
  faults w = [] → keyed (ac_users (outside w)) → active (outside w) u →
  future expiresAt (clock (ac_reads (outside w))) expiry →
  ∃ id token t w', CreateAPIToken (mkContext s (Some u)) (Ok (name, expiresAt)) w = (Ok (TokenCreated id token), w') ∧
    ac_users (outside w') = ac_users (outside w) ∧ ac_tokens (outside w) !! id = None ∧
    ac_tokens (outside w') = <[id := t]> (ac_tokens (outside w)) ∧
    t_UserId t = u ∧ t_ExpiresAt t = expiry ∧ t_Deleted t = false ∧
    (∀ t' w2, t' ∈ [t; soft_delete_token t] → faults w2 = [] → keyed (ac_users (outside w2)) →
      ac_tokens (outside w2) !! id = Some t' → only_row (outside w2) token id →
      let answer := (Authenticate (jwtOrToken cfg) (with_api_token token) w2).1 in
      (in_force (outside w2) t' → answer = Ok (Accepted (mkContext None (Some u)) "ApiTokenAuth")) ∧
      (¬ in_force (outside w2) t' → answer = Ok Unauthorized)) ∧
    (∀ s' u' w2, faults w2 = [] → canonical u' → ac_tokens (outside w2) !! id = Some t →
      ∃ w3, RevokeAPIToken (mkContext s' (Some u')) id w2 =
          (Ok (if decide (u' = u) then NoContent else Failure 404 "Api token not found"), w3) ∧
        outside w3 = if decide (u' = u) then set_tokens <[id := soft_delete_token t]> (outside w2) else outside w2).
Proof.
  intros Hrand Hids Hf Hk (user & Hu & _) Hfuture. pose proof (Hk _ _ Hu) as (p & Hp & Hpu)%canonical_parsed.
  destruct (parseExpiry_run expiresAt expiry w Hfuture) as [n Hexpiry].
  destruct (Hids (outside (advance 3 (advance n w)))) as [Hcan Hfresh]; [split_and!; simpl; [done..|lia]|].
  destruct (generateToken_run (advance n w) Hrand) as (prefix & salt & token & Hgen & Htok).
  exists (newTokenId (outside (advance 3 (advance n w)))), token, (token_row u name expiry prefix salt token).
  eexists. split_and!.
  - unfold CreateAPIToken, fetchUser. cbn [ctx_UserId]. cbn. rewrite Hp. cbn. rewrite Hpu, bind_eq, Hexpiry. cbv beta iota.
    unfold saveNewToken. rewrite bind_eq. unfold attempt at 1. rewrite Hgen. cbv beta iota.
    rewrite bind_eq. unfold attempt, SaveToken. rewrite write_rows_eq, statement_no_faults by done. done.
  - done.
  - done.
  - done.
  - done.
  - done.
  - done.
  - intros t' w2 Ht' Hf2 Hk2 Hid Honly.
    assert (token_of t' token ∧ t_UserId t' = u) as [Hof <-].
    { specialize (Htok u name expiry). rewrite !elem_of_cons in Ht'. by destruct Ht' as [->|[->|?%not_elem_of_nil]]. }
    by eapply present_api_token.
  - intros s' u' w2 Hf2 Hu' Hid. by apply (RevokeAPIToken_run s' u' _ (token_row u name expiry prefix salt token)).
Qed.
End api_tokens.

(** ** Where the tokens of a session are sent *)
Section origins.
Context {CL : CaseLib} {AE : AccountsEnv} {UR : URLLib} (cfg : SessionConfig).

(** An origin is allowed when it is one of the list, but for the case, or the list has a wildcard that was
    made lawful. *)
Definition allowed (origin : string) : Prop :=
  ∃ o, o ∈ AllowedOrigins cfg ∧ (EqualFold o origin = true ∨ o = "*" ∧ AllowUnsafeWildcard cfg = true).

(** The tokens of a session are sent to the default URL, or, where the URL to come back to has a host
    and its scheme and host are an allowed origin, to [/callback] of that origin: what is asked for chooses
    neither another origin nor another path of it. *)
Theorem parseReturnUrl_origin returnTo :
  parseReturnUrl cfg returnTo = DefaultReturnUrl cfg +:+ "?" ∨
  ∃ url rest, url_Parse returnTo = Some url ∧ Host url ≠ EmptyString ∧
    allowed (Scheme url +:+ "://" +:+ Host url) ∧
    parseReturnUrl cfg returnTo = (Scheme url +:+ "://" +:+ Host url) +:+ "/callback?return_to=" +:+ rest.
Proof.
  unfold parseReturnUrl. destruct (url_Parse returnTo) as [url|]; [|by left]. case_decide as Hh; [by left|].
  destruct (existsb _ _) eqn:He; [|by left]. right. eexists url, _. split; [done|]. split; [done|]. split.
  - apply existsb_exists in He as (o & Hin & Ho). exists o. split; [by apply list_elem_of_In|].
    apply orb_true_iff in Ho as [[Hs Hw]%andb_true_iff|?]; [right|by left]. split; [|done].
    by apply bool_decide_eq_true in Hs.
  - by rewrite !string_app_assoc.
Qed.
End origins.

(** * Concrete inputs of the theorems on authentication

    Two users of Kratos, one of whom asks for tokens; a clock that advances by a second at each reading;
    tokens that spell their secret and their claims in binary. *)

Import ClusterSamples.

(** ** The libraries *)

Fixpoint bits (p : positive) : string :=
  match p with xH => "." | xO p => String "0"%char (bits p) | xI p => String "1"%char (bits p) end.

Fixpoint unbits (s : string) : positive :=
  match s with
  | String "0"%char s => xO (unbits s)
  | String "1"%char s => xI (unbits s)
  | _ => xH
  end.

Lemma unbits_bits p : unbits (bits p) = p.
Proof. induction p; simpl; congruence. Qed.

Definition claims_tuple (c : Claims) : string * option string * list string * Z * Z * Z :=
  (cl_Issuer c, cl_Subject c, cl_Audience c, cl_ExpiresAt c, cl_NotBefore c, cl_IssuedAt c).
Definition tuple_claims (t : string * option string * list string * Z * Z * Z) : Claims :=
  let '(i, s, a, e, n, at_) := t in mkClaims i s a e n at_.

#[export] Instance sample_jwt : JWTLib := {|
  jwt_Parse secret now token :=
    match decode (unbits token) with
    | Some (secret', t) => let c := tuple_claims t in
      if decide (secret' = secret ∧ cl_NotBefore c * second ≤ now ∧ cl_IssuedAt c * second ≤ now ∧
        now < cl_ExpiresAt c * second) then Some c else None
    | None => None
    end;
  jwt_SignedString secret c := Ok (bits (encode (secret, claims_tuple c))) |}.

#[export] Instance sample_jwt_laws : JWTLaws.
Proof.
  split.
  - intros secret c tok [= <-]. by destruct (encode _).
  - intros secret c tok now [= <-]. unfold jwt_Parse, sample_jwt. rewrite unbits_bits, decode_encode.
    destruct c as [i s a e n at_]. cbn. repeat case_decide; naive_solver.
Qed.

Fixpoint zeros (n : nat) : string := match n with O => EmptyString | S n => String "000"%char (zeros n) end.

Definition keyOfToken : uuid := "5a2f7f0e-7a39-4a53-8f3e-0b7f6d1c2a10".

#[export] Instance sample_accounts_env : AccountsEnv := {|
  clock i := Z.of_nat i * second;
  rand_Read _ n := Some (zeros n);
  newTokenId _ := keyOfToken;
  parseRFC3339 s := if decide (s = "2026-01-01T00:00:00Z") then Some (100 * second) else None;
  sha3_Sum512 s := s;
  EqualFold s t := bool_decide (s = t) |}.

#[export] Instance sample_letters : CaseLib := {| ToUpper s := s; ToLower s := s |}.

#[export] Instance sample_accounts_laws : AccountsLaws.
Proof.
  split; try done.
  - intros i j Hij. simpl. unfold second. lia.
  - intros i n s [= <-]. induction n as [|n IH]; simpl; [done|]. by rewrite IH.
  - intros s. by apply bool_decide_eq_true.
Qed.

(** Permify lets the first user read their organization. *)
Definition alice : uuid := "a11ce000-4c92-4147-b46c-1b018c80f722".
Definition bob : uuid := "b0b00000-4c92-4147-b46c-1b018c80f722".

#[export] Instance sample_permify : Permify := {|
  IsConnected := true;
  Check tenantId entity permission subject := Ok (bool_decide (entity = (EntityOrganization, organization) ∧
    permission = "OrganizationRead" ∧ subject = alice)) |}.

#[export] Instance sample_return_urls : URLLib := {|
  url_Parse s :=
    if decide (s = "https://console/a%26session=forged")
    then Some (mkURL "https" "console" "/a&session=forged" EmptyString EmptyString) else None;
  url_String u := Path u |}.

Definition sampleConfig : SessionConfig :=
  mkSessionConfig "superphenix" "secret" (30 * second) (60 * second) "https://console" ["https://console"] false [].

(** ** The database *)
Definition sampleAccounts : Accounts :=
  mkAccounts {[alice := mkUser "alice@example.org" KratosProvider "kratos-alice" true false;
               bob := mkUser "bob@example.org" KratosProvider "kratos-bob" false false]} ∅ 7.

Definition sampleWorld : World Accounts := mkWorld no_tables 0 [] sampleAccounts.

Lemma sample_keyed : keyed (ac_users sampleAccounts).
Proof. unfold sampleAccounts. simpl. apply map_Forall_insert_2; [by vm_compute|]. apply map_Forall_singleton. by vm_compute. Qed.

Lemma sample_active : active sampleAccounts alice.
Proof. eexists. split; [by vm_compute|done]. Qed.

Lemma sample_session : session_of sampleAccounts "kratos-alice" alice.
Proof.
  split; [exact sample_active|]. split; [eexists; split; [by vm_compute|done]|].
  intros u user. unfold sampleAccounts. simpl.
  rewrite lookup_insert_Some, lookup_singleton_Some. intros [[<- <-]|[_ [<- <-]]] _ _; [done|].
  by split; intros Heq; vm_compute in Heq.
Qed.

(** ** The theorems there *)

(** Reading of the tokens at some time after [w]. *)
Definition later (n : nat) (w : World Accounts) : World Accounts := advance n w.

Definition bearerToken : string :=
  match (RetrieveAccessToken sampleConfig (mkContext (Some "kratos-alice") (Some alice)) sampleWorld).1 with
  | Ok (Session access _) => access | _ => EmptyString end.

Definition guarded : result error (Z + Context) * World Accounts :=
  guardRoute sampleConfig ["OrganizationRead"] (bearer bearerToken) organization EmptyString (later 5 sampleWorld).

Lemma guarded_request_witness :
  guarded.1 = Ok (inr (mkContext (Some "kratos-alice") (Some alice))) ∧
  ∃ u token, u = alice ∧ carries (bearer bearerToken) token ∧
    (session_token sampleConfig (outside (later 5 sampleWorld)) (outside guarded.2) AccessAudience token u ∨
      api_token (outside (later 5 sampleWorld)) (outside guarded.2) token u).
Proof.
  assert (guarded.1 = Ok (inr (mkContext (Some "kratos-alice") (Some alice)))) as Hok by by vm_compute.
  split; [exact Hok|].
  destruct (guarded_request (UL:=uuids) sampleConfig ["OrganizationRead"] (bearer bearerToken) organization EmptyString (later 5 sampleWorld)
    (mkContext (Some "kratos-alice") (Some alice)) guarded.2) as (_ & u & token & [= <-] & _ & Hc & Ht & _);
    [exact sample_keyed|unfold guarded in *; rewrite <-Hok; apply surjective_pairing|].
  exists alice, token. split; [reflexivity|]. split; [exact Hc|exact Ht].
Defined.

(** The access token is accepted a second later, and not 60 seconds later. *)
Lemma session_tokens_witness :
  ∃ access refresh w', GenerateTokens sampleConfig (mkContext (Some "kratos-alice") (Some alice)) "https://evil" sampleWorld =
      (Ok (Redirected (mkCookie refresh (clock 13 + 60 * second) 60) ("https://console?" +:+ "session=" +:+ access)), w') ∧
    (Authenticate (jwtOrToken sampleConfig) (bearer access) (later 7 sampleWorld)).1 =
      Ok (Accepted (mkContext (Some "kratos-alice") (Some alice)) "JwtBearer") ∧
    (Authenticate (jwtOrToken sampleConfig) (bearer access) (later 60 sampleWorld)).1 = Ok Unauthorized ∧
    (Authenticate [RefreshAuth sampleConfig] (cookie access) (later 7 sampleWorld)).1 = Ok Unauthorized.
Proof.
  destruct (session_tokens sampleConfig "kratos-alice" alice "https://evil" sampleWorld) as [(access & refresh & w' & Hrun & _ & Ha & _) _];
    [done|done|intros c; by eexists|done|exact sample_keyed|exact sample_session|].
  exists access, refresh, w'. split; [exact Hrun|].
  destruct (Ha (later 7 sampleWorld)) as [H1 H2]; [done|simpl; lia|exact sample_keyed|exact sample_session|].
  destruct (Ha (later 60 sampleWorld)) as [H3 _]; [done|simpl; lia|exact sample_keyed|exact sample_session|].
  split_and!; [by rewrite H1|by rewrite H3|by rewrite H2].
Defined.

(** A token without a date: it is accepted, and once its user has revoked it, it is not. *)
Lemma api_token_lifecycle_witness :
  ∃ token w', CreateAPIToken (mkContext None (Some alice)) (Ok ("ci", EmptyString)) sampleWorld =
      (Ok (TokenCreated keyOfToken token), w') ∧
    (Authenticate (jwtOrToken sampleConfig) (with_api_token token) w').1 =
      Ok (Accepted (mkContext None (Some alice)) "ApiTokenAuth") ∧
    (RevokeAPIToken (mkContext None (Some bob)) keyOfToken w').1 = Ok (Failure 404 "Api token not found") ∧
    (RevokeAPIToken (mkContext None (Some alice)) keyOfToken w').1 = Ok NoContent.
Proof.
  destruct (api_token_lifecycle sampleConfig None alice "ci" EmptyString None sampleWorld)
    as (id & token & t & w' & Hrun & Hus & Hno & Hts & Hu & Hexp & Hlive & Hpres & Hrev); [done
    |intros d (_ & Htokens & _); rewrite Htokens; split; [by vm_compute|done]|done
    |exact sample_keyed|exact sample_active|done|].
  assert (id = keyOfToken) as -> by by apply (f_equal fst) in Hrun; injection Hrun.
  assert (ac_tokens (outside w') !! keyOfToken = Some t) as Hrow by by rewrite Hts, lookup_insert_eq.
  assert (faults w' = []) as Hf by by apply (f_equal (faults ∘ snd)) in Hrun.
  exists token, w'. split; [exact Hrun|]. split; [|split].
  - apply (Hpres t w'); [by left|done|rewrite Hus; exact sample_keyed|done| |].
    + intros id' t' Hid' _ _. rewrite Hts, lookup_insert_Some in Hid'. destruct Hid' as [[-> _]|[_ Hid']]; [done|].
      simpl in Hid'. by rewrite lookup_empty in Hid'.
    + split_and!; [done|rewrite Hu; unfold active; rewrite Hus; exact sample_active|by rewrite Hexp].
  - destruct (Hrev None bob w') as (w3 & -> & _); [done|by vm_compute|done|by vm_compute].
  - destruct (Hrev None alice w') as (w3 & -> & _); [done|by vm_compute|done|by vm_compute].
Defined.

(** ** What the URL to come back to may add *)

(** The path is decoded and not encoded again: a path may carry a parameter of its own before the token. *)
Example return_path_adds_a_session :
  parseReturnUrl sampleConfig "https://console/a%26session=forged" +:+ "session=" +:+ "token" =
  "https://console/callback?return_to=/a&session=forged&session=token".
Proof. by vm_compute. Qed.

(** Without a user, the middleware of permissions panics: its message asserts that there is one. *)
Example check_without_user :
  CheckPermission sampleConfig (mkContext None None) organization EmptyString "OrganizationRead" = Panics.
Proof. by vm_compute. Qed.
