(* ===== verification/Tenants.v ===== *)
(** * The projects and organizations of the operator
      ([api/operator/v1alpha1/project_types.go], [organization_types.go],
      [internal/superphenix-operator/project], [organization], [db])

    The reconcilers that bind the Project and Organization resources to the database, find the zones of
    a project and deploy its GitOps application, over any API server. An error is returned with no result;
    a result is the delay after which the reconciler runs again, 0 if there is none. *)

From S2P Require Import Prelude Strings SpxId Operator.

(** ** The resources *)

Definition ConditionTypeBound : string := "Bound".
Definition ReasonBoundFound : string := "Found".
Definition ReasonBoundFailed : string := "Failed".
Definition ConditionTypeAvailabilityZonesReady : string := "AvailabilityZonesReady".
Definition ReasonAvailabilityZonesValid : string := "Valid".
Definition ReasonAvailabilityZonesInvalid : string := "Invalid".

(** [AvailabilityZoneReference] and [OrganizationReference] *)
Record Reference := mkReference { ref_Name : string; ref_Namespace : string }.

Record ManifestLocationSpec := mkManifestLocation {
  ml_RepoURL : string; ml_Path : string; ml_TargetRevision : string }.

Record GitCredentialsSpec := mkGitCredentials {
  gc_Username : string; gc_Password : string; gc_Insecure : bool; gc_ForceHttpBasicAuth : bool;
  gc_EnableLfs : bool; gc_SshPrivateKey : string }.

Record ValuesLocationSpec := mkValuesLocation {
  vl_RepoURL : string; vl_Path : string; vl_TargetRevision : string; vl_Credentials : option GitCredentialsSpec }.

Record GitOpsSpec := mkGitOps {
  ManifestLocation : option ManifestLocationSpec; ValuesLocation : option ValuesLocationSpec }.

Record ProjectSpec := mkProjectSpec {
  ps_ProjectID : string; ps_Name : string; ps_OrganizationRef : Reference;
  ps_AvailabilityZones : list Reference; ps_GitOps : option GitOpsSpec }.

Record AvailableZoneStatus := mkAvailableZone { az_Name : string; az_ClusterName : string }.

Record ProjectStatus := mkProjectStatus {
  st_Conditions : list Condition; st_ObservedGeneration : Z; st_AvailableZones : list AvailableZoneStatus;
  st_AvailableAZsCount : Z; st_DisplayName : string }.

Record Project := mkProject {
  p_Name : string; p_Namespace : string; p_Generation : Z; p_Deleting : bool; p_Finalizers : list string;
  p_Spec : ProjectSpec; p_Status : ProjectStatus }.

Record OrganizationStatus := mkOrganizationStatus {
  os_Conditions : list Condition; os_ObservedGeneration : Z; os_DisplayName : string }.

Record Organization := mkOrganization {
  o_Name : string; o_Namespace : string; o_Generation : Z; o_Deleting : bool; o_Finalizers : list string;
  o_OrganizationID : string; o_SpecName : string; o_Status : OrganizationStatus }.

Definition set_status (s : ProjectStatus) (p : Project) : Project :=
  mkProject (p_Name p) (p_Namespace p) (p_Generation p) (p_Deleting p) (p_Finalizers p) (p_Spec p) s.
Definition set_finalizers (fs : list string) (p : Project) : Project :=
  mkProject (p_Name p) (p_Namespace p) (p_Generation p) (p_Deleting p) fs (p_Spec p) (p_Status p).
Definition set_org_status (s : OrganizationStatus) (o : Organization) : Organization :=
  mkOrganization (o_Name o) (o_Namespace o) (o_Generation o) (o_Deleting o) (o_Finalizers o) (o_OrganizationID o) (o_SpecName o) s.
Definition set_org_finalizers (fs : list string) (o : Organization) : Organization :=
  mkOrganization (o_Name o) (o_Namespace o) (o_Generation o) (o_Deleting o) fs (o_OrganizationID o) (o_SpecName o) (o_Status o).

(** ** What the reconcilers write *)

(** The values of the chart of a project. *)
Record HelmValues := mkHelmValues {
  hv_OrganizationID : string; hv_OrganizationName : string; hv_ProjectID : string; hv_ProjectName : string;
  hv_AvailabilityZones : list AvailableZoneStatus; hv_RepoURL : string; hv_Path : string; hv_TargetRevision : string;
  hv_Credentials : GitCredentialsSpec }.

(** The parts of an Application that are set; the others are kept. *)
Record GitOpsApplication := mkGitOpsApplication {
  ga_Labels : option (gmap string string); ga_RepoURL : string; ga_Path : string; ga_TargetRevision : string;
  ga_Values : string; ga_DestinationName : string; ga_DestinationNamespace : string; ga_Project : string;
  ga_Prune : bool; ga_SelfHeal : bool }.

(** ** What they call *)

Inductive DbError := RecordNotFound | OtherDbError (e : OpError).

(** The API server: objects by namespace and name. An update answers the object that it leaves; an
    Application is being deleted or not. [CreateOrUpdate] of [controllerutil] is given what it runs on the
    object. The database has a row of the key or not. *)
Class TenantClient (K : Type) := {
  GetProject : string → string → K → result OpError Project * K;
  GetOrganization : string → string → K → result OpError Organization * K;
  GetZoneCluster : string → string → K → result OpError Cluster * K;
  ListProjects : K → result OpError (list Project) * K;
  UpdateProject : Project → K → result OpError Project * K;
  UpdateOrganization : Organization → K → result OpError Organization * K;
  UpdateProjectStatus : Project → K → result OpError unit * K;
  UpdateOrganizationStatus : Organization → K → result OpError unit * K;
  GetApplicationDeleting : string → string → K → result OpError bool * K;
  DeleteGitOpsApplication : string → string → K → result OpError unit * K;
  CreateOrUpdateNamespace : string → (option (gmap string string) → option (gmap string string)) → K → result OpError unit * K;
  CreateOrUpdateGitOps : string → string → (GitOpsApplication → GitOpsApplication) → K → result OpError unit * K;
  FirstProject : string → K → result DbError unit * K;
  FirstOrganization : string → K → result DbError unit * K;
}.

(** [meta.SetStatusCondition] and [FindStatusCondition], [yaml.Marshal]. *)
Class TenantLib := {
  SetStatusCondition : list Condition → Condition → list Condition;
  FindStatusCondition : list Condition → string → option Condition;
  yaml_Marshal : HelmValues → result OpError string }.

(** ** The monad of the reconcilers *)

Definition TM (K A : Type) : Type := K → result OpError A * K.

#[export] Instance TM_ret {K} : MRet (TM K) := λ A a k, (Ok a, k).
#[export] Instance TM_bind {K} : MBind (TM K) := λ A B f m k,
  match m k with (Ok a, k) => f a k | (Err e, k) => (Err e, k) end.

Definition throw {K A} (e : OpError) : TM K A := λ k, (Err e, k).

(** The error is given to the caller as a value. *)
Definition tried {K A} (m : TM K A) : TM K (result OpError A) := λ k, let '(r, k) := m k in (Ok r, k).

Definition or_wrapped {K A} (text : string) (m : TM K A) : TM K A := λ k,
  match m k with (Err e, k) => (Err (wrap text e), k) | r => r end.

Definition FinalizerName : string := "operator.superphenix.net/finalizer".
Definition ManagedLabel : string := "operator.superphenix.net/managed".
Definition seconds (n : Z) : Z := n * 1000000000.

Record GitOpsConfig := mkGitOpsConfig { go_RepoURL : string; go_Path : string; go_TargetRevision : string }.

Definition removeFinalizer (fs : list string) : list string := filter (λ f, f ≠ FinalizerName) fs.

Section tenants.
Context {UL : UUIDLib} {K : Type} {TC : TenantClient K} {TL : TenantLib}.
Context (SpxPrefix OperatorNamespace : string) (gitOpsConfig : GitOpsConfig) (databaseConnected : bool).

(** ** The database ([db/db.go]) *)

(** Whether there is a row of the identifier. *)
Definition rowExists (first : string → K → result DbError unit * K) (id : string) : TM K bool := λ k,
  if negb databaseConnected then (Err (Errorf "database client not initialized"), k) else
  match uuid_Parse id with
  | None => (Err (Errorf "invalid UUID"), k)
  | Some u =>
    match first (uuid_String u) k with
    | (Ok _, k) => (Ok true, k)
    | (Err RecordNotFound, k) => (Ok false, k)
    | (Err (OtherDbError e), k) => (Err e, k)
    end
  end.

Definition ProjectExists : string → TM K bool := rowExists FirstProject.
Definition OrganizationExists : string → TM K bool := rowExists FirstOrganization.

(** The status, the reason and the message of the condition. *)
Definition binding (kind : string) (exists_ : TM K bool) : TM K (ConditionStatus * string * string) :=
  if databaseConnected then
    found ← exists_;
    mret (if found : bool then (ConditionTrue, ReasonBoundFound, kind +:+ " is bound to the Superphenix Database")
          else (ConditionFalse, ReasonBoundFailed, kind +:+ " not found in Superphenix Database"))
  else mret (ConditionFalse, ReasonBoundFailed, "Superphenix Database connection not initialized").

Definition isBound (conditions : list Condition) : bool :=
  match FindStatusCondition conditions ConditionTypeBound with
  | Some c => bool_decide (c_Status c = ConditionTrue)
  | None => false
  end.

(** ** Projects ([project/project_controller.go]) *)

Definition set_condition (type : string) (status : ConditionStatus) (reason message : string) (proj : Project) : Project :=
  let s := p_Status proj in
  set_status (mkProjectStatus (SetStatusCondition (st_Conditions s) (mkCondition type status reason message (p_Generation proj) 0))
    (st_ObservedGeneration s) (st_AvailableZones s) (st_AvailableAZsCount s) (st_DisplayName s)) proj.

Definition set_zones (zones : list AvailableZoneStatus) (proj : Project) : Project :=
  let s := p_Status proj in
  set_status (mkProjectStatus (st_Conditions s) (st_ObservedGeneration s) zones (Z.of_nat (length zones)) (st_DisplayName s)) proj.

Definition displayName (proj : Project) : string :=
  if decide (ps_Name (p_Spec proj) ≠ EmptyString) then ps_Name (p_Spec proj) else p_Name proj.

Definition set_display_name (proj : Project) : Project :=
  let s := p_Status proj in
  set_status (mkProjectStatus (st_Conditions s) (st_ObservedGeneration s) (st_AvailableZones s)
    (st_AvailableAZsCount s) (displayName proj)) proj.

Definition set_observed (proj : Project) : Project :=
  let s := p_Status proj in
  set_status (mkProjectStatus (st_Conditions s) (p_Generation proj) (st_AvailableZones s)
    (st_AvailableAZsCount s) (st_DisplayName s)) proj.

Definition gitOpsName (projectSPXID : string) : string := "gitops-" +:+ projectSPXID.

(** The reconciliation stops, or goes on with the project. *)
Definition reconcileFinalizers (proj : Project) : TM K (Z + Project) :=
  if p_Deleting proj then
    if decide (FinalizerName ∉ p_Finalizers proj) then mret (inl 0) else
    let projectSPXID := ToSPXID SpxPrefix (ps_ProjectID (p_Spec proj)) in
    app ← tried (GetApplicationDeleting projectSPXID (gitOpsName projectSPXID));
    match app with
    | Ok deleting =>
      _ ← (if deleting : bool then mret tt else DeleteGitOpsApplication projectSPXID (gitOpsName projectSPXID));
      mret (inl (seconds 10))
    | Err err =>
      if negb (op_IsNotFound err) then throw err else
      _ ← UpdateProject (set_finalizers (removeFinalizer (p_Finalizers proj)) proj);
      mret (inl 0)
    end
  else if decide (FinalizerName ∈ p_Finalizers proj) then mret (inr proj)
  else
    proj ← UpdateProject (set_finalizers (p_Finalizers proj ++ [FinalizerName]) proj);
    mret (inr proj).

(** The namespace of a reference is by default that of the project. *)
Definition namespaceOf (proj : Project) (ref : Reference) : string :=
  if decide (ref_Namespace ref = EmptyString) then p_Namespace proj else ref_Namespace ref.

Definition organizationOf (proj : Project) : TM K Organization :=
  let ref := ps_OrganizationRef (p_Spec proj) in GetOrganization (namespaceOf proj ref) (ref_Name ref).

(** The organization cannot be used: the project is not bound. *)
Definition notBound (reason message : string) (proj : Project) : TM K (option Z) :=
  _ ← UpdateProjectStatus (set_display_name (set_condition ConditionTypeBound ConditionFalse reason message proj));
  mret (Some (seconds 30)).

(** The delay after which the reconciliation, which stops, runs again. *)
Definition reconcileOrganization (proj : Project) : TM K (option Z) :=
  r ← tried (organizationOf proj);
  match r with
  | Err err =>
    if op_IsNotFound err then notBound "OrganizationNotFound" "Referenced Organization not found" proj else throw err
  | Ok org =>
    if isBound (os_Conditions (o_Status org)) then mret None
    else notBound "OrganizationNotBound" "Referenced Organization is not bound to the database" proj
  end.

(** A project may run in hyperconverged clusters and in decoupled clusters of workloads. *)
Definition isValidZone (cluster : Cluster) : bool :=
  bool_decide (DeploymentTopology (Operator.Spec cluster) = DeploymentTopologyHyperconverged ∨
    DeploymentTopology (Operator.Spec cluster) = DeploymentTopologyDecoupled ∧
    ClusterType (Operator.Spec cluster) = Some ClusterTypeWorkload).

Definition azName (cluster : Cluster) : string :=
  Region (Operator.Spec cluster) +:+ "-" +:+ AvailabilityZone (Operator.Spec cluster).

(** The zones found so far, with the references to clusters of another type and to none. *)
Record Zones := mkZones { z_available : list AvailableZoneStatus; z_invalid : list string; z_notFound : list string }.

Definition addZone (ref : Reference) (cluster : Cluster) (z : Zones) : Zones :=
  if isValidZone cluster then
    if existsb (λ az, bool_decide (az_Name az = azName cluster)) (z_available z) then z
    else mkZones (z_available z ++ [mkAvailableZone (azName cluster) (cl_Name cluster)]) (z_invalid z) (z_notFound z)
  else mkZones (z_available z) (z_invalid z ++ [ref_Name ref]) (z_notFound z).

Fixpoint findZones (proj : Project) (refs : list Reference) (z : Zones) : TM K Zones :=
  match refs with
  | [] => mret z
  | ref :: refs =>
    r ← tried (GetZoneCluster (namespaceOf proj ref) (ref_Name ref));
    match r with
    | Ok cluster => findZones proj refs (addZone ref cluster z)
    | Err err =>
      if op_IsNotFound err then findZones proj refs (mkZones (z_available z) (z_invalid z) (z_notFound z ++ [ref_Name ref]))
      else throw err
    end
  end.

Definition zonesMessage (z : Zones) : string :=
  let part (text : string) (names : list string) :=
    if decide (names = []) then [] else [text +:+ String.concat ", " names] in
  String.concat "; " (part "Clusters not found: " (z_notFound z) ++ part "Clusters with invalid type: " (z_invalid z)).

Definition zonesCondition (z : Zones) : Project → Project :=
  if decide (z_invalid z ≠ [] ∨ z_notFound z ≠ []) then
    set_condition ConditionTypeAvailabilityZonesReady ConditionFalse ReasonAvailabilityZonesInvalid (zonesMessage z)
  else set_condition ConditionTypeAvailabilityZonesReady ConditionTrue ReasonAvailabilityZonesValid "All availability zones are valid".

Definition reconcileAvailabilityZones (proj : Project) : TM K Project :=
  z ← findZones proj (ps_AvailabilityZones (p_Spec proj)) (mkZones [] [] []);
  mret (zonesCondition z (set_zones (z_available z) proj)).

Definition reconcileDatabaseBinding (proj : Project) : TM K Project :=
  '(status, reason, message) ← binding "Project" (ProjectExists (ps_ProjectID (p_Spec proj)));
  mret (set_condition ConditionTypeBound status reason message proj).

(** *** GitOps *)

Definition namespaceLabels (organizationID projectID : string) (labels : option (gmap string string)) : option (gmap string string) :=
  Some (<[SpxLabelProjectID := ToSPXID SpxPrefix projectID]> (<[SpxLabelOrganizationID := ToSPXID SpxPrefix organizationID]>
    (<[ManagedLabel := "true"]> (default ∅ labels)))).

Definition ensureNamespace (namespaceName organizationID projectID : string) : TM K unit :=
  or_wrapped ("failed to reconcile namespace " +:+ namespaceName +:+ ": ")
    (CreateOrUpdateNamespace namespaceName (namespaceLabels organizationID projectID)).

(** The repository, the path and the revision: what the project overrides, else the defaults. *)
Definition resolveManifestLocation (proj : Project) : string * string * string :=
  match gitops ← ps_GitOps (p_Spec proj); ManifestLocation gitops with
  | Some l =>
    (if decide (ml_RepoURL l ≠ EmptyString) then ml_RepoURL l else go_RepoURL gitOpsConfig,
     if decide (ml_Path l ≠ EmptyString) then ml_Path l else go_Path gitOpsConfig,
     if decide (ml_TargetRevision l ≠ EmptyString) then ml_TargetRevision l else go_TargetRevision gitOpsConfig)
  | None => (go_RepoURL gitOpsConfig, go_Path gitOpsConfig, go_TargetRevision gitOpsConfig)
  end.

Definition noCredentials : GitCredentialsSpec := mkGitCredentials EmptyString EmptyString false false false EmptyString.

Definition helmValues (proj : Project) (org : Organization) (organizationName projectName : string) : HelmValues :=
  let l := gitops ← ps_GitOps (p_Spec proj); ValuesLocation gitops in
  let field (f : ValuesLocationSpec → string) := match l with Some l => f l | None => EmptyString end in
  mkHelmValues (o_OrganizationID org) organizationName (ps_ProjectID (p_Spec proj)) projectName
    (st_AvailableZones (p_Status proj)) (field vl_RepoURL) (field vl_Path) (field vl_TargetRevision)
    (default noCredentials (l ← l; vl_Credentials l)).

Definition buildHelmValues (proj : Project) (org : Organization) (organizationName projectName : string) : TM K string :=
  λ k, (yaml_Marshal (helmValues proj org organizationName projectName), k).

Definition gitOpsApplication (namespaceName repoURL path targetRevision values : string) (app : GitOpsApplication) : GitOpsApplication :=
  mkGitOpsApplication (Some (<[ManagedLabel := "true"]> (default ∅ (ga_Labels app)))) repoURL path targetRevision values
    "in-cluster" namespaceName "default" true true.

Definition ensureArgoApplication (namespaceName appName repoURL path targetRevision values : string) : TM K unit :=
  or_wrapped ("failed to reconcile argo application " +:+ appName +:+ ": ")
    (CreateOrUpdateGitOps namespaceName appName (gitOpsApplication namespaceName repoURL path targetRevision values)).

Definition fetchOrganizationForProject (proj : Project) : TM K Organization :=
  or_wrapped ("failed to fetch organization " +:+ ref_Name (ps_OrganizationRef (p_Spec proj)) +:+ ": ") (organizationOf proj).

Definition reconcileGitOps (proj : Project) : TM K unit :=
  let projectSPXID := ToSPXID SpxPrefix (ps_ProjectID (p_Spec proj)) in
  org ← fetchOrganizationForProject proj;
  let organizationName := if decide (o_SpecName org = EmptyString) then o_Name org else o_SpecName org in
  _ ← ensureNamespace projectSPXID (o_OrganizationID org) (ps_ProjectID (p_Spec proj));
  let '(repoURL, path, targetRevision) := resolveManifestLocation proj in
  values ← or_wrapped "failed to build helm values: " (buildHelmValues proj org organizationName (displayName proj));
  ensureArgoApplication projectSPXID (gitOpsName projectSPXID) repoURL path targetRevision values.

(** What [Reconcile] does of a project whose organization is bound. *)
Definition reconcileBound (proj : Project) : TM K Z :=
  proj ← reconcileAvailabilityZones proj;
  proj ← reconcileDatabaseBinding proj;
  let reported := set_display_name (set_observed proj) in
  if negb (isBound (st_Conditions (p_Status proj))) then
    _ ← UpdateProjectStatus reported; mret (seconds 30)
  else
    _ ← reconcileGitOps proj;
    _ ← UpdateProjectStatus reported; mret 0.

Definition reconcileExisting (proj : Project) : TM K Z :=
  go ← reconcileFinalizers proj;
  match go with
  | inl after => mret after
  | inr proj =>
    stop ← reconcileOrganization proj;
    match stop with Some after => mret after | None => reconcileBound proj end
  end.

(** Objects of other namespaces are ignored when the operator has its own. *)
Definition ignored (namespace : string) : bool :=
  bool_decide (OperatorNamespace ≠ EmptyString ∧ namespace ≠ OperatorNamespace).

Definition ReconcileProject (namespace name : string) : TM K Z :=
  if ignored namespace then mret 0 else
  r ← tried (GetProject namespace name);
  match r with
  | Err err => if op_IsNotFound err then mret 0 else throw err
  | Ok proj => reconcileExisting proj
  end.

(** ** Organizations ([organization/organization_controller.go]) *)

(** The project refers to the organization. *)
Definition refersTo (org : Organization) (p : Project) : bool :=
  let ref := ps_OrganizationRef (p_Spec p) in
  bool_decide (ref_Name ref = o_Name org ∧
    (ref_Namespace ref = o_Namespace org ∨ ref_Namespace ref = EmptyString ∧ p_Namespace p = o_Namespace org)).

Definition reconcileOrgFinalizers (org : Organization) : TM K (Z + Organization) :=
  if o_Deleting org then
    if decide (FinalizerName ∉ o_Finalizers org) then mret (inl 0) else
    projects ← ListProjects;
    if existsb (refersTo org) projects then mret (inl (seconds 60)) else
    _ ← UpdateOrganization (set_org_finalizers (removeFinalizer (o_Finalizers org)) org);
    mret (inl 0)
  else if decide (FinalizerName ∈ o_Finalizers org) then mret (inr org)
  else
    org ← UpdateOrganization (set_org_finalizers (o_Finalizers org ++ [FinalizerName]) org);
    mret (inr org).

Definition reconcileOrgBinding (org : Organization) : TM K Organization :=
  '(status, reason, message) ← binding "Organization" (OrganizationExists (o_OrganizationID org));
  let s := o_Status org in
  mret (set_org_status (mkOrganizationStatus
    (SetStatusCondition (os_Conditions s) (mkCondition ConditionTypeBound status reason message (o_Generation org) 0))
    (os_ObservedGeneration s) (os_DisplayName s)) org).

Definition set_org_observed (org : Organization) : Organization :=
  set_org_status (mkOrganizationStatus (os_Conditions (o_Status org)) (o_Generation org)
    (if decide (o_SpecName org ≠ EmptyString) then o_SpecName org else o_Name org)) org.

Definition ReconcileOrganization (namespace name : string) : TM K Z :=
  if ignored namespace then mret 0 else
  r ← tried (GetOrganization namespace name);
  match r with
  | Err err => if op_IsNotFound err then mret 0 else throw err
  | Ok org =>
    go ← reconcileOrgFinalizers org;
    match go with
    | inl after => mret after
    | inr org =>
      org ← reconcileOrgBinding org;
      _ ← UpdateOrganizationStatus (set_org_observed org);
      mret 0
    end
  end.

(** The organization whose reconciliation a change of the project asks for. *)
Definition findOrganizationsForProject (p : Project) : list (string * string) :=
  let ref := ps_OrganizationRef (p_Spec p) in [(namespaceOf p ref, ref_Name ref)].

(** The updates of a project that ask for it. *)
Definition projectUpdateWatched (old new : Project) : bool :=
  let r1 := ps_OrganizationRef (p_Spec old) in let r2 := ps_OrganizationRef (p_Spec new) in
  bool_decide (ref_Name r1 ≠ ref_Name r2 ∨ ref_Namespace r1 ≠ ref_Namespace r2) || negb (p_Deleting old) && p_Deleting new.
End tenants.
