(* ===== verification/TenantTheorems.v ===== *)
(** * What the reconcilers of projects and organizations may do

    For every API server: [TenantServer] answers each call with any function of the calls made before. A
    finalizer is only removed when what it protects is gone, nothing is deployed for a project that is not
    bound, and a reconciliation that ends without a delay has deployed it; the zones of a project are
    its valid clusters. *)

From S2P Require Import Prelude Strings SpxId Operator Tenants.

(** ** Any server *)

Inductive TCall :=
  | ProjectRead (namespace name : string) (r : result OpError Project)
  | OrganizationRead (namespace name : string) (r : result OpError Organization)
  | ClusterRead (namespace name : string) (r : result OpError Cluster)
  | ProjectsListed (r : result OpError (list Project))
  | ProjectUpdated (p : Project) (r : result OpError Project)
  | OrganizationUpdated (o : Organization) (r : result OpError Organization)
  | ProjectReported (p : Project) (r : result OpError unit)
  | OrganizationReported (o : Organization) (r : result OpError unit)
  | ApplicationRead (namespace name : string) (r : result OpError bool)
  | ApplicationDeleted (namespace name : string) (r : result OpError unit)
  | NamespaceApplied (name : string) (f : option (gmap string string) → option (gmap string string)) (r : result OpError unit)
  | GitOpsApplied (namespace name : string) (f : GitOpsApplication → GitOpsApplication) (r : result OpError unit)
  | ProjectRowRead (id : string) (r : result DbError unit)
  | OrganizationRowRead (id : string) (r : result DbError unit).

Record TenantServer := mkTenantServer {
  ts_GetProject : list TCall → string → string → result OpError Project;
  ts_GetOrganization : list TCall → string → string → result OpError Organization;
  ts_GetCluster : list TCall → string → string → result OpError Cluster;
  ts_ListProjects : list TCall → result OpError (list Project);
  ts_UpdateProject : list TCall → Project → result OpError Project;
  ts_UpdateOrganization : list TCall → Organization → result OpError Organization;
  ts_UpdateProjectStatus : list TCall → Project → result OpError unit;
  ts_UpdateOrganizationStatus : list TCall → Organization → result OpError unit;
  ts_GetApplication : list TCall → string → string → result OpError bool;
  ts_DeleteApplication : list TCall → string → string → result OpError unit;
  ts_Namespace : list TCall → string → result OpError unit;
  ts_GitOps : list TCall → string → string → result OpError unit;
  ts_FirstProject : list TCall → string → result DbError unit;
  ts_FirstOrganization : list TCall → string → result DbError unit }.

Existing Class TenantServer.

#[export] Instance tenant_calls {S : TenantServer} : TenantClient (list TCall) := {
  GetProject ns n h := let r := ts_GetProject S h ns n in (r, h ++ [ProjectRead ns n r]);
  GetOrganization ns n h := let r := ts_GetOrganization S h ns n in (r, h ++ [OrganizationRead ns n r]);
  GetZoneCluster ns n h := let r := ts_GetCluster S h ns n in (r, h ++ [ClusterRead ns n r]);
  ListProjects h := let r := ts_ListProjects S h in (r, h ++ [ProjectsListed r]);
  UpdateProject p h := let r := ts_UpdateProject S h p in (r, h ++ [ProjectUpdated p r]);
  UpdateOrganization o h := let r := ts_UpdateOrganization S h o in (r, h ++ [OrganizationUpdated o r]);
  UpdateProjectStatus p h := let r := ts_UpdateProjectStatus S h p in (r, h ++ [ProjectReported p r]);
  UpdateOrganizationStatus o h := let r := ts_UpdateOrganizationStatus S h o in (r, h ++ [OrganizationReported o r]);
  GetApplicationDeleting ns n h := let r := ts_GetApplication S h ns n in (r, h ++ [ApplicationRead ns n r]);
  DeleteGitOpsApplication ns n h := let r := ts_DeleteApplication S h ns n in (r, h ++ [ApplicationDeleted ns n r]);
  CreateOrUpdateNamespace n f h := let r := ts_Namespace S h n in (r, h ++ [NamespaceApplied n f r]);
  CreateOrUpdateGitOps ns n f h := let r := ts_GitOps S h ns n in (r, h ++ [GitOpsApplied ns n f r]);
  FirstProject id h := let r := ts_FirstProject S h id in (r, h ++ [ProjectRowRead id r]);
  FirstOrganization id h := let r := ts_FirstOrganization S h id in (r, h ++ [OrganizationRowRead id r]);
}.

(** [SetStatusCondition] sets the condition of the type, and leaves the others. *)
Class TenantLaws {TL : TenantLib} : Prop := {
  Find_Set cs c type : FindStatusCondition (SetStatusCondition cs c) type =
      FindStatusCondition cs type ∨ type = c_Type c;
  Find_Set_same cs c : ∃ c', FindStatusCondition (SetStatusCondition cs c) (c_Type c) = Some c' ∧
      c_Status c' = c_Status c ∧ c_Reason c' = c_Reason c ∧ c_Message c' = c_Message c }.

(** ** Runs whose calls are allowed *)

(** Each call is allowed after those before it. *)
Definition good {Ev} (P : list Ev → Ev → Prop) (h : list Ev) : Prop :=
  ∀ before c after, h = before ++ c :: after → P before c.

Lemma good_snoc {Ev} (P : list Ev → Ev → Prop) h c : good P h → P h c → good P (h ++ [c]).
Proof.
  intros Hg Hc before c' after Heq. destruct after as [|a after _] using rev_ind.
  - apply app_inj_tail in Heq as [<- <-]. done.
  - rewrite app_comm_cons, app_assoc in Heq. apply app_inj_tail in Heq as [-> _]. by eapply Hg.
Qed.

Section runs.
Context {Ev : Type} (P : list Ev → Ev → Prop).
Implicit Types h : list Ev.

(** A run after [h] makes calls that are allowed, and ends in [Φ]. *)
Definition safe {A} (m : TM (list Ev) A) h (Φ : result OpError A → list Ev → Prop) : Prop :=
  ∃ r h', m h = (r, h') ∧ (good P h → good P h') ∧ Φ r h'.

Lemma safe_mono {A} (m : TM (list Ev) A) h (Φ Ψ : _ → _ → Prop) :
  (∀ r h', Φ r h' → Ψ r h') → safe m h Φ → safe m h Ψ.
Proof. intros HΦ (r & h' & Hm & Hg & H). exists r, h'. auto. Qed.

Lemma safe_ret {A} (a : A) h (Φ : _ → _ → Prop) : Φ (Ok a) h → safe (mret a) h Φ.
Proof. intros H. by exists (Ok a), h. Qed.

Lemma safe_throw {A} e h (Φ : result OpError A → _ → Prop) : Φ (Err e) h → safe (throw e) h Φ.
Proof. intros H. by exists (Err e), h. Qed.

Lemma safe_bind {A B} (m : TM (list Ev) A) (f : A → TM (list Ev) B) h Φ :
  safe m h (λ r h', match r with Ok a => safe (f a) h' Φ | Err e => Φ (Err e) h' end) → safe (m ≫= f) h Φ.
Proof.
  intros (r & h' & Hm & Hg & H). unfold mbind, TM_bind, safe. rewrite Hm. destruct r as [a|e].
  - destruct H as (r' & h'' & Hf & Hg' & H). exists r', h''. rewrite Hf. auto.
  - by exists (Err e), h'.
Qed.

Lemma safe_tried {A} (m : TM (list Ev) A) h (Φ : _ → _ → Prop) : safe m h (λ r h', Φ (Ok r) h') → safe (tried m) h Φ.
Proof. intros (r & h' & Hm & Hg & H). exists (Ok r), h'. unfold tried. by rewrite Hm. Qed.

Lemma safe_wrapped {A} text (m : TM (list Ev) A) h (Φ : result OpError A → _ → Prop) :
  safe m h (λ r h', match r with Ok a => Φ (Ok a) h' | Err e => Φ (Err (wrap text e)) h' end) → safe (or_wrapped text m) h Φ.
Proof. intros ([a|e] & h' & Hm & Hg & H); eexists _, h'; unfold or_wrapped; rewrite Hm; by split_and!. Qed.

Lemma safe_pure {A} (r : result OpError A) h (Φ : _ → _ → Prop) : Φ r h → safe (λ k, (r, k)) h Φ.
Proof. intros H. by exists r, h. Qed.

Lemma safe_call {A} (f : TM (list Ev) A) h r c (Φ : _ → _ → Prop) :
  f h = (r, h ++ [c]) → P h c → Φ r (h ++ [c]) → safe f h Φ.
Proof. intros Hf Hc H. exists r, (h ++ [c]). split; [done|]. split; [|done]. intros. by apply good_snoc. Qed.
End runs.

(** Takes the next steps of a run, up to a call of another definition. *)
Ltac run_step :=
  lazymatch goal with
  | |- safe _ (_ ≫= _) _ _ => apply safe_bind
  | |- safe _ (tried _) _ _ => apply safe_tried
  | |- safe _ (or_wrapped _ _) _ _ => apply safe_wrapped
  | |- safe _ (mret _) _ _ => apply safe_ret
  | |- safe _ (throw _) _ _ => apply safe_throw
  | |- safe _ (GetProject _ _) _ _ => eapply safe_call; [reflexivity| |]
  | |- safe _ (GetOrganization _ _) _ _ => eapply safe_call; [reflexivity| |]
  | |- safe _ (GetZoneCluster _ _) _ _ => eapply safe_call; [reflexivity| |]
  | |- safe _ ListProjects _ _ => eapply safe_call; [reflexivity| |]
  | |- safe _ (UpdateProject _) _ _ => eapply safe_call; [reflexivity| |]
  | |- safe _ (UpdateOrganization _) _ _ => eapply safe_call; [reflexivity| |]
  | |- safe _ (UpdateProjectStatus _) _ _ => eapply safe_call; [reflexivity| |]
  | |- safe _ (UpdateOrganizationStatus _) _ _ => eapply safe_call; [reflexivity| |]
  | |- safe _ (GetApplicationDeleting _ _) _ _ => eapply safe_call; [reflexivity| |]
  | |- safe _ (DeleteGitOpsApplication _ _) _ _ => eapply safe_call; [reflexivity| |]
  | |- safe _ (CreateOrUpdateNamespace _ _) _ _ => eapply safe_call; [reflexivity| |]
  | |- safe _ (CreateOrUpdateGitOps _ _ _) _ _ => eapply safe_call; [reflexivity| |]
  end.
Ltac run := repeat (run_step; cbv beta iota).

(** A call that was made is among the calls. *)
Ltac made := repeat (first [assumption | apply elem_of_app; right; by apply list_elem_of_singleton | apply elem_of_app; left]).

(** ** Projects *)
Section projects.
Context {UL : UUIDLib} {S : TenantServer} {TL : TenantLib}.
Context (SpxPrefix OperatorNamespace : string) (gitOpsConfig : GitOpsConfig) (databaseConnected : bool).

(** The namespace of a project. *)
Definition spxOf (p : Project) : string := ToSPXID SpxPrefix (ps_ProjectID (p_Spec p)).

(** The project as it was read, or as it is after the finalizer was added. *)
Definition seen (namespace name : string) (calls : list TCall) (p : Project) : Prop :=
  ProjectRead namespace name (Ok p) ∈ calls ∨ ∃ p0, ProjectUpdated p0 (Ok p) ∈ calls.

(** The project is not being deleted, its organization is bound, and the database has it. *)
Definition deployable (namespace name : string) (calls : list TCall) (p : Project) : Prop :=
  seen namespace name calls p ∧
  (∃ org, OrganizationRead (namespaceOf p (ps_OrganizationRef (p_Spec p))) (ref_Name (ps_OrganizationRef (p_Spec p))) (Ok org) ∈ calls ∧
    isBound (os_Conditions (o_Status org)) = true) ∧
  ∃ u, uuid_Parse (ps_ProjectID (p_Spec p)) = Some u ∧ ProjectRowRead (uuid_String u) (Ok tt) ∈ calls.

(** What a reconciliation of the project may call after [calls]. *)
Definition project_may (namespace name : string) (calls : list TCall) (c : TCall) : Prop :=
  match c with
  | ProjectUpdated p _ =>
    ∃ proj, ProjectRead namespace name (Ok proj) ∈ calls ∧
      if p_Deleting proj then
        p = set_finalizers (removeFinalizer (p_Finalizers proj)) proj ∧
        ∃ e, ApplicationRead (spxOf proj) (gitOpsName (spxOf proj)) (Err e) ∈ calls ∧ oe_kind e = KindNotFound
      else p = set_finalizers (p_Finalizers proj ++ [FinalizerName]) proj
  | ApplicationDeleted ns n _ =>
    ∃ proj, ProjectRead namespace name (Ok proj) ∈ calls ∧ p_Deleting proj = true ∧ FinalizerName ∈ p_Finalizers proj ∧
      ns = spxOf proj ∧ n = gitOpsName (spxOf proj)
  | NamespaceApplied n _ _ => ∃ p, deployable namespace name calls p ∧ n = spxOf p
  | GitOpsApplied ns n f _ => ∃ p, deployable namespace name calls p ∧ ns = spxOf p ∧ n = gitOpsName (spxOf p) ∧
      (∃ g, NamespaceApplied ns g (Ok tt) ∈ calls) ∧ ∀ app, ga_DestinationNamespace (f app) = ns
  | ProjectReported p _ => ∃ proj, seen namespace name calls proj ∧ p_Name p = p_Name proj ∧ p_Namespace p = p_Namespace proj ∧
      p_Spec p = p_Spec proj
  | OrganizationUpdated _ _ | OrganizationReported _ _ => False
  | _ => True
  end.

Lemma seen_app ns n h h' p : seen ns n h p → seen ns n (h ++ h') p.
Proof. intros [?|[p0 ?]]; [left|right; exists p0]; apply elem_of_app; by left. Qed.

(** What the steps of a reconciliation change of a project. *)
Definition same_project (p q : Project) : Prop :=
  p_Name p = p_Name q ∧ p_Namespace p = p_Namespace q ∧ p_Spec p = p_Spec q.

(** The calls only grow. *)
Definition grows (h h' : list TCall) : Prop := ∃ calls, h' = h ++ calls.

Lemma grows_refl h : grows h h.
Proof. exists []. by rewrite app_nil_r. Qed.

Lemma grows_snoc h h' c : grows (h ++ [c]) h' → grows h h'.
Proof. intros [calls ->]. exists (c :: calls). by rewrite <-app_assoc. Qed.

Context (namespace name : string).
Abbreviation may := (project_may namespace name).

Lemma findZones_safe proj refs z h :
  safe may (findZones proj refs z) h (λ r h', grows h h').
Proof.
  revert z h. induction refs as [|ref refs IH]; intros z h; cbn [findZones]; run; [apply grows_refl|done|].
  destruct (ts_GetCluster S h (namespaceOf proj ref) (ref_Name ref)) as [c|e]; [|destruct (op_IsNotFound e)].
  - eapply safe_mono; [|apply IH]. intros r h'. apply grows_snoc.
  - eapply safe_mono; [|apply IH]. intros r h'. apply grows_snoc.
  - apply safe_throw. eapply grows_snoc, grows_refl.
Qed.

Lemma zones_safe proj h :
  safe may (reconcileAvailabilityZones proj) h (λ r h', grows h h' ∧ match r with Ok p => same_project p proj | Err _ => True end).
Proof.
  unfold reconcileAvailabilityZones. run. eapply safe_mono; [|apply findZones_safe].
  intros [z|e] h' Hg; [|done]. run. split; [done|]. unfold zonesCondition. by case_decide.
Qed.

Lemma row_safe connected id h (Φ : result OpError bool → list TCall → Prop) :
  (∀ e h', grows h h' → Φ (Err e) h') → (∀ h', grows h h' → Φ (Ok false) h') →
  (∀ u, uuid_Parse id = Some u → Φ (Ok true) (h ++ [ProjectRowRead (uuid_String u) (Ok tt)])) →
  safe may (ProjectExists connected id) h Φ.
Proof.
  intros Herr Hno Hyes. unfold ProjectExists, rowExists, safe. destruct connected; cbn [negb].
  - destruct (uuid_Parse id) as [u|] eqn:Hu; [|eexists _, h; split_and!; [done..|]; apply Herr, grows_refl]. cbn.
    destruct (ts_FirstProject S h (uuid_String u)) as [[]|[|e]]; (eexists _, (h ++ [_]); split; [done|];
      split; [intros; by apply good_snoc|]); [by apply Hyes|apply Hno; by eexists|apply Herr; by eexists].
  - eexists _, h. split_and!; [done..|]. apply Herr, grows_refl.
Qed.

Lemma binding_safe proj h :
  safe may (reconcileDatabaseBinding databaseConnected proj) h (λ r h', grows h h' ∧
    match r with
    | Ok p => same_project p proj ∧ ∃ status reason message, p = set_condition ConditionTypeBound status reason message proj ∧
        (status = ConditionTrue → ∃ u, uuid_Parse (ps_ProjectID (p_Spec proj)) = Some u ∧ ProjectRowRead (uuid_String u) (Ok tt) ∈ h')
    | Err _ => True
    end).
Proof.
  unfold reconcileDatabaseBinding, binding. run. destruct databaseConnected.
  - run. apply row_safe.
    + intros e h' Hg. by split.
    + intros h' Hg. run. split; [done|]. split; [done|]. eexists _, _, _. by split.
    + intros u Hu. run. split; [by eexists|]. split; [done|]. eexists _, _, _. split; [done|]. intros _. exists u.
      split; [done|]. made.
  - run. split; [apply grows_refl|]. split; [done|]. eexists _, _, _. by split.
Qed.

Lemma deployable_grows h h' p : grows h h' → deployable namespace name h p → deployable namespace name h' p.
Proof.
  intros [calls ->] (Hs & (org & Ho & Hb) & u & Hu & Hr). split; [by apply seen_app|]. split.
  - exists org. split; [|done]. apply elem_of_app. by left.
  - exists u. split; [done|]. apply elem_of_app. by left.
Qed.

Abbreviation reconcile_gitops := (reconcileGitOps SpxPrefix gitOpsConfig).

(** Its namespace, then its application, and nothing else. *)
Lemma gitops_safe proj q h :
  deployable namespace name h proj → same_project q proj →
  safe may (reconcile_gitops q) h (λ r h', grows h h' ∧
    (r = Ok tt → ∃ f, GitOpsApplied (spxOf proj) (gitOpsName (spxOf proj)) f (Ok tt) ∈ h')).
Proof.
  intros Hd (Hn & Hns & Hspec). unfold reconcileGitOps, fetchOrganizationForProject, organizationOf, ensureNamespace.
  assert (ToSPXID SpxPrefix (ps_ProjectID (p_Spec q)) = spxOf proj) as -> by by rewrite Hspec.
  run; [done|]. destruct (ts_GetOrganization _ _ _ _) as [org|e]; [|split; [by eexists|done]].
  run; [exists proj; split; [|done]; eapply deployable_grows; [by eexists|done]|].
  destruct (ts_Namespace _ _ _) as [[]|e]; [|split; [eexists; by rewrite <-app_assoc|done]].
  destruct (resolveManifestLocation gitOpsConfig q) as [[repoURL path] revision].
  run. unfold buildHelmValues. apply safe_pure.
  destruct (yaml_Marshal _) as [values|e]; [|split; [eexists; by rewrite <-app_assoc|done]].
  unfold ensureArgoApplication. run.
  - exists proj. split; [eapply deployable_grows; [eexists; by rewrite <-app_assoc|done]|].
    split; [done|]. split; [done|]. split; [|done]. eexists. made.
  - destruct (ts_GitOps _ _ _ _) as [[]|e]; (split; [eexists; by rewrite <-!app_assoc|]); [|done].
    intros _. eexists. made.
Qed.

(** What a reconciliation that ends without a delay has found or done. *)
Definition settled (h : list TCall) : Prop :=
  ignored OperatorNamespace namespace = true ∨
  (∃ e, ProjectRead namespace name (Err e) ∈ h ∧ oe_kind e = KindNotFound) ∨
  (∃ p, ProjectRead namespace name (Ok p) ∈ h ∧ p_Deleting p = true ∧
    (FinalizerName ∉ p_Finalizers p ∨
     ∃ p', ProjectUpdated (set_finalizers (removeFinalizer (p_Finalizers p)) p) (Ok p') ∈ h)) ∨
  ∃ p q f, deployable namespace name h p ∧ GitOpsApplied (spxOf p) (gitOpsName (spxOf p)) f (Ok tt) ∈ h ∧
    ProjectReported q (Ok tt) ∈ h ∧ same_project q p ∧ isBound (st_Conditions (p_Status q)) = true ∧
    st_ObservedGeneration (p_Status q) = p_Generation q ∧ st_DisplayName (p_Status q) = displayName p.

Lemma bound_safe {TLaws : TenantLaws} proj h :
  seen namespace name h proj →
  (∃ org, OrganizationRead (namespaceOf proj (ps_OrganizationRef (p_Spec proj))) (ref_Name (ps_OrganizationRef (p_Spec proj))) (Ok org) ∈ h ∧
    isBound (os_Conditions (o_Status org)) = true) →
  safe may (reconcileBound SpxPrefix gitOpsConfig databaseConnected proj) h (λ r h', r = Ok 0 → settled h').
Proof.
  intros Hseen Horg. unfold reconcileBound. apply safe_bind. eapply safe_mono; [|apply zones_safe].
  intros [p1|e] h1 [Hg1 Hp1]; [|done]. apply safe_bind. eapply safe_mono; [|apply binding_safe].
  intros [p2|e] h2 [Hg2 Hp2]; [|done]. destruct Hp2 as (Hsame2 & status & reason & message & -> & Hrow).
  set (p2 := set_condition _ _ _ _ p1) in *.
  assert (same_project p2 proj) as Hsame by (destruct Hp1 as (?&?&?), Hsame2 as (?&?&?); split_and!; congruence).
  assert (grows h h2) as Hg by (destruct Hg1 as [? ->], Hg2 as [? ->]; eexists; by rewrite <-app_assoc).
  assert (seen namespace name h2 proj) as Hseen2 by (destruct Hg as [? ->]; by apply seen_app).
  destruct (isBound (st_Conditions (p_Status p2))) eqn:Hb; cbn [negb].
  - assert (deployable namespace name h2 proj) as Hd.
    { split; [done|]. split.
      - destruct Horg as (org & Ho & Hob), Hg as [? ->]. exists org. split; [|done]. apply elem_of_app. by left.
      - destruct Hp1 as (_ & _ & <-). apply Hrow.
        unfold isBound, p2 in Hb. simpl in Hb.
        destruct (Find_Set_same (st_Conditions (p_Status p1))
          (mkCondition ConditionTypeBound status reason message (p_Generation p1) 0)) as (c & Hc & Hst & _).
        simpl in Hc. rewrite Hc in Hb. apply bool_decide_eq_true in Hb. simpl in Hst. congruence. }
    apply safe_bind. eapply safe_mono; [|by apply (gitops_safe proj)].
    intros [[]|e] h3 [Hg3 Happ]; [|done]. destruct Happ as [f Hf]; [done|]. run.
    + exists proj. split; [destruct Hg3 as [? ->]; by apply seen_app|]. by destruct Hsame.
    + destruct (ts_UpdateProjectStatus _ _ _) as [[]|e]; [|done]. run. intros _. right; right; right.
      exists proj, (set_display_name (set_observed p2)), f.
      split; [eapply deployable_grows; [|done]; destruct Hg3 as [? ->]; eexists; by rewrite <-app_assoc|].
      split; [made|]. split; [made|]. split; [done|]. split; [done|]. split; [done|].
      destruct Hsame as (Hn & _ & Hsp).
      assert (displayName p2 = displayName proj) as <- by by unfold displayName; rewrite Hsp, Hn. done.
  - run.
    + exists proj. by split; [|destruct Hsame].
    + destruct (ts_UpdateProjectStatus _ _ _) as [[]|e]; [|done]. run. done.
Qed.

Lemma existing_safe {TLaws : TenantLaws} proj h :
  ProjectRead namespace name (Ok proj) ∈ h →
  safe may (reconcileExisting SpxPrefix gitOpsConfig databaseConnected proj) h (λ r h', r = Ok 0 → settled h').
Proof.
  intros Hread. unfold reconcileExisting. apply safe_bind.
  assert (∀ h' p, seen namespace name h' p →
    safe may (stop ← reconcileOrganization p; match stop with Some after => mret after | None =>
      reconcileBound SpxPrefix gitOpsConfig databaseConnected p end) h' (λ r h'', r = Ok 0 → settled h'')) as Hrest.
  { intros h' p Hp. unfold reconcileOrganization, organizationOf, notBound. run; [done|].
    destruct (ts_GetOrganization S h' _ _) as [org|e].
    - destruct (isBound (os_Conditions (o_Status org))) eqn:Hb.
      + run. apply bound_safe; [by apply seen_app|]. exists org. split; [made|done].
      + run; [exists p; by split; [apply seen_app|]|]. destruct (ts_UpdateProjectStatus _ _ _) as [[]|e]; [|done]. by run.
    - destruct (op_IsNotFound e); [|by run].
      run; [exists p; by split; [apply seen_app|]|]. destruct (ts_UpdateProjectStatus _ _ _) as [[]|e']; [|done]. by run. }
  unfold reconcileFinalizers. destruct (p_Deleting proj) eqn:Hdel.
  - case_decide as Hfin.
    + run. intros _. right; right; left. exists proj. auto.
    + fold (spxOf proj). run; [done|].
      destruct (ts_GetApplication S h _ _) as [[]|e]; [by run| |].
      * run; [exists proj; split; [apply elem_of_app; by left|done]|].
        destruct (ts_DeleteApplication _ _ _ _) as [[]|e]; [|done]. by run.
      * destruct (op_IsNotFound e) eqn:He; cbn [negb]; [|by run]. apply bool_decide_eq_true in He. cbn [negb]. run.
        -- exists proj. rewrite Hdel. split; [apply elem_of_app; by left|]. split; [done|]. exists e. split; [made|done].
        -- destruct (ts_UpdateProject _ _ _) as [p'|e'] eqn:Hup; [|done]. run. intros _. right; right; left. exists proj.
           split; [apply elem_of_app; left; apply elem_of_app; by left|]. split; [done|]. right. exists p'. made.
  - case_decide as Hfin; [apply safe_ret, Hrest; by left|]. apply safe_bind. run_step; [exists proj; by rewrite Hdel|].
    destruct (ts_UpdateProject _ _ _) as [p'|e'] eqn:Hup; [|done]. apply safe_ret, Hrest. right. eexists. made.
Qed.

Abbreviation reconcile := (ReconcileProject SpxPrefix OperatorNamespace gitOpsConfig databaseConnected namespace name).

Lemma ReconcileProject_safe {TLaws : TenantLaws} :
  safe may reconcile [] (λ r h', r = Ok 0 → settled h').
Proof.
  unfold ReconcileProject. destruct (ignored OperatorNamespace namespace) eqn:Hi; [run; intros _; by left|]. run; [done|].
  destruct (ts_GetProject S [] namespace name) as [proj|e].
  - apply existing_safe. by left.
  - destruct (op_IsNotFound e) eqn:He; [|by run]. run. intros _. right; left. exists e. split; [by left|].
    by apply bool_decide_eq_true in He.
Qed.

(** C29: whatever the API server and the database answer, each call of a reconciliation of a project is
    one it may make. The finalizer of the project is only removed when the project was read as being
    deleted and its GitOps application was not found; only that application is ever deleted, and only
    then. A namespace or an application is only written for a project whose organization, the one that its
    specification refers to, was read as bound, and whose row was found in the database, under the name of its identifier, and the application
    after the namespace and into it. No organization is written. *)
Theorem project_calls_guarded {TLaws : TenantLaws} r calls :
  reconcile [] = (r, calls) →
  ∀ before c after, calls = before ++ c :: after → project_may namespace name before c.
Proof.
  intros Hrun. destruct ReconcileProject_safe as (r' & h' & Hrun' & Hgood & _). rewrite Hrun in Hrun'. injection Hrun' as -> ->.
  apply Hgood. by intros [].
Qed.

(** C30: a reconciliation of a project that ends without error and asks for no other is of a project that
    is not that of the operator, that does not exist, or that is being deleted and keeps no
    finalizer; or it has written the application of the project and reported it as bound, at the
    generation that it read and under its name. *)
Theorem project_settled {TLaws : TenantLaws} calls : reconcile [] = (Ok 0, calls) → settled calls.
Proof.
  intros Hrun. destruct ReconcileProject_safe as (r' & h' & Hrun' & _ & Hset). rewrite Hrun in Hrun'. injection Hrun' as <- <-.
  by apply Hset.
Qed.
End projects.

(** ** The zones of a project *)
Section zones.
Context {S : TenantServer} {TL : TenantLib}.

(** What was answered about the reference: a cluster, or that there is none. *)
Definition asked (proj : Project) (calls : list TCall) (ref : Reference) (answer : option Cluster) : Prop :=
  ∃ r, ClusterRead (namespaceOf proj ref) (ref_Name ref) r ∈ calls ∧
    match answer with Some c => r = Ok c | None => ∃ e, r = Err e ∧ oe_kind e = KindNotFound end.

(** The zones are those of the valid clusters, each once, and what is not one is reported. *)
Definition zones_of (answers : list (option Cluster)) (z : Zones) : Prop :=
  NoDup (az_Name <$> z_available z) ∧
  (∀ az, az ∈ z_available z → ∃ c, Some c ∈ answers ∧ isValidZone c = true ∧ az = mkAvailableZone (azName c) (cl_Name c)) ∧
  (∀ c, Some c ∈ answers → isValidZone c = true → azName c ∈ az_Name <$> z_available z) ∧
  (z_invalid z = [] ∧ z_notFound z = [] ↔ Forall (λ a, ∃ c, a = Some c ∧ isValidZone c = true) answers).

Definition step (ref : Reference) (answer : option Cluster) (z : Zones) : Zones :=
  match answer with
  | Some c => addZone ref c z
  | None => mkZones (z_available z) (z_invalid z) (z_notFound z ++ [ref_Name ref])
  end.

Lemma step_zones answers z ref answer : zones_of answers z → zones_of (answers ++ [answer]) (step ref answer z).
Proof.
  intros (Hnd & Hsound & Hcomplete & Hready).
  assert (∀ az, az ∈ z_available z → ∃ c, Some c ∈ answers ++ [answer] ∧ isValidZone c = true ∧
    az = mkAvailableZone (azName c) (cl_Name c)) as Hsound'.
  { intros az (c & ? & ?)%Hsound. exists c. split; [apply elem_of_app; by left|done]. }
  assert (∀ l (x : string), ¬ (l ++ [x] = [])) as Hne by (by intros []).
  destruct answer as [c|]; cbn [step]; [unfold addZone; destruct (isValidZone c) eqn:Hv; [destruct (existsb _ _) eqn:He|]|].
  - split; [done|]. split; [done|]. split.
    + intros c' [?|?%list_elem_of_singleton]%elem_of_app Hv'; [by apply Hcomplete|simplify_eq].
      apply existsb_exists in He as (az & Hin & Hn). apply bool_decide_eq_true in Hn as <-. apply list_elem_of_fmap.
      exists az. split; [done|by apply list_elem_of_In].
    + rewrite Hready, Forall_app, Forall_singleton. naive_solver.
  - unfold zones_of. cbn [z_available z_invalid z_notFound]. rewrite fmap_app. split; [|split; [|split]].
    + apply NoDup_app. split; [done|]. split; [|apply NoDup_singleton].
      intros x (az & -> & Hin)%list_elem_of_fmap Hx%list_elem_of_singleton. apply not_true_iff_false in He. apply He.
      apply existsb_exists. exists az. split; [by apply list_elem_of_In|]. by apply bool_decide_eq_true.
    + intros az [?|?%list_elem_of_singleton]%elem_of_app; [auto|simplify_eq]. exists c.
      split; [|done]. apply elem_of_app. right. by left.
    + intros c' [Hin|?%list_elem_of_singleton]%elem_of_app Hv'; apply elem_of_app; [left; by apply Hcomplete|right; simplify_eq; by left].
    + rewrite Hready, Forall_app, Forall_singleton. naive_solver.
  - split; [done|]. split; [done|]. split.
    + intros c' [?|?%list_elem_of_singleton]%elem_of_app Hv'; [by apply Hcomplete|congruence].
    + rewrite Forall_app, Forall_singleton. cbn [z_invalid z_notFound]. split; [by intros [?%Hne _]|].
      intros (_ & c' & [= <-] & ?). congruence.
  - split; [done|]. split; [done|]. split.
    + intros c' [?|?%list_elem_of_singleton]%elem_of_app Hv'; [by apply Hcomplete|done].
    + rewrite Forall_app, Forall_singleton. cbn [z_invalid z_notFound]. split; [by intros [_ ?%Hne]|]. by intros (_ & c' & ? & _).
Qed.

Lemma findZones_zones proj refs z h z' h' :
  findZones proj refs z h = (Ok z', h') →
  ∃ calls answers, h' = h ++ calls ∧ Forall2 (asked proj calls) refs answers ∧
    ∀ before, zones_of before z → zones_of (before ++ answers) z'.
Proof.
  revert z h. induction refs as [|ref refs IH]; intros z h; cbn [findZones].
  - intros [= <- <-]. exists [], []. rewrite app_nil_r. split; [done|]. split; [constructor|]. intros before. by rewrite app_nil_r.
  - unfold mbind, TM_bind, tried. cbn.
    set (r := ts_GetCluster S h (namespaceOf proj ref) (ref_Name ref)). intros Hrun.
    assert (∃ answer, match answer with Some c => r = Ok c | None => ∃ e, r = Err e ∧ oe_kind e = KindNotFound end ∧
      findZones proj refs (step ref answer z) (h ++ [ClusterRead (namespaceOf proj ref) (ref_Name ref) r]) = (Ok z', h'))
      as (answer & Hr & Hrest).
    { destruct r as [c|e]; [by exists (Some c)|]. destruct (op_IsNotFound e) eqn:He; [|done].
      apply bool_decide_eq_true in He. exists None. eauto. }
    apply IH in Hrest as (calls & answers & -> & Hall & Hz).
    exists (ClusterRead (namespaceOf proj ref) (ref_Name ref) r :: calls), (answer :: answers). split; [by rewrite <-app_assoc|].
    split.
    + constructor; [exists r; split; [by left|done]|]. eapply Forall2_impl; [done|].
      intros ref' a (r' & Hin & Hr'). exists r'. split; [by right|done].
    + intros before Hb. rewrite (cons_middle answer before answers), app_assoc. by apply Hz, step_zones.
Qed.

(** The zones that are reported for a project are those of the clusters that its references name and
    that may run workloads, each once whatever references lead to it; the condition on them is true
    exactly when every reference names such a cluster. *)
Theorem project_zones {TLaws : TenantLaws} proj h p h' :
  reconcileAvailabilityZones proj h = (Ok p, h') →
  let zones := st_AvailableZones (p_Status p) in
  ∃ calls answers, h' = h ++ calls ∧ Forall2 (asked proj calls) (ps_AvailabilityZones (p_Spec proj)) answers ∧
    NoDup (az_Name <$> zones) ∧ st_AvailableAZsCount (p_Status p) = Z.of_nat (length zones) ∧
    (∀ az, az ∈ zones → ∃ c, Some c ∈ answers ∧ isValidZone c = true ∧ az = mkAvailableZone (azName c) (cl_Name c)) ∧
    (∀ c, Some c ∈ answers → isValidZone c = true → azName c ∈ az_Name <$> zones) ∧
    ∃ c, FindStatusCondition (st_Conditions (p_Status p)) ConditionTypeAvailabilityZonesReady = Some c ∧
      (c_Status c = ConditionTrue ↔ Forall (λ a, ∃ c, a = Some c ∧ isValidZone c = true) answers).
Proof.
  unfold reconcileAvailabilityZones. unfold mbind, TM_bind.
  destruct (findZones proj _ _ h) as [[z|e] h1] eqn:Hz; [|done]. intros [= <- <-].
  apply findZones_zones in Hz as (calls & answers & -> & Hall & Hzones).
  destruct (Hzones []) as (Hnd & Hsound & Hcomplete & Hready).
  { split; [constructor|]. split; [by intros az ?%not_elem_of_nil|]. split; [by intros c ?%not_elem_of_nil|]. by split. }
  exists calls, answers. simpl in Hsound, Hcomplete, Hready.
  unfold zonesCondition. case_decide as Hbad; (split; [done|]; split; [done|]; split; [done|]; split; [done|];
    split; [done|]; split; [done|]).
  - destruct (Find_Set_same (st_Conditions (p_Status (set_zones (z_available z) proj))) (mkCondition
      ConditionTypeAvailabilityZonesReady ConditionFalse ReasonAvailabilityZonesInvalid (zonesMessage z)
      (p_Generation (set_zones (z_available z) proj)) 0)) as (c & Hc & Hst & _).
    exists c. split; [exact Hc|]. rewrite Hst, <-Hready. simpl. split; [done|]. naive_solver.
  - destruct (Find_Set_same (st_Conditions (p_Status (set_zones (z_available z) proj))) (mkCondition
      ConditionTypeAvailabilityZonesReady ConditionTrue ReasonAvailabilityZonesValid "All availability zones are valid"
      (p_Generation (set_zones (z_available z) proj)) 0)) as (c & Hc & Hst & _).
    exists c. split; [exact Hc|]. rewrite Hst, <-Hready. simpl. split; [|done]. intros _.
    destruct (z_invalid z), (z_notFound z); naive_solver.
Qed.
End zones.

(** ** Organizations *)
Section organizations.
Context {UL : UUIDLib} {S : TenantServer} {TL : TenantLib}.
Context (OperatorNamespace : string) (databaseConnected : bool) (namespace name : string).

(** What a reconciliation of the organization may call after [calls]. *)
Definition organization_may (calls : list TCall) (c : TCall) : Prop :=
  match c with
  | OrganizationUpdated o _ =>
    ∃ org, OrganizationRead namespace name (Ok org) ∈ calls ∧
      if o_Deleting org then
        o = set_org_finalizers (removeFinalizer (o_Finalizers org)) org ∧
        ∃ projects, ProjectsListed (Ok projects) ∈ calls ∧
          ∀ p, p ∈ projects → o_Namespace org ≠ EmptyString →
            (o_Namespace org, o_Name org) ∉ findOrganizationsForProject p
      else o = set_org_finalizers (o_Finalizers org ++ [FinalizerName]) org
  | OrganizationReported _ _ | OrganizationRead _ _ _ | ProjectsListed _ | OrganizationRowRead _ _ => True
  | _ => False
  end.

(** A project whose changes lead to the organization refers to it. *)
Lemma refersTo_watched org p :
  o_Namespace org ≠ EmptyString → (o_Namespace org, o_Name org) ∈ findOrganizationsForProject p → refersTo org p = true.
Proof.
  unfold findOrganizationsForProject, refersTo, namespaceOf. intros Hne Hin%list_elem_of_singleton.
  apply bool_decide_eq_true. injection Hin as Hns Hn. case_decide; split; auto.
Qed.

Lemma org_row_safe id h (Φ : result OpError bool → list TCall → Prop) :
  (∀ r h', Φ r h') → safe organization_may (OrganizationExists databaseConnected id) h Φ.
Proof.
  intros HΦ. unfold OrganizationExists, rowExists, safe. destruct databaseConnected; cbn [negb]; [|by eexists _, h].
  destruct (uuid_Parse id) as [u|]; [|by eexists _, h]. cbn.
  destruct (ts_FirstOrganization S h (uuid_String u)) as [[]|[|e]]; (eexists _, (h ++ [_]); split; [done|];
    split; [intros; by apply good_snoc|done]).
Qed.

Lemma ReconcileOrganization_safe :
  safe organization_may (ReconcileOrganization OperatorNamespace databaseConnected namespace name) [] (λ _ _, True).
Proof.
  unfold ReconcileOrganization. destruct (ignored _ _); [by run|]. run; [done|].
  destruct (ts_GetOrganization S [] namespace name) as [org|e]; [|by destruct (op_IsNotFound e); run].
  assert (∀ h o, safe organization_may (o' ← reconcileOrgBinding databaseConnected o;
    _ ← UpdateOrganizationStatus (set_org_observed o'); mret 0) h (λ _ _, True)) as Hrest.
  { intros h o. unfold reconcileOrgBinding, binding. run. destruct databaseConnected eqn:Hdb.
    - rewrite <-Hdb. run. apply org_row_safe. intros [[]|] h'; [run; [done|]..|done]; by destruct (ts_UpdateOrganizationStatus _ _ _); run.
    - run; [done|]. by destruct (ts_UpdateOrganizationStatus _ _ _); run. }
  apply safe_bind. unfold reconcileOrgFinalizers. destruct (o_Deleting org) eqn:Hdel.
  - case_decide; [by run|]. run; [done|]. destruct (ts_ListProjects S _) as [projects|e] eqn:Hps; [|done].
    destruct (existsb (refersTo org) projects) eqn:He; [by run|]. run.
    + exists org. rewrite Hdel. split; [apply elem_of_app; left; by left|]. split; [done|]. exists projects. split; [made|].
      intros p Hp Hne Hin. apply refersTo_watched in Hin; [|done]. apply not_true_iff_false in He. apply He, existsb_exists.
      exists p. split; [by apply list_elem_of_In|done].
    + by destruct (ts_UpdateOrganization _ _ _); run.
  - case_decide; [by apply safe_ret, Hrest|]. apply safe_bind. run_step; [exists org; rewrite Hdel; by split; [left|]|].
    destruct (ts_UpdateOrganization _ _ _) as [o|e]; [|done]. by apply safe_ret, Hrest.
Qed.

(** Whatever the API server and the database answer, a reconciliation of an organization only writes
    it: its finalizer is only removed when it was read as being deleted and no project of those listed
    afterwards is one whose changes ask for its reconciliation. *)
Theorem organization_calls_guarded r calls :
  ReconcileOrganization OperatorNamespace databaseConnected namespace name [] = (r, calls) →
  ∀ before c after, calls = before ++ c :: after → organization_may before c.
Proof.
  intros Hrun. destruct ReconcileOrganization_safe as (r' & h' & Hrun' & Hgood & _). rewrite Hrun in Hrun'. injection Hrun' as -> ->.
  apply Hgood. by intros [].
Qed.
End organizations.

(** ** Concrete inputs *)
Module TenantSamples.

#[export] Instance sample_ids : UUIDLib := {|
  UUID := string; uuid_Parse s := Some s; NewSHA1 u s := u +:+ s; uuid_String u := u |}.

#[export] Instance sample_lib : TenantLib := {|
  SetStatusCondition cs c := c :: filter (λ d, c_Type d ≠ c_Type c) cs;
  FindStatusCondition cs type := find (λ c, bool_decide (c_Type c = type)) cs;
  yaml_Marshal v := Ok (hv_ProjectID v) |}.

#[export] Instance sample_laws : TenantLaws.
Proof.
  split.
  - intros cs c type. destruct (decide (type = c_Type c)); [by right|left]. cbn. rewrite bool_decide_eq_false_2 by congruence.
    induction cs as [|d cs IH]; [done|]. rewrite filter_cons. case_decide as Hd; simpl; [by rewrite IH|].
    rewrite IH. by rewrite bool_decide_eq_false_2 by congruence.
  - intros cs c. exists c. cbn. by rewrite bool_decide_eq_true_2.
Qed.

Definition sampleOrganization (deleting : bool) : Organization :=
  mkOrganization "acme" "spx" 1 deleting [FinalizerName] "o1" EmptyString
    (mkOrganizationStatus [condition ConditionTypeBound ConditionTrue ReasonBoundFound EmptyString] 1 "acme").

Definition sampleProject (deleting : bool) : Project :=
  mkProject "shop" "spx" 3 deleting [FinalizerName]
    (mkProjectSpec "p1" EmptyString (mkReference "acme" EmptyString) [mkReference "east" EmptyString] None)
    (mkProjectStatus [] 0 [] 0 EmptyString).

Definition sampleCluster : Cluster :=
  mkCluster "east" "spx" 1 false [] (mkClusterSpec DeploymentTopologyHyperconverged None EmptyString None "eu" "1" None None
    "1.0.0" None None) (mkClusterStatus EmptyString EmptyString EmptyString 0 None None [] 0 None []).

Definition missing : OpError := mkOpError KindNotFound "not found".

(** Everything is there but the application of the project. *)
Definition sampleServer (deleting : bool) : TenantServer := {|
  ts_GetProject _ _ _ := Ok (sampleProject deleting); ts_GetOrganization _ _ _ := Ok (sampleOrganization deleting);
  ts_GetCluster _ _ _ := Ok sampleCluster; ts_ListProjects _ := Ok []; ts_UpdateProject _ p := Ok p;
  ts_UpdateOrganization _ o := Ok o; ts_UpdateProjectStatus _ _ := Ok tt; ts_UpdateOrganizationStatus _ _ := Ok tt;
  ts_GetApplication _ _ _ := Err missing; ts_DeleteApplication _ _ _ := Ok tt; ts_Namespace _ _ := Ok tt;
  ts_GitOps _ _ _ := Ok tt; ts_FirstProject _ _ := Ok tt; ts_FirstOrganization _ _ := Ok tt |}.

Definition sampleConfig : GitOpsConfig := mkGitOpsConfig "https://git" "chart" "main".

Definition projectRun (deleting : bool) : result OpError Z * list TCall :=
  ReconcileProject (TC:=@tenant_calls (sampleServer deleting)) "spx" EmptyString sampleConfig true "spx" "shop" [].

Definition organizationRun : result OpError Z * list TCall :=
  ReconcileOrganization (TC:=@tenant_calls (sampleServer true)) EmptyString true "spx" "acme" [].

(** The last call of the deletion is the update that removes the finalizer. *)
Lemma project_calls_guarded_witness :
  ∃ p r, last (projectRun true).2 = Some (ProjectUpdated p r) ∧ p_Finalizers p = [] ∧
    project_may "spx" "spx" "shop" (firstn 2 (projectRun true).2) (ProjectUpdated p r).
Proof.
  eexists _, _. split; [reflexivity|]. split; [reflexivity|].
  apply (project_calls_guarded (S:=sampleServer true) "spx" EmptyString sampleConfig true "spx" "shop"
    (projectRun true).1 (projectRun true).2 eq_refl (firstn 2 (projectRun true).2) _ []). reflexivity.
Defined.

Lemma project_settled_witness :
  (projectRun false).1 = Ok 0 ∧ settled "spx" EmptyString "spx" "shop" (projectRun false).2.
Proof.
  split; [reflexivity|].
  apply (project_settled (S:=sampleServer false) "spx" EmptyString sampleConfig true "spx" "shop" (projectRun false).2).
  reflexivity.
Defined.

Lemma project_zones_witness :
  ∃ p h', reconcileAvailabilityZones (TC:=@tenant_calls (sampleServer false)) (sampleProject false) [] = (Ok p, h') ∧
    NoDup (az_Name <$> st_AvailableZones (p_Status p)) ∧
    st_AvailableZones (p_Status p) = [mkAvailableZone "eu-1" "east"].
Proof.
  eexists _, _. split; [reflexivity|]. split; [|reflexivity].
  destruct (project_zones (S:=sampleServer false) (sampleProject false) [] _ _ eq_refl) as (calls & answers & _ & _ & Hnd & _).
  exact Hnd.
Defined.

Lemma organization_calls_guarded_witness :
  ∃ o r, last organizationRun.2 = Some (OrganizationUpdated o r) ∧ o_Finalizers o = [] ∧
    organization_may "spx" "acme" (firstn 2 organizationRun.2) (OrganizationUpdated o r).
Proof.
  eexists _, _. split; [reflexivity|]. split; [reflexivity|].
  apply (organization_calls_guarded (S:=sampleServer true) EmptyString true "spx" "acme"
    organizationRun.1 organizationRun.2 eq_refl (firstn 2 organizationRun.2) _ []). reflexivity.
Defined.
End TenantSamples.
