(* ===== verification/Management.v ===== *)
(** * The management of the platform ([internal/superphenix-operator/management], [pkg/utils/maps.go])

    The reconciler that installs ArgoCD with Helm and then has it manage itself, the values of the chart
    layered from files and a ConfigMap, and what it may call, over any API server, file system and
    Helm. The environment of Helm, a directory and variables that are removed at the end, is one call. *)

From S2P Require Import Prelude Strings Operator Tenants TenantTheorems.

(** ** Values *)

(** What YAML decodes to; a scalar is its text. *)
Inductive YValue :=
  | YNull
  | YScalar (s : string)
  | YList (l : list YValue)
  | YMap (m : gmap string YValue).

(** What a value leaves of the one under its key: a null removes it, two maps are merged. *)
Fixpoint mergeValue (value : YValue) (old : option YValue) : option YValue :=
  match value with
  | YNull => None
  | YMap src =>
    match old with
    | Some (YMap dst) => Some (YMap (map_fold (λ key v acc, partial_alter (mergeValue v) key acc) dst src))
    | _ => Some value
    end
  | _ => Some value
  end.

(** [utils.MapDeepMerge]: [dst] as it is afterwards. *)
Definition MapDeepMerge (dst src : gmap string YValue) : gmap string YValue :=
  map_fold (λ key v acc, partial_alter (mergeValue v) key acc) dst src.

(** ** The Application of ArgoCD *)

Record ManagedApplication := mkManagedApplication {
  ma_Name : string; ma_Namespace : string; ma_Labels : gmap string string; ma_Project : string;
  ma_RepoURL : string; ma_TargetRevision : string; ma_Chart : string; ma_Values : gmap string YValue;
  ma_DestinationName : string; ma_DestinationNamespace : string; ma_Prune : bool; ma_SelfHeal : bool;
  ma_ResourceVersion : string }.

Definition set_ResourceVersion (v : string) (a : ManagedApplication) : ManagedApplication :=
  mkManagedApplication (ma_Name a) (ma_Namespace a) (ma_Labels a) (ma_Project a) (ma_RepoURL a) (ma_TargetRevision a)
    (ma_Chart a) (ma_Values a) (ma_DestinationName a) (ma_DestinationNamespace a) (ma_Prune a) (ma_SelfHeal a) v.

(** ** What the reconciler calls *)

(** An error of Helm: [errors.Is(err, driver.ErrReleaseNotFound)], and its text. *)
Record HelmError := mkHelmError { he_ReleaseNotFound : bool; he_text : string }.

(** Applications that exist are of type [E], with whether their spec is that of another and their resource
    version. Charts are of type [H]. A file that does not exist is [Ok None]. *)
Class ManagementClient (K E H : Type) := {
  GetManaged : string → string → K → result OpError E * K;
  sameSpec : E → ManagedApplication → bool;
  resourceVersion : E → string;
  CreateManaged : ManagedApplication → K → result OpError unit * K;
  UpdateManaged : ManagedApplication → K → result OpError unit * K;
  DeleteManaged : E → K → result OpError unit * K;
  ReadFile : string → K → result OpError (option string) * K;
  yaml_Unmarshal : string → result OpError (gmap string YValue);
  GetValues : string → string → K → result OpError (gmap string string) * K;
  setupHelmEnvironment : K → result OpError unit * K;
  initHelmActionConfig : K → result OpError bool * K;      (* false without a client for Helm *)
  locateAndLoadChart : string → string → string → K → result OpError H * K;  (* name, version, repository *)
  HelmHistory : string → K → result HelmError unit * K;
  HelmInstall : string → H → gmap string YValue → K → result HelmError unit * K;
  HelmUpgrade : string → H → gmap string YValue → K → result HelmError unit * K;
  MappingOf : string → K → result OpError unit * K;
}.

Definition ArgoCDApp : string := "superphenix-argocd".
Definition ConfigMapKeyArgoCD : string := "argocd".

Record ManagementReconciler := mkManagementReconciler {
  mr_OperatorNamespace : string; mr_HAEnabled : bool; mr_ValuesConfigMapName : string; mr_ArgoCDChartURL : string;
  mr_ArgoCDChartVersion : string; mr_ArgoCDDefaultConfig : string; mr_ArgoCDHAConfig : string; mr_InstallWithoutCNI : bool }.

(** [strings.TrimSuffix(s, "/")] *)
Fixpoint trimSlash (s : string) : string :=
  match s with
  | EmptyString => EmptyString
  | String c EmptyString => if decide (String c EmptyString = "/") then EmptyString else s
  | String c rest => String c (trimSlash rest)
  end.

Section management.
Context {K E H : Type} {MC : ManagementClient K E H} {GT : GoText} (r : ManagementReconciler).

(** ** The values of the chart *)

Definition loadYAMLFileValues (path : string) : TM K (option (gmap string YValue)) :=
  data ← or_wrapped ("failed to read file " +:+ path +:+ ": ") (ReadFile path);
  match data with
  | None => mret None
  | Some text =>
    vals ← or_wrapped ("failed to unmarshal YAML from " +:+ path +:+ ": ") (λ k, (yaml_Unmarshal text, k));
    mret (Some vals)
  end.

(** The values of a file over those before, when it is to be read and exists. *)
Definition mergeFile (kind : string) (read : bool) (path : string) (merged : gmap string YValue) : TM K (gmap string YValue) :=
  if negb read then mret merged else
  vals ← or_wrapped ("failed to load " +:+ kind +:+ " values from " +:+ path +:+ ": ") (loadYAMLFileValues path);
  mret match vals with Some vals => MapDeepMerge merged vals | None => merged end.

Definition loadConfigMapValuesFrom (name key : string) (dst : gmap string YValue) : TM K (gmap string YValue) :=
  cm ← tried (GetValues (mr_OperatorNamespace r) name);
  match cm with
  | Err err => if op_IsNotFound err then mret dst else throw (wrap "failed to get management values ConfigMap: " err)
  | Ok data =>
    match data !! key with
    | None => mret dst
    | Some text =>
      cmVals ← or_wrapped ("failed to unmarshal YAML from ConfigMap key " +:+ Quote key +:+ ": ") (λ k, (yaml_Unmarshal text, k));
      mret (MapDeepMerge dst cmVals)
    end
  end.

Definition mergeValues (defaultConfig haConfig configMapKey : string) : TM K (gmap string YValue) :=
  merged ← mergeFile "default" (bool_decide (defaultConfig ≠ EmptyString)) defaultConfig ∅;
  merged ← mergeFile "HA" (mr_HAEnabled r && bool_decide (haConfig ≠ EmptyString)) haConfig merged;
  if decide (mr_ValuesConfigMapName r ≠ EmptyString ∧ mr_OperatorNamespace r ≠ EmptyString)
  then loadConfigMapValuesFrom (mr_ValuesConfigMapName r) configMapKey merged
  else mret merged.

Definition mergeArgoCDValues : TM K (gmap string YValue) :=
  mergeValues (mr_ArgoCDDefaultConfig r) (mr_ArgoCDHAConfig r) ConfigMapKeyArgoCD.

(** ** Helm *)

(** [err.Error()] is taken to be a limitation of the tests. *)
Definition silenced (err : HelmError) : bool :=
  Contains (he_text err) "namespaces" && Contains (he_text err) "not found" ||
  Contains (he_text err) "exists and cannot be imported into the current release".

Definition or_helm {A} (text : string) (m : K → result HelmError A * K) : TM K A := λ k,
  match m k with (Ok a, k) => (Ok a, k) | (Err e, k) => (Err (mkOpError KindOther (text +:+ he_text e)), k) end.

Definition runHelmUpgradeInstall (releaseName : string) (ch : H) (vals : gmap string YValue) : TM K unit := λ k,
  match HelmHistory releaseName k with
  | (Err err, k) =>
    if he_ReleaseNotFound err || Contains (he_text err) "not found" then
      match HelmInstall releaseName ch vals k with
      | (Err e, k) => if silenced e then (Ok tt, k)
                      else (Err (mkOpError KindOther ("failed to install initial ArgoCD Helm chart: " +:+ he_text e)), k)
      | (Ok _, k) => (Ok tt, k)
      end
    else (Err (mkOpError KindOther ("failed to check Helm release history: " +:+ he_text err)), k)
  | (Ok _, k) => or_helm "failed to upgrade initial ArgoCD Helm chart: " (HelmUpgrade releaseName ch vals) k
  end.

(** The name of the chart and the repository it is looked for in. *)
Definition chartLocation : string * string :=
  if HasPrefix (mr_ArgoCDChartURL r) "oci://" then (trimSlash (mr_ArgoCDChartURL r) +:+ "/argo-cd", EmptyString)
  else ("argo-cd", mr_ArgoCDChartURL r).

(** The chart, with its values, installed or upgraded. *)
Definition initialHelmInstall : TM K unit :=
  _ ← setupHelmEnvironment;
  available ← initHelmActionConfig;
  if negb available then mret tt else
  ch ← locateAndLoadChart (fst chartLocation) (mr_ArgoCDChartVersion r) (snd chartLocation);
  values ← or_wrapped "failed to merge ArgoCD values for initial install: " mergeArgoCDValues;
  runHelmUpgradeInstall ArgoCDApp ch values.

(** Nothing is done when ArgoCD already manages itself. *)
Definition ensureInitialHelmInstall : TM K unit :=
  app ← tried (GetManaged (mr_OperatorNamespace r) ArgoCDApp);
  if is_Ok app && negb (mr_InstallWithoutCNI r) then mret tt else initialHelmInstall.

(** ** ArgoCD managed by itself *)

Definition buildApplication (name repoURL chartName chartVersion : string) (vals : gmap string YValue) : ManagedApplication :=
  mkManagedApplication name (mr_OperatorNamespace r) {[ManagedLabel := "true"]} "default" repoURL chartVersion chartName vals
    "in-cluster" (mr_OperatorNamespace r) true true EmptyString.

Definition buildArgoCDApplication (vals : gmap string YValue) : ManagedApplication :=
  buildApplication ArgoCDApp (mr_ArgoCDChartURL r) "argo-cd" (mr_ArgoCDChartVersion r) vals.

Definition createOrUpdateArgoCDApplication (app : ManagedApplication) : TM K unit :=
  let name := ma_Name app in
  existing ← tried (GetManaged (mr_OperatorNamespace r) name);
  match existing with
  | Err err =>
    if negb (op_IsNotFound err) then throw (wrap ("failed to get ArgoCD Application " +:+ name +:+ ": ") err)
    else or_wrapped ("failed to create ArgoCD Application " +:+ name +:+ ": ") (CreateManaged app)
  | Ok existing =>
    if sameSpec existing app then mret tt
    else or_wrapped ("failed to update ArgoCD Application " +:+ name +:+ ": ")
           (UpdateManaged (set_ResourceVersion (resourceVersion existing) app))
  end.

Definition ensureArgoCDSelfManaged : TM K unit :=
  values ← or_wrapped "failed to merge ArgoCD values: " mergeArgoCDValues;
  createOrUpdateArgoCDApplication (buildArgoCDApplication values).

(** Without a network plugin, the Application must not be there. *)
Definition removeApplication : TM K unit :=
  app ← tried (GetManaged (mr_OperatorNamespace r) ArgoCDApp);
  match app with
  | Ok app => or_wrapped "failed to delete ArgoCD Application in CNI-less mode: " (DeleteManaged app)
  | Err err => if op_IsNotFound err then mret tt
               else throw (wrap "failed to check for ArgoCD Application in CNI-less mode: " err)
  end.

Definition reconcileManagementArgoCD : TM K unit :=
  _ ← or_wrapped "failed to ensure initial ArgoCD install: " ensureInitialHelmInstall;
  if negb (mr_InstallWithoutCNI r)
  then or_wrapped "failed to ensure ArgoCD is self-managed: " ensureArgoCDSelfManaged
  else removeApplication.

(** ** The reconciler *)

Definition isTargetConfigMap (name namespace : string) : bool :=
  bool_decide (name = mr_ValuesConfigMapName r ∧ namespace = mr_OperatorNamespace r).

(** [argocd.CheckCRDs] *)
Definition checkArgoCRDs : TM K unit :=
  let check (kind : string) : TM K unit := λ k, match MappingOf kind k with
    | (Err err, k) => (Err (if decide (oe_kind err = KindNoMatch) then Errorf ("ArgoCD CRD " +:+ kind +:+ " not found") else err), k)
    | (Ok _, k) => (Ok tt, k)
    end in
  _ ← check "Application"; check "AppProject".

(** The delay after which it runs again; no error is returned. *)
Definition ReconcileManagement (namespace name : string) : TM K Z :=
  if bool_decide (name ≠ EmptyString) && negb (isTargetConfigMap name namespace) then mret 0 else
  argo ← tried reconcileManagementArgoCD;
  match argo with
  | Err _ => mret (seconds 60)
  | Ok _ =>
    crds ← tried checkArgoCRDs;
    mret match crds with Err _ => seconds 30 | Ok _ => seconds 600 end
  end.
End management.

(** ** What merging does to the values *)

Lemma mergeValue_map src dst : mergeValue (YMap src) (Some (YMap dst)) = Some (YMap (MapDeepMerge dst src)).
Proof. done. Qed.

(** Each key is merged on its own, whatever the order of the loop. *)
Lemma MapDeepMerge_lookup dst src key :
  MapDeepMerge dst src !! key = match src !! key with Some v => mergeValue v (dst !! key) | None => dst !! key end.
Proof.
  unfold MapDeepMerge. revert key.
  refine (map_fold_weak_ind (λ acc src, ∀ key, acc !! key = match src !! key with Some v => mergeValue v (dst !! key) | None => dst !! key end)
    _ dst _ _ src); [done|].
  intros i v m acc Hi IH key. destruct (decide (i = key)) as [<-|Hne].
  - by rewrite lookup_partial_alter_eq, lookup_insert_eq, IH, Hi.
  - by rewrite lookup_partial_alter_ne, lookup_insert_ne, IH by done.
Qed.

(** The value at the end of a path of keys. *)
Fixpoint at_path (path : list string) (v : option YValue) : option YValue :=
  match path with
  | [] => v
  | key :: path => match v with Some (YMap m) => at_path path (m !! key) | _ => None end
  end.

(** A value of its own: neither a null nor a map. *)
Definition leaf (v : YValue) : Prop := match v with YNull | YMap _ => False | _ => True end.

(** The values say nothing on the path: a key of it is missing in a map. *)
Fixpoint silent (path : list string) (m : gmap string YValue) : Prop :=
  match path with
  | [] => False
  | key :: path => match m !! key with Some (YMap m') => silent path m' | Some _ => False | None => True end
  end.

Lemma merge_leaf path v old l : leaf l → at_path path (Some v) = Some l → at_path path (mergeValue v old) = Some l.
Proof.
  intros Hl. revert v old. induction path as [|key path IH]; intros v old Hat.
  - simpl in Hat. injection Hat as ->. by destruct l.
  - destruct v as [| | |src]; try done. destruct old as [[| | |dst]|]; try done.
    rewrite mergeValue_map. cbn [at_path] in *. rewrite MapDeepMerge_lookup.
    destruct (src !! key) as [v|] eqn:Hk; [by apply IH|by destruct path].
Qed.

Lemma merge_silent path src dst l :
  leaf l → silent path src → at_path path (Some (YMap dst)) = Some l → at_path path (Some (YMap (MapDeepMerge dst src))) = Some l.
Proof.
  intros Hl. revert src dst. induction path as [|key path IH]; intros src dst Hs Hat; [done|].
  cbn [at_path silent] in *. rewrite MapDeepMerge_lookup. destruct (src !! key) as [v|]; [|done].
  destruct v as [| | |src']; try done. destruct (dst !! key) as [old|] eqn:Hd; [|by destruct path].
  destruct old as [| | |dst']; [by destruct path..|]. rewrite mergeValue_map. by apply IH.
Qed.

Lemma merge_null path v old :
  at_path path (Some v) = Some YNull → at_path path (mergeValue v old) = None ∨ at_path path (mergeValue v old) = Some YNull.
Proof.
  revert v old. induction path as [|key path IH]; intros v old Hat.
  - simpl in Hat. injection Hat as ->. by left.
  - destruct v as [| | |src]; try done. destruct old as [[| | |dst]|]; try by right.
    rewrite mergeValue_map. cbn [at_path] in *. rewrite MapDeepMerge_lookup.
    destruct (src !! key) as [v|] eqn:Hk; [by apply IH|by destruct path].
Qed.

(** What is written on a path comes from one of the two. *)
Lemma merge_from path v old l :
  leaf l → at_path path (mergeValue v old) = Some l → at_path path (Some v) = Some l ∨ at_path path old = Some l.
Proof.
  intros Hl. revert v old. induction path as [|key path IH]; intros v old Hat.
  - destruct v as [| | |src]; try (by left); try done. destruct old as [[| | |dst]|]; by destruct l; simpl in Hat; simplify_eq.
  - destruct v as [| | |src]; try (by left); try done. destruct old as [[| | |dst]|]; try (by left).
    rewrite mergeValue_map in Hat. cbn [at_path] in *. rewrite MapDeepMerge_lookup in Hat.
    destruct (src !! key) as [v|] eqn:Hk; [by apply IH|by right].
Qed.

(** ** The values of the chart *)
Section values.
Context {K E H : Type} {MC : ManagementClient K E H} {GT : GoText} (r : ManagementReconciler).

(** The values were decoded from a text, or there were none. *)
Definition decoded (m : gmap string YValue) : Prop := m = ∅ ∨ ∃ text, yaml_Unmarshal text = Ok m.

Lemma merge_empty m : MapDeepMerge m ∅ = m.
Proof. apply map_eq. intros key. by rewrite MapDeepMerge_lookup, lookup_empty. Qed.

Lemma or_wrapped_Ok {A} text (m : TM K A) k a k' : or_wrapped text m k = (Ok a, k') → m k = (Ok a, k').
Proof. unfold or_wrapped. by destruct (m k) as [[] ?]. Qed.

Lemma TM_bind_Ok {A B} (m : TM K A) (f : A → TM K B) k b k' :
  (m ≫= f) k = (Ok b, k') → ∃ a k1, m k = (Ok a, k1) ∧ f a k1 = (Ok b, k').
Proof. unfold mbind, TM_bind. destruct (m k) as [[a|e] k1]; [eauto|done]. Qed.

Lemma mergeFile_Ok kind read path merged k v k' :
  mergeFile kind read path merged k = (Ok v, k') → ∃ m, decoded m ∧ v = MapDeepMerge merged m.
Proof.
  unfold mergeFile. destruct read; cbn [negb].
  - intros (vals & k1 & Hload%or_wrapped_Ok & [= <- _])%TM_bind_Ok. unfold loadYAMLFileValues in Hload.
    apply TM_bind_Ok in Hload as ([text|] & k2 & _ & Hload).
    + apply TM_bind_Ok in Hload as (m & k3 & Hm%or_wrapped_Ok & [= <- _]). exists m. split; [right|done].
      exists text. by injection Hm.
    + injection Hload as <- _. exists ∅. split; [by left|by rewrite merge_empty].
  - intros [= <- _]. exists ∅. split; [by left|by rewrite merge_empty].
Qed.

Lemma loadConfigMap_Ok name key dst k v k' :
  loadConfigMapValuesFrom r name key dst k = (Ok v, k') → ∃ m, decoded m ∧ v = MapDeepMerge dst m.
Proof.
  unfold loadConfigMapValuesFrom. intros (cm & k1 & _ & Hrun)%TM_bind_Ok.
  destruct cm as [data|err].
  - destruct (data !! key) as [text|].
    + apply TM_bind_Ok in Hrun as (m & k2 & Hm%or_wrapped_Ok & [= <- _]). exists m. split; [right|done].
      exists text. by injection Hm.
    + injection Hrun as <- _. exists ∅. split; [by left|by rewrite merge_empty].
  - destruct (op_IsNotFound err); [|done]. injection Hrun as <- _. exists ∅. split; [by left|by rewrite merge_empty].
Qed.

(** The values of the chart of ArgoCD are layered from the default file, the file for high
    availability and the key of the ConfigMap. On any path, what the ConfigMap says wins; where it says
    nothing the second file does, and the first where neither says anything; a null of the ConfigMap leaves
    no value; and nothing else is ever in them. *)
Theorem values_layered k v k' :
  mergeArgoCDValues r k = (Ok v, k') →
  ∃ base ha user, decoded base ∧ decoded ha ∧ decoded user ∧
    let at_ (path : list string) (m : gmap string YValue) := at_path path (Some (YMap m)) in
    ∀ path l, leaf l →
      (at_ path user = Some l → at_ path v = Some l) ∧
      (silent path user → at_ path ha = Some l → at_ path v = Some l) ∧
      (silent path user → silent path ha → at_ path base = Some l → at_ path v = Some l) ∧
      (at_ path user = Some YNull → at_ path v ≠ Some l) ∧
      (at_ path v = Some l → at_ path user = Some l ∨ at_ path ha = Some l ∨ at_ path base = Some l).
Proof.
  unfold mergeArgoCDValues, mergeValues. intros (m1 & k1 & (base & Hb & ->)%mergeFile_Ok & Hrun)%TM_bind_Ok.
  apply TM_bind_Ok in Hrun as (m2 & k2 & (ha & Hh & ->)%mergeFile_Ok & Hrun).
  assert (∃ user, decoded user ∧ v = MapDeepMerge (MapDeepMerge (MapDeepMerge ∅ base) ha) user) as (user & Hu & ->).
  { case_decide; [by apply loadConfigMap_Ok in Hrun|]. injection Hrun as <- _. exists ∅. split; [by left|by rewrite merge_empty]. }
  exists base, ha, user. split; [done|]. split; [done|]. split; [done|]. cbv zeta. intros path l Hl.
  split; [|split; [|split; [|split]]].
  - intros Hat. rewrite <-mergeValue_map. by apply merge_leaf.
  - intros Hs Hat. apply merge_silent; [done..|]. rewrite <-mergeValue_map. by apply merge_leaf.
  - intros Hs Hs' Hat. do 2 (apply merge_silent; [done..|]). rewrite <-mergeValue_map. by apply merge_leaf.
  - intros Hat Hv. rewrite <-mergeValue_map in Hv. destruct (merge_null path _ (Some (YMap (MapDeepMerge (MapDeepMerge ∅ base) ha))) Hat) as [Hn|Hn]; rewrite Hn in Hv; [done|].
    injection Hv as <-. done.
  - intros Hat. rewrite <-!mergeValue_map in Hat. apply merge_from in Hat as [?|Hat]; [by left|right|done].
    apply merge_from in Hat as [?|Hat]; [by left|right|done]. apply merge_from in Hat as [?|Hat]; [done| |done].
    destruct path as [|key path]; [by injection Hat as <-|]. cbn in Hat. rewrite lookup_empty in Hat. by destruct path.
Qed.
End values.

(** ** What the reconciler may call *)

(** Any server, with its files and Helm: the calls, with their answers. *)
Inductive MCall (E H : Type) :=
  | ManagedRead (namespace name : string) (a : result OpError E)
  | ManagedCreated (app : ManagedApplication) (a : result OpError unit)
  | ManagedUpdated (app : ManagedApplication) (a : result OpError unit)
  | ManagedDeleted (app : E) (a : result OpError unit)
  | FileRead (path : string) (a : result OpError (option string))
  | ConfigMapRead (namespace name : string) (a : result OpError (gmap string string))
  | ChartLoaded (name version repository : string) (a : result OpError H)
  | OtherRead
  | HistoryRead (release : string) (a : result HelmError unit)
  | Installed (release : string) (chart : H) (values : gmap string YValue) (a : result HelmError unit)
  | Upgraded (release : string) (chart : H) (values : gmap string YValue) (a : result HelmError unit).
Arguments ManagedRead {E H}. Arguments ManagedCreated {E H}. Arguments ManagedUpdated {E H}. Arguments ManagedDeleted {E H}.
Arguments FileRead {E H}. Arguments ConfigMapRead {E H}. Arguments ChartLoaded {E H}.
Arguments OtherRead {E H}. Arguments HistoryRead {E H}. Arguments Installed {E H}. Arguments Upgraded {E H}.

Record ManagementServer (E H : Type) := mkManagementServer {
  ms_Get : list (MCall E H) → string → string → result OpError E;
  ms_sameSpec : E → ManagedApplication → bool;
  ms_resourceVersion : E → string;
  ms_Create : list (MCall E H) → ManagedApplication → result OpError unit;
  ms_Update : list (MCall E H) → ManagedApplication → result OpError unit;
  ms_Delete : list (MCall E H) → E → result OpError unit;
  ms_ReadFile : list (MCall E H) → string → result OpError (option string);
  ms_Unmarshal : string → result OpError (gmap string YValue);
  ms_GetValues : list (MCall E H) → string → string → result OpError (gmap string string);
  ms_Setup : list (MCall E H) → result OpError unit;
  ms_Init : list (MCall E H) → result OpError bool;
  ms_Chart : list (MCall E H) → string → string → string → result OpError H;
  ms_History : list (MCall E H) → string → result HelmError unit;
  ms_Install : list (MCall E H) → string → H → gmap string YValue → result HelmError unit;
  ms_Upgrade : list (MCall E H) → string → H → gmap string YValue → result HelmError unit;
  ms_Mapping : list (MCall E H) → string → result OpError unit }.
Existing Class ManagementServer.
Arguments ms_Get {E H}. Arguments ms_sameSpec {E H}. Arguments ms_resourceVersion {E H}. Arguments ms_Create {E H}.
Arguments ms_Update {E H}. Arguments ms_Delete {E H}. Arguments ms_ReadFile {E H}. Arguments ms_Unmarshal {E H}.
Arguments ms_GetValues {E H}. Arguments ms_Setup {E H}. Arguments ms_Init {E H}. Arguments ms_Chart {E H}.
Arguments ms_History {E H}. Arguments ms_Install {E H}. Arguments ms_Upgrade {E H}. Arguments ms_Mapping {E H}.

#[export] Instance management_calls {E H} {S : ManagementServer E H} : ManagementClient (list (MCall E H)) E H := {
  GetManaged ns n h := let a := ms_Get S h ns n in (a, h ++ [ManagedRead ns n a]);
  sameSpec := ms_sameSpec S;
  resourceVersion := ms_resourceVersion S;
  CreateManaged app h := let a := ms_Create S h app in (a, h ++ [ManagedCreated app a]);
  UpdateManaged app h := let a := ms_Update S h app in (a, h ++ [ManagedUpdated app a]);
  DeleteManaged app h := let a := ms_Delete S h app in (a, h ++ [ManagedDeleted app a]);
  ReadFile path h := let a := ms_ReadFile S h path in (a, h ++ [FileRead path a]);
  yaml_Unmarshal := ms_Unmarshal S;
  GetValues ns n h := let a := ms_GetValues S h ns n in (a, h ++ [ConfigMapRead ns n a]);
  setupHelmEnvironment h := (ms_Setup S h, h ++ [OtherRead]);
  initHelmActionConfig h := (ms_Init S h, h ++ [OtherRead]);
  locateAndLoadChart n v repo h := let a := ms_Chart S h n v repo in (a, h ++ [ChartLoaded n v repo a]);
  HelmHistory n h := let a := ms_History S h n in (a, h ++ [HistoryRead n a]);
  HelmInstall n ch vs h := let a := ms_Install S h n ch vs in (a, h ++ [Installed n ch vs a]);
  HelmUpgrade n ch vs h := let a := ms_Upgrade S h n ch vs in (a, h ++ [Upgraded n ch vs a]);
  MappingOf kind h := (ms_Mapping S h kind, h ++ [OtherRead]);
}.

(** Takes the next steps of a run, up to a call of another definition. *)
Ltac manage_step :=
  lazymatch goal with
  | |- safe _ (_ ≫= _) _ _ => apply safe_bind
  | |- safe _ (tried _) _ _ => apply safe_tried
  | |- safe _ (or_wrapped _ _) _ _ => apply safe_wrapped
  | |- safe _ (mret _) _ _ => apply safe_ret
  | |- safe _ (throw _) _ _ => apply safe_throw
  | |- safe _ (GetManaged _ _) _ _ => eapply safe_call; [reflexivity| |]
  | |- safe _ (CreateManaged _) _ _ => eapply safe_call; [reflexivity| |]
  | |- safe _ (UpdateManaged _) _ _ => eapply safe_call; [reflexivity| |]
  | |- safe _ (DeleteManaged _) _ _ => eapply safe_call; [reflexivity| |]
  | |- safe _ (ReadFile _) _ _ => eapply safe_call; [reflexivity|done|]
  | |- safe _ (GetValues _ _) _ _ => eapply safe_call; [reflexivity|done|]
  | |- safe _ setupHelmEnvironment _ _ => eapply safe_call; [reflexivity|done|]
  | |- safe _ initHelmActionConfig _ _ => eapply safe_call; [reflexivity|done|]
  | |- safe _ (locateAndLoadChart _ _ _) _ _ => eapply safe_call; [reflexivity|done|]
  end.
Ltac manage := repeat (manage_step; cbv beta iota).

Section calls.
Context {E H : Type} {S : ManagementServer E H} {GT : GoText} (r : ManagementReconciler).
Implicit Types h : list (MCall E H).

(** The Application was looked for and was not there. *)
Definition absent h : Prop := ∃ err, ManagedRead (mr_OperatorNamespace r) ArgoCDApp (Err err) ∈ h ∧ oe_kind err = KindNotFound.

(** The values of a file that was read, if it is to be read, none when it does not exist. *)
Definition file_layer h (read : bool) (path : string) (m : gmap string YValue) : Prop :=
  if read then FileRead path (Ok None) ∈ h ∧ m = ∅ ∨ ∃ text, FileRead path (Ok (Some text)) ∈ h ∧ ms_Unmarshal S text = Ok m
  else m = ∅.

(** The values of the key of the ConfigMap, none without the ConfigMap or the key. *)
Definition config_layer h (m : gmap string YValue) : Prop :=
  if decide (mr_ValuesConfigMapName r ≠ EmptyString ∧ mr_OperatorNamespace r ≠ EmptyString) then
    (∃ err, ConfigMapRead (mr_OperatorNamespace r) (mr_ValuesConfigMapName r) (Err err) ∈ h ∧ oe_kind err = KindNotFound ∧ m = ∅) ∨
    ∃ data, ConfigMapRead (mr_OperatorNamespace r) (mr_ValuesConfigMapName r) (Ok data) ∈ h ∧
      match data !! ConfigMapKeyArgoCD with Some text => ms_Unmarshal S text = Ok m | None => m = ∅ end
  else m = ∅.

(** The values of the chart: the ConfigMap over the file for high availability, over the default file. *)
Definition layered h (vals : gmap string YValue) : Prop := ∃ base ha user,
  file_layer h (bool_decide (mr_ArgoCDDefaultConfig r ≠ EmptyString)) (mr_ArgoCDDefaultConfig r) base ∧
  file_layer h (mr_HAEnabled r && bool_decide (mr_ArgoCDHAConfig r ≠ EmptyString)) (mr_ArgoCDHAConfig r) ha ∧
  config_layer h user ∧ vals = MapDeepMerge (MapDeepMerge (MapDeepMerge ∅ base) ha) user.

(** The Application that is wanted, with the values that were read, at some version. *)
Definition wanted h (version : string) (app : ManagedApplication) : Prop :=
  ∃ vals, layered h vals ∧ app = set_ResourceVersion version (buildArgoCDApplication r vals).

(** Helm is only run when the read of the Application has failed, unless there is no network plugin. *)
Definition may_install h : Prop :=
  mr_InstallWithoutCNI r = false → ∃ e, ManagedRead (mr_OperatorNamespace r) ArgoCDApp (Err e) ∈ h.

Definition helm_may h (release : string) (chart : H) (values : gmap string YValue) : Prop :=
  release = ArgoCDApp ∧ may_install h ∧ layered h values ∧
  ChartLoaded (fst (chartLocation r)) (mr_ArgoCDChartVersion r) (snd (chartLocation r)) (Ok chart) ∈ h.

Definition management_may (h : list (MCall E H)) (c : MCall E H) : Prop :=
  match c with
  | ManagedCreated app _ => mr_InstallWithoutCNI r = false ∧ wanted h EmptyString app ∧ absent h
  | ManagedUpdated app _ => mr_InstallWithoutCNI r = false ∧ ∃ e, ManagedRead (mr_OperatorNamespace r) ArgoCDApp (Ok e) ∈ h ∧
      wanted h (ms_resourceVersion S e) app
  | ManagedDeleted app _ => mr_InstallWithoutCNI r = true ∧ ManagedRead (mr_OperatorNamespace r) ArgoCDApp (Ok app) ∈ h
  | HistoryRead release _ => release = ArgoCDApp
  | Installed release chart values _ => helm_may h release chart values ∧
      ∃ e, HistoryRead ArgoCDApp (Err e) ∈ h ∧ (he_ReleaseNotFound e = true ∨ Contains (he_text e) "not found" = true)
  | Upgraded release chart values _ => helm_may h release chart values ∧ HistoryRead ArgoCDApp (Ok tt) ∈ h
  | ManagedRead _ _ _ | FileRead _ _ | ConfigMapRead _ _ _ | ChartLoaded _ _ _ _ | OtherRead => True
  end.

(** A success leaves the Application as it is wanted, or not there. *)
Definition in_place h : Prop :=
  if mr_InstallWithoutCNI r then absent h ∨ ∃ e, ManagedDeleted e (Ok tt) ∈ h
  else ∃ app version, wanted h version app ∧ (ManagedCreated app (Ok tt) ∈ h ∨ ManagedUpdated app (Ok tt) ∈ h ∨
    ∃ e, ManagedRead (mr_OperatorNamespace r) ArgoCDApp (Ok e) ∈ h ∧ ms_sameSpec S e app = true).

Lemma file_layer_app h h' read path m : file_layer h read path m → file_layer (h ++ h') read path m.
Proof.
  unfold file_layer. destruct read; [|done]. intros [[? ?]|(text & ? & ?)]; [left|right; exists text]; rewrite elem_of_app; auto.
Qed.

Lemma config_layer_app h h' m : config_layer h m → config_layer (h ++ h') m.
Proof.
  unfold config_layer. case_decide; [|done].
  intros [(err & ? & ? & ?)|(data & ? & ?)]; [left; exists err|right; exists data]; rewrite elem_of_app; auto.
Qed.

Lemma layered_app h h' vals : layered h vals → layered (h ++ h') vals.
Proof.
  intros (base & ha & user & ? & ? & ? & ?). exists base, ha, user.
  split_and!; [by apply file_layer_app..|by apply config_layer_app|done].
Qed.

Lemma wanted_app h h' version app : wanted h version app → wanted (h ++ h') version app.
Proof. intros (vals & ? & ?). exists vals. split; [by apply layered_app|done]. Qed.

Abbreviation M := (TM (list (MCall E H))).

(** The calls of [m] only add to those before. *)
Definition adds {A} (m : M A) : Prop := ∀ h, safe management_may m h (λ _ h', ∃ calls, h' = h ++ calls).

Lemma adds_bind {A B} (m : M A) (f : A → M B) : adds m → (∀ a, adds (f a)) → adds (m ≫= f).
Proof.
  intros Hm Hf h. apply safe_bind. eapply safe_mono; [|apply Hm]. intros [a|e] h' [calls ->]; [|eauto].
  eapply safe_mono; [|apply Hf]. intros x h'' [calls' ->]. exists (calls ++ calls'). by rewrite app_assoc.
Qed.

Lemma adds_wrapped {A} text (m : M A) : adds m → adds (or_wrapped text m).
Proof. intros Hm h. apply safe_wrapped. eapply safe_mono; [|apply Hm]. by intros [] h'. Qed.

Lemma adds_pure {A} (a : result OpError A) : adds (λ h, (a, h)).
Proof. intros h. apply safe_pure. exists []. by rewrite app_nil_r. Qed.

Lemma adds_read {A} (f : M A) (a : list (MCall E H) → result OpError A) :
  (∀ h, f h = (a h, h ++ [OtherRead])) → adds f.
Proof. intros Hf h. eapply safe_call; [apply Hf|done|]. eauto. Qed.

Lemma mergeFile_safe kind read path merged h :
  safe management_may (mergeFile kind read path merged : M _) h (λ a h', (∃ calls, h' = h ++ calls) ∧
    ∀ v, a = Ok v → ∃ m, file_layer h' read path m ∧ v = MapDeepMerge merged m).
Proof.
  unfold mergeFile, file_layer. destruct read; cbn [negb].
  - unfold loadYAMLFileValues. manage.
    destruct (ms_ReadFile S h path) as [[text|]|e]; cbn [mbind TM_bind]; manage.
    + apply safe_pure. destruct (yaml_Unmarshal text) as [m|e] eqn:Hm; manage; (split; [by eexists|]); [|done].
      intros v [= <-]. exists m. split; [right; exists text; split; [made|exact Hm]|done].
    + split; [by eexists|]. intros v [= <-]. exists ∅. split; [left; split; [made|done]|by rewrite merge_empty].
    + split; [by eexists|done].
  - manage. split; [exists []; by rewrite app_nil_r|]. intros v [= <-]. exists ∅. by rewrite merge_empty.
Qed.

Lemma loadConfigMap_safe dst h :
  mr_ValuesConfigMapName r ≠ EmptyString ∧ mr_OperatorNamespace r ≠ EmptyString →
  safe management_may (loadConfigMapValuesFrom r (mr_ValuesConfigMapName r) ConfigMapKeyArgoCD dst : M _) h
    (λ a h', (∃ calls, h' = h ++ calls) ∧ ∀ v, a = Ok v → ∃ m, config_layer h' m ∧ v = MapDeepMerge dst m).
Proof.
  intros Hname. unfold loadConfigMapValuesFrom. manage.
  destruct (ms_GetValues S h _ _) as [data|err] eqn:Hget.
  - destruct (data !! ConfigMapKeyArgoCD) as [text|] eqn:Hkey; manage.
    + apply safe_pure. destruct (yaml_Unmarshal text) as [m|e] eqn:Hm; manage; (split; [by eexists|]); [|done].
      intros v [= <-]. exists m. split; [unfold config_layer; rewrite decide_True by done; right; exists data; rewrite Hkey; split; [made|exact Hm]|done].
    + split; [by eexists|]. intros v [= <-]. exists ∅. split; [unfold config_layer; rewrite decide_True by done; right; exists data; rewrite Hkey; split; [made|done]|by rewrite merge_empty].
  - destruct (op_IsNotFound err) eqn:He; manage; (split; [by eexists|]); [|done].
    intros v [= <-]. exists ∅. split; [|by rewrite merge_empty]. unfold config_layer. rewrite decide_True by done. left. exists err.
    split; [made|]. split; [by apply bool_decide_eq_true in He|done].
Qed.

(** The values of the chart are those that were read, layered. *)
Lemma mergeArgoCDValues_safe h :
  safe management_may (mergeArgoCDValues r : M _) h (λ a h', (∃ calls, h' = h ++ calls) ∧ ∀ v, a = Ok v → layered h' v).
Proof.
  unfold mergeArgoCDValues, mergeValues. apply safe_bind. eapply safe_mono; [|apply mergeFile_safe].
  intros [v1|e] h1 [[calls1 ->] H1]; [|split; [by eexists|done]]. destruct (H1 v1 eq_refl) as (base & Hbase & ->).
  apply safe_bind. eapply safe_mono; [|apply mergeFile_safe].
  intros [v2|e] h2 [[calls2 ->] H2]; [|split; [eexists; by rewrite <-app_assoc|done]]. destruct (H2 v2 eq_refl) as (ha & Hha & ->).
  destruct (decide (mr_ValuesConfigMapName r ≠ EmptyString ∧ mr_OperatorNamespace r ≠ EmptyString)) as [Hname|Hname].
  - eapply safe_mono; [|by apply loadConfigMap_safe]. intros a h3 [[calls3 ->] H3]. split; [eexists; by rewrite <-!app_assoc|].
    intros v Hv. destruct (H3 v Hv) as (user & Huser & ->). exists base, ha, user.
    split_and!; [by do 2 apply file_layer_app|by apply file_layer_app|done|done].
  - manage. split; [eexists; by rewrite <-app_assoc|]. intros v [= <-]. exists base, ha, ∅.
    split_and!; [by apply file_layer_app|done|unfold config_layer; by rewrite decide_False|by rewrite merge_empty].
Qed.

Lemma may_install_app h h' : may_install h → may_install (h ++ h').
Proof. intros Hi Hc. destruct (Hi Hc) as [e He]. exists e. apply elem_of_app. by left. Qed.

Lemma helm_may_app h h' release ch vals : helm_may h release ch vals → helm_may (h ++ h') release ch vals.
Proof.
  intros (? & ? & ? & ?). split_and!; [done|by apply may_install_app|by apply layered_app|rewrite elem_of_app; by left].
Qed.

Lemma runHelm_safe ch vals h :
  helm_may h ArgoCDApp ch vals →
  safe management_may (runHelmUpgradeInstall ArgoCDApp ch vals) h (λ _ h', ∃ calls, h' = h ++ calls).
Proof.
  intros Hi. unfold safe, runHelmUpgradeInstall, or_helm. cbn.
  assert (∀ x, good management_may h → good management_may (h ++ [HistoryRead ArgoCDApp x])) as Hg by (intros; by apply good_snoc).
  destruct (ms_History S h ArgoCDApp) as [[]|err].
  - assert (∀ x, good management_may h → good management_may ((h ++ [HistoryRead ArgoCDApp (Ok tt)]) ++ [Upgraded ArgoCDApp ch vals x])).
    { intros x Hh. apply good_snoc; [by apply Hg|]. split; [by apply helm_may_app|made]. }
    destruct (ms_Upgrade _ _ _ _ _) as [[]|e]; (eexists _, _; split; [done|]; split; [auto|eexists; by rewrite <-app_assoc]).
  - destruct (_ || _) eqn:Hnone; [|eexists _, _; split; [done|]; split; [auto|by eexists]].
    apply orb_true_iff in Hnone.
    assert (∀ x, good management_may h → good management_may ((h ++ [HistoryRead ArgoCDApp (Err err)]) ++ [Installed ArgoCDApp ch vals x])).
    { intros x Hh. apply good_snoc; [by apply Hg|]. split; [by apply helm_may_app|]. exists err. split; [made|exact Hnone]. }
    destruct (ms_Install _ _ _ _ _) as [[]|e]; [|destruct (silenced e)];
      (eexists _, _; split; [done|]; split; [auto|eexists; by rewrite <-app_assoc]).
Qed.

Lemma initialHelmInstall_safe h :
  may_install h → safe management_may (initialHelmInstall r) h (λ _ h', ∃ calls, h' = h ++ calls).
Proof.
  intros Hi. unfold initialHelmInstall. manage. destruct (ms_Setup S h) as [[]|e]; [|eauto]. manage.
  destruct (ms_Init S _) as [[]|e]; cbn [negb]; [|manage; eexists; by rewrite <-!app_assoc|eexists; by rewrite <-!app_assoc].
  manage. destruct (ms_Chart S _ _ _ _) as [ch|e]; [|eexists; by rewrite <-!app_assoc]. manage.
  eapply safe_mono; [|apply mergeArgoCDValues_safe].
  intros [vals|e] h' [[calls ->] Hvals]; [|eexists; by rewrite <-!app_assoc].
  eapply safe_mono; [|apply runHelm_safe].
  - intros x h'' [calls' ->]. eexists. by rewrite <-!app_assoc.
  - split_and!; [done|by do 4 apply may_install_app|by apply Hvals|made].
Qed.

Lemma ensureInitialHelmInstall_adds : adds (ensureInitialHelmInstall r).
Proof.
  intros h. unfold ensureInitialHelmInstall. apply safe_bind, safe_tried. manage_step; [done|].
  destruct (is_Ok _ && _) eqn:Hok; [manage; eauto|]. eapply safe_mono; [|apply initialHelmInstall_safe].
  - intros x h' [calls ->]. eexists. by rewrite <-app_assoc.
  - intros Hc. rewrite Hc, andb_true_r in Hok. destruct (ms_Get S h _ _) as [app|err]; [done|]. exists err. made.
Qed.

Lemma selfManaged_safe h :
  mr_InstallWithoutCNI r = false →
  safe management_may (ensureArgoCDSelfManaged r) h (λ a h', a = Ok tt → in_place h').
Proof.
  intros Hc. unfold ensureArgoCDSelfManaged, in_place. rewrite Hc. manage. eapply safe_mono; [|apply mergeArgoCDValues_safe].
  intros [vals|e] h' [_ Hvals]; [|done]. specialize (Hvals vals eq_refl).
  unfold createOrUpdateArgoCDApplication. manage; [done|].
  assert (∀ calls v, wanted (h' ++ calls) v (set_ResourceVersion v (buildArgoCDApplication r vals))) as Hw.
  { intros calls v. exists vals. split; [by apply layered_app|done]. }
  pose proof (λ calls, Hw calls EmptyString) as Hw0. cbn in Hw0.
  destruct (ms_Get S _ _ _) as [app|err] eqn:Hget.
  - destruct (sameSpec app _) eqn:Hsame; manage.
    + intros _. eexists _, _. split; [apply Hw0|]. right; right. exists app. split; [made|exact Hsame].
    + split; [done|]. exists app. split; [made|apply Hw].
    + destruct (ms_Update S _ _) as [[]|e] eqn:Hup; [|done]. intros _.
      eexists _, (resourceVersion app). split; [rewrite <-app_assoc; apply Hw|]. right; left. made.
  - destruct (op_IsNotFound err) eqn:He; cbn [negb]; manage; try done.
    + split; [done|]. split; [apply Hw0|]. exists err. split; [made|by apply bool_decide_eq_true in He].
    + destruct (ms_Create S _ _) as [[]|e] eqn:Hup; [|done]. intros _.
      eexists _, EmptyString. split; [rewrite <-app_assoc; apply Hw0|]. left. made.
Qed.

Lemma removeApplication_safe h :
  mr_InstallWithoutCNI r = true → safe management_may (removeApplication r) h (λ a h', a = Ok tt → in_place h').
Proof.
  intros Hc. unfold removeApplication, in_place. rewrite Hc. manage; [done|].
  destruct (ms_Get S _ _ _) as [app|err] eqn:Hget.
  - manage; [split; [done|made]|]. destruct (ms_Delete S _ _) as [[]|e] eqn:Hdel; [|done]. intros _. right. exists app. made.
  - destruct (op_IsNotFound err) eqn:He; manage; [|done]. intros _. left. exists err. split; [made|by apply bool_decide_eq_true in He].
Qed.

Lemma in_place_app h h' : in_place h → in_place (h ++ h').
Proof.
  unfold in_place, absent. destruct (mr_InstallWithoutCNI r).
  - intros [(err & ? & ?)|(app & ?)]; [left; exists err|right; exists app]; rewrite elem_of_app; auto.
  - intros (app & version & Hw & Hin). exists app, version. split; [by apply wanted_app|]. rewrite !elem_of_app.
    destruct Hin as [?|[?|(e & ? & ?)]]; [auto|auto|]. right; right. exists e. rewrite elem_of_app. auto.
Qed.

Lemma checkArgoCRDs_adds : adds (checkArgoCRDs : M unit).
Proof.
  unfold checkArgoCRDs. apply adds_bind.
  - apply (adds_read _ (λ h, match ms_Mapping S h "Application" with Ok _ => Ok tt | Err err =>
      Err (if decide (oe_kind err = KindNoMatch) then Errorf "ArgoCD CRD Application not found" else err) end)).
    intros h. cbn. by destruct (ms_Mapping S h "Application") as [[]|].
  - intros _. apply (adds_read _ (λ h, match ms_Mapping S h "AppProject" with Ok _ => Ok tt | Err err =>
      Err (if decide (oe_kind err = KindNoMatch) then Errorf "ArgoCD CRD AppProject not found" else err) end)).
    intros h. cbn. by destruct (ms_Mapping S h "AppProject") as [[]|].
Qed.

Lemma ReconcileManagement_safe namespace name :
  safe management_may (ReconcileManagement r namespace name) []
    (λ a h', a = Ok (seconds 30) ∨ a = Ok (seconds 600) → in_place h').
Proof.
  unfold ReconcileManagement. destruct (_ && _); [manage; by intros []|]. apply safe_bind, safe_tried.
  eapply safe_mono with (λ a h', a = Ok tt → in_place h').
  - intros [[]|e] h' Hin; [|manage; by intros []]. apply safe_bind, safe_tried. eapply safe_mono; [|apply checkArgoCRDs_adds].
    intros [u|e] h'' [calls ->]; manage; intros _; by apply in_place_app, Hin.
  - unfold reconcileManagementArgoCD. apply safe_bind, safe_wrapped. eapply safe_mono; [|apply ensureInitialHelmInstall_adds].
    intros [u|e] h' _; [|done]. destruct (mr_InstallWithoutCNI r) eqn:Hc; cbn [negb].
    + by apply removeApplication_safe.
    + apply safe_wrapped. eapply safe_mono; [|by apply selfManaged_safe]. by intros [].
Qed.

(** C31: whatever the API server, the files and Helm answer, each call of a reconciliation of the
    management is one it may make. With a network plugin the Application of ArgoCD is created only when it
    was not found, updated only when it was, at the version that was read, and never deleted; both write
    exactly what the settings want, with the values of the files and of the ConfigMap that were read
    before, layered. Without one it is never written, and only deleted. Helm only runs on the release of
    ArgoCD, with the chart that was loaded and the values that were read: with a network plugin only after
    the read of the Application has failed, with any error and not only because there is none; it installs
    where the release has no history, and upgrades where it has one. And when the platform is found
    reconciled, the Application is in place as the settings want it, or gone. *)
Theorem management_calls_guarded namespace name a calls :
  ReconcileManagement r namespace name [] = (a, calls) →
  (∀ before c after, calls = before ++ c :: after → management_may before c) ∧
  (a = Ok (seconds 30) ∨ a = Ok (seconds 600) → in_place calls).
Proof.
  intros Hrun. destruct (ReconcileManagement_safe namespace name) as (a' & h' & Hrun' & Hgood & Hin).
  rewrite Hrun in Hrun'. injection Hrun' as -> ->. split; [apply Hgood; by intros []|done].
Qed.
End calls.

(** ** Concrete inputs *)
Module ManagementSamples.

#[export] Instance sample_text : GoText := {| ParseRFC3339 _ := None; Quote s := s |}.

Definition sampleSettings (cniLess : bool) : ManagementReconciler :=
  mkManagementReconciler "spx" true "values" "https://charts" "1.0.0" "base.yaml" "ha.yaml" cniLess.

Definition notFound : OpError := mkOpError KindNotFound "not found".

(** Two replicas by default, three for high availability, and what the ConfigMap says of the name. *)
Definition sampleServer (install : result HelmError unit) : ManagementServer unit unit := {|
  ms_Get _ _ _ := Err notFound; ms_sameSpec _ _ := false; ms_resourceVersion _ := "1";
  ms_Create _ _ := Ok tt; ms_Update _ _ := Ok tt; ms_Delete _ _ := Ok tt;
  ms_ReadFile _ path := Ok (Some path);
  ms_Unmarshal text :=
    if decide (text = "base.yaml") then Ok {["replicas" := YScalar "2"; "domain" := YScalar "example.org"]}
    else if decide (text = "ha.yaml") then Ok {["replicas" := YScalar "3"]} else Ok {["name" := YScalar text]};
  ms_GetValues _ _ _ := Ok {["argocd" := "argo"]};
  ms_Setup _ := Ok tt; ms_Init _ := Ok true; ms_Chart _ _ _ _ := Ok tt;
  ms_History _ _ := Err (mkHelmError true "release: not found"); ms_Install _ _ _ _ := install;
  ms_Upgrade _ _ _ _ := Ok tt; ms_Mapping _ _ := Ok tt |}.

Definition sampleRun (cniLess : bool) : result OpError Z * list (MCall unit unit) :=
  ReconcileManagement (MC:=@management_calls _ _ (sampleServer (Ok tt))) (sampleSettings cniLess) "spx" "values" [].

Lemma values_layered_witness :
  ∃ v calls, mergeArgoCDValues (MC:=@management_calls _ _ (sampleServer (Ok tt))) (sampleSettings false) [] = (Ok v, calls) ∧
    (∃ base ha user : gmap string YValue, at_path ["replicas"] (Some (YMap user)) = Some (YScalar "3") ∨ at_path ["replicas"] (Some (YMap ha)) = Some (YScalar "3") ∨
      at_path ["replicas"] (Some (YMap base)) = Some (YScalar "3")) ∧
    at_path ["replicas"] (Some (YMap v)) = Some (YScalar "3") ∧ at_path ["domain"] (Some (YMap v)) = Some (YScalar "example.org").
Proof.
  eexists _, _. split; [reflexivity|]. split; [|split; reflexivity].
  destruct (values_layered (MC:=@management_calls _ _ (sampleServer (Ok tt))) (sampleSettings false) [] _ _ eq_refl)
    as (base & ha & user & _ & _ & _ & Hall).
  exists base, ha, user. apply (Hall ["replicas"] (YScalar "3") I). reflexivity.
Defined.

(** The last read comes before the creation of the Application. *)
Lemma management_calls_guarded_witness :
  (sampleRun false).1 = Ok (seconds 600) ∧ in_place (S:=sampleServer (Ok tt)) (sampleSettings false) (sampleRun false).2 ∧
  (sampleRun true).1 = Ok (seconds 600) ∧ in_place (S:=sampleServer (Ok tt)) (sampleSettings true) (sampleRun true).2.
Proof.
  split; [vm_compute; reflexivity|]. split; [|split; [vm_compute; reflexivity|]].
  - apply (management_calls_guarded (S:=sampleServer (Ok tt)) (sampleSettings false) "spx" "values" (sampleRun false).1 (sampleRun false).2);
      [reflexivity|right; vm_compute; reflexivity].
  - apply (management_calls_guarded (S:=sampleServer (Ok tt)) (sampleSettings true) "spx" "values" (sampleRun true).1 (sampleRun true).2);
      [reflexivity|right; vm_compute; reflexivity].
Defined.

(** An installation that is refused because the namespace does not exist is taken for a success. *)
Example missing_namespace_is_silenced :
  (initialHelmInstall (MC:=@management_calls _ _ (sampleServer (Err (mkHelmError false "namespaces spx not found"))))
    (sampleSettings false) []).1 = Ok tt.
Proof. vm_compute. reflexivity. Qed.
End ManagementSamples.
