(* ===== verification/Timestamps.v ===== *)
(** * The dates of the garbage collector ([internal/gc/utils/consts.go], Go's [time])

    The mark of a resource is a date in the layout ["2006-01-02T15-04-05Z0700"]: [FormatTime] and [ParseTime] are
    [time.Time.Format] and [time.Parse] in that layout, a date being a number of nanoseconds since 1970. *)

From Stdlib Require Import Ascii.
From S2P Require Import Prelude Strings Strconv.

(** ** The calendar *)

Definition leap (y : Z) : bool := (y `mod` 4 =? 0) && (negb (y `mod` 100 =? 0) || (y `mod` 400 =? 0)).

Definition daysIn (m y : Z) : Z :=
  if m =? 2 then if leap y then 29 else 28
  else if (m =? 4) || (m =? 6) || (m =? 9) || (m =? 11) then 30 else 31.

(** The days since 1970 of a date of the Gregorian calendar; years start in March. *)
Definition days_from_civil (y m d : Z) : Z :=
  let y := if m <=? 2 then y - 1 else y in
  let doy := (153 * (if m <=? 2 then m + 9 else m - 3) + 2) / 5 + d - 1 in
  let yoe := y `mod` 400 in
  y / 400 * 146097 + (365 * yoe + yoe / 4 - yoe / 100 + doy) - 719468.

Definition civil_from_days (days : Z) : Z * Z * Z :=
  let doe := (days + 719468) `mod` 146097 in
  let yoe := (doe - doe / 1460 + doe / 36524 - doe / 146096) / 365 in
  let doy := doe - (365 * yoe + yoe / 4 - yoe / 100) in
  let mp := (5 * doy + 2) / 153 in
  let m := if mp <? 10 then mp + 3 else mp - 9 in
  ((days + 719468) / 146097 * 400 + yoe + (if m <=? 2 then 1 else 0), m, doy - (153 * mp + 2) / 5 + 1).

(** ** Writing ([FormatTime]) *)

(** [TimestampFormat] *)
Definition TimestampFormat : string := "2006-01-02T15-04-05Z0700".

Definition second : Z := 1000000000.

(** The decimal digits of [u], at least [width] of them. *)
Fixpoint appendDigits (width : nat) (u : N) (tail : string) : string :=
  match width with
  | O => if (u =? 0)%N then tail else pretty u +:+ tail
  | S width => appendDigits width (u / 10) (String (pretty_N_char (u `mod` 10)) tail)
  end.

Definition appendInt (x : Z) (width : nat) : string :=
  (if x <? 0 then "-" else EmptyString) +:+ appendDigits width (Z.abs_N x) EmptyString.

Definition formatZone (offset : Z) : string :=
  if offset =? 0 then "Z" else
  let minutes := Z.quot offset 60 in
  (if minutes <? 0 then "-" else "+") +:+ appendInt (Z.abs minutes / 60) 2 +:+ appendInt (Z.abs minutes `mod` 60) 2.

(** The date [t] in a zone [offset] seconds east of UTC. *)
Definition FormatTime (offset t : Z) : string :=
  let local := t / second + offset in
  let '(year, month, day) := civil_from_days (local / 86400) in
  let s := local `mod` 86400 in
  appendInt year 4 +:+ "-" +:+ appendInt month 2 +:+ "-" +:+ appendInt day 2 +:+ "T" +:+ appendInt (s / 3600) 2 +:+ "-" +:+
  appendInt (s `mod` 3600 / 60) 2 +:+ "-" +:+ appendInt (s `mod` 60) 2 +:+ formatZone offset.

(** ** Reading ([ParseTime]) *)

(** [getnum]: two digits, or one if the layout allows it. *)
Definition getnum (fixed : bool) (s : string) : option (Z * string) :=
  match s with
  | String a s1 =>
    x ← digit a;
    match s1 with
    | String b s2 =>
      match digit b with
      | Some y => Some (Z.of_N (10 * x + y), s2)
      | None => if fixed then None else Some (Z.of_N x, s1)
      end
    | EmptyString => if fixed then None else Some (Z.of_N x, s1)
    end
  | EmptyString => None
  end.

Definition getyear (s : string) : option (Z * string) :=
  match s with
  | String a (String b (String c (String d rest))) =>
    a ← digit a; b ← digit b; c ← digit c; d ← digit d; Some (Z.of_N (1000 * a + 100 * b + 10 * c + d), rest)
  | _ => None
  end.

Definition skip (c : ascii) (s : string) : option string :=
  match s with String a rest => if decide (a = c) then Some rest else None | EmptyString => None end.

Definition in_range (low high : Z) (r : Z * string) : option (Z * string) :=
  if decide (low ≤ r.1 < high) then Some r else None.

Fixpoint takeDigits (s : string) : list N * string :=
  match s with
  | String c rest => match digit c with Some d => let '(ds, rest) := takeDigits rest in (d :: ds, rest) | None => ([], s) end
  | EmptyString => ([], s)
  end.

(** A fraction of the second is read though the layout has none: its nine first digits. *)
Definition getnanoseconds (s : string) : Z * string :=
  match s with
  | String c rest =>
    if (bool_decide (c = "."%char) || bool_decide (c = ","%char)) && starts_with_digit rest then
      let '(ds, rest) := takeDigits rest in
      (Z.of_N (fold_left (λ n d, 10 * n + d)%N (take 9 (ds ++ replicate 9 0%N)) 0%N), rest)
    else (0, s)
  | EmptyString => (0, s)
  end.

(** The seconds east of UTC of [Z] or of a sign, hours and minutes. *)
Definition getzone (s : string) : option (Z * string) :=
  match s with
  | String "Z" rest => Some (0, rest)
  | String sign s =>
    '(hours, s) ← getnum true s; '(minutes, s) ← getnum true s;
    if decide (24 < hours ∨ 60 < minutes) then None else
    let offset := (hours * 60 + minutes) * 60 in
    if decide (sign = "+"%char) then Some (offset, s) else if decide (sign = "-"%char) then Some (- offset, s) else None
  | EmptyString => None
  end.

Definition ParseTime (s : string) : option Z :=
  '(year, s) ← getyear s; s ← skip "-" s;
  '(month, s) ← getnum true s ≫= in_range 1 13; s ← skip "-" s;
  '(day, s) ← getnum true s; s ← skip "T" s;
  '(hour, s) ← getnum false s ≫= in_range 0 24; s ← skip "-" s;
  '(minute, s) ← getnum true s ≫= in_range 0 60; s ← skip "-" s;
  '(sec, s) ← getnum true s ≫= in_range 0 60;
  let '(nanoseconds, s) := getnanoseconds s in
  '(offset, s) ← getzone s;
  if decide (s = EmptyString ∧ 1 ≤ day ≤ daysIn month year) then
    Some ((days_from_civil year month day * 86400 + hour * 3600 + minute * 60 + sec - offset) * second + nanoseconds)
  else None.

(** ** The calendar is a bijection *)

Lemma year_of_era doe : 0 ≤ doe < 146097 →
  let yoe := (doe - doe / 1460 + doe / 36524 - doe / 146096) / 365 in
  let doy := doe - (365 * yoe + yoe / 4 - yoe / 100) in
  0 ≤ yoe < 400 ∧ 0 ≤ doy ≤ 365 ∧
  (doy = 365 → (yoe + 1) `mod` 4 = 0 ∧ ((yoe + 1) `mod` 100 ≠ 0 ∨ (yoe + 1) `mod` 400 = 0)).
Proof.
  intros H yoe doy.
  assert (0 ≤ yoe < 400) by (subst yoe; Z.to_euclidean_division_equations; lia).
  assert (doe / 146096 = if doe =? 146096 then 1 else 0).
  { destruct (Z.eqb_spec doe 146096); Z.to_euclidean_division_equations; lia. }
  subst doy. assert (∃ c r, doe / 36524 = c ∧ doe = 36524 * c + r ∧ 0 ≤ r < 36524 ∧ 0 ≤ c ≤ 4) as (c & r & Hc & -> & Hr & Hc4).
  { exists (doe / 36524), (doe `mod` 36524). Z.to_euclidean_division_equations. lia. }
  assert (c = 0 ∨ c = 1 ∨ c = 2 ∨ c = 3 ∨ c = 4) as Hcs by lia.
  destruct_or! Hcs; subst c; clear Hc; unfold yoe in *; clear yoe;
    (destruct (_ =? _) eqn:E; [apply Z.eqb_eq in E|apply Z.eqb_neq in E]; Z.to_euclidean_division_equations; lia).
Qed.

(** The month and the day of a day of a year that starts in March. *)
Lemma month_of_year doy : 0 ≤ doy ≤ 365 →
  let mp := (5 * doy + 2) / 153 in
  0 ≤ mp ≤ 11 ∧ 0 ≤ doy - (153 * mp + 2) / 5 < (if mp =? 11 then 29 else daysIn (if mp <? 10 then mp + 3 else mp - 9) 1) ∧
  (mp = 11 → doy - (153 * mp + 2) / 5 = 28 → doy = 365).
Proof.
  intros H mp. assert (0 ≤ mp ≤ 11) as Hmp by (subst mp; Z.to_euclidean_division_equations; lia).
  split; [done|].
  assert (mp = 0 ∨ mp = 1 ∨ mp = 2 ∨ mp = 3 ∨ mp = 4 ∨ mp = 5 ∨ mp = 6 ∨ mp = 7 ∨ mp = 8 ∨ mp = 9 ∨ mp = 10 ∨ mp = 11)
    as Hm by lia.
  unfold mp in *. clear mp.
  destruct_or! Hm; rewrite Hm; cbn -[Z.sub Z.div Z.mul Z.lt Z.le];
    try (match goal with |- context [daysIn ?m 1] => let v := eval vm_compute in (daysIn m 1) in change (daysIn m 1) with v end);
    Z.to_euclidean_division_equations; lia.
Qed.

Lemma daysIn_period m y k : daysIn m (k * 400 + y) = daysIn m y.
Proof.
  unfold daysIn, leap.
  replace ((k * 400 + y) `mod` 4) with (y `mod` 4) by (Z.to_euclidean_division_equations; lia).
  replace ((k * 400 + y) `mod` 100) with (y `mod` 100) by (Z.to_euclidean_division_equations; lia).
  replace ((k * 400 + y) `mod` 400) with (y `mod` 400) by (Z.to_euclidean_division_equations; lia). done.
Qed.

(** A number of days is a date that exists, and the date is that number of days. *)
Lemma civil_of_days days : let '(y, m, d) := civil_from_days days in
  1 ≤ m ≤ 12 ∧ 1 ≤ d ≤ daysIn m y ∧ days_from_civil y m d = days.
Proof.
  unfold civil_from_days. set (era := (days + 719468) / 146097). set (doe := (days + 719468) `mod` 146097).
  assert (0 ≤ doe < 146097 ∧ days = era * 146097 + doe - 719468) as [Hdoe Hdays].
  { subst era doe. Z.to_euclidean_division_equations. lia. }
  pose proof (year_of_era doe Hdoe) as Hy. cbv zeta in Hy. set (yoe := (_ / 365)) in *.
  set (doy := doe - (365 * yoe + _ - _)) in *. destruct Hy as (Hyoe & Hdoy & Hleap).
  pose proof (month_of_year doy Hdoy) as Hm. cbv zeta in Hm. set (mp := (5 * doy + 2) / 153) in *. destruct Hm as (Hmp & Hd & Hlast).
  assert (mp ≠ 11 → ∀ y, daysIn (if mp <? 10 then mp + 3 else mp - 9) y = daysIn (if mp <? 10 then mp + 3 else mp - 9) 1) as Hdays_in.
  { intros Hne y. unfold daysIn. by rewrite (proj2 (Z.eqb_neq _ 2)) by (destruct (Z.ltb_spec mp 10); lia). }
  split; [destruct (Z.ltb_spec mp 10); lia|]. split; [split; [lia|]|].
  - destruct (decide (mp = 11)) as [E|Hne]; 
      [|rewrite Hdays_in by done; rewrite (proj2 (Z.eqb_neq mp 11)) in Hd by done; lia].
    rewrite E in *. cbn -[Z.mul Z.add Z.sub daysIn] in *.
    rewrite <-Z.add_assoc, daysIn_period. unfold daysIn, leap. change (11 - 9 =? 2) with true. change (11 - 9 <=? 2) with true.
    cbv iota. destruct (decide (doy - (153 * 11 + 2) / 5 = 28)) as [E28|]; [|case_match; lia].
    destruct (Hleap (Hlast eq_refl E28)) as [H4 [H100|H400]]; rewrite H4;
      [rewrite (proj2 (Z.eqb_neq _ _) H100)|rewrite H400, orb_true_r]; cbn -[Z.sub Z.mul Z.div Z.add]; lia.
  - unfold days_from_civil. set (m := if mp <? 10 then mp + 3 else mp - 9).
    replace (if m <=? 2 then era * 400 + yoe + (if m <=? 2 then 1 else 0) - 1 else era * 400 + yoe + (if m <=? 2 then 1 else 0))
      with (era * 400 + yoe) by (destruct (m <=? 2); lia).
    replace (if m <=? 2 then m + 9 else m - 3) with mp by (subst m; destruct (Z.ltb_spec mp 10);
      [destruct (Z.leb_spec (mp + 3) 2)|destruct (Z.leb_spec (mp - 9) 2)]; lia).
    replace ((era * 400 + yoe) `mod` 400) with yoe by (Z.to_euclidean_division_equations; lia).
    replace ((era * 400 + yoe) / 400) with era by (Z.to_euclidean_division_equations; lia).
    subst doy. lia.
Qed.

(** ** What is written can be read *)

Lemma appendDigits_app width u tail rest : appendDigits width u tail +:+ rest = appendDigits width u (tail +:+ rest).
Proof.
  revert u tail. induction width as [|width IH]; intros u tail; cbn [appendDigits]; [case_match; [done|apply string_app_assoc]|].
  rewrite IH. by rewrite string_app_cons.
Qed.

Lemma appendInt_app x width rest : 0 ≤ x → appendInt x width +:+ rest = appendDigits width (Z.to_N x) rest.
Proof.
  intros Hx. unfold appendInt. rewrite (proj2 (Z.ltb_ge x 0)) by done.
  replace (Z.abs_N x) with (Z.to_N x) by lia. apply appendDigits_app.
Qed.

Lemma digit_mod u : digit (pretty_N_char (u `mod` 10)) = Some (u `mod` 10)%N.
Proof. apply digit_pretty, N.mod_lt. lia. Qed.

Lemma getnum_appendInt fixed n rest : 0 ≤ n < 100 → getnum fixed (appendInt n 2 +:+ rest) = Some (n, rest).
Proof.
  intros Hn. rewrite appendInt_app by lia. cbn [appendDigits]. rewrite N.Div0.div_div, (N.div_small _ (10 * 10)) by lia.
  rewrite N.eqb_refl. unfold getnum. rewrite !digit_mod. cbn [mbind option_bind]. do 2 f_equal.
  rewrite (N.mod_small (_ / 10)) by (apply N.Div0.div_lt_upper_bound; lia). rewrite <-N.div_mod by done. lia.
Qed.

Lemma getyear_appendInt n rest : 0 ≤ n < 10000 → getyear (appendInt n 4 +:+ rest) = Some (n, rest).
Proof.
  intros Hn. rewrite appendInt_app by lia. cbn [appendDigits]. set (u := Z.to_N n).
  rewrite (N.div_small (u / 10 / 10 / 10)) by (rewrite !N.Div0.div_div; apply N.Div0.div_lt_upper_bound; lia).
  rewrite N.eqb_refl. unfold getyear. rewrite !digit_mod. cbn [mbind option_bind]. do 2 f_equal.
  rewrite (N.mod_small (u / 10 / 10 / 10)) by (rewrite !N.Div0.div_div; apply N.Div0.div_lt_upper_bound; lia).
  pose proof (N.div_mod u 10). pose proof (N.div_mod (u / 10) 10). pose proof (N.div_mod (u / 10 / 10) 10). lia.
Qed.

Lemma skip_app c rest : skip c (String c EmptyString +:+ rest) = Some rest.
Proof. rewrite string_app_cons. unfold skip. by rewrite decide_True. Qed.

Lemma getnanoseconds_zone offset : getnanoseconds (formatZone offset) = (0, formatZone offset).
Proof. unfold formatZone. by repeat case_match; simplify_eq. Qed.

(** A zone of the clock: a whole number of minutes, at most a day from UTC. *)
Definition zone_ok (offset : Z) : Prop := offset `mod` 60 = 0 ∧ - 86400 ≤ offset ≤ 86400.

Lemma getzone_formatZone offset : zone_ok offset → getzone (formatZone offset) = Some (offset, EmptyString).
Proof.
  intros [Hm Ho]. unfold formatZone. destruct (Z.eqb_spec offset 0) as [->|Hne]; [done|].
  set (minutes := Z.quot offset 60). assert (offset = 60 * minutes) as Heq.
  { unfold minutes. clear minutes. Z.to_euclidean_division_equations. lia. }
  assert (∀ c, c ≠ "Z"%char → getzone (String c EmptyString +:+ appendInt (Z.abs minutes / 60) 2 +:+ appendInt (Z.abs minutes `mod` 60) 2) =
    if decide (c = "+"%char) then Some (Z.abs offset, EmptyString)
    else if decide (c = "-"%char) then Some (- Z.abs offset, EmptyString) else None) as Hc.
  { intros c Hc. rewrite string_app_cons. transitivity ('(hours, s) ← getnum true (appendInt (Z.abs minutes / 60) 2 +:+ appendInt (Z.abs minutes `mod` 60) 2);
      '(minutes, s) ← getnum true s;
      if decide (24 < hours ∨ 60 < minutes) then None else
      let offset := (hours * 60 + minutes) * 60 in
      if decide (c = "+"%char) then Some (offset, s) else if decide (c = "-"%char) then Some (- offset, s) else None).
    - destruct c as [[] [] [] [] [] [] [] []]; by try reflexivity.
    - rewrite getnum_appendInt by (Z.to_euclidean_division_equations; lia). cbn -[Z.mul Z.add decide getnum].
      rewrite <-(string_app_nil_r (appendInt (Z.abs minutes `mod` 60) 2)).
      rewrite getnum_appendInt by (Z.to_euclidean_division_equations; lia). cbn -[Z.mul Z.add decide].
      rewrite decide_False by (Z.to_euclidean_division_equations; lia).
      replace ((Z.abs minutes / 60 * 60 + Z.abs minutes `mod` 60) * 60) with (Z.abs offset) by (Z.to_euclidean_division_equations; lia).
      done. }
  destruct (Z.ltb_spec minutes 0); rewrite Hc by done; cbn -[Z.abs Z.opp decide]; [rewrite decide_False, decide_True by done|rewrite decide_True by done];
    do 2 f_equal; lia.
Qed.

(** The year of a date in a zone. *)
Definition yearIn (offset t : Z) : Z := (civil_from_days ((t / second + offset) / 86400)).1.1.

(** A date that is written and read is the date to the second. *)
Lemma Parse_Format offset t : zone_ok offset → 0 ≤ yearIn offset t < 10000 →
  ParseTime (FormatTime offset t) = Some (t / second * second).
Proof.
  intros Hzone Hyear. unfold FormatTime, yearIn in *. set (local := t / second + offset) in *.
  pose proof (civil_of_days (local / 86400)) as H. destruct (civil_from_days (local / 86400)) as [[year month] day].
  destruct H as (Hmonth & Hday & Hdays). cbn [fst] in Hyear.
  assert (daysIn month year ≤ 31) by (unfold daysIn; repeat case_match; lia).
  unfold ParseTime. rewrite getyear_appendInt by done. cbn [mbind option_bind]. rewrite skip_app. cbn [mbind option_bind].
  assert (0 ≤ local `mod` 86400 < 86400) as Hs by (apply Z.mod_pos_bound; lia). set (s := local `mod` 86400) in *.
  assert (0 ≤ s / 3600 < 24 ∧ 0 ≤ s `mod` 3600 / 60 < 60 ∧ 0 ≤ s `mod` 60 < 60) as (Hh & Hmin & Hsec).
  { Z.to_euclidean_division_equations; lia. }
  rewrite getnum_appendInt by lia. cbn [mbind option_bind]. unfold in_range. cbn [fst].
  rewrite decide_True by lia. cbn [mbind option_bind]. rewrite skip_app. cbn [mbind option_bind].
  rewrite getnum_appendInt by lia. cbn [mbind option_bind]. rewrite skip_app. cbn [mbind option_bind].
  rewrite getnum_appendInt by lia. cbn [mbind option_bind fst]. rewrite decide_True by lia. cbn [mbind option_bind].
  rewrite skip_app. cbn [mbind option_bind]. rewrite getnum_appendInt by lia. cbn [mbind option_bind fst].
  rewrite decide_True by lia. cbn [mbind option_bind]. rewrite skip_app. cbn [mbind option_bind].
  rewrite getnum_appendInt by lia. cbn [mbind option_bind fst]. rewrite decide_True by lia. cbn [mbind option_bind].
  rewrite getnanoseconds_zone, getzone_formatZone by done. cbn [mbind option_bind].
  rewrite decide_True by (split; [done|lia]). f_equal. rewrite Z.add_0_r. f_equal. rewrite Hdays. subst s.
  unfold local. clear. set (x := t / second + offset). replace (t / second) with (x - offset) by (unfold x; lia).
  clearbody x. Z.to_euclidean_division_equations. lia.
Qed.

(** ** The sign of the zone *)

Lemma occurs_digits c width u tail : (u < 10 ^ N.of_nat width)%N → digit c = None →
  occurs c (appendDigits width u tail) = occurs c tail.
Proof.
  intros Hu Hc. revert u tail Hu. induction width as [|width IH]; intros u tail Hu; cbn [appendDigits].
  - rewrite (proj2 (N.eqb_eq u 0)); [done|]. cbn in Hu. lia.
  - rewrite IH by (apply N.Div0.div_lt_upper_bound; rewrite Nat2N.inj_succ, N.pow_succ_r' in Hu; lia). cbn [occurs].
    assert (c ≠ pretty_N_char (u `mod` 10)) as Hne by (intros ->; by rewrite digit_mod in Hc).
    by rewrite bool_decide_eq_false_2.
Qed.

Lemma occurs_appendInt c x width : 0 ≤ x → (Z.to_N x < 10 ^ N.of_nat width)%N → digit c = None → occurs c (appendInt x width) = false.
Proof.
  intros Hx Hw Hc. rewrite <-(string_app_nil_r (appendInt x width)), appendInt_app by done. by rewrite occurs_digits.
Qed.

(** A date has a [+] exactly when its zone is east of UTC. *)
Lemma Format_plus offset t : zone_ok offset → 0 ≤ yearIn offset t < 10000 →
  occurs "+"%char (FormatTime offset t) = (0 <? offset).
Proof.
  intros [Hm Ho] Hyear. unfold FormatTime, yearIn in *. set (local := t / second + offset) in *.
  pose proof (civil_of_days (local / 86400)) as H. destruct (civil_from_days (local / 86400)) as [[year month] day].
  destruct H as (Hmonth & Hday & _). cbn [fst] in Hyear.
  assert (daysIn month year ≤ 31) by (unfold daysIn; repeat case_match; lia).
  set (s := local `mod` 86400). assert (0 ≤ s < 86400) as Hs by (apply Z.mod_pos_bound; lia).
  assert (0 ≤ s / 3600 < 100 ∧ 0 ≤ s `mod` 3600 / 60 < 100 ∧ 0 ≤ s `mod` 60 < 100) as (Hh & Hmin & Hsec).
  { Z.to_euclidean_division_equations; lia. }
  rewrite !occurs_app, !occurs_appendInt by (try done; cbn; lia).
  change (occurs "+"%char "-") with false. change (occurs "+"%char "T") with false. cbn [orb].
  unfold formatZone. destruct (Z.eqb_spec offset 0) as [->|Hne]; [done|].
  rewrite !occurs_app, !occurs_appendInt by (try done; cbn; Z.to_euclidean_division_equations; lia). rewrite !orb_false_r.
  assert ((Z.quot offset 60 <? 0) = negb (0 <? offset)) as ->; [|by destruct (0 <? offset)].
  destruct (Z.ltb_spec (Z.quot offset 60) 0), (Z.ltb_spec 0 offset); try done; Z.to_euclidean_division_equations; lia.
Qed.
