(* ===== verification/Collector.v ===== *)
(** * The garbage collector of the controller
      ([internal/superphenix-controller/internal/gc], [pkg/gc], [pkg/api/gc], [internal/informers])

    A project is deleted in two steps: its resources get a label with a date, then a periodic collection
    deletes the resources whose date has passed. The goroutines of both are values of [Thread], trees of
    the requests they make; [runs] lets those of a group make their requests in any order. *)

From S2P Require Import Prelude Strings Strconv Quantity SpxId ControllerQuota Operator Timestamps.

(** ** Goroutines *)

Section threads.
Context {Q : Type} (Reply : Q → Type).

(** A goroutine makes a request and goes on with its reply, ends, or panics. *)
Inductive Thread (A : Type) : Type :=
  | Ret (a : A)
  | Panic
  | Call (q : Q) (k : Reply q → Thread A).

(** The main goroutine also starts a group of goroutines, and waits for all of them ([sync.WaitGroup],
    [errgroup.Group]). *)
Inductive Main (A : Type) : Type :=
  | MRet' (a : A)
  | MCall (q : Q) (k : Reply q → Main A)
  | MWait (threads : list (Thread (result OpError unit))) (k : list (result OpError unit) → Main A).

Record Event := mkEvent { ev_Request : Q; ev_Reply : Reply ev_Request }.
End threads.

Arguments Ret {Q Reply A} a.
Arguments Panic {Q Reply A}.
Arguments Call {Q Reply A} q k.
Arguments MRet' {Q Reply A} a.
Arguments MCall {Q Reply A} q k.
Arguments MWait {Q Reply A} threads k.
Arguments mkEvent {Q Reply} ev_Request ev_Reply.
Arguments ev_Request {Q Reply} _.
Arguments ev_Reply {Q Reply} _.

Section monad.
Context {Q : Type} {Reply : Q → Type}.

#[export] Instance Thread_ret : MRet (Thread Reply) := λ A a, Ret a.

#[export] Instance Thread_bind : MBind (Thread Reply) := λ A B f, fix bind m :=
  match m with Ret a => f a | Panic => Panic | Call q k => Call q (λ r, bind (k r)) end.

Definition call (q : Q) : Thread Reply (Reply q) := Call q Ret.

Fixpoint main_map {A B} (f : A → B) (m : Main Reply A) : Main Reply B :=
  match m with
  | MRet' a => MRet' (f a)
  | MCall q k => MCall q (λ r, main_map f (k r))
  | MWait ts k => MWait ts (λ rs, main_map f (k rs))
  end.

Fixpoint main_bind {A B} (m : Main Reply A) (f : A → Main Reply B) : Main Reply B :=
  match m with
  | MRet' a => f a
  | MCall q k => MCall q (λ r, main_bind (k r) f)
  | MWait ts k => MWait ts (λ rs, main_bind (k rs) f)
  end.

(** The events of a program up to some moment, and what is left of it. *)
Inductive runs {A} : Main Reply A → list (Event Reply) → Main Reply A → Prop :=
  | runs_stop m : runs m [] m
  | runs_call q k r tr m : runs (k r) tr m → runs (MCall q k) (mkEvent q r :: tr) m
  | runs_thread ts i q k' k r tr m :
      ts !! i = Some (Call q k') → runs (MWait (<[i := k' r]> ts) k) tr m → runs (MWait ts k) (mkEvent q r :: tr) m
  | runs_join rs k tr m : runs (k rs) tr m → runs (MWait (Ret <$> rs) k) tr m.

(** ** Runs with a server and a scheduler *)

Definition waiting {A} (t : Thread Reply A) : bool := match t with Call _ _ => true | _ => false end.

(** The positions of the goroutines that wait for a reply. *)
Definition ready {A} (ts : list (Thread Reply A)) : list nat :=
  filter (λ i, from_option waiting false (ts !! i) = true) (seq 0 (length ts)).

Definition results {A} (ts : list (Thread Reply A)) : option (list A) :=
  mapM (λ t, match t with Ret a => Some a | _ => None end) ts.

(** One step: [server] replies, after the events so far; [choice] is the goroutine that goes on. *)
Definition step {A} (server : list (Event Reply) → ∀ q, Reply q) (choice : list (Event Reply) → nat)
    (h : list (Event Reply)) (m : Main Reply A) : option (Main Reply A * list (Event Reply)) :=
  match m with
  | MRet' _ => None
  | MCall q k => let r := server h q in Some (k r, h ++ [mkEvent q r])
  | MWait ts k =>
    match results ts with
    | Some rs => Some (k rs, h)
    | None =>
      i ← ready ts !! (choice h `mod` length (ready ts))%nat;
      match ts !! i with
      | Some (Call q k') => let r := server h q in Some (MWait (<[i := k' r]> ts) k, h ++ [mkEvent q r])
      | _ => None
      end
    end
  end.

Fixpoint exec {A} (server : list (Event Reply) → ∀ q, Reply q) (choice : list (Event Reply) → nat)
    (fuel : nat) (h : list (Event Reply)) (m : Main Reply A) : Main Reply A * list (Event Reply) :=
  match fuel with
  | O => (m, h)
  | S fuel => match step server choice h m with Some (m, h) => exec server choice fuel h m | None => (m, h) end
  end.
End monad.

(** ** The objects *)

(** The resources that the collector reads or writes ([informers.WatcherSet]). *)
Inductive Kind :=
  | KVirtualMachine | KVirtualMachineSnapshot | KEIP | KFIP | KSNAT | KDNAT | KSSH | KSwitchLBRules | KNetworkPolicy
  | KSubnet | KNAD | KNatGw | KDataVolume | KVolumeSnapshot | KObjectBucketClaim
  | KPersistentVolumeClaims | KVPC | KNamespace.

#[export] Instance Kind_eq_dec : EqDecision Kind.
Proof. solve_decision. Defined.

(** An object: [None] is a nil map or pointer. [ob_Template] are the labels of the template of a virtual
    machine, and [ob_Rest] is the rest of the object. *)
Record Object {R : Type} := mkObject {
  ob_Namespace : string; ob_Name : string; ob_Labels : option (gmap string string); ob_Template : option (option (gmap string string));
  ob_RunStrategy : option string; ob_Rest : R }.
Arguments Object : clear implicits.
Arguments mkObject {R}.

(** [utils.Transform] to the Go type of a kind: [json.Unmarshal] of [json.Marshal] of the object, which
    keeps its metadata. *)
Class CollectorLib (R : Type) := { TransformRest : Kind → R → option R }.

Inductive Request {R : Type} :=
  | ListObjects (kind : Kind)
  | SetCachedLabels (kind : Kind) (namespace name : string) (labels : gmap string string)
  | GetNamespaceObject (name : string)
  | UpdateObject (kind : Kind) (namespace : option string) (o : Object R)
  | DeleteObject (kind : Kind) (namespace : option string) (name : string)
  | Now
  | ContextDone
  | Sleep (duration : Z)
  | Alert (processType errorType resourceType namespace : string).
Arguments Request : clear implicits.

(** [ListObjects] are the objects of the cache of an informer, in which [SetLabels] writes. *)
Definition Reply {R} (q : Request R) : Type :=
  match q with
  | ListObjects _ => list (Object R)
  | GetNamespaceObject _ => result OpError (Object R)
  | UpdateObject _ _ _ | DeleteObject _ _ _ => result OpError unit
  | Now => Z
  | ContextDone => bool
  | SetCachedLabels _ _ _ _ | Sleep _ | Alert _ _ _ _ => unit
  end.

Section collector.
Context {R : Type} {CL : CollectorLib R}.
Context (LabelMarkKey SpxPrefix : string) (Debug : bool) (Delay : Z) (zone : Z → Z).
Abbreviation Action A := (Thread (@Reply R) A).
Abbreviation ask q := (call (Reply:=@Reply R) q).

Definition label (o : Object R) (key : string) : string :=
  match ob_Labels o with Some labels => default EmptyString (labels !! key) | None => EmptyString end.

Definition set_labels (labels : gmap string string) (o : Object R) : Object R :=
  mkObject (ob_Namespace o) (ob_Name o) (Some labels) (ob_Template o) (ob_RunStrategy o) (ob_Rest o).

Definition Transform (kind : Kind) (o : Object R) : option (Object R) :=
  rest ← TransformRest kind (ob_Rest o);
  Some (mkObject (ob_Namespace o) (ob_Name o) (ob_Labels o) (ob_Template o) (ob_RunStrategy o) rest).

(** ** Informers and alerts *)

(** Both list methods answer no error. *)
Definition ListMarkedResource (kind : Kind) : Action (result OpError (list (Object R))) :=
  list ← ask (ListObjects kind); mret (Ok (filter (λ o, label o LabelMarkKey ≠ EmptyString) list)).

Definition ListNamespaceResource (kind : Kind) (namespace : string) : Action (result OpError (list (Object R))) :=
  list ← ask (ListObjects kind); mret (Ok (filter (λ o, label o SpxLabelProjectID = namespace) list)).

Definition ProcessLabeling : string := "labeling".
Definition ProcessCleaning : string := "cleaning".
Definition ErrorListing : string := "listing".
Definition ErrorLabeling : string := "labeling".
Definition ErrorCleaning : string := "cleaning".
Definition ErrorParsing : string := "parsing".

Definition RaiseAlert (processType errorType resourceType : string) (resource : option (Object R)) : Action unit :=
  ask (Alert processType errorType resourceType
    (match resource with Some o => label o SpxLabelProjectID | None => EmptyString end)).

(** Whether the date of the mark has passed. *)
Definition ParseTimestamp (o : Object R) : Action (result OpError bool) :=
  let deletionTimestamp := label o LabelMarkKey in
  if decide (deletionTimestamp ≠ EmptyString) then
    match ParseTime deletionTimestamp with
    | None => mret (Err (Errorf "parsing time"))
    | Some date => now ← ask Now; mret (Ok (bool_decide (date < now)))
    end
  else mret (Err (Errorf "no timestamp found")).

(** ** One kind of objects ([ssh.go], and the same code for ten other kinds) *)

(** The loop of [Clean]. *)
Fixpoint cleanItems (resourceType : string) (delete : Object R → Action (result OpError unit))
    (resources : list (Object R)) : Action unit :=
  match resources with
  | [] => mret tt
  | item :: resources =>
    ok ← ParseTimestamp item;
    _ ← match ok with
        | Err _ => RaiseAlert ProcessCleaning ErrorParsing resourceType (Some item)
        | Ok true =>
          if Debug then mret tt else
          err ← delete item;
          match err with
          | Err _ => RaiseAlert ProcessCleaning ErrorCleaning resourceType (Some item)
          | Ok _ => mret tt
          end
        | Ok false => mret tt
        end;
    cleanItems resourceType delete resources
  end.

Definition cleanKind (kind : Kind) (resourceType : string) (delete : Object R → Action (result OpError unit)) :
    Action (result OpError unit) :=
  resources ← ListMarkedResource kind;
  match resources with
  | Err e => mret (Err e)
  | Ok resources => _ ← cleanItems resourceType delete resources; mret (Ok tt)
  end.

(** The loop of [Mark] stops at the first error. *)
Fixpoint markItems (mark : Object R → Action (result OpError unit)) (resources : list (Object R)) :
    Action (result OpError unit) :=
  match resources with
  | [] => mret (Ok tt)
  | item :: resources =>
    err ← mark item;
    match err with Err e => mret (Err e) | Ok _ => markItems mark resources end
  end.

(** One object is marked: its label is set in the cache, then on the server. A nil map cannot be written.
    [complete] is what the kind adds. *)
Definition markItem (kind : Kind) (resourceType timestamp : string)
    (complete : gmap string string → Object R → option (Object R))
    (update : Object R → Object R → Action (result OpError unit)) (item : Object R) : Action (result OpError unit) :=
  match ob_Labels item with
  | None => Panic
  | Some labels =>
    let labels := <[LabelMarkKey := timestamp]> labels in
    _ ← ask (SetCachedLabels kind (ob_Namespace item) (ob_Name item) labels);
    let item := set_labels labels item in
    match Transform kind item with
    | None =>
      _ ← RaiseAlert ProcessLabeling ErrorLabeling resourceType (Some item);
      mret (Err (Errorf "failed to transform item"))
    | Some typed =>
      match complete labels typed with
      | None => Panic
      | Some typed =>
        err ← update item typed;
        match err with
        | Err _ =>
          _ ← RaiseAlert ProcessLabeling ErrorLabeling resourceType (Some item);
          mret (Err (Errorf "failed to mark item"))
        | Ok _ => mret (Ok tt)
        end
      end
    end
  end.

Definition markKind (kind : Kind) (resourceType : string) (complete : gmap string string → Object R → option (Object R))
    (update : Object R → Object R → Action (result OpError unit)) (namespace timestamp : string) :
    Action (result OpError unit) :=
  resources ← ListNamespaceResource kind namespace;
  match resources with
  | Err e => mret (Err e)
  | Ok resources => markItems (markItem kind resourceType timestamp complete update) resources
  end.

(** The kinds whose objects are in a namespace, and the others. *)
Definition deleteIn (kind : Kind) (item : Object R) : Action (result OpError unit) :=
  ask (DeleteObject kind (Some (ob_Namespace item)) (ob_Name item)).
Definition deleteCluster (kind : Kind) (item : Object R) : Action (result OpError unit) :=
  ask (DeleteObject kind None (ob_Name item)).
Definition updateIn (kind : Kind) (item typed : Object R) : Action (result OpError unit) :=
  ask (UpdateObject kind (Some (ob_Namespace item)) typed).
Definition updateCluster (kind : Kind) (_ typed : Object R) : Action (result OpError unit) :=
  ask (UpdateObject kind None typed).

Definition unchanged (_ : gmap string string) (o : Object R) : option (Object R) := Some o.

(** [Cleaner] *)
Record Cleaner := mkCleaner {
  ResourceType : string; Clean : Action (result OpError unit); Mark : string → string → Action (result OpError unit) }.

(** ** The cleaners *)

Definition ssh_Clean (type : string) := cleanKind KSSH type (deleteIn KSSH).
Definition ssh_Mark (type : string) := markKind KSSH type unchanged (updateIn KSSH).
Definition ssh_Cleaner (type : string) : Cleaner := mkCleaner type (ssh_Clean type) (ssh_Mark type).

Definition pvc_Clean (type : string) := cleanKind KPersistentVolumeClaims type (deleteIn KPersistentVolumeClaims).
Definition pvc_Mark (type : string) := markKind KPersistentVolumeClaims type unchanged (updateIn KPersistentVolumeClaims).
Definition pvc_Cleaner (type : string) : Cleaner := mkCleaner type (pvc_Clean type) (pvc_Mark type).

Definition volumeSnapshot_Clean (type : string) := cleanKind KVolumeSnapshot type (deleteIn KVolumeSnapshot).
Definition volumeSnapshot_Mark (type : string) := markKind KVolumeSnapshot type unchanged (updateIn KVolumeSnapshot).
Definition volumeSnapshot_Cleaner (type : string) : Cleaner := mkCleaner type (volumeSnapshot_Clean type) (volumeSnapshot_Mark type).

Definition netpol_Clean (type : string) := cleanKind KNetworkPolicy type (deleteIn KNetworkPolicy).
Definition netpol_Mark (type : string) := markKind KNetworkPolicy type unchanged (updateIn KNetworkPolicy).
Definition netpol_Cleaner (type : string) : Cleaner := mkCleaner type (netpol_Clean type) (netpol_Mark type).

Definition datavolume_Clean (type : string) := cleanKind KDataVolume type (deleteIn KDataVolume).
Definition datavolume_Mark (type : string) := markKind KDataVolume type unchanged (updateIn KDataVolume).
Definition datavolume_Cleaner (type : string) : Cleaner := mkCleaner type (datavolume_Clean type) (datavolume_Mark type).

Definition vmSnapshot_Clean (type : string) := cleanKind KVirtualMachineSnapshot type (deleteIn KVirtualMachineSnapshot).
Definition vmSnapshot_Mark (type : string) := markKind KVirtualMachineSnapshot type unchanged (updateIn KVirtualMachineSnapshot).
Definition vmSnapshot_Cleaner (type : string) : Cleaner := mkCleaner type (vmSnapshot_Clean type) (vmSnapshot_Mark type).

Definition loadbalancer_Clean (type : string) := cleanKind KSwitchLBRules type (deleteCluster KSwitchLBRules).
Definition loadbalancer_Mark (type : string) := markKind KSwitchLBRules type unchanged (updateCluster KSwitchLBRules).
Definition loadbalancer_Cleaner (type : string) : Cleaner := mkCleaner type (loadbalancer_Clean type) (loadbalancer_Mark type).

Definition vpc_Clean (type : string) := cleanKind KVPC type (deleteCluster KVPC).
Definition vpc_Mark (type : string) := markKind KVPC type unchanged (updateCluster KVPC).
Definition vpc_Cleaner (type : string) : Cleaner := mkCleaner type (vpc_Clean type) (vpc_Mark type).

(** A virtual machine is also stopped, and the labels of its template are set. *)
Definition RunStrategyHalted : string := "Halted".

Definition haltVM (labels : gmap string string) (vm : Object R) : option (Object R) :=
  match ob_Template vm with
  | None => None
  | Some _ => Some (mkObject (ob_Namespace vm) (ob_Name vm) (ob_Labels vm) (Some (Some labels)) (Some RunStrategyHalted) (ob_Rest vm))
  end.

Definition vm_Clean (type : string) := cleanKind KVirtualMachine type (deleteIn KVirtualMachine).
Definition vm_Mark (type : string) := markKind KVirtualMachine type haltVM (updateIn KVirtualMachine).
Definition vm_Cleaner (type : string) : Cleaner := mkCleaner type (vm_Clean type) (vm_Mark type).

(** A bucket claim is marked on a copy of the cached object. *)
Definition obc_markItem (type timestamp : string) (item : Object R) : Action (result OpError unit) :=
  match ob_Labels item with
  | None => Panic
  | Some labels =>
    err ← updateIn KObjectBucketClaim item (set_labels (<[LabelMarkKey := timestamp]> labels) item);
    match err with
    | Err _ =>
      _ ← RaiseAlert ProcessLabeling ErrorLabeling type (Some item);
      mret (Err (Errorf "failed to mark item"))
    | Ok _ => mret (Ok tt)
    end
  end.

Definition obc_Clean (type : string) := cleanKind KObjectBucketClaim type (deleteIn KObjectBucketClaim).

Definition obc_Mark (type namespace timestamp : string) : Action (result OpError unit) :=
  resources ← ListNamespaceResource KObjectBucketClaim namespace;
  match resources with
  | Err e => mret (Err e)
  | Ok resources => markItems (obc_markItem type timestamp) resources
  end.

Definition obc_Cleaner (type : string) : Cleaner := mkCleaner type (obc_Clean type) (obc_Mark type).

(** The namespace of the project is read from the server, and may be gone. *)
Definition namespace_Clean (type : string) := cleanKind KNamespace type (deleteCluster KNamespace).

Definition namespace_Mark (type namespace timestamp : string) : Action (result OpError unit) :=
  resource ← ask (GetNamespaceObject namespace);
  match resource with
  | Err err => if op_IsNotFound err then mret (Ok tt) else mret (Err err)
  | Ok resource =>
    match ob_Labels resource with
    | None => Panic
    | Some labels =>
      let resource := set_labels (<[LabelMarkKey := timestamp]> labels) resource in
      err ← updateCluster KNamespace resource resource;
      match err with
      | Err _ =>
        _ ← RaiseAlert ProcessLabeling ErrorLabeling type (Some resource);
        mret (Err (Errorf "failed to mark item"))
      | Ok _ => mret (Ok tt)
      end
    end
  end.

Definition namespace_Cleaner (type : string) : Cleaner := mkCleaner type (namespace_Clean type) (namespace_Mark type).

(** A deletion of what may not be there. *)
Definition isGone (r : result OpError unit) : bool :=
  match r with Ok _ => true | Err e => op_IsNotFound e end.

(** A subnet is deleted after the attachment definition and the NAT gateway of its name. *)
Definition deleteSubnet (item : Object R) : Action (result OpError unit) :=
  err ← ask (DeleteObject KNAD (Some EmptyString) (ob_Name item));
  if negb (isGone err) then mret err else
  err ← ask (DeleteObject KNatGw None (ob_Name item));
  if negb (isGone err) then mret err else
  ask (DeleteObject KSubnet None (ob_Name item)).

Definition subnet_Clean (type : string) := cleanKind KSubnet type deleteSubnet.

(** [Mark] of the kinds in turn, up to the first error. *)
Fixpoint markKinds (marks : list (string → string → Action (result OpError unit))) (namespace timestamp : string) :
    Action (result OpError unit) :=
  match marks with
  | [] => mret (Ok tt)
  | mark :: marks =>
    err ← mark namespace timestamp;
    match err with Err e => mret (Err e) | Ok _ => markKinds marks namespace timestamp end
  end.

Definition subnet_Mark (type : string) := markKinds [
  markKind KNAD type unchanged (updateIn KNAD);
  markKind KNatGw type unchanged (updateCluster KNatGw);
  markKind KSubnet type unchanged (updateCluster KSubnet)].

Definition subnet_Cleaner (type : string) : Cleaner := mkCleaner type (subnet_Clean type) (subnet_Mark type).

(** The loop of [ListMarkedDnat]: the marked rules, of any address, whose date has passed. *)
Fixpoint expiredItems (type : string) (resources : list (Object R)) : Action (list (Object R)) :=
  match resources with
  | [] => mret []
  | item :: resources =>
    ok ← ParseTimestamp item;
    match ok with
    | Err _ =>
      _ ← RaiseAlert ProcessCleaning ErrorParsing type (Some item);
      expiredItems type resources
    | Ok ok => items ← expiredItems type resources; mret (if ok : bool then item :: items else items)
    end
  end.

Definition ListMarkedDnat (type : string) : Action (result OpError (list (Object R))) :=
  dnatList ← ListMarkedResource KDNAT;
  match dnatList with
  | Err err => if op_IsNotFound err then mret (Ok []) else mret (Err err)
  | Ok dnatList => items ← expiredItems type dnatList; mret (Ok items)
  end.

Fixpoint deleteDnats (dnats : list (Object R)) : Action (result OpError unit) :=
  match dnats with
  | [] => mret (Ok tt)
  | dnat :: dnats =>
    err ← ask (DeleteObject KDNAT None (ob_Name dnat));
    match err with Err e => mret (Err e) | Ok _ => deleteDnats dnats end
  end.

(** An address is deleted after the rules of its name and the expired port forwardings. *)
Definition deleteEIP (type : string) (item : Object R) : Action (result OpError unit) :=
  err ← ask (DeleteObject KFIP None (ob_Name item));
  if negb (isGone err) then mret err else
  err ← ask (DeleteObject KSNAT None (ob_Name item));
  if negb (isGone err) then mret err else
  dnatList ← ListMarkedDnat type;
  match dnatList with
  | Err err => mret (Err err)
  | Ok dnatList =>
    err ← deleteDnats dnatList;
    match err with
    | Err err => mret (Err err)
    | Ok _ => _ ← ask (Sleep second); ask (DeleteObject KEIP None (ob_Name item))
    end
  end.

Definition eip_Clean (type : string) := cleanKind KEIP type (deleteEIP type).

Definition eip_Mark (type : string) := markKinds [
  markKind KEIP type unchanged (updateCluster KEIP); markKind KFIP type unchanged (updateCluster KFIP);
  markKind KSNAT type unchanged (updateCluster KSNAT); markKind KDNAT type unchanged (updateCluster KDNAT)].

Definition eip_Cleaner (type : string) : Cleaner := mkCleaner type (eip_Clean type) (eip_Mark type).

(** ** The collection ([pkg/gc/gc.go]) *)

Definition cleanersLvl1 : list Cleaner :=
  [vm_Cleaner "VirtualMachine"; vmSnapshot_Cleaner "VirtualMachineSnapshot"; eip_Cleaner "EIP (FIP + SNAT + DNAT)";
   ssh_Cleaner "SSH Key"; loadbalancer_Cleaner "Load Balancer"; netpol_Cleaner "Network Policy"].

Definition cleanersLvl2 : list Cleaner :=
  [subnet_Cleaner "Subnet (NAD + NatGW)"; datavolume_Cleaner "DataVolume"; volumeSnapshot_Cleaner "Volume Snapshot";
   obc_Cleaner "ObjectBucketClaim"].

Definition cleanersLvl3 : list Cleaner :=
  [pvc_Cleaner "PVC"; vpc_Cleaner "VPC"; namespace_Cleaner "Namespace"].

(** What the goroutine of a cleaner runs. *)
Definition cleaning (cleaner : Cleaner) : Action unit :=
  err ← Clean cleaner;
  match err with
  | Err _ => RaiseAlert ProcessCleaning ErrorListing (ResourceType cleaner) None
  | Ok _ => mret tt
  end.

Fixpoint cleaningAll (cleaners : list Cleaner) : Action unit :=
  match cleaners with
  | [] => mret tt
  | cleaner :: cleaners => _ ← cleaning cleaner; cleaningAll cleaners
  end.

Definition goroutine (a : Action unit) : Action (result OpError unit) := _ ← a; mret (Ok tt).

(** Goes on if the context is not done, after a minute. *)
Definition nextLevel (next : Main (@Reply R) bool) : Main (@Reply R) bool :=
  MCall (Reply:=@Reply R) ContextDone (λ done : bool,
    if done then MRet' false else MCall (Reply:=@Reply R) (Sleep (60 * second)) (λ _, next)).

(** Whether [processDone] is sent. The cleaners of the last level run one after the other. *)
Definition garbageCollection : Main (@Reply R) bool :=
  MWait (goroutine ∘ cleaning <$> cleanersLvl1) (λ _, nextLevel (
  MWait (goroutine ∘ cleaning <$> cleanersLvl2) (λ _, nextLevel (
  MWait [goroutine (cleaningAll cleanersLvl3)] (λ _, MRet' true))))).

(** ** The marking ([pkg/api/gc/gc.go]) *)

Definition markCleaners : list Cleaner := cleanersLvl1 ++ cleanersLvl2 ++ cleanersLvl3.

Definition marking (namespaceValue deletionTimestamp : string) (cleaner : Cleaner) : Action (result OpError unit) :=
  err ← Mark cleaner namespaceValue deletionTimestamp;
  match err with
  | Err _ =>
    _ ← RaiseAlert ProcessLabeling ErrorListing (ResourceType cleaner) None;
    mret (Err (Errorf "failed to mark item"))
  | Ok _ => mret (Ok tt)
  end.

(** [errgroup.Group.Wait]: an error, if there is one. *)
Fixpoint Wait (rs : list (result OpError unit)) : result OpError unit :=
  match rs with [] => Ok tt | Err e :: _ => Err e | Ok _ :: rs => Wait rs end.

(** The date is in the zone of the process. *)
Definition deletionDate (now : Z) : string := FormatTime (zone (now + Delay)) (now + Delay).

Definition deletionLabeling (namespaceValue : string) : Main (@Reply R) (result OpError unit) :=
  MCall (Reply:=@Reply R) Now (λ now : Z,
    MWait (marking namespaceValue (deletionDate now) <$> markCleaners) (λ rs, MRet' (Wait rs))).

(** The status of the response. *)
Definition MarkForDeletion (projectId : string) : Main (@Reply R) Z :=
  main_map (λ err, match err with Err _ => 500 | Ok _ => 200 end) (deletionLabeling (GetNamespace SpxPrefix projectId)).
End collector.
