(* ===== verification/CollectorTheorems.v ===== *)
(** * What the garbage collector deletes, and when

    [holds] is what a goroutine does whatever the replies it gets and the events of the other goroutines of
    its group, which are only known to satisfy the guarantee [G] that they all give (rely-guarantee). The
    collection deletes what is marked, after its date, level after level; the marking writes the mark on
    the objects of the project and nothing else, and answers 200 when all of them have it. *)

From stdpp Require Import sorting.
From S2P Require Import Prelude Strings Strconv Quantity SpxId ControllerQuota Operator Timestamps Collector.

(** ** Rely-guarantee for goroutines *)
Section rules.
Context {Q : Type} {Reply : Q → Type}.
Abbreviation History := (list (Event Reply)).
Implicit Types h : History.

(** Each request is allowed after the events before it. *)
Definition obeys (P : History → Q → Prop) (h tr : History) : Prop :=
  ∀ before e after, tr = before ++ e :: after → P (h ++ before) (ev_Request e).

Definition guaranteed (G : Q → Prop) (h : History) : Prop := Forall (λ e, G (ev_Request e)) h.

Lemma obeys_cons P h e tr : P h (ev_Request e) → obeys P (h ++ [e]) tr → obeys P h (e :: tr).
Proof.
  intros He H [|e' before] e0 after; cbn; intros [= <- ->]; [by rewrite app_nil_r|].
  change (h ++ e :: before) with (h ++ [e] ++ before). rewrite app_assoc. by eapply H.
Qed.

Section thread.
Context (panics : Prop) (G : Q → Prop) (P : History → Q → Prop).

(** The goroutine makes requests that [P] allows and that keep [G], and ends in [Φ]; it may panic if [panics]. *)
Fixpoint holds {A} (t : Thread Reply A) h (Φ : A → History → Prop) : Prop :=
  match t with
  | Ret a => Φ a h
  | Panic => panics
  | Call q k => G q ∧ ∀ others, guaranteed G others →
      P (h ++ others) q ∧ ∀ r, holds (k r) (h ++ others ++ [mkEvent q r]) Φ
  end.

Lemma holds_mono {A} (t : Thread Reply A) h (Φ Ψ : A → History → Prop) :
  (∀ a h', Φ a h' → Ψ a h') → holds t h Φ → holds t h Ψ.
Proof.
  intros HΦ. revert h. induction t as [a| |q k IH]; intros h; cbn; [apply HΦ|done|].
  intros [HG Hq]. split; [done|]. intros others Ho. destruct (Hq others Ho) as [HP Hr]. split; [done|].
  intros r. apply IH, Hr.
Qed.

Lemma holds_bind {A B} (t : Thread Reply A) (f : A → Thread Reply B) h Φ :
  holds t h (λ a h', holds (f a) h' Φ) → holds (t ≫= f) h Φ.
Proof.
  revert h. induction t as [a| |q k IH]; intros h; cbn; [done..|].
  intros [HG Hq]. split; [done|]. intros others Ho. destruct (Hq others Ho) as [HP Hr]. split; [done|].
  intros r. apply IH, Hr.
Qed.

Lemma holds_ret {A} (a : A) h (Φ : A → History → Prop) : Φ a h → holds (mret a) h Φ.
Proof. done. Qed.

Lemma holds_call q h (Φ : Reply q → History → Prop) :
  G q → (∀ others, guaranteed G others → P (h ++ others) q ∧ ∀ r, Φ r (h ++ others ++ [mkEvent q r])) →
  holds (call q) h Φ.
Proof. done. Qed.

Lemma holds_extends {A} (t : Thread Reply A) h Φ :
  holds t h Φ → holds t h (λ a h', Φ a h' ∧ h `prefix_of` h').
Proof.
  assert (∀ h0, h0 `prefix_of` h → holds t h Φ → holds t h (λ a h', Φ a h' ∧ h0 `prefix_of` h')) as H; [|by apply H].
  intros h0. revert h. induction t as [a| |q k IH]; intros h Hp; cbn; [done..|].
  intros [HG Hq]. split; [done|]. intros others Ho. destruct (Hq others Ho) as [HP Hr]. split; [done|].
  intros r. apply IH; [by apply prefix_app_r|apply Hr].
Qed.

Lemma holds_then {A B} (t : Thread Reply A) (f : A → Thread Reply B) h (Ψ : A → History → Prop) Φ :
  holds t h Ψ → (∀ a h', Ψ a h' → h `prefix_of` h' → holds (f a) h' Φ) → holds (t ≫= f) h Φ.
Proof.
  intros Ht Hf. apply holds_bind. eapply holds_mono; [|by apply holds_extends]. intros a h' [? ?]. by apply Hf.
Qed.

(** The request has been made. *)
Definition requested h (q : Q) : Prop := ∃ r, mkEvent q r ∈ h.

Lemma requested_prefix h h' q : h `prefix_of` h' → requested h q → requested h' q.
Proof. intros [tr ->] [r Hr]. exists r. apply elem_of_app. by left. Qed.

Lemma requested_snoc h q r : requested (h ++ [mkEvent q r]) q.
Proof. exists r. apply elem_of_app. right. by left. Qed.

Lemma holds_requested {A} (t : Thread Reply A) h q :
  requested h q → holds t h (λ _ _, True) → holds t h (λ _ h', requested h' q).
Proof.
  intros Hq Ht. eapply holds_mono; [|by apply holds_extends]. intros a h' [_ Hp]. by eapply requested_prefix.
Qed.

(** What the other goroutines do can be put before. *)
Lemma holds_after {A} (t : Thread Reply A) h others (Φ : A → History → Prop) :
  (∀ a h1 h2, guaranteed G h2 → Φ a h1 → Φ a (h1 ++ h2)) → guaranteed G others →
  holds t h Φ → holds t (h ++ others) Φ.
Proof.
  intros HΦ Ho. destruct t as [a| |q k]; cbn; [by apply HΦ|done|].
  intros [HG Hq]. split; [done|]. intros others' Ho'.
  destruct (Hq (others ++ others')) as [HP Hr]; [by apply Forall_app|].
  rewrite app_assoc in HP. split; [done|]. intros r. specialize (Hr r). rewrite <-app_assoc in Hr. by rewrite <-app_assoc.
Qed.
End thread.

(** What the postconditions of a group are stable under. *)
Definition stable (G : Q → Prop) (Ψ : result OpError unit → History → Prop) : Prop :=
  ∀ a h1 h2, guaranteed G h2 → Ψ a h1 → Ψ a (h1 ++ h2).

(** An invariant of the events may be used to allow a request. *)
Lemma holds_invariant {A} (panics : Prop) (G : Q → Prop) (P P' : History → Q → Prop) (I : History → Prop) (t : Thread Reply A) h Φ :
  (∀ h tr, guaranteed G tr → I h → I (h ++ tr)) → (∀ h q, I h → G q → P h q → P' h q) → I h →
  holds panics G P t h Φ → holds panics G P' t h Φ.
Proof.
  intros HI HP. revert h. induction t as [a| |q k IH]; intros h Hh; cbn; [done..|].
  intros [HG Hq]. split; [done|]. intros others Ho. destruct (Hq others Ho) as [Hp Hr]. split; [by eauto|].
  intros r. apply IH; [|apply Hr]. apply HI; [|done]. apply Forall_app. by repeat constructor.
Qed.

(** A program whose requests are allowed by [P]; each group of goroutines has its guarantee. *)
Fixpoint main_holds (panics : Prop) (P : History → Q → Prop) {A} (m : Main Reply A) h (Φ : A → History → Prop) : Prop :=
  match m with
  | MRet' a => Φ a h
  | MCall q k => P h q ∧ ∀ r, main_holds panics P (k r) (h ++ [mkEvent q r]) Φ
  | MWait ts k => ∃ (G : Q → Prop) (Ψs : list (result OpError unit → History → Prop)),
      Forall (stable G) Ψs ∧
      Forall2 (λ t Ψ, holds panics G P t h Ψ) ts Ψs ∧
      ∀ rs tr, guaranteed G tr → Forall2 (λ r (Ψ : _ → _ → Prop), Ψ r (h ++ tr)) rs Ψs → main_holds panics P (k rs) (h ++ tr) Φ
  end.

Lemma group_after panics G P ts Ψs h others :
  Forall (stable G) Ψs → guaranteed G others →
  Forall2 (λ t Ψ, holds panics G P t h Ψ) ts Ψs → Forall2 (λ t Ψ, holds panics G P t (h ++ others) Ψ) ts Ψs.
Proof.
  intros Hs Ho H. induction H as [|t Ψ ts Ψs Ht _ IH]; inversion Hs; subst; constructor; [by apply holds_after|auto].
Qed.

Lemma main_holds_mono panics P {A} (m : Main Reply A) h (Φ Ψ : A → History → Prop) :
  (∀ a h', Φ a h' → Ψ a h') → main_holds panics P m h Φ → main_holds panics P m h Ψ.
Proof.
  intros HΦ. revert h. induction m as [a|q k IH|ts k IH]; intros h; cbn; [apply HΦ| |].
  - intros [HP Hk]. split; [done|]. intros r. apply IH, Hk.
  - intros (G & Ψs & ? & ? & Hk). exists G, Ψs. split_and!; [done..|]. intros rs tr Htr Hrs. by apply IH, Hk.
Qed.

Lemma main_holds_extends panics P {A} (m : Main Reply A) h Φ :
  main_holds panics P m h Φ → main_holds panics P m h (λ a h', Φ a h' ∧ h `prefix_of` h').
Proof.
  assert (∀ h0, h0 `prefix_of` h → main_holds panics P m h Φ → main_holds panics P m h (λ a h', Φ a h' ∧ h0 `prefix_of` h')) as H;
    [|by apply H]. intros h0. revert h. induction m as [a|q k IH|ts k IH]; intros h Hp; cbn; [done| |].
  - intros [HP Hk]. split; [done|]. intros r. apply IH; [by apply prefix_app_r|apply Hk].
  - intros (G & Ψs & ? & ? & Hk). exists G, Ψs. split_and!; [done..|]. intros rs tr Htr Hrs.
    apply IH; [by apply prefix_app_r|by apply Hk].
Qed.

Lemma main_bind_holds panics P {A B} (m : Main Reply A) (f : A → Main Reply B) h (Ψ : A → History → Prop) (Φ : B → History → Prop) :
  main_holds panics P m h Ψ → (∀ a h', h `prefix_of` h' → Ψ a h' → main_holds panics P (f a) h' Φ) →
  main_holds panics P (main_bind m f) h Φ.
Proof.
  intros Hm%main_holds_extends Hf.
  assert (main_holds panics P m h (λ a h', main_holds panics P (f a) h' Φ)) as H.
  { eapply main_holds_mono; [|exact Hm]. intros a h' [? ?]. by apply Hf. }
  clear Hm Hf. revert h H. induction m as [a|q k IH|ts k IH]; intros h; cbn; [done| |].
  - intros [HP Hk]. split; [done|]. intros r. apply IH, Hk.
  - intros (G & Ψs & ? & ? & Hk). exists G, Ψs. split_and!; [done..|]. intros rs tr Htr Hrs. by apply IH, Hk.
Qed.

Lemma main_map_holds {A B} panics P (f : A → B) (m : Main Reply A) h (Φ : B → History → Prop) :
  main_holds panics P m h (λ a, Φ (f a)) → main_holds panics P (main_map f m) h Φ.
Proof.
  revert h. induction m as [a|q k IH|ts k IH]; intros h; cbn; [done| |].
  - intros [HP Hk]. split; [done|]. intros r. apply IH, Hk.
  - intros (G & Ψs & ? & ? & Hk). exists G, Ψs. split_and!; [done..|]. intros rs tr Htr Hrs. by apply IH, Hk.
Qed.

Lemma Forall2_insert_l_eq {A B} (R : A → B → Prop) l k i x y :
  Forall2 R l k → k !! i = Some y → R x y → Forall2 R (<[i := x]> l) k.
Proof.
  intros H Hy Hx. revert i Hy. induction H as [|a b l k Hab H IH]; intros [|i] Hy; simplify_eq/=; constructor; auto.
Qed.

Lemma group_done panics G P h rs Ψs : Forall2 (λ (t : Thread Reply (result OpError unit)) Ψ, holds panics G P t h Ψ) (Ret <$> rs) Ψs → Forall2 (λ (r : result OpError unit) (Ψ : _ → _ → Prop), Ψ r h) rs Ψs.
Proof. intros H. rewrite Forall2_fmap_l in H. done. Qed.

(** The requests of a run are allowed, and what is left of the program does what is left to do. *)
Lemma runs_holds panics P {A} (m m' : Main Reply A) tr h Φ :
  runs m tr m' → main_holds panics P m h Φ → obeys P h tr ∧ main_holds panics P m' (h ++ tr) Φ.
Proof.
  intros Hr. revert h. induction Hr as [m|q k r tr m _ IH|ts i q k' k r tr m Hi _ IH|rs k tr m _ IH]; intros h.
  - rewrite app_nil_r. split; [|done]. intros before e after Heq. by destruct before.
  - intros [HP Hk]. destruct (IH _ (Hk r)) as [Ho Hm]. rewrite <-app_assoc in Hm. split; [|done].
    by apply obeys_cons.
  - intros (G & Ψs & Hstable & Hts & Hk).
    destruct (Forall2_lookup_l _ _ _ _ _ Hts Hi) as (Ψ & HΨ & HG & Hcall).
    destruct (Hcall [] ltac:(constructor)) as [HP Hnext]. cbn in Hnext. rewrite app_nil_r in HP.
    destruct (IH (h ++ [mkEvent q r])) as [Ho Hm].
    { exists G, Ψs. split_and!; [done| |].
      - eapply Forall2_insert_l_eq; [|done|by apply Hnext]. apply group_after; [done|by repeat constructor|done].
      - intros rs tr' Htr Hrs. rewrite <-app_assoc in *. apply Hk; [by constructor|done]. }
    rewrite <-app_assoc in Hm. split; [|done]. by apply obeys_cons.
  - intros (G & Ψs & Hstable & Hts & Hk). apply IH. rewrite <-(app_nil_r h). apply Hk; [constructor|].
    rewrite app_nil_r. by eapply group_done.
Qed.

(** ** Every execution ends *)

Definition thread_lt {A} (t' t : Thread Reply A) : Prop :=
  match t with Call q k => ∃ r, t' = k r | _ => False end.

Definition pool_lt {A} (ts' ts : list (Thread Reply A)) : Prop :=
  ∃ i t t', ts !! i = Some t ∧ thread_lt t' t ∧ ts' = <[i := t']> ts.

Lemma thread_acc {A} (t : Thread Reply A) : Acc thread_lt t.
Proof. induction t as [a| |q k IH]; constructor; [by intros ?..|]. by intros t' [r ->]. Qed.

Lemma pool_acc_cons {A} (t : Thread Reply A) ts : Acc pool_lt ts → Acc pool_lt (t :: ts).
Proof.
  revert ts. induction (thread_acc t) as [t _ IHt]. intros ts Hts. induction Hts as [ts Hts IHts].
  constructor. intros ts' ([|i] & x & x' & Hi & Hlt & ->); cbn in *; [simplify_eq; by apply IHt|].
  apply IHts. by exists i, x, x'.
Qed.

Lemma pool_acc {A} (ts : list (Thread Reply A)) : Acc pool_lt ts.
Proof. induction ts as [|t ts IH]; [constructor; by intros ts' (i & x & x' & Hi & _)|by apply pool_acc_cons]. Qed.

Lemma exec_ends {A} server choice (m : Main Reply A) h :
  ∃ fuel, let '(m', h') := exec server choice fuel h m in step server choice h' m' = None.
Proof.
  revert h. induction m as [a|q k IH|ts k IH]; intros h; [by exists 0%nat|by destruct (IH (server h q) (h ++ [mkEvent q (server h q)])) as [fuel Hf]; exists (S fuel)|].
  revert h. induction (pool_acc ts) as [ts _ IHts]. intros h.
  destruct (step server choice h (MWait ts k)) as [[m1 h1]|] eqn:Hs; [|by exists 0%nat].
  assert (∃ fuel, let '(m', h') := exec server choice fuel h1 m1 in step server choice h' m' = None) as [fuel Hf];
    [|exists (S fuel); cbn [exec]; by rewrite Hs].
  cbn [step] in Hs. destruct (results ts) as [rs|]; [simplify_eq; apply IH|].
  destruct (ready ts !! _) as [i|]; [|done]. cbn in Hs. destruct (ts !! i) as [[| |q k']|] eqn:Hi; simplify_eq.
  apply IHts. exists i, (Call q k'), (k' (server h q)). split_and!; [done|by eexists|done].
Qed.

Lemma results_Some {A} (ts : list (Thread Reply A)) rs : results ts = Some rs → ts = Ret <$> rs.
Proof.
  unfold results. intros H%mapM_Some. induction H as [|t r ts rs Ht _ IH]; [done|].
  destruct t; simplify_eq/=. by f_equal.
Qed.

Lemma exec_runs {A} server choice fuel (m : Main Reply A) h :
  let '(m', h') := exec server choice fuel h m in ∃ tr, h' = h ++ tr ∧ runs m tr m'.
Proof.
  revert m h. induction fuel as [|fuel IH]; intros m h; cbn [exec].
  - exists []. rewrite app_nil_r. split; [done|constructor].
  - destruct (step server choice h m) as [[m1 h1]|] eqn:Hs; [|exists []; rewrite app_nil_r; split; [done|constructor]].
    specialize (IH m1 h1). destruct (exec server choice fuel h1 m1) as [m' h']. destruct IH as (tr & -> & Hr).
    destruct m as [a|q k|ts k]; cbn [step] in Hs; [done| |].
    + simplify_eq. exists (mkEvent q (server h q) :: tr). rewrite <-app_assoc. split; [done|by constructor].
    + destruct (results ts) as [rs|] eqn:Hrs.
      { apply results_Some in Hrs as ->. simplify_eq. exists tr. split; [done|by constructor]. }
      destruct (ready ts !! _) as [i|]; [|done]. cbn in Hs. destruct (ts !! i) as [[| |q k']|] eqn:Hi; simplify_eq.
      exists (mkEvent q (server h q) :: tr). rewrite <-app_assoc. split; [done|by econstructor].
Qed.

(** A program that does not panic only stops at its end. *)
Lemma stopped_returns P {A} server choice (m : Main Reply A) h Φ :
  main_holds False P m h Φ → step server choice h m = None → ∃ a, m = MRet' a ∧ Φ a h.
Proof.
  destruct m as [a|q k|ts k]; cbn [step main_holds]; [by eexists|done|].
  intros (G & Ψs & _ & Hts & _) Hs. exfalso. destruct (results ts) as [rs|] eqn:Hrs; [done|].
  assert (∃ i, i ∈ ready ts) as [i Hi].
  { unfold results in Hrs. apply mapM_None_1, Exists_exists in Hrs as (t & [i Hi]%list_elem_of_lookup & Ht). exists i.
    unfold ready. apply list_elem_of_filter. rewrite Hi. split.
    - destruct (Forall2_lookup_l _ _ _ _ _ Hts Hi) as (Ψ & _ & Hh). by destruct t.
    - apply elem_of_seq. apply lookup_lt_Some in Hi. lia. }
  destruct (ready ts !! _) as [j|] eqn:Hj.
  - cbn in Hs. apply list_elem_of_lookup_2 in Hj. unfold ready in Hj. apply list_elem_of_filter in Hj as [Hw _].
    destruct (ts !! j) as [t|]; [|done]. by destruct t.
  - apply lookup_ge_None in Hj. destruct (ready ts) as [|j l]; [by apply not_elem_of_nil in Hi|].
    pose proof (Nat.mod_upper_bound (choice h) (length (j :: l))). cbn [length] in *. lia.
Qed.

(** Whatever the server answers and the order of the goroutines, the program ends, and ends in [Φ]. *)
Lemma holds_ends P {A} server choice (m : Main Reply A) (Φ : A → History → Prop) :
  main_holds False P m [] Φ → ∃ fuel a tr, exec server choice fuel [] m = (MRet' a, tr) ∧ runs m tr (MRet' a) ∧ Φ a tr.
Proof.
  intros H. destruct (exec_ends server choice m []) as [fuel Hf]. exists fuel.
  pose proof (exec_runs server choice fuel m []) as Hr. destruct (exec server choice fuel [] m) as [m' h'].
  destruct Hr as (tr & -> & Hr). destruct (runs_holds False P m m' tr [] Φ Hr H) as [_ Hm].
  destruct (stopped_returns P server choice m' ([] ++ tr) Φ Hm Hf) as (a & -> & Ha). by exists a, tr.
Qed.
End rules.

(** ** The collection *)
Section collection.
Context {R : Type} {CL : CollectorLib R}.
Context (LabelMarkKey : string) (Debug : bool).
Abbreviation History := (list (Event (@Reply R))).
Implicit Types (h : History) (o item : Object R).

Definition level (kind : Kind) : nat :=
  match kind with
  | KVirtualMachine | KVirtualMachineSnapshot | KEIP | KFIP | KSNAT | KDNAT | KSSH | KSwitchLBRules | KNetworkPolicy => 1
  | KSubnet | KNAD | KNatGw | KDataVolume | KVolumeSnapshot | KObjectBucketClaim => 2
  | KPersistentVolumeClaims | KVPC | KNamespace => 3
  end.

(** The object was listed, with a mark whose date is before a reading of the clock. *)
Definition lapsed h (kind : Kind) (o : Object R) : Prop := ∃ (list : list (Object R)) (date now : Z),
  mkEvent (Reply:=@Reply R) (ListObjects kind) list ∈ h ∧ o ∈ list ∧ ParseTime (label o LabelMarkKey) = Some date ∧
  mkEvent (Reply:=@Reply R) Now now ∈ h ∧ date < now.

(** What may be deleted. *)
Definition due h (kind : Kind) (scope : option string) (name : string) : Prop := ∃ o, name = ob_Name o ∧
  match kind with
  | KEIP | KFIP | KSNAT => lapsed h KEIP o ∧ scope = None
  | KDNAT => lapsed h KDNAT o ∧ scope = None ∧ ∃ eip, lapsed h KEIP eip
  | KSubnet | KNatGw => lapsed h KSubnet o ∧ scope = None
  | KNAD => lapsed h KSubnet o ∧ scope = Some EmptyString
  | KSwitchLBRules | KVPC | KNamespace => lapsed h kind o ∧ scope = None
  | _ => lapsed h kind o ∧ scope = Some (ob_Namespace o)
  end.

Definition deleted h (kind : Kind) (scope : option string) (name : string) : Prop :=
  ∃ r : result OpError unit, mkEvent (Reply:=@Reply R) (DeleteObject kind scope name) r ∈ h ∧ isGone r = true.

(** What must be gone before. *)
Definition unused h (kind : Kind) (name : string) : Prop :=
  match kind with
  | KEIP => deleted h KFIP None name ∧ deleted h KSNAT None name
  | KSubnet => deleted h KNAD (Some EmptyString) name ∧ deleted h KNatGw None name
  | _ => True
  end.

Definition at_level (n : nat) (q : Request R) : Prop :=
  match q with DeleteObject kind _ _ => level kind = n | _ => True end.
Definition below_level (n : nat) (q : Request R) : Prop :=
  match q with DeleteObject kind _ _ => (level kind < n)%nat | _ => True end.

(** The deletions of the levels below were asked for before the context was seen not to be done, a minute
    before those of the level. *)
Definition reached (n : nat) h : Prop :=
  (n = 1%nat ∧ guaranteed (at_level 1) h) ∨
  ∃ h1 h2, h = h1 ++ mkEvent (Reply:=@Reply R) ContextDone false :: mkEvent (Reply:=@Reply R) (Sleep (60 * second)) tt :: h2 ∧
    guaranteed (below_level n) h1 ∧ guaranteed (at_level n) h2.

(** What a collection may ask for. *)
Definition clean_may h (q : Request R) : Prop :=
  match q with
  | DeleteObject kind scope name => Debug = false ∧ due h kind scope name ∧ unused h kind name
  | UpdateObject _ _ _ | SetCachedLabels _ _ _ _ | GetNamespaceObject _ => False
  | ListObjects _ | Now | ContextDone | Sleep _ | Alert _ _ _ _ => True
  end.

Definition collect_may h (q : Request R) : Prop :=
  clean_may h q ∧ match q with DeleteObject kind _ _ => reached (level kind) h | _ => True end.

Lemma expired_prefix h h' kind o : h `prefix_of` h' → lapsed h kind o → lapsed h' kind o.
Proof.
  intros [tr ->] (list & date & now & ? & ? & ? & ? & ?). exists list, date, now. rewrite !elem_of_app. by split_and!; try left.
Qed.

Lemma deleted_prefix h h' kind scope name : h `prefix_of` h' → deleted h kind scope name → deleted h' kind scope name.
Proof. intros [tr ->] (r & ? & ?). exists r. rewrite elem_of_app. by split; [left|]. Qed.

Lemma due_prefix h h' kind scope name : h `prefix_of` h' → due h kind scope name → due h' kind scope name.
Proof.
  intros Hp (o & Hn & H). exists o. split; [done|].
  destruct kind; try (destruct H as [He ->]; split; [by eapply expired_prefix|done]).
  destruct H as (He & -> & eip & Heip). split_and!; [by eapply expired_prefix|done|]. exists eip. by eapply expired_prefix.
Qed.

Lemma unused_prefix h h' kind name : h `prefix_of` h' → unused h kind name → unused h' kind name.
Proof. intros Hp. destruct kind; try done; intros []; split; by eapply deleted_prefix. Qed.

(** The deletion of the object was begun. *)
Definition first_request (kind : Kind) (o : Object R) : Request R :=
  match kind with
  | KEIP => DeleteObject KFIP None (ob_Name o)
  | KSubnet => DeleteObject KNAD (Some EmptyString) (ob_Name o)
  | KSwitchLBRules | KVPC | KNamespace => DeleteObject kind None (ob_Name o)
  | _ => DeleteObject kind (Some (ob_Namespace o)) (ob_Name o)
  end.

(** For each object with a date there is a reading of the clock, which decides on its deletion. *)
Definition swept (kind : Kind) (items : list (Object R)) h : Prop :=
  ∀ o date, o ∈ items → ParseTime (label o LabelMarkKey) = Some date →
  ∃ now : Z, mkEvent (Reply:=@Reply R) Now now ∈ h ∧ (date < now → Debug = false → requested h (first_request kind o)).

Definition kind_swept (kind : Kind) h : Prop :=
  ∃ list : list (Object R), mkEvent (Reply:=@Reply R) (ListObjects kind) list ∈ h ∧ swept kind list h.

Lemma swept_prefix kind items h h' : h `prefix_of` h' → swept kind items h → swept kind items h'.
Proof.
  intros Hp H o date Ho Hdate. destruct (H o date Ho Hdate) as (now & Hnow & Hr). exists now. split.
  - destruct Hp as [tr ->]. apply elem_of_app. by left.
  - intros. eapply requested_prefix; [done|auto].
Qed.

Lemma kind_swept_prefix kind h h' : h `prefix_of` h' → kind_swept kind h → kind_swept kind h'.
Proof.
  intros Hp (list & Hl & Hs). exists list. split; [|by eapply swept_prefix]. destruct Hp as [tr ->]. apply elem_of_app. by left.
Qed.

(** A cleaner of the kind, at its level. *)
Definition cleans (n : nat) (kind : Kind) {A} (t : Thread (@Reply R) A) : Prop :=
  ∀ h, holds False (at_level n) clean_may t h (λ _ h', kind_swept kind h').

Section levels.
Context (n : nat).
Abbreviation holds' t h Φ := (holds False (at_level n) clean_may t h Φ).

(** A request that deletes nothing. *)
Lemma harmless (q : Request R) h (Φ : Reply q → History → Prop) :
  match q with ListObjects _ | Now | ContextDone | Sleep _ | Alert _ _ _ _ => True | _ => False end →
  (∀ h' r, h `prefix_of` h' → Φ r (h' ++ [mkEvent q r])) → holds' (call q) h Φ.
Proof.
  intros Hq HΦ. apply holds_call; [by destruct q|]. intros others _. split; [by destruct q|].
  intros r. rewrite app_assoc. apply HΦ. by eexists.
Qed.

Lemma alert_holds process error type resource h (Φ : unit → History → Prop) :
  (∀ h', Φ tt h') → holds' (RaiseAlert process error type resource) h Φ.
Proof. intros H. apply harmless; [done|]. intros h' [] _. apply H. Qed.

Lemma ParseTimestamp_holds o h :
  holds' (ParseTimestamp LabelMarkKey o) h (λ r h',
    match ParseTime (label o LabelMarkKey) with
    | Some date => ∃ now : Z, mkEvent (Reply:=@Reply R) Now now ∈ h' ∧ r = Ok (bool_decide (date < now))
    | None => ∃ e, r = Err e
    end).
Proof.
  unfold ParseTimestamp. case_decide as Hl; [|rewrite Hl; by eexists].
  destruct (ParseTime _) as [date|]; [|by eexists]. apply holds_bind, harmless; [done|]. intros h' now _. exists now.
  split; [|done]. apply elem_of_app. right. by left.
Qed.

(** The step of the loop of [Clean]. *)
Lemma cleanItem_holds kind type (delete : Object R → Thread (@Reply R) (result OpError unit)) (list : list (Object R)) (item : Object R) (rest : Thread (@Reply R) unit) h Ψ :
  mkEvent (Reply:=@Reply R) (ListObjects kind) list ∈ h → item ∈ list →
  (∀ h, Debug = false → lapsed h kind item → holds' (delete item) h (λ _ h', requested h' (first_request kind item))) →
  (∀ h', swept kind [item] h' → h `prefix_of` h' → holds' rest h' Ψ) →
  holds' (ok ← ParseTimestamp LabelMarkKey item;
    _ ← match ok with
    | Err _ => RaiseAlert ProcessCleaning ErrorParsing type (Some item)
    | Ok true =>
      if Debug then mret tt else
      err ← delete item;
      match err with
      | Err _ => RaiseAlert ProcessCleaning ErrorCleaning type (Some item)
      | Ok _ => mret tt
      end
    | Ok false => mret tt
    end; rest) h Ψ.
Proof.
  intros Hlist Hi Hdelete HΨ. apply (holds_then _ _ _ _ _ _ _ _ (ParseTimestamp_holds item h)). intros ok h1 Hok Hp1.
  apply (holds_then _ _ _ _ _ _ (λ _ h', swept kind [item] h')); [clear HΨ|intros _ h' Hs Hp; apply HΨ; [done|by etrans]].
  destruct (ParseTime (label item LabelMarkKey)) as [date|] eqn:Hdate.
  - destruct Hok as (now & Hnow & ->).
    assert (∀ h', h1 `prefix_of` h' → (date < now → Debug = false → requested h' (first_request kind item)) → swept kind [item] h') as Hend.
    { intros h' Hp Hr. intros o date' ->%list_elem_of_singleton Hdate'. simplify_eq. exists now. split; [|done].
      destruct Hp as [tr ->]. apply elem_of_app. by left. }
    case_bool_decide as Hlt; [|by apply Hend]. destruct Debug eqn:Hd; [by apply Hend|].
    eapply holds_then; [apply Hdelete; [done|]|].
    + exists list, date, now. split_and!; try done. destruct Hp1 as [tr ->]. apply elem_of_app. by left.
    + intros [u|e] h2 Hr Hp2; [by apply Hend|]. apply harmless; [done|]. intros h3 [] Hp3. apply Hend; [apply prefix_app_r; by etrans|].
      intros _ _. eapply requested_prefix; [|done]. by apply prefix_app_r.
  - destruct Hok as [e ->]. apply alert_holds. intros h' o date ->%list_elem_of_singleton. congruence.
Qed.

Lemma cleanItems_holds kind type delete (list : list (Object R)) items h :
  mkEvent (Reply:=@Reply R) (ListObjects kind) list ∈ h → Forall (λ o, o ∈ list) items →
  (∀ o h, Debug = false → lapsed h kind o → holds' (delete o) h (λ _ h', requested h' (first_request kind o))) →
  holds' (cleanItems LabelMarkKey Debug type delete items) h (λ _ h', swept kind items h').
Proof.
  intros Hlist Hitems Hdelete. revert h Hlist. induction Hitems as [|item items Hi _ IH]; intros h Hlist.
  { cbn. intros o date []%not_elem_of_nil. }
  cbn [cleanItems]. apply (cleanItem_holds kind type delete list); [done|exact Hi|intros h'; apply Hdelete|]. intros h1 Hs [tr ->]. eapply holds_mono; [|apply holds_extends, IH].
  - intros _ h2 [Hs' Hp] o date [->|Ho]%elem_of_cons; [|by apply Hs']. apply (swept_prefix _ _ _ _ Hp Hs). by left.
  - apply elem_of_app. by left.
Qed.

Lemma cleanKind_holds kind type delete h :
  (∀ o h, Debug = false → lapsed h kind o → holds' (delete o) h (λ _ h', requested h' (first_request kind o))) →
  holds' (cleanKind LabelMarkKey Debug kind type delete) h (λ _ h', kind_swept kind h').
Proof.
  intros Hdelete. unfold cleanKind, ListMarkedResource. apply holds_bind, holds_bind, harmless; [done|]. intros h' list _.
  set (h1 := h' ++ _). assert (mkEvent (Reply:=@Reply R) (ListObjects kind) list ∈ h1) as Hlist by (apply elem_of_app; right; by left).
  eapply holds_then.
  - apply (cleanItems_holds kind type delete list); [done| |done]. apply Forall_forall. intros o Ho%list_elem_of_filter. tauto.
  - intros _ h2 Hs [tr ->]. exists list. split; [apply elem_of_app; by left|]. intros o date Ho Hdate. apply Hs; [|done].
    apply list_elem_of_filter. split; [|done]. intros Hl. by rewrite Hl in Hdate.
Qed.

Lemma delete_holds kind scope name h (Φ : result OpError unit → History → Prop) :
  level kind = n → Debug = false → due h kind scope name → unused h kind name →
  (∀ h' r, h `prefix_of` h' → Φ r (h' ++ [mkEvent (Reply:=@Reply R) (DeleteObject kind scope name) r])) →
  holds' (call (DeleteObject kind scope name)) h Φ.
Proof.
  intros Hl Hd Hdue Hun HΦ. apply holds_call; [done|]. intros others _. split.
  - split_and!; [done|eapply due_prefix; [by eexists|done]|eapply unused_prefix; [by eexists|done]].
  - intros r. rewrite app_assoc. apply HΦ. by eexists.
Qed.

(** The kinds that are deleted by one request. *)
Definition single (kind : Kind) : bool :=
  match kind with KEIP | KFIP | KSNAT | KDNAT | KSubnet | KNAD | KNatGw => false | _ => true end.
Definition in_cluster (kind : Kind) : bool :=
  match kind with KSwitchLBRules | KVPC | KNamespace => true | _ => false end.

Lemma single_Clean_holds kind type : level kind = n → single kind = true →
  cleans n kind (cleanKind LabelMarkKey Debug kind type (if in_cluster kind then deleteCluster kind else deleteIn kind)).
Proof.
  intros Hl Hs h. apply cleanKind_holds. intros o h' Hd He.
  destruct kind; try done; (apply delete_holds; [done|done|by exists o|done|]); intros h1 r _; apply requested_snoc.
Qed.
End levels.

Lemma deleteSubnet_holds o h : Debug = false → lapsed h KSubnet o →
  holds False (at_level 2) clean_may (deleteSubnet o) h (λ _ h', requested h' (first_request KSubnet o)).
Proof.
  intros Hd He. unfold deleteSubnet. apply holds_bind, delete_holds; [done..|by exists o|done|]. intros h1 r1 Hp1.
  apply holds_requested; [apply requested_snoc|]. set (h1' := h1 ++ _).
  destruct (isGone r1) eqn:Hg1; [|done]. cbn [negb].
  assert (lapsed h1' KSubnet o) as He1 by (eapply expired_prefix; [|done]; by apply prefix_app_r).
  assert (deleted h1' KNAD (Some EmptyString) (ob_Name o)) as Hnad by (exists r1; split; [apply elem_of_app; right; by left|done]).
  apply holds_bind, delete_holds; [done..|by exists o|done|]. intros h2 r2 Hp2. set (h2' := h2 ++ _).
  destruct (isGone r2) eqn:Hg2; [|done]. cbn [negb].
  assert (h1' `prefix_of` h2') as Hp12 by by apply prefix_app_r.
  apply delete_holds; [done..| | |done].
  - exists o. split; [done|]. split; [|done]. eapply expired_prefix; [exact Hp12|done].
  - split; [eapply deleted_prefix; [exact Hp12|done]|]. exists r2. split; [apply elem_of_app; right; by left|done].
Qed.

Lemma expiredItems_holds type (list : list (Object R)) items h :
  mkEvent (Reply:=@Reply R) (ListObjects KDNAT) list ∈ h → Forall (λ o, o ∈ list) items →
  holds False (at_level 1) clean_may (expiredItems LabelMarkKey type items) h (λ dnats h', Forall (lapsed h' KDNAT) dnats).
Proof.
  intros Hlist Hitems. revert h Hlist. induction Hitems as [|item items Hi _ IH]; intros h Hlist; [by constructor|].
  cbn [expiredItems]. apply (holds_then _ _ _ _ _ _ _ _ (ParseTimestamp_holds 1 item h)). intros ok h1 Hok Hp1.
  assert (∀ h', h1 `prefix_of` h' → mkEvent (Reply:=@Reply R) (ListObjects KDNAT) list ∈ h') as Hstill.
  { intros h' [tr ->]. destruct Hp1 as [tr' ->]. rewrite !elem_of_app. by left; left. }
  destruct (ParseTime (label item LabelMarkKey)) as [date|] eqn:Hdate.
  - destruct Hok as (now & Hnow & ->). eapply holds_then; [by apply IH, Hstill|]. intros dnats h2 Hdnats Hp2.
    case_bool_decide as Hlt; [|done]. constructor; [|done]. exists list, date, now. split_and!; try done; [by apply Hstill|].
    destruct Hp2 as [tr ->]. apply elem_of_app. by left.
  - destruct Hok as [e ->]. eapply (holds_then _ _ _ _ _ _ (λ _ _, True)); [by apply alert_holds|].
    intros _ h' _ Hp. by apply IH, Hstill.
Qed.

Lemma deleteDnats_holds dnats h : Debug = false → (∃ eip, lapsed h KEIP eip) → Forall (lapsed h KDNAT) dnats →
  holds False (at_level 1) clean_may (deleteDnats dnats) h (λ _ _, True).
Proof.
  intros Hd He H. revert h He H. induction dnats as [|dnat dnats IH]; intros h He H; [done|]. inversion H; subst. cbn [deleteDnats].
  apply holds_bind, delete_holds; [done..|by exists dnat|done|]. intros h' [u|e] Hp; [|done].
  assert (h `prefix_of` h' ++ [mkEvent (Reply:=@Reply R) (DeleteObject KDNAT None (ob_Name dnat)) (Ok u)]) by by apply prefix_app_r.
  apply IH.
  - destruct He as [eip ?]. exists eip. by eapply expired_prefix.
  - eapply Forall_impl; [done|]. intros o. by apply expired_prefix.
Qed.

Lemma deleteEIP_holds type o h : Debug = false → lapsed h KEIP o →
  holds False (at_level 1) clean_may (deleteEIP LabelMarkKey type o) h (λ _ h', requested h' (first_request KEIP o)).
Proof.
  intros Hd He. unfold deleteEIP. apply holds_bind, delete_holds; [done..|by exists o|done|]. intros h1 r1 Hp1.
  apply holds_requested; [apply requested_snoc|]. destruct (isGone r1) eqn:Hg1; [|done]. cbn [negb]. set (h1' := h1 ++ _).
  assert (deleted h1' KFIP None (ob_Name o)) as Hfip by (exists r1; split; [apply elem_of_app; right; by left|done]).
  assert (lapsed h1' KEIP o) as He1 by (eapply expired_prefix; [|done]; by apply prefix_app_r).
  apply holds_bind, delete_holds; [done..|by exists o|done|]. intros h2 r2 Hp2.
  destruct (isGone r2) eqn:Hg2; [|done]. cbn [negb]. set (h2' := h2 ++ _).
  assert (deleted h2' KSNAT None (ob_Name o)) as Hsnat by (exists r2; split; [apply elem_of_app; right; by left|done]).
  assert (h1' `prefix_of` h2') as Hp12 by by apply prefix_app_r.
  apply (holds_then _ _ _ _ _ _ (λ r h', match r with Ok dnats => Forall (lapsed h' KDNAT) dnats | Err _ => True end)).
  { unfold ListMarkedDnat, ListMarkedResource. apply holds_bind, holds_bind, harmless; [done|]. intros h' list _.
    apply (holds_then _ _ _ _ _ _ (λ dnats h', Forall (lapsed h' KDNAT) dnats)); [|done]. apply (expiredItems_holds type list).
    - apply elem_of_app. right. by left.
    - apply Forall_forall. intros d Hin%list_elem_of_filter. tauto. }
  intros [dnats|e] h3 Hdnats Hp3; [|done]. assert (lapsed h3 KEIP o) as He3.
  { eapply expired_prefix; [|exact He1]. by etrans. }
  eapply (holds_then _ _ _ _ _ _ (λ _ _, True)); [apply deleteDnats_holds; [done|by exists o|done]|]. intros [u|e] h4 _ Hp4; [|done].
  apply holds_bind, harmless; [done|]. intros h5 u5 Hp5. set (h5' := h5 ++ _).
  assert (h3 `prefix_of` h5') as Hp35 by (apply prefix_app_r; by etrans). assert (h2' `prefix_of` h5') by by etrans.
  apply delete_holds; [done..| | |done].
  - exists o. split; [done|]. split; [|done]. eapply expired_prefix; [exact Hp35|done].
  - split; eapply deleted_prefix; [|exact Hfip| |exact Hsnat]; [by etrans|done].
Qed.

(** ** The levels *)

Definition cleaner_holds (n : nat) (kind : Kind) (cleaner : @Cleaner R) : Prop := cleans n kind (Clean cleaner).

Definition kinds1 : list Kind := [KVirtualMachine; KVirtualMachineSnapshot; KEIP; KSSH; KSwitchLBRules; KNetworkPolicy].
Definition kinds2 : list Kind := [KSubnet; KDataVolume; KVolumeSnapshot; KObjectBucketClaim].
Definition kinds3 : list Kind := [KPersistentVolumeClaims; KVPC; KNamespace].

Ltac by_single :=
  lazymatch goal with |- cleaner_holds ?n ?kind _ => exact (single_Clean_holds n kind _ eq_refl eq_refl) end.

Lemma level1_holds : Forall2 (cleaner_holds 1) kinds1 (cleanersLvl1 LabelMarkKey Debug).
Proof.
  repeat first [apply Forall2_nil_2|apply Forall2_cons_2]; try by_single.
  intros h. apply cleanKind_holds. intros o h' Hd He. by apply deleteEIP_holds.
Qed.

Lemma level2_holds : Forall2 (cleaner_holds 2) kinds2 (cleanersLvl2 LabelMarkKey Debug).
Proof.
  repeat first [apply Forall2_nil_2|apply Forall2_cons_2]; try by_single.
  intros h. apply cleanKind_holds. intros o h' Hd He. by apply deleteSubnet_holds.
Qed.

Lemma level3_holds : Forall2 (cleaner_holds 3) kinds3 (cleanersLvl3 LabelMarkKey Debug).
Proof. repeat first [apply Forall2_nil_2|apply Forall2_cons_2]; by_single. Qed.

Lemma cleaning_holds n kind cleaner : cleaner_holds n kind cleaner → cleans n kind (cleaning cleaner).
Proof.
  intros H h. eapply holds_then; [apply H|]. intros [u|e] h' Hs _; [done|]. apply harmless; [done|].
  intros h'' u Hp. eapply kind_swept_prefix; [by apply prefix_app_r|done].
Qed.

Lemma cleaningAll_holds n kinds cleaners h : Forall2 (cleaner_holds n) kinds cleaners →
  holds False (at_level n) clean_may (cleaningAll cleaners) h (λ _ h', Forall (λ kind, kind_swept kind h') kinds).
Proof.
  intros Hall. revert h. induction Hall as [|kind cleaner kinds cleaners Hc _ IH]; intros h; [by constructor|]. cbn [cleaningAll].
  eapply holds_then; [by apply cleaning_holds|]. intros u h1 Hs _. eapply holds_mono; [|apply holds_extends, IH].
  intros _ h2 [H Hp]. constructor; [by eapply kind_swept_prefix|done].
Qed.

Lemma reached_app n h tr : guaranteed (at_level n) tr → reached n h → reached n (h ++ tr).
Proof.
  intros Ht [[-> H]|(h1 & h2 & -> & H1 & H2)]; [left|right].
  - split; [done|]. by apply Forall_app.
  - exists h1, (h2 ++ tr). rewrite <-app_assoc. split_and!; [done..|by apply Forall_app].
Qed.

(** A group of goroutines of a level. *)
Lemma group_holds {A} n (ts : list (Thread (@Reply R) unit)) (Ψs : list (History → Prop)) k h (Φ : A → History → Prop) :
  reached n h → Forall (λ Ψ : _ → Prop, ∀ h h', h `prefix_of` h' → Ψ h → Ψ h') Ψs →
  Forall2 (λ t (Ψ : _ → Prop), ∀ h, holds False (at_level n) clean_may t h (λ _ h', Ψ h')) ts Ψs →
  (∀ rs tr, reached n (h ++ tr) → Forall (λ Ψ : _ → Prop, Ψ (h ++ tr)) Ψs → main_holds False collect_may (k rs) (h ++ tr) Φ) →
  main_holds False collect_may (MWait (goroutine <$> ts) k) h Φ.
Proof.
  intros Hr Hs Hts Hk. exists (at_level n), ((λ Ψ _ h', Ψ h') <$> Ψs). split_and!.
  - apply Forall_fmap. eapply Forall_impl; [exact Hs|]. intros Ψ HΨ a h1 h2 _. apply HΨ. by eexists.
  - rewrite Forall2_fmap. eapply Forall2_impl; [exact Hts|]. intros t Ψ Ht.
    apply (holds_invariant _ _ clean_may _ (reached n)); [intros; by apply reached_app| |done|].
    + intros h' q Hh Hq Hc. split; [done|]. destruct q; try done. by rewrite Hq.
    + apply holds_bind. eapply holds_mono; [|apply Ht]. done.
  - intros rs tr Htr Hrs. apply Hk; [by apply reached_app|]. rewrite Forall2_fmap_r in Hrs.
    clear Hs Hts Hk. induction Hrs; by constructor.
Qed.

Lemma reached_next n h : (1 ≤ n)%nat → reached n h →
  reached (S n) ((h ++ [mkEvent (Reply:=@Reply R) ContextDone false]) ++ [mkEvent (Reply:=@Reply R) (Sleep (60 * second)) tt]).
Proof.
  intros Hn H. right. exists h, []. split; [by rewrite <-app_assoc|]. split; [|constructor].
  assert (∀ q, at_level n q → below_level (S n) q) as Hat by (intros []; cbn; lia || done).
  assert (∀ q, below_level n q → below_level (S n) q) as Hbelow by (intros []; cbn; lia || done).
  destruct H as [[-> H]|(h1 & h2 & -> & H1 & H2)]; [eapply Forall_impl; [done|]; intros; by apply Hat|].
  apply Forall_app. split; [eapply Forall_impl; [done|]; intros; by apply Hbelow|].
  do 2 (constructor; [done|]). eapply Forall_impl; [done|]. intros; by apply Hat.
Qed.

Lemma nextLevel_holds n next h (Φ : bool → History → Prop) :
  (1 ≤ n)%nat → reached n h → (∀ tr, mkEvent (Reply:=@Reply R) ContextDone true ∈ tr → Φ false tr) →
  (∀ h', h `prefix_of` h' → reached (S n) h' → main_holds False collect_may next h' Φ) →
  main_holds False collect_may (nextLevel next) h Φ.
Proof.
  intros Hn Hr HΦ Hnext. split; [done|]. intros []; [apply HΦ, elem_of_app; right; by left|]. split; [done|]. intros [].
  apply Hnext; [|by apply reached_next]. rewrite <-app_assoc. by eexists.
Qed.

(** What a collection that ends has done. *)
Definition collected (done : bool) h : Prop :=
  if done then Forall (λ kind, kind_swept kind h) (kinds1 ++ kinds2 ++ kinds3)
  else mkEvent (Reply:=@Reply R) ContextDone true ∈ h.

Lemma sweeps_of n kinds cleaners : Forall2 (cleaner_holds n) kinds cleaners →
  Forall2 (λ t (Ψ : History → Prop), ∀ h, holds False (at_level n) clean_may t h (λ _ h', Ψ h')) (cleaning <$> cleaners) (kind_swept <$> kinds).
Proof. rewrite Forall2_fmap. intros H. apply Forall2_flip. eapply Forall2_impl; [exact H|]. intros kind c Hc. exact (cleaning_holds n kind c Hc). Qed.

Lemma swept_stable kinds :
  Forall (λ Ψ : History → Prop, ∀ h h', h `prefix_of` h' → Ψ h → Ψ h') (kind_swept <$> kinds).
Proof. apply Forall_fmap, Forall_forall. intros kind _ h h'. apply kind_swept_prefix. Qed.

Lemma all_swept_prefix kinds h h' : h `prefix_of` h' →
  Forall (λ kind, kind_swept kind h) kinds → Forall (λ kind, kind_swept kind h') kinds.
Proof. intros Hp H. eapply Forall_impl; [exact H|]. intros kind. by apply kind_swept_prefix. Qed.

Lemma collection_holds : main_holds False collect_may (garbageCollection LabelMarkKey Debug) [] collected.
Proof.
  unfold garbageCollection. rewrite !list_fmap_compose.
  apply (group_holds 1 _ (kind_swept <$> kinds1)); [left; split; [done|constructor]|apply swept_stable|apply sweeps_of, level1_holds|].
  intros rs1 tr1 Hr1 H1. rewrite Forall_fmap in H1. apply (nextLevel_holds 1); [done..|]. intros h1 Hp1 Hr1'.
  apply (all_swept_prefix _ _ _ Hp1) in H1.
  apply (group_holds 2 _ (kind_swept <$> kinds2)); [done|apply swept_stable|apply sweeps_of, level2_holds|].
  intros rs2 tr2 Hr2 H2. rewrite Forall_fmap in H2. apply (nextLevel_holds 2); [lia|done..|]. intros h2 Hp2 Hr2'.
  apply (all_swept_prefix _ _ _ Hp2) in H2.
  apply (group_holds 3 [cleaningAll _] [λ h, Forall (λ kind, kind_swept kind h) kinds3]); [done| | |].
  - constructor; [|constructor]. intros h h'. apply all_swept_prefix.
  - constructor; [|constructor]. intros h. apply cleaningAll_holds, level3_holds.
  - intros rs3 tr3 Hr3 H3. unfold collected. cbn [main_holds]. rewrite !Forall_app. split_and!.
    + eapply all_swept_prefix; [|exact H1]. etrans; [by eexists|]. etrans; [done|]. by eexists.
    + eapply all_swept_prefix; [|exact H2]. by eexists.
    + by inversion H3.
Qed.

(** C32: whatever the servers answer and the order in which the goroutines run, and wherever the collection
    is interrupted, it only deletes: outside of the debug mode, objects that were listed with a mark whose
    date is before a reading of the clock, or the objects of their name that depend on them; an address and
    a subnet once those are gone; and it goes from a level to the next one a minute after the last
    deletion asked for, if the context is not done. It never writes an object. *)
Theorem collection_guarded tr m :
  runs (garbageCollection LabelMarkKey Debug) tr m → obeys collect_may [] tr.
Proof. intros Hr. by destruct (runs_holds _ _ _ _ _ _ _ Hr collection_holds). Qed.

(** C33: a collection ends, without a panic, whatever the servers answer and the order of the goroutines. If it
    sends [processDone], then for each kind it has listed the objects and compared the date of each mark
    that can be read with the clock, and, outside of the debug mode, has begun the deletion of those whose
    date had passed; in the debug mode it deletes nothing, and a mark that cannot be read is passed over.
    Otherwise the context was done between two levels. *)
Theorem collection_ends (server : History → ∀ q : Request R, Reply q) (choice : History → nat) :
  ∃ fuel done tr, exec server choice fuel [] (garbageCollection LabelMarkKey Debug) = (MRet' done, tr) ∧ collected done tr.
Proof.
  destruct (holds_ends _ server choice _ _ collection_holds) as (fuel & done & tr & He & _ & Hc). by exists fuel, done, tr.
Qed.
End collection.

(** ** The marking *)
Section marking.
Context {R : Type} {CL : CollectorLib R}.
Context (LabelMarkKey SpxPrefix : string) (Delay : Z) (zone : Z → Z) (namespace : string).
Abbreviation History := (list (Event (@Reply R))).
Implicit Types (h : History) (o item : Object R).

(** The object as it is found: the namespace is read from the server, the others are listed with the
    label of the project. *)
Definition found h (kind : Kind) item : Prop :=
  if decide (kind = KNamespace) then mkEvent (Reply:=@Reply R) (GetNamespaceObject namespace) (Ok item) ∈ h
  else ∃ list : list (Object R), mkEvent (Reply:=@Reply R) (ListObjects kind) list ∈ h ∧ item ∈ list ∧
    label item SpxLabelProjectID = namespace.

(** The object with the mark; a virtual machine is halted. *)
Definition marked (kind : Kind) (date : string) item o : Prop :=
  ob_Namespace o = ob_Namespace item ∧ ob_Name o = ob_Name item ∧
  (∃ labels, ob_Labels item = Some labels ∧ ob_Labels o = Some (<[LabelMarkKey := date]> labels)) ∧
  if decide (kind = KVirtualMachine) then ob_RunStrategy o = Some RunStrategyHalted ∧ ob_Template o = Some (ob_Labels o)
  else ob_RunStrategy o = ob_RunStrategy item ∧ ob_Template o = ob_Template item.

Definition scope (kind : Kind) item : option string :=
  match kind with
  | KEIP | KFIP | KSNAT | KDNAT | KSwitchLBRules | KSubnet | KNatGw | KVPC | KNamespace => None
  | _ => Some (ob_Namespace item)
  end.

(** What a marking may ask for. *)
Definition mark_may h (q : Request R) : Prop :=
  match q with
  | UpdateObject kind s o => ∃ (now : Z) item, mkEvent (Reply:=@Reply R) Now now ∈ h ∧ found h kind item ∧
      s = scope kind item ∧ marked kind (deletionDate Delay zone now) item o
  | SetCachedLabels kind n name labels => ∃ (now : Z) item labels0, mkEvent (Reply:=@Reply R) Now now ∈ h ∧ found h kind item ∧
      n = ob_Namespace item ∧ name = ob_Name item ∧ ob_Labels item = Some labels0 ∧
      labels = <[LabelMarkKey := deletionDate Delay zone now]> labels0
  | DeleteObject _ _ _ => False
  | GetNamespaceObject name => name = namespace
  | ListObjects _ | Now | ContextDone | Sleep _ | Alert _ _ _ _ => True
  end.

(** The update of the object with the mark was accepted. *)
Definition updated h (date : string) (kind : Kind) item : Prop := ∃ o, marked kind date item o ∧
  mkEvent (Reply:=@Reply R) (UpdateObject kind (scope kind item) o) (Ok tt) ∈ h.

(** The objects of a kind that were listed have the mark. *)
Definition kind_marked (date : string) (kind : Kind) h : Prop :=
  if decide (kind = KNamespace) then
    ∃ r : result OpError (Object R), mkEvent (Reply:=@Reply R) (GetNamespaceObject namespace) r ∈ h ∧
      match r with Ok item => updated h date kind item | Err e => op_IsNotFound e = true end
  else ∃ list : list (Object R), mkEvent (Reply:=@Reply R) (ListObjects kind) list ∈ h ∧
    ∀ item, item ∈ list → label item SpxLabelProjectID = namespace → updated h date kind item.

Lemma found_prefix h h' kind item : h `prefix_of` h' → found h kind item → found h' kind item.
Proof.
  unfold found. intros [tr ->]. case_decide; [intros; apply elem_of_app; by left|].
  intros (list & ? & ?). exists list. rewrite elem_of_app. by split; [left|].
Qed.

Lemma updated_prefix h h' date kind item : h `prefix_of` h' → updated h date kind item → updated h' date kind item.
Proof. intros [tr ->] (o & ? & ?). exists o. rewrite elem_of_app. by split; [|left]. Qed.

Lemma kind_marked_prefix date kind h h' : h `prefix_of` h' → kind_marked date kind h → kind_marked date kind h'.
Proof.
  intros Hp. unfold kind_marked. case_decide.
  - intros (r & ? & ?). exists r. split; [destruct Hp as [tr ->]; apply elem_of_app; by left|].
    destruct r; [by eapply updated_prefix|done].
  - intros (list & ? & H'). exists list. split; [destruct Hp as [tr ->]; apply elem_of_app; by left|].
    intros item ? ?. eapply updated_prefix; [done|auto].
Qed.

Context (now : Z).
Abbreviation date := (deletionDate Delay zone now).
Abbreviation holds' t h Φ := (holds True (λ _, True) mark_may t h Φ).
Abbreviation dated h := (mkEvent (Reply:=@Reply R) Now now ∈ h).

Lemma dated_prefix h h' : h `prefix_of` h' → dated h → dated h'.
Proof. intros [tr ->] ?. apply elem_of_app. by left. Qed.

(** A request that may be made whatever the others do. *)
Lemma call_holds (q : Request R) h (Φ : Reply q → History → Prop) :
  (∀ h', h `prefix_of` h' → mark_may h' q) → (∀ h' r, h `prefix_of` h' → Φ r (h' ++ [mkEvent q r])) → holds' (call q) h Φ.
Proof.
  intros Hq HΦ. apply holds_call; [done|]. intros others _. split; [apply Hq; by eexists|].
  intros r. rewrite app_assoc. apply HΦ. by eexists.
Qed.

Lemma markAlert_holds process error type resource h (Φ : unit → History → Prop) :
  (∀ h', Φ tt h') → holds' (RaiseAlert process error type resource) h Φ.
Proof. intros H. apply call_holds; [done|]. intros h' [] _. apply H. Qed.

(** The end of the marking of an object: an update, and its error. *)
Lemma update_holds kind type item shown o s text h :
  dated h → found h kind item → s = scope kind item → marked kind date item o →
  holds' (err ← call (UpdateObject kind s o);
    match err with
    | Err _ => _ ← RaiseAlert ProcessLabeling ErrorLabeling type (Some shown); mret (Err (Errorf text))
    | Ok _ => mret (Ok tt)
    end) h (λ r h', r = Ok tt → updated h' date kind item).
Proof.
  intros Hn Hf -> Hm. apply holds_bind, call_holds.
  - intros h' Hp. exists now, item. split_and!; [by eapply dated_prefix|by eapply found_prefix|done..].
  - intros h' [[]|e] _; [|by apply holds_bind, markAlert_holds]. intros _. exists o. split; [done|].
    apply elem_of_app. right. by left.
Qed.

(** The marking of one object. *)
Definition marks_item (kind : Kind) (mark : Object R → Thread (@Reply R) (result OpError unit)) : Prop :=
  ∀ item h, dated h → found h kind item → holds' (mark item) h (λ r h', r = Ok tt → updated h' date kind item).

Definition completes (kind : Kind) (complete : gmap string string → Object R → option (Object R)) : Prop :=
  ∀ item labels typed o, ob_Labels item = Some labels →
  Transform kind (set_labels (<[LabelMarkKey := date]> labels) item) = Some typed →
  complete (<[LabelMarkKey := date]> labels) typed = Some o → marked kind date item o.

Lemma markItem_holds kind type complete update :
  completes kind complete → (∀ item typed, update item typed = call (UpdateObject kind (scope kind item) typed)) →
  marks_item kind (markItem LabelMarkKey kind type date complete update).
Proof.
  intros Hc Hu item h Hn Hf. unfold markItem. destruct (ob_Labels item) as [labels|] eqn:Hl; [|done].
  apply holds_bind, call_holds.
  { intros h' Hp. exists now, item, labels. split_and!; [by eapply dated_prefix|by eapply found_prefix|done..]. }
  intros h1 [] Hp1. destruct (Transform _ _) as [typed|] eqn:Ht; [|by apply holds_bind, markAlert_holds].
  destruct (complete _ _) as [o|] eqn:Ho; [|done]. rewrite Hu.
  assert (h `prefix_of` h1 ++ [mkEvent (Reply:=@Reply R) (SetCachedLabels kind (ob_Namespace item) (ob_Name item) (<[LabelMarkKey:=date]> labels)) tt])
    by by apply prefix_app_r.
  apply update_holds; [by eapply dated_prefix|by eapply found_prefix|done|by eapply Hc].
Qed.

Lemma Transform_marks kind item labels typed : ob_Labels item = Some labels →
  Transform kind (set_labels (<[LabelMarkKey := date]> labels) item) = Some typed →
  ob_Namespace typed = ob_Namespace item ∧ ob_Name typed = ob_Name item ∧
  ob_Labels typed = Some (<[LabelMarkKey := date]> labels) ∧ ob_RunStrategy typed = ob_RunStrategy item ∧ ob_Template typed = ob_Template item.
Proof. intros _. unfold Transform. destruct (TransformRest kind _); [|done]. by intros [= <-]. Qed.

Lemma unchanged_completes kind : kind ≠ KVirtualMachine → completes kind unchanged.
Proof.
  intros Hk item labels typed o Hl Ht [= <-]. destruct (Transform_marks _ _ _ _ Hl Ht) as (? & ? & ? & ? & ?).
  unfold marked. rewrite decide_False by done. by split_and!; [..|exists labels|done|].
Qed.

Lemma haltVM_completes : completes KVirtualMachine haltVM.
Proof.
  intros item labels typed o Hl Ht. destruct (Transform_marks _ _ _ _ Hl Ht) as (? & ? & Hlabels & _ & _).
  unfold haltVM. destruct (ob_Template typed); [|done]. intros [= <-]. split_and!; cbn; [done..|by exists labels|].
  split; [done|]. by rewrite Hlabels.
Qed.

Lemma markItems_holds kind mark (list : list (Object R)) items h :
  marks_item kind mark → kind ≠ KNamespace → dated h → mkEvent (Reply:=@Reply R) (ListObjects kind) list ∈ h →
  Forall (λ item, item ∈ list ∧ label item SpxLabelProjectID = namespace) items →
  holds' (markItems mark items) h (λ r h', r = Ok tt → ∀ item, item ∈ items → updated h' date kind item).
Proof.
  intros Hmark Hk Hn Hl Hitems. revert h Hn Hl. induction Hitems as [|item items [Hin Hns] _ IH]; intros h Hn Hl.
  { intros _ item []%not_elem_of_nil. }
  cbn [markItems]. eapply holds_then.
  { apply Hmark; [done|]. unfold found. rewrite decide_False by done. by exists list. }
  intros [[]|e] h1 Hu Hp; [|done]. eapply holds_mono; [|apply holds_extends, IH].
  - intros r h2 [Hr Hp2] Hok item' [->|Hi]%elem_of_cons; [|by apply Hr]. eapply updated_prefix; [exact Hp2|by apply Hu].
  - by eapply dated_prefix.
  - destruct Hp as [tr ->]. apply elem_of_app. by left.
Qed.

(** A [Mark] method marks the kinds. *)
Definition marks (kinds : list Kind) (t : Thread (@Reply R) (result OpError unit)) : Prop :=
  ∀ h, dated h → holds' t h (λ r h', r = Ok tt → Forall (λ kind, kind_marked date kind h') kinds).

Lemma listed_holds kind mark : marks_item kind mark → kind ≠ KNamespace →
  marks [kind] (resources ← ListNamespaceResource kind namespace;
    match resources with Err e => mret (Err e) | Ok resources => markItems mark resources end).
Proof.
  intros Hmark Hk h Hn. unfold ListNamespaceResource. apply holds_bind, holds_bind, call_holds; [done|]. intros h1 list Hp.
  set (h1' := h1 ++ _). assert (h `prefix_of` h1') by by apply prefix_app_r.
  assert (mkEvent (Reply:=@Reply R) (ListObjects kind) list ∈ h1') as Hl by (apply elem_of_app; right; by left).
  apply holds_ret. eapply holds_mono; [|apply holds_extends, (markItems_holds kind mark list); [done|done|by eapply dated_prefix|done|]].
  - intros r h2 [Hr [tr ->]] Hok. constructor; [|constructor]. unfold kind_marked. rewrite decide_False by done.
    exists list. split; [apply elem_of_app; by left|]. intros item Hi Hns. apply Hr; [done|]. by apply list_elem_of_filter.
  - apply Forall_forall. intros item [? ?]%list_elem_of_filter. done.
Qed.

Lemma markKind_holds kind type complete update :
  kind ≠ KNamespace → completes kind complete → (∀ item typed, update item typed = call (UpdateObject kind (scope kind item) typed)) →
  marks [kind] (markKind LabelMarkKey kind type complete update namespace date).
Proof. intros Hk Hc Hu. apply listed_holds; [|done]. by apply markItem_holds. Qed.

Lemma obc_holds type : marks [KObjectBucketClaim] (obc_Mark LabelMarkKey type namespace date).
Proof.
  apply listed_holds; [|done]. intros item h Hn Hf. unfold obc_markItem. destruct (ob_Labels item) as [labels|] eqn:Hl; [|done].
  apply update_holds; [done..|]. split_and!; [done..|by exists labels|done].
Qed.

Lemma namespace_holds type : marks [KNamespace] (namespace_Mark LabelMarkKey type namespace date).
Proof.
  intros h Hn. unfold namespace_Mark. apply holds_bind, call_holds; [done|]. intros h1 r Hp. set (h1' := h1 ++ _).
  assert (mkEvent (Reply:=@Reply R) (GetNamespaceObject namespace) r ∈ h1') as Hr by (apply elem_of_app; right; by left).
  assert (dated h1') by (eapply dated_prefix; [|exact Hn]; by apply prefix_app_r).
  destruct r as [item|e].
  - destruct (ob_Labels item) as [labels|] eqn:Hl; [|done].
    eapply holds_mono; [|apply holds_extends, (update_holds KNamespace type item); [done|done|done|by split_and!; [..|exists labels|]]].
    intros r h2 [Hu [tr ->]] Hok. constructor; [|constructor]. exists (Ok item). split; [apply elem_of_app; by left|by apply Hu].
  - destruct (op_IsNotFound e) eqn:He; [|done]. intros _. constructor; [|constructor]. by exists (Err e).
Qed.

Lemma markKinds_holds kinds ms : Forall2 (λ (kind : Kind) m, marks [kind] (m namespace date)) kinds ms →
  marks kinds (markKinds ms namespace date).
Proof.
  intros Hall. induction Hall as [|kind m kinds ms Hm _ IH]; intros h Hn; [by intros _|]. cbn [markKinds].
  eapply holds_then; [by apply Hm|]. intros [[]|e] h1 Hk Hp; [|done].
  eapply holds_mono; [|apply holds_extends, IH; by eapply dated_prefix]. intros r h2 [Hr Hp2] Hok. constructor; [|by apply Hr].
  specialize (Hk eq_refl). inversion Hk; subst. by eapply kind_marked_prefix.
Qed.

(** The kinds that each cleaner marks. *)
Definition marked_kinds : list (list Kind) :=
  [[KVirtualMachine]; [KVirtualMachineSnapshot]; [KEIP; KFIP; KSNAT; KDNAT]; [KSSH]; [KSwitchLBRules]; [KNetworkPolicy];
   [KNAD; KNatGw; KSubnet]; [KDataVolume]; [KVolumeSnapshot]; [KObjectBucketClaim]; [KPersistentVolumeClaims]; [KVPC]; [KNamespace]].

Lemma unchanged_holds kind type (update : Object R → Object R → Thread (@Reply R) (result OpError unit)) :
  kind ≠ KNamespace → kind ≠ KVirtualMachine → (∀ item typed, update item typed = call (UpdateObject kind (scope kind item) typed)) →
  marks [kind] (markKind LabelMarkKey kind type unchanged update namespace date).
Proof. intros Hk Hv Hu. apply markKind_holds; [done|by apply unchanged_completes|done]. Qed.

Ltac by_mark :=
  lazymatch goal with
  | |- marks [KVirtualMachine] _ => apply (markKind_holds KVirtualMachine "VirtualMachine" haltVM (updateIn KVirtualMachine)); [done|apply haltVM_completes|done]
  | |- marks [KObjectBucketClaim] _ => apply obc_holds
  | |- marks [KNamespace] _ => apply namespace_holds
  | |- marks [?kind] _ =>
    let s := eval cbn in (λ o : Object R, scope kind o) in
    lazymatch s with
    | (λ _, None) => apply (unchanged_holds kind _ (updateCluster kind)); done
    | _ => apply (unchanged_holds kind _ (updateIn kind)); done
    end
  | |- marks (_ :: _ :: _) _ => apply markKinds_holds; repeat first [apply Forall2_nil_2|apply Forall2_cons_2]; by_mark
  end.

Lemma markCleaners_hold Debug : Forall2 (λ kinds c, marks kinds (Mark c namespace date)) marked_kinds (markCleaners LabelMarkKey Debug).
Proof.
  repeat first [apply Forall2_nil_2|apply Forall2_cons_2]; by_mark.
Qed.

Lemma marking_holds kinds c : marks kinds (Mark c namespace date) → marks kinds (marking namespace date c).
Proof.
  intros Hm h Hn. unfold marking. eapply holds_then; [by apply Hm|]. intros [[]|e] h1 Hk _; [done|]. by apply holds_bind, markAlert_holds.
Qed.

Lemma Wait_Ok rs : Wait rs = Ok tt → Forall (λ r, r = Ok tt) rs.
Proof. induction rs as [|[[]|e] rs IH]; cbn; [constructor|constructor; auto|done]. Qed.
End marking.

Section labeling.
Context {R : Type} {CL : CollectorLib R}.
Context (LabelMarkKey SpxPrefix : string) (Debug : bool) (Delay : Z) (zone : Z → Z).
Abbreviation History := (list (Event (@Reply R))).

(** Every object of the project that was listed has the mark of the same date. *)
Definition all_marked (namespace : string) (h : History) : Prop := ∃ now : Z, mkEvent (Reply:=@Reply R) Now now ∈ h ∧
  Forall (λ kind, kind_marked LabelMarkKey namespace (deletionDate Delay zone now) kind h) (concat marked_kinds).

Lemma labeling_holds namespace :
  main_holds True (mark_may LabelMarkKey Delay zone namespace) (deletionLabeling LabelMarkKey Debug Delay zone namespace) []
    (λ err h, err = Ok tt → all_marked namespace h).
Proof.
  split; [done|]. intros now. set (h := _ ++ _). set (date := deletionDate Delay zone now).
  exists (λ _, True), ((λ kinds r h', r = Ok tt → Forall (λ kind, kind_marked LabelMarkKey namespace date kind h') kinds) <$> marked_kinds).
  assert (mkEvent (Reply:=@Reply R) Now now ∈ h) as Hn by by left. split_and!.
  - apply Forall_fmap, Forall_forall. intros kinds _ r h1 h2 _ Hk Hr. eapply Forall_impl; [by apply Hk|].
    intros kind. apply kind_marked_prefix. by eexists.
  - rewrite Forall2_fmap. apply Forall2_flip. eapply Forall2_impl; [apply (markCleaners_hold _ Delay zone namespace now Debug)|].
    intros kinds c Hm. by apply marking_holds.
  - intros rs tr _ Hrs Hok%Wait_Ok. exists now. split; [apply elem_of_app; by left|]. rewrite Forall2_fmap_r in Hrs.
    apply Forall_concat. clear -Hrs Hok. induction Hrs as [|r kinds rs l Hr _ IH]; [constructor|].
    inversion Hok; subst. constructor; auto.
Qed.

(** C34: whatever the servers answer and the order of the goroutines, and wherever it is interrupted, the
    marking of a project deletes nothing, and only writes the objects that were listed with the label of the
    project, and its namespace: it sets the label of the mark to the date of the request plus the delay,
    and halts the virtual machines. If it answers 200, then all the objects that were listed have the mark
    on the server, and the namespace has it too or does not exist. *)
Theorem marking_marks projectId tr m :
  runs (MarkForDeletion LabelMarkKey SpxPrefix Debug Delay zone projectId) tr m →
  obeys (mark_may LabelMarkKey Delay zone (GetNamespace SpxPrefix projectId)) [] tr ∧
  (m = MRet' 200 → all_marked (GetNamespace SpxPrefix projectId) tr).
Proof.
  intros Hr. eapply (runs_holds _ _ _ _ _ _ (λ status h, status = 200 → all_marked _ h)) in Hr as [Ho Hm]; [|apply main_map_holds].
  - split; [exact Ho|]. intros ->. by apply Hm.
  - eapply main_holds_mono; [|apply labeling_holds]. intros [[]|e] h H; [by intros _; apply H|done].
Qed.

(** C35: the date that a marking writes is read back by the collection as the date of the request plus the
    delay, to the second, in whatever zone the process is; the clock is after it or not. *)
Theorem mark_expires (item : Object R) (labels : gmap string string) (now : Z) :
  zone_ok (zone (now + Delay)) → 0 ≤ yearIn (zone (now + Delay)) (now + Delay) < 10000 →
  ParseTimestamp LabelMarkKey (set_labels (<[LabelMarkKey := deletionDate Delay zone now]> labels) item) =
  (later ← call (Reply:=@Reply R) Now; mret (Ok (bool_decide ((now + Delay) / second * second < later)))).
Proof.
  intros Hz Hy. pose proof (Parse_Format _ _ Hz Hy) as HP.
  assert (label (set_labels (<[LabelMarkKey := deletionDate Delay zone now]> labels) item) LabelMarkKey =
    FormatTime (zone (now + Delay)) (now + Delay)) as Hl by (unfold label; cbn; by rewrite lookup_insert_eq).
  unfold ParseTimestamp. rewrite Hl. case_decide as He; [by rewrite HP|]. by rewrite He in HP.
Qed.

(** Outside of UTC and the zones to the west of it the date has a [+]. *)
Lemma deletionDate_plus now : zone_ok (zone (now + Delay)) → 0 ≤ yearIn (zone (now + Delay)) (now + Delay) < 10000 →
  occurs (Ascii.ascii_of_N 43) (deletionDate Delay zone now) = (0 <? zone (now + Delay)).
Proof. apply Format_plus. Qed.

(** An object that was marked and that a collection lists is deleted once its date has passed. *)
Lemma marked_is_collected tr kind item o now :
  collected LabelMarkKey false true tr → kind ∈ kinds1 ++ kinds2 ++ kinds3 →
  zone_ok (zone (now + Delay)) → 0 ≤ yearIn (zone (now + Delay)) (now + Delay) < 10000 →
  marked LabelMarkKey kind (deletionDate Delay zone now) item o →
  ∃ list : list (Object R), mkEvent (Reply:=@Reply R) (ListObjects kind) list ∈ tr ∧
    (o ∈ list → ∃ later : Z, mkEvent (Reply:=@Reply R) Now later ∈ tr ∧
      ((now + Delay) / second * second < later → requested tr (first_request kind o))).
Proof.
  intros Hc Hk Hz Hy (_ & _ & (labels & _ & Hl) & _). unfold collected in Hc. rewrite Forall_forall in Hc.
  destruct (Hc kind Hk) as (list & Hlist & Hs). exists list. split; [done|]. intros Ho.
  destruct (Hs o ((now + Delay) / second * second) Ho) as (later & Hlater & Hr).
  - unfold label. rewrite Hl, lookup_insert_eq. by apply Parse_Format.
  - exists later. auto.
Qed.
End labeling.

(** ** A cluster *)
Module GcSample.
Definition key : string := "superphenix.net/markedForDeletion".
Definition hour : Z := 3600 * second.

#[export] Instance lib : CollectorLib unit := { TransformRest _ r := Some r }.

Definition vm : Object unit :=
  mkObject "spx-1" "vm-1" (Some {[SpxLabelProjectID := "spx-1"]}) (Some None) (Some "Always") tt.
Definition other : Object unit :=
  mkObject "spx-2" "vm-2" (Some {[SpxLabelProjectID := "spx-2"]}) (Some None) (Some "Always") tt.
Definition namespace : Object unit := mkObject EmptyString "spx-1" (Some ∅) None None tt.

(** The cache of the informer, with the labels that were set in it. *)
Definition cached (h : list (Event (@Reply unit))) (o : Object unit) : Object unit :=
  fold_left (λ o e,
    match ev_Request e with
    | SetCachedLabels _ n name labels => if decide (n = ob_Namespace o ∧ name = ob_Name o) then set_labels labels o else o
    | _ => o
    end) h o.

(** Updates are refused, or not; an hour passes between two requests. *)
Definition server (vms : list (Object unit)) (refuses : bool) (h : list (Event (@Reply unit))) (q : Request unit) : Reply q :=
  match q return Reply q with
  | ListObjects KVirtualMachine => cached h <$> vms
  | ListObjects _ => []
  | GetNamespaceObject _ => Ok namespace
  | UpdateObject _ _ _ => if refuses then Err (Errorf "conflict") else Ok tt
  | DeleteObject _ _ _ => Ok tt
  | Now => Z.of_nat (length h) * hour
  | ContextDone => false
  | SetCachedLabels _ _ _ _ | Sleep _ | Alert _ _ _ _ => tt
  end.

Definition mark (refuses : bool) :=
  exec (server [vm; other] refuses) (λ h, length h) 100 [] (MarkForDeletion key "spx" false hour (λ _, 0) "1").
Definition collect (vms : list (Object unit)) (h : list (Event (@Reply unit))) :=
  exec (server vms false) (λ h, length h) 200 h (garbageCollection key false).

(** A virtual machine whose date is an hour and a second after 1970, and another in a year. *)
Definition past : Object unit := set_labels {[key := "1970-01-01T02-00-01+0100"]} vm.
Definition future : Object unit := set_labels {[key := "1971-01-01T00-00-00Z"]} other.

Definition deletions (h : list (Event (@Reply unit))) : list (Request unit) :=
  omap (λ e, match ev_Request e with DeleteObject _ _ _ => Some (ev_Request e) | _ => None end) h.
End GcSample.

#[local] Existing Instance GcSample.lib.

(** The marking fails, yet the object is deleted: its label was set in the cache of the informer. *)
Lemma refused_mark_is_collected :
  (GcSample.mark true).1 = MRet' 500 ∧
  (GcSample.collect [GcSample.vm; GcSample.other] (GcSample.mark true).2).1 = MRet' true ∧
  GcSample.deletions (GcSample.collect [GcSample.vm; GcSample.other] (GcSample.mark true).2).2 = [DeleteObject KVirtualMachine (Some "spx-1") "vm-1"].
Proof. vm_compute. done. Qed.

(** ** Witnesses *)

Lemma collection_guarded_witness :
  let tr := (GcSample.collect [GcSample.past; GcSample.future] []).2 in
  GcSample.deletions tr = [DeleteObject KVirtualMachine (Some "spx-1") "vm-1"] ∧ obeys (collect_may GcSample.key false) [] tr.
Proof.
  split; [vm_compute; reflexivity|]. unfold GcSample.collect.
  pose proof (exec_runs (GcSample.server [GcSample.past; GcSample.future] false) (λ h, length h) 200 (garbageCollection GcSample.key false) []) as H.
  destruct (exec _ _ 200 [] _) as [m h]. destruct H as (tr & -> & Hr). exact (collection_guarded GcSample.key false tr m Hr).
Defined.

Lemma marking_marks_witness :
  let '(m, tr) := GcSample.mark false in m = MRet' 200 ∧
  obeys (mark_may GcSample.key GcSample.hour (λ _, 0) "spx-1") [] tr ∧ all_marked GcSample.key GcSample.hour (λ _, 0) "spx-1" tr.
Proof.
  assert ((GcSample.mark false).1 = MRet' 200) as Hm by (vm_compute; reflexivity). unfold GcSample.mark in *.
  pose proof (exec_runs (GcSample.server [GcSample.vm; GcSample.other] false) (λ h, length h) 100
    (MarkForDeletion GcSample.key "spx" false GcSample.hour (λ _, 0) "1") []) as H.
  destruct (exec _ _ 100 [] _) as [m h]. destruct H as (tr & -> & Hr).
  destruct (marking_marks GcSample.key "spx" false GcSample.hour (λ _, 0) "1" tr m Hr) as [Ho Ha].
  split; [exact Hm|]. split; [exact Ho|exact (Ha Hm)].
Defined.

Lemma mark_expires_witness :
  ParseTimestamp GcSample.key (set_labels (<[GcSample.key := deletionDate GcSample.hour (λ _, - 16200) 1700000000123456789]> ∅) GcSample.vm) =
  (later ← call (Reply:=@Reply unit) Now; mret (Ok (bool_decide (1700003600000000000 < later)))).
Proof.
  apply (mark_expires GcSample.key GcSample.hour (λ _, - 16200) GcSample.vm ∅ 1700000000123456789).
  - split; [reflexivity|lia].
  - vm_compute. split; [discriminate|reflexivity].
Defined.
