(* ===== verification/Removal.v ===== *)
(** * The removal of a project, and the applications of ArgoCD
      ([internal/superphenix-api/internal/argo], [publicHttp/gc], [services/project])

    The applications of a project are created, updated and deleted through the API of ArgoCD, and
    collected like the objects of the controller ([Collector]): a mark with a date, and a sweep that one
    replica runs at a time. The removal of a project has everything marked before it deletes its rows.
    The programs are those of [Collector]: trees of requests, which any servers answer. *)

From S2P Require Import Prelude Strings Strconv Quantity Errors QuotaResources Database AZConfig SpxId.
From S2P Require Import ControllerQuota Operator Timestamps Collector CollectorTheorems.

(** ** Objects ([github.com/argoproj/argo-cd]) *)

(** [U] is a part of an object that the code only copies. *)
Record Plugin {U : Type} := mkPlugin { pl_Name : string; pl_Rest : U }.
Arguments Plugin : clear implicits.
Arguments mkPlugin {U}.

Record AppSource {U : Type} := mkAppSource {
  as_RepoURL : string; as_TargetRevision : string; as_Chart : string; as_Path : string; as_Helm : U; as_Plugin : Plugin U }.
Arguments AppSource : clear implicits.
Arguments mkAppSource {U}.

Record ApplicationSource {U : Type} := mkApplicationSource {
  src_RepoURL : string; src_TargetRevision : string; src_Chart : string; src_Path : string;
  src_Helm : option U; src_Plugin : option (Plugin U) }.
Arguments ApplicationSource : clear implicits.
Arguments mkApplicationSource {U}.

Record SyncPolicy := mkSyncPolicy { sp_SelfHeal : bool; sp_Prune : bool; sp_SyncOptions : list string }.

Record Application {U : Type} := mkApplication {
  app_Name : string; app_Namespace : string; app_Labels : option (gmap string string); app_Source : option (ApplicationSource U);
  app_IgnoreDifferences : U; app_DestinationName : string; app_DestinationNamespace : string; app_Project : string;
  app_SyncPolicy : option SyncPolicy; app_RevisionHistoryLimit : option Z; app_Rest : U }.
Arguments Application : clear implicits.
Arguments mkApplication {U}.

(** Pairs of a group and a kind, and of the name of a cluster and a namespace. *)
Record AppProject {U : Type} := mkAppProject {
  ap_Name : string; ap_Namespace : string; ap_Labels : option (gmap string string); ap_Finalizers : list string;
  ap_SourceNamespaces : list string; ap_SourceRepos : list string; ap_ClusterResourceWhitelist : list (string * string);
  ap_Description : string; ap_Destinations : list (string * string); ap_Rest : U }.
Arguments AppProject : clear implicits.
Arguments mkAppProject {U}.

Definition set_app_labels {U} (labels : gmap string string) (a : Application U) : Application U :=
  mkApplication (app_Name a) (app_Namespace a) (Some labels) (app_Source a) (app_IgnoreDifferences a) (app_DestinationName a)
    (app_DestinationNamespace a) (app_Project a) (app_SyncPolicy a) (app_RevisionHistoryLimit a) (app_Rest a).

Definition set_project_labels {U} (labels : gmap string string) (p : AppProject U) : AppProject U :=
  mkAppProject (ap_Name p) (ap_Namespace p) (Some labels) (ap_Finalizers p) (ap_SourceNamespaces p) (ap_SourceRepos p)
    (ap_ClusterResourceWhitelist p) (ap_Description p) (ap_Destinations p) (ap_Rest p).

(** ** Requests *)

(** [ErrGitopsManaged] and [ErrProjectNotInOrga] are errors of the API. *)
Inductive ApiError :=
  | AlreadyExists
  | RowNotFound
  | ErrGitopsManaged
  | ErrProjectNotInOrga
  | InvalidMetadata (err : MetadataError)
  | ApiErrorf (text : string).

(** A list is given a selector: the objects that have the label of the mark, or the label of a project. *)
Inductive Selector := HasMark | OfProject (value : string).

Inductive ApiRequest {U : Type} :=
  | CreateNamespace (name : string) (labels : gmap string string)
  | CreateAppProject (p : AppProject U)
  | GetAppProject (namespace name : string)
  | UpdateAppProject (namespace : string) (p : AppProject U)
  | DeleteAppProject (namespace name : string)
  | ListAppProjects (namespace : string) (selector : Selector)
  | CreateApplication (namespace : string) (a : Application U)
  | GetApplication (namespace name : string)
  | UpdateApplication (namespace : string) (a : Application U)
  | PatchFinalizer (namespace name : string)
  | DeleteApplication (namespace name : string)
  | ListApplications (namespace : string) (selector : Selector)
  | ApiNow
  | ContextErr
  | WaitMinute
  | TryLock
  | ReleaseLock
  | SendMark (url bearer : string)
  | FindProject (project organization : string)
  | DeleteProducts (project organization : string)
  | DeleteProjectRow (project organization : string)
  | DeleteRelations (organization project : string).
Arguments ApiRequest : clear implicits.

(** [WaitMinute] is the [select] of a timer and of the context: an error if the context was done first.
    [SendMark] answers a status. *)
Definition ApiReply {U} (q : ApiRequest U) : Type :=
  match q with
  | GetAppProject _ _ => result ApiError (AppProject U)
  | ListAppProjects _ _ => result ApiError (list (AppProject U))
  | GetApplication _ _ => result ApiError (Application U)
  | ListApplications _ _ => result ApiError (list (Application U))
  | ApiNow => Z
  | ContextErr => option ApiError
  | TryLock => result ApiError bool
  | ReleaseLock => unit
  | SendMark _ _ => result ApiError Z
  | CreateNamespace _ _ | CreateAppProject _ | UpdateAppProject _ _ | DeleteAppProject _ _ | CreateApplication _ _
  | UpdateApplication _ _ | PatchFinalizer _ _ | DeleteApplication _ _ | WaitMinute | FindProject _ _ | DeleteProducts _ _
  | DeleteProjectRow _ _ | DeleteRelations _ _ => result ApiError unit
  end.

(** A function that the main goroutine calls; [None] is a panic. *)
Fixpoint inline {Q : Type} {Reply : Q → Type} {A} (t : Thread Reply A) : Main Reply (option A) :=
  match t with Ret a => MRet' (Some a) | Panic => MRet' None | Call q k => MCall q (λ r, inline (k r)) end.

Section removal.
Context {U : Type} {UL : UUIDLib}.
Context (SpxPrefix AppProjectNamespace LabelMarkKey : string) (Debug : bool) (Delay : Z) (zone : Z → Z).
Context (AZs : gmap string AZConfig) (nothing : U).
Abbreviation Action A := (Thread (@ApiReply U) A).
Abbreviation Program A := (Main (@ApiReply U) A).
Abbreviation ask q := (call (Reply:=@ApiReply U) q).

(** An error ends the function. *)
Definition checked {A B} (m : Action (result ApiError A)) (f : A → Action (result ApiError B)) : Action (result ApiError B) :=
  r ← m; match r with Ok a => f a | Err e => mret (Err e) end.

(** ** Applications ([argo/app.go], [appproject.go], [namespace.go], [client.go]) *)

Definition ArgoNamespace (projectId : string) : string := ToSPXID SpxPrefix projectId.

Definition projectLabels (orgaId projectId : string) : gmap string string :=
  GetLabels SpxPrefix (mkMetadata orgaId projectId EmptyString EmptyString).

Definition ensureNamespace (orgaId projectId : string) : Action (result ApiError unit) :=
  err ← ask (CreateNamespace (ArgoNamespace projectId) (projectLabels orgaId projectId));
  match err with Err AlreadyExists => mret (Ok tt) | _ => mret err end.

Definition newAppProject (orgaId projectId : string) : AppProject U :=
  let name := "spx-" +:+ projectId in
  mkAppProject name AppProjectNamespace (Some (projectLabels orgaId projectId)) ["resources-finalizer.argocd.argoproj.io"]
    [name] ["*"] [("*", "*")] ("Project to deploy Superphénix resources in project spx-" +:+ projectId)
    [("*", ArgoNamespace projectId); ("*", "velero-system")] nothing.

Definition updateAppProject (appProject : AppProject U) : Action (result ApiError unit) :=
  checked (ask (GetAppProject AppProjectNamespace (ap_Name appProject))) (λ project : AppProject U,
  ask (UpdateAppProject AppProjectNamespace
    (mkAppProject (ap_Name project) (ap_Namespace project) (ap_Labels project) (ap_Finalizers project)
      (ap_SourceNamespaces appProject) (ap_SourceRepos appProject) (ap_ClusterResourceWhitelist appProject)
      (ap_Description appProject) (ap_Destinations appProject) (ap_Rest project)))).

Definition ensureAppProject (orgaId projectId : string) : Action (result ApiError unit) :=
  let appProject := newAppProject orgaId projectId in
  err ← ask (CreateAppProject appProject);
  match err with Err AlreadyExists => updateAppProject appProject | _ => mret err end.

Definition applicationSource (s : AppSource U) : ApplicationSource U :=
  if decide (pl_Name (as_Plugin s) ≠ EmptyString)
  then mkApplicationSource (as_RepoURL s) (as_TargetRevision s) (as_Chart s) (as_Path s) None (Some (as_Plugin s))
  else mkApplicationSource (as_RepoURL s) (as_TargetRevision s) (as_Chart s) (as_Path s) (Some (as_Helm s)) None.

Definition DefaultSyncPolicy : SyncPolicy :=
  mkSyncPolicy true true ["CreateNamespace=false"; "ApplyOutOfSyncOnly=true"; "RespectIgnoreDifferences=true"].

Record AppGeneral := mkAppGeneral { ag_AppName : string; ag_Destination : string }.
Record AppSpec := mkAppSpec { spec_Source : AppSource U; spec_IgnoreDifferences : U }.
Record CreateAppInfo := mkCreateAppInfo { ci_Metadata : Metadata; ci_General : AppGeneral; ci_Spec : AppSpec }.

Definition newApplication (m : Metadata) (info : CreateAppInfo) : Application U :=
  let namespace := ToSPXID SpxPrefix (ProjectId m) in
  mkApplication (ag_AppName (ci_General info)) namespace (Some (GetLabels SpxPrefix m))
    (Some (applicationSource (spec_Source (ci_Spec info)))) (spec_IgnoreDifferences (ci_Spec info))
    (ag_Destination (ci_General info)) namespace namespace (Some DefaultSyncPolicy) (Some 3) nothing.

Definition CreateApp (info : CreateAppInfo) : Action (result ApiError unit) :=
  let '(m, err) := ConvertToSpxMetadata (ci_Metadata info) (ci_Metadata info) in
  match err with
  | Some err => mret (Err (InvalidMetadata err))
  | None =>
    checked (ensureNamespace (OrgId m) (ProjectId m)) (λ _,
    checked (ensureAppProject (OrgId m) (ProjectId m)) (λ _,
    ask (CreateApplication (ToSPXID SpxPrefix (ProjectId m)) (newApplication m info))))
  end.

Definition labelOf (labels : option (gmap string string)) (key : string) : string :=
  match labels with Some labels => default EmptyString (labels !! key) | None => EmptyString end.

Definition UpdateApp (name namespace : string) (info : AppSpec) : Action (result ApiError unit) :=
  checked (ask (GetApplication namespace name)) (λ a : Application U,
  if decide (labelOf (app_Labels a) SpxLabelGitops = "true") then mret (Err ErrGitopsManaged) else
  ask (UpdateApplication namespace
    (mkApplication (app_Name a) (app_Namespace a) (app_Labels a) (Some (applicationSource (spec_Source info)))
      (spec_IgnoreDifferences info) (app_DestinationName a) (app_DestinationNamespace a) (app_Project a)
      (Some DefaultSyncPolicy) (app_RevisionHistoryLimit a) (app_Rest a)))).

Definition DeleteApp (name namespace : string) : Action (result ApiError unit) :=
  checked (ask (PatchFinalizer namespace name)) (λ _, ask (DeleteApplication namespace name)).

(** ** The cleaners ([argo/gc/cleaner]) *)

Definition ParseArgoTimestamp (labels : option (gmap string string)) : Action (result ApiError bool) :=
  let deletionTimestamp := labelOf labels LabelMarkKey in
  if decide (deletionTimestamp = EmptyString) then mret (Err (ApiErrorf "no timestamp found")) else
  match ParseTime deletionTimestamp with
  | None => mret (Err (ApiErrorf "parsing time"))
  | Some date => now ← ask ApiNow; mret (Ok (bool_decide (date < now)))
  end.

(** The loop of [Clean]; errors are logged. *)
Fixpoint sweepItems {T} (labels : T → option (gmap string string)) (delete : T → Action unit) (items : list T) : Action unit :=
  match items with
  | [] => mret tt
  | item :: items =>
    expired ← ParseArgoTimestamp (labels item);
    _ ← match expired with
        | Ok true => if Debug then mret tt else delete item
        | _ => mret tt
        end;
    sweepItems labels delete items
  end.

Definition deleteExpiredApp (item : Application U) : Action unit :=
  err ← ask (PatchFinalizer (app_Namespace item) (app_Name item));
  match err with
  | Err _ => mret tt
  | Ok _ => _ ← ask (DeleteApplication (app_Namespace item) (app_Name item)); mret tt
  end.

Definition deleteExpiredProject (item : AppProject U) : Action unit :=
  _ ← ask (DeleteAppProject AppProjectNamespace (ap_Name item)); mret tt.

Definition appClean : Action (result ApiError unit) :=
  checked (ask (ListApplications EmptyString HasMark)) (λ items : list (Application U),
  _ ← sweepItems app_Labels deleteExpiredApp items; mret (Ok tt)).

Definition appProjectClean : Action (result ApiError unit) :=
  checked (ask (ListAppProjects AppProjectNamespace HasMark)) (λ items : list (AppProject U),
  _ ← sweepItems ap_Labels deleteExpiredProject items; mret (Ok tt)).

(** The labels with the mark; a nil map is made first. *)
Definition withMark (timestamp : string) (labels : option (gmap string string)) : gmap string string :=
  <[LabelMarkKey := timestamp]> (default ∅ labels).

Fixpoint stampItems {T} (update : T → Action (result ApiError unit)) (items : list T) : Action (result ApiError unit) :=
  match items with
  | [] => mret (Ok tt)
  | item :: items =>
    err ← update item;
    match err with Err _ => mret (Err (ApiErrorf "failed to mark item")) | Ok _ => stampItems update items end
  end.

Definition appMark (namespace timestamp : string) : Action (result ApiError unit) :=
  checked (ask (ListApplications namespace (OfProject namespace))) (stampItems (λ item : Application U,
    ask (UpdateApplication (app_Namespace item) (set_app_labels (withMark timestamp (app_Labels item)) item)))).

Definition appProjectMark (namespace timestamp : string) : Action (result ApiError unit) :=
  checked (ask (ListAppProjects AppProjectNamespace (OfProject namespace))) (stampItems (λ item : AppProject U,
    ask (UpdateAppProject AppProjectNamespace (set_project_labels (withMark timestamp (ap_Labels item)) item)))).

(** ** The sweep and the marking ([argo/gc/gc.go], [mark.go]) *)

(** What runs while the lock is held. *)
Definition lockedSweep : Action (result ApiError unit) :=
  _ ← appClean;
  done ← ask ContextErr;
  match done with
  | Some err => mret (Err err)
  | None =>
    checked (ask WaitMinute) (λ _, _ ← appProjectClean; mret (Ok tt))
  end.

(** One replica of the API sweeps at a time; the release of the lock is deferred. *)
Definition argoCollection : Program (option (result ApiError unit)) :=
  MCall (Reply:=@ApiReply U) TryLock (λ acquired : result ApiError bool,
    match acquired with
    | Err err => MRet' (Some (Err err))
    | Ok false => MRet' (Some (Ok tt))
    | Ok true => main_bind (inline lockedSweep) (λ r, MCall (Reply:=@ApiReply U) ReleaseLock (λ _, MRet' r))
    end).

Definition stamping (m : Action (result ApiError unit)) : Action (result OpError unit) :=
  err ← m; mret (match err with Ok _ => Ok tt | Err _ => Err (Errorf "failed to mark item") end).

Definition argoDate (now : Z) : string := FormatTime (zone (now + Delay)) (now + Delay).

Definition argoMark (namespace : string) : Program (result ApiError unit) :=
  MCall (Reply:=@ApiReply U) ApiNow (λ now : Z,
    MWait [stamping (appMark namespace (argoDate now)); stamping (appProjectMark namespace (argoDate now))] (λ rs,
      MRet' (match Wait rs with Ok _ => Ok tt | Err e => Err (ApiErrorf (oe_text e)) end))).

(** ** The removal of a project ([publicHttp/gc/gc.go], [services/project/project.go]) *)

Definition markUrl (az : AZConfig) (orgId projectId : string) : string :=
  ControllerUrl az +:+ "/" +:+ orgId +:+ "/" +:+ projectId +:+ "/mark".

(** An availability zone that does not know the project has nothing to mark. *)
Definition callMarkEndpoint (az : AZConfig) (r : result ApiError Z) : result ApiError unit :=
  match r with
  | Err _ => Err (ApiErrorf ("failed to send request on gc " +:+ Code az))
  | Ok status =>
    if decide (status ≠ 200 ∧ status ≠ 404) then Err (ApiErrorf ("failed to mark resources on " +:+ Code az)) else Ok tt
  end.

Fixpoint callMarkEndpoints (azs : list AZConfig) (orgId projectId : string) : Program (result ApiError unit) :=
  match azs with
  | [] => MRet' (Ok tt)
  | az :: azs =>
    MCall (Reply:=@ApiReply U) (SendMark (markUrl az orgId projectId) (AuthSecret az)) (λ r : result ApiError Z,
      match callMarkEndpoint az r with
      | Err err => MRet' (Err err)
      | Ok _ => callMarkEndpoints azs orgId projectId
      end)
  end.

(** The program goes on if there is no error. *)
Definition next {A B} (m : Program (result ApiError A)) (f : A → Program (result ApiError B)) : Program (result ApiError B) :=
  main_bind m (λ r, match r with Ok a => f a | Err e => MRet' (Err e) end).
Definition send {A} (q : ApiRequest U) (f : ApiReply q → result ApiError A) : Program (result ApiError A) :=
  MCall (Reply:=@ApiReply U) q (λ r, MRet' (f r)).

Definition MarkResources (orgId projectId : string) : Program (result ApiError unit) :=
  next (callMarkEndpoints (FindAll AZs orgId) orgId projectId) (λ _, argoMark (ArgoNamespace projectId)).

Definition RemoveProject (orgaId projectId : string) : Program (result ApiError unit) :=
  match uuid_Parse orgaId, uuid_Parse projectId with
  | Some orgaUuid, Some projectUuid =>
    let o := uuid_String orgaUuid in
    let p := uuid_String projectUuid in
    next (send (FindProject p o) (λ r : result ApiError unit, match r with Err RowNotFound => Err ErrProjectNotInOrga | _ => r end)) (λ _,
    next (MarkResources orgaId projectId) (λ _,
    next (send (DeleteProducts p o) id) (λ _,
    next (send (DeleteProjectRow p o) id) (λ _,
    send (DeleteRelations orgaId projectId) id))))
  | _, _ => MRet' (Err (ApiErrorf "invalid UUID"))
  end.

(** The status of the response; [projectId] is a parameter of the query. *)
Definition DeleteProject (orgaId : string) (projectId : option string) : Program Z :=
  match projectId with
  | None => MRet' 400
  | Some projectId =>
    main_map (λ err, match err with Ok _ => 200 | Err ErrProjectNotInOrga => 404 | Err _ => 500 end) (RemoveProject orgaId projectId)
  end.
End removal.

(** ** Requests of a goroutine *)
Section requests.
Context {Q : Type} {Reply : Q → Type}.
Implicit Types h : list (Event Reply).

Lemma in_prefix h h' (e : Event Reply) : h `prefix_of` h' → e ∈ h → e ∈ h'.
Proof. intros [tr ->] ?. apply elem_of_app. by left. Qed.

Lemma in_snoc h (e : Event Reply) : e ∈ h ++ [e].
Proof. apply elem_of_app. right. by left. Qed.

Lemma request_holds panics (G : Q → Prop) P q h (Φ : Reply q → list (Event Reply) → Prop) :
  G q → (∀ h', h `prefix_of` h' → P h' q) → (∀ h' r, h `prefix_of` h' → Φ r (h' ++ [mkEvent q r])) → holds panics G P (call q) h Φ.
Proof.
  intros HG Hq HΦ. apply holds_call; [done|]. intros others _. split; [apply Hq; by eexists|].
  intros r. rewrite app_assoc. apply HΦ. by eexists.
Qed.

Lemma inline_holds {A} G P (t : Thread Reply A) h Φ :
  holds False G P t h Φ → main_holds False P (inline t) h (λ r h', ∃ a tr, r = Some a ∧ h' = h ++ tr ∧ guaranteed G tr ∧ Φ a h').
Proof.
  revert h. induction t as [a| |q k IH]; intros h; cbn.
  - intros HΦ. exists a, []. rewrite app_nil_r. split_and!; [done|done|constructor|done].
  - done.
  - intros [HG Hq]. destruct (Hq [] (Forall_nil_2 _)) as [HP Hr]. rewrite app_nil_r in HP. split; [done|]. intros r.
    eapply main_holds_mono; [|apply IH, Hr]. intros o h' (a & tr & -> & -> & Htr & HΦ).
    exists a, (mkEvent q r :: tr). rewrite <-app_assoc in HΦ |- *. split_and!; [done|done|by constructor|done].
Qed.

Lemma inline_bind_holds {A B} panics P (t : Thread Reply A) (f : A → Thread Reply B) h (Φ : option B → list (Event Reply) → Prop) :
  main_holds panics P (inline t) h (λ o h', match o with Some a => main_holds panics P (inline (f a)) h' Φ | None => Φ None h' end) →
  main_holds panics P (inline (t ≫= f)) h Φ.
Proof.
  revert h. induction t as [a| |q k IH]; intros h; cbn; [done..|]. intros [HP Hr]. split; [done|]. intros r. apply IH, Hr.
Qed.
End requests.

(** ** What a removal asks for *)
Section removals.
Context {U : Type} {UL : UUIDLib}.
Context (SpxPrefix AppProjectNamespace LabelMarkKey : string) (Delay : Z) (zone : Z → Z) (AZs : gmap string AZConfig).
Context (orgaId projectId : string).
Abbreviation History := (list (Event (@ApiReply U))).
Abbreviation Ev q r := (mkEvent (Reply:=@ApiReply U) q r).
Abbreviation namespace := (ArgoNamespace SpxPrefix projectId).
Implicit Types h : History.

(** The identifiers of the rows. *)
Definition row_ids (p o : string) : Prop :=
  ∃ pu ou, uuid_Parse projectId = Some pu ∧ uuid_Parse orgaId = Some ou ∧ p = uuid_String pu ∧ o = uuid_String ou.

(** The project was found in the organization. *)
Definition in_organization h : Prop := ∃ p o, row_ids p o ∧ Ev (FindProject p o) (Ok tt) ∈ h.

(** The zone has answered: 200 when it has marked the objects, 404 when nothing there answers for the
    project, in which case nothing was marked. *)
Definition zone_marked h (az : AZConfig) : Prop :=
  ∃ status : Z, Ev (SendMark (markUrl az orgaId projectId) (AuthSecret az)) (Ok status) ∈ h ∧ (status = 200 ∨ status = 404).

Definition marked_app (now : Z) (item : Application U) : Application U :=
  set_app_labels (withMark LabelMarkKey (argoDate Delay zone now) (app_Labels item)) item.
Definition marked_project (now : Z) (item : AppProject U) : AppProject U :=
  set_project_labels (withMark LabelMarkKey (argoDate Delay zone now) (ap_Labels item)) item.

Definition apps_marked h : Prop := ∃ (now : Z) items, Ev ApiNow now ∈ h ∧ Ev (ListApplications namespace (OfProject namespace)) (Ok items) ∈ h ∧
  ∀ item, item ∈ items → Ev (UpdateApplication (app_Namespace item) (marked_app now item)) (Ok tt) ∈ h.
Definition projects_marked h : Prop := ∃ (now : Z) items, Ev ApiNow now ∈ h ∧ Ev (ListAppProjects AppProjectNamespace (OfProject namespace)) (Ok items) ∈ h ∧
  ∀ item, item ∈ items → Ev (UpdateAppProject AppProjectNamespace (marked_project now item)) (Ok tt) ∈ h.

(** Every zone of the organization has answered, and the objects of ArgoCD that were listed have the mark. *)
Definition everything_marked h : Prop :=
  (∀ az, az ∈ FindAll AZs orgaId → zone_marked h az) ∧ apps_marked h ∧ projects_marked h.

Definition remove_may h (q : ApiRequest U) : Prop :=
  match q with
  | FindProject p o => row_ids p o
  | SendMark url bearer => in_organization h ∧ ∃ az, az ∈ FindAll AZs orgaId ∧ url = markUrl az orgaId projectId ∧ bearer = AuthSecret az
  | ApiNow => in_organization h
  | ListApplications ns selector => in_organization h ∧ ns = namespace ∧ selector = OfProject namespace
  | ListAppProjects ns selector => in_organization h ∧ ns = AppProjectNamespace ∧ selector = OfProject namespace
  | UpdateApplication ns a => ∃ (now : Z) items item, Ev ApiNow now ∈ h ∧ Ev (ListApplications namespace (OfProject namespace)) (Ok items) ∈ h ∧
      item ∈ items ∧ ns = app_Namespace item ∧ a = marked_app now item
  | UpdateAppProject ns p => ∃ (now : Z) items item, Ev ApiNow now ∈ h ∧ Ev (ListAppProjects AppProjectNamespace (OfProject namespace)) (Ok items) ∈ h ∧
      item ∈ items ∧ ns = AppProjectNamespace ∧ p = marked_project now item
  | DeleteProducts p o => row_ids p o ∧ in_organization h ∧ everything_marked h
  | DeleteProjectRow p o => row_ids p o ∧ everything_marked h ∧ Ev (DeleteProducts p o) (Ok tt) ∈ h
  | DeleteRelations o p => o = orgaId ∧ p = projectId ∧ ∃ pr orr, Ev (DeleteProjectRow pr orr) (Ok tt) ∈ h
  | _ => False
  end.

Lemma in_organization_prefix h h' : h `prefix_of` h' → in_organization h → in_organization h'.
Proof. intros Hp (p & o & Hr & H). exists p, o. split; [done|by eapply in_prefix]. Qed.

Lemma zone_marked_prefix h h' az : h `prefix_of` h' → zone_marked h az → zone_marked h' az.
Proof. intros Hp (r & H & Hr). exists r. split; [by eapply in_prefix|done]. Qed.

Lemma apps_marked_prefix h h' : h `prefix_of` h' → apps_marked h → apps_marked h'.
Proof. intros Hp (now & items & Hn & Hl & Hi). exists now, items. split_and!; [by eapply in_prefix..|]. intros item Hitem. eapply in_prefix; [done|auto]. Qed.

Lemma projects_marked_prefix h h' : h `prefix_of` h' → projects_marked h → projects_marked h'.
Proof. intros Hp (now & items & Hn & Hl & Hi). exists now, items. split_and!; [by eapply in_prefix..|]. intros item Hitem. eapply in_prefix; [done|auto]. Qed.

Lemma everything_marked_prefix h h' : h `prefix_of` h' → everything_marked h → everything_marked h'.
Proof.
  intros Hp (Hz & Ha & Hap). split_and!; [|by eapply apps_marked_prefix|by eapply projects_marked_prefix].
  intros az Haz. eapply zone_marked_prefix; [done|auto].
Qed.

Abbreviation program m h Φ := (main_holds True remove_may m h Φ).
Abbreviation thread t h Φ := (holds True (λ _, True) remove_may t h Φ).

Lemma accepted_statuses az status : callMarkEndpoint az (Ok status) = Ok tt → status = 200 ∨ status = 404.
Proof. cbn. case_decide; [done|]. intros _. lia. Qed.

Lemma zones_holds azs h : in_organization h → (∀ az, az ∈ azs → az ∈ FindAll AZs orgaId) →
  program (callMarkEndpoints (U:=U) azs orgaId projectId) h (λ r h', r = Ok tt → ∀ az, az ∈ azs → zone_marked h' az).
Proof.
  revert h. induction azs as [|az azs IH]; intros h Hin Hazs; cbn [callMarkEndpoints main_holds].
  { intros _ az []%not_elem_of_nil. }
  split. { split; [done|]. exists az. split_and!; [apply Hazs; by left|done..]. }
  intros [status|e]; [|done]. destruct (callMarkEndpoint az (Ok status)) as [[]|] eqn:Hr; [|done].
  eapply main_holds_mono; [|apply main_holds_extends, IH].
  - intros r' h' [H Hp] Hok az' [->|Haz]%elem_of_cons; [|by apply H]. exists status. split; [eapply in_prefix; [exact Hp|apply in_snoc]|]. by apply accepted_statuses in Hr.
  - eapply in_organization_prefix; [|exact Hin]. by eexists.
  - intros az' Haz. apply Hazs. by right.
Qed.

(** Items of a list are stamped one after the other, up to the first refusal. *)
Lemma stampItems_holds {T} (request : T → ApiRequest U) (update : T → Thread (@ApiReply U) (result ApiError unit)) (Done : T → History → Prop) items h :
  (∀ item h, item ∈ items → (∀ h0, h `prefix_of` h0 → remove_may h0 (request item)) →
     thread (update item) h (λ r h', r = Ok tt → Done item h')) →
  (∀ item h h', h `prefix_of` h' → Done item h → Done item h') →
  (∀ item h0, item ∈ items → h `prefix_of` h0 → remove_may h0 (request item)) →
  thread (stampItems update items) h (λ r h', r = Ok tt → ∀ item, item ∈ items → Done item h').
Proof.
  intros Hu Hd. revert h. induction items as [|item items IH]; intros h Hmay; [intros _ i []%not_elem_of_nil|]. cbn [stampItems].
  eapply holds_then; [apply Hu; [by left|intros; apply Hmay; [by left|done]]|]. intros [[]|e] h1 H1 Hp1; [|done].
  eapply holds_mono; [|apply holds_extends, IH].
  - intros r h2 [H2 Hp2] Hok i [->|Hi]%elem_of_cons; [|by apply H2]. eapply Hd; [exact Hp2|by apply H1].
  - intros i h0 Hi. apply Hu. by right.
  - intros i h0 Hi Hp0. apply Hmay; [by right|by etrans].
Qed.

Lemma appMark_holds (now : Z) h : in_organization h → Ev ApiNow now ∈ h →
  thread (stamping (appMark LabelMarkKey namespace (argoDate Delay zone now))) h (λ r h', r = Ok tt → apps_marked h').
Proof.
  intros Hin Hnow. unfold stamping, appMark, checked. apply (holds_then _ _ _ _ _ _ (λ r h', r = Ok tt → apps_marked h')); [|intros [[]|e] h' H _; [exact (λ _, H eq_refl)|done]].
  apply holds_bind, (request_holds (Reply:=@ApiReply U)); [done|intros h' Hp; split; [by eapply in_organization_prefix|done]|].
  intros h1 [items|e] Hp1; [|done].
  assert (Ev (ListApplications namespace (OfProject namespace)) (Ok items) ∈ h1 ++ [mkEvent (ListApplications namespace (OfProject namespace)) (Ok items)]) as Hl by apply in_snoc.
  set (h1' := h1 ++ _) in *. assert (Ev ApiNow now ∈ h1') as Hnow1 by (eapply in_prefix; [by apply prefix_app_r|done]).
  eapply holds_mono; [|apply holds_extends, (stampItems_holds (λ item, UpdateApplication (app_Namespace item) (marked_app now item)) _
    (λ item h, Ev (UpdateApplication (app_Namespace item) (marked_app now item)) (Ok tt) ∈ h))].
  - intros r h2 [H Hp2] Hok. exists now, items. split_and!; [by eapply in_prefix..|auto].
  - intros item h2 _ Hmay. apply (request_holds (Reply:=@ApiReply U)); [done|done|]. intros h3 [[]|e] _; [|done]. intros _. apply in_snoc.
  - intros item h2 h3. apply in_prefix.
  - intros item h2 Hitem Hp2. exists now, items, item. split_and!; [by eapply in_prefix..|done|done|done].
Qed.

Lemma appProjectMark_holds (now : Z) h : in_organization h → Ev ApiNow now ∈ h →
  thread (stamping (appProjectMark AppProjectNamespace LabelMarkKey namespace (argoDate Delay zone now))) h (λ r h', r = Ok tt → projects_marked h').
Proof.
  intros Hin Hnow. unfold stamping, appProjectMark, checked. apply (holds_then _ _ _ _ _ _ (λ r h', r = Ok tt → projects_marked h')); [|intros [[]|e] h' H _; [exact (λ _, H eq_refl)|done]].
  apply holds_bind, (request_holds (Reply:=@ApiReply U)); [done|intros h' Hp; split; [by eapply in_organization_prefix|done]|].
  intros h1 [items|e] Hp1; [|done].
  assert (Ev (ListAppProjects AppProjectNamespace (OfProject namespace)) (Ok items) ∈ h1 ++ [mkEvent (ListAppProjects AppProjectNamespace (OfProject namespace)) (Ok items)]) as Hl by apply in_snoc.
  set (h1' := h1 ++ _) in *. assert (Ev ApiNow now ∈ h1') as Hnow1 by (eapply in_prefix; [by apply prefix_app_r|done]).
  eapply holds_mono; [|apply holds_extends, (stampItems_holds (λ item, UpdateAppProject AppProjectNamespace (marked_project now item)) _
    (λ item h, Ev (UpdateAppProject AppProjectNamespace (marked_project now item)) (Ok tt) ∈ h))].
  - intros r h2 [H Hp2] Hok. exists now, items. split_and!; [by eapply in_prefix..|auto].
  - intros item h2 _ Hmay. apply (request_holds (Reply:=@ApiReply U)); [done|done|]. intros h3 [[]|e] _; [|done]. intros _. apply in_snoc.
  - intros item h2 h3. apply in_prefix.
  - intros item h2 Hitem Hp2. exists now, items, item. split_and!; [by eapply in_prefix..|done|done|done].
Qed.

Lemma argoMark_holds h : in_organization h →
  program (argoMark AppProjectNamespace LabelMarkKey Delay zone namespace) h (λ r h', r = Ok tt → apps_marked h' ∧ projects_marked h').
Proof.
  intros Hin. split; [done|]. intros now. set (h1 := h ++ _).
  assert (in_organization h1) as Hin1 by (eapply in_organization_prefix; [by eexists|done]).
  assert (Ev ApiNow now ∈ h1) as Hnow by apply in_snoc.
  exists (λ _, True), [λ r h', r = Ok tt → apps_marked h'; λ r h', r = Ok tt → projects_marked h']. split_and!.
  - repeat constructor; intros r h2 h3 _ H Hr; [eapply apps_marked_prefix|eapply projects_marked_prefix]; [by eexists|auto|by eexists|auto].
  - constructor; [by apply appMark_holds|]. constructor; [by apply appProjectMark_holds|constructor].
  - intros rs tr _ Hrs. apply Forall2_cons_inv_r in Hrs as (r1 & rs' & H1 & Hrs & ->).
    apply Forall2_cons_inv_r in Hrs as (r2 & rs'' & H2 & Hrs & ->). apply Forall2_nil_inv_r in Hrs as ->.
    cbn. destruct r1 as [[]|e1]; [|done]. destruct r2 as [[]|e2]; [|done]. intros _. auto.
Qed.

Lemma MarkResources_holds h : in_organization h →
  program (MarkResources SpxPrefix AppProjectNamespace LabelMarkKey Delay zone AZs orgaId projectId) h (λ r h', r = Ok tt → everything_marked h').
Proof.
  intros Hin. eapply main_bind_holds; [by apply zones_holds|]. intros [[]|e] h1 Hp1 Hz; [|done].
  eapply main_holds_mono; [|apply main_holds_extends, argoMark_holds; by eapply in_organization_prefix].
  intros r h2 [H Hp2] Hok. destruct (H Hok) as [Ha Hap]. split_and!; [|done..].
  intros az Haz. eapply zone_marked_prefix; [exact Hp2|by apply Hz].
Qed.

(** C36: whatever the servers answer, the order of the goroutines and the moment of an interruption, the
    removal of a project asks for nothing before the project was found in the organization of the request,
    writes only the mark on the applications and the AppProjects that have its label, and deletes its rows
    only after every zone of the organization has answered the request for the marking with 200, or with 404,
    which the code takes for a zone that does not know the project, and every application and AppProject that
    was listed has the mark; the relations go last. If it succeeds, all of this was done. *)
Theorem removal_guarded tr m :
  runs (RemoveProject SpxPrefix AppProjectNamespace LabelMarkKey Delay zone AZs orgaId projectId) tr m →
  obeys remove_may [] tr ∧
  (m = MRet' (Ok tt) → ∃ p o, row_ids p o ∧ Ev (FindProject p o) (Ok tt) ∈ tr ∧ everything_marked tr ∧
    Ev (DeleteProducts p o) (Ok tt) ∈ tr ∧ Ev (DeleteProjectRow p o) (Ok tt) ∈ tr ∧ Ev (DeleteRelations orgaId projectId) (Ok tt) ∈ tr).
Proof.
  intros Hr. enough (program (RemoveProject SpxPrefix AppProjectNamespace LabelMarkKey Delay zone AZs orgaId projectId) [] (λ r tr, r = Ok tt →
    ∃ p o, row_ids p o ∧ Ev (FindProject p o) (Ok tt) ∈ tr ∧ everything_marked tr ∧
    Ev (DeleteProducts p o) (Ok tt) ∈ tr ∧ Ev (DeleteProjectRow p o) (Ok tt) ∈ tr ∧ Ev (DeleteRelations orgaId projectId) (Ok tt) ∈ tr)) as H.
  { destruct (runs_holds _ _ _ _ _ _ _ Hr H) as [Ho Hm]. split; [exact Ho|]. intros ->. by apply Hm. }
  clear Hr m tr. unfold RemoveProject. destruct (uuid_Parse orgaId) as [ou|] eqn:Ho; [|done]. destruct (uuid_Parse projectId) as [pu|] eqn:Hp; [|done].
  set (o := uuid_String ou). set (p := uuid_String pu). assert (row_ids p o) as Hids by by exists pu, ou.
  split; [done|]. intros [[]|e]; [|by destruct e]. set (h0 := _ ++ _).
  assert (Ev (FindProject p o) (Ok tt) ∈ h0) as Hfound by apply in_snoc.
  assert (in_organization h0) as Hin by by exists p, o.
  unfold next, send. cbn [main_bind id].
  eapply main_bind_holds; [by apply MarkResources_holds|]. intros [[]|e] h1 Hp1 Hm; [|done]. specialize (Hm eq_refl).
  split; [split_and!; [done|by eapply in_organization_prefix|done]|]. intros [[]|e]; [|done]. set (h2 := _ ++ _).
  assert (Ev (DeleteProducts p o) (Ok tt) ∈ h2) as Hprod by apply in_snoc.
  assert (everything_marked h2) as Hm2 by (eapply everything_marked_prefix; [by eexists|done]).
  split; [done|]. intros [[]|e]; [|done]. set (h3 := _ ++ _).
  assert (Ev (DeleteProjectRow p o) (Ok tt) ∈ h3) as Hrow by apply in_snoc.
  split; [by split_and!; [..|exists p, o]|]. intros [[]|e]; [|done]. intros _. exists p, o. set (h4 := _ ++ _).
  assert (h3 `prefix_of` h4) as Hp34 by by eexists. assert (h2 `prefix_of` h4) as Hp24 by (transitivity h3; [by eexists|done]).
  assert (h0 `prefix_of` h4) as Hp04 by (transitivity h1; [done|]; transitivity h2; [by eexists|done]).
  split_and!; [done|exact (in_prefix _ _ _ Hp04 Hfound)|exact (everything_marked_prefix _ _ Hp24 Hm2)|exact (in_prefix _ _ _ Hp24 Hprod)|
    exact (in_prefix _ _ _ Hp34 Hrow)|apply in_snoc].
Qed.
End removals.

(** ** What a sweep of ArgoCD asks for *)
Section sweeps.
Context {U : Type}.
Context (AppProjectNamespace LabelMarkKey : string) (Debug : bool).
Abbreviation History := (list (Event (@ApiReply U))).
Abbreviation Ev q r := (mkEvent (Reply:=@ApiReply U) q r).
Implicit Types h : History.

Definition acquires (e : Event (@ApiReply U)) : bool :=
  match ev_Request e as q return ApiReply q → bool with
  | TryLock => λ r, match r with Ok true => true | _ => false end
  | _ => λ _, false
  end (ev_Reply e).

Definition releases (q : ApiRequest U) : bool := match q with ReleaseLock => true | _ => false end.

(** The lock was acquired, and not released since. *)
Definition holding h : bool :=
  fold_left (λ b e, if acquires e then true else if releases (ev_Request e) then false else b) h false.

(** The date of the mark is before a reading of the clock. *)
Definition past h (labels : option (gmap string string)) : Prop := ∃ date now : Z,
  ParseTime (labelOf labels LabelMarkKey) = Some date ∧ Ev ApiNow now ∈ h ∧ date < now.

(** The minute between the applications and the AppProjects has not begun; the applications were listed. *)
Definition before_wait h : Prop := ∀ r, Ev WaitMinute r ∉ h.
Definition apps_listed h : Prop := ∃ r, Ev (ListApplications EmptyString HasMark) r ∈ h.

Definition sweep_may h (q : ApiRequest U) : Prop :=
  match q with
  | TryLock => holding h = false
  | ReleaseLock | ApiNow => holding h = true
  | ListApplications ns selector => holding h = true ∧ before_wait h ∧ ns = EmptyString ∧ selector = HasMark
  | PatchFinalizer ns name => holding h = true ∧ before_wait h ∧ Debug = false ∧ ∃ items item,
      Ev (ListApplications EmptyString HasMark) (Ok items) ∈ h ∧ item ∈ items ∧ past h (app_Labels item) ∧
      ns = app_Namespace item ∧ name = app_Name item
  | DeleteApplication ns name => holding h = true ∧ before_wait h ∧ Ev (PatchFinalizer ns name) (Ok tt) ∈ h
  | ContextErr => holding h = true ∧ before_wait h ∧ apps_listed h
  | WaitMinute => holding h = true ∧ before_wait h ∧ apps_listed h ∧ Ev ContextErr None ∈ h
  | ListAppProjects ns selector => holding h = true ∧ Ev WaitMinute (Ok tt) ∈ h ∧ ns = AppProjectNamespace ∧ selector = HasMark
  | DeleteAppProject ns name => holding h = true ∧ Debug = false ∧ Ev WaitMinute (Ok tt) ∈ h ∧ ∃ items item,
      Ev (ListAppProjects AppProjectNamespace HasMark) (Ok items) ∈ h ∧ item ∈ items ∧ past h (ap_Labels item) ∧
      ns = AppProjectNamespace ∧ name = ap_Name item
  | _ => False
  end.

(** What the goroutine that holds the lock gives to itself: it does not touch it, and does not wait either
    while it cleans. *)
Definition keeps_lock (q : ApiRequest U) : Prop := match q with TryLock | ReleaseLock => False | _ => True end.
Definition cleans (q : ApiRequest U) : Prop := match q with TryLock | ReleaseLock | WaitMinute => False | _ => True end.

Lemma cleans_keeps_lock (tr : History) : guaranteed cleans tr → guaranteed keeps_lock tr.
Proof. intros Htr. eapply Forall_impl; [exact Htr|]. by intros [[] r]. Qed.

Lemma holding_app h tr : guaranteed keeps_lock tr → holding (h ++ tr) = holding h.
Proof.
  unfold holding. rewrite fold_left_app. generalize (fold_left (λ b e, if acquires e then true else if releases (ev_Request e) then false else b) h false).
  intros b H. induction H as [|[q r] tr Hq _ IH]; [done|]. by destruct q.
Qed.

(** The lock is held, and the minute has not begun, or has ended. *)
Definition apps_phase h : Prop := holding h = true ∧ before_wait h.
Definition projects_phase h : Prop := holding h = true ∧ Ev WaitMinute (Ok tt) ∈ h.

Lemma apps_phase_app h tr : guaranteed cleans tr → apps_phase h → apps_phase (h ++ tr).
Proof.
  intros Htr [Hh Hw]. split; [rewrite holding_app; [done|by apply cleans_keeps_lock]|].
  intros r [?|Hin]%elem_of_app; [by eapply Hw|]. by eapply Forall_forall in Hin; [|exact Htr].
Qed.

Lemma projects_phase_app h tr : guaranteed cleans tr → projects_phase h → projects_phase (h ++ tr).
Proof.
  intros Htr [Hh Hw]. split; [rewrite holding_app; [done|by apply cleans_keeps_lock]|]. apply elem_of_app. by left.
Qed.

(** What is allowed in a phase. *)
Abbreviation thread I t h Φ := (holds False cleans (λ before q, I before → sweep_may before q) t h Φ).

Section phase.
Context (I : History → Prop) (HI : ∀ h, I h → holding h = true).

Lemma ParseArgoTimestamp_holds labels h : thread I (ParseArgoTimestamp LabelMarkKey labels) h (λ r h', r = Ok true → past h' labels).
Proof using HI.
  unfold ParseArgoTimestamp. case_decide; [done|]. destruct (ParseTime _) as [date|] eqn:Hd; [|done].
  apply holds_bind, (request_holds (Reply:=@ApiReply U)); [done|intros h' _ ?; by apply HI|]. intros h' now _ Hlt. exists date, now.
  injection Hlt as Hlt%bool_decide_eq_true. split_and!; [done|apply in_snoc|done].
Qed.

Lemma past_prefix h h' labels : h `prefix_of` h' → past h labels → past h' labels.
Proof. intros Hp (date & now & ? & ? & ?). exists date, now. split_and!; [done|by eapply in_prefix|done]. Qed.

Lemma sweepItems_holds {T} (labels : T → option (gmap string string)) delete items h :
  (∀ item h', item ∈ items → h `prefix_of` h' → Debug = false → past h' (labels item) → thread I (delete item) h' (λ _ _, True)) →
  thread I (sweepItems LabelMarkKey Debug labels delete items) h (λ _ _, True).
Proof using HI.
  revert h. induction items as [|item items IH]; intros h Hdelete; [done|]. cbn [sweepItems].
  eapply holds_then; [apply ParseArgoTimestamp_holds|]. intros expired h1 Hpast Hp1.
  apply (holds_then _ _ _ _ _ _ (λ _ _, True)).
  - destruct expired as [[]|e]; [|done|done]. destruct Debug eqn:Hd; [done|]. apply Hdelete; [by left|done..|by apply Hpast].
  - intros _ h2 _ Hp2. apply IH. intros i h' Hi Hp'. apply Hdelete; [by right|]. etrans; [done|]. by etrans.
Qed.
End phase.

Lemma appClean_holds h : thread apps_phase (appClean LabelMarkKey Debug) h (λ _ h', apps_listed h').
Proof.
  unfold appClean, checked. apply holds_bind, (request_holds (Reply:=@ApiReply U)); [done|by intros h' _ []|].
  intros h1 [items|e] _; [|eexists; apply in_snoc].
  set (h1' := h1 ++ _). assert (Ev (ListApplications EmptyString HasMark) (Ok items) ∈ h1') as Hl by apply in_snoc.
  eapply (holds_then _ _ _ _ _ _ (λ _ _, True)); [|intros _ h2 _ Hp; eexists; by eapply in_prefix].
  apply sweepItems_holds; [by intros h2 []|]. intros item h2 Hi Hp2 Hd Hpast. unfold deleteExpiredApp.
  apply holds_bind, (request_holds (Reply:=@ApiReply U)); [done| |].
  - intros h3 Hp3 []. split_and!; [done..|]. exists items, item. split_and!; [eapply in_prefix; [|exact Hl]; by etrans|done|eapply past_prefix; [exact Hp3|done]|done|done].
  - intros h3 [[]|e] Hp3; [|done]. apply holds_bind, (request_holds (Reply:=@ApiReply U)); [done| |done].
    intros h4 Hp4 []. split_and!; [done..|]. eapply in_prefix; [done|apply in_snoc].
Qed.

Lemma appProjectClean_holds h : thread projects_phase (appProjectClean AppProjectNamespace LabelMarkKey Debug) h (λ _ _, True).
Proof.
  unfold appProjectClean, checked. apply holds_bind, (request_holds (Reply:=@ApiReply U)); [done|by intros h' _ []|]. intros h1 [items|e] Hp1; [|done].
  set (h1' := h1 ++ _). assert (Ev (ListAppProjects AppProjectNamespace HasMark) (Ok items) ∈ h1') as Hl by apply in_snoc.
  eapply (holds_then _ _ _ _ _ _ (λ _ _, True)); [|done]. apply sweepItems_holds; [by intros h2 []|].
  intros item h2 Hi Hp2 Hd Hpast. unfold deleteExpiredProject.
  apply holds_bind, (request_holds (Reply:=@ApiReply U)); [done| |done].
  intros h3 Hp3 []. split_and!; [done..|].
  exists items, item. split_and!; [eapply in_prefix; [|exact Hl]; by etrans|done|eapply past_prefix; [exact Hp3|done]|done|done].
Qed.

(** A goroutine that cleans, in its phase. *)
Lemma phase_holds {A} (I : History → Prop) (t : Thread (@ApiReply U) A) h Ψ :
  (∀ h tr, guaranteed cleans tr → I h → I (h ++ tr)) → I h → thread I t h Ψ →
  main_holds False sweep_may (inline t) h (λ o h', I h' ∧ ∃ a, o = Some a ∧ Ψ a h').
Proof.
  intros HI Hh Ht. eapply main_holds_mono; [|apply (inline_holds cleans sweep_may)].
  - intros o h' (a & tr & -> & -> & Htr & Ha). split; [by apply HI|]. by exists a.
  - apply (holds_invariant _ _ (λ h q, I h → sweep_may h q) _ I); [exact HI|by intros h1 q Hh1 _ Hq; apply Hq|done|done].
Qed.

Lemma lockedSweep_holds h : apps_phase h →
  main_holds False sweep_may (inline (lockedSweep AppProjectNamespace LabelMarkKey Debug)) h (λ o h', holding h' = true ∧ o ≠ None).
Proof.
  intros Hh. unfold lockedSweep. apply inline_bind_holds.
  eapply main_holds_mono; [|apply (phase_holds apps_phase); [apply apps_phase_app|done|apply appClean_holds]].
  intros o h1 ([Hh1 Hw1] & r & -> & Hl1). split; [by split_and!|]. intros [e|].
  { split; [|done]. rewrite holding_app; [done|by repeat constructor]. }
  set (h2 := h1 ++ _). assert (apps_phase h2) as [Hh2 Hw2] by (apply apps_phase_app; [by repeat constructor|done]).
  split; [split_and!; [done|done|destruct Hl1 as [r' ?]; exists r'; apply elem_of_app; by left|apply in_snoc]|].
  intros w. set (h3 := h2 ++ _).
  assert (holding h3 = true) as Hh3 by (unfold h3; rewrite holding_app; [done|by repeat constructor]).
  destruct w as [[]|e]; [|done]. assert (projects_phase h3) as Hp3 by (split; [done|apply in_snoc]).
  apply (inline_bind_holds _ _ (appProjectClean AppProjectNamespace LabelMarkKey Debug)). eapply main_holds_mono; [|apply (phase_holds projects_phase); [apply projects_phase_app|exact Hp3|apply appProjectClean_holds]].
  by intros o h4 ([Hh4 _] & a & -> & _).
Qed.

Lemma argoCollection_holds :
  main_holds False sweep_may (argoCollection AppProjectNamespace LabelMarkKey Debug) [] (λ r h, holding h = false ∧ r ≠ None).
Proof.
  split; [done|]. intros [[]|e]; [|done|done]. eapply main_bind_holds.
  - apply lockedSweep_holds. split; [done|]. by intros r [[=]|[]%elem_of_nil]%elem_of_cons.
  - intros o h _ [Hh Ho]. split; [done|]. intros []. cbn [main_holds]. unfold holding. by rewrite fold_left_app.
Qed.

(** C37: whatever the servers answer, and wherever it is interrupted, a sweep of ArgoCD only makes requests while
    it holds the lock, and has released it when it ends, without a panic; outside of the debug mode it deletes applications
    that were listed with a mark whose date is before a reading of the clock, once they have the finalizer
    that deletes their resources; it waits a minute, once, after the applications were listed and swept and
    the context was found not to be done, and deletes no application any more; and only then it lists the
    AppProjects, and deletes those whose date has passed. *)
Theorem argo_sweep_guarded tr m :
  runs (argoCollection AppProjectNamespace LabelMarkKey Debug) tr m → obeys sweep_may [] tr ∧ ∀ r, m = MRet' r → holding tr = false ∧ r ≠ None.
Proof.
  intros Hr. destruct (runs_holds _ _ _ _ _ _ _ Hr argoCollection_holds) as [Ho Hm]. split; [exact Ho|]. by intros r ->.
Qed.

(** ** Several replicas *)

(** The events of a replica. *)
Definition events (i : nat) (tr : list (nat * Event (@ApiReply U))) : History :=
  omap (λ '(j, e), if decide (j = i) then Some e else None) tr.

(** The lock of PostgreSQL is given to a replica when no other one holds it. *)
Definition lock_served (tr : list (nat * Event (@ApiReply U))) : Prop :=
  ∀ before i e after, tr = before ++ (i, e) :: after → acquires e = true → ∀ j, j ≠ i → holding (events j before) = false.

Lemma events_snoc i tr j e : events i (tr ++ [(j, e)]) = events i tr ++ (if decide (j = i) then [e] else []).
Proof. unfold events. rewrite omap_app. cbn. by case_decide. Qed.

Lemma lock_served_prefix tr tr' : lock_served (tr ++ tr') → lock_served tr.
Proof. intros H before i e after ->. apply (H before i e (after ++ tr')). by rewrite <-app_assoc. Qed.

Lemma one_holder tr i j : lock_served tr → i ≠ j → holding (events i tr) = true → holding (events j tr) = false.
Proof.
  intros Hs Hne Hi. destruct (holding (events j tr)) eqn:Hj; [exfalso|done]. revert i j Hne Hi Hj.
  induction tr as [|[k e] tr IH] using rev_ind; intros i j Hne; [done|]. specialize (IH (lock_served_prefix _ _ Hs)).
  assert (∀ l, l ≠ k → holding (events k tr ++ [e]) = true → holding (events l tr) = true → False) as Hstep.
  { intros l Hl Hk Hl'. unfold holding in Hk. rewrite fold_left_app in Hk. cbn in Hk. destruct (acquires e) eqn:He.
    - by rewrite (Hs tr k e [] eq_refl He l Hl) in Hl'.
    - destruct (releases _); [done|]. by apply (IH k l). }
  rewrite !events_snoc. destruct (decide (k = i)) as [<-|Hi], (decide (k = j)) as [<-|Hj]; rewrite ?app_nil_r; [done|eauto..].
Qed.

(** C38: when the lock is given to one replica at a time, no two replicas of the API delete applications or
    AppProjects at the same time: while a replica that runs a sweep deletes, no other one holds the lock. *)
Theorem sweeps_exclusive tr before i e after :
  (∀ i, ∃ m, runs (argoCollection AppProjectNamespace LabelMarkKey Debug) (events i tr) m) → lock_served tr →
  tr = before ++ (i, e) :: after →
  match ev_Request e with PatchFinalizer _ _ | DeleteApplication _ _ | DeleteAppProject _ _ => True | _ => False end →
  holding (events i before) = true ∧ ∀ j, j ≠ i → holding (events j before) = false.
Proof.
  intros Hruns Hs -> He. destruct (Hruns i) as [m Hr]. destruct (runs_holds _ _ _ _ _ _ _ Hr argoCollection_holds) as [Ho _].
  assert (holding (events i before) = true) as Hi.
  { specialize (Ho (events i before) e (events i after)). unfold events in Ho. rewrite omap_app in Ho. cbn in Ho.
    rewrite decide_True in Ho by done. specialize (Ho eq_refl). cbn in Ho.
    destruct (ev_Request e); first [exact (proj1 Ho)|by destruct He]. }
  split; [done|]. intros j Hj. apply (one_holder before i j); [by eapply lock_served_prefix|congruence|done].
Qed.
End sweeps.

(** ** What the changes of an application ask for *)
Section applications.
Context {U : Type} {UL : UUIDLib}.
Context (SpxPrefix AppProjectNamespace : string) (nothing : U).
Abbreviation History := (list (Event (@ApiReply U))).
Abbreviation Ev q r := (mkEvent (Reply:=@ApiReply U) q r).
Implicit Types h : History.

Definition namespace_ready h (o p : string) : Prop := ∃ r,
  Ev (CreateNamespace (ArgoNamespace SpxPrefix p) (projectLabels SpxPrefix o p)) r ∈ h ∧ (r = Ok tt ∨ r = Err AlreadyExists).

(** An AppProject that exists: what is not its specification is kept. *)
Definition reconciled (p old : AppProject U) : AppProject U :=
  mkAppProject (ap_Name old) (ap_Namespace old) (ap_Labels old) (ap_Finalizers old) (ap_SourceNamespaces p) (ap_SourceRepos p)
    (ap_ClusterResourceWhitelist p) (ap_Description p) (ap_Destinations p) (ap_Rest old).

Definition project_read h (p old : AppProject U) : Prop :=
  Ev (CreateAppProject p) (Err AlreadyExists) ∈ h ∧ Ev (GetAppProject AppProjectNamespace (ap_Name p)) (Ok old) ∈ h.

Definition project_ready h (p : AppProject U) : Prop :=
  Ev (CreateAppProject p) (Ok tt) ∈ h ∨
  ∃ old, project_read h p old ∧ Ev (UpdateAppProject AppProjectNamespace (reconciled p old)) (Ok tt) ∈ h.

Definition create_may (m : Metadata) (info : CreateAppInfo (U:=U)) h (q : ApiRequest U) : Prop :=
  let p := newAppProject SpxPrefix AppProjectNamespace nothing (OrgId m) (ProjectId m) in
  match q with
  | CreateNamespace ns labels => ns = ArgoNamespace SpxPrefix (ProjectId m) ∧ labels = projectLabels SpxPrefix (OrgId m) (ProjectId m)
  | CreateAppProject p' => p' = p ∧ namespace_ready h (OrgId m) (ProjectId m)
  | GetAppProject ns name => ns = AppProjectNamespace ∧ name = ap_Name p ∧ Ev (CreateAppProject p) (Err AlreadyExists) ∈ h
  | UpdateAppProject ns p' => ns = AppProjectNamespace ∧ ∃ old, project_read h p old ∧ p' = reconciled p old
  | CreateApplication ns a => ns = ArgoNamespace SpxPrefix (ProjectId m) ∧ a = newApplication SpxPrefix nothing m info ∧
      namespace_ready h (OrgId m) (ProjectId m) ∧ project_ready h p
  | _ => False
  end.

(** The application that is written has only the source, the policy and the differences of the request. *)
Definition rewritten (info : AppSpec (U:=U)) (a : Application U) : Application U :=
  mkApplication (app_Name a) (app_Namespace a) (app_Labels a) (Some (applicationSource (spec_Source info))) (spec_IgnoreDifferences info)
    (app_DestinationName a) (app_DestinationNamespace a) (app_Project a) (Some DefaultSyncPolicy) (app_RevisionHistoryLimit a) (app_Rest a).

Definition update_may (name namespace : string) (info : AppSpec (U:=U)) h (q : ApiRequest U) : Prop :=
  match q with
  | GetApplication ns n => ns = namespace ∧ n = name
  | UpdateApplication ns a => ns = namespace ∧ ∃ old, Ev (GetApplication namespace name) (Ok old) ∈ h ∧
      labelOf (app_Labels old) SpxLabelGitops ≠ "true" ∧ a = rewritten info old
  | _ => False
  end.

Definition delete_may (name namespace : string) h (q : ApiRequest U) : Prop :=
  match q with
  | PatchFinalizer ns n => ns = namespace ∧ n = name
  | DeleteApplication ns n => ns = namespace ∧ n = name ∧ Ev (PatchFinalizer namespace name) (Ok tt) ∈ h
  | _ => False
  end.

Abbreviation thread P t h Φ := (holds False (λ _, True) P t h Φ).

Lemma namespace_ready_prefix h h' o p : h `prefix_of` h' → namespace_ready h o p → namespace_ready h' o p.
Proof. intros Hp (r & H & Hr). exists r. split; [by eapply in_prefix|done]. Qed.

Lemma project_read_prefix h h' p old : h `prefix_of` h' → project_read h p old → project_read h' p old.
Proof. intros Hp [? ?]. by split; eapply in_prefix. Qed.

Lemma project_ready_prefix h h' p : h `prefix_of` h' → project_ready h p → project_ready h' p.
Proof.
  intros Hp [H|(old & Hr & H)]; [left; by eapply in_prefix|right]. exists old. split; [by eapply project_read_prefix|by eapply in_prefix].
Qed.

Lemma ensureNamespace_holds m info h :
  thread (create_may m info) (ensureNamespace SpxPrefix (OrgId m) (ProjectId m)) h (λ r h', r = Ok tt → namespace_ready h' (OrgId m) (ProjectId m)).
Proof.
  unfold ensureNamespace. apply holds_bind, (request_holds (Reply:=@ApiReply U)); [done|by intros|]. intros h1 [[]|e] _.
  - intros _. exists (Ok tt). split; [apply in_snoc|by left].
  - destruct e; try done. intros _. exists (Err AlreadyExists). split; [apply in_snoc|by right].
Qed.

Lemma ensureAppProject_holds m info h : namespace_ready h (OrgId m) (ProjectId m) →
  thread (create_may m info) (ensureAppProject SpxPrefix AppProjectNamespace nothing (OrgId m) (ProjectId m)) h
    (λ r h', r = Ok tt → project_ready h' (newAppProject SpxPrefix AppProjectNamespace nothing (OrgId m) (ProjectId m))).
Proof.
  intros Hns. unfold ensureAppProject. set (p := newAppProject _ _ _ _ _). apply holds_bind, (request_holds (Reply:=@ApiReply U)); [done| |].
  { intros h' Hp. split; [done|]. by eapply namespace_ready_prefix. }
  intros h1 [[]|e] _; [intros _; left; apply in_snoc|]. destruct e; try done. set (h1' := h1 ++ _).
  assert (Ev (CreateAppProject p) (Err AlreadyExists) ∈ h1') as Hc by apply in_snoc.
  unfold updateAppProject, checked. apply holds_bind, (request_holds (Reply:=@ApiReply U)); [done| |].
  { intros h' Hp. split_and!; [done|done|]. by eapply in_prefix. }
  intros h2 [old|e] Hp2; [|done]. set (h2' := h2 ++ _).
  assert (project_read h2' p old) as Hr by (split; [eapply in_prefix; [by apply prefix_app_r|done]|apply in_snoc]).
  apply (request_holds (Reply:=@ApiReply U)); [done| |].
  { intros h' Hp. split; [done|]. exists old. split; [by eapply project_read_prefix|done]. }
  intros h3 [[]|e] Hp3; [|done]. intros _. right. exists old. split; [|apply in_snoc].
  eapply project_read_prefix; [by apply prefix_app_r|done].
Qed.

(** Whatever the API server answers, the creation of an application, of a project whose identifiers are
    valid, creates the application only in the namespace of the project, with its labels, after the namespace
    exists and the AppProject of the project was created, or was there and reconciled without losing its
    labels and finalizers; it succeeds only when the application was created. *)
Theorem app_created m info tr m' :
  ConvertToSpxMetadata (ci_Metadata info) (ci_Metadata info) = (m, None) →
  runs (inline (CreateApp SpxPrefix AppProjectNamespace nothing info)) tr m' →
  obeys (create_may m info) [] tr ∧ (m' = MRet' (Some (Ok tt)) →
    Ev (CreateApplication (ArgoNamespace SpxPrefix (ProjectId m)) (newApplication SpxPrefix nothing m info)) (Ok tt) ∈ tr).
Proof.
  intros Hm Hr. assert (thread (create_may m info) (CreateApp SpxPrefix AppProjectNamespace nothing info) [] (λ r h, r = Ok tt →
    Ev (CreateApplication (ArgoNamespace SpxPrefix (ProjectId m)) (newApplication SpxPrefix nothing m info)) (Ok tt) ∈ h)) as H.
  2:{ destruct (runs_holds _ _ _ _ _ _ _ Hr (inline_holds _ _ _ _ _ H)) as [Ho HΦ]. split; [exact Ho|]. intros ->.
      destruct HΦ as (a & tr' & [= <-] & _ & _ & Ha). by apply Ha. }
  unfold CreateApp. rewrite Hm. eapply holds_then; [apply ensureNamespace_holds|]. intros [[]|e] h1 Hns _; [|done].
  eapply holds_then; [apply ensureAppProject_holds; auto|]. intros [[]|e] h2 Hp Hp2; [|done]. apply (request_holds (Reply:=@ApiReply U)); [done| |].
  - intros h3 Hp3. split_and!; [done..| |]; [apply (namespace_ready_prefix h1); [by etrans|by apply Hns]|apply (project_ready_prefix h2); [done|by apply Hp]].
  - intros h3 [[]|e] _; [|done]. intros _. apply in_snoc.
Qed.

(** Whatever the API server answers, an update changes an application only if it was read without the label
    of GitOps, and keeps everything of it but its source, policy and ignored differences; a deletion asks
    for nothing before the application has the finalizer that deletes its resources. *)
Theorem app_changes name namespace info tr m' :
  (runs (inline (UpdateApp name namespace info)) tr m' → obeys (update_may name namespace info) [] tr) ∧
  (runs (inline (DeleteApp (U:=U) name namespace)) tr m' → obeys (delete_may name namespace) [] tr).
Proof.
  assert (∀ P (t : Thread (@ApiReply U) (result ApiError unit)), thread P t [] (λ _ _, True) → runs (inline t) tr m' → obeys P [] tr) as Hobeys.
  { intros P t Ht Hr. by destruct (runs_holds _ _ _ _ _ _ _ Hr (inline_holds _ _ _ _ _ Ht)). }
  split; apply Hobeys.
  - unfold UpdateApp, checked. apply holds_bind, (request_holds (Reply:=@ApiReply U)); [done|done|]. intros h1 [a|e] _; [|done]. case_decide as Hg; [done|].
    apply (request_holds (Reply:=@ApiReply U)); [done| |done]. intros h2 Hp2. split; [done|]. exists a. split_and!; [eapply in_prefix; [done|apply in_snoc]|done|done].
  - unfold DeleteApp, checked. apply holds_bind, (request_holds (Reply:=@ApiReply U)); [done|done|]. intros h1 [[]|e] _; [|done].
    apply (request_holds (Reply:=@ApiReply U)); [done| |done]. intros h2 Hp2. split_and!; [done|done|]. eapply in_prefix; [done|apply in_snoc].
Qed.
End applications.

(** ** A project *)
Module RemovalSample.
Fixpoint lower (s : string) : string :=
  match s with
  | EmptyString => EmptyString
  | String c s => let n := Ascii.nat_of_ascii c in
      String (if bool_decide (65 ≤ n ∧ n ≤ 90)%nat then Ascii.ascii_of_nat (n + 32) else c) (lower s)
  end.

(** The form of 36 characters, whose letters may be capitals. *)
#[export] Instance uuids : UUIDLib := {|
  UUID := string;
  uuid_Parse s := if decide (String.length s = 36%nat) then Some (lower s) else None;
  NewSHA1 u s := u +:+ s;
  uuid_String u := u;
|}.

Definition key : string := "superphenix.net/markedForDeletion".
Definition hour : Z := 3600 * 1000000000.
Definition organization := "0f1e5be5-4c92-4147-b46c-1b018c80f722".
Definition project := "e98222a9-187a-4b1b-8f37-89eb1d3bc23c".
Definition capitals := "E98222A9-187A-4B1B-8F37-89EB1D3BC23C".
Definition azs : gmap string AZConfig := {["z1" := mkAZConfig "z1" "secret" "Z1" EmptyString "https://z1" "z1" []]}.

Definition source : AppSource unit := mkAppSource "https://charts" "1.0" "chart" EmptyString tt (mkPlugin EmptyString tt).
Definition info : CreateAppInfo :=
  mkCreateAppInfo (mkMetadata organization project EmptyString "cluster") (mkAppGeneral "app" "z1") (mkAppSpec source tt).
Definition app : Application unit :=
  newApplication "spx" tt (ConvertToSpxMetadata (ci_Metadata info) (ci_Metadata info)).1 info.
Definition appProject : AppProject unit := newAppProject "spx" "argocd" tt organization project.

Definition selected (selector : Selector) (labels : option (gmap string string)) : bool :=
  match selector with
  | HasMark => bool_decide (is_Some (default ∅ labels !! key))
  | OfProject value => bool_decide (default ∅ labels !! SpxLabelProjectID = Some value)
  end.

(** The application, as it was last written, in its namespace. *)
Definition applications (h : list (Event (@ApiReply unit))) : list (Application unit) :=
  fold_left (λ apps e, match ev_Request e with UpdateApplication _ a => [a] | DeleteApplication _ _ => [] | _ => apps end) h [app].

Definition server (h : list (Event (@ApiReply unit))) (q : ApiRequest unit) : ApiReply q :=
  match q return ApiReply q with
  | FindProject p o => if decide (p = project ∧ o = organization) then Ok tt else Err RowNotFound
  | SendMark _ _ => Ok 200
  | ApiNow => Z.of_nat (length h) * hour
  | ListApplications ns selector =>
    Ok (filter (λ a, selected selector (app_Labels a) = true ∧ (ns = EmptyString ∨ ns = app_Namespace a)) (applications h))
  | GetApplication _ _ => Ok app
  | ListAppProjects _ selector => Ok (filter (λ p, selected selector (ap_Labels p) = true) [appProject])
  | GetAppProject _ _ => Ok appProject
  | CreateAppProject _ => Err AlreadyExists
  | ContextErr => None
  | TryLock => Ok true
  | ReleaseLock => tt
  | CreateNamespace _ _ | UpdateAppProject _ _ | DeleteAppProject _ _ | CreateApplication _ _
  | UpdateApplication _ _ | PatchFinalizer _ _ | DeleteApplication _ _ | WaitMinute | DeleteProducts _ _
  | DeleteProjectRow _ _ | DeleteRelations _ _ => Ok tt
  end.

(** After [before], up to [fuel] steps. *)
Definition execute {A} fuel before (m : Main (@ApiReply unit) A) := exec (λ h, server (before ++ h)) (λ h, length h) fuel [] m.
Definition remove (id : string) := execute 100 [] (DeleteProject "spx" "argocd" key hour (λ _, 0) azs organization (Some id)).
Definition removal := execute 100 [] (RemoveProject "spx" "argocd" key hour (λ _, 0) azs organization project).
Definition sweep fuel := execute fuel removal.2 (argoCollection "argocd" key false).
Definition creation := execute 100 [] (inline (CreateApp "spx" "argocd" tt info)).

(** Another replica tries to get the lock after the first one, which goes on. *)
Definition two_replicas : list (nat * Event (@ApiReply unit)) :=
  match (sweep 4).2 with
  | first :: events => (0%nat, first) :: (1%nat, mkEvent (Reply:=@ApiReply unit) TryLock (Ok false)) :: (pair 0%nat <$> events)
  | [] => []
  end.

Definition requests (h : list (Event (@ApiReply unit))) : list (ApiRequest unit) :=
  omap (λ e, match ev_Request e with
    | UpdateApplication _ _ | UpdateAppProject _ _ | DeleteApplication _ _ | DeleteAppProject _ _ | DeleteProjectRow _ _ => Some (ev_Request e)
    | _ => None
    end) h.
End RemovalSample.
#[local] Existing Instance RemovalSample.uuids.

(** The identifier of a project in capitals deletes its rows, and leaves its applications: they are looked
    for in the namespace and with the label of the identifier as it is in the request. *)
Lemma capitals_leave_applications :
  (RemovalSample.remove RemovalSample.capitals).1 = MRet' 200 ∧
  RemovalSample.requests (RemovalSample.remove RemovalSample.capitals).2 = [DeleteProjectRow RemovalSample.project RemovalSample.organization].
Proof. vm_compute. done. Qed.

(** With another prefix, an application names an AppProject that is not the one of its project. *)
Lemma project_of_application nothing m info :
  app_Project (newApplication (U:=unit) "dev" nothing m info) = ap_Name (newAppProject (U:=unit) "dev" "argocd" nothing (OrgId m) (ProjectId m)) →
  ProjectId m = EmptyString.
Proof.
  cbn. unfold ToSPXID. case_decide; [done|]. discriminate.
Qed.

Lemma execute_runs {A} fuel before (m : Main (@ApiReply unit) A) :
  runs m (RemovalSample.execute fuel before m).2 (RemovalSample.execute fuel before m).1.
Proof.
  unfold RemovalSample.execute. pose proof (exec_runs (λ h, RemovalSample.server (before ++ h)) (λ h, length h) fuel m []) as H.
  destruct (exec _ _ fuel [] m) as [m' h]. destruct H as (tr & -> & Hr). exact Hr.
Qed.

(** A lock that is acquired once. *)
Lemma lock_served_once {U} i e (tr : list (nat * Event (@ApiReply U))) :
  forallb (λ x, negb (acquires x.2)) tr = true → lock_served ((i, e) :: tr).
Proof.
  intros Htr [|x before] i' e' after; intros Heq; [done|]. injection Heq as _ ->. intros He. exfalso.
  rewrite forallb_app in Htr. apply andb_true_iff in Htr as [_ Htr]. cbn in Htr. by rewrite He in Htr.
Qed.

(** ** Witnesses *)

Lemma removal_guarded_witness :
  obeys (remove_may "spx" "argocd" RemovalSample.key RemovalSample.hour (λ _, 0) RemovalSample.azs RemovalSample.organization RemovalSample.project)
    [] RemovalSample.removal.2 ∧
  everything_marked "spx" "argocd" RemovalSample.key RemovalSample.hour (λ _, 0) RemovalSample.azs RemovalSample.organization RemovalSample.project
    RemovalSample.removal.2.
Proof.
  destruct (removal_guarded "spx" "argocd" RemovalSample.key RemovalSample.hour (λ _, 0) RemovalSample.azs RemovalSample.organization
    RemovalSample.project _ _ (execute_runs 100 [] _)) as [Ho H]. split; [exact Ho|].
  destruct H as (p & o & _ & _ & Hm & _); [vm_compute; reflexivity|exact Hm].
Defined.

Lemma app_created_witness :
  let m := (ConvertToSpxMetadata (ci_Metadata RemovalSample.info) (ci_Metadata RemovalSample.info)).1 in
  obeys (create_may "spx" "argocd" tt m RemovalSample.info) [] RemovalSample.creation.2 ∧
  mkEvent (Reply:=@ApiReply unit) (CreateApplication (ArgoNamespace "spx" (ProjectId m)) (newApplication "spx" tt m RemovalSample.info)) (Ok tt)
    ∈ RemovalSample.creation.2.
Proof.
  intros m. assert (ConvertToSpxMetadata (ci_Metadata RemovalSample.info) (ci_Metadata RemovalSample.info) = (m, None)) as Hm by (vm_compute; reflexivity).
  destruct (app_created "spx" "argocd" tt m RemovalSample.info _ _ Hm (execute_runs 100 [] _)) as [Ho H].
  split; [exact Ho|apply H; vm_compute; reflexivity].
Defined.

Lemma argo_sweep_guarded_witness :
  RemovalSample.requests (RemovalSample.sweep 100).2 =
    [DeleteApplication "spx-e98222a9-187a-4b1b-8f37-89eb1d3bc23c" "app"] ∧
  obeys (sweep_may "argocd" RemovalSample.key false) [] (RemovalSample.sweep 100).2.
Proof.
  split; [vm_compute; reflexivity|].
  exact (proj1 (argo_sweep_guarded "argocd" RemovalSample.key false _ _ (execute_runs 100 RemovalSample.removal.2 _))).
Defined.

Lemma sweeps_exclusive_witness :
  ∃ before e after, RemovalSample.two_replicas = before ++ (0%nat, e) :: after ∧
  ev_Request e = PatchFinalizer "spx-e98222a9-187a-4b1b-8f37-89eb1d3bc23c" "app" ∧
  ∀ j, j ≠ 0%nat → holding (events j before) = false.
Proof.
  destruct (last RemovalSample.two_replicas) as [[i e]|] eqn:Hlast; [|by vm_compute in Hlast].
  assert (i = 0%nat ∧ ev_Request e = PatchFinalizer "spx-e98222a9-187a-4b1b-8f37-89eb1d3bc23c" "app") as [-> He]
    by (vm_compute in Hlast; injection Hlast as <- <-; vm_compute; done).
  apply last_Some in Hlast as [before Htr]. exists before, e, []. split; [exact Htr|]. split; [exact He|].
  assert (RemovalSample.two_replicas = before ++ (0%nat, e) :: []) as Htr' by exact Htr.
  refine (proj2 (sweeps_exclusive "argocd" RemovalSample.key false RemovalSample.two_replicas before 0%nat e [] _ _ Htr' _)).
  - intros [|[|i]].
    + exists (RemovalSample.sweep 4).1. assert (events 0 RemovalSample.two_replicas = (RemovalSample.sweep 4).2) as -> by (vm_compute; reflexivity).
      apply execute_runs.
    + exists (MRet' (Some (Ok tt))). assert (events 1 RemovalSample.two_replicas = [mkEvent (Reply:=@ApiReply unit) TryLock (Ok false)]) as -> by (vm_compute; reflexivity).
      apply (runs_call (Reply:=@ApiReply unit) TryLock _ (Ok false)), runs_stop.
    + exists (argoCollection "argocd" RemovalSample.key false). assert (events (S (S i)) RemovalSample.two_replicas = []) as -> by (vm_compute; reflexivity).
      apply runs_stop.
  - unfold RemovalSample.two_replicas. destruct (RemovalSample.sweep 4).2 as [|first tr] eqn:Hs; [by vm_compute in Hs|].
    apply lock_served_once. vm_compute in Hs. injection Hs as _ <-. vm_compute. reflexivity.
  - by rewrite He.
Defined.
